(* ===== verification/_CoqProject ===== *)
-Q . S2P
Prelude.v
Object.v
Data.v
DataInv.v
DataRefs.v
DataBuild.v
DataSpec.v
DataOps.v
DataApply.v
DataTheorems.v
ObjectTheorems.v
Transform.v
TransformSpec.v
BaseEncode.v
BaseDecode.v
BaseCodec.v
BaseSpec.v
UtfSpec.v
TransformTheorems.v
Conc.v
Mpsc.v
Time.v
TimeTheorems.v
Futex.v
Semaphore.v
SemaphoreTheorems.v
ThreadSema.v
Once.v
Lane.v
LaneInv.v
LaneStep.v
LaneQuiet.v
LaneLists.v
LanePush.v
LaneWait.v
LaneCalls.v
LaneTheorems.v
Apply.v
ApplyInv.v
ApplyStep.v
ApplyTheorems.v
Group.v
GroupInv.v
GroupList.v
GroupStep.v
GroupTheorems.v
Queue.v
QueueTheorems.v
RootQueue.v
RootInv.v
RootStep.v
RootPool.v
RootTheorems.v
Source.v
SourceReg.v
SourceCore.v
SourceOps.v
SourceLink.v
SourceCalls.v
SourceMove.v
SourceInstall.v
Timer.v
TimerRun.v
SourceInvoke.v
SourceSafe.v
SourceType.v
SourceTheorems.v
SourceLife.v
TimerCount.v
SourceExamples.v
Io.v
IoStream.v
IoDisk.v
IoTrack.v
IoOp.v
IoLife.v
IoModel.v
IoTheorems.v
IoTotal.v
IoBarrier.v
