(* ===== verification/Prelude.v ===== *)
(** * libdispatch: verification development (root file)

    Grand Central Dispatch as this repository builds it on Linux: LP64
    little-endian, [USE_FUTEX_SEM], no Mach, no Objective-C, the thread pool of
    pthreads ([DISPATCH_USE_PTHREAD_POOL]), [DISPATCH_DEBUG] off.

    ** The program and the files

    Reference-counted objects are at the bottom; on them stand queues, data
    objects and (as objects with a value) semaphores and groups; the futex and
    the thread semaphores carry what blocks.

    - [Prelude]: machine integers with their wrap-around ([wrapU], [wrapS]), the
      state-and-error monad [M] with its weakest precondition [wp], multisets of
      references, sums over maps, the tactics [consts], [mlia], [dec],
      [wp_steps] and the hint database [dispatch].
    - [Conc]: components whose functions run concurrently.  A function is cut at
      its atomic accesses; [tstep choice i l g] is the next step of thread [i];
      [reachable] closes it over all interleavings; [tsum] weighs the threads.
      [choice] stands for what the code leaves open: the caller's next call, the
      clocks, the kernel.
    - [Object], [ObjectTheorems] (object.c, object_internal.h): the heap, the two
      reference counts, suspension, disposal.  A vtable is an instance of the
      class [DispatchClass]; [release] is the chain of object.c down to it.
    - [Data] (data.c, data_internal.h): the ropes, one definition per function;
      [DataInv], [DataRefs], [DataBuild]: the heap invariant with exact accounting
      of references, and retain, release and allocation against it; [DataSpec],
      [DataOps], [DataApply]: the bytes of an object and the specification of
      each operation; [DataTheorems]: what callers get.
    - [Transform] (transform.c): the codecs over the regions of a data object;
      [TransformSpec], [BaseEncode], [BaseDecode], [BaseCodec], [BaseSpec],
      [UtfSpec]: the loops as list functions, and RFC 4648 in arithmetic;
      [TransformTheorems].
    - [Time], [TimeTheorems] (time.c, shims/time.h).
    - [Futex], [Semaphore], [SemaphoreTheorems], [ThreadSema] (semaphore.c,
      semaphore_internal.h): the futex word with the kernel's sleepers, counting
      semaphores and thread semaphores as machines over it, and the store of
      counters through which [Once] sees thread semaphores.
    - [Group] (semaphore.c): enter, leave, wait, notify and the wake-up;
      [GroupInv]: the value, the waiters and the posts; [GroupList], [GroupStep]:
      the lock-free list of notifications; [GroupTheorems].
    - [Once] (once.c, dispatch/once.h): the predicate as a list of waiters.
    - [Mpsc]: the theory of a list that is pushed on with an exchange of its
      tail, over any threads that say what they open and link.
    - [Lane] (queue.c, queue_internal.h, object.c): the scheduling of a queue of
      any width on a root queue: push, wake-up, drain, invoke, asynchronous and
      synchronous submission, suspension.  [LaneInv]: the invariant of a serial
      queue; [LaneStep], [LaneQuiet], [LaneLists], [LanePush], [LaneWait],
      [LaneCalls]: every step keeps it; [LaneTheorems].
    - [Queue], [QueueTheorems] (queue.c, queue_internal.h, init.c): the static
      queues, creation, disposal, width, target, queue-specific contexts.
    - [Apply] (apply.c, queue_internal.h): the parallel loop, as a machine of the
      caller and its workers over one record; [ApplyInv], [ApplyStep]: its
      invariant; [ApplyTheorems].
    - [RootQueue] (queue.c, queue_internal.h, semaphore.c): a root queue, the
      mediator at its head, and the threads of its pool; [RootInv], [RootStep],
      [RootPool]: the list and the pool; [RootTheorems].
    - [Source], [Timer], [SourceInvoke] (source.c, source_internal.h, init.c,
      queue.c): the kernel events with their hash table and lists of sources,
      the lists of timers, and the life of a source.  [SourceReg]: the part of
      the state that the invariant is about; [SourceCore], [SourceOps],
      [SourceLink], [SourceCalls], [SourceMove], [SourceInstall], [TimerRun]:
      the specification of each operation against it; [SourceSafe],
      [SourceType]: every call keeps it; [SourceTheorems], [SourceLife],
      [TimerCount], [SourceExamples].
    - [Io], [IoStream], [IoDisk] (io.c, io_internal.h): channels, the entries of
      descriptors and the operations; streams; disks.  Data objects are the class
      [DataApi] with its laws, which [DataTheorems] shows of the ropes, and the
      kernel is the class [IoKernel].  A system call cuts a handler in two; the
      queues are lists of blocks, and [io_exec_all] runs any sequence of calls,
      turns of the queues and events.  [IoTrack], [IoOp], [IoLife]: what every step
      does to the bytes of one operation; [IoModel]: instances of the classes,
      and runs; [IoTheorems]; [IoTotal]: every call ends; [IoBarrier]: barriers.

    ** What the theorems show

    - Data: concat, subrange, map, copy_region, apply and create return the
      bytes they promise on every good heap, with exact reference counts;
      release frees what no client can reach, and nothing else.  The bounds
      check of subrange wraps around, with the consequence.
    - Transforms: the encoders are RFC 4648 (base 32 but for groups of four
      bytes, where it is wrong), the decoders invert them; on text in one region whose
      padding does not outnumber its bytes the base 64 decoder is RFC 4648, and
      other characters are rejected without a leak; concrete runs show the
      wrap-around, the padding counted twice and the overrun of other text. The
      UTF-8 reader inverts the writer.
    - Semaphores: permits balance in every interleaving and no wake-up is lost,
      with spurious returns ([K_spurious]), signals and time-outs of the kernel.
    - Groups: no thread sleeps on an empty group; every notification is
      submitted exactly once; the references balance and no freed node is used.
    - Once: the function runs once, nobody returns before it has, nobody waits
      for ever, no stack record is used after its function returned.
    - Objects: disposal happens exactly with the last reference; suspension
      nests; weak retain never resurrects.
    - Scheduling: a serial queue runs one function at a time, in the order of
      the pushes, and forgets neither an item nor a thread that waits; on a
      concurrent queue a barrier is not exclusive.
    - Queues: the tables of root queues, creation, the contexts as a map, the
      destructors at disposal, the bounds of the width.
    - The parallel loop: each index is called once, nothing is used after it is
      gone, no call hangs, and the number of steps is bounded.
    - Root queues: items leave in the order of the pushes, each once, none is
      forgotten, and the pool stays within its size.
    - Event sources, of every type of init.c without Mach: no call uses a kernel
      event that is gone or breaks a list, but [dispatch_source_merge_data] on a
      source that was uninstalled after its cancellation, which a concrete run
      shows to fault; a source is on the list of exactly its event, which asks
      the kernel for what its sources want; the probe agrees with the invocation;
      a source that is cancelled or given up settles, installed or not, and its
      cancellation handler is called once exactly if it was cancelled; merged
      values are delivered.
    - Timers: the lists are sorted, a run fires what is due, the manager sleeps
      until the earliest date, and dates are counted once.
    - Dispatch I/O: what is read for an operation is delivered, in order and
      once, and what is written is the data that was submitted, up to what its
      handler gets back with an error; the handler is told once that it is done;
      reads respect the high water mark and the length; a barrier is called between
      operations; every call ends.
      Concrete runs show the crashes and the stall that a stop can lead to.
    - Time: the encoding denotes a deadline, and the functions respect it.

    ** Bounds and fuel

    [DATA_DEPTH] bounds the recursion of subrange and apply, which the invariant
    keeps at depth two; [DISPOSE_DEPTH] the chain of releases, which is as deep;
    the theorems show that the operations return.  The concurrent theorems hold
    for fewer than [INT_MAX] threads ([2^28] for a queue), with their numbers of
    calls below [LONG_MAX] ([2^29] suspensions) where a counter could wrap; those
    of the parallel loop for fewer than [2^63] iterations.  [KEVENT_DEPTH] is two:
    the registration that a registration leads to finds the source installed.
    [timers_fuel]: a run of the timers meets each timer twice at most.  [drive 6]:
    a source that is over is served in six invocations, and a run needs them all.
    The loops of dispatch I/O
    have as many turns as operations wait ([pick_fuel], [disk_work]) and places
    are in the ring; [io_calls_end] shows that this is enough.

    ** What is not modelled

    The functions of source.c and Timer run one after the other, each to its end:
    the manager queue and the target queue of a source run concurrently in the
    program, and steps of [_dispatch_run_timers] and of
    [_dispatch_source_latch_and_call] are not interleaved here; what the theorems on
    sources and timers say is said of the orders in which whole functions can run.
    In dispatch I/O, likewise, a handler is cut at its system call only.

    The main queue and queues that target other queues: the workers of [Lane]
    take what is on its target in order.  The wait of the manager thread in
    [kevent] and [select], [dispatch_after], benchmarks, tracing, the
    continuation cache, the debug printers, Mach and Objective-C code, and the
    shims for atomics, thread-specific data and the allocator, whose documented
    behaviour the definitions use.  The disposal of a source is that of objects;
    the allocations of source.c succeed.  Of io.c: how channels and entries are
    made, the lifetime of an entry (its close queue; an entry outlives its
    operations), and the convenience functions, which are built on these; the
    handlers of an operation run in the order in which their blocks are pushed,
    and a stream source is its suspensions. *)

From Stdlib Require Export ZArith Lia Bool.
From stdpp Require Export base tactics option list gmap gmultiset strings.

#[export] Set Default Goal Selector "!".
#[global] Open Scope Z_scope.

(** ** Machine integers *)

(** [wrapU w z]: the value of [z] converted to an unsigned [w]-bit type. *)
Definition wrapU (w z : Z) : Z := z mod 2 ^ w.

(** [wrapS w z]: the value of [z] converted to a signed, two's complement
    [w]-bit type. *)
Definition wrapS (w z : Z) : Z := (z + 2 ^ (w - 1)) mod 2 ^ w - 2 ^ (w - 1).

Abbreviation u8 := (wrapU 8).
Abbreviation u16 := (wrapU 16).
Abbreviation u32 := (wrapU 32).
Abbreviation u64 := (wrapU 64).
Abbreviation i8 := (wrapS 8).
Abbreviation i32 := (wrapS 32).
Abbreviation i64 := (wrapS 64).

Definition INT_MAX : Z := 2147483647.
Definition UINT32_MAX : Z := 4294967295.
Definition INT64_MAX : Z := 9223372036854775807.
Definition INT64_MIN : Z := -9223372036854775808.
Definition SIZE_MAX : Z := 18446744073709551615.
Definition UINT64_MAX : Z := 18446744073709551615.
Definition LONG_MAX : Z := 9223372036854775807.
Definition LONG_MIN : Z := -9223372036854775808.

(** [fits w z] : [z] is a value of the unsigned [w]-bit type. *)
Definition fits (w z : Z) : Prop := 0 ≤ z < 2 ^ w.

#[global] Instance fits_dec w z : Decision (fits w z).
Proof. unfold fits; apply _. Defined.

Lemma wrapU_range w z : 0 ≤ w → 0 ≤ wrapU w z < 2 ^ w.
Proof. intros. unfold wrapU. apply Z.mod_pos_bound. lia. Qed.

Lemma wrapU_small w z : 0 ≤ z < 2 ^ w → wrapU w z = z.
Proof. intros. unfold wrapU. by apply Z.mod_small. Qed.

Lemma wrapS_range w z : 0 < w → - 2 ^ (w - 1) ≤ wrapS w z < 2 ^ (w - 1).
Proof.
  intros. unfold wrapS.
  assert (2 ^ w = 2 * 2 ^ (w - 1)) as E by (rewrite <- Z.pow_succ_r by lia; f_equal; lia).
  pose proof (Z.mod_pos_bound (z + 2 ^ (w - 1)) (2 ^ w)). lia.
Qed.

Lemma wrapS_small w z : 0 < w → - 2 ^ (w - 1) ≤ z < 2 ^ (w - 1) → wrapS w z = z.
Proof.
  intros. unfold wrapS.
  assert (2 ^ w = 2 * 2 ^ (w - 1)) as E by (rewrite <- Z.pow_succ_r by lia; f_equal; lia).
  rewrite Z.mod_small; lia.
Qed.

(** Evaluate the constants, then decide linear arithmetic with [/] and [mod]
    turned into their defining equations. *)
Ltac consts :=
  unfold wrapU, wrapS, fits, INT_MAX, UINT32_MAX, INT64_MAX, INT64_MIN, SIZE_MAX,
    UINT64_MAX, LONG_MAX, LONG_MIN in *;
  repeat match goal with
  | H : context [Z.pow 2 ?k] |- _ => let v := eval vm_compute in (Z.pow 2 k) in
      is_closed_Z v; change (Z.pow 2 k) with v in H
  | |- context [Z.pow 2 ?k] => let v := eval vm_compute in (Z.pow 2 k) in
      is_closed_Z v; change (Z.pow 2 k) with v
  end
with is_closed_Z v := match v with Zpos _ => idtac | Z0 => idtac end.
Ltac mlia := consts; Z.div_mod_to_equations; lia.

(** Resolve the [decide]s whose condition arithmetic settles. *)
Ltac dec_step :=
  match goal with
  | |- context [if @decide ?P ?D then ?x else ?y] =>
      first [ rewrite (@decide_True _ P D x y) by (consts; lia)
            | rewrite (@decide_False _ P D x y) by (consts; lia) ]
  end.
Ltac dec := repeat dec_step.

(** A mask keeps the low bits. *)
Lemma land_mask k x : 0 ≤ k → Z.land x (2 ^ k - 1) = x mod 2 ^ k.
Proof. intros. rewrite <- Z.land_ones by lia. f_equal. by rewrite Z.ones_equiv, <- Z.sub_1_r. Qed.

(** Projections of an equation between results, without evaluating them. *)
Lemma some_pair {A B} (a a' : A) (b b' : B) : Some (a, b) = Some (a', b') → a' = a ∧ b' = b.
Proof. by intros [= -> ->]. Qed.

(** ** Multisets *)

(** Membership in a union, without looking at the context. *)
Ltac ms_in :=
  lazymatch goal with
  | |- _ ∈ _ ⊎ _ => apply gmultiset_elem_of_disj_union; first [left; ms_in | right; ms_in]
  | |- _ ∈ {[+ _ +]} => apply gmultiset_elem_of_singleton; reflexivity
  | |- _ => eassumption
  end.

Section Multisets.
Context `{Countable A}.
Implicit Types (m : gmultiset A) (x y z : A).

Lemma ms_take m x : (m ⊎ {[+ x +]}) ∖ {[+ x +]} = m.
Proof. multiset_solver. Qed.
Lemma ms_take2 m x y : (m ⊎ {[+ x +]} ⊎ {[+ y +]}) ∖ {[+ x +]} = m ⊎ {[+ y +]}.
Proof. multiset_solver. Qed.
Lemma ms_take3 m x y z : (m ⊎ {[+ x +]} ⊎ {[+ y +]} ⊎ {[+ z +]}) ∖ {[+ x +]} = m ⊎ {[+ y +]} ⊎ {[+ z +]}.
Proof. multiset_solver. Qed.
Lemma ms_take_mid m x y z : (m ⊎ {[+ x +]} ⊎ {[+ y +]} ⊎ {[+ z +]}) ∖ {[+ y +]} = m ⊎ {[+ x +]} ⊎ {[+ z +]}.
Proof. multiset_solver. Qed.
End Multisets.

(** ** Faults and the state monad *)

(** The ways a call fails to return: the two crash macros with their message, a
    C undefined behaviour (an access outside an object, a use after free, a
    signed overflow), and the exhaustion of the fuel given to a recursion. *)
Inductive fault : Type :=
  | DISPATCH_CRASH (msg : string)
  | DISPATCH_CLIENT_CRASH (msg : string)
  | UB (what : string)
  | OutOfFuel.

#[global] Instance fault_eq : EqDecision fault.
Proof. solve_decision. Defined.

Inductive outcome (S A : Type) : Type :=
  | Ok (a : A) (s : S)
  | Fault (f : fault).
Arguments Ok {S A}.
Arguments Fault {S A}.

Definition M (S A : Type) : Type := S → outcome S A.

#[global] Instance M_ret S : MRet (M S) := λ A a s, Ok a s.
#[global] Instance M_bind S : MBind (M S) := λ A B k m s,
  match m s with Ok a s' => k a s' | Fault f => Fault f end.

Definition getS {S} : M S S := λ s, Ok s s.
Definition putS {S} (s : S) : M S unit := λ _, Ok tt s.
Definition modifyS {S} (f : S → S) : M S unit := λ s, Ok tt (f s).
Definition fail {S A} (f : fault) : M S A := λ _, Fault f.
(** Read through an option: absence is undefined behaviour. *)
Definition try_opt {S A} (what : string) (o : option A) : M S A :=
  match o with Some a => mret a | None => fail (UB what) end.
Definition assertS {S} (f : fault) (b : bool) : M S unit :=
  if b then mret tt else fail f.

(** [wp m Q s]: run from [s], the computation returns, and [Q] holds of its
    result and final state (total correctness: no fault, no lack of fuel). *)
Definition wp {S A} (m : M S A) (Q : A → S → Prop) (s : S) : Prop :=
  match m s with Ok a s' => Q a s' | Fault _ => False end.

Section WpRules.
Context {S : Type}.

Lemma wp_ret {A} (a : A) Q (s : S) : Q a s → wp (mret a) Q s.
Proof. done. Qed.

Lemma wp_bind {A B} (m : M S A) (k : A → M S B) Q s :
  wp m (λ a s', wp (k a) Q s') s → wp (m ≫= k) Q s.
Proof. unfold wp, mbind, M_bind. by destruct (m s). Qed.

Lemma wp_bind_inv {A B} (m : M S A) (k : A → M S B) Q s :
  wp (m ≫= k) Q s → wp m (λ a s', wp (k a) Q s') s.
Proof. unfold wp, mbind, M_bind. by destruct (m s). Qed.

Lemma wp_mono {A} (m : M S A) (Q Q' : A → S → Prop) s :
  wp m Q s → (∀ a s', Q a s' → Q' a s') → wp m Q' s.
Proof. unfold wp. destruct (m s); auto. Qed.

Lemma wp_get (Q : S → S → Prop) s : Q s s → wp getS Q s.
Proof. done. Qed.

Lemma wp_put s0 (Q : unit → S → Prop) s : Q tt s0 → wp (putS s0) Q s.
Proof. done. Qed.

Lemma wp_modify f (Q : unit → S → Prop) s : Q tt (f s) → wp (modifyS f) Q s.
Proof. done. Qed.

Lemma wp_try_opt {A} what (o : option A) a (Q : A → S → Prop) s :
  o = Some a → Q a s → wp (try_opt what o) Q s.
Proof. by intros ->. Qed.

Lemma wp_assert f b (Q : unit → S → Prop) s :
  b = true → Q tt s → wp (assertS f b) Q s.
Proof. by intros ->. Qed.

Lemma wp_ok {A} (m : M S A) Q s : wp m Q s ↔ ∃ a s', m s = Ok a s' ∧ Q a s'.
Proof.
  unfold wp. split.
  - destruct (m s); [eauto | done].
  - by intros (a & s' & -> & HQ).
Qed.

Lemma wp_conj {A} (m : M S A) (Q Q' : A → S → Prop) s :
  wp m Q s → wp m Q' s → wp m (λ a s', Q a s' ∧ Q' a s') s.
Proof. unfold wp. by destruct (m s). Qed.

(** A fact about every normal return may be added to a specification. *)
Lemma wp_frame {A} (m : M S A) (Q R : A → S → Prop) s :
  (∀ a s', m s = Ok a s' → R a s') → wp m Q s → wp m (λ a s', Q a s' ∧ R a s') s.
Proof. unfold wp. destruct (m s); auto. Qed.
End WpRules.

Create HintDb dispatch.
#[export] Hint Resolve wp_ret wp_get wp_put wp_modify : dispatch.

(** One step of symbolic execution at the head of a [wp] goal. *)
Ltac wp_step :=
  lazymatch goal with
  | |- wp (mbind _ _) _ _ => apply wp_bind
  | |- wp (mret _) _ _ => apply wp_ret
  | |- wp getS _ _ => apply wp_get
  | |- wp (putS _) _ _ => apply wp_put
  | |- wp (modifyS _) _ _ => apply wp_modify
  | |- wp (let _ := _ in _) _ _ => cbv zeta
  end.
Ltac wp_steps := repeat (wp_step; cbv beta).

(** ** Sums over finite maps *)

Section MapSum.
Context {A : Type}.
Implicit Types (f g : A → Z) (m : gmap nat A).

(** [msum f m]: the sum of [f] over the values of [m]. *)
Definition msum f m : Z := map_fold (λ _ a acc, f a + acc) 0 m.

Lemma msum_empty f : msum f ∅ = 0.
Proof. apply map_fold_empty. Qed.

Lemma msum_insert f m i a : m !! i = None → msum f (<[i:=a]> m) = f a + msum f m.
Proof.
  intros. unfold msum. apply (map_fold_insert_L (λ _ a acc, f a + acc)); [|done].
  intros; lia.
Qed.

Lemma msum_delete f m i a : m !! i = Some a → msum f (delete i m) = msum f m - f a.
Proof.
  intros Hi. rewrite <- (insert_delete_id m i a Hi) at 2.
  rewrite msum_insert by (apply lookup_delete_eq). lia.
Qed.

Lemma msum_update f m i a a' :
  m !! i = Some a → msum f (<[i:=a']> m) = msum f m - f a + f a'.
Proof.
  intros Hi. rewrite <- insert_delete_eq, msum_insert by (apply lookup_delete_eq).
  rewrite (msum_delete f m i a Hi). lia.
Qed.

Lemma msum_nonneg f m : (∀ i a, m !! i = Some a → 0 ≤ f a) → 0 ≤ msum f m.
Proof.
  induction m as [|i a m Hi IH] using map_ind; [by rewrite msum_empty|].
  intros H. rewrite msum_insert by done.
  assert (0 ≤ f a) by (apply (H i); apply lookup_insert_eq).
  enough (0 ≤ msum f m) by lia.
  apply IH. intros j b Hj. apply (H j). rewrite lookup_insert_ne; [done|congruence].
Qed.

(** A positive sum has a positive summand. *)
Lemma msum_exists f m : 0 < msum f m → ∃ i a, m !! i = Some a ∧ 0 < f a.
Proof.
  induction m as [|i a m Hi IH] using map_ind; [by rewrite msum_empty|].
  rewrite msum_insert by done. intros H. destruct (decide (0 < f a)).
  - exists i, a. by rewrite lookup_insert_eq.
  - destruct IH as (j & b & Hj & ?); [lia|]. exists j, b.
    rewrite lookup_insert_ne; [done|congruence].
Qed.

Lemma msum_zero f m : (∀ i a, m !! i = Some a → f a = 0) → msum f m = 0.
Proof.
  induction m as [|i a m Hi IH] using map_ind; [by rewrite msum_empty|].
  intros H. rewrite msum_insert by done. rewrite (H i a) by apply lookup_insert_eq.
  rewrite IH; [done|]. intros j b Hj. apply (H j). rewrite lookup_insert_ne; [done|congruence].
Qed.

Lemma msum_pos f m i a :
  (∀ j b, m !! j = Some b → 0 ≤ f b) → m !! i = Some a → f a ≤ msum f m.
Proof.
  intros H Hi. rewrite <- (insert_delete_id m i a Hi).
  rewrite msum_insert by (apply lookup_delete_eq).
  enough (0 ≤ msum f (delete i m)) by lia.
  apply msum_nonneg. intros j b [_ Hj]%lookup_delete_Some. eauto.
Qed.
End MapSum.
