(* ===== verification/Object.v ===== *)
(** * Dispatch objects: reference counts, suspension, disposal (src/object.c)

    The heap shared by the object-based components, the two reference counts
    of an object, and the chain release -> xref_dispose -> release_internal ->
    dispose -> dealloc.  What a class does on disposal is the interface
    [DispatchClass], the counterpart of the vtable. *)

From S2P Require Import Prelude.

(** ** The heap *)

(** A pointer: null, the address [off] bytes into the malloc block [b], or the
    address of the dispatch object [o]. *)
Inductive ptr : Type :=
  | PNull
  | PBuf (b : nat) (off : Z)
  | PObj (o : nat).

#[global] Instance ptr_eq_dec : EqDecision ptr.
Proof. solve_decision. Defined.

(** A [dispatch_block_t]: null, one of the sentinel blocks of data.c, a block
    (or function) of the client, or the block that calls [f] on [arg]. *)
Inductive dispatch_block_t : Type :=
  | B_NULL
  | B_destructor_free
  | B_destructor_none
  | B_destructor_vm_deallocate
  | B_client (id : nat)
  | B_call (f : dispatch_block_t) (arg : ptr).

#[global] Instance block_eq_dec : EqDecision dispatch_block_t.
Proof. solve_decision. Defined.

(** A call of [dispatch_async_f] made by the library: a block given to
    [_dispatch_call_block_and_release], or a finalizer on its context. *)
Inductive async_call : Type :=
  | ACallBlock (q : option nat) (b : dispatch_block_t)
  | AFinalize (q : option nat) (ctxt func : Z).

(** The struct header of every object ([DISPATCH_STRUCT_HEADER]) followed by
    the fields of its class. *)
Record dispatch_object_s {P : Type} : Type := DObj {
  do_ref_cnt : Z;
  do_xref_cnt : Z;
  do_next : Z;
  do_targetq : option nat;
  do_ctxt : Z;
  do_finalizer : Z;
  do_suspend_cnt : Z;
  do_payload : P
}.
Arguments dispatch_object_s : clear implicits.
Arguments DObj {P}.

(** Live objects, live malloc blocks, the next fresh identifier, the results
    of the coming [malloc] calls ([true]: out of memory; none left: success),
    the value of the bytes of a fresh malloc block, and the [dispatch_async_f]
    calls made, the latest first. *)
Record world {P : Type} : Type := World {
  w_objs : gmap nat (dispatch_object_s P);
  w_bufs : gmap nat (list Z);
  w_next : nat;
  w_oom : list bool;
  w_junk : Z;
  w_async : list async_call
}.
Arguments world : clear implicits.
Arguments World {P}.

Definition DISPATCH_OBJECT_GLOBAL_REFCNT : Z := INT_MAX.
Definition DISPATCH_OBJECT_LISTLESS : Z := 0xffffffff89abcdef.
Definition DISPATCH_OBJECT_SUSPEND_LOCK : Z := 1.
Definition DISPATCH_OBJECT_SUSPEND_INTERVAL : Z := 2.
Definition DISPATCH_SOURCE_KEVENT_TYPE : Z := 0x20001.
Definition DISPATCH_QUEUE_TYPE : Z := 0x10001.
Definition DISPATCH_DATA_TYPE : Z := 0x40000.

Section Heap.
Context {P : Type}.
Abbreviation object := (dispatch_object_s P).
Abbreviation W := (world P).
Abbreviation MW := (M (world P)).

Definition set_objs (m : gmap nat object) (w : W) : W :=
  World m (w_bufs w) (w_next w) (w_oom w) (w_junk w) (w_async w).
Definition set_bufs (m : gmap nat (list Z)) (w : W) : W :=
  World (w_objs w) m (w_next w) (w_oom w) (w_junk w) (w_async w).
Definition log_async (c : async_call) (w : W) : W :=
  World (w_objs w) (w_bufs w) (w_next w) (w_oom w) (w_junk w) (c :: w_async w).

Definition upd_ref (f : Z → Z) (ob : object) : object :=
  DObj (f (do_ref_cnt ob)) (do_xref_cnt ob) (do_next ob) (do_targetq ob)
    (do_ctxt ob) (do_finalizer ob) (do_suspend_cnt ob) (do_payload ob).
Definition upd_xref (f : Z → Z) (ob : object) : object :=
  DObj (do_ref_cnt ob) (f (do_xref_cnt ob)) (do_next ob) (do_targetq ob)
    (do_ctxt ob) (do_finalizer ob) (do_suspend_cnt ob) (do_payload ob).
Definition upd_suspend (f : Z → Z) (ob : object) : object :=
  DObj (do_ref_cnt ob) (do_xref_cnt ob) (do_next ob) (do_targetq ob)
    (do_ctxt ob) (do_finalizer ob) (f (do_suspend_cnt ob)) (do_payload ob).
Definition upd_next (n : Z) (ob : object) : object :=
  DObj (do_ref_cnt ob) (do_xref_cnt ob) n (do_targetq ob)
    (do_ctxt ob) (do_finalizer ob) (do_suspend_cnt ob) (do_payload ob).
Definition upd_targetq (q : option nat) (ob : object) : object :=
  DObj (do_ref_cnt ob) (do_xref_cnt ob) (do_next ob) q
    (do_ctxt ob) (do_finalizer ob) (do_suspend_cnt ob) (do_payload ob).
Definition upd_ctxt (c : Z) (ob : object) : object :=
  DObj (do_ref_cnt ob) (do_xref_cnt ob) (do_next ob) (do_targetq ob)
    c (do_finalizer ob) (do_suspend_cnt ob) (do_payload ob).
Definition upd_finalizer (f : Z) (ob : object) : object :=
  DObj (do_ref_cnt ob) (do_xref_cnt ob) (do_next ob) (do_targetq ob)
    (do_ctxt ob) f (do_suspend_cnt ob) (do_payload ob).
Definition upd_payload (p : P) (ob : object) : object :=
  DObj (do_ref_cnt ob) (do_xref_cnt ob) (do_next ob) (do_targetq ob)
    (do_ctxt ob) (do_finalizer ob) (do_suspend_cnt ob) p.

(** Access to an object that was freed is undefined behaviour. *)
Definition get_obj (o : nat) : MW object :=
  λ w, match w_objs w !! o with
       | Some ob => Ok ob w
       | None => Fault (UB "object freed")
       end.
Definition set_obj (o : nat) (ob : object) : MW unit :=
  modifyS (λ w, set_objs (<[o:=ob]> (w_objs w)) w).
Definition modify_obj (o : nat) (f : object → object) : MW unit :=
  ob ← get_obj o; set_obj o (f ob).

(** [_os_object_alloc]: [calloc] retried until it succeeds, so every field
    of the header is zero. *)
Definition _dispatch_alloc (p : P) : MW nat := λ w,
  let o := w_next w in
  Ok o (World (<[o := DObj 0 0 0 None 0 0 0 p]> (w_objs w)) (w_bufs w)
          (S o) (w_oom w) (w_junk w) (w_async w)).

(** [malloc(n)]: null when the oracle says so, else a fresh block of [n]
    bytes of unspecified value. *)
Definition malloc (n : Z) : MW ptr := λ w,
  match w_oom w with
  | true :: oom =>
      Ok PNull (World (w_objs w) (w_bufs w) (w_next w) oom (w_junk w) (w_async w))
  | oom =>
      let b := w_next w in
      Ok (PBuf b 0) (World (w_objs w) (<[b := replicate (Z.to_nat n) (w_junk w)]> (w_bufs w))
                       (S b) (tail oom) (w_junk w) (w_async w))
  end.

(** [free(p)]: nothing on null; otherwise [p] must be the start of a live
    block. *)
Definition free (p : ptr) : MW unit := λ w,
  match p with
  | PNull => Ok tt w
  | PBuf b 0 =>
      match w_bufs w !! b with
      | Some _ => Ok tt (set_bufs (delete b (w_bufs w)) w)
      | None => Fault (UB "double free")
      end
  | _ => Fault (UB "free of a bad pointer")
  end.

(** [n] bytes at [p]. *)
Definition load (p : ptr) (n : Z) : MW (list Z) := λ w,
  match p with
  | PBuf b off =>
      match w_bufs w !! b with
      | Some l =>
          if decide (0 ≤ off ∧ 0 ≤ n ∧ off + n ≤ Z.of_nat (length l))
          then Ok (take (Z.to_nat n) (drop (Z.to_nat off) l)) w
          else Fault (UB "read out of bounds")
      | None => Fault (UB "read of a freed block")
      end
  | _ => Fault (UB "read of a bad pointer")
  end.

(** Overwrite the bytes [bs] at offset [off] of the list [l]. *)
Definition splice (l : list Z) (off : nat) (bs : list Z) : list Z :=
  take off l ++ bs ++ drop (off + length bs) l.

Definition store (p : ptr) (bs : list Z) : MW unit := λ w,
  match p with
  | PBuf b off =>
      match w_bufs w !! b with
      | Some l =>
          if decide (0 ≤ off ∧ off + Z.of_nat (length bs) ≤ Z.of_nat (length l))
          then Ok tt (set_bufs (<[b := splice l (Z.to_nat off) bs]> (w_bufs w)) w)
          else Fault (UB "write out of bounds")
      | None => Fault (UB "write to a freed block")
      end
  | _ => Fault (UB "write to a bad pointer")
  end.

(** [memcpy(dst, src, n)]. *)
Definition memcpy (dst src : ptr) (n : Z) : MW unit :=
  bs ← load src n; store dst bs.

Definition ptr_add (p : ptr) (n : Z) : ptr :=
  match p with PBuf b off => PBuf b (off + n) | p => p end.

Definition dispatch_async_f (c : async_call) : MW unit := modifyS (log_async c).
End Heap.

(** ** The class interface *)

(** What the vtable of an object supplies: its type, its [do_dispose], which
    may release other objects through the [dispatch_release] it is given, and
    [_dispatch_source_xref_dispose], which only sources reach. *)
Class DispatchClass (P : Type) : Type := {
  dx_type : P → Z;
  dx_dispose : (nat → M (world P) unit) → nat → M (world P) unit;
  _dispatch_source_xref_dispose : nat → M (world P) unit
}.

Section Object.
Context {P : Type} `{DispatchClass P}.
Abbreviation MW := (M (world P)).

(** *** Reference counts *)

Definition _os_object_retain_count (o : nat) : MW Z :=
  ob ← get_obj o;
  if decide (do_xref_cnt ob = DISPATCH_OBJECT_GLOBAL_REFCNT) then mret UINT64_MAX
  else mret (u64 (i32 (do_xref_cnt ob + 1))).

Definition _os_object_retain_internal (o : nat) : MW unit :=
  ob ← get_obj o;
  if decide (do_ref_cnt ob = DISPATCH_OBJECT_GLOBAL_REFCNT) then mret tt
  else
    let ref_cnt := i32 (do_ref_cnt ob + 1) in
    set_obj o (upd_ref (λ _, ref_cnt) ob);;
    assertS (DISPATCH_CRASH "Resurrection of an object") (0 <? ref_cnt).

Definition _os_object_release_internal (dispose : nat → MW unit) (o : nat) : MW unit :=
  ob ← get_obj o;
  if decide (do_ref_cnt ob = DISPATCH_OBJECT_GLOBAL_REFCNT) then mret tt
  else
    let ref_cnt := i32 (do_ref_cnt ob - 1) in
    set_obj o (upd_ref (λ _, ref_cnt) ob);;
    if decide (0 ≤ ref_cnt) then mret tt
    else if decide (ref_cnt < -1) then fail (DISPATCH_CRASH "Over-release of an object")
    else dispose o.

Definition _os_object_retain (o : nat) : MW unit :=
  ob ← get_obj o;
  if decide (do_xref_cnt ob = DISPATCH_OBJECT_GLOBAL_REFCNT) then mret tt
  else
    let xref_cnt := i32 (do_xref_cnt ob + 1) in
    set_obj o (upd_xref (λ _, xref_cnt) ob);;
    assertS (DISPATCH_CLIENT_CRASH "Resurrection of an object") (0 <? xref_cnt).

Definition _os_object_release (xref_dispose : nat → MW unit) (o : nat) : MW unit :=
  ob ← get_obj o;
  if decide (do_xref_cnt ob = DISPATCH_OBJECT_GLOBAL_REFCNT) then mret tt
  else
    let xref_cnt := i32 (do_xref_cnt ob - 1) in
    set_obj o (upd_xref (λ _, xref_cnt) ob);;
    if decide (0 ≤ xref_cnt) then mret tt
    else if decide (xref_cnt < -1)
    then fail (DISPATCH_CLIENT_CRASH "Over-release of an object")
    else xref_dispose o.

(** The [retry] loop of [_os_object_retain_weak].  [env] holds the values
    that other threads store into the count just before each of the coming
    compare-and-swaps; with none left the swap is undisturbed. *)
Fixpoint retain_weak_retry (env : list Z) (xref_cnt : Z) (o : nat) : MW bool :=
  if decide (xref_cnt = -1) then mret false
  else if decide (xref_cnt < -1)
  then fail (DISPATCH_CLIENT_CRASH "Over-release of an object")
  else
    match env with
    | [] => modify_obj o (upd_xref (λ _, i32 (xref_cnt + 1)));; mret true
    | v :: env =>
        modify_obj o (upd_xref (λ _, v));;
        if decide (v = xref_cnt)
        then modify_obj o (upd_xref (λ _, i32 (xref_cnt + 1)));; mret true
        else retain_weak_retry env v o
    end.

Definition _os_object_retain_weak (env : list Z) (o : nat) : MW bool :=
  ob ← get_obj o;
  if decide (do_xref_cnt ob = DISPATCH_OBJECT_GLOBAL_REFCNT) then mret true
  else retain_weak_retry env (do_xref_cnt ob) o.

Definition _os_object_allows_weak_reference (o : nat) : MW bool :=
  ob ← get_obj o;
  if decide (do_xref_cnt ob = -1) then mret false
  else if decide (do_xref_cnt ob < -1)
  then fail (DISPATCH_CLIENT_CRASH "Over-release of an object")
  else mret true.

(** *** Disposal *)

Definition DISPATCH_OBJECT_SUSPENDED (ob : dispatch_object_s P) : bool :=
  DISPATCH_OBJECT_SUSPEND_INTERVAL <=? do_suspend_cnt ob.

Definition _dispatch_xref_dispose (dispose : nat → MW unit) (o : nat) : MW unit :=
  ob ← get_obj o;
  if DISPATCH_OBJECT_SUSPENDED ob
  then fail (DISPATCH_CLIENT_CRASH "Release of a suspended object")
  else
    (if decide (dx_type (do_payload ob) = DISPATCH_SOURCE_KEVENT_TYPE)
     then _dispatch_source_xref_dispose o else mret tt);;
    _os_object_release_internal dispose o.

Definition _os_object_dealloc (o : nat) : MW unit :=
  modifyS (λ w, set_objs (delete o (w_objs w)) w).

Definition _dispatch_dealloc (dispose : nat → MW unit) (o : nat) : MW unit :=
  ob ← get_obj o;
  let tq := do_targetq ob in
  let func := do_finalizer ob in
  let ctxt := do_ctxt ob in
  _os_object_dealloc o;;
  (if decide (func ≠ 0 ∧ ctxt ≠ 0)
   then dispatch_async_f (AFinalize tq ctxt func) else mret tt);;
  match tq with
  | Some q => _os_object_release_internal dispose q
  | None => fail (UB "null target queue")
  end.

(** Disposal releases other objects, hence itself: the recursion is on a
    fuel that bounds the depth of the chain. *)
Fixpoint _dispatch_dispose (fuel : nat) (o : nat) : MW unit :=
  match fuel with
  | O => fail OutOfFuel
  | S n =>
      ob ← get_obj o;
      if decide (do_next ob ≠ DISPATCH_OBJECT_LISTLESS)
      then fail (DISPATCH_CRASH "Release while enqueued")
      else
        dx_dispose (_os_object_release (_dispatch_xref_dispose (_dispatch_dispose n))) o;;
        _dispatch_dealloc (_dispatch_dispose n) o
  end.

Definition dispatch_retain (o : nat) : MW unit := _os_object_retain o.
Definition _dispatch_retain (o : nat) : MW unit := _os_object_retain_internal o.
Definition dispatch_release (fuel : nat) (o : nat) : MW unit :=
  _os_object_release (_dispatch_xref_dispose (_dispatch_dispose fuel)) o.
Definition _dispatch_release (fuel : nat) (o : nat) : MW unit :=
  _os_object_release_internal (_dispatch_dispose fuel) o.

(** *** Context, finalizer, suspension *)

Definition dispatch_get_context (o : nat) : MW Z :=
  ob ← get_obj o; mret (do_ctxt ob).

Definition dispatch_set_context (o : nat) (context : Z) : MW unit :=
  ob ← get_obj o;
  if decide (do_ref_cnt ob ≠ DISPATCH_OBJECT_GLOBAL_REFCNT)
  then set_obj o (upd_ctxt context ob) else mret tt.

Definition dispatch_set_finalizer_f (o : nat) (finalizer : Z) : MW unit :=
  modify_obj o (upd_finalizer finalizer).

Definition dispatch_suspend (o : nat) : MW unit :=
  ob ← get_obj o;
  if decide (do_ref_cnt ob = DISPATCH_OBJECT_GLOBAL_REFCNT) then mret tt
  else
    set_obj o (upd_suspend (λ c, u32 (c + DISPATCH_OBJECT_SUSPEND_INTERVAL)) ob);;
    _dispatch_retain o.

(** [wakeup] is [_dispatch_wakeup] of queue.c. *)
Definition _dispatch_resume_slow (wakeup : nat → MW unit) (fuel o : nat) : MW unit :=
  wakeup o;; _dispatch_release fuel o.

Definition dispatch_resume (wakeup : nat → MW unit) (fuel o : nat) : MW unit :=
  ob ← get_obj o;
  if decide (do_ref_cnt ob = DISPATCH_OBJECT_GLOBAL_REFCNT) then mret tt
  else
    let c := u32 (do_suspend_cnt ob - DISPATCH_OBJECT_SUSPEND_INTERVAL) in
    set_obj o (upd_suspend (λ _, c) ob);;
    let suspend_cnt := u32 (c + DISPATCH_OBJECT_SUSPEND_INTERVAL) in
    if decide (DISPATCH_OBJECT_SUSPEND_INTERVAL < suspend_cnt)
    then _dispatch_release fuel o
    else if decide (suspend_cnt = DISPATCH_OBJECT_SUSPEND_INTERVAL)
    then _dispatch_resume_slow wakeup fuel o
    else fail (DISPATCH_CLIENT_CRASH "Over-resume of an object").
End Object.

(** ** Access to a live object *)

Section Access.
Context {P : Type}.

Lemma wp_get_obj (o : nat) ob Q (w : world P) :
  w_objs w !! o = Some ob → Q ob w → wp (get_obj o) Q w.
Proof. unfold wp, get_obj. by intros ->. Qed.

Lemma wp_set_obj (o : nat) ob (Q : unit → world P → Prop) (w : world P) :
  Q tt (set_objs (<[o:=ob]> (w_objs w)) w) → wp (set_obj o ob) Q w.
Proof. done. Qed.

Lemma wp_modify_obj (o : nat) f ob (Q : unit → world P → Prop) (w : world P) :
  w_objs w !! o = Some ob →
  Q tt (set_objs (<[o:=f ob]> (w_objs w)) w) → wp (modify_obj o f) Q w.
Proof. intros Ho HQ. unfold modify_obj. wp_step. by eapply wp_get_obj. Qed.
End Access.

(** ** Running the reference-count operations *)

Section Counts.
Context {P : Type} `{DispatchClass P}.
Implicit Types (w : world P) (ob : dispatch_object_s P) (o : nat).

Definition put_obj o ob w : world P := set_objs (<[o:=ob]> (w_objs w)) w.

Lemma put_same o ob w : w_objs w !! o = Some ob → put_obj o ob w = w.
Proof. intros Ho. unfold put_obj, set_objs. rewrite insert_id by done. by destruct w. Qed.

Lemma put_put o ob ob' w : put_obj o ob' (put_obj o ob w) = put_obj o ob' w.
Proof. unfold put_obj, set_objs. simpl. by rewrite insert_insert_eq. Qed.

Lemma put_get o ob w : w_objs (put_obj o ob w) !! o = Some ob.
Proof. apply lookup_insert_eq. Qed.

Definition not_global (c : Z) : Prop := c ≠ DISPATCH_OBJECT_GLOBAL_REFCNT.

Lemma retain_run o ob w :
  w_objs w !! o = Some ob → 0 ≤ do_xref_cnt ob < INT_MAX - 1 →
  dispatch_retain o w = Ok tt (put_obj o (upd_xref (λ c, c + 1) ob) w).
Proof.
  intros Ho Hc. unfold dispatch_retain, _os_object_retain, mbind, M_bind, get_obj. rewrite Ho.
  unfold DISPATCH_OBJECT_GLOBAL_REFCNT.
  rewrite decide_False by (consts; lia). cbv zeta. rewrite wrapS_small by (consts; lia).
  unfold set_obj, modifyS, assertS. by rewrite (proj2 (Z.ltb_lt 0 (do_xref_cnt ob + 1))) by lia.
Qed.

Lemma retain_internal_run o ob w :
  w_objs w !! o = Some ob → 0 ≤ do_ref_cnt ob < INT_MAX - 1 →
  _dispatch_retain o w = Ok tt (put_obj o (upd_ref (λ c, c + 1) ob) w).
Proof.
  intros Ho Hc. unfold _dispatch_retain, _os_object_retain_internal, mbind, M_bind, get_obj. rewrite Ho.
  unfold DISPATCH_OBJECT_GLOBAL_REFCNT.
  rewrite decide_False by (consts; lia). cbv zeta. rewrite wrapS_small by (consts; lia).
  unfold set_obj, modifyS, assertS. by rewrite (proj2 (Z.ltb_lt 0 (do_ref_cnt ob + 1))) by lia.
Qed.

(** One decrement of either count: what is left of the call. *)
Lemma release_run xd o ob w :
  w_objs w !! o = Some ob → 0 ≤ do_xref_cnt ob < INT_MAX →
  _os_object_release xd o w =
    (if decide (do_xref_cnt ob = 0) then xd o else mret tt) (put_obj o (upd_xref (λ c, c - 1) ob) w).
Proof.
  intros Ho Hc. unfold _os_object_release, mbind, M_bind, get_obj. rewrite Ho.
  unfold DISPATCH_OBJECT_GLOBAL_REFCNT.
  rewrite decide_False by (consts; lia). cbv zeta. rewrite wrapS_small by (consts; lia).
  unfold set_obj, modifyS. repeat case_decide; done || lia.
Qed.

Lemma release_internal_run disp o ob w :
  w_objs w !! o = Some ob → 0 ≤ do_ref_cnt ob < INT_MAX →
  _os_object_release_internal disp o w =
    (if decide (do_ref_cnt ob = 0) then disp o else mret tt) (put_obj o (upd_ref (λ c, c - 1) ob) w).
Proof.
  intros Ho Hc. unfold _os_object_release_internal, mbind, M_bind, get_obj. rewrite Ho.
  unfold DISPATCH_OBJECT_GLOBAL_REFCNT.
  rewrite decide_False by (consts; lia). cbv zeta. rewrite wrapS_small by (consts; lia).
  unfold set_obj, modifyS. repeat case_decide; done || lia.
Qed.

(** The disposal reached from the last external reference of an object that is
    neither suspended nor a source. *)
Lemma xref_dispose_run disp o ob w :
  w_objs w !! o = Some ob → do_suspend_cnt ob < DISPATCH_OBJECT_SUSPEND_INTERVAL →
  dx_type (do_payload ob) ≠ DISPATCH_SOURCE_KEVENT_TYPE →
  _dispatch_xref_dispose disp o w = _os_object_release_internal disp o w.
Proof.
  intros Ho Hs Ht. unfold _dispatch_xref_dispose, mbind, M_bind, get_obj at 1. rewrite Ho.
  unfold DISPATCH_OBJECT_SUSPENDED. rewrite (proj2 (Z.leb_gt _ _)) by lia.
  by rewrite decide_False by done.
Qed.
End Counts.
