(* ===== verification/Data.v ===== *)
(** * Dispatch data objects (src/data.c, src/data_internal.h)

    Immutable byte ropes: a leaf represents a whole malloc block, a composite a
    list of records, each a range of a leaf.  The configuration is the one of
    the CMake build: [DISPATCH_DATA_MOVABLE] off, no Mach. *)

From S2P Require Import Prelude Object.

(** ** Data *)

Record range_record : Type := RR {
  data_object : ptr;
  from : Z;
  rlength : Z
}.

Record dispatch_data_s : Type := DD {
  leaf : bool;
  destructor : dispatch_block_t;
  dsize : Z;
  records : list range_record
}.

(** The classes of the objects of this heap.  Queues appear only as the target
    queues of data objects. *)
Inductive class : Type :=
  | CData (d : dispatch_data_s)
  | CQueue.

Abbreviation W := (world class).
Abbreviation MW := (M (world class)).

(** [num_records]: only [_dispatch_data_init] sets it, to the length of the
    flexible array member it allocates. *)
Definition num_records (d : dispatch_data_s) : Z := Z.of_nat (length (records d)).

(** The identifiers of the two statically allocated objects: [dispatch_data_empty]
    and the global queue of default priority. *)
Definition dispatch_data_empty : nat := 0.
Definition default_queue : nat := 1.

Definition DISPATCH_DATA_DESTRUCTOR_DEFAULT : dispatch_block_t := B_NULL.
Definition DISPATCH_DATA_DESTRUCTOR_FREE : dispatch_block_t := B_destructor_free.
Definition DISPATCH_DATA_DESTRUCTOR_NONE : dispatch_block_t := B_destructor_none.

Definition _dispatch_data_empty : dispatch_object_s class :=
  DObj DISPATCH_OBJECT_GLOBAL_REFCNT DISPATCH_OBJECT_GLOBAL_REFCNT
    DISPATCH_OBJECT_LISTLESS None 0 0 0 (CData (DD false B_NULL 0 [])).

(** The depth of the object graph a release walks: a composite, its leaves. *)
Definition DISPOSE_DEPTH : nat := 3.
(** The depth of the recursions of [create_subrange], [apply] and [copy_region]. *)
Definition DATA_DEPTH : nat := 2.

(** ** Access *)

Definition as_obj (p : ptr) : MW nat :=
  match p with PObj o => mret o | _ => fail (UB "not an object") end.

Definition get_data (o : nat) : MW dispatch_data_s :=
  ob ← get_obj o;
  match do_payload ob with
  | CData d => mret d
  | CQueue => fail (UB "not a data object")
  end.

Definition modify_data (o : nat) (f : dispatch_data_s → dispatch_data_s) : MW unit :=
  d ← get_data o; modify_obj o (upd_payload (CData (f d))).

Definition set_leaf (b : bool) (d : dispatch_data_s) : dispatch_data_s :=
  DD b (destructor d) (dsize d) (records d).
Definition set_destructor (k : dispatch_block_t) (d : dispatch_data_s) : dispatch_data_s :=
  DD (leaf d) k (dsize d) (records d).
Definition set_size (n : Z) (d : dispatch_data_s) : dispatch_data_s :=
  DD (leaf d) (destructor d) n (records d).
Definition set_records (rs : list range_record) (d : dispatch_data_s) : dispatch_data_s :=
  DD (leaf d) (destructor d) (dsize d) rs.

(** [records[i]]. *)
Definition get_record (d : dispatch_data_s) (i : nat) : MW range_record :=
  try_opt "records out of bounds" (records d !! i).

(** ** Creation and disposal *)

Definition _dispatch_data_init (n : nat) : MW nat :=
  data ← _dispatch_alloc (CData (DD false B_NULL 0 (replicate n (RR PNull 0 0))));
  modify_obj data (upd_targetq (Some default_queue));;
  modify_obj data (upd_next DISPATCH_OBJECT_LISTLESS);;
  mret data.

(** [Block_copy] of a block of the client returns a block that runs the same
    code; the sentinels are global blocks, which it returns as they are. *)
Definition _dispatch_Block_copy (db : dispatch_block_t) : MW dispatch_block_t :=
  if decide (db = B_NULL)
  then fail (DISPATCH_CLIENT_CRASH "NULL was passed where a block should have been")
  else mret db.

Definition _dispatch_data_destroy_buffer (buffer : ptr) (size : Z)
    (queue : option nat) (destructor : dispatch_block_t) : MW unit :=
  if decide (destructor = DISPATCH_DATA_DESTRUCTOR_FREE) then free buffer
  else if decide (destructor = DISPATCH_DATA_DESTRUCTOR_NONE) then mret tt
  else
    let queue := match queue with Some q => q | None => default_queue end in
    dispatch_async_f (ACallBlock (Some queue) destructor).

Definition dispatch_data_create (buffer : ptr) (size : Z) (queue : option nat)
    (destructor : dispatch_block_t) : MW (option nat) :=
  if decide (buffer = PNull ∨ size = 0) then
    (if decide (destructor ≠ B_NULL) then
       k ← _dispatch_Block_copy destructor;
       _dispatch_data_destroy_buffer buffer size queue k
     else mret tt);;
    mret (Some dispatch_data_empty)
  else
    data ← _dispatch_data_init 1;
    modify_data data (set_leaf true);;
    modify_data data (set_size size);;
    modify_data data (set_records [RR PNull 0 size]);;
    buffer' ←
      (if decide (destructor = DISPATCH_DATA_DESTRUCTOR_DEFAULT) then
         data_buf ← malloc size;
         if decide (data_buf = PNull) then
           _os_object_dealloc data;;
           mret None
         else
           memcpy data_buf buffer size;;
           modify_data data (set_destructor DISPATCH_DATA_DESTRUCTOR_FREE);;
           mret (Some data_buf)
       else
         k ← _dispatch_Block_copy destructor;
         modify_data data (set_destructor k);;
         mret (Some buffer));
    match buffer' with
    | None => mret None
    | Some buffer =>
        modify_data data (set_records [RR buffer 0 size]);;
        (match queue with
         | Some q => _dispatch_retain q;; modify_obj data (upd_targetq (Some q))
         | None => mret tt
         end);;
        mret (Some data)
    end.

Definition dispatch_data_create_f_np (buffer : ptr) (size : Z) (queue : option nat)
    (destructor_function : dispatch_block_t) : MW (option nat) :=
  let destructor :=
    if decide (destructor_function ≠ DISPATCH_DATA_DESTRUCTOR_DEFAULT ∧
               destructor_function ≠ DISPATCH_DATA_DESTRUCTOR_FREE ∧
               destructor_function ≠ DISPATCH_DATA_DESTRUCTOR_NONE)
    then B_call destructor_function buffer else destructor_function in
  dispatch_data_create buffer size queue destructor.

(** The loop that releases the sub-objects of the records. *)
Fixpoint release_records (release : nat → MW unit) (rs : list range_record) : MW unit :=
  match rs with
  | [] => mret tt
  | r :: rs => o ← as_obj (data_object r); release o;; release_records release rs
  end.

Definition _dispatch_data_dispose (release : nat → MW unit) (dd : nat) : MW unit :=
  ob ← get_obj dd;
  d ← get_data dd;
  if decide (destructor d = B_NULL) then release_records release (records d)
  else
    r ← get_record d 0;
    _dispatch_data_destroy_buffer (data_object r) (rlength r) (do_targetq ob)
      (destructor d).

(** Data objects implement the class interface; disposing of a queue is the
    business of queue.c and is not reached from data objects, whose target
    queues the clients keep alive. *)
#[export] Instance data_class : DispatchClass class := {|
  dx_type p := match p with CData _ => DISPATCH_DATA_TYPE | CQueue => DISPATCH_QUEUE_TYPE end;
  dx_dispose release o :=
    ob ← get_obj o;
    match do_payload ob with
    | CData _ => _dispatch_data_dispose release o
    | CQueue => fail (UB "disposal of a queue in use")
    end;
  _dispatch_source_xref_dispose _ := mret tt
|}.

Definition _dispatch_data_retain (o : nat) : MW unit := dispatch_retain o.
Definition _dispatch_data_release (o : nat) : MW unit := dispatch_release DISPOSE_DEPTH o.

(** ** Operations *)

Definition dispatch_data_get_size (dd : nat) : MW Z := d ← get_data dd; mret (dsize d).

Fixpoint retain_records (rs : list range_record) : MW unit :=
  match rs with
  | [] => mret tt
  | r :: rs => o ← as_obj (data_object r); _dispatch_data_retain o;; retain_records rs
  end.

(** [data->records[i].data_object = o]. *)
Definition set_record_object (i : nat) (o : nat) (rs : list range_record) : list range_record :=
  alter (λ r, RR (PObj o) (from r) (rlength r)) i rs.

Definition dispatch_data_create_concat (dd1 dd2 : nat) : MW nat :=
  d1 ← get_data dd1;
  if decide (dsize d1 = 0) then _dispatch_data_retain dd2;; mret dd2
  else
    d2 ← get_data dd2;
    if decide (dsize d2 = 0) then _dispatch_data_retain dd1;; mret dd1
    else
      let n1 := length (records d1) in
      data ← _dispatch_data_init (n1 + length (records d2));
      modify_data data (set_size (u64 (dsize d1 + dsize d2)));;
      modify_data data (set_records (records d1 ++ records d2));;
      (if leaf d1
       then modify_data data (λ d, set_records (set_record_object 0 dd1 (records d)) d)
       else mret tt);;
      (if leaf d2
       then modify_data data (λ d, set_records (set_record_object n1 dd2 (records d)) d)
       else mret tt);;
      d ← get_data data;
      retain_records (records d);;
      mret data.

(** [while (i < num_records && offset >= records[i].length)]: the records left
    and the offset into the first of them. *)
Fixpoint skip_records (rs : list range_record) (offset : Z) : list range_record * Z :=
  match rs with
  | r :: rs' =>
      if decide (rlength r ≤ offset) then skip_records rs' (u64 (offset - rlength r))
      else (rs, offset)
  | [] => ([], offset)
  end.

Section Subrange.
Variable create_subrange : nat → Z → Z → MW nat.

(** The second loop of [dispatch_data_create_subrange]. *)
Fixpoint subrange_loop (rs : list range_record) (data : nat) (offset bytes_left : Z)
  : MW nat :=
  match rs with
  | [] => fail (DISPATCH_CRASH "dispatch_data_create_subrange out of bounds")
  | r :: rs =>
      let record_len := u64 (rlength r - offset) in
      let record_len := if decide (bytes_left < record_len) then bytes_left else record_len in
      o ← as_obj (data_object r);
      subrange ← create_subrange o (u64 (from r + offset)) record_len;
      concat ← dispatch_data_create_concat data subrange;
      _dispatch_data_release data;;
      _dispatch_data_release subrange;;
      let bytes_left := u64 (bytes_left - record_len) in
      if decide (bytes_left = 0) then mret concat
      else subrange_loop rs concat 0 bytes_left
  end.
End Subrange.

Fixpoint create_subrange (fuel : nat) (dd : nat) (offset length : Z) : MW nat :=
  match fuel with
  | O => fail OutOfFuel
  | S n =>
      d ← get_data dd;
      if decide (dsize d ≤ offset ∨ length = 0) then mret dispatch_data_empty
      else
        let clamp := dsize d <? u64 (offset + length) in
        if negb clamp && (length =? dsize d) then _dispatch_data_retain dd;; mret dd
        else
          let length := if clamp then u64 (dsize d - offset) else length in
          if leaf d then
            data ← _dispatch_data_init 1;
            modify_data data (set_size length);;
            modify_data data (set_records [RR (PObj dd) offset length]);;
            _dispatch_data_retain dd;;
            mret data
          else
            let '(rs, offset) := skip_records (records d) offset in
            subrange_loop (create_subrange n) rs dispatch_data_empty offset length
  end.

Definition dispatch_data_create_subrange (dd : nat) (offset length : Z) : MW nat :=
  create_subrange DATA_DEPTH dd offset length.

(** *** Apply *)

Section Apply.
(** The variables a block captures and updates are threaded as [X]. *)
Context {X : Type}.
Variable applier : X → nat → Z → ptr → Z → MW (X * bool).

Section Loop.
Variable rec : nat → Z → Z → Z → X → MW (X * bool).
Fixpoint apply_loop (rs : list range_record) (offset : Z) (x : X) : MW (X * bool) :=
  match rs with
  | [] => mret (x, true)
  | r :: rs =>
      o ← as_obj (data_object r);
      xr ← rec o offset (from r) (rlength r) x;
      let '(x, result) := xr in
      if (result : bool) then apply_loop rs (u64 (offset + rlength r)) x
      else mret (x, false)
  end.
End Loop.

Fixpoint data_apply (fuel : nat) (dd : nat) (offset frm size : Z) (x : X) : MW (X * bool) :=
  match fuel with
  | O => fail OutOfFuel
  | S n =>
      d ← get_data dd;
      let data := dd in
      df ←
        (if negb (leaf d) && (num_records d =? 1) then
           r ← get_record d 0;
           o ← as_obj (data_object r);
           d0 ← get_data o;
           if leaf d0 then mret (d0, from r) else mret (d, frm)
         else mret (d, frm));
      let '(d, frm) := df in
      if leaf d then
        r ← get_record d 0;
        applier x data offset (ptr_add (data_object r) frm) size
      else apply_loop (data_apply n) (records d) offset x
  end.

Definition _dispatch_data_apply := data_apply DATA_DEPTH.

Definition dispatch_data_apply (dd : nat) (x : X) : MW (X * bool) :=
  d ← get_data dd;
  if decide (dsize d = 0) then mret (x, true)
  else _dispatch_data_apply dd 0 0 (dsize d) x.
End Apply.

Definition dispatch_data_apply_f_np {C X : Type} (dd : nat) (ctxt : C)
    (applier : C → X → nat → Z → ptr → Z → MW (X * bool)) (x : X) : MW (X * bool) :=
  d ← get_data dd;
  if decide (dsize d = 0) then mret (x, true)
  else _dispatch_data_apply (applier ctxt) dd 0 0 (dsize d) x.

(** *** Map *)

(** The block [create_map] applies: copy the region to its place. *)
Definition map_copy (buffer : ptr) : unit → nat → Z → ptr → Z → MW (unit * bool) :=
  λ _ _ off buf len, memcpy (ptr_add buffer off) buf len;; mret (tt, true).

(** The result is the map object (or null) with the values stored through
    [buffer_ptr] and [size_ptr]. *)
Definition dispatch_data_create_map (dd : nat) : MW (option nat * ptr * Z) :=
  d ← get_data dd;
  let data := dd in
  let size := dsize d in
  if decide (size = 0) then mret (Some dispatch_data_empty, PNull, size)
  else
    df ←
      (if negb (leaf d) && (num_records d =? 1) then
         r ← get_record d 0;
         o ← as_obj (data_object r);
         d0 ← get_data o;
         if leaf d0 then mret (d0, from r) else mret (d, 0)
       else mret (d, 0));
    let '(d', offset) := df in
    if leaf d' then
      _dispatch_data_retain data;;
      r ← get_record d' 0;
      mret (Some data, ptr_add (data_object r) offset, size)
    else
      buffer ← malloc size;
      if decide (buffer = PNull) then mret (None, PNull, 0)
      else
        dispatch_data_apply (map_copy buffer) dd tt;;
        data ← dispatch_data_create buffer size None DISPATCH_DATA_DESTRUCTOR_FREE;
        mret (data, buffer, size).

(** *** Copy region *)

(** The [for] loop: the record that contains [location], if any, and the
    offset reached. *)
Fixpoint find_record (rs : list range_record) (location offset : Z)
  : option range_record * Z :=
  match rs with
  | [] => (None, offset)
  | r :: rs =>
      let pos := u64 (offset + rlength r) in
      if decide (location < pos) then (Some r, offset)
      else find_record rs location pos
  end.

Fixpoint copy_region_loop (fuel : nat) (dd : nat) (size offset frm location : Z)
  : MW (nat * Z) :=
  match fuel with
  | O => fail OutOfFuel
  | S n =>
      d ← get_data dd;
      if leaf d then
        _dispatch_data_retain dd;;
        if decide (size = dsize d) then mret (dd, offset)
        else
          data ← _dispatch_data_init 1;
          modify_data data (set_size size);;
          modify_data data (set_records [RR (PObj dd) frm size]);;
          mret (data, offset)
      else
        match find_record (records d) location offset with
        | (Some r, offset) =>
            o ← as_obj (data_object r);
            single ←
              (if decide (num_records d = 1) then d0 ← get_data o; mret (leaf d0)
               else mret false);
            if (single : bool) then _dispatch_data_retain dd;; mret (dd, offset)
            else copy_region_loop n o (rlength r) offset (from r) location
        | (None, offset) => copy_region_loop n dd size offset frm location
        end
  end.

Definition dispatch_data_copy_region (dd : nat) (location : Z) : MW (nat * Z) :=
  d ← get_data dd;
  if decide (dsize d ≤ location) then mret (dispatch_data_empty, 0)
  else copy_region_loop DATA_DEPTH dd (dsize d) 0 0 location.
