(* ===== verification/DataInv.v ===== *)
(** * The heap invariant of data objects

    Structure (leaves and flat composites), exact reference accounting, and
    ownership of buffers; how states evolve; and the specifications of retain,
    release and allocation against the invariant. *)

From S2P Require Import Prelude Object Data.

Abbreviation obj := (dispatch_object_s class).
Abbreviation omap := (gmap nat (dispatch_object_s class)).

(** ** Reference counting *)

(** References that the object [ob] holds on [o] through its records, and on
    the queue [q] through its target queue. *)
Fixpoint count_obj (o : nat) (rs : list range_record) : Z :=
  match rs with
  | [] => 0
  | r :: rs => (if decide (data_object r = PObj o) then 1 else 0) + count_obj o rs
  end.

Definition nrefs (o : nat) (ob : obj) : Z :=
  match do_payload ob with CData d => count_obj o (records d) | CQueue => 0 end.

Definition ntq (q : nat) (ob : obj) : Z :=
  match do_payload ob with
  | CData _ => if decide (do_targetq ob = Some q) then 1 else 0
  | CQueue => 0
  end.

Definition nrecs (ob : obj) : Z :=
  match do_payload ob with CData d => num_records d | CQueue => 0 end.

Definition mult (o : nat) (ext : gmultiset nat) : Z := Z.of_nat (multiplicity o ext).

(** The number of references there are. *)
Definition total (ext : gmultiset nat) (m : omap) : Z := Z.of_nat (size ext) + msum nrecs m.

(** ** Well-formed data *)

Definition leaf_ok (bufs : gmap nat (list Z)) (d : dispatch_data_s) : Prop :=
  leaf d = true ∧ destructor d ≠ B_NULL ∧
  ∃ b off l, records d = [RR (PBuf b off) 0 (dsize d)] ∧ bufs !! b = Some l ∧
    0 ≤ off ∧ off + dsize d ≤ Z.of_nat (length l) ∧
    (destructor d = DISPATCH_DATA_DESTRUCTOR_FREE → off = 0).

Fixpoint sum_len (rs : list range_record) : Z :=
  match rs with [] => 0 | r :: rs => rlength r + sum_len rs end.

(** A record of a composite: a non-empty range of a leaf. *)
Definition record_ok (m : omap) (r : range_record) : Prop :=
  ∃ o ob d, data_object r = PObj o ∧ m !! o = Some ob ∧ do_payload ob = CData d ∧
    leaf d = true ∧ 0 ≤ from r ∧ 0 < rlength r ∧ from r + rlength r ≤ dsize d.

Definition comp_ok (m : omap) (d : dispatch_data_s) : Prop :=
  leaf d = false ∧ destructor d = B_NULL ∧ dsize d = sum_len (records d) ∧
  Forall (record_ok m) (records d).

Definition data_ok (m : omap) (bufs : gmap nat (list Z)) (ob : obj) (d : dispatch_data_s) : Prop :=
  do_ref_cnt ob = 0 ∧ do_next ob = DISPATCH_OBJECT_LISTLESS ∧ do_suspend_cnt ob = 0 ∧
  (∃ q qb, do_targetq ob = Some q ∧ m !! q = Some qb ∧ do_payload qb = CQueue) ∧
  0 < dsize d < 2 ^ 64 ∧
  (leaf_ok bufs d ∨ comp_ok m d).

(** The invariant over the visible objects [m]: [ext] holds the references of
    the clients, [iq q] the internal references on the queue [q] that are not
    target queue fields. *)
Record inv (iq : nat → Z) (ext : gmultiset nat) (m : omap) (bufs : gmap nat (list Z))
    (next : nat) : Prop := Inv {
  i_empty : m !! dispatch_data_empty = Some _dispatch_data_empty;
  i_defq : ∃ ob, m !! default_queue = Some ob ∧ do_payload ob = CQueue ∧
             do_ref_cnt ob = DISPATCH_OBJECT_GLOBAL_REFCNT;
  i_dom : ∀ o ob, m !! o = Some ob → (o < next)%nat;
  i_bdom : ∀ b l, bufs !! b = Some l → (b < next)%nat;
  i_data : ∀ o ob d, m !! o = Some ob → do_payload ob = CData d → o ≠ dispatch_data_empty →
             data_ok m bufs ob d ∧ 0 ≤ do_xref_cnt ob < INT_MAX ∧
             do_xref_cnt ob + 1 = mult o ext + msum (nrefs o) m;
  i_queue : ∀ q ob, m !! q = Some ob → do_payload ob = CQueue →
             do_ref_cnt ob = DISPATCH_OBJECT_GLOBAL_REFCNT ∨
             (do_ref_cnt ob < INT_MAX ∧ do_ref_cnt ob + 1 = iq q + msum (ntq q) m ∧ 1 ≤ iq q);
  i_own : ∀ o1 o2 ob1 ob2 d1 d2 b off1 off2 f1 f2 l1 l2,
             m !! o1 = Some ob1 → do_payload ob1 = CData d1 → records d1 = [RR (PBuf b off1) f1 l1] →
             m !! o2 = Some ob2 → do_payload ob2 = CData d2 → records d2 = [RR (PBuf b off2) f2 l2] →
             o1 ≠ o2 → destructor d1 ≠ DISPATCH_DATA_DESTRUCTOR_FREE;
  i_ext : ∀ o, o ∈ ext → ∃ ob d, m !! o = Some ob ∧ do_payload ob = CData d
}.

(** The state: [h] are data objects under construction or destruction, out of
    the reach of the invariant; there are at most [n] references. *)
Definition st (iq : nat → Z) (n : Z) (ext : gmultiset nat) (h : omap) (w : W) : Prop :=
  ∃ m, w_objs w = m ∪ h ∧ m ##ₘ h ∧ inv iq ext m (w_bufs w) (w_next w) ∧ total ext m ≤ n ∧
       (∀ o ob, h !! o = Some ob → (o < w_next w)%nat ∧ o ≠ dispatch_data_empty ∧
          ∃ d, do_payload ob = CData d).

Definition data_at (w : W) (o : nat) : option dispatch_data_s :=
  w_objs w !! o ≫= λ ob, match do_payload ob with CData d => Some d | CQueue => None end.

(** No data object refers to the buffer [b]: it belongs to a client. *)
Definition unref (w : W) (b : nat) : Prop :=
  ∀ o d off f l, data_at w o = Some d → records d ≠ [RR (PBuf b off) f l].

(** ** Evolution

    What a step may do to the objects and buffers that existed before it:
    nothing but free them, except that the buffers in [B] may also be written
    and handed to data objects; a buffer that no object refers to is kept; a
    [malloc] that never fails stays so. *)
Record evolves (B : nat → Prop) (w w' : W) : Prop := Evolves {
  e_next : (w_next w ≤ w_next w')%nat;
  e_objs : ∀ o, (o < w_next w)%nat → data_at w' o = data_at w o ∨ data_at w' o = None;
  e_bufs : ∀ b, (b < w_next w)%nat → ¬ B b →
             w_bufs w' !! b = w_bufs w !! b ∨ w_bufs w' !! b = None;
  e_unref : ∀ b, (b < w_next w)%nat → ¬ B b → unref w b → is_Some (w_bufs w !! b) →
              unref w' b ∧ is_Some (w_bufs w' !! b);
  e_queue : ∀ q qb, w_objs w !! q = Some qb → do_payload qb = CQueue →
              ∃ qb', w_objs w' !! q = Some qb' ∧ do_payload qb' = CQueue;
  e_oom : w_oom w = [] → w_oom w' = []
}.
Abbreviation none := (λ _ : nat, False).
Infix "⇝" := (evolves none) (at level 70).

#[export] Instance evolves_refl B : Reflexive (evolves B).
Proof. intros w. split; eauto. Qed.

#[export] Instance evolves_trans B : Transitive (evolves B).
Proof.
  intros w1 w2 w3 [n1 o1 b1 u1 q1 m1] [n2 o2 b2 u2 q2 m2]. split; [lia| | | | |auto].
  - intros o Ho. destruct (o2 o) as [->| ->]; [lia| |by right]. auto.
  - intros b Hb HB. destruct (b2 b) as [->| ->]; [lia|done| |by right]. auto.
  - intros b Hb HB Hu Hs. destruct (u1 b Hb HB Hu Hs). apply u2; [lia|done..].
  - intros q qb Hq Hp. destruct (q1 q qb Hq Hp) as (qb' & ? & ?). eauto.
Qed.

Lemma evolves_weaken (B B' : nat → Prop) w w' :
  (∀ b, (b < w_next w)%nat → B b → B' b) → evolves B w w' → evolves B' w w'.
Proof.
  intros HB [n o b u q m]. split; [done..| | |done|done].
  - intros b0 Hb H. apply b; [done|]. intros ?. apply H. by apply HB.
  - intros b0 Hb H. apply u; [done|]. intros ?. apply H. by apply HB.
Qed.

Lemma evolves_none B w w' : w ⇝ w' → evolves B w w'.
Proof. by apply evolves_weaken. Qed.

(** Writes to buffers allocated since [w] are not visible from [w]. *)
Lemma evolves_fresh B w w1 w2 :
  (∀ b, B b → (w_next w ≤ b)%nat) → w ⇝ w1 → evolves B w1 w2 → w ⇝ w2.
Proof.
  intros HB H1 [n2 o2 b2 u2 q2 m2]. destruct H1 as [n1 o1 b1 u1 q1 m1].
  assert (∀ b, (b < w_next w)%nat → ¬ B b) as Hfr by (intros b Hb Hb'; specialize (HB b Hb'); lia).
  split; [lia| | | | |auto].
  - intros o Ho. destruct (o2 o) as [->| ->]; [lia| |by right]. auto.
  - intros b Hb _. destruct (b2 b) as [->| ->]; [lia|auto| |by right]. apply b1; [lia|tauto].
  - intros b Hb _ Hu Hs. destruct (u1 b Hb (λ x, x) Hu Hs). apply u2; [lia|auto..].
  - intros q qb Hq Hp. destruct (q1 q qb Hq Hp) as (qb' & ? & ?). eauto.
Qed.

(** ** Accounting lemmas *)

Lemma count_obj_nonneg o rs : 0 ≤ count_obj o rs.
Proof. induction rs; simpl; [lia|]. case_decide; lia. Qed.

Lemma count_obj_le o rs : count_obj o rs ≤ Z.of_nat (length rs).
Proof. induction rs; simpl; [lia|]. case_decide; lia. Qed.

Lemma nrefs_nonneg o ob : 0 ≤ nrefs o ob.
Proof. unfold nrefs. destruct (do_payload ob); [apply count_obj_nonneg|lia]. Qed.

Lemma ntq_nonneg q ob : 0 ≤ ntq q ob.
Proof. unfold ntq. destruct (do_payload ob); [case_decide|]; lia. Qed.

Lemma nrecs_nonneg ob : 0 ≤ nrecs ob.
Proof. unfold nrecs, num_records. destruct (do_payload ob); lia. Qed.

Lemma nrefs_nrecs o ob : nrefs o ob ≤ nrecs ob.
Proof.
  unfold nrefs, nrecs, num_records. destruct (do_payload ob); [apply count_obj_le|done].
Qed.

Lemma nrefs_msum_nonneg o (m : omap) : 0 ≤ msum (nrefs o) m.
Proof. apply msum_nonneg. intros; apply nrefs_nonneg. Qed.

Lemma ntq_msum_nonneg o (m : omap) : 0 ≤ msum (ntq o) m.
Proof. apply msum_nonneg. intros; apply ntq_nonneg. Qed.

Lemma mult_le_size o ext : mult o ext ≤ Z.of_nat (size ext).
Proof.
  unfold mult. induction ext as [|x X IH] using gmultiset_ind; [multiset_solver|].
  rewrite multiplicity_disj_union, gmultiset_size_disj_union, gmultiset_size_singleton,
    multiplicity_singleton.
  case_decide; lia.
Qed.

Lemma mult_union o X Y : mult o (X ⊎ Y) = mult o X + mult o Y.
Proof. unfold mult. rewrite multiplicity_disj_union. lia. Qed.

Lemma mult_singleton o o' : mult o {[+ o' +]} = if decide (o = o') then 1 else 0.
Proof. unfold mult. rewrite multiplicity_singleton. by case_decide. Qed.

Lemma mult_diff o o' X :
  o' ∈ X → mult o (X ∖ {[+ o' +]}) = mult o X - (if decide (o = o') then 1 else 0).
Proof.
  intros H. unfold mult. rewrite multiplicity_difference, multiplicity_singleton.
  case_decide as E; [subst|simpl; lia].
  rewrite elem_of_multiplicity in H. lia.
Qed.

Lemma mult_pos o X : o ∈ X ↔ 0 < mult o X.
Proof. unfold mult. rewrite elem_of_multiplicity. lia. Qed.

Lemma mult_nonneg o X : 0 ≤ mult o X.
Proof. unfold mult. lia. Qed.

Lemma refs_le_total o ext (m : omap) : mult o ext + msum (nrefs o) m ≤ total ext m.
Proof.
  unfold total. pose proof (mult_le_size o ext).
  enough (msum (nrefs o) m ≤ msum nrecs m) by lia.
  induction m as [|i a m Hi IH] using map_ind; [by rewrite !msum_empty|].
  rewrite !msum_insert by done. pose proof (nrefs_nrecs o a). lia.
Qed.

(** ** Monotonicity of the well-formedness predicates *)

(** [m'] has the objects of [m], with the same payloads. *)
Definition submap (m m' : omap) : Prop :=
  ∀ o ob, m !! o = Some ob → ∃ ob', m' !! o = Some ob' ∧ do_payload ob' = do_payload ob.

Definition subbufs (b b' : gmap nat (list Z)) : Prop :=
  ∀ i l, b !! i = Some l → ∃ l', b' !! i = Some l' ∧ length l' = length l.

Lemma submap_refl m : submap m m.
Proof. intros o ob H. eauto. Qed.

Lemma subbufs_refl b : subbufs b b.
Proof. intros o ob H. eauto. Qed.

Lemma submap_insert m o ob ob' :
  m !! o = Some ob → do_payload ob' = do_payload ob → submap m (<[o:=ob']> m).
Proof.
  intros Ho Hp x obx Hx. destruct (decide (x = o)) as [->|].
  - exists ob'. rewrite lookup_insert_eq. split; [done|congruence].
  - exists obx. by rewrite lookup_insert_ne.
Qed.

Lemma submap_insert_new m o ob : m !! o = None → submap m (<[o:=ob]> m).
Proof.
  intros Ho x obx Hx. exists obx. rewrite lookup_insert_ne; [done|congruence].
Qed.

Lemma record_ok_sub m m' r : submap m m' → record_ok m r → record_ok m' r.
Proof.
  intros Hs (o & ob & d & ? & Hm & Hp & ?). destruct (Hs o ob Hm) as (ob' & ? & ?).
  exists o, ob', d. split_and!; [done..|congruence|tauto|lia|lia|lia].
Qed.

Lemma comp_ok_sub m m' d : submap m m' → comp_ok m d → comp_ok m' d.
Proof.
  intros Hs (? & ? & ? & H). split_and!; [done..|].
  eapply Forall_impl; [exact H|]. intros r. by apply record_ok_sub.
Qed.

Lemma leaf_ok_sub b b' d : subbufs b b' → leaf_ok b d → leaf_ok b' d.
Proof.
  intros Hs (? & ? & i & off & l & ? & Hl & ? & ? & ?). split_and!; [done..|].
  destruct (Hs i l Hl) as (l' & ? & ?). exists i, off, l'. split_and!; [done..|lia|done].
Qed.

Lemma data_ok_sub m m' b b' ob d :
  submap m m' → subbufs b b' → data_ok m b ob d → data_ok m' b' ob d.
Proof.
  intros Hm Hb (? & ? & ? & (q & qb & ? & Hq & ?) & ? & Hd).
  do 3 (split; [done|]). split; [|split; [done|]].
  - destruct (Hm q qb Hq) as (qb' & ? & ?). exists q, qb'. split_and!; [done..|congruence].
  - destruct Hd; [left; by eapply leaf_ok_sub|right; by eapply comp_ok_sub].
Qed.

Lemma nrefs_payload o ob ob' : do_payload ob = do_payload ob' → nrefs o ob = nrefs o ob'.
Proof. unfold nrefs. by intros ->. Qed.

Lemma ntq_header o ob ob' :
  do_payload ob = do_payload ob' → do_targetq ob = do_targetq ob' → ntq o ob = ntq o ob'.
Proof. unfold ntq. by intros -> ->. Qed.

Lemma nrecs_payload ob ob' : do_payload ob = do_payload ob' → nrecs ob = nrecs ob'.
Proof. unfold nrecs. by intros ->. Qed.

Lemma msum_same (f : obj → Z) m o ob ob' :
  m !! o = Some ob → f ob' = f ob → msum f (<[o:=ob']> m) = msum f m.
Proof. intros Ho Hf. rewrite (msum_update f m o ob ob' Ho). lia. Qed.

(** No record of a visible object points to an object that nothing counts. *)
Lemma count_obj_pos o rs : Exists (λ r, data_object r = PObj o) rs ↔ 0 < count_obj o rs.
Proof.
  induction rs as [|r rs IH]; simpl.
  - rewrite Exists_nil. lia.
  - rewrite Exists_cons, IH. pose proof (count_obj_nonneg o rs).
    case_decide; split; intros; try lia; tauto.
Qed.

Lemma nrefs_zero_count m o x ob d :
  msum (nrefs o) m = 0 → m !! x = Some ob → do_payload ob = CData d →
  count_obj o (records d) = 0.
Proof.
  intros H Hx Hp.
  pose proof (msum_pos (nrefs o) m x ob (λ _ _ _, nrefs_nonneg _ _) Hx) as H1.
  unfold nrefs in H1 at 1. rewrite Hp in H1. pose proof (count_obj_nonneg o (records d)). lia.
Qed.

Lemma records_not_obj o rs :
  count_obj o rs = 0 → Forall (λ r, data_object r ≠ PObj o) rs.
Proof.
  intros H. rewrite Forall_forall. intros r Hr E.
  enough (0 < count_obj o rs) by lia.
  apply count_obj_pos, Exists_exists. eauto.
Qed.

Lemma comp_ok_delete m d o :
  count_obj o (records d) = 0 → comp_ok m d → comp_ok (delete o m) d.
Proof.
  intros H0 (? & ? & ? & H). split_and!; [done..|].
  pose proof (records_not_obj _ _ H0) as Hno. rewrite Forall_forall in *.
  intros r Hr. destruct (H r Hr) as (x & ob & dx & E & Hm & Hrest).
  exists x, ob, dx. rewrite lookup_delete_ne; [done|].
  intros ->. by apply (Hno r Hr).
Qed.

(** ** Preservation of the invariant by elementary changes *)

Section Elementary.
Context (iq : nat → Z) (bufs : gmap nat (list Z)) (next : nat).

(** A client reference gained or given up, the count moving along. *)
Lemma inv_xref ext ext' m o ob d k :
  inv iq ext m bufs next → m !! o = Some ob → do_payload ob = CData d →
  o ≠ dispatch_data_empty →
  (∀ x, mult x ext' = mult x ext + if decide (x = o) then k else 0) →
  0 ≤ do_xref_cnt ob + k < INT_MAX →
  inv iq ext' (<[o := upd_xref (λ _, do_xref_cnt ob + k) ob]> m) bufs next.
Proof.
  intros I Ho Hp Hne Hext Hk.
  set (ob' := upd_xref (λ _, do_xref_cnt ob + k) ob).
  assert (submap m (<[o:=ob']> m)) as Hsub by (by eapply submap_insert).
  split.
  - rewrite lookup_insert_ne by done. apply I.
  - destruct (i_defq _ _ _ _ _ I) as (qb & Hq & Hqp & Hqr).
    exists qb. rewrite lookup_insert_ne; [done|]. intros ->. congruence.
  - intros x obx [[<- _]|[_ Hx]]%lookup_insert_Some; by eapply i_dom.
  - apply I.
  - intros x obx dx Hx Hpx Hnx.
    rewrite (msum_same _ m o ob ob' Ho) by by apply nrefs_payload.
    rewrite Hext.
    apply lookup_insert_Some in Hx as [[-> <-]|[Hxo Hx]].
    + assert (dx = d) as -> by (simpl in Hpx; congruence).
      destruct (i_data _ _ _ _ _ I x ob d Ho Hp Hnx) as (Hd & ? & ?).
      split; [exact (data_ok_sub m _ bufs bufs ob d Hsub (subbufs_refl _) Hd)|].
      simpl. rewrite decide_True by done. lia.
    + destruct (i_data _ _ _ _ _ I x obx dx Hx Hpx Hnx) as (Hd & ? & ?).
      rewrite decide_False by done.
      split; [eapply data_ok_sub; [done|apply subbufs_refl|done]|lia].
  - intros q qb Hq Hqp.
    rewrite (msum_same _ m o ob ob' Ho) by by apply ntq_header.
    apply lookup_insert_Some in Hq as [[-> <-]|[_ Hq]].
    + simpl in Hqp. congruence.
    + by apply (i_queue _ _ _ _ _ I).
  - intros o1 o2 ob1 ob2 d1 d2 b off1 off2 f1 f2 l1 l2 H1 Hp1 Hr1 H2 Hp2 Hr2.
    assert (∀ x obx, <[o:=ob']> m !! x = Some obx →
              ∃ oby, m !! x = Some oby ∧ do_payload oby = do_payload obx) as Hback.
    { intros x obx [[-> <-]|[_ Hx]]%lookup_insert_Some; eauto. }
    apply Hback in H1 as (oby1 & ? & ?), H2 as (oby2 & ? & ?).
    eapply (i_own _ _ _ _ _ I o1 o2 oby1 oby2 d1 d2); eauto; congruence.
  - intros x Hx. destruct (decide (x = o)) as [->|Hxo].
    + exists ob', d. by rewrite lookup_insert_eq.
    + rewrite lookup_insert_ne by done. apply (i_ext _ _ _ _ _ I).
      apply mult_pos. apply mult_pos in Hx. rewrite Hext, decide_False in Hx by done. lia.
Qed.

(** An object comes into view: the references its records hold pass from the
    clients to it. *)
Lemma inv_seal iq' ext ext' m o ob d :
  inv iq ext m bufs next → m !! o = None → (o < next)%nat →
  do_payload ob = CData d → data_ok m bufs ob d → do_xref_cnt ob = 0 →
  count_obj o (records d) = 0 → msum (nrefs o) m = 0 → o ∉ ext →
  (∀ x, mult x ext' + count_obj x (records d) =
        mult x ext + if decide (x = o) then 1 else 0) →
  (∀ q qb, m !! q = Some qb → do_payload qb = CQueue →
     do_ref_cnt qb ≠ DISPATCH_OBJECT_GLOBAL_REFCNT →
     iq q = iq' q + ntq q ob ∧ (1 ≤ iq q → 1 ≤ iq' q)) →
  (∀ b off f l, records d = [RR (PBuf b off) f l] →
     ∀ o2 ob2 d2 off2 f2 l2, m !! o2 = Some ob2 → do_payload ob2 = CData d2 →
       records d2 = [RR (PBuf b off2) f2 l2] →
       destructor d ≠ DISPATCH_DATA_DESTRUCTOR_FREE ∧
       destructor d2 ≠ DISPATCH_DATA_DESTRUCTOR_FREE) →
  inv iq' ext' (<[o:=ob]> m) bufs next.
Proof.
  intros I Ho Hon Hp Hd Hx0 Hc0 Hr0 Hoe Hext Hiq Hown.
  pose proof (submap_insert_new m o ob Ho) as Hsub.
  assert (o ≠ dispatch_data_empty) as Hne.
  { intros ->. pose proof (i_empty _ _ _ _ _ I). congruence. }
  split.
  - rewrite lookup_insert_ne by done. apply I.
  - destruct (i_defq _ _ _ _ _ I) as (qb & Hq & ?).
    exists qb. rewrite lookup_insert_ne; [done|]. intros ->. congruence.
  - intros x obx [[<- _]|[_ Hx]]%lookup_insert_Some; [done|by eapply i_dom].
  - apply I.
  - intros x obx dx Hx Hpx Hnx. rewrite msum_insert by done.
    unfold nrefs at 1. rewrite Hp. pose proof (Hext x) as Hext'.
    apply lookup_insert_Some in Hx as [[-> <-]|[Hxo Hx]].
    + assert (dx = d) as -> by congruence.
      split; [eapply data_ok_sub; [done|apply subbufs_refl|done]|].
      rewrite Hx0; split; [done|].
      rewrite decide_True in Hext' by done.
      assert (mult x ext = 0) by (pose proof (mult_nonneg x ext); rewrite mult_pos in Hoe; lia).
      lia.
    + destruct (i_data _ _ _ _ _ I x obx dx Hx Hpx Hnx) as (Hdx & ? & ?).
      rewrite decide_False in Hext' by done.
      split; [eapply data_ok_sub; [done|apply subbufs_refl|done]|lia].
  - intros q qb Hq Hqp. rewrite msum_insert by done.
    apply lookup_insert_Some in Hq as [[-> <-]|[Hqo Hq]]; [congruence|].
    destruct (i_queue _ _ _ _ _ I q qb Hq Hqp) as [?|(? & ? & H1)]; [by left|right].
    assert (do_ref_cnt qb ≠ DISPATCH_OBJECT_GLOBAL_REFCNT) as Hng.
    { unfold DISPATCH_OBJECT_GLOBAL_REFCNT. lia. }
    destruct (Hiq q qb Hq Hqp Hng) as [? Hiq1]. specialize (Hiq1 H1). lia.
  - intros o1 o2 ob1 ob2 d1 d2 b off1 off2 f1 f2 l1 l2 H1 Hp1 Hr1 H2 Hp2 Hr2 H12.
    apply lookup_insert_Some in H1 as [[-> <-]|[_ H1]], H2 as [[-> <-]|[_ H2]].
    + done.
    + assert (d1 = d) as -> by congruence.
      by apply (Hown b off1 f1 l1 Hr1 o2 ob2 d2 off2 f2 l2).
    + assert (d2 = d) as -> by congruence.
      by apply (Hown b off2 f2 l2 Hr2 o1 ob1 d1 off1 f1 l1).
    + by eapply (i_own _ _ _ _ _ I o1 o2 ob1 ob2 d1 d2).
  - intros x Hx. destruct (decide (x = o)) as [->|Hxo].
    + exists ob, d. by rewrite lookup_insert_eq.
    + rewrite lookup_insert_ne by done. apply (i_ext _ _ _ _ _ I).
      apply mult_pos in Hx. apply mult_pos. pose proof (Hext x) as E.
      rewrite decide_False in E by done. pose proof (count_obj_nonneg x (records d)). lia.
Qed.

(** An object with a single, external reference leaves the view: the
    references its records hold pass to the clients. *)
Lemma inv_unseal iq' ext ext' m o ob d :
  inv iq ext m bufs next → m !! o = Some ob → do_payload ob = CData d →
  o ≠ dispatch_data_empty → o ∈ ext → do_xref_cnt ob = 0 →
  (∀ x, mult x ext' + (if decide (x = o) then 1 else 0) =
        mult x ext + count_obj x (records d)) →
  (∀ x, iq' x = iq x + ntq x ob) →
  inv iq' ext' (delete o m) bufs next ∧ mult o ext' = 0 ∧
  msum (nrefs o) (delete o m) = 0.
Proof.
  intros I Ho Hp Hne Hoe Hx0 Hext Hiq.
  destruct (i_data _ _ _ _ _ I o ob d Ho Hp Hne) as (Hd & _ & Hacc).
  assert (mult o ext = 1 ∧ msum (nrefs o) m = 0) as [He1 Hm0].
  { apply mult_pos in Hoe. pose proof (nrefs_msum_nonneg o m). lia. }
  assert (∀ x obx dx, m !! x = Some obx → do_payload obx = CData dx →
            count_obj o (records dx) = 0) as Hno by (intros; by eapply nrefs_zero_count).
  assert (msum (nrefs o) (delete o m) = 0) as Hdel.
  { rewrite (msum_delete _ m o ob Ho). unfold nrefs at 2. rewrite Hp, (Hno o ob d Ho Hp). lia. }
  assert (mult o ext' = 0) as He0.
  { specialize (Hext o). rewrite decide_True, (Hno o ob d Ho Hp) in Hext by done. lia. }
  split; [|done]. split.
  - rewrite lookup_delete_ne by done. apply I.
  - destruct (i_defq _ _ _ _ _ I) as (qb & Hq & Hqp & ?).
    exists qb. rewrite lookup_delete_ne; [done|]. intros ->. congruence.
  - intros x obx [_ Hx]%lookup_delete_Some. by eapply i_dom.
  - apply I.
  - intros x obx dx [Hxo Hx]%lookup_delete_Some Hpx Hnx.
    destruct (i_data _ _ _ _ _ I x obx dx Hx Hpx Hnx) as (Hdx & ? & ?).
    rewrite (msum_delete _ m o ob Ho). unfold nrefs at 2. rewrite Hp.
    specialize (Hext x). rewrite decide_False in Hext by done.
    split; [|lia].
    destruct Hdx as (Z1 & Z2 & Z3 & (q & qb & Hq & Hmq & Hqp) & Z5 & Z6).
    do 3 (split; [done|]). split; [|split; [done|]].
    + exists q, qb. rewrite lookup_delete_ne; [done|]. intros ->. congruence.
    + destruct Z6 as [?|Hc]; [by left|right]. apply comp_ok_delete; [exact (Hno x obx dx Hx Hpx)|done].
  - intros q qb [Hqo Hq]%lookup_delete_Some Hqp.
    rewrite (msum_delete _ m o ob Ho).
    destruct (i_queue _ _ _ _ _ I q qb Hq Hqp) as [?|(? & ? & ?)]; [by left|right].
    specialize (Hiq q). pose proof (ntq_nonneg q ob). lia.
  - intros o1 o2 ob1 ob2 d1 d2 b off1 off2 f1 f2 l1 l2 [_ H1]%lookup_delete_Some ? ?
      [_ H2]%lookup_delete_Some ? ? ?.
    by eapply (i_own _ _ _ _ _ I o1 o2 ob1 ob2 d1 d2).
  - intros x Hx. pose proof Hx as Hx'. apply mult_pos in Hx.
    destruct (decide (x = o)) as [->|Hxo]; [lia|].
    specialize (Hext x). rewrite decide_False in Hext by done.
    destruct (decide (x ∈ ext)) as [Hin|Hin].
    + rewrite lookup_delete_ne by done. by apply (i_ext _ _ _ _ _ I).
    + rewrite mult_pos in Hin.
      assert (0 < count_obj x (records d)) as Hcx%count_obj_pos by lia.
      destruct Hd as (_ & _ & _ & _ & _ & [Hl|Hc]).
      * destruct Hl as (_ & _ & b & off & l & Hr & _). rewrite Hr, Exists_cons, Exists_nil in Hcx.
        simpl in Hcx. destruct Hcx as [Hcx|[]]. congruence.
      * destruct Hc as (_ & _ & _ & Hrs).
        apply Exists_exists in Hcx as (r & Hr & Er). rewrite Forall_forall in Hrs.
        destruct (Hrs r Hr) as (y & oby & dy & Ey & Hy & Hpy & _).
        assert (y = x) as -> by congruence. exists oby, dy. by rewrite lookup_delete_ne.
Qed.

(** An internal reference to a queue gained or given up. *)
Lemma inv_ref iq' ext m q qb k :
  inv iq ext m bufs next → m !! q = Some qb → do_payload qb = CQueue →
  do_ref_cnt qb ≠ DISPATCH_OBJECT_GLOBAL_REFCNT →
  (∀ x, iq' x = iq x + if decide (x = q) then k else 0) →
  1 ≤ iq' q → do_ref_cnt qb + k < INT_MAX →
  inv iq' ext (<[q := upd_ref (λ _, do_ref_cnt qb + k) qb]> m) bufs next.
Proof.
  intros I Hq Hqp Hg Hiq H1 Hmax. set (qb' := upd_ref _ qb).
  assert (submap m (<[q:=qb']> m)) as Hsub by (by eapply submap_insert).
  assert (∀ x obx, <[q:=qb']> m !! x = Some obx →
            ∃ oby, m !! x = Some oby ∧ do_payload oby = do_payload obx) as Hback.
  { intros x obx [[-> <-]|[_ Hx]]%lookup_insert_Some; eauto. }
  split.
  - rewrite lookup_insert_ne; [apply I|]. intros ->.
    rewrite (i_empty _ _ _ _ _ I) in Hq. by injection Hq as <-.
  - destruct (i_defq _ _ _ _ _ I) as (qb0 & Hq0 & ? & ?).
    exists qb0. rewrite lookup_insert_ne; [done|]. intros ->. congruence.
  - intros x obx [[<- _]|[_ Hx]]%lookup_insert_Some; by eapply i_dom.
  - apply I.
  - intros x obx dx Hx Hpx Hnx.
    rewrite (msum_same _ m q qb qb' Hq) by by apply nrefs_payload.
    apply lookup_insert_Some in Hx as [[-> <-]|[Hxo Hx]]; [simpl in Hpx; congruence|].
    destruct (i_data _ _ _ _ _ I x obx dx Hx Hpx Hnx) as (Hd & ?).
    split; [eapply data_ok_sub; [done|apply subbufs_refl|done]|done].
  - intros x xb Hx Hxp.
    rewrite (msum_same _ m q qb qb' Hq) by by apply ntq_header.
    specialize (Hiq x).
    apply lookup_insert_Some in Hx as [[-> <-]|[Hxq Hx]].
    + right. rewrite decide_True in Hiq by done.
      destruct (i_queue _ _ _ _ _ I x qb Hq Hqp) as [?|?]; [done|]. simpl. lia.
    + rewrite decide_False in Hiq by done.
      destruct (i_queue _ _ _ _ _ I x xb Hx Hxp) as [?|?]; [by left|right]. lia.
  - intros o1 o2 ob1 ob2 d1 d2 b off1 off2 f1 f2 l1 l2 H1' Hp1 Hr1 H2 Hp2 Hr2.
    apply Hback in H1' as (oby1 & ? & ?), H2 as (oby2 & ? & ?).
    eapply (i_own _ _ _ _ _ I o1 o2 oby1 oby2 d1 d2); eauto; congruence.
  - intros x Hx. destruct (i_ext _ _ _ _ _ I x Hx) as (obx & dx & Hm & ?).
    exists obx, dx. rewrite lookup_insert_ne; [done|]. intros ->. congruence.
Qed.
End Elementary.

(** The buffers may change as long as every leaf keeps its own, and the
    identifiers only grow. *)
Lemma inv_bufs iq ext m bufs bufs' next next' :
  inv iq ext m bufs next → (next ≤ next')%nat →
  (∀ b l, bufs' !! b = Some l → (b < next')%nat) →
  (∀ o ob d b off f n l, m !! o = Some ob → do_payload ob = CData d →
     records d = [RR (PBuf b off) f n] → bufs !! b = Some l →
     ∃ l', bufs' !! b = Some l' ∧ length l' = length l) →
  inv iq ext m bufs' next'.
Proof.
  intros I Hn Hb Hl. split; try apply I.
  - intros o ob Ho. pose proof (i_dom _ _ _ _ _ I o ob Ho). lia.
  - done.
  - intros o ob d Ho Hp Hne. destruct (i_data _ _ _ _ _ I o ob d Ho Hp Hne) as (Hd & ?).
    split; [|done]. destruct Hd as (Z1 & Z2 & Z3 & Z4 & Z5 & Z6).
    do 3 (split; [done|]). split; [done|]. split; [done|].
    destruct Z6 as [Z6|?]; [left|by right].
    destruct Z6 as (? & ? & b & off & l & Hr & Hbl & ? & ? & ?).
    destruct (Hl _ _ _ _ _ _ _ _ Ho Hp Hr Hbl) as (l' & ? & Hlen).
    do 2 (split; [done|]). exists b, off, l'. rewrite Hlen. done.
Qed.

(** The invariant depends on the bookkeeping functions pointwise. *)
Lemma inv_ext_iq iq iq' ext m bufs next :
  (∀ x, iq x = iq' x) → inv iq ext m bufs next → inv iq' ext m bufs next.
Proof.
  intros H I. split; try apply I.
  intros q qb Hq Hp. rewrite <- H. by apply (i_queue _ _ _ _ _ I).
Qed.
