(* ===== verification/DataRefs.v ===== *)
(** * Retain, release and allocation of data objects against the invariant *)

From S2P Require Import Prelude Object Data DataInv.

(** ** Access rules *)

Lemma set_set_objs (a b : omap) (w : W) : set_objs a (set_objs b w) = set_objs a w.
Proof. done. Qed.

Lemma objs_set_objs (a : omap) (w : W) : w_objs (set_objs a w) = a.
Proof. done. Qed.

Lemma data_at_Some w o d :
  data_at w o = Some d ↔ ∃ ob, w_objs w !! o = Some ob ∧ do_payload ob = CData d.
Proof.
  unfold data_at. destruct (w_objs w !! o) as [ob|]; simpl.
  - destruct (do_payload ob) as [d'|] eqn:E.
    + split; [intros [= ->]; eauto|]. intros (ob' & [= <-] & ?). congruence.
    + split; [done|]. intros (ob' & [= <-] & ?). congruence.
  - split; [done|]. by intros (ob' & ? & ?).
Qed.

Lemma wp_get_data o d Q (w : W) :
  data_at w o = Some d → Q d w → wp (get_data o) Q w.
Proof.
  intros (ob & Ho & Hp)%data_at_Some HQ. unfold get_data. wp_step.
  eapply wp_get_obj; [done|]. by rewrite Hp.
Qed.

Lemma wp_modify_data o f ob d (Q : unit → W → Prop) (w : W) :
  w_objs w !! o = Some ob → do_payload ob = CData d →
  Q tt (set_objs (<[o:=upd_payload (CData (f d)) ob]> (w_objs w)) w) →
  wp (modify_data o f) Q w.
Proof.
  intros Ho Hp HQ. unfold modify_data. wp_step. eapply wp_get_data.
  { apply data_at_Some; eauto. }
  by eapply wp_modify_obj.
Qed.

(** ** States *)

Lemma st_weaken iq n n' ext h w : st iq n ext h w → n ≤ n' → st iq n' ext h w.
Proof. intros (m & ? & ? & ? & ? & ?) ?. exists m. split_and!; [done..|lia|done]. Qed.

Lemma st_data_ext iq n ext h w o :
  st iq n ext h w → o ∈ ext → ∃ d, data_at w o = Some d ∧ h !! o = None.
Proof.
  intros (m & E & Hd & I & _) Ho.
  destruct (i_ext _ _ _ _ _ I o Ho) as (ob & d & Hm & Hp). exists d. split.
  - apply data_at_Some. exists ob. split; [|done]. rewrite E. by apply lookup_union_Some_l.
  - by eapply map_disjoint_Some_l.
Qed.

(** The header update of a visible object, in the world and in the view. *)
Lemma insert_view (m h : omap) o ob x :
  m ##ₘ h → m !! o = Some ob →
  <[o:=x]> (m ∪ h) = <[o:=x]> m ∪ h ∧ <[o:=x]> m ##ₘ h.
Proof.
  intros Hd Ho. assert (h !! o = None) by (by eapply map_disjoint_Some_l).
  split; [by rewrite insert_union_l|]. by apply map_disjoint_insert_l_2.
Qed.

(** A visible object goes out of view. *)
Lemma insert_hide (m h : omap) o ob x :
  m ##ₘ h → m !! o = Some ob →
  <[o:=x]> (m ∪ h) = delete o m ∪ <[o:=x]> h ∧ delete o m ##ₘ <[o:=x]> h.
Proof.
  intros Hd Ho. assert (h !! o = None) by (by eapply map_disjoint_Some_l).
  split.
  - rewrite insert_union_l. rewrite <- insert_union_r by apply lookup_delete_eq.
    by rewrite insert_union_l, insert_delete_eq.
  - apply map_disjoint_insert_r_2; [apply lookup_delete_eq|]. by apply map_disjoint_delete_l.
Qed.

(** A new or hidden object comes into view. *)
Lemma hide_show (m h : omap) o ob :
  m ##ₘ h → h !! o = Some ob →
  m ∪ h = <[o:=ob]> m ∪ delete o h ∧ <[o:=ob]> m ##ₘ delete o h ∧ m !! o = None.
Proof.
  intros Hd Ho. assert (m !! o = None) by (by eapply map_disjoint_Some_r).
  split_and!; [|apply map_disjoint_insert_l_2; [apply lookup_delete_eq|by apply map_disjoint_delete_r]|done].
  rewrite <- insert_union_l, insert_union_r by done. by rewrite insert_delete_id.
Qed.

Lemma data_at_insert_same (w : W) o ob ob' x :
  w_objs w !! o = Some ob → do_payload ob' = do_payload ob →
  data_at (set_objs (<[o:=ob']> (w_objs w)) w) x = data_at w x.
Proof.
  intros Ho Hp. unfold data_at; simpl. destruct (decide (x = o)) as [->|].
  - by rewrite lookup_insert_eq, Ho; simpl; rewrite Hp.
  - by rewrite lookup_insert_ne.
Qed.

Lemma evolves_header B (w : W) o ob ob' :
  w_objs w !! o = Some ob → do_payload ob' = do_payload ob →
  evolves B w (set_objs (<[o:=ob']> (w_objs w)) w).
Proof.
  intros Ho Hp. split; simpl; [done| |by left| | |done].
  - intros x _. left. by eapply data_at_insert_same.
  - intros b _ _ Hu ?. split; [|done]. intros x d off f l.
    rewrite (data_at_insert_same w o ob ob' x Ho Hp). apply Hu.
  - intros q qb Hq Hqp. destruct (decide (q = o)) as [->|].
    + exists ob'. rewrite lookup_insert_eq. split; [done|congruence].
    + exists qb. by rewrite lookup_insert_ne.
Qed.

(** ** Retain *)

Lemma i32_small z : -2147483648 ≤ z < 2147483648 → i32 z = z.
Proof. intros. apply wrapS_small; [done|]. mlia. Qed.

(** The counts of the empty object are never examined by the invariant. *)
Lemma inv_ext_empty iq ext ext' m bufs next :
  inv iq ext m bufs next → (∀ x, x ≠ dispatch_data_empty → mult x ext' = mult x ext) →
  inv iq ext' m bufs next.
Proof.
  intros I He. split; try apply I.
  - intros o ob d Ho Hp Hne. rewrite He by done. by apply (i_data _ _ _ _ _ I).
  - intros o Ho. destruct (decide (o = dispatch_data_empty)) as [->|Hne].
    + exists _dispatch_data_empty. eexists. split; [apply I|done].
    + apply (i_ext _ _ _ _ _ I). apply mult_pos in Ho. rewrite He in Ho by done.
      by apply mult_pos.
Qed.

Lemma total_ext_add ext o m : total (ext ⊎ {[+ o +]}) m = total ext m + 1.
Proof. unfold total. rewrite gmultiset_size_disj_union, gmultiset_size_singleton. lia. Qed.

Lemma total_ext_sub ext o m : o ∈ ext → total (ext ∖ {[+ o +]}) m = total ext m - 1.
Proof.
  intros Ho. unfold total. rewrite (gmultiset_disj_union_difference' o ext Ho) at 2.
  rewrite gmultiset_size_disj_union, gmultiset_size_singleton. lia.
Qed.

Lemma total_same ext m o ob ob' :
  m !! o = Some ob → do_payload ob' = do_payload ob → total ext (<[o:=ob']> m) = total ext m.
Proof.
  intros Ho Hp. unfold total. by rewrite (msum_same _ m o ob ob' Ho) by by apply nrecs_payload.
Qed.

Lemma retain_spec iq n ext h (w : W) o d :
  st iq n ext h w → data_at w o = Some d → h !! o = None → n + 1 < INT_MAX →
  wp (dispatch_retain o) (λ _ w', st iq (n + 1) (ext ⊎ {[+ o +]}) h w' ∧ w ⇝ w') w.
Proof.
  intros (m & E & Hd & I & Ht & Hh) (ob & Ho & Hp)%data_at_Some Hho Hn.
  assert (m !! o = Some ob) as Hm.
  { rewrite E in Ho. apply lookup_union_Some in Ho as [?|?]; [done|congruence|done]. }
  unfold dispatch_retain, _os_object_retain. wp_step. eapply wp_get_obj; [done|].
  destruct (decide (o = dispatch_data_empty)) as [->|Hne].
  - assert (ob = _dispatch_data_empty) as -> by (rewrite (i_empty _ _ _ _ _ I) in Hm; congruence).
    rewrite decide_True by done. wp_steps. split; [|done].
    exists m. split_and!; [done..| |rewrite total_ext_add; lia|done].
    eapply inv_ext_empty; [done|]. intros x Hx. rewrite mult_union, mult_singleton.
    rewrite decide_False by done. lia.
  - destruct (i_data _ _ _ _ _ I o ob d Hm Hp Hne) as (_ & Hx & Hacc).
    pose proof (refs_le_total o ext m).
    rewrite decide_False by (unfold DISPATCH_OBJECT_GLOBAL_REFCNT; lia).
    cbv zeta. rewrite i32_small by (unfold INT_MAX in *; lia).
    wp_step. apply wp_set_obj. apply wp_assert; [apply Z.ltb_lt; lia|].
    split; [|by eapply evolves_header].
    destruct (insert_view m h o ob (upd_xref (λ _, do_xref_cnt ob + 1) ob) Hd Hm) as [E' Hd'].
    eexists. split_and!; simpl; [by rewrite E, E'|done| | |done].
    + eapply inv_xref; [done..| |unfold INT_MAX in *; lia].
      intros x. by rewrite mult_union, mult_singleton.
    + rewrite (total_same _ _ _ ob) by done. rewrite total_ext_add. lia.
Qed.

(** ** Release *)

(** A target queue is released: its count stays non-negative, so it is never
    disposed of from here. *)
Lemma queue_release_spec dispose iq iq' n ext h (w : W) q qb :
  st iq n ext h w → w_objs w !! q = Some qb → do_payload qb = CQueue →
  (∀ x, iq' x + (if decide (x = q) then 1 else 0) = iq x) →
  1 ≤ iq' q →
  wp (_os_object_release_internal dispose q) (λ _ w', st iq' n ext h w' ∧ w ⇝ w') w.
Proof.
  intros (m & E & Hd & I & Ht & Hh) Hq Hqp Hiq H1.
  assert (m !! q = Some qb) as Hm.
  { rewrite E in Hq. apply lookup_union_Some in Hq as [?|Hx]; [done| |done].
    destruct (Hh q qb Hx) as (_ & _ & d & ?). congruence. }
  unfold _os_object_release_internal. wp_step. eapply wp_get_obj; [done|].
  case_decide as Hg.
  - wp_steps. split; [|done]. exists m. split_and!; [done..| |done|done].
    split; try apply I. intros x xb Hx Hxp. destruct (decide (x = q)) as [->|Hxq].
    + left. congruence.
    + specialize (Hiq x). rewrite decide_False in Hiq by done.
      destruct (i_queue _ _ _ _ _ I x xb Hx Hxp) as [?|?]; [by left|right]. lia.
  - destruct (i_queue _ _ _ _ _ I q qb Hm Hqp) as [?|(Hmax & Hacc & _)]; [done|].
    pose proof (Hiq q) as Hiqq. rewrite decide_True in Hiqq by done.
    pose proof (ntq_msum_nonneg q m).
    cbv zeta. rewrite i32_small by (unfold INT_MAX in *; lia).
    wp_step. apply wp_set_obj. rewrite decide_True by lia. wp_steps.
    split; [|by eapply evolves_header].
    destruct (insert_view m h q qb (upd_ref (λ _, do_ref_cnt qb - 1) qb) Hd Hm) as [E' Hd'].
    eexists. split_and!; simpl; [by rewrite E, E'|done| | |done].
    + eapply (inv_ref iq _ _ iq' ext m q qb (-1)); [done..| |lia|lia].
      intros x. specialize (Hiq x). case_decide; lia.
    + by rewrite (total_same _ _ _ qb).
Qed.

Lemma evolves_dead (w : W) o ob :
  w_objs w !! o = Some ob → (∃ d, do_payload ob = CData d) →
  w ⇝ set_objs (delete o (w_objs w)) w.
Proof.
  intros Ho (d & Hp).
  assert (∀ x, data_at (set_objs (delete o (w_objs w)) w) x = data_at w x ∨
               data_at (set_objs (delete o (w_objs w)) w) x = None) as Hx.
  { intros x. unfold data_at; simpl. destruct (decide (x = o)) as [->|].
    - right. by rewrite lookup_delete_eq.
    - left. by rewrite lookup_delete_ne. }
  split; simpl; [done|auto|by left| | |done].
  - intros b _ _ Hu ?. split; [|done]. intros x dx off f l Hdx.
    destruct (Hx x) as [E|E]; rewrite E in Hdx; [by eapply Hu|done].
  - intros q qb Hq Hqp. exists qb. rewrite lookup_delete_ne; [done|]. intros ->. congruence.
Qed.

(** The object itself is freed, its finalizer submitted, its queue released. *)
Lemma dealloc_spec dispose iq iq' n ext h (w : W) o ob q qb :
  st iq n ext h w → h !! o = Some ob → do_targetq ob = Some q →
  w_objs w !! q = Some qb → do_payload qb = CQueue →
  (∀ x, iq' x + (if decide (x = q) then 1 else 0) = iq x) → 1 ≤ iq' q →
  wp (_dispatch_dealloc dispose o) (λ _ w', st iq' n ext (delete o h) w' ∧ w ⇝ w') w.
Proof.
  intros S Ho Htq Hq Hqp Hiq H1. pose proof S as (m & E & Hd & I & Ht & Hh).
  destruct (Hh o ob Ho) as (_ & _ & d & Hp).
  assert (w_objs w !! o = Some ob) as Hwo by (rewrite E; by apply lookup_union_Some_r).
  unfold _dispatch_dealloc. wp_step. eapply wp_get_obj; [done|]. cbv zeta.
  wp_step. unfold _os_object_dealloc. wp_step. rewrite Htq.
  set (w1 := set_objs (delete o (w_objs w)) w).
  assert (st iq n ext (delete o h) w1) as S1.
  { assert (m !! o = None) as Hmo by (by eapply map_disjoint_Some_r).
    exists m. split_and!; simpl; [|by apply map_disjoint_delete_r|done|done|].
    - rewrite E, delete_union. by rewrite (delete_id m).
    - intros x obx [_ Hx]%lookup_delete_Some. by apply Hh in Hx. }
  assert (w ⇝ w1) as Ev by (eapply evolves_dead; eauto).
  assert (w_objs w1 !! q = Some qb) as Hq1.
  { simpl. rewrite lookup_delete_ne; [done|]. intros ->. congruence. }
  wp_step. case_decide.
  - unfold dispatch_async_f. wp_step. eapply wp_mono.
    + by eapply (queue_release_spec dispose iq iq' n ext (delete o h)).
    + intros _ w' (? & Ev'). split; [done|]. etrans; [exact Ev|].
      destruct Ev' as [? ? ? ? ? ?]. by split.
  - wp_step. eapply wp_mono; [by eapply queue_release_spec|].
    intros _ w' (? & ?). split; [done|]. by etrans.
Qed.

(** The last reference: what is left of [dispatch_release] is the disposal. *)
Definition dying (ob : obj) : obj := upd_ref (λ _, -1) (upd_xref (λ _, -1) ob).

Lemma release_last (fuel : nat) (w : W) o ob d Q :
  w_objs w !! o = Some ob → do_payload ob = CData d →
  do_xref_cnt ob = 0 → do_ref_cnt ob = 0 → do_suspend_cnt ob = 0 →
  do_next ob = DISPATCH_OBJECT_LISTLESS →
  wp (_dispatch_data_dispose (dispatch_release fuel) o;; _dispatch_dealloc (_dispatch_dispose fuel) o)
    Q (set_objs (<[o:=dying ob]> (w_objs w)) w) →
  wp (dispatch_release (S fuel) o) Q w.
Proof.
  intros Ho Hp Hx Hr Hs Hn HQ.
  unfold dispatch_release at 1, _os_object_release. wp_step. eapply wp_get_obj; [done|].
  rewrite Hx. rewrite decide_False by done. cbv zeta. change (i32 (0 - 1)) with (-1).
  wp_step. apply wp_set_obj. rewrite decide_False by lia. rewrite decide_False by lia.
  unfold _dispatch_xref_dispose at 1. wp_step.
  eapply wp_get_obj; [simpl; by rewrite lookup_insert_eq|].
  unfold DISPATCH_OBJECT_SUSPENDED. simpl (do_suspend_cnt _). rewrite Hs.
  change (DISPATCH_OBJECT_SUSPEND_INTERVAL <=? 0) with false. cbv iota.
  wp_step. simpl (do_payload _). rewrite Hp. rewrite decide_False by done.
  wp_step. unfold _os_object_release_internal at 1. wp_step.
  eapply wp_get_obj; [simpl; by rewrite lookup_insert_eq|].
  simpl (do_ref_cnt _). rewrite Hr. rewrite decide_False by done. cbv zeta.
  change (i32 (0 - 1)) with (-1).
  wp_step. apply wp_set_obj. rewrite decide_False by lia. rewrite decide_False by lia.
  cbn [_dispatch_dispose]. rewrite !set_set_objs, !objs_set_objs, insert_insert_eq.
  wp_step. eapply wp_get_obj; [simpl; by rewrite lookup_insert_eq|].
  simpl (do_next _). rewrite Hn. rewrite decide_False by tauto.
  wp_step. cbn [dx_dispose data_class]. wp_step.
  eapply wp_get_obj; [simpl; by rewrite lookup_insert_eq|].
  simpl (do_payload _). rewrite Hp. exact (wp_bind_inv _ _ _ _ HQ).
Qed.

(** A release that is not the last only moves the count. *)
Lemma release_more iq n ext h (w : W) fuel o ob d m :
  w_objs w = m ∪ h → m ##ₘ h → inv iq ext m (w_bufs w) (w_next w) → total ext m ≤ n →
  (∀ o ob, h !! o = Some ob → (o < w_next w)%nat ∧ o ≠ dispatch_data_empty ∧
          ∃ d, do_payload ob = CData d) →
  o ∈ ext → m !! o = Some ob → do_payload ob = CData d → do_xref_cnt ob ≠ 0 →
  wp (dispatch_release fuel o) (λ _ w', st iq (n - 1) (ext ∖ {[+ o +]}) h w' ∧ w ⇝ w') w.
Proof.
  intros E Hd I Ht Hh Ho Hm Hp Hx0.
  assert (w_objs w !! o = Some ob) as Hwo by (rewrite E; by apply lookup_union_Some_l).
  unfold dispatch_release, _os_object_release. wp_step. eapply wp_get_obj; [done|].
  destruct (decide (o = dispatch_data_empty)) as [->|Hne].
  - assert (ob = _dispatch_data_empty) as -> by (rewrite (i_empty _ _ _ _ _ I) in Hm; congruence).
    rewrite decide_True by done. wp_steps. split; [|done].
    exists m. split_and!; [done..| |rewrite total_ext_sub by done; lia|done].
    eapply inv_ext_empty; [done|]. intros x Hx. rewrite mult_diff by done.
    rewrite decide_False by done. lia.
  - destruct (i_data _ _ _ _ _ I o ob d Hm Hp Hne) as (_ & Hx & Hacc).
    rewrite decide_False by (unfold DISPATCH_OBJECT_GLOBAL_REFCNT; lia).
    cbv zeta. rewrite i32_small by (unfold INT_MAX in *; lia).
    wp_step. apply wp_set_obj. rewrite decide_True by lia. wp_steps.
    split; [|by eapply evolves_header].
    destruct (insert_view m h o ob (upd_xref (λ _, do_xref_cnt ob - 1) ob) Hd Hm) as [E' Hd'].
    eexists. split_and!; simpl; [by rewrite E, E'|done| | |done].
    + eapply (inv_xref iq _ _ ext _ m o ob d (-1)); [done..| |lia].
      intros x. rewrite mult_diff by done. case_decide; lia.
    + rewrite (total_same _ _ _ ob) by done. rewrite total_ext_sub by done. lia.
Qed.

(** The references held by records, as a multiset. *)
Fixpoint recs_ms (rs : list range_record) : gmultiset nat :=
  match rs with
  | [] => ∅
  | r :: rs => match data_object r with PObj o => {[+ o +]} ⊎ recs_ms rs | _ => recs_ms rs end
  end.

Lemma mult_recs_ms x rs : mult x (recs_ms rs) = count_obj x rs.
Proof.
  induction rs as [|r rs IH]; simpl; [done|].
  destruct (data_object r) as [|b off|o]; simpl; [done..|].
  rewrite mult_union, mult_singleton, IH. repeat case_decide; congruence || lia.
Qed.

Lemma size_recs_ms rs : (size (recs_ms rs) ≤ length rs)%nat.
Proof.
  induction rs as [|r rs IH]; simpl; [done|].
  destruct (data_object r); [lia..|].
  rewrite gmultiset_size_disj_union, gmultiset_size_singleton. lia.
Qed.

(** At its last release an object goes out of view, and the references it
    held become those of the code that disposes of it. *)
Lemma hide_spec iq n ext h (w : W) m o ob d :
  w_objs w = m ∪ h → m ##ₘ h → inv iq ext m (w_bufs w) (w_next w) → total ext m ≤ n →
  (∀ o ob, h !! o = Some ob → (o < w_next w)%nat ∧ o ≠ dispatch_data_empty ∧
          ∃ d, do_payload ob = CData d) →
  o ∈ ext → m !! o = Some ob → do_payload ob = CData d → o ≠ dispatch_data_empty →
  do_xref_cnt ob = 0 →
  st (λ x, iq x + ntq x ob) (n - 1) ((ext ∖ {[+ o +]}) ⊎ recs_ms (records d))
     (<[o:=dying ob]> h) (set_objs (<[o:=dying ob]> (w_objs w)) w).
Proof.
  intros E Hd I Ht Hh Ho Hm Hp Hne Hx0.
  destruct (insert_hide m h o ob (dying ob) Hd Hm) as [E' Hd'].
  exists (delete o m). split_and!; simpl; [by rewrite E, E'|done| | |].
  - eapply (inv_unseal iq _ _ _ ext _ m o ob d I); [done..| |done].
    intros x. rewrite mult_union, mult_diff, mult_recs_ms by done. lia.
  - unfold total. rewrite gmultiset_size_disj_union, (msum_delete _ m o ob Hm).
    pose proof (size_recs_ms (records d)).
    assert (Z.of_nat (size (ext ∖ {[+ o +]})) = Z.of_nat (size ext) - 1).
    { pose proof (total_ext_sub ext o m Ho) as T. unfold total in T. lia. }
    unfold nrecs at 2. rewrite Hp. unfold num_records, total in *. lia.
  - intros x obx [[<- <-]|[_ Hx]]%lookup_insert_Some; [|by apply Hh in Hx].
    split; [by eapply i_dom|]. split; [done|]. by exists d.
Qed.

Lemma destroy_spec iq n ext h (w : W) b off sz q k :
  st iq n ext h w →
  (k = DISPATCH_DATA_DESTRUCTOR_FREE →
     off = 0 ∧ is_Some (w_bufs w !! b) ∧ ¬ unref w b ∧
     ∀ o ob d off' f l, w_objs w !! o = Some ob → h !! o = None → do_payload ob = CData d →
       records d ≠ [RR (PBuf b off') f l]) →
  wp (_dispatch_data_destroy_buffer (PBuf b off) sz (Some q) k)
     (λ _ w', st iq n ext h w' ∧ w ⇝ w' ∧ w_objs w' = w_objs w) w.
Proof.
  intros S Hfree. unfold _dispatch_data_destroy_buffer. case_decide as Hk.
  - destruct (Hfree Hk) as (-> & [l Hl] & Href & Hno).
    unfold wp, free. rewrite Hl. split_and!; [| |done].
    + destruct S as (m & E & Hd & I & Ht & Hh). exists m. split_and!; simpl; [done..| |done|done].
      eapply inv_bufs; [exact I|done| |].
      * intros b0 l0 [_ ?]%lookup_delete_Some. by eapply i_bdom.
      * intros o ob d b0 off' f l' l0 Hm Hp Hr Hb0. exists l0. split; [|done].
        rewrite lookup_delete_ne; [done|]. intros ->.
        apply (Hno o ob d off' f l'); [|by eapply map_disjoint_Some_l|done|done].
        rewrite E. by apply lookup_union_Some_l.
    + split; simpl; [done|by left| | | |done].
      * intros b0 _ _. destruct (decide (b0 = b)) as [->|]; [right|left].
        -- by rewrite lookup_delete_eq.
        -- by rewrite lookup_delete_ne.
      * intros b0 _ _ Hu ?. split; [exact Hu|]. rewrite lookup_delete_ne; [done|].
        intros ->. by apply Href.
      * eauto.
  - case_decide; [wp_step; done|]. unfold dispatch_async_f. cbv zeta. wp_step.
    split_and!; [done| |done]. by split; simpl; eauto.
Qed.

(** The target queue of an object in view. *)
Lemma target_visible iq ext m bufs next o ob d :
  inv iq ext m bufs next → m !! o = Some ob → do_payload ob = CData d →
  o ≠ dispatch_data_empty →
  ∃ q qb, do_targetq ob = Some q ∧ m !! q = Some qb ∧ do_payload qb = CQueue.
Proof.
  intros I Hm Hp Hne.
  by destruct (i_data _ _ _ _ _ I o ob d Hm Hp Hne) as ((_ & _ & _ & ? & _) & _).
Qed.

Section Release.
(** The clients keep an internal reference to every queue. *)
Context (iq : nat → Z) (Hiq : ∀ q, 1 ≤ iq q).

Lemma ntq_target x q ob d :
  do_payload ob = CData d → do_targetq ob = Some q →
  ntq x ob = if decide (x = q) then 1 else 0.
Proof.
  intros Hp Hq. unfold ntq. rewrite Hp, Hq. repeat case_decide; congruence.
Qed.

(** Common preparation of the last release of a visible object. *)
Lemma last_release_prep n ext h (w : W) m o ob d :
  w_objs w = m ∪ h → m ##ₘ h → inv iq ext m (w_bufs w) (w_next w) → total ext m ≤ n →
  (∀ o ob, h !! o = Some ob → (o < w_next w)%nat ∧ o ≠ dispatch_data_empty ∧
          ∃ d, do_payload ob = CData d) →
  o ∈ ext → m !! o = Some ob → do_payload ob = CData d → o ≠ dispatch_data_empty →
  do_xref_cnt ob = 0 →
  let w1 := set_objs (<[o:=dying ob]> (w_objs w)) w in
  ∃ q qb, do_targetq ob = Some q ∧
    st (λ x, iq x + if decide (x = q) then 1 else 0) (n - 1)
      ((ext ∖ {[+ o +]}) ⊎ recs_ms (records d)) (<[o:=dying ob]> h) w1 ∧
    w_objs w1 !! o = Some (dying ob) ∧ w_objs w1 !! q = Some qb ∧
    do_payload qb = CQueue ∧ w ⇝ w1.
Proof.
  intros E Hd I Ht Hh Ho Hm Hp Hne Hx0 w1.
  pose proof (hide_spec iq n ext h w m o ob d E Hd I Ht Hh Ho Hm Hp Hne Hx0) as S1.
  destruct (target_visible _ _ _ _ _ o ob d I Hm Hp Hne) as (q & qb & Htq & Hmq & Hqp).
  assert (w_objs w !! o = Some ob) as Hwo by (rewrite E; by apply lookup_union_Some_l).
  exists q, qb. split; [done|]. split; [|split; [|split; [|split; [done|]]]].
  - destruct S1 as (m1 & ? & ? & I1 & ? & ?). exists m1. split_and!; [done..| |done|done].
    eapply inv_ext_iq; [|exact I1]. intros x. simpl. by rewrite (ntq_target x q ob d).
  - simpl. apply lookup_insert_eq.
  - simpl. rewrite lookup_insert_ne by congruence. rewrite E. by apply lookup_union_Some_l.
  - by eapply evolves_header.
Qed.

Lemma release_leaf_spec fuel n ext h (w : W) o d :
  st iq n ext h w → o ∈ ext → data_at w o = Some d → leaf d = true →
  wp (dispatch_release (S fuel) o)
     (λ _ w', st iq (n - 1) (ext ∖ {[+ o +]}) h w' ∧ w ⇝ w') w.
Proof.
  intros (m & E & Hd & I & Ht & Hh) Ho (ob & Hwo & Hp)%data_at_Some Hl.
  destruct (i_ext _ _ _ _ _ I o Ho) as (ob' & _ & Hm & _).
  assert (ob' = ob) as ->.
  { assert (w_objs w !! o = Some ob') by (rewrite E; by apply lookup_union_Some_l). congruence. }
  destruct (decide (do_xref_cnt ob = 0)) as [Hx0|Hx0]; [|by eapply release_more].
  assert (o ≠ dispatch_data_empty) as Hne.
  { intros ->. rewrite (i_empty _ _ _ _ _ I) in Hm. injection Hm as <-. simpl in Hp.
    injection Hp as <-. done. }
  destruct (i_data _ _ _ _ _ I o ob d Hm Hp Hne) as ((Hr & Hn & Hs & _ & _ & Hlc) & _).
  destruct Hlc as [(_ & Hdn & b & off & l & Hrec & Hbl & _ & _ & Hoff)|(Hc & _)]; [|congruence].
  destruct (last_release_prep n ext h w m o ob d) as (q & qb & Htq & S1 & Ho1 & Hq1 & Hqp & Ev1);
    [done..|].
  eapply release_last; [done..|]. set (w1 := set_objs _ w) in *.
  rewrite Hrec in S1. change (recs_ms _) with (∅ : gmultiset nat) in S1.
  rewrite (right_id_L ∅ (⊎)) in S1.
  wp_step. unfold _dispatch_data_dispose. wp_step. eapply wp_get_obj; [done|].
  wp_step. eapply wp_get_data; [apply data_at_Some; eauto|].
  rewrite decide_False by done. wp_step. unfold get_record. rewrite Hrec.
  eapply wp_try_opt; [done|]. simpl (do_targetq _). rewrite Htq. cbn [data_object].
  eapply wp_mono; [eapply destroy_spec; [exact S1|]|].
  - intros HF. split; [auto|]. split; [by exists l|]. split.
    { intros Hu. apply (Hu o d off 0 (dsize d)); [|done]. apply data_at_Some. eauto. }
    intros o2 ob2 d2 off' f l2 Hw2 Hh2 Hp2 Hr2.
    destruct (decide (o2 = o)) as [->|Hne2]; [by rewrite lookup_insert_eq in Hh2|].
    simpl in Hw2. rewrite lookup_insert_ne in Hw2, Hh2 by done.
    rewrite E in Hw2. apply lookup_union_Some in Hw2 as [Hw2|?]; [|congruence|done].
    by eapply (i_own _ _ _ _ _ I o o2 ob ob2 d d2).
  - intros _ w2 (S2 & Ev2 & Eo2).
    eapply wp_mono; [eapply (dealloc_spec _ _ iq); [exact S2|apply lookup_insert_eq|exact Htq| |exact Hqp| |apply Hiq]|].
    + by rewrite Eo2.
    + done.
    + intros _ w3 (S3 & Ev3). rewrite delete_insert_eq in S3.
      assert (h !! o = None) by (by eapply map_disjoint_Some_l).
      rewrite (delete_id h) in S3 by done.
      split; [done|]. etrans; [exact Ev1|]. by etrans.
Qed.

(** Data of an object that stays referenced does not change. *)
Lemma evolves_data B n ext h (w w' : W) o d :
  evolves B w w' → st iq n ext h w' → o ∈ ext → (o < w_next w)%nat →
  data_at w o = Some d → data_at w' o = Some d.
Proof.
  intros Ev S Ho Hlt Hd. destruct (e_objs _ _ _ Ev o Hlt) as [->|Hn]; [done|].
  destruct (st_data_ext _ _ _ _ _ _ S Ho) as (d' & Hd' & _). congruence.
Qed.

Lemma st_lt n ext h (w : W) o d : st iq n ext h w → data_at w o = Some d → (o < w_next w)%nat.
Proof.
  intros (m & E & Hd & I & Ht & Hh) (ob & Ho & Hp)%data_at_Some.
  rewrite E in Ho. apply lookup_union_Some in Ho as [Ho|Ho]; [|by destruct (Hh o ob Ho)|done].
  by eapply i_dom.
Qed.

Definition leaves (w : W) (rs : list range_record) : Prop :=
  Forall (λ r, ∃ o d, data_object r = PObj o ∧ data_at w o = Some d ∧ leaf d = true) rs.

Lemma release_records_spec fuel n ext h rs (w : W) :
  st iq n (ext ⊎ recs_ms rs) h w → leaves w rs →
  wp (release_records (dispatch_release (S fuel)) rs)
     (λ _ w', st iq (n - Z.of_nat (length rs)) ext h w' ∧ w ⇝ w') w.
Proof.
  revert n w. induction rs as [|r rs IH]; intros n w S L; cbn [release_records recs_ms length] in *.
  { wp_steps. rewrite (right_id_L ∅ (⊎)) in S. rewrite Z.sub_0_r. done. }
  apply Forall_cons in L as [(o & d & Hr & Hd & Hl) L]. rewrite Hr in S |- *.
  wp_step. cbn [as_obj]. wp_step. wp_step.
  eapply wp_mono; [eapply release_leaf_spec; [exact S|multiset_solver|exact Hd|exact Hl]|].
  intros _ w1 (S1 & Ev1). simpl.
  replace ((ext ⊎ ({[+ o +]} ⊎ recs_ms rs)) ∖ {[+ o +]}) with (ext ⊎ recs_ms rs) in S1
    by multiset_solver.
  eapply wp_mono; [eapply IH; [exact S1|]|].
  - unfold leaves. rewrite Forall_forall in L |- *. intros r' Hr'.
    destruct (L r' Hr') as (o' & d' & Ho' & Hd' & ?). exists o', d'.
    split_and!; [done| |done]. eapply evolves_data; [exact Ev1|exact S1| |by eapply st_lt|done].
    apply gmultiset_elem_of_disj_union. right. apply mult_pos. rewrite mult_recs_ms.
    apply count_obj_pos, Exists_exists. eauto.
  - intros _ w2 (S2 & Ev2). split; [|by etrans].
    eapply st_weaken; [exact S2|lia].
Qed.

End Release.

Section ReleaseAny.
Context (iq : nat → Z) (Hiq : ∀ q, 1 ≤ iq q).

Lemma release_spec fuel n ext h (w : W) o :
  st iq n ext h w → o ∈ ext →
  wp (dispatch_release (S (S fuel)) o)
     (λ _ w', st iq (n - 1) (ext ∖ {[+ o +]}) h w' ∧ w ⇝ w') w.
Proof.
  intros S Ho. destruct (st_data_ext _ _ _ _ _ _ S Ho) as (d & Hdat & Hho).
  destruct (leaf d) eqn:Hl; [by eapply release_leaf_spec|].
  pose proof S as (m & E & Hd & I & Ht & Hh).
  destruct (i_ext _ _ _ _ _ I o Ho) as (ob & d' & Hm & Hp).
  assert (w_objs w !! o = Some ob) as Hwo by (rewrite E; by apply lookup_union_Some_l).
  assert (d' = d) as ->.
  { apply data_at_Some in Hdat as (ob' & ? & ?). congruence. }
  destruct (decide (do_xref_cnt ob = 0)) as [Hx0|Hx0]; [|by eapply release_more].
  assert (o ≠ dispatch_data_empty) as Hne.
  { intros ->. rewrite (i_empty _ _ _ _ _ I) in Hm. injection Hm as <-. discriminate Hx0. }
  destruct (i_data _ _ _ _ _ I o ob d Hm Hp Hne) as ((Hr & Hn & Hs & _ & _ & Hlc) & _).
  destruct Hlc as [(? & _)|(_ & Hdn & _ & Hrec)]; [congruence|].
  destruct (last_release_prep iq n ext h w m o ob d) as (q & qb & Htq & S1 & Ho1 & Hq1 & Hqp & Ev1);
    [done..|].
  eapply release_last; [done..|]. set (w1 := set_objs _ w) in *.
  wp_step. unfold _dispatch_data_dispose. wp_step. eapply wp_get_obj; [done|].
  wp_step. eapply wp_get_data; [apply data_at_Some; eauto|].
  rewrite decide_True by done.
  eapply wp_mono.
  { eapply release_records_spec; [|exact S1|].
    - intros x. simpl. pose proof (Hiq x). case_decide; lia.
    - unfold leaves. rewrite Forall_forall in Hrec |- *. intros r Hr'.
      destruct (Hrec r Hr') as (x & obx & dx & ? & Hmx & Hpx & Hlx & _).
      exists x, dx. split_and!; [done| |done]. apply data_at_Some. exists obx. split; [|done].
      simpl. rewrite lookup_insert_ne by congruence. rewrite E. by apply lookup_union_Some_l. }
  intros _ w2 (S2 & Ev2). simpl.
  destruct (e_queue _ _ _ Ev2 q qb Hq1 Hqp) as (qb2 & Hq2 & Hqp2).
  eapply wp_mono; [eapply (dealloc_spec _ _ iq); [exact S2|apply lookup_insert_eq|exact Htq|exact Hq2|exact Hqp2|done|apply Hiq]|].
  intros _ w3 (S3 & Ev3). rewrite delete_insert_eq, (delete_id h) in S3 by done.
  split; [|etrans; [exact Ev1|by etrans]]. eapply st_weaken; [exact S3|lia].
Qed.
End ReleaseAny.
