(* ===== verification/DataBuild.v ===== *)
(** * Building data objects

    An object is built out of view: allocated, its fields set, its sub-objects
    retained; then it comes into view and the invariant holds of it. *)

From S2P Require Import Prelude Object Data DataInv DataRefs.

(** ** States in which an object is being built *)

Definition header_new (ob : obj) : Prop :=
  do_ref_cnt ob = 0 ∧ do_xref_cnt ob = 0 ∧ do_next ob = DISPATCH_OBJECT_LISTLESS ∧
  do_suspend_cnt ob = 0 ∧ do_targetq ob = Some default_queue.

Definition new_data (k : nat) : dispatch_data_s := DD false B_NULL 0 (replicate k (RR PNull 0 0)).

(** From [w0], the object [o] is being built and has become [d] in [w]. *)
Record bld (B : nat → Prop) iq n ext (w0 : W) (o : nat) (d : dispatch_data_s) (w : W) : Prop := Bld {
  b_st : ∃ ob, st iq n ext {[o := ob]} w ∧ header_new ob ∧ do_payload ob = CData d;
  b_ev : evolves B w0 w;
  b_new : (w_next w0 ≤ o)%nat
}.

Lemma lookup_union_singleton_new (m : omap) o x : m ##ₘ {[o := x]} → (m ∪ {[o := x]}) !! o = Some x.
Proof. intros. apply lookup_union_Some_r; [done|]. by apply lookup_singleton_eq. Qed.

Lemma st_hidden iq n ext o ob w : st iq n ext {[o := ob]} w → w_objs w !! o = Some ob.
Proof. intros (m & E & Hd & _). rewrite E. by apply lookup_union_singleton_new. Qed.

Lemma bld_lookup B iq n ext w0 o d w :
  bld B iq n ext w0 o d w → ∃ ob, w_objs w !! o = Some ob ∧ do_payload ob = CData d.
Proof. intros [(ob & S & _ & ?) _ _]. exists ob. split; [by eapply st_hidden|done]. Qed.

Lemma bld_data_at B iq n ext w0 o d w : bld B iq n ext w0 o d w → data_at w o = Some d.
Proof. intros H. apply data_at_Some. by eapply bld_lookup. Qed.

(** The hidden object may be changed at will. *)
Lemma evolves_new B (w0 w1 : W) o ob ob' d d' :
  evolves B w0 w1 → (w_next w0 ≤ o)%nat →
  w_objs w1 !! o = Some ob → do_payload ob = CData d → do_payload ob' = CData d' →
  (∀ b off f l, records d' = [RR (PBuf b off) f l] → (w_next w0 ≤ b)%nat ∨ B b) →
  evolves B w0 (set_objs (<[o:=ob']> (w_objs w1)) w1).
Proof.
  intros [Hn Ho Hb Hu Hq Hm] Hle Hlk Hp Hp' Hrec.
  assert (∀ x, x ≠ o → data_at (set_objs (<[o:=ob']> (w_objs w1)) w1) x = data_at w1 x) as Hne.
  { intros x Hx. unfold data_at; simpl. by rewrite lookup_insert_ne. }
  assert (data_at (set_objs (<[o:=ob']> (w_objs w1)) w1) o = Some d') as Heq.
  { unfold data_at; simpl. by rewrite lookup_insert_eq; simpl; rewrite Hp'. }
  split; simpl; [done| |done| | |done].
  - intros x Hx. rewrite Hne by lia. by apply Ho.
  - intros b Hlt HB Hun Hs. destruct (Hu b Hlt HB Hun Hs) as [Hu' ?]. split; [|done].
    intros x dx off f l. destruct (decide (x = o)) as [->|Hx].
    + rewrite Heq. intros [= <-] Hr. destruct (Hrec _ _ _ _ Hr) as [?|?]; [lia|done].
    + rewrite Hne by done. apply Hu'.
  - intros q qb Hqb Hqp. destruct (Hq q qb Hqb Hqp) as (qb' & Hq1 & ?).
    exists qb'. rewrite lookup_insert_ne; [done|]. intros ->. congruence.
Qed.

Lemma bld_set B iq n ext w0 o d w d' ob' :
  bld B iq n ext w0 o d w → header_new ob' → do_payload ob' = CData d' →
  (∀ b off f l, records d' = [RR (PBuf b off) f l] → (w_next w0 ≤ b)%nat ∨ B b) →
  bld B iq n ext w0 o d' (set_objs (<[o:=ob']> (w_objs w)) w).
Proof.
  intros Hb Hh Hp' Hrec. destruct (bld_lookup _ _ _ _ _ _ _ _ Hb) as (ob & Ho & Hp).
  destruct Hb as [(ob0 & (m & E & Hd & I & Ht & Hhid) & _ & _) Ev Hnew]. split; [|by eapply evolves_new|done].
  exists ob'. split; [|done].
  assert (m !! o = None) as Hm by (eapply map_disjoint_Some_r; [exact Hd|apply lookup_singleton_eq]).
  exists m. split_and!; simpl; [|by apply map_disjoint_singleton_r|done|done|].
  - rewrite E, insert_union_r by done. by rewrite insert_singleton_eq.
  - intros x obx [<- <-]%lookup_singleton_Some.
    destruct (Hhid o ob0) as (? & ? & _); [apply lookup_singleton_eq|]. eauto.
Qed.

Lemma bld_modify_data B iq n ext w0 o d w f :
  bld B iq n ext w0 o d w →
  (∀ b off fr l, records (f d) = [RR (PBuf b off) fr l] → (w_next w0 ≤ b)%nat ∨ B b) →
  wp (modify_data o f) (λ _ w', bld B iq n ext w0 o (f d) w' ∧ w_bufs w' = w_bufs w ∧
                                 w_next w' = w_next w ∧
                                 (∀ x, x ≠ o → data_at w' x = data_at w x)) w.
Proof.
  intros Hb Hrec. pose proof Hb as [(ob & S & Hh & Hp) _ _].
  pose proof (st_hidden _ _ _ _ _ _ S) as Ho.
  eapply wp_modify_data; [done..|]. split; [|split_and!; [done..|]].
  - by eapply bld_set.
  - intros x Hx. unfold data_at; simpl. by rewrite lookup_insert_ne.
Qed.

Lemma bld_init iq n ext (w : W) k :
  st iq n ext ∅ w →
  wp (_dispatch_data_init k)
     (λ o w', bld none iq n ext w o (new_data k) w' ∧ o = w_next w ∧ w_bufs w' = w_bufs w ∧
              w_next w' = S (w_next w) ∧ (∀ x, x ≠ o → data_at w' x = data_at w x)) w.
Proof.
  intros (m & E & _ & I & Ht & _). rewrite (right_id_L ∅ (∪)) in E.
  assert (m !! w_next w = None) as Hf.
  { destruct (m !! w_next w) eqn:Hx; [|done]. apply (i_dom _ _ _ _ _ I) in Hx. lia. }
  unfold _dispatch_data_init. wp_step. unfold wp at 1, _dispatch_alloc.
  wp_step. eapply wp_modify_obj; [simpl; apply lookup_insert_eq|].
  wp_step. eapply wp_modify_obj; [simpl; apply lookup_insert_eq|]. wp_step. simpl.
  rewrite !insert_insert_eq. fold (new_data k).
  assert (∀ x : nat, x ≠ w_next w → ∀ y : obj, <[w_next w := y]> (w_objs w) !! x = w_objs w !! x) as Hne.
  { intros x Hx y. by rewrite lookup_insert_ne. }
  split_and!; [|done..|].
  - split; [|split; simpl; [lia| |by left| | |done]|done].
    + exists (DObj 0 0 DISPATCH_OBJECT_LISTLESS (Some default_queue) 0 0 0 (CData (new_data k))).
      split; [|done].
      exists m. split_and!; simpl; [|by apply map_disjoint_singleton_r| |done|].
      * by rewrite E, insert_union_singleton_r.
      * destruct I as [I1 I2 I3 I4 I5 I6 I7 I8]. split; [done|done| | |done..].
        -- intros o ob ?%I3. lia.
        -- intros b l ?%I4. lia.
      * intros x obx [<- <-]%lookup_singleton_Some. simpl. split_and!; [lia| |eauto].
        intros H0. rewrite H0 in Hf. pose proof (i_empty _ _ _ _ _ I). congruence.
    + intros x Hx. left. unfold data_at; simpl. rewrite Hne; [done|lia].
    + intros b _ _ Hu ?. split; [|done]. intros x d off f l. unfold data_at; simpl.
      destruct (decide (x = w_next w)) as [->|Hx].
      * rewrite lookup_insert_eq. simpl. intros [= <-]. simpl.
        destruct k as [|[|k]]; simpl; congruence.
      * rewrite Hne by done. apply Hu.
    + intros q qb Hq Hqp. exists qb. rewrite Hne; [done|]. intros ->. congruence.
  - intros x Hx. unfold data_at; simpl. by rewrite Hne.
Qed.

Lemma retain_frame o (w w' : W) a :
  dispatch_retain o w = Ok a w' →
  w_bufs w' = w_bufs w ∧ w_next w' = w_next w ∧ (∀ x, data_at w' x = data_at w x).
Proof.
  unfold dispatch_retain, _os_object_retain, mbind, M_bind, get_obj.
  destruct (w_objs w !! o) as [ob|] eqn:Ho; [|done].
  case_decide; [by intros [= _ <-]|]. cbv zeta. unfold set_obj, modifyS, assertS.
  destruct (0 <? _); [|done]. intros [= _ <-]. split_and!; [done..|].
  intros x. by eapply data_at_insert_same.
Qed.

(** Sub-objects are retained while the object is out of view. *)
Lemma bld_retain_records B iq n ext w0 o d w rs :
  bld B iq n ext w0 o d w → n + Z.of_nat (length rs) < INT_MAX →
  Forall (λ r, ∃ x dx, data_object r = PObj x ∧ data_at w x = Some dx ∧ x ≠ o) rs →
  wp (retain_records rs)
     (λ _ w', bld B iq (n + Z.of_nat (length rs)) (ext ⊎ recs_ms rs) w0 o d w' ∧
              w_bufs w' = w_bufs w ∧ (∀ x, data_at w' x = data_at w x)) w.
Proof.
  revert n ext w. induction rs as [|r rs IH]; intros n ext w Hb Hn HF; cbn [retain_records recs_ms length] in *.
  { wp_step. rewrite (right_id_L ∅ (⊎)), Z.add_0_r. done. }
  apply Forall_cons in HF as [(x & dx & Hr & Hdx & Hxo) HF]. rewrite Hr.
  wp_step. cbn [as_obj]. wp_step. wp_step.
  pose proof Hb as [(ob & S & Hh & Hp) Ev Hnew].
  eapply wp_mono; [eapply wp_frame|].
  - intros a w' Hr'. exact (retain_frame x w w' a Hr').
  - eapply (retain_spec iq n ext {[o:=ob]} w x dx S Hdx); [by apply lookup_singleton_ne|lia].
  - intros _ w1 ((S1 & Ev1) & Hbufs & _ & Hdat). simpl.
    eapply wp_mono.
    + apply (IH (n + 1) (ext ⊎ {[+ x +]}) w1).
      * split; [by exists ob|etrans; [exact Ev|by apply evolves_none]|done].
      * lia.
      * eapply Forall_impl; [exact HF|]. intros r' (y & dy & ? & ? & ?). exists y, dy. by rewrite Hdat.
    + intros _ w2 (Hb2 & Hbufs2 & Hdat2). split_and!.
      * rewrite (assoc_L (⊎)). replace (n + Z.of_nat (Datatypes.S (length rs)))
          with (n + 1 + Z.of_nat (length rs)) by lia. done.
      * congruence.
      * intros y. by rewrite Hdat2.
Qed.

(** ** Coming into view *)

Lemma count_obj_leaf o b off f l : count_obj o [RR (PBuf b off) f l] = 0.
Proof. done. Qed.

(** No visible record refers to an identifier that is not visible. *)
Lemma nrefs_absent iq ext m bufs next o :
  inv iq ext m bufs next → m !! o = None → msum (nrefs o) m = 0.
Proof.
  intros I Hm. apply msum_zero. intros x ob Hx. unfold nrefs.
  destruct (do_payload ob) as [d|] eqn:Hp; [|done].
  destruct (decide (x = dispatch_data_empty)) as [->|Hne].
  { rewrite (i_empty _ _ _ _ _ I) in Hx. injection Hx as <-. by injection Hp as <-. }
  destruct (i_data _ _ _ _ _ I x ob d Hx Hp Hne) as ((_ & _ & _ & _ & _ & Hlc) & _).
  destruct Hlc as [(_ & _ & b & off & l & -> & _)|(_ & _ & _ & Hrs)].
  { apply count_obj_leaf. }
  destruct (decide (0 < count_obj o (records d))) as [Hc|Hc].
  - apply count_obj_pos, Exists_exists in Hc as (r & Hr & E).
    rewrite Forall_forall in Hrs. destruct (Hrs r Hr) as (y & oby & dy & Ey & Hy & _).
    congruence.
  - pose proof (count_obj_nonneg o (records d)). lia.
Qed.

(** A record of the object being built: a non-empty range of a leaf. *)
Definition wrecord_ok (w : W) (r : range_record) : Prop :=
  ∃ o d, data_object r = PObj o ∧ data_at w o = Some d ∧ leaf d = true ∧
    0 ≤ from r ∧ 0 < rlength r ∧ from r + rlength r ≤ dsize d.

Lemma bld_seal_comp B iq n ext w0 o d w :
  bld B iq n (ext ⊎ recs_ms (records d)) w0 o d w →
  leaf d = false → destructor d = B_NULL → dsize d = sum_len (records d) →
  0 < dsize d < 2 ^ 64 → Forall (wrecord_ok w) (records d) →
  st iq (n + 1) (ext ⊎ {[+ o +]}) ∅ w.
Proof.
  intros [(ob & (m & E & Hd & I & Ht & Hh) & (Hr & Hx & Hn & Hs & Hq) & Hp) Ev Hnew] Hl Hdn Hsz Hpos Hrec.
  assert (m !! o = None) as Hmo by (eapply map_disjoint_Some_r; [exact Hd|apply lookup_singleton_eq]).
  assert (o ∉ ext ⊎ recs_ms (records d)) as Hoe.
  { intros He. destruct (i_ext _ _ _ _ _ I o He) as (? & ? & ? & _). congruence. }
  assert (comp_ok m d) as Hc.
  { split_and!; [done..|]. rewrite Forall_forall in Hrec |- *. intros r Hr'.
    destruct (Hrec r Hr') as (x & dx & Ex & (obx & Hwx & Hpx)%data_at_Some & ?).
    exists x, obx, dx. split; [done|]. split; [|done].
    assert (x ∈ ext ⊎ recs_ms (records d)) as Hxe.
    { apply gmultiset_elem_of_disj_union. right. apply mult_pos. rewrite mult_recs_ms.
      apply count_obj_pos, Exists_exists. eauto. }
    destruct (i_ext _ _ _ _ _ I x Hxe) as (obx' & ? & Hmx & _).
    rewrite E in Hwx. rewrite (lookup_union_Some_l _ _ _ _ Hmx) in Hwx. congruence. }
  destruct (i_defq _ _ _ _ _ I) as (qb & Hqb & Hqp & Hqr).
  assert (length (records d) = size (recs_ms (records d))) as Hlen.
  { clear -Hrec. induction Hrec as [|r rs (x & ? & Hx & _) _ IH]; [done|].
    simpl. rewrite Hx, gmultiset_size_disj_union, gmultiset_size_singleton. lia. }
  exists (<[o:=ob]> m). split_and!.
  - rewrite E, (right_id_L ∅ (∪)), insert_union_singleton_r by done. done.
  - apply map_disjoint_empty_r.
  - eapply (inv_seal iq _ _ iq _ (ext ⊎ {[+ o +]}) m o ob d I); try done.
    + destruct (Hh o ob) as (? & _); [apply lookup_singleton_eq|done].
    + do 3 (split; [done|]). split; [by exists default_queue, qb|]. split; [done|by right].
    + destruct (decide (0 < count_obj o (records d))) as [Hc0|Hc0];
        [|pose proof (count_obj_nonneg o (records d)); lia].
      exfalso. apply Hoe. apply gmultiset_elem_of_disj_union. right. apply mult_pos.
      by rewrite mult_recs_ms.
    + by eapply nrefs_absent.
    + intros x. rewrite !mult_union, mult_recs_ms, mult_singleton. lia.
    + intros q qb' Hq' _ Hg. split; [|done]. rewrite (ntq_target q default_queue ob d Hp Hq).
      rewrite decide_False; [lia|]. intros ->. congruence.
    + intros b off f l Hrb. rewrite Hrb in Hrec. apply Forall_cons in Hrec as [(? & ? & Hbad & _) _].
      discriminate Hbad.
  - unfold total in *. rewrite msum_insert by done. unfold nrecs at 1. rewrite Hp.
    unfold num_records. rewrite !gmultiset_size_disj_union, gmultiset_size_singleton in *. lia.
  - done.
Qed.

Lemma bld_seal_leaf B iq n ext w0 o d w :
  bld B iq n ext w0 o d w → leaf_ok (w_bufs w) d → 0 < dsize d < 2 ^ 64 →
  (∀ b off f l, records d = [RR (PBuf b off) f l] →
     ∀ o2 d2 off2 f2 l2, o2 ≠ o → data_at w o2 = Some d2 → records d2 = [RR (PBuf b off2) f2 l2] →
       destructor d ≠ DISPATCH_DATA_DESTRUCTOR_FREE ∧
       destructor d2 ≠ DISPATCH_DATA_DESTRUCTOR_FREE) →
  st iq (n + 2) (ext ⊎ {[+ o +]}) ∅ w.
Proof.
  intros [(ob & (m & E & Hd & I & Ht & Hh) & (Hr & Hx & Hn & Hs & Hq) & Hp) Ev Hnew] Hl Hpos Hown.
  assert (m !! o = None) as Hmo by (eapply map_disjoint_Some_r; [exact Hd|apply lookup_singleton_eq]).
  assert (o ∉ ext) as Hoe.
  { intros He. destruct (i_ext _ _ _ _ _ I o He) as (? & ? & ? & _). congruence. }
  destruct (i_defq _ _ _ _ _ I) as (qb & Hqb & Hqp & Hqr).
  pose proof Hl as (_ & _ & b0 & off0 & l0 & Hrec & _).
  exists (<[o:=ob]> m). split_and!.
  - rewrite E, (right_id_L ∅ (∪)), insert_union_singleton_r by done. done.
  - apply map_disjoint_empty_r.
  - eapply (inv_seal iq _ _ iq ext (ext ⊎ {[+ o +]}) m o ob d I); try done.
    + destruct (Hh o ob) as (? & _); [apply lookup_singleton_eq|done].
    + do 3 (split; [done|]). split; [by exists default_queue, qb|]. split; [done|by left].
    + by rewrite Hrec.
    + by eapply nrefs_absent.
    + intros x. rewrite mult_union, mult_singleton, Hrec, count_obj_leaf. lia.
    + intros q qb' Hq' _ Hg. split; [|done]. rewrite (ntq_target q default_queue ob d Hp Hq).
      rewrite decide_False; [lia|]. intros ->. congruence.
    + intros b off f l Hrb o2 ob2 d2 off2 f2 l2 Hm2 Hp2 Hr2.
      apply (Hown b off f l Hrb o2 d2 off2 f2 l2); [congruence| |done].
      apply data_at_Some. exists ob2. split; [|done]. rewrite E. by apply lookup_union_Some_l.
  - unfold total in *. rewrite msum_insert by done. unfold nrecs at 1. rewrite Hp.
    unfold num_records. rewrite Hrec, gmultiset_size_disj_union, gmultiset_size_singleton in *.
    simpl. lia.
  - done.
Qed.
