(* ===== verification/DataSpec.v ===== *)
(** * What a data object represents

    The bytes of a data object, and their stability under the evolution of the
    heap. *)

From S2P Require Import Prelude Object Data DataInv DataRefs DataBuild.

(** ** Bytes *)

(** The [n] bytes at [p]. *)
Definition peek (w : W) (p : ptr) (n : Z) : list Z :=
  match p with
  | PBuf b off =>
      match w_bufs w !! b with
      | Some l => take (Z.to_nat n) (drop (Z.to_nat off) l)
      | None => []
      end
  | _ => []
  end.

(** Where the bytes of a record start. *)
Definition rec_ptr (w : W) (r : range_record) : ptr :=
  match data_object r with
  | PObj o =>
      match data_at w o with
      | Some d => match records d with r0 :: _ => ptr_add (data_object r0) (from r) | [] => PNull end
      | None => PNull
      end
  | p => ptr_add p (from r)
  end.

Definition rec_bytes (w : W) (r : range_record) : list Z := peek w (rec_ptr w r) (rlength r).
Definition recs_bytes (w : W) (rs : list range_record) : list Z := mjoin (rec_bytes w <$> rs).

(** The bytes a data object represents. *)
Definition contents (w : W) (o : nat) : list Z :=
  match data_at w o with Some d => recs_bytes w (records d) | None => [] end.

(** Its size, its number of records, 0 when there is no such object. *)
Definition size_of (w : W) (o : nat) : Z :=
  match data_at w o with Some d => dsize d | None => 0 end.
Definition recs_of (w : W) (o : nat) : Z :=
  match data_at w o with Some d => num_records d | None => 0 end.

(** The invariant with everything in view. *)
Definition ok iq n ext (w : W) : Prop := st iq n ext ∅ w.

(** The records under which an object becomes part of another. *)
Definition as_records (o : nat) (d : dispatch_data_s) : list range_record :=
  if leaf d then [RR (PObj o) 0 (dsize d)] else records d.

(** What the invariant says of a visible object. *)
Inductive view (w : W) (o : nat) : dispatch_data_s → Prop :=
  | view_empty : o = dispatch_data_empty → view w o (DD false B_NULL 0 [])
  | view_data d : 0 < dsize d < 2 ^ 64 →
      leaf_ok (w_bufs w) d ∨ (leaf d = false ∧ destructor d = B_NULL) →
      Forall (wrecord_ok w) (as_records o d) → sum_len (as_records o d) = dsize d →
      view w o d.

Lemma ok_data iq n ext w o d :
  ok iq n ext w → data_at w o = Some d → view w o d.
Proof.
  intros (m & E & _ & I & _) Hdat. rewrite (right_id_L ∅ (∪)) in E.
  pose proof Hdat as (ob & Ho & Hp)%data_at_Some. rewrite E in Ho.
  destruct (decide (o = dispatch_data_empty)) as [->|Hne].
  { rewrite (i_empty _ _ _ _ _ I) in Ho. injection Ho as <-. injection Hp as <-. by constructor. }
  destruct (i_data _ _ _ _ _ I o ob d Ho Hp Hne) as ((_ & _ & _ & _ & Hsz & Hlc) & _).
  destruct Hlc as [Hl|(Hl & Hdn & Hsum & Hrs)].
  - pose proof Hl as (El & _).
    constructor; [done|by left| |]; unfold as_records; rewrite El; simpl; [|lia].
    apply Forall_singleton. exists o, d. split_and!; simpl; try done; lia.
  - constructor; [done|by right| |]; unfold as_records; rewrite Hl; [|done].
    eapply Forall_impl; [exact Hrs|]. intros r (x & obx & dx & Hx & Hmx & Hpx & ?).
    exists x, dx. split; [done|]. split; [|done]. apply data_at_Some. exists obx. by rewrite E.
Qed.

Lemma ok_empty iq n ext w :
  ok iq n ext w → data_at w dispatch_data_empty = Some (DD false B_NULL 0 []).
Proof.
  intros (m & E & _ & I & _). apply data_at_Some. exists _dispatch_data_empty.
  split; [|done]. rewrite E. apply lookup_union_Some_l, I.
Qed.

Lemma ok_leaf iq n ext w o d :
  ok iq n ext w → data_at w o = Some d → leaf d = true →
  leaf_ok (w_bufs w) d ∧ 0 < dsize d < 2 ^ 64.
Proof.
  intros H Hd Hl. destruct (ok_data _ _ _ _ _ _ H Hd) as [|d Hs [?|[? _]] _ _]; [done|done|congruence].
Qed.

Lemma ok_ext iq n ext w o : ok iq n ext w → o ∈ ext → ∃ d, data_at w o = Some d.
Proof. intros H Ho. destruct (st_data_ext _ _ _ _ _ _ H Ho) as (d & ? & _). eauto. Qed.

Lemma ok_lt iq n ext w o d : ok iq n ext w → data_at w o = Some d → (o < w_next w)%nat.
Proof. apply st_lt. Qed.

Lemma ok_weaken iq n n' ext w : ok iq n ext w → n ≤ n' → ok iq n' ext w.
Proof. apply st_weaken. Qed.

Lemma ok_buf_lt iq n ext w b l : ok iq n ext w → w_bufs w !! b = Some l → (b < w_next w)%nat.
Proof. intros (m & _ & _ & I & _). apply (i_bdom _ _ _ _ _ I). Qed.

(** ** The pointer and bytes of a record *)

Lemma rec_ptr_obj (w : W) r o d b off l :
  data_object r = PObj o → data_at w o = Some d → records d = [RR (PBuf b off) 0 l] →
  rec_ptr w r = PBuf b (off + from r).
Proof. unfold rec_ptr. by intros -> -> ->. Qed.

Lemma recs_bytes_as_records iq n ext w o d :
  ok iq n ext w → data_at w o = Some d → contents w o = recs_bytes w (as_records o d).
Proof.
  intros H Hd. unfold contents. rewrite Hd. unfold as_records.
  destruct (leaf d) eqn:Hl; [|done].
  destruct (ok_leaf _ _ _ _ _ _ H Hd Hl) as ((_ & _ & b & off & l & Hr & _) & _).
  unfold recs_bytes. rewrite Hr. simpl. f_equal. unfold rec_bytes. simpl. f_equal.
  rewrite (rec_ptr_obj w _ o d b off (dsize d)) by done. done.
Qed.

Lemma recs_bytes_app w rs1 rs2 : recs_bytes w (rs1 ++ rs2) = recs_bytes w rs1 ++ recs_bytes w rs2.
Proof. unfold recs_bytes. by rewrite fmap_app, join_app. Qed.

Lemma recs_bytes_cons w r rs : recs_bytes w (r :: rs) = rec_bytes w r ++ recs_bytes w rs.
Proof. done. Qed.

Lemma rec_bytes_length iq n ext w r :
  ok iq n ext w → wrecord_ok w r → Z.of_nat (length (rec_bytes w r)) = rlength r.
Proof.
  intros H (o & d & Hr & Hd & Hl & ? & ? & ?).
  destruct (ok_leaf _ _ _ _ _ _ H Hd Hl) as ((_ & _ & b & off & l & Hrec & Hb & ? & ? & _) & _).
  unfold rec_bytes. rewrite (rec_ptr_obj w r o d b off (dsize d)) by done.
  simpl. rewrite Hb, length_take, length_drop. lia.
Qed.

Lemma recs_bytes_length iq n ext w rs :
  ok iq n ext w → Forall (wrecord_ok w) rs → Z.of_nat (length (recs_bytes w rs)) = sum_len rs.
Proof.
  intros H. induction 1 as [|r rs Hr _ IH]; [done|].
  rewrite recs_bytes_cons. simpl. rewrite length_app, Nat2Z.inj_add, IH. by rewrite (rec_bytes_length _ _ _ _ _ H Hr).
Qed.

Lemma contents_length iq n ext w o d :
  ok iq n ext w → data_at w o = Some d → Z.of_nat (length (contents w o)) = dsize d.
Proof.
  intros H Hd. rewrite (recs_bytes_as_records _ _ _ _ _ _ H Hd).
  destruct (ok_data _ _ _ _ _ _ H Hd) as [|d _ _ Hrs Hsum]; [done|].
  by rewrite (recs_bytes_length _ _ _ _ _ H Hrs).
Qed.

(** ** Stability *)

Section Kept.
Context (B : nat → Prop) (iq iq' : nat → Z) (n n' : Z) (ext ext' : gmultiset nat) (w w' : W).
Context (HB : ∀ b, B b → unref w b).
Context (H : ok iq n ext w) (H' : ok iq' n' ext' w') (Ev : evolves B w w').

Lemma leaf_kept o d :
data_at w o = Some d → leaf d = true →
is_Some (data_at w' o) →
data_at w' o = Some d ∧
∃ b off, records d = [RR (PBuf b off) 0 (dsize d)] ∧ w_bufs w' !! b = w_bufs w !! b.
Proof.
intros Hd Hl [d' Hd'].
assert (data_at w' o = Some d) as Hsame.
{ destruct (e_objs _ _ _ Ev o) as [->|?]; [by eapply ok_lt|done|congruence]. }
split; [done|].
destruct (ok_leaf _ _ _ _ _ _ H Hd Hl) as ((_ & _ & b & off & l & Hrec & Hb & _) & _).
destruct (ok_leaf _ _ _ _ _ _ H' Hsame Hl) as ((_ & _ & b' & off' & l' & Hrec' & Hb' & _) & _).
assert (b' = b) as -> by congruence. exists b, off. split; [done|].
destruct (e_bufs _ _ _ Ev b) as [->|Hn]; [by eapply ok_buf_lt| |done|congruence].
intros Hb0. by apply (HB b Hb0 o d off 0 (dsize d)).
Qed.

Lemma rec_kept r :
wrecord_ok w r →
(∀ o, data_object r = PObj o → is_Some (data_at w' o)) →
wrecord_ok w' r ∧ rec_ptr w' r = rec_ptr w r ∧ rec_bytes w' r = rec_bytes w r.
Proof.
intros (o & d & Hr & Hd & Hl & Hb) Hs.
destruct (leaf_kept _ _ Hd Hl (Hs o Hr)) as (Hd' & b & off & Hrec & Hbuf).
assert (rec_ptr w' r = rec_ptr w r) as Hp.
{ by rewrite !(rec_ptr_obj _ r o d b off (dsize d)). }
split; [by exists o, d|]. split; [done|].
unfold rec_bytes. rewrite Hp. rewrite (rec_ptr_obj w r o d b off (dsize d)) by done.
simpl. by rewrite Hbuf.
Qed.

(** The references of a client keep an object and its bytes. *)
Lemma kept_but o :
o ∈ ext → o ∈ ext' →
data_at w' o = data_at w o ∧ contents w' o = contents w o ∧
∀ d, data_at w o = Some d → Forall (λ r, rec_ptr w' r = rec_ptr w r ∧ rec_bytes w' r = rec_bytes w r)
                              (as_records o d).
Proof.
intros Ho Ho'.
destruct (ok_ext _ _ _ _ _ H Ho) as [d Hd], (ok_ext _ _ _ _ _ H' Ho') as [d' Hd'].
assert (data_at w' o = Some d) as Hsame.
{ destruct (e_objs _ _ _ Ev o) as [->|?]; [by eapply ok_lt|done|congruence]. }
assert (Forall (λ r, rec_ptr w' r = rec_ptr w r ∧ rec_bytes w' r = rec_bytes w r)
          (as_records o d)) as HF.
{ destruct (ok_data _ _ _ _ _ _ H Hd) as [|d _ _ Hrs _]; [done|].
  destruct (ok_data _ _ _ _ _ _ H' Hsame) as [|d _ _ Hrs' _]; [done|].
  rewrite Forall_forall in *. intros r Hr.
  destruct (Hrs' r Hr) as (x & dx & Hx & Hdx & _).
  destruct (rec_kept r (Hrs r Hr)) as (_ & ? & ?); [|done].
  intros y Hy. assert (y = x) as -> by congruence. by exists dx. }
split; [congruence|]. split.
- rewrite (recs_bytes_as_records _ _ _ _ _ _ H' Hsame), (recs_bytes_as_records _ _ _ _ _ _ H Hd).
  unfold recs_bytes. f_equal. apply list_fmap_ext. intros i r Hr.
  rewrite Forall_forall in HF. apply HF. by eapply list_elem_of_lookup_2.
- intros d0 Hd0. by assert (d0 = d) as -> by congruence.
Qed.
End Kept.

Lemma kept iq n ext iq' n' ext' w w' o :
  ok iq n ext w → ok iq' n' ext' w' → w ⇝ w' → o ∈ ext → o ∈ ext' →
  data_at w' o = data_at w o ∧ contents w' o = contents w o ∧
  ∀ d, data_at w o = Some d → Forall (λ r, rec_ptr w' r = rec_ptr w r ∧ rec_bytes w' r = rec_bytes w r)
                                (as_records o d).
Proof. intros H H' Ev. by apply (kept_but none iq iq' n n' ext ext'). Qed.
