(* ===== verification/DataOps.v ===== *)
(** * Specifications of the operations of data.c *)

From S2P Require Import Prelude Object Data DataInv DataRefs DataBuild DataSpec.

(** ** Memory blocks *)

Lemma st_same_objs iq n ext h w w' :
  st iq n ext h w → w_objs w' = w_objs w → (w_next w ≤ w_next w')%nat →
  (∀ b l, w_bufs w' !! b = Some l → (b < w_next w')%nat) →
  (∀ b l, w_bufs w !! b = Some l → ∃ l', w_bufs w' !! b = Some l' ∧ length l' = length l) →
  st iq n ext h w'.
Proof.
  intros (m & E & Hd & I & Ht & Hh) Eo Hn Hb Hl. exists m. split_and!; [congruence|done| |done|].
  - eapply inv_bufs; [exact I|done|done|]. intros. by eapply Hl.
  - intros o ob Ho. destruct (Hh o ob Ho) as (? & ? & ?). split_and!; [lia|done|done].
Qed.

Lemma data_at_objs (w w' : W) o : w_objs w' = w_objs w → data_at w' o = data_at w o.
Proof. unfold data_at. by intros ->. Qed.

Lemma malloc_spec iq n ext h (w : W) size :
  st iq n ext h w → w_oom w = [] →
  wp (malloc size) (λ p w', p = PBuf (w_next w) 0 ∧ st iq n ext h w' ∧ w ⇝ w' ∧
    w_objs w' = w_objs w ∧ w_next w' = S (w_next w) ∧
    w_bufs w' = <[w_next w := replicate (Z.to_nat size) (w_junk w)]> (w_bufs w)) w.
Proof.
  intros S Ho. unfold wp, malloc. rewrite Ho. split_and!; [done| | |done..].
  - pose proof S as (m & _ & _ & I & _).
    assert (w_bufs w !! w_next w = None) as Hf.
    { destruct (w_bufs w !! w_next w) eqn:Hx; [|done]. apply (i_bdom _ _ _ _ _ I) in Hx. lia. }
    eapply st_same_objs; [exact S|done|simpl; lia| |]; simpl.
    + intros b l [[<- _]|[_ Hb]]%lookup_insert_Some; [lia|]. apply (i_bdom _ _ _ _ _ I) in Hb. lia.
    + intros b l Hb. exists l. rewrite lookup_insert_ne; [done|congruence].
  - split; simpl; [lia|by left| | |eauto|done].
    + intros b Hb _. left. rewrite lookup_insert_ne; [done|lia].
    + intros b Hb _ Hu ?. split; [|rewrite lookup_insert_ne; [done|lia]].
      intros o d off f l. rewrite (data_at_objs w); [apply Hu|done].
Qed.

Lemma splice_length l off bs :
  (off + length bs ≤ length l)%nat → length (splice l off bs) = length l.
Proof. intros. unfold splice. rewrite !length_app, length_take, length_drop. lia. Qed.

Lemma store_spec iq n ext h (w : W) b off bs l :
  st iq n ext h w → w_bufs w !! b = Some l → 0 ≤ off →
  off + Z.of_nat (length bs) ≤ Z.of_nat (length l) →
  wp (store (PBuf b off) bs) (λ _ w', st iq n ext h w' ∧ evolves (eq b) w w' ∧
    w_objs w' = w_objs w ∧ w_next w' = w_next w ∧
    w_bufs w' = <[b := splice l (Z.to_nat off) bs]> (w_bufs w)) w.
Proof.
  intros S Hb Hoff Hlen. unfold wp, store. rewrite Hb, decide_True by lia.
  pose proof S as (m & _ & _ & I & _).
  split_and!; [| |done..].
  - eapply st_same_objs; [exact S|done|done| |]; simpl.
    + intros b0 l0 [[<- _]|[_ H0]]%lookup_insert_Some; by eapply i_bdom.
    + intros b0 l0 H0. destruct (decide (b0 = b)) as [->|Hne].
      * eexists. rewrite lookup_insert_eq. split; [done|]. rewrite splice_length by lia. congruence.
      * exists l0. by rewrite lookup_insert_ne.
  - split; simpl; [done|by left| | |eauto|done].
    + intros b0 _ Hne. left. by rewrite lookup_insert_ne.
    + intros b0 _ Hne Hu ?. split; [|by rewrite lookup_insert_ne].
      intros o d off0 f l0. rewrite (data_at_objs w); [apply Hu|done].
Qed.

Lemma load_spec (w : W) b off n bs Q :
  peek w (PBuf b off) n = bs → Z.of_nat (length bs) = n → 0 < n → 0 ≤ off →
  Q bs w → wp (load (PBuf b off) n) Q w.
Proof.
  intros Hp Hl Hn Hoff HQ. unfold wp, load. simpl in Hp.
  destruct (w_bufs w !! b) as [l|] eqn:Hb; subst bs; [|simpl in Hl; lia].
  rewrite length_take, length_drop in Hl. by rewrite decide_True by lia.
Qed.

(** ** Creation *)

Lemma bld_weaken B iq n ext w0 o d w :
  bld none iq n ext w0 o d w → bld B iq n ext w0 o d w.
Proof. intros [? ? ?]. split; [done|by apply evolves_none|done]. Qed.

Lemma bld_other B iq n ext w0 o d w x dx :
  bld B iq n ext w0 o d w → (∀ x, x ≠ o → data_at w x = data_at w0 x) →
  x ≠ o → data_at w x = Some dx → data_at w0 x = Some dx.
Proof. intros _ H Hx <-. symmetry. by apply H. Qed.

Lemma create_spec iq n ext (w : W) b off size k l :
  ok iq n ext w → w_bufs w !! b = Some l → 0 ≤ off → 0 < size < 2 ^ 64 →
  off + size ≤ Z.of_nat (length l) → k ≠ B_NULL →
  (k = DISPATCH_DATA_DESTRUCTOR_FREE → off = 0) →
  (∀ o2 d2 off2 f2 l2, data_at w o2 = Some d2 → records d2 = [RR (PBuf b off2) f2 l2] →
     k ≠ DISPATCH_DATA_DESTRUCTOR_FREE ∧ destructor d2 ≠ DISPATCH_DATA_DESTRUCTOR_FREE) →
  wp (dispatch_data_create (PBuf b off) size None k)
     (λ r w', r = Some (w_next w) ∧ ok iq (n + 2) (ext ⊎ {[+ w_next w +]}) w' ∧
        evolves (eq b) w w' ∧ w_bufs w' = w_bufs w ∧
        data_at w' (w_next w) = Some (DD true k size [RR (PBuf b off) 0 size])) w.
Proof.
  intros H Hb Hoff Hsz Hlen Hk Hfree Hown. unfold dispatch_data_create.
  rewrite decide_False by (intros [?|?]; [done|lia]).
  wp_step. eapply wp_mono; [by apply bld_init|].
  intros o w1 (B1%(bld_weaken (eq b)) & -> & Eb1 & En1 & Eo1).
  wp_step. eapply wp_mono; [eapply bld_modify_data; [exact B1|by simpl]|].
  intros _ w2 (B2 & Eb2 & En2 & Eo2).
  wp_step. eapply wp_mono; [eapply bld_modify_data; [exact B2|by simpl]|].
  intros _ w3 (B3 & Eb3 & En3 & Eo3).
  wp_step. eapply wp_mono; [eapply bld_modify_data; [exact B3|by simpl]|].
  intros _ w4 (B4 & Eb4 & En4 & Eo4).
  wp_step. rewrite decide_False by done. wp_step.
  unfold _dispatch_Block_copy. rewrite decide_False by done. wp_step.
  wp_step. eapply wp_mono; [eapply bld_modify_data; [exact B4|by simpl]|].
  intros _ w5 (B5 & Eb5 & En5 & Eo5).
  wp_step.
  wp_step. eapply wp_mono; [eapply bld_modify_data; [exact B5|]|].
  { simpl. intros b0 off0 f l0 [= -> _ _ _]. by right. }
  intros _ w6 (B6 & Eb6 & En6 & Eo6).
  wp_step. wp_step. wp_step.
  assert (w_bufs w6 = w_bufs w) as Eb by congruence.
  assert (∀ x, x ≠ w_next w → data_at w6 x = data_at w x) as Eo.
  { intros x Hx. by rewrite Eo6, Eo5, Eo4, Eo3, Eo2, Eo1. }
  pose proof (bld_data_at _ _ _ _ _ _ _ _ B6) as Hd6.
  split_and!; [done| |by destruct B6|done|done].
  eapply bld_seal_leaf; [exact B6| |done|].
  - split_and!; [done|done|]. exists b, off, l. rewrite Eb. split_and!; done.
  - simpl. intros b0 off0 f l0 [= <- <- <- <-] o2 d2 off2 f2 l2 Hne Hd2.
    rewrite Eo in Hd2 by done. by eapply Hown.
Qed.

(** No data object refers to a buffer that does not exist yet. *)
Lemma unref_fresh iq n ext w b : ok iq n ext w → (w_next w ≤ b)%nat → unref w b.
Proof.
  intros H Hb o d off f l Hd Hr.
  destruct (ok_data _ _ _ _ _ _ H Hd) as [|d Hs Hlc Hrs _]; [done|].
  destruct Hlc as [(_ & _ & b0 & off0 & l0 & Hr0 & Hb0 & _)|[Hl _]].
  - apply (ok_buf_lt _ _ _ _ _ _ H) in Hb0. rewrite Hr in Hr0. injection Hr0 as -> _. lia.
  - unfold as_records in Hrs. rewrite Hl, Hr in Hrs.
    apply Forall_cons in Hrs as [(? & ? & Hbad & _) _]. discriminate Hbad.
Qed.

Lemma splice_all l bs : length bs = length l → splice l 0 bs = bs.
Proof.
  intros Hl. unfold splice. rewrite take_0, Nat.add_0_l, drop_ge by lia. by rewrite app_nil_r.
Qed.

(** The default destructor: the bytes are copied into a block of the object's own. *)
Lemma create_copy_spec iq n ext (w : W) b off size :
  ok iq n ext w → w_oom w = [] → 0 ≤ off → 0 < size < 2 ^ 64 →
  Z.of_nat (length (peek w (PBuf b off) size)) = size →
  wp (dispatch_data_create (PBuf b off) size None DISPATCH_DATA_DESTRUCTOR_DEFAULT)
     (λ r w', r = Some (w_next w) ∧ ok iq (n + 2) (ext ⊎ {[+ w_next w +]}) w' ∧ w ⇝ w' ∧
        contents w' (w_next w) = peek w (PBuf b off) size) w.
Proof.
  intros H Hoom Hoff Hsz Hlen. unfold dispatch_data_create.
  rewrite decide_False by (intros [?|?]; [done|lia]).
  wp_step. eapply wp_mono; [by apply bld_init|].
  intros o w1 (B1 & -> & Eb1 & En1 & Eo1).
  wp_step. eapply wp_mono; [eapply bld_modify_data; [exact B1|by simpl]|].
  intros _ w2 (B2 & Eb2 & En2 & Eo2).
  wp_step. eapply wp_mono; [eapply bld_modify_data; [exact B2|by simpl]|].
  intros _ w3 (B3 & Eb3 & En3 & Eo3).
  wp_step. eapply wp_mono; [eapply bld_modify_data; [exact B3|by simpl]|].
  intros _ w4 (B4 & Eb4 & En4 & Eo4).
  wp_step. rewrite decide_True by done.
  pose proof B4 as [(ob4 & S4 & Hh4 & Hp4) Ev4 Hn4].
  wp_step. eapply wp_mono; [eapply malloc_spec; [exact S4|by apply (e_oom _ _ _ Ev4)]|].
  intros p w5 (-> & S5 & Ev5 & Eo5 & En5 & Eb5).
  assert (w_bufs w4 = w_bufs w) as Eb4' by congruence.
  assert (w_next w4 = Datatypes.S (w_next w)) as En4' by congruence.
  rewrite decide_False by done. wp_step. unfold memcpy. wp_step.
  assert ((b < w_next w)%nat) as Hblt.
  { simpl in Hlen. destruct (w_bufs w !! b) as [l|] eqn:Hb; [by eapply ok_buf_lt|simpl in Hlen; lia]. }
  eapply (load_spec _ _ _ _ (peek w (PBuf b off) size)); [|done|lia|done|].
  { simpl. rewrite Eb5, lookup_insert_ne by lia. by rewrite Eb4'. }
  set (bs := peek w (PBuf b off) size) in *.
  eapply wp_mono; [eapply store_spec; [exact S5|rewrite Eb5; apply lookup_insert_eq|done|]|].
  { rewrite length_replicate. lia. }
  intros _ w6 (S6 & Ev6 & Eo6 & En6 & Eb6).
  rewrite splice_all in Eb6 by (rewrite length_replicate; lia).
  assert (bld none iq n ext w (w_next w) (DD true B_NULL size [RR PNull 0 size]) w6) as B6.
  { split; [by exists ob4| |done]. eapply evolves_fresh; [|etrans; [exact Ev4|exact Ev5]|exact Ev6].
    intros b0 <-. lia. }
  wp_step. eapply wp_mono; [eapply bld_modify_data; [exact B6|by simpl]|].
  intros _ w7 (B7 & Eb7 & En7 & Eo7).
  wp_step.
  wp_step. eapply wp_mono; [eapply bld_modify_data; [exact B7|]|].
  { simpl. intros b0 off0 f l0 [= <- _ _ _]. left. lia. }
  intros _ w8 (B8 & Eb8 & En8 & Eo8).
  wp_step. wp_step. wp_step.
  assert (w_bufs w8 !! w_next w4 = Some bs) as Hbuf.
  { rewrite Eb8, Eb7, Eb6. apply lookup_insert_eq. }
  assert (∀ x, x ≠ w_next w → data_at w8 x = data_at w x) as Eo.
  { intros x Hx. rewrite Eo8, Eo7, (data_at_objs w5 w6), (data_at_objs w4 w5) by done.
    by rewrite Eo4, Eo3, Eo2, Eo1. }
  pose proof (bld_data_at _ _ _ _ _ _ _ _ B8) as Hd8.
  split_and!; [done| |by destruct B8|].
  - eapply bld_seal_leaf; [exact B8| |done|].
    + split_and!; [done|done|]. eexists _, 0, bs. split_and!; [done|done|lia|simpl; lia|done].
    + simpl. intros b0 off0 f l0 [= <- <- <- <-] o2 d2 off2 f2 l2 Hne Hd2 Hr2.
      rewrite Eo in Hd2 by done. exfalso.
      apply (unref_fresh _ _ _ _ (w_next w4) H ltac:(lia) o2 d2 off2 f2 l2 Hd2 Hr2).
  - unfold contents. rewrite Hd8. unfold recs_bytes, rec_bytes. simpl. rewrite Hbuf, app_nil_r.
    simpl. rewrite drop_0. apply take_ge. lia.
Qed.

(** ** Concatenation *)

Lemma sum_len_app rs1 rs2 : sum_len (rs1 ++ rs2) = sum_len rs1 + sum_len rs2.
Proof. induction rs1; simpl; lia. Qed.

Lemma as_records_length bufs o d :
  leaf_ok bufs d ∨ leaf d = false → length (as_records o d) = length (records d).
Proof.
  unfold as_records. intros [(Hl & _ & b & off & l & Hr & _)|Hl]; rewrite Hl; [|done]. by rewrite Hr.
Qed.

(** Replacing the object of the first record of a part is how a leaf is
    referred to as a sub-object. *)
Lemma set_record_object_leaf bufs (l1 l2 : list range_record) o d :
  leaf_ok bufs d →
  set_record_object (length l1) o (l1 ++ records d ++ l2) = l1 ++ as_records o d ++ l2.
Proof.
  intros (Hl & _ & b & off & l & Hr & _). unfold as_records. rewrite Hl, Hr. unfold set_record_object.
  rewrite alter_app_r_alt by lia. by rewrite Nat.sub_diag.
Qed.

Lemma wrecord_ok_ext w w' rs :
  Forall (wrecord_ok w) rs →
  (∀ x d, data_at w x = Some d → data_at w' x = Some d) → Forall (wrecord_ok w') rs.
Proof.
  intros HF Hx. eapply Forall_impl; [exact HF|]. intros r (x & d & ? & ? & ?).
  exists x, d. split; [done|]. split; [by apply Hx|done].
Qed.

Definition concat_post iq n ext (w : W) (a b o : nat) (w' : W) : Prop :=
  ok iq n (ext ⊎ {[+ o +]}) w' ∧ w ⇝ w' ∧ w_bufs w' = w_bufs w ∧
  contents w' o = contents w a ++ contents w b ∧
  size_of w' o = size_of w a + size_of w b ∧
  recs_of w' o = recs_of w a + recs_of w b ∧
  (∀ x d, data_at w x = Some d → data_at w' x = Some d).

(** A retained operand is the result when the other one is empty. *)
Lemma concat_empty_spec iq n ext (w : W) a b o d :
  ok iq n ext w → data_at w o = Some d → n + 1 < INT_MAX →
  contents w o = contents w a ++ contents w b →
  size_of w o = size_of w a + size_of w b → recs_of w o = recs_of w a + recs_of w b →
  wp (_dispatch_data_retain o;; mret o) (λ o w', concat_post iq (n + 1) ext w a b o w') w.
Proof.
  intros H Hd Hn Hc Hs Hr. wp_step.
  eapply wp_mono; [eapply wp_frame; [intros ? w'; exact (retain_frame o w w' _)|
                     by eapply retain_spec]|].
  intros _ w' ((H' & Ev) & Eb & _ & Eo). wp_step.
  assert (contents w' o = contents w o) as Hc'.
  { unfold contents. rewrite Eo, Hd. unfold recs_bytes. f_equal. apply list_fmap_ext. intros i r _.
    unfold rec_bytes, rec_ptr, peek. rewrite Eb. destruct (data_object r); [done..|]. by rewrite Eo. }
  split_and!; [done|done|done|congruence| | |intros x dx; by rewrite Eo].
  - unfold size_of in *. by rewrite Eo.
  - unfold recs_of in *. by rewrite Eo.
Qed.

Lemma recs_bytes_same (w w' : W) rs :
  w_bufs w' = w_bufs w → Forall (wrecord_ok w) rs →
  (∀ x d, data_at w x = Some d → data_at w' x = Some d) → recs_bytes w' rs = recs_bytes w rs.
Proof.
  intros Eb HF Eo. unfold recs_bytes. f_equal. apply list_fmap_ext. intros i r Hr.
  rewrite Forall_forall in HF. destruct (HF r) as (x & d & Ex & Hd & _); [by eapply list_elem_of_lookup_2|].
  unfold rec_bytes, rec_ptr, peek. rewrite Eb, Ex, Hd, (Eo x d Hd). done.
Qed.

(** The three stores that fill in the records of a concatenation. *)
Lemma concat_records_spec B iq n ext w0 o d bufs w dd1 dd2 d1 d2 :
  bld B iq n ext w0 o d w →
  leaf_ok bufs d1 ∨ leaf d1 = false → leaf_ok bufs d2 ∨ leaf d2 = false →
  0 < num_records d1 → 0 < num_records d2 →
  (∀ b off f l, as_records dd1 d1 ++ as_records dd2 d2 ≠ [RR (PBuf b off) f l]) →
  wp (modify_data o (set_records (records d1 ++ records d2));;
      (if leaf d1
       then modify_data o (λ d, set_records (set_record_object 0 dd1 (records d)) d)
       else mret tt);;
      (if leaf d2
       then modify_data o (λ d, set_records (set_record_object (length (records d1)) dd2 (records d)) d)
       else mret tt))
    (λ _ w', bld B iq n ext w0 o (set_records (as_records dd1 d1 ++ as_records dd2 d2) d) w' ∧
             w_bufs w' = w_bufs w ∧ (∀ x, x ≠ o → data_at w' x = data_at w x)) w.
Proof.
  intros Hb H1 H2 Hn1 Hn2 Hrs.
  assert (∀ o d, leaf_ok bufs d ∨ leaf d = false → length (as_records o d) = length (records d)) as Hlen
    by (intros; by eapply as_records_length).
  assert (∀ rs1 rs2 b off f l, (0 < length rs1)%nat → (0 < length rs2)%nat →
            rs1 ++ rs2 ≠ [RR (PBuf b off) f l]) as Hne.
  { intros rs1 rs2 b off f l ? ? E. apply (f_equal length) in E. rewrite length_app in E. simpl in E. lia. }
  unfold num_records in *.
  wp_step. eapply wp_mono; [eapply bld_modify_data; [exact Hb|]|].
  { simpl. intros b off f l E. apply Hne in E; [done|lia|lia]. }
  intros _ w1 (B1 & Eb1 & _ & Eo1). cbn [records set_records] in B1.
  assert (wp (if leaf d1
       then modify_data o (λ d, set_records (set_record_object 0 dd1 (records d)) d)
       else mret tt)
     (λ _ w', bld B iq n ext w0 o (set_records (as_records dd1 d1 ++ records d2) d) w' ∧
        w_bufs w' = w_bufs w1 ∧ (∀ x, x ≠ o → data_at w' x = data_at w1 x)) w1) as Hstep1.
  { destruct (leaf d1) eqn:Hl1.
    - destruct H1 as [H1|?]; [|done].
      pose proof (set_record_object_leaf bufs [] (records d2) dd1 d1 H1) as E. simpl in E.
      eapply wp_mono; [eapply bld_modify_data; [exact B1|]|].
      { simpl. rewrite E. intros b off f l E'. apply Hne in E'; [done|rewrite Hlen by tauto; lia|lia]. }
      intros _ w2 (B2 & ? & _ & ?). simpl in B2. rewrite E in B2. done.
    - wp_step. unfold as_records. by rewrite Hl1. }
  wp_step. eapply wp_mono; [exact Hstep1|]. intros _ w2 (B2 & Eb2 & Eo2).
  destruct (leaf d2) eqn:Hl2.
  - destruct H2 as [H2|?]; [|done].
    pose proof (set_record_object_leaf bufs (as_records dd1 d1) [] dd2 d2 H2) as E.
    rewrite !app_nil_r in E. rewrite Hlen in E by tauto.
    eapply wp_mono; [eapply bld_modify_data; [exact B2|]|].
    { simpl. rewrite E. intros b off f l E'. by apply Hrs in E'. }
    intros _ w3 (B3 & ? & _ & Eo3). simpl in B3. rewrite E in B3.
    split_and!; [done|congruence|]. intros x Hx. by rewrite Eo3, Eo2, Eo1.
  - wp_step. unfold as_records in B2 |- *. rewrite Hl2 in *.
    split_and!; [done|congruence|]. intros x Hx. by rewrite Eo2, Eo1.
Qed.

Lemma wp_bind_assoc3 {S A} (m1 m2 m3 : M S unit) (k : M S A) Q s :
  wp (m1;; m2;; m3) (λ _ s', wp k Q s') s → wp (m1;; m2;; m3;; k) Q s.
Proof.
  unfold wp, mbind, M_bind. destruct (m1 s) as [? s1|]; [|done].
  destruct (m2 s1) as [? s2|]; [|done]. by destruct (m3 s2).
Qed.

Lemma empty_facts w o d :
  view w o d → data_at w o = Some d → dsize d = 0 →
  contents w o = [] ∧ size_of w o = 0 ∧ recs_of w o = 0.
Proof.
  intros V Hd Hz. destruct V; [|lia]. unfold contents, size_of, recs_of. by rewrite Hd.
Qed.

Lemma concat_spec iq n ext (w : W) dd1 dd2 d1 d2 :
  ok iq n ext w → data_at w dd1 = Some d1 → data_at w dd2 = Some d2 →
  dsize d1 + dsize d2 < 2 ^ 64 → n + num_records d1 + num_records d2 + 1 < INT_MAX →
  wp (dispatch_data_create_concat dd1 dd2)
     (λ o w', concat_post iq (n + num_records d1 + num_records d2 + 1) ext w dd1 dd2 o w') w.
Proof.
  intros H Hd1 Hd2 Hsz Hn. unfold dispatch_data_create_concat.
  assert (0 ≤ num_records d1 ∧ 0 ≤ num_records d2) as [Hn1 Hn2] by (unfold num_records; lia).
  pose proof (ok_data _ _ _ _ _ _ H Hd1) as V1. pose proof (ok_data _ _ _ _ _ _ H Hd2) as V2.
  wp_step. eapply wp_get_data; [done|]. case_decide as Hz1.
  { destruct (empty_facts w dd1 d1 V1 Hd1 Hz1) as (E1 & E2 & E3).
    eapply wp_mono; [eapply (concat_empty_spec iq n ext w dd1 dd2 dd2 d2); try done; [lia|..]|].
    - by rewrite E1.
    - by rewrite E2.
    - by rewrite E3.
    - intros o w' (? & ?). split; [|done]. eapply ok_weaken; [done|lia]. }
  wp_step. eapply wp_get_data; [done|]. case_decide as Hz2.
  { destruct (empty_facts w dd2 d2 V2 Hd2 Hz2) as (E1 & E2 & E3).
    eapply wp_mono; [eapply (concat_empty_spec iq n ext w dd1 dd2 dd1 d1); try done; [lia|..]|].
    - by rewrite E1, app_nil_r.
    - rewrite E2. lia.
    - rewrite E3. lia.
    - intros o w' (? & ?). split; [|done]. eapply ok_weaken; [done|lia]. }
  destruct V1 as [|d1 Hs1 Hlc1 Hrs1 Hsum1]; [done|]. destruct V2 as [|d2 Hs2 Hlc2 Hrs2 Hsum2]; [done|].
  cbv zeta. set (rs := as_records dd1 d1 ++ as_records dd2 d2).
  assert (Z.of_nat (length (as_records dd1 d1)) = num_records d1 ∧
          Z.of_nat (length (as_records dd2 d2)) = num_records d2) as [Hlen1 Hlen2].
  { unfold num_records. by rewrite !(as_records_length (w_bufs w)) by tauto. }
  assert (∀ b off f l, rs ≠ [RR (PBuf b off) f l]) as Hrs.
  { intros b off f l E. assert (Forall (wrecord_ok w) rs) as HF by by apply Forall_app.
    rewrite E in HF. apply Forall_cons in HF as [(? & ? & Hbad & _) _]. discriminate Hbad. }
  assert (0 < num_records d1 ∧ 0 < num_records d2) as [Hp1 Hp2].
  { split; rewrite <- ?Hlen1, <- ?Hlen2; [destruct (as_records dd1 d1)|destruct (as_records dd2 d2)];
      simpl in *; lia. }
  wp_step. eapply wp_mono; [by apply bld_init|]. intros o w1 (B1 & -> & Eb1 & En1 & Eo1).
  wp_step. eapply wp_mono; [eapply bld_modify_data; [exact B1|]|].
  { cbn. intros b off f l E. apply (f_equal length) in E as E'. rewrite length_replicate in E'.
    unfold num_records in *. simpl in E'. lia. }
  intros _ w2 (B2 & Eb2 & En2 & Eo2).
  (* the records in place, whatever the leaves among the operands *)
  assert (wp (modify_data (w_next w) (set_records (records d1 ++ records d2));;
    (if leaf d1
     then modify_data (w_next w) (λ d, set_records (set_record_object 0 dd1 (records d)) d)
     else mret tt);;
    (if leaf d2
     then modify_data (w_next w) (λ d, set_records (set_record_object (length (records d1)) dd2 (records d)) d)
     else mret tt))
    (λ _ w', bld none iq n ext w (w_next w)
               (set_records rs (set_size (u64 (dsize d1 + dsize d2)) (new_data (length (records d1) + length (records d2))))) w' ∧
             w_bufs w' = w_bufs w2 ∧ (∀ x, x ≠ w_next w → data_at w' x = data_at w2 x)) w2) as Hset.
  { apply (concat_records_spec none iq n ext w _ _ (w_bufs w)); try done; tauto. }
  apply wp_bind_assoc3. eapply wp_mono; [exact Hset|]. clear Hset.
  intros _ w3 (B3 & Eb3 & Eo3).
  assert (∀ x d, data_at w x = Some d → data_at w3 x = Some d) as Eo.
  { intros x d Hd. assert (x ≠ w_next w) by (apply (ok_lt _ _ _ _ _ _ H) in Hd; lia).
    by rewrite Eo3, Eo2, Eo1. }
  wp_step. eapply wp_get_data; [by eapply bld_data_at|]. cbn [records set_records].
  assert (Forall (wrecord_ok w) rs) as Hok by by apply Forall_app.
  wp_step. eapply wp_mono; [eapply bld_retain_records; [exact B3| |]|].
  { unfold rs. rewrite length_app. lia. }
  { eapply Forall_impl; [exact Hok|]. intros r (x & dx & ? & Hdx & _). exists x, dx.
    split_and!; [done|by apply Eo|]. apply (ok_lt _ _ _ _ _ _ H) in Hdx. lia. }
  intros _ w4 (B4 & Eb4 & Eo4). wp_step.
  assert (∀ x d, data_at w x = Some d → data_at w4 x = Some d) as Eo'.
  { intros x d Hd. rewrite Eo4. by apply Eo. }
  assert (w_bufs w4 = w_bufs w) as Eb by congruence.
  assert (sum_len rs = dsize d1 + dsize d2) as Hsum by (unfold rs; rewrite sum_len_app; lia).
  rewrite wrapU_small in * by lia.
  pose proof (bld_data_at _ _ _ _ _ _ _ _ B4) as Hd4.
  split_and!; [|by destruct B4|done| | | |done].
  - eapply ok_weaken; [eapply (bld_seal_comp none iq _ ext w _ (set_records rs _) w4 B4); [done|done| | |]|]; simpl.
    + done.
    + lia.
    + by eapply wrecord_ok_ext.
    + unfold rs. rewrite length_app. lia.
  - unfold contents at 1. rewrite Hd4. simpl.
    rewrite (recs_bytes_same w w4) by done. unfold rs. rewrite recs_bytes_app.
    by rewrite <- !(recs_bytes_as_records iq n ext w) by done.
  - unfold size_of. by rewrite Hd4, Hd1, Hd2.
  - unfold recs_of. rewrite Hd4, Hd1, Hd2. unfold num_records in *. simpl.
    unfold rs. rewrite length_app. lia.
Qed.

(** ** Subrange *)

Definition slice (off len : Z) (l : list Z) : list Z := take (Z.to_nat len) (drop (Z.to_nat off) l).

Definition sub_post iq n ext (w : W) (bs : list Z) (k : Z) (o : nat) (w' : W) : Prop :=
  ok iq n (ext ⊎ {[+ o +]}) w' ∧ w ⇝ w' ∧ contents w' o = bs ∧ recs_of w' o ≤ k.

Lemma slice_all l : slice 0 (Z.of_nat (length l)) l = l.
Proof. unfold slice. rewrite Nat2Z.id, drop_0. apply take_ge. lia. Qed.

Lemma slice_clamp off len l :
  0 ≤ off → Z.of_nat (length l) ≤ off + len → slice off len l = drop (Z.to_nat off) l.
Proof. intros. unfold slice. apply take_ge. rewrite length_drop. lia. Qed.

(** The bytes of a record of a leaf are a slice of the bytes of the leaf. *)
Lemma rec_bytes_slice iq n ext w r o d :
  ok iq n ext w → data_at w o = Some d → leaf d = true → data_object r = PObj o →
  0 ≤ from r → 0 ≤ rlength r → from r + rlength r ≤ dsize d →
  rec_bytes w r = slice (from r) (rlength r) (contents w o).
Proof.
  intros H Hd Hl Hr Hf Hn Hle.
  destruct (ok_leaf _ _ _ _ _ _ H Hd Hl) as ((_ & _ & b & off & l & Hrec & Hb & Hoff & Hlen & _) & _).
  unfold contents. rewrite Hd, Hrec. unfold recs_bytes, rec_bytes. simpl.
  rewrite (rec_ptr_obj w r o d b off (dsize d)) by done. simpl. rewrite Hb, app_nil_r.
  unfold slice. rewrite skipn_firstn_comm, take_take, drop_drop.
  f_equal; [lia|]. f_equal. lia.
Qed.

Lemma retain_post iq n ext (w : W) o d :
  ok iq n ext w → data_at w o = Some d → n + 1 < INT_MAX →
  wp (_dispatch_data_retain o;; mret o)
     (λ o' w', o' = o ∧ sub_post iq (n + 1) ext w (contents w o) (num_records d) o' w') w.
Proof.
  intros H Hd Hn. wp_step.
  eapply wp_mono; [eapply wp_frame; [intros ? w'; exact (retain_frame o w w' _)|
                     by eapply retain_spec]|].
  intros _ w' ((H' & Ev) & Eb & _ & Eo). wp_step. split; [done|].
  split_and!; [done|done| |unfold recs_of; by rewrite Eo, Hd].
  rewrite (recs_bytes_as_records iq (n + 1) (ext ⊎ {[+ o +]}) w' o d), (recs_bytes_as_records iq n ext w o d)
    by (try done; by rewrite Eo).
  destruct (ok_data _ _ _ _ _ _ H Hd); [done|].
  apply recs_bytes_same; [done|done|]. intros x dx. by rewrite Eo.
Qed.

Lemma empty_post iq n ext (w : W) k :
  ok iq n ext w → 0 ≤ k → sub_post iq (n + 1) ext w [] k dispatch_data_empty w.
Proof.
  intros H Hk. pose proof (ok_empty _ _ _ _ H) as He. destruct H as (m & E & Hd & I & Ht & Hh).
  split_and!; [|done| |].
  - exists m. split_and!; [done..| |rewrite total_ext_add; lia|done].
    eapply inv_ext_empty; [exact I|]. intros x Hx.
    rewrite mult_union, mult_singleton, decide_False by done. lia.
  - unfold contents. by rewrite He.
  - unfold recs_of. by rewrite He.
Qed.

Lemma retain_records_one (w : W) o f l (Q : unit → W → Prop) :
  wp (retain_records [RR (PObj o) f l]) Q w → wp (_dispatch_data_retain o) Q w.
Proof.
  simpl. intros H%wp_bind_inv. unfold wp, mbind, M_bind in *. simpl in H.
  by destruct (_dispatch_data_retain o w) as [[] ?|].
Qed.

(** A new object over one range of a leaf, as [create_subrange] and
    [copy_region] build it. *)
Lemma leaf_range_spec iq n ext (w : W) o d off len :
  ok iq n ext w → data_at w o = Some d → leaf d = true →
  0 ≤ off → 0 < len → off + len ≤ dsize d → n + 3 < INT_MAX →
  wp (data ← _dispatch_data_init 1;
      modify_data data (set_size len);;
      modify_data data (set_records [RR (PObj o) off len]);;
      _dispatch_data_retain o;;
      mret data)
     (λ o' w', sub_post iq (n + 3) ext w (slice off len (contents w o)) 1 o' w' ∧
               data_at w' o' = Some (DD false B_NULL len [RR (PObj o) off len])) w.
Proof.
  intros H Hd Hl Hoff Hlen Hle Hn.
  destruct (ok_leaf _ _ _ _ _ _ H Hd Hl) as (_ & Hsz).
  set (r := RR (PObj o) off len).
  assert (wrecord_ok w r) as Hr by (by exists o, d).
  wp_step. eapply wp_mono; [by apply bld_init|]. intros x w1 (B1 & -> & Eb1 & En1 & Eo1).
  wp_step. eapply wp_mono; [eapply bld_modify_data; [exact B1|by simpl]|].
  intros _ w2 (B2 & Eb2 & En2 & Eo2).
  wp_step. eapply wp_mono; [eapply bld_modify_data; [exact B2|by simpl]|].
  intros _ w3 (B3 & Eb3 & En3 & Eo3).
  assert (∀ x dx, data_at w x = Some dx → data_at w3 x = Some dx) as Eo.
  { intros x dx Hx. assert (x ≠ w_next w) by (apply (ok_lt _ _ _ _ _ _ H) in Hx; lia).
    by rewrite Eo3, Eo2, Eo1. }
  assert (o ≠ w_next w) as Hne by (apply (ok_lt _ _ _ _ _ _ H) in Hd; lia).
  wp_step. apply retain_records_one with (f := off) (l := len). fold r.
  eapply wp_mono; [eapply bld_retain_records; [exact B3|simpl; lia|]|].
  { apply Forall_singleton. exists o, d. split_and!; [done|by apply Eo|done]. }
  intros _ w4 (B4 & Eb4 & Eo4). wp_step.
  pose proof (bld_data_at _ _ _ _ _ _ _ _ B4) as Hd4.
  assert (∀ x dx, data_at w x = Some dx → data_at w4 x = Some dx) as Eo'.
  { intros x dx Hx. rewrite Eo4. by apply Eo. }
  assert (Forall (wrecord_ok w) [r]) as HF by by apply Forall_singleton.
  split; [|done]. split_and!; [|by destruct B4| |].
  - eapply ok_weaken; [eapply (bld_seal_comp none iq _ ext w _ (DD false B_NULL len [r]) w4 B4);
      [done|done| | |]|]; simpl; [lia|lia| |lia].
    by eapply wrecord_ok_ext.
  - unfold contents at 1. rewrite Hd4. simpl. rewrite (recs_bytes_same w w4); [|congruence|done|done].
    unfold recs_bytes. simpl. rewrite app_nil_r.
    by rewrite (rec_bytes_slice iq n ext w r o d) by (try done; simpl; lia).
  - unfold recs_of. by rewrite Hd4.
Qed.

Lemma slice_empty off len l :
  0 ≤ off → Z.of_nat (length l) ≤ off ∨ len = 0 → slice off len l = [].
Proof.
  intros Hoff [H| ->]; unfold slice; [|done]. rewrite drop_ge by lia. by rewrite take_nil.
Qed.

Lemma subrange_leaf_spec fuel iq n ext (w : W) o d off len :
  ok iq n ext w → data_at w o = Some d → leaf d = true →
  0 ≤ off → 0 ≤ len → off + len < 2 ^ 64 → n + 3 < INT_MAX →
  wp (create_subrange (S fuel) o off len)
     (sub_post iq (n + 3) ext w (slice off len (contents w o)) 1) w.
Proof.
  intros H Hd Hl Hoff Hlen Hov Hn.
  destruct (ok_leaf _ _ _ _ _ _ H Hd Hl) as ((_ & _ & b & bo & bl & Hrec & _) & Hsz).
  pose proof (contents_length _ _ _ _ _ _ H Hd) as Hcl.
  simpl. wp_step. eapply wp_get_data; [done|]. case_decide as Hz.
  { wp_step. rewrite slice_empty by lia. destruct (empty_post iq n ext w 1 H) as (? & ? & ? & ?); [lia|].
    split_and!; [by eapply ok_weaken; [|instantiate (1 := n + 1); lia]|done..]. }
  rewrite (wrapU_small 64 (off + len)) by lia.
  destruct (dsize d <? off + len) eqn:Hc; simpl.
  - apply Z.ltb_lt in Hc. rewrite Hl. rewrite wrapU_small by lia.
    eapply wp_mono; [eapply (leaf_range_spec iq n ext w o d); try done; lia|].
    intros o' w' (Hp & _). rewrite (slice_clamp off len) by lia.
    rewrite (slice_clamp off (dsize d - off)) in Hp by lia. done.
  - apply Z.ltb_ge in Hc. destruct (len =? dsize d) eqn:Hfull.
    + apply Z.eqb_eq in Hfull. eapply wp_mono; [eapply (retain_post iq n ext w o d); [done|done|lia]|].
      intros o' w' (_ & Hok & Hev & Hct & Hr). assert (off = 0) as -> by lia.
      split_and!; [by eapply ok_weaken; [|instantiate (1 := n + 1); lia]|done| |].
      * rewrite Hct. rewrite Hfull, <- Hcl. symmetry. apply slice_all.
      * unfold num_records in Hr. rewrite Hrec in Hr. done.
    + rewrite Hl. eapply wp_mono; [eapply (leaf_range_spec iq n ext w o d); try done; lia|].
      by intros o' w' (Hp & _).
Qed.

(** The records after the one that contains [offset], the offset into it. *)
Lemma skip_records_spec w iq n ext rs off :
  ok iq n ext w → Forall (wrecord_ok w) rs → 0 ≤ off < sum_len rs → sum_len rs < 2 ^ 64 →
  ∃ r rs' off', skip_records rs off = (r :: rs', off') ∧ suffix (r :: rs') rs ∧
    0 ≤ off' < rlength r ∧ sum_len (r :: rs') - off' = sum_len rs - off ∧
    drop (Z.to_nat off) (recs_bytes w rs) = drop (Z.to_nat off') (recs_bytes w (r :: rs')).
Proof.
  intros H. revert off. induction rs as [|r rs IH]; intros off HF Hoff Hmax; simpl in *; [lia|].
  apply Forall_cons in HF as [Hr HF].
  assert (0 ≤ sum_len rs) by (rewrite <- (recs_bytes_length _ _ _ _ _ H HF); lia).
  pose proof (rec_bytes_length _ _ _ _ _ H Hr) as Hlen.
  case_decide as Hc.
  - rewrite wrapU_small by lia.
    destruct (IH (off - rlength r) HF) as (r' & rs' & off' & -> & Hs & ? & ? & Hdrop); [lia..|].
    exists r', rs', off'. split_and!; [done|by apply suffix_cons_r|lia|lia|lia|].
    rewrite <- Hdrop, recs_bytes_cons, drop_app_ge by lia. f_equal. lia.
  - exists r, rs, off. split_and!; done || lia.
Qed.

(** The second loop, started on the object [data] built so far. *)
Lemma subrange_loop_spec fuel iq (Hiq : ∀ q, 1 ≤ iq q) dd d rs :
  ∀ n k ext (w : W) cur off left,
  suffix rs (records d) → leaf d = false →
  dd ∈ ext → data_at w dd = Some d → ok iq n (ext ⊎ {[+ cur +]}) w →
  0 < left ≤ sum_len rs - off → 0 ≤ off → (∀ r rs', rs = r :: rs' → off < rlength r) →
  Z.of_nat (length (contents w cur)) + left < 2 ^ 64 → 0 ≤ k → recs_of w cur ≤ k →
  n + Z.of_nat (length rs) * (k + Z.of_nat (length rs) + 4) + 6 < INT_MAX →
  wp (subrange_loop (create_subrange (S fuel)) rs cur off left)
     (λ o w', ok iq (n + Z.of_nat (length rs) * (k + Z.of_nat (length rs) + 4)) (ext ⊎ {[+ o +]}) w' ∧
        w ⇝ w' ∧ contents w' o = contents w cur ++ slice off left (recs_bytes w rs)) w.
Proof.
  induction rs as [|r rs IH]; intros n k ext w cur off left Hsuf Hl Hdd Hd H Hleft Hoff Hfirst Hmax Hk Hrc Hn.
  { simpl in Hleft. lia. }
  specialize (Hfirst r rs eq_refl).
  set (L := Z.of_nat (length rs)) in *.
  replace (Z.of_nat (length (r :: rs))) with (L + 1) in * by (simpl; lia).
  assert (0 ≤ L) as HL by lia. assert (0 ≤ L * (k + L)) as HLk by nia.
  destruct (ok_data _ _ _ _ _ _ H Hd) as [|d Hsd _ Hrs Hsumd]; [by destruct Hsuf as [[|??] ?]|].
  unfold as_records in Hrs, Hsumd. rewrite Hl in Hrs, Hsumd.
  assert (Forall (wrecord_ok w) (r :: rs)) as Hrs'.
  { rewrite Forall_forall in *. intros x Hx. apply Hrs. destruct Hsuf as [pre ->]. set_solver. }
  pose proof Hrs' as [Hr HF]%Forall_cons. pose proof Hr as (o & dx & Hro & Hdx & Hlx & Hf0 & Hr0 & Hrd).
  destruct (ok_leaf _ _ _ _ _ _ H Hdx Hlx) as (_ & Hsx).
  assert (0 ≤ sum_len rs) as Hsum0 by (rewrite <- (recs_bytes_length _ _ _ _ _ H HF); lia).
  cbn [subrange_loop]. cbv zeta. rewrite (wrapU_small 64 (rlength r - off)) by lia.
  set (rl := if decide (left < rlength r - off) then left else rlength r - off).
  assert (0 < rl ∧ rl ≤ left ∧ rl ≤ rlength r - off ∧ (rl = left ∨ rl = rlength r - off)) as Hrl.
  { unfold rl. case_decide; lia. }
  rewrite Hro. wp_step. cbn [as_obj]. wp_step. wp_step.
  rewrite (wrapU_small 64 (from r + off)) by lia.
  eapply wp_mono; [eapply (subrange_leaf_spec fuel iq n _ w o dx); try done; try lia; nia|].
  intros sub w1 (H1 & Ev1 & Hc1 & Hr1).
  (* the bytes of the piece *)
  assert (contents w1 sub = slice off rl (rec_bytes w r)) as Hpiece.
  { rewrite Hc1, (rec_bytes_slice iq n _ w r o dx) by (try done; lia). unfold slice.
    rewrite skipn_firstn_comm, take_take, drop_drop. f_equal; [lia|]. f_equal. lia. }
  destruct (kept _ _ _ _ _ _ w w1 cur H H1 Ev1) as (Hdc & Hcc & _); [ms_in..|].
  destruct (ok_ext _ _ _ _ cur H) as [dc Hdcur]; [ms_in|].
  destruct (ok_ext _ _ _ _ sub H1) as [ds Hdsub]; [ms_in|].
  assert (data_at w1 cur = Some dc) as Hdc1 by congruence.
  pose proof (contents_length _ _ _ _ _ _ H Hdcur) as Hlc.
  pose proof (contents_length _ _ _ _ _ _ H1 Hdsub) as Hls.
  assert (Z.of_nat (length (contents w1 sub)) = rl) as Hlsub.
  { rewrite Hpiece. unfold slice. rewrite length_take, length_drop.
    pose proof (rec_bytes_length _ _ _ _ _ H Hr). lia. }
  assert (num_records dc ≤ k) as Hnk by (unfold recs_of in Hrc; by rewrite Hdcur in Hrc).
  assert (num_records ds ≤ 1) as Hns by (unfold recs_of in Hr1; by rewrite Hdsub in Hr1).
  wp_step. eapply wp_mono; [eapply (concat_spec iq (n + 3) _ w1 cur sub dc ds); try done; [lia|nia]|].
  intros cat w2 (H2 & Ev2 & _ & Hc2 & _ & Hrc2 & Hpres2).
  wp_step. eapply wp_mono; [eapply (release_spec iq Hiq 1 _ _ ∅ w2 cur); [exact H2|ms_in]|].
  intros _ w3 (H3 & Ev3).
  wp_step. eapply wp_mono; [eapply (release_spec iq Hiq 1 _ _ ∅ w3 sub); [exact H3|rewrite ms_take3; ms_in]|].
  intros _ w4 (H4 & Ev4).
  assert (((ext ⊎ {[+ cur +]} ⊎ {[+ sub +]} ⊎ {[+ cat +]}) ∖ {[+ cur +]}) ∖ {[+ sub +]} = ext ⊎ {[+ cat +]}) as Eext
    by by rewrite ms_take3, ms_take2.
  rewrite Eext in H4.
  destruct (kept _ _ _ _ _ _ w2 w4 cat H2 H4) as (Hdcat & Hccat & _);
    [by etrans|ms_in..|].
  assert (w ⇝ w4) as Ev by (do 3 (etrans; [eassumption|]); done).
  destruct (kept _ _ _ _ _ _ w w4 dd H H4 Ev) as (Hdd4 & _ & Hbytes4); [ms_in..|].
  specialize (Hbytes4 d Hd). unfold as_records in Hbytes4. rewrite Hl in Hbytes4.
  assert (recs_bytes w4 rs = recs_bytes w rs) as Hrsb.
  { unfold recs_bytes. f_equal. apply list_fmap_ext. intros i x Hx.
    rewrite Forall_forall in Hbytes4. apply Hbytes4. apply list_elem_of_lookup_2 in Hx.
    destruct Hsuf as [pre ->]. set_solver. }
  assert (contents w4 cat = contents w cur ++ slice off rl (rec_bytes w r)) as Hcat.
  { rewrite Hccat, Hc2, Hcc, Hpiece. done. }
  pose proof (rec_bytes_length _ _ _ _ _ H Hr) as Hrlen.
  rewrite (wrapU_small 64 (left - rl)) by lia.
  case_decide as Hdone.
  - wp_step. split_and!; [eapply ok_weaken; [exact H4|nia]|done|]. rewrite Hcat. f_equal.
    rewrite recs_bytes_cons. unfold slice. rewrite drop_app_le, take_app_le
      by (rewrite ?length_drop; lia). f_equal. lia.
  - assert (rl = rlength r - off) as Hrl' by lia.
    eapply wp_mono; [eapply (IH _ (k + 1) ext w4 cat 0 (left - rl)); try done|].
    + destruct Hsuf as [pre ->]. by exists (pre ++ [r]); rewrite <- app_assoc.
    + congruence.
    + simpl in Hleft. lia.
    + intros r' rs' ->. apply Forall_cons in HF as [(?&?&?&?&?&?&?&?) _]. lia.
    + rewrite Hcat, length_app. unfold slice. rewrite length_take, length_drop. lia.
    + lia.
    + unfold recs_of in *. rewrite Hdcat, Hrc2. rewrite Hdc1, Hdsub. lia.
    + fold L. nia.
    + intros o' w' (H5 & Ev5 & Hc5). split_and!; [eapply ok_weaken; [exact H5|fold L; nia]|by etrans|].
      rewrite Hc5, Hcat, Hrsb, <- app_assoc. f_equal.
      rewrite recs_bytes_cons. unfold slice at 1 2. rewrite drop_0.
      rewrite (take_ge (drop _ (rec_bytes w r))) by (rewrite length_drop; lia).
      unfold slice. rewrite drop_app_le by lia. rewrite take_app. f_equal.
      * rewrite take_ge; [done|]. rewrite length_drop. lia.
      * f_equal. rewrite length_drop. lia.
Qed.

Lemma suffix_in {A} (x : A) l k : suffix l k → x ∈ l → x ∈ k.
Proof. intros [pre ->] ?. apply elem_of_app. by right. Qed.

(** References that a subrange of an object of [R] records may need. *)
Definition subrange_room (R : Z) : Z := R * (R + 4) + 7.

Lemma subrange_spec iq (Hiq : ∀ q, 1 ≤ iq q) n ext (w : W) dd off len :
  ok iq n ext w → dd ∈ ext → 0 ≤ off → 0 ≤ len → off + len < 2 ^ 64 →
  n + subrange_room (recs_of w dd) < INT_MAX →
  wp (dispatch_data_create_subrange dd off len)
     (λ o w', ok iq (n + subrange_room (recs_of w dd)) (ext ⊎ {[+ o +]}) w' ∧ w ⇝ w' ∧
              contents w' o = slice off len (contents w dd)) w.
Proof.
  intros H Hdd Hoff Hlen Hov Hn. destruct (ok_ext _ _ _ _ _ H Hdd) as [d Hd].
  pose proof (contents_length _ _ _ _ _ _ H Hd) as Hcl.
  assert (0 ≤ recs_of w dd) as HR by (unfold recs_of; rewrite Hd; unfold num_records; lia).
  unfold subrange_room in *. unfold dispatch_data_create_subrange, DATA_DEPTH.
  destruct (leaf d) eqn:Hl.
  { eapply wp_mono; [eapply (subrange_leaf_spec 1 iq n ext w dd d); try done; nia|].
    intros o w' (Hok & Hev & Hc & _). split_and!; [eapply ok_weaken; [exact Hok|nia]|done|done]. }
  cbn [create_subrange]. wp_step. eapply wp_get_data; [done|]. case_decide as Hz.
  { wp_step. rewrite slice_empty by lia. destruct (empty_post iq n ext w 0 H) as (Hok & ? & ? & _); [lia|].
    split_and!; [eapply ok_weaken; [exact Hok|nia]|done|done]. }
  cbv zeta. rewrite (wrapU_small 64 (off + len)) by lia.
  destruct (ok_data _ _ _ _ _ _ H Hd) as [|d Hsd _ Hrs Hsum]; [simpl in Hz; lia|].
  assert (∀ len', 0 < len' → off + len' ≤ dsize d → slice off len' (contents w dd) = slice off len (contents w dd) →
    wp (let '(rs, offset) := skip_records (records d) off in
        subrange_loop (create_subrange 1) rs dispatch_data_empty offset len')
     (λ o w', ok iq (n + (recs_of w dd * (recs_of w dd + 4) + 7)) (ext ⊎ {[+ o +]}) w' ∧ w ⇝ w' ∧
              contents w' o = slice off len (contents w dd)) w) as Hloop.
  { intros len' Hl0 Hle Hsl. unfold as_records in Hrs, Hsum. rewrite Hl in Hrs, Hsum.
    destruct (skip_records_spec w iq n ext (records d) off H Hrs) as (r & rs' & off' & -> & Hsuf & Ho' & Hsl' & Hdrop);
      [lia..|].
    destruct (empty_post iq n ext w 0 H) as (Hok & _ & Hce & Hre); [lia|].
    assert (Z.of_nat (length (r :: rs')) ≤ recs_of w dd) as HL.
    { unfold recs_of. rewrite Hd. unfold num_records. apply suffix_length in Hsuf. lia. }
    set (L := Z.of_nat (length (r :: rs'))) in *. assert (0 ≤ L) by (unfold L; lia).
    eapply wp_mono; [eapply (subrange_loop_spec 0 iq Hiq dd d (r :: rs') (n + 1) 0 ext w); try done|].
    - simpl in Hsl'. simpl. lia.
    - lia.
    - intros ? ? [= <- <-]; lia.
    - rewrite Hce. simpl. lia.
    - fold L. nia.
    - fold L. intros o w' (Hok' & Hev & Hc). split_and!; [eapply ok_weaken; [exact Hok'|nia]|done|].
      rewrite Hc, Hce, <- Hsl, app_nil_l. rewrite (recs_bytes_as_records _ _ _ _ _ _ H Hd).
      unfold as_records. rewrite Hl. unfold slice. by rewrite Hdrop. }
  destruct (dsize d <? off + len) eqn:Hc; cbn [negb andb].
  - apply Z.ltb_lt in Hc. rewrite Hl. rewrite wrapU_small by lia. apply Hloop; [lia..|].
    rewrite !slice_clamp by lia. done.
  - apply Z.ltb_ge in Hc. destruct (len =? dsize d) eqn:Hfull.
    + apply Z.eqb_eq in Hfull. eapply wp_mono; [eapply (retain_post iq n ext w dd d); [done|done|nia]|].
      intros o w' (_ & Hok & Hev & Hct & Hr). assert (off = 0) as -> by lia.
      split_and!; [eapply ok_weaken; [exact Hok|nia]|done|].
      rewrite Hct, Hfull, <- Hcl. symmetry. apply slice_all.
    + rewrite Hl. apply Hloop; lia || done.
Qed.
