(* ===== verification/DataApply.v ===== *)
(** * Traversal of data objects: apply, map, copy_region *)

From S2P Require Import Prelude Object Data DataInv DataRefs DataBuild DataSpec DataOps.

(** ** Apply *)

(** A region of the buffer space: the place of a run of bytes. *)
Definition region_at (w : W) (p : ptr) (bs : list Z) : Prop :=
  ∃ b off, p = PBuf b off ∧ 0 ≤ off ∧ peek w p (Z.of_nat (length bs)) = bs.

Lemma region_load (w : W) p bs Q :
  region_at w p bs → bs ≠ [] → Q bs w → wp (load p (Z.of_nat (length bs))) Q w.
Proof.
  intros (b & off & -> & Hoff & Hp) Hne HQ. eapply load_spec; [exact Hp|done| |done|done].
  destruct bs; [done|]. simpl. lia.
Qed.

Lemma rec_region iq n ext w r :
  ok iq n ext w → wrecord_ok w r → region_at w (rec_ptr w r) (rec_bytes w r) ∧
  rec_bytes w r ≠ [] ∧ Z.of_nat (length (rec_bytes w r)) = rlength r.
Proof.
  intros H Hr. pose proof (rec_bytes_length _ _ _ _ _ H Hr) as Hlen.
  destruct Hr as (o & d & Hro & Hd & Hl & Hf & Hr0 & Hle).
  destruct (ok_leaf _ _ _ _ _ _ H Hd Hl) as ((_ & _ & b & off & l & Hrec & Hb & Hoff & _) & _).
  split; [|split; [intros E; rewrite E in Hlen; simpl in Hlen; lia|done]].
  exists b, (off + from r). split; [by apply (rec_ptr_obj w r o d b off (dsize d))|].
  split; [lia|]. by rewrite Hlen.
Qed.

Lemma view_nonempty w o d :
  view w o d → dsize d ≠ 0 →
  0 < dsize d < 2 ^ 64 ∧
  (leaf_ok (w_bufs w) d ∨ (leaf d = false ∧ destructor d = B_NULL)) ∧
  Forall (wrecord_ok w) (as_records o d) ∧ sum_len (as_records o d) = dsize d.
Proof. by intros []. Qed.

Section ApplySpec.
Context {X : Type} (applier : X → nat → Z → ptr → Z → MW (X * bool)).
Context (iq : nat → Z) (dd : nat) (w0 : W) (n0 : Z) (ext0 : gmultiset nat) (d : dispatch_data_s).
Context (H0 : ok iq n0 ext0 w0) (Hdd0 : dd ∈ ext0) (Hd0 : data_at w0 dd = Some d).

(** The loop invariant: [I k pre x w] when the [k] regions before have made up
    the bytes [pre].  It keeps the data object referenced, and only buffers
    of the clients, those in [B], are written. *)
Context (I : nat → list Z → X → W → Prop) (Q : X → W → Prop).
Context (B : nat → Prop) (HB : ∀ b, B b → unref w0 b).
Context (I_ok : ∀ k pre x w, I k pre x w → evolves B w0 w ∧ ∃ n ext, ok iq n ext w ∧ dd ∈ ext).

(** The bytes [bs] are at [p] for as long as the data object is referenced. *)
Definition lasting (p : ptr) (bs : list Z) : Prop :=
  ∀ w n ext, evolves B w0 w → ok iq n ext w → dd ∈ ext → region_at w p bs.

(** One call: on the region that comes after [pre], either the invariant
    advances, or the traversal stops and [Q] holds. *)
Context (step : ∀ k pre bs post x w ro p, (k < length (as_records dd d))%nat →
  (S k = length (as_records dd d) → post = []) → contents w0 dd = pre ++ bs ++ post → bs ≠ [] → I k pre x w → lasting p bs →
  wp (applier x ro (Z.of_nat (length pre)) p (Z.of_nat (length bs)))
     (λ xr w', if xr.2 then I (S k) (pre ++ bs) xr.1 w' else Q xr.1 w') w).

Definition apply_post (xr : X * bool) (w : W) : Prop :=
  if xr.2 then ∃ k, (k ≤ length (as_records dd d))%nat ∧ I k (contents w0 dd) xr.1 w
  else Q xr.1 w.

(** The records in the current state. *)
Lemma records_now k pre x w :
  I k pre x w →
  data_at w dd = Some d ∧ recs_bytes w (as_records dd d) = contents w0 dd ∧
  (dsize d ≠ 0 → Forall (wrecord_ok w) (as_records dd d)) ∧
  (∀ o dx, data_at w o = Some dx → leaf dx = true →
     ∃ b off l, records dx = [RR (PBuf b off) 0 l]) ∧
  Forall (λ r, rec_ptr w r = rec_ptr w0 r ∧ rec_bytes w r = rec_bytes w0 r) (as_records dd d).
Proof.
  intros HI. destruct (I_ok _ _ _ _ HI) as (Ev & n & ext & H & Hdd).
  destruct (kept_but B _ _ _ _ _ _ w0 w HB H0 H Ev dd Hdd0 Hdd) as (Ed & Ec & Hb).
  rewrite Hd0 in Ed. split; [done|]. split.
  { rewrite <- Ec. symmetry. by eapply recs_bytes_as_records. }
  split; [|split; [|by apply Hb]].
  - intros Hz. by destruct (ok_data _ _ _ _ _ _ H Ed).
  - intros o dx Hdx Hl. destruct (ok_leaf _ _ _ _ _ _ H Hdx Hl) as ((_ & _ & b & off & l & ? & _) & _).
    eauto.
Qed.

Lemma record_lasting r :
  dsize d ≠ 0 → r ∈ as_records dd d → lasting (rec_ptr w0 r) (rec_bytes w0 r).
Proof.
  intros Hz Hr w n ext Ev H Hdd.
  destruct (kept_but B _ _ _ _ _ _ w0 w HB H0 H Ev dd Hdd0 Hdd) as (Ed & _ & Hb).
  rewrite Hd0 in Ed. specialize (Hb d Hd0).
  destruct (view_nonempty _ _ _ (ok_data _ _ _ _ _ _ H Ed) Hz) as (_ & _ & Hok & _).
  rewrite Forall_forall in Hok, Hb. destruct (Hb r Hr) as [Ep Eb].
  destruct (rec_region _ _ _ _ _ H (Hok r Hr)) as (Hreg & _). by rewrite Ep, Eb in Hreg.
Qed.

(** The call on a record, whatever object stands for the region. *)
Lemma step_record k pre r post x w ro p :
  I k pre x w → (k < length (as_records dd d))%nat →
  (S k = length (as_records dd d) → post = []) → dsize d ≠ 0 → r ∈ as_records dd d → p = rec_ptr w r →
  contents w0 dd = pre ++ rec_bytes w0 r ++ post →
  wp (applier x ro (Z.of_nat (length pre)) p (rlength r))
     (λ xr w', if xr.2 then I (S k) (pre ++ rec_bytes w0 r) xr.1 w' else Q xr.1 w') w.
Proof.
  intros HI Hk Hlast Hz Hr -> Hc. destruct (records_now _ _ _ _ HI) as (_ & _ & Hok & _ & Hsame).
  destruct (I_ok _ _ _ _ HI) as (_ & n & ext & H & _).
  specialize (Hok Hz). rewrite Forall_forall in Hok, Hsame.
  destruct (rec_region _ _ _ _ _ H (Hok r Hr)) as (_ & Hne & Hlen).
  pose proof (record_lasting r Hz Hr). destruct (Hsame r Hr) as (Ep & Eb).
  rewrite Eb, Ep in *. rewrite <- Hlen. by eapply step.
Qed.

Lemma apply_loop_spec fuel k pre rs x w :
  I k pre x w → leaf d = false → suffix rs (records d) →
  (k + length rs = length (records d))%nat → (2 ≤ length (records d))%nat →
  dsize d ≠ 0 → dsize d < 2 ^ 64 → contents w0 dd = pre ++ recs_bytes w0 rs →
  wp (apply_loop (data_apply applier (S fuel)) rs (Z.of_nat (length pre)) x) apply_post w.
Proof.
  revert k pre x w. induction rs as [|r rs IH]; intros k pre x w HI Hl Hsuf Hk Hlen Hz Hmax Hc.
  { simpl. wp_step. unfold apply_post, as_records. simpl in *. rewrite Hl, Hc, app_nil_r.
    exists k. split; [lia|done]. }
  simpl in Hk.
  destruct (records_now _ _ _ _ HI) as (Hd & _ & Hok & Hleaf & _).
  specialize (Hok Hz). unfold as_records in Hok. rewrite Hl in Hok.
  assert (r ∈ records d) as Hr by (eapply suffix_in; [exact Hsuf|left]).
  assert (∃ o dx, data_object r = PObj o ∧ data_at w o = Some dx ∧ leaf dx = true) as
    (o & dx & Hro & Hdx & Hlx).
  { rewrite Forall_forall in Hok. destruct (Hok r Hr) as (o & dx & ? & ? & ? & _). eauto. }
  cbn [apply_loop]. rewrite Hro. wp_step. cbn [as_obj]. wp_step. wp_step.
  rewrite recs_bytes_cons in Hc.
  assert (wp (data_apply applier (S fuel) o (Z.of_nat (length pre)) (from r) (rlength r) x)
            (λ xr w', if xr.2 then I (S k) (pre ++ rec_bytes w0 r) xr.1 w' else Q xr.1 w') w) as Hone.
  { destruct (Hleaf o dx Hdx Hlx) as (b & off & l & Hrec).
    cbn [data_apply]. wp_step. eapply wp_get_data; [done|]. cbv zeta. rewrite Hlx. cbn [negb andb].
    wp_step. wp_step. rewrite Hlx. wp_step. unfold get_record. rewrite Hrec.
    eapply wp_try_opt; [done|]. eapply step_record; [done| | |done| |  |done].
    - unfold as_records. rewrite Hl. lia.
    - unfold as_records. rewrite Hl. intros E. destruct rs; [done|simpl in *; lia].
    - unfold as_records. by rewrite Hl.
    - symmetry. cbn [data_object ptr_add]. by apply (rec_ptr_obj w r o dx b off l). }
  eapply wp_mono; [exact Hone|]. intros [x' [|]] w' HI'; cbn [fst snd] in HI'; [|by wp_step].
  destruct (I_ok _ _ _ _ HI) as (_ & n & ext & H & _).
  assert (Z.of_nat (length (rec_bytes w0 r)) = rlength r) as Hlr.
  { destruct (records_now _ _ _ _ HI) as (_ & _ & _ & _ & Hsame).
    rewrite Forall_forall in Hsame, Hok.
    destruct (Hsame r) as (_ & <-); [unfold as_records; by rewrite Hl|].
    by apply (rec_bytes_length _ _ _ _ _ H), Hok. }
  pose proof (contents_length _ _ _ _ _ _ H0 Hd0) as Hcl. rewrite Hc, !length_app in Hcl.
  rewrite wrapU_small by lia. rewrite <- Hlr, <- Nat2Z.inj_add, <- length_app.
  apply (IH (S k)); [done|done| |lia|done|done|done|by rewrite <- app_assoc].
  etrans; [by apply suffix_cons_r|done].
Qed.

(** The traversal of a data object: every region in order, with its offset. *)
Lemma apply_spec x :
  I 0 [] x w0 → wp (dispatch_data_apply applier dd x) apply_post w0.
Proof.
  intros HI. unfold dispatch_data_apply. wp_step. eapply wp_get_data; [done|].
  destruct (records_now _ _ _ _ HI) as (_ & Hall & Hok & Hleaf & _).
  pose proof (ok_data _ _ _ _ _ _ H0 Hd0) as V. case_decide as Hz.
  { wp_step. unfold apply_post. simpl. destruct (empty_facts w0 dd d V Hd0 Hz) as (-> & _).
    exists 0%nat. split; [lia|done]. }
  specialize (Hok Hz). destruct (view_nonempty _ _ _ V Hz) as (Hs & Hlc & Hrs & Hsum).
  unfold _dispatch_data_apply, DATA_DEPTH. cbn [data_apply].
  wp_step. eapply wp_get_data; [done|]. cbv zeta. wp_step.
  destruct (leaf d) eqn:Hl; cbn [negb andb].
  - wp_step. rewrite Hl. destruct (Hleaf dd d Hd0 Hl) as (b & off & l & Hrec).
    wp_step. unfold get_record. rewrite Hrec. eapply wp_try_opt; [done|].
    change 0 with (Z.of_nat (length ([] : list Z))) at 1.
    assert (wp (applier x dd (Z.of_nat (length ([] : list Z))) (ptr_add (PBuf b off) 0)
                 (rlength (RR (PObj dd) 0 (dsize d))))
              (λ xr w', if xr.2 then I 1%nat ([] ++ rec_bytes w0 (RR (PObj dd) 0 (dsize d))) xr.1 w' else Q xr.1 w') w0)
      as Hone.
    { eapply (step_record 0 [] _ []); [done| |done|done| | |].
      - unfold as_records. rewrite Hl. simpl. lia.
      - unfold as_records. rewrite Hl. by left.
      - symmetry. by apply (rec_ptr_obj w0 (RR (PObj dd) 0 (dsize d)) dd d b off l).
      - rewrite app_nil_l. rewrite <- Hall. unfold as_records. by rewrite Hl. }
    eapply wp_mono; [exact Hone|]. intros [x' [|]] w'; unfold apply_post; cbn [fst snd]; [|done].
    rewrite <- Hall. unfold as_records. rewrite Hl. unfold recs_bytes. cbn. rewrite app_nil_r.
    exists 1%nat. split; [simpl; lia|done].
  - unfold as_records in Hok, Hall. rewrite Hl in Hok, Hall.
    destruct (num_records d =? 1) eqn:H1.
    + apply Z.eqb_eq in H1. unfold num_records in H1.
      destruct (records d) as [|r [|r2 rs]] eqn:Er; [simpl in H1; lia| |simpl in H1; lia].
      apply Forall_cons in Hok as [(o & dx & Hro & Hdx & Hlx & _) _].
      destruct (Hleaf o dx Hdx Hlx) as (b & off & l & Hrec).
      wp_step. unfold get_record. rewrite Er. eapply wp_try_opt; [done|].
      rewrite Hro. wp_step. cbn [as_obj]. wp_step. wp_step. eapply wp_get_data; [done|].
      rewrite Hlx. wp_step. rewrite Hlx. wp_step. rewrite Hrec. eapply wp_try_opt; [done|].
      assert (rlength r = dsize d) as <-.
      { unfold as_records in Hsum. rewrite Hl, Er in Hsum. simpl in Hsum. lia. }
      change 0 with (Z.of_nat (length ([] : list Z))) at 1.
      eapply wp_mono; [eapply (step_record 0 [] r [])|].
      * done.
      * unfold as_records. rewrite Hl, Er. simpl. lia.
      * done.
      * lia.
      * unfold as_records. rewrite Hl, Er. by left.
      * symmetry. cbn [data_object ptr_add]. by apply (rec_ptr_obj w0 r o dx b off l).
      * rewrite app_nil_l. by rewrite <- Hall.
      * intros [x' [|]] w'; unfold apply_post; cbn [fst snd]; [|done].
        rewrite <- Hall. unfold recs_bytes. cbn. rewrite app_nil_r.
        exists 1%nat. split; [unfold as_records; rewrite Hl, Er; simpl; lia|done].
    + wp_step. rewrite Hl.
      apply (apply_loop_spec 0 0 [] (records d) x w0); [done|done|done|done| |done|lia|by rewrite Hall].
      apply Z.eqb_neq in H1. unfold num_records in H1.
      destruct (records d) as [|? [|??]] eqn:Er; simpl in *; [|lia|lia].
      unfold as_records in Hsum. rewrite Hl, Er in Hsum. simpl in Hsum. lia.
Qed.
End ApplySpec.

(** ** Map *)

Lemma splice_prefix l pre bs :
  take (length pre) l = pre → (length pre + length bs ≤ length l)%nat →
  take (length (pre ++ bs)) (splice l (length pre) bs) = pre ++ bs.
Proof.
  intros Hp Hlen. unfold splice. rewrite Hp, app_assoc.
  rewrite take_app_length'; done.
Qed.

Definition map_room : Z := 3.

(** The bytes of [o] lie in one piece at [p]. *)
Definition mapped (w : W) (o : nat) (p : ptr) : Prop :=
  o ≠ dispatch_data_empty ∧
  ∃ d r, data_at w o = Some d ∧ as_records o d = [r] ∧ rec_ptr w r = p.

Lemma mapped_region iq n ext w o p :
  ok iq n ext w → mapped w o p → region_at w p (contents w o) ∧ contents w o ≠ [].
Proof.
  intros H (Hne & d & r & Hd & Hr & Hp).
  rewrite (recs_bytes_as_records _ _ _ _ _ _ H Hd).
  destruct (ok_data _ _ _ _ _ _ H Hd) as [|d _ _ Hok _]; [done|].
  rewrite Hr in *. apply Forall_cons in Hok as [Hok _].
  destruct (rec_region _ _ _ _ _ H Hok) as (Hreg & Hnil & _).
  unfold recs_bytes. cbn. rewrite app_nil_r, <- Hp. done.
Qed.

(** A mapping lasts as long as the map object is referenced. *)
Lemma mapped_kept iq n ext iq' n' ext' w w' o p :
  ok iq n ext w → ok iq' n' ext' w' → w ⇝ w' → o ∈ ext → o ∈ ext' →
  mapped w o p → mapped w' o p.
Proof.
  intros H H' Ev Ho Ho' (Hne & d & r & Hd & Hr & Hp). split; [done|].
  destruct (kept _ _ _ _ _ _ w w' o H H' Ev Ho Ho') as (Hd' & _ & Hb).
  specialize (Hb d Hd). rewrite Hr in Hb. apply Forall_cons in Hb as [[Ep _] _].
  exists d, r. split_and!; [congruence|done|congruence].
Qed.

(** The map object has the bytes of the original, which lie in one piece at
    the returned address. *)
Definition map_post iq n ext (w : W) (dd : nat) (res : option nat * ptr * Z) (w' : W) : Prop :=
  ∃ o p, res = (Some o, p, size_of w dd) ∧ ok iq n (ext ⊎ {[+ o +]}) w' ∧ w ⇝ w' ∧
    contents w' o = contents w dd ∧ (contents w dd ≠ [] → mapped w' o p).

Lemma map_single_spec iq n ext (w : W) dd d r d' :
  ok iq n ext w → dd ∈ ext → data_at w dd = Some d → as_records dd d = [r] → dsize d ≠ 0 →
  leaf d' = true → (∃ b off l, records d' = [RR (PBuf b off) 0 l] ∧ PBuf b (off + from r) = rec_ptr w r) →
  n + 1 < INT_MAX →
  wp (_dispatch_data_retain dd;;
      r0 ← get_record d' 0;
      mret (Some dd, ptr_add (data_object r0) (from r), dsize d))
     (map_post iq (n + 1) ext w dd) w.
Proof.
  intros H Hdd Hd Hrs Hz Hl (b & off & l & Hrec & Hptr) Hn.
  assert (wp (_dispatch_data_retain dd;; mret dd) (λ o' w', o' = dd ∧
             sub_post iq (n + 1) ext w (contents w dd) (num_records d) o' w') w) as Hret
    by by apply retain_post.
  apply wp_bind_inv in Hret. wp_step. eapply wp_mono; [exact Hret|].
  intros _ w' (_ & H' & Ev & Hc & _). wp_step. unfold get_record. rewrite Hrec.
  eapply wp_try_opt; [done|]. wp_step. cbn [data_object ptr_add].
  exists dd, (PBuf b (off + from r)). split_and!; [|done|done|done|].
  { unfold size_of. by rewrite Hd. }
  intros _. eapply (mapped_kept _ _ _ _ _ _ w w'); [done..|multiset_solver|].
  split; [|exists d, r; by split_and!].
  intros ->. rewrite (ok_empty _ _ _ _ H) in Hd. injection Hd as <-. done.
Qed.

Lemma map_copy_step iq n ext (w1 : W) dd bm :
  ∀ pre bs post (x : unit) (w : W) (ro : nat) p,
  let I := λ (pre : list Z) (_ : unit) w, evolves (eq bm) w1 w ∧ ok iq n ext w ∧ w_oom w = [] ∧
      unref w bm ∧ ∃ l, w_bufs w !! bm = Some l ∧
        Z.of_nat (length l) = size_of w1 dd ∧ take (length pre) l = pre in
  Z.of_nat (length (contents w1 dd)) = size_of w1 dd → (bm < w_next w1)%nat →
  contents w1 dd = pre ++ bs ++ post → bs ≠ [] → I pre x w → region_at w p bs →
  wp (map_copy (PBuf bm 0) x ro (Z.of_nat (length pre)) p (Z.of_nat (length bs)))
     (λ xr w', if xr.2 then I (pre ++ bs) xr.1 w' else False) w.
Proof.
  intros pre bs post x w ro p I Hlen Hbm Hc Hne (Ev & H & Hoom & Hu & l & Hl & Hll & Hpre) Hreg.
  rewrite Hc, !length_app in Hlen.
  unfold map_copy, memcpy. wp_step. wp_step. apply region_load; [done|done|].
  cbn [ptr_add]. rewrite Z.add_0_l.
  eapply wp_mono; [eapply store_spec; [exact H|exact Hl|lia|lia]|].
  intros _ w' (H' & Ev' & Eo' & En' & Eb'). wp_step. cbn [fst snd]. rewrite Nat2Z.id in Eb'.
  split_and!; [by etrans|done| | |].
  - by apply (e_oom _ _ _ Ev').
  - intros o d off f k. rewrite (data_at_objs w) by done. apply Hu.
  - eexists. rewrite Eb', lookup_insert_eq. split; [done|].
    rewrite splice_length by lia. split; [done|]. apply splice_prefix; [done|lia].
Qed.

Lemma map_spec iq n ext (w : W) dd :
  ok iq n ext w → dd ∈ ext → w_oom w = [] → n + map_room < INT_MAX →
  wp (dispatch_data_create_map dd) (map_post iq (n + map_room) ext w dd) w.
Proof.
  intros H Hdd Hoom Hn. destruct (ok_ext _ _ _ _ _ H Hdd) as [d Hd].
  unfold map_room in *.
  pose proof (ok_data _ _ _ _ _ _ H Hd) as V.
  pose proof (contents_length _ _ _ _ _ _ H Hd) as Hcl.
  assert (∀ r w', map_post iq (n + 1) ext w dd r w' → map_post iq (n + 3) ext w dd r w') as Hweak.
  { intros r w' (o & p & ? & ? & ?). exists o, p. split; [done|]. split; [|done].
    eapply ok_weaken; [done|lia]. }
  unfold dispatch_data_create_map. wp_step. eapply wp_get_data; [done|]. cbv zeta.
  case_decide as Hz.
  { wp_step. destruct (empty_facts w dd d V Hd Hz) as (Hc & Hs & _).
    destruct (empty_post iq n ext w 0 H) as (Hok & Hev & Hce & _); [lia|].
    apply Hweak. exists dispatch_data_empty, PNull. rewrite Hs, Hz, Hc. split_and!; done. }
  destruct (view_nonempty _ _ _ V Hz) as (Hs & Hlc & Hrs & Hsum).
  wp_step. destruct (leaf d) eqn:Hl; cbn [negb andb].
  { wp_step. rewrite Hl. destruct (ok_leaf _ _ _ _ _ _ H Hd Hl) as ((_ & _ & b & off & l & Hrec & _) & _).
    eapply wp_mono; [|exact Hweak].
    eapply (map_single_spec iq n ext w dd d (RR (PObj dd) 0 (dsize d)) d); try done; [| |lia].
    - unfold as_records. by rewrite Hl.
    - exists b, off, (dsize d). split; [done|].
      symmetry. by apply (rec_ptr_obj w (RR (PObj dd) 0 (dsize d)) dd d b off (dsize d)). }
  unfold as_records in Hrs, Hsum. rewrite Hl in Hrs, Hsum.
  assert (wp (buffer ← malloc (dsize d);
              if decide (buffer = PNull) then mret (None, PNull, 0)
              else dispatch_data_apply (map_copy buffer) dd tt;;
                   data ← dispatch_data_create buffer (dsize d) None DISPATCH_DATA_DESTRUCTOR_FREE;
                   mret (data, buffer, dsize d))
            (map_post iq (n + 3) ext w dd) w) as Hcopy.
  { wp_step. eapply wp_mono; [by eapply malloc_spec|].
    intros p w1 (-> & H1 & Ev1 & Eo1 & En1 & Eb1). rewrite decide_False by done.
    assert (data_at w1 dd = Some d) as Hd1 by by rewrite (data_at_objs w).
    destruct (kept _ _ _ _ _ _ w w1 dd H H1 Ev1 Hdd Hdd) as (_ & Hc1 & _).
    assert (size_of w1 dd = dsize d) as Hsz1 by (unfold size_of; by rewrite Hd1).
    assert (unref w1 (w_next w)) as Hu1.
    { intros o dx off f k. rewrite (data_at_objs w) by done. by apply (unref_fresh iq n ext). }
    wp_step. eapply wp_mono.
    { eapply (apply_spec (map_copy (PBuf (w_next w) 0)) iq dd w1 n ext d H1 Hdd Hd1
        (λ _ pre _ w', evolves (eq (w_next w)) w1 w' ∧ ok iq n ext w' ∧ w_oom w' = [] ∧
           unref w' (w_next w) ∧ ∃ l, w_bufs w' !! w_next w = Some l ∧
           Z.of_nat (length l) = size_of w1 dd ∧ take (length pre) l = pre)
        (λ _ _, False) (eq (w_next w))).
      - by intros b <-.
      - intros k pre x w' (? & ? & _). split; [done|]. by exists n, ext.
      - intros k pre bs post x w' ro p Hk _ Hc Hne HI Hreg.
        pose proof HI as (Hev & Hok' & _). specialize (Hreg w' n ext Hev Hok' Hdd).
        eapply (map_copy_step iq n ext w1 dd (w_next w)); try done; [|lia].
        rewrite Hc1, Hsz1. done.
      - split_and!; [done|done| |done|].
        + by apply (e_oom _ _ _ Ev1).
        + rewrite Eb1. eexists. rewrite lookup_insert_eq. split; [done|].
          rewrite length_replicate, Hsz1. split; [lia|done]. }
    intros [[] [|]] w2; [|done]. cbn [fst snd].
    intros (_ & _ & Ev2 & H2 & Hoom2 & Hu2 & l & Hl2 & Hll2 & Hbytes).
    rewrite Hc1 in Hbytes. rewrite Hsz1 in Hll2.
    assert (l = contents w dd) as -> by (rewrite <- Hbytes; symmetry; apply take_ge; lia).
    wp_step. eapply wp_mono; [eapply (create_spec iq n ext w2 (w_next w) 0 (dsize d)); try done; try lia|].
    { intros o2 d2 off2 f2 l2 Hd2 Hr2. by apply (Hu2 o2 d2 off2 f2 l2 Hd2) in Hr2. }
    intros r w3 (-> & H3 & Ev3 & Eb3 & Hd3). wp_step.
    exists (w_next w2), (PBuf (w_next w) 0).
    assert (peek w3 (PBuf (w_next w) 0) (dsize d) = contents w dd) as Hpk.
    { simpl. rewrite Eb3, Hl2, drop_0. apply take_ge. lia. }
    split_and!.
    - unfold size_of. by rewrite Hd.
    - eapply ok_weaken; [exact H3|lia].
    - eapply evolves_fresh; [|exact Ev1|by etrans]. by intros b <-.
    - unfold contents at 1. rewrite Hd3. unfold recs_bytes. cbn. unfold rec_bytes. cbn.
      rewrite app_nil_r. done.
    - intros _. split; [|exists (DD true DISPATCH_DATA_DESTRUCTOR_FREE (dsize d) [RR (PBuf (w_next w) 0) 0 (dsize d)])].
      + pose proof (ok_lt _ _ _ _ _ _ H Hd). unfold dispatch_data_empty.
        pose proof (e_next _ _ _ Ev2). lia.
      + exists (RR (PObj (w_next w2)) 0 (dsize d)). split_and!; [done|done|].
        by apply (rec_ptr_obj w3 (RR (PObj (w_next w2)) 0 (dsize d)) (w_next w2)
          (DD true DISPATCH_DATA_DESTRUCTOR_FREE (dsize d) [RR (PBuf (w_next w) 0) 0 (dsize d)])
          (w_next w) 0 (dsize d)). }
  destruct (num_records d =? 1) eqn:H1.
  - apply Z.eqb_eq in H1. unfold num_records in H1.
    destruct (records d) as [|r [|r2 rs]] eqn:Er; [simpl in H1; lia| |simpl in H1; lia].
    apply Forall_cons in Hrs as [(o & dx & Hro & Hdx & Hlx & _) _].
    destruct (ok_leaf _ _ _ _ _ _ H Hdx Hlx) as ((_ & _ & b & off & l & Hrec & _) & _).
    wp_step. unfold get_record. rewrite Er. eapply wp_try_opt; [done|].
    rewrite Hro. wp_step. cbn [as_obj]. wp_step. wp_step. eapply wp_get_data; [done|].
    rewrite Hlx. wp_step. rewrite Hlx.
    eapply wp_mono; [|exact Hweak].
    eapply (map_single_spec iq n ext w dd d r dx); try done; [| |lia].
    + unfold as_records. by rewrite Hl, Er.
    + exists b, off, (dsize dx). split; [done|]. symmetry. by apply (rec_ptr_obj w r o dx b off (dsize dx)).
  - wp_step. rewrite Hl. exact Hcopy.
Qed.

(** ** Copy region *)

Lemma find_record_spec rs location offset :
  Forall (λ r, 0 < rlength r) rs → 0 ≤ offset ≤ location → location < offset + sum_len rs →
  offset + sum_len rs < 2 ^ 64 →
  ∃ pre r post, rs = pre ++ r :: post ∧
    find_record rs location offset = (Some r, offset + sum_len pre) ∧
    offset + sum_len pre ≤ location < offset + sum_len pre + rlength r.
Proof.
  revert offset. induction rs as [|r rs IH]; intros offset HF Hoff Hloc Hmax; simpl in *; [lia|].
  apply Forall_cons in HF as [Hr HF].
  assert (0 ≤ sum_len rs) by (clear -HF; induction HF; simpl; lia).
  rewrite wrapU_small by lia. case_decide as Hc.
  - exists [], r, rs. simpl. split_and!; [done|f_equal; lia|lia|lia].
  - destruct (IH (offset + rlength r)) as (pre & r' & post & -> & -> & ?); [done|lia..|].
    exists (r :: pre), r', post. simpl. split_and!; [done|f_equal; lia|lia|lia].
Qed.

Definition region_post iq n ext (w : W) (dd : nat) (location : Z) (res : nat * Z) (w' : W) : Prop :=
  let '(o, offset) := res in
  ok iq n (ext ⊎ {[+ o +]}) w' ∧ w ⇝ w' ∧
  0 ≤ offset ≤ location ∧ location < offset + size_of w' o ∧
  contents w' o = slice offset (size_of w' o) (contents w dd).

(** The whole object as its own region. *)
Lemma region_self iq n ext (w : W) dd d location :
  ok iq n ext w → dd ∈ ext → data_at w dd = Some d → 0 ≤ location < dsize d → n + 1 < INT_MAX →
  wp (_dispatch_data_retain dd;; mret (dd, 0)) (region_post iq (n + 1) ext w dd location) w.
Proof.
  intros H Hdd Hd Hloc Hn.
  assert (wp (_dispatch_data_retain dd;; mret dd) (λ o' w', o' = dd ∧
             sub_post iq (n + 1) ext w (contents w dd) (num_records d) o' w') w) as Hret
    by by apply retain_post.
  apply wp_bind_inv in Hret. wp_step. eapply wp_mono; [exact Hret|].
  intros _ w' (_ & H' & Ev & Hc & _). wp_step.
  destruct (kept _ _ _ _ _ _ w w' dd H H' Ev) as (Hd' & _); [done|multiset_solver|].
  assert (size_of w' dd = dsize d) as Hs by (unfold size_of; by rewrite Hd', Hd).
  pose proof (contents_length _ _ _ _ _ _ H Hd) as Hcl.
  unfold region_post. rewrite Hs. split_and!; [done|done|lia|lia|lia|].
  rewrite Hc, <- Hcl. symmetry. apply slice_all.
Qed.

(** The part of [copy_region_loop] that ends at a leaf. *)
Lemma region_leaf_spec fuel iq n ext (w : W) o d size offset frm location :
  ok iq n ext w → data_at w o = Some d → leaf d = true →
  0 ≤ frm → 0 < size → frm + size ≤ dsize d → n + 3 < INT_MAX →
  wp (copy_region_loop (S fuel) o size offset frm location)
     (λ res w', res.2 = offset ∧ ok iq (n + 3) (ext ⊎ {[+ res.1 +]}) w' ∧ w ⇝ w' ∧
        size_of w' res.1 = size ∧ contents w' res.1 = slice frm size (contents w o)) w.
Proof.
  intros H Hd Hl Hf Hsz Hle Hn.
  destruct (ok_leaf _ _ _ _ _ _ H Hd Hl) as (_ & Hs).
  pose proof (contents_length _ _ _ _ _ _ H Hd) as Hcl.
  cbn [copy_region_loop]. wp_step. eapply wp_get_data; [done|]. rewrite Hl.
  assert (wp (_dispatch_data_retain o;; mret o) (λ o' w', o' = o ∧
             sub_post iq (n + 1) ext w (contents w o) (num_records d) o' w') w) as Hret
    by (apply retain_post; [done|done|lia]).
  apply wp_bind_inv in Hret. wp_step. eapply wp_mono; [exact Hret|].
  intros _ w1 (_ & H1 & Ev1 & Hc1 & _).
  assert (data_at w1 o = Some d) as Hd1.
  { destruct (ok_ext _ _ _ _ o H1) as [d1 Hd1]; [multiset_solver|].
    destruct (e_objs _ _ _ Ev1 o) as [E|E]; [by eapply ok_lt| |]; congruence. }
  case_decide as Hfull.
  { wp_step. cbn [fst snd]. assert (frm = 0) as -> by lia. split_and!; [done| |done| |].
    - eapply ok_weaken; [done|lia].
    - unfold size_of. by rewrite Hd1.
    - rewrite Hc1, Hfull, <- Hcl. symmetry. apply slice_all. }
  set (r := RR (PObj o) frm size).
  wp_step. eapply wp_mono; [by apply bld_init|]. intros x w2 (B2 & -> & Eb2 & En2 & Eo2).
  wp_step. eapply wp_mono; [eapply bld_modify_data; [exact B2|by simpl]|].
  intros _ w3 (B3 & Eb3 & En3 & Eo3).
  wp_step. eapply wp_mono; [eapply bld_modify_data; [exact B3|by simpl]|].
  intros _ w4 (B4 & Eb4 & En4 & Eo4). wp_step. cbn [fst snd].
  assert (∀ x dx, data_at w1 x = Some dx → data_at w4 x = Some dx) as Eo.
  { intros x dx Hx. assert (x ≠ w_next w1) by (apply (ok_lt _ _ _ _ _ _ H1) in Hx; lia).
    by rewrite Eo4, Eo3, Eo2. }
  assert (Forall (wrecord_ok w1) [r]) as HF by (apply Forall_singleton; by exists o, d).
  pose proof (bld_data_at _ _ _ _ _ _ _ _ B4) as Hd4.
  destruct B4 as [S4 Ev4 Hn4]. split_and!; [done| |by etrans| |].
  - eapply ok_weaken; [eapply (bld_seal_comp none iq (n + 1) ext w1 _ (DD false B_NULL size [r]) w4);
      [|done|done| | |]|]; cbn [dsize records sum_len rlength r]; [|lia|lia| |lia].
    + assert (ext ⊎ recs_ms [r] = ext ⊎ {[+ o +]}) as -> by (simpl; by rewrite (right_id_L ∅ (⊎))).
      by split.
    + by eapply wrecord_ok_ext.
  - unfold size_of. by rewrite Hd4.
  - unfold contents at 1. rewrite Hd4. simpl. rewrite (recs_bytes_same w1 w4); [|congruence|done|done].
    unfold recs_bytes. simpl. rewrite app_nil_r.
    rewrite (rec_bytes_slice iq (n + 1) _ w1 r o d) by (try done; simpl; lia). by rewrite Hc1.
Qed.

Lemma copy_region_spec iq n ext (w : W) dd location :
  ok iq n ext w → dd ∈ ext → 0 ≤ location → n + 3 < INT_MAX →
  wp (dispatch_data_copy_region dd location)
     (λ res w', if decide (size_of w dd ≤ location) then res = (dispatch_data_empty, 0) ∧ w' = w
                else region_post iq (n + 3) ext w dd location res w') w.
Proof.
  intros H Hdd Hloc Hn. destruct (ok_ext _ _ _ _ _ H Hdd) as [d Hd].
  unfold dispatch_data_copy_region. wp_step. eapply wp_get_data; [done|].
  assert (size_of w dd = dsize d) as -> by (unfold size_of; by rewrite Hd).
  destruct (decide (dsize d ≤ location)) as [|Hlt]; [by wp_step|].
  assert (dsize d ≠ 0) as Hz by lia.
  destruct (view_nonempty _ _ _ (ok_data _ _ _ _ _ _ H Hd) Hz) as (Hs & _ & Hrs & Hsum).
  assert (∀ res w', region_post iq (n + 1) ext w dd location res w' →
                    region_post iq (n + 3) ext w dd location res w') as Hweak.
  { intros [o off] w' (? & ?). split; [eapply ok_weaken; [done|lia]|done]. }
  unfold DATA_DEPTH. destruct (leaf d) eqn:Hl.
  { eapply wp_mono; [eapply (region_leaf_spec 1 iq n ext w dd d); try done; lia|].
    intros [o off] w' (E & ? & ? & Hs' & Hc). cbn [fst snd] in *. subst off.
    unfold region_post. rewrite Hs'. split_and!; done || lia. }
  unfold as_records in Hrs, Hsum. rewrite Hl in Hrs, Hsum.
  cbn [copy_region_loop]. wp_step. eapply wp_get_data; [done|]. rewrite Hl.
  destruct (find_record_spec (records d) location 0) as (pre & r & post & Er & -> & Hr); [|lia..|].
  { eapply Forall_impl; [exact Hrs|]. intros r (? & ? & ? & ? & ? & ?); lia. }
  rewrite Z.add_0_l in *.
  rewrite Er in Hrs, Hsum. apply Forall_app in Hrs as [Hpre [Hrok Hpost]%Forall_cons].
  pose proof Hrok as (o & dx & Hro & Hdx & Hlx & Hf0 & Hr0 & Hrd).
  rewrite Hro. wp_step. cbn [as_obj]. wp_step. wp_step. case_decide as H1.
  - wp_step. eapply wp_get_data; [done|]. wp_step. rewrite Hlx.
    assert (pre = []) as ->.
    { unfold num_records in H1. rewrite Er, length_app in H1. simpl in H1.
      destruct pre; [done|simpl in H1; lia]. }
    eapply wp_mono; [eapply (region_self iq n ext w dd d location); try done; lia|exact Hweak].
  - wp_step. eapply wp_mono; [eapply (region_leaf_spec 0 iq n ext w o dx); try done; lia|].
    intros [o' off'] w' (E & ? & ? & Hs' & Hc). cbn [fst snd] in *. subst off'.
    assert (Z.of_nat (length (recs_bytes w pre)) = sum_len pre) as Hlp
      by by apply (recs_bytes_length iq n ext).
    pose proof (rec_bytes_length _ _ _ _ _ H Hrok) as Hlr.
    unfold region_post. rewrite Hs'. split_and!; [done|done|lia|lia|lia|].
    rewrite Hc, <- (rec_bytes_slice iq n ext w r o dx) by (try done; lia).
    rewrite (recs_bytes_as_records _ _ _ _ _ _ H Hd). unfold as_records. rewrite Hl, Er.
    rewrite recs_bytes_app, recs_bytes_cons. unfold slice.
    rewrite drop_app_length' by lia. rewrite take_app_length' by lia. done.
Qed.
