(* ===== verification/DataTheorems.v ===== *)
(** * Data objects: the properties

    Each theorem states what a function of data.c promises to its callers, on a
    heap in a good state [ok iq n ext w]: [ext] is the multiset of references
    the clients hold, [iq q] the references they hold on the queue [q], and [n]
    bounds the references in all.  The proofs are in [DataOps], [DataApply] and
    [DataRefs]. *)

From S2P Require Import Prelude Object Data DataInv DataRefs DataBuild DataSpec DataOps DataApply.

(** ** What is preserved for the other objects *)

(** The objects that clients hold before and after have the same bytes. *)
Definition others_kept (ext ext' : gmultiset nat) (w w' : W) : Prop :=
  ∀ x, x ∈ ext → x ∈ ext' → data_at w' x = data_at w x ∧ contents w' x = contents w x.

Lemma others_kept_of iq n ext iq' n' ext' w w' :
  ok iq n ext w → ok iq' n' ext' w' → w ⇝ w' → others_kept ext ext' w w'.
Proof. intros H H' Ev x Hx Hx'. by destruct (kept _ _ _ _ _ _ w w' x H H' Ev Hx Hx') as (? & ? & _). Qed.

(** An object alive that no client holds is a sub-object of one alive, so with no
    reference held there is none. *)
Lemma nothing_left iq n ext w :
  ok iq n ext w → (∀ x, x ∈ ext → x = dispatch_data_empty) →
  ∀ x d, data_at w x = Some d → x = dispatch_data_empty.
Proof.
  intros (m & Hm & _ & I & _) Hext. rewrite (right_id_L ∅ (∪)) in Hm. subst m.
  assert (∀ x d, data_at w x = Some d → x ≠ dispatch_data_empty →
    ∃ y dy, data_at w y = Some dy ∧ leaf dy = false ∧ y ≠ dispatch_data_empty ∧ 0 < count_obj x (records dy)) as Hup.
  { intros x d (ob & Hx & Hp)%data_at_Some Hne.
    destruct (i_data _ _ _ _ _ I x ob d Hx Hp Hne) as (_ & ? & Hc).
    assert (mult x ext = 0) as Hz.
    { pose proof (mult_nonneg x ext). destruct (decide (0 < mult x ext)) as [Hm|]; [|lia].
      apply mult_pos in Hm. by apply Hext in Hm. }
    destruct (msum_exists (nrefs x) (w_objs w)) as (y & oy & Hy & Hpos); [lia|].
    unfold nrefs in Hpos. destruct (do_payload oy) as [dy|] eqn:Hpy; [|lia].
    exists y, dy. split; [apply data_at_Some; eauto|].
    assert (y ≠ dispatch_data_empty) as Hye.
    { intros ->. rewrite (i_empty _ _ _ _ _ I) in Hy. injection Hy as <-. injection Hpy as <-. simpl in Hpos. lia. }
    destruct (i_data _ _ _ _ _ I y oy dy Hy Hpy Hye) as ((_ & _ & _ & _ & _ & Hlc) & _).
    destruct Hlc as [(_ & _ & b & off & l & Hr & _)|[Hl _]]; [|done].
    rewrite Hr, count_obj_leaf in Hpos. lia. }
  intros x d Hx. destruct (decide (x = dispatch_data_empty)) as [|Hne]; [done|exfalso].
  destruct (Hup x d Hx Hne) as (y & dy & Hy & Hl & Hye & _).
  destruct (Hup y dy Hy Hye) as (z & dz & Hz & Hlz & Hze & Hcz).
  (* [z] is a composite with a record on [y], which is not a leaf *)
  apply data_at_Some in Hz as (oz & Hz & Hpz). apply data_at_Some in Hy as (oy & Hy & Hpy).
  destruct (i_data _ _ _ _ _ I z oz dz Hz Hpz Hze) as ((_ & _ & _ & _ & _ & Hlc) & _).
  destruct Hlc as [(Hl' & _)|(_ & _ & _ & Hrs)]; [congruence|].
  apply count_obj_pos, Exists_exists in Hcz as (r & Hr & Hro).
  rewrite Forall_forall in Hrs. destruct (Hrs r Hr) as (o & ob & d' & Hro' & Ho & Hpo & Hlo & _).
  rewrite Hro in Hro'. injection Hro' as <-. rewrite Hy in Ho. injection Ho as <-. congruence.
Qed.

(** ** A small heap for the examples *)

(** The global objects and some buffers. *)
Definition demo_with (bufs : gmap nat (list Z)) : W :=
  World {[0%nat := _dispatch_data_empty;
          1%nat := DObj INT_MAX INT_MAX 0 None 0 0 0 CQueue]} bufs 4 [] 0 [].
Definition demo0 : W := demo_with {[2%nat := [1; 2; 3]; 3%nat := [4; 5]]}.

Definition demo_iq (q : nat) : Z := 1.

(** The state a run ends in. *)
Definition exec {A} (m : MW A) (w : W) : W :=
  match m w with Ok _ w' => w' | Fault _ => w end.
Definition result {A} (m : MW A) (w : W) : option A :=
  match m w with Ok a _ => Some a | Fault _ => None end.

Lemma wp_exec {A} (m : MW A) Q w a :
  wp m Q w → result m w = Some a → Q a (exec m w).
Proof. unfold wp, result, exec. destruct (m w); [|done]. by intros ? [= ->]. Qed.

Lemma demo_objs bufs o ob : w_objs (demo_with bufs) !! o = Some ob →
  o = 0%nat ∧ ob = _dispatch_data_empty ∨ o = 1%nat ∧ ob = DObj INT_MAX INT_MAX 0 None 0 0 0 CQueue.
Proof.
  simpl. intros [[<- <-]|[? H]]%lookup_insert_Some; [by left|right].
  by apply lookup_singleton_Some in H as [<- <-].
Qed.

Lemma demo_with_ok bufs :
  (∀ b l, bufs !! b = Some l → (b < 4)%nat) → ok demo_iq 0 ∅ (demo_with bufs).
Proof.
  intros Hb. exists (w_objs (demo_with bufs)). split_and!; [by rewrite (right_id_L ∅ (∪))|by apply map_disjoint_empty_r| | |done].
  - split; try done.
    + by eexists.
    + intros o ob [[-> _]|[-> _]]%demo_objs; simpl; lia.
    + intros o ob d [[-> _]|[-> ->]]%demo_objs; done.
    + intros q ob [[-> ->]|[-> ->]]%demo_objs; [done|by left].
    + intros o1 o2 ob1 ob2 d1 d2 b off1 off2 f1 f2 l1 l2 [[-> ->]|[-> ->]]%demo_objs; [|done].
      by intros [= <-].
    + intros o Ho. by apply gmultiset_elem_of_empty in Ho.
  - done.
Qed.

Lemma demo0_ok : ok demo_iq 0 ∅ demo0.
Proof.
  apply demo_with_ok. intros b l [[<- _]|[? H]]%lookup_insert_Some; [lia|].
  apply lookup_singleton_Some in H as [<- _]. lia.
Qed.

(** The objects 4 and 6 represent copies of the buffers, in the blocks 5
    and 7; 8 is their concatenation. *)
Definition demo1 : W := exec (dispatch_data_create (PBuf 2 0) 3 None B_NULL) demo0.
Definition demo2 : W := exec (dispatch_data_create (PBuf 3 0) 2 None B_NULL) demo1.
Definition demo3 : W := exec (dispatch_data_create_concat 4 6) demo2.

Lemma demo1_ok : ok demo_iq 2 {[+ 4%nat +]} demo1.
Proof.
  pose proof (wp_exec _ _ _ _ (create_copy_spec demo_iq 0 ∅ demo0 2 0 3 demo0_ok eq_refl
    ltac:(done) ltac:(done) eq_refl) ltac:(vm_compute; reflexivity)) as (_ & H & _).
  by rewrite (left_id_L ∅ (⊎)) in H.
Qed.

Lemma demo2_ok : ok demo_iq 4 ({[+ 4%nat +]} ⊎ {[+ 6%nat +]}) demo2.
Proof.
  by pose proof (wp_exec _ _ _ _ (create_copy_spec demo_iq 2 _ demo1 3 0 2 demo1_ok eq_refl
    ltac:(done) ltac:(done) eq_refl) ltac:(vm_compute; reflexivity)) as (_ & H & _).
Qed.

Lemma demo3_ok : ok demo_iq 7 ({[+ 4%nat +]} ⊎ {[+ 6%nat +]} ⊎ {[+ 8%nat +]}) demo3.
Proof.
  by pose proof (wp_exec _ _ _ _ (concat_spec demo_iq 4 _ demo2 4 6 _ _ demo2_ok eq_refl eq_refl
    ltac:(done) ltac:(done)) ltac:(vm_compute; reflexivity)) as (H & _).
Qed.

Example demo3_contents : contents demo3 8 = [1; 2; 3; 4; 5].
Proof. reflexivity. Qed.

(** ** Creation *)

(** [dispatch_data_create] with the default destructor copies: the new
    object represents the bytes of the buffer at the time of the call, the
    caller owns one reference to it, and no object of the clients changes. *)
Theorem data_create_copies iq n ext (w : W) b off size :
  ok iq n ext w → w_oom w = [] → 0 ≤ off → 0 < size < 2 ^ 64 →
  Z.of_nat (length (peek w (PBuf b off) size)) = size →
  wp (dispatch_data_create (PBuf b off) size None DISPATCH_DATA_DESTRUCTOR_DEFAULT)
     (λ r w', ∃ o, r = Some o ∧ ok iq (n + 2) (ext ⊎ {[+ o +]}) w' ∧
        contents w' o = peek w (PBuf b off) size ∧ others_kept ext (ext ⊎ {[+ o +]}) w w') w.
Proof.
  intros H Ho Hoff Hs Hp. eapply wp_mono; [by eapply create_copy_spec|].
  intros r w' (-> & H' & Ev & Hc). exists (w_next w). split_and!; [done..|].
  by eapply others_kept_of.
Qed.

Lemma data_create_copies_witness :
  contents (exec (dispatch_data_create (PBuf 2 1) 2 None B_NULL) demo2) 8 = [2; 3].
Proof.
  destruct (wp_exec _ _ _ _ (data_create_copies demo_iq 4 _ demo2 2 1 2 demo2_ok eq_refl
    ltac:(done) ltac:(done) eq_refl) ltac:(vm_compute; reflexivity)) as (o & Ho & _ & Hc & _).
  injection Ho as <-. exact Hc.
Defined.

(** ** Concatenation *)

(** C25. [dispatch_data_create_concat]: the result represents the bytes of the
    first object followed by those of the second, its size and its number of
    records are the sums, the caller owns one reference to it, the buffers and
    every object of the clients are untouched. *)
Theorem data_create_concat_correct iq n ext (w : W) dd1 dd2 d1 d2 :
  ok iq n ext w → data_at w dd1 = Some d1 → data_at w dd2 = Some d2 →
  dsize d1 + dsize d2 < 2 ^ 64 → n + num_records d1 + num_records d2 + 1 < INT_MAX →
  wp (dispatch_data_create_concat dd1 dd2)
     (λ o w', ok iq (n + num_records d1 + num_records d2 + 1) (ext ⊎ {[+ o +]}) w' ∧
        contents w' o = contents w dd1 ++ contents w dd2 ∧
        size_of w' o = dsize d1 + dsize d2 ∧
        recs_of w' o = num_records d1 + num_records d2 ∧
        w_bufs w' = w_bufs w ∧ (∀ x d, data_at w x = Some d → data_at w' x = Some d)) w.
Proof.
  intros H H1 H2 Hs Hn. eapply wp_mono; [by eapply concat_spec|].
  intros o w' (H' & _ & Hb & Hc & Hsz & Hr & Hk).
  unfold size_of at 2 3 in Hsz. unfold recs_of at 2 3 in Hr. by rewrite H1, H2 in Hsz, Hr.
Qed.

Lemma data_create_concat_correct_witness :
  contents (exec (dispatch_data_create_concat 8 4) demo3) 9 = [1; 2; 3; 4; 5; 1; 2; 3].
Proof.
  destruct (wp_exec _ _ _ _ (data_create_concat_correct demo_iq 7 _ demo3 8 4 _ _ demo3_ok
    eq_refl eq_refl ltac:(done) ltac:(done)) ltac:(vm_compute; reflexivity)) as (_ & Hc & _). exact Hc.
Defined.

(** ** Subrange *)

(** C26. [dispatch_data_create_subrange] on a range that does not wrap around:
    the result represents the bytes [offset, offset + length) of the object, as
    many as there are, the caller owns one reference to it, and no object of
    the clients changes. *)
Theorem data_create_subrange_correct iq n ext (w : W) dd offset length :
  (∀ q, 1 ≤ iq q) → ok iq n ext w → dd ∈ ext → 0 ≤ offset → 0 ≤ length → offset + length < 2 ^ 64 →
  n + subrange_room (recs_of w dd) < INT_MAX →
  wp (dispatch_data_create_subrange dd offset length)
     (λ o w', ok iq (n + subrange_room (recs_of w dd)) (ext ⊎ {[+ o +]}) w' ∧
        contents w' o = slice offset length (contents w dd) ∧
        others_kept ext (ext ⊎ {[+ o +]}) w w') w.
Proof.
  intros Hiq H Hdd Ho Hl Hs Hn. eapply wp_mono; [by eapply subrange_spec|].
  intros o w' (H' & Ev & Hc). split_and!; [done..|]. by eapply others_kept_of.
Qed.

Lemma data_create_subrange_correct_witness :
  ∃ o, contents (exec (dispatch_data_create_subrange 8 2 2) demo3) o = [3; 4].
Proof.
  destruct (wp_exec _ _ _ _ (data_create_subrange_correct demo_iq 7 _ demo3 8 2 2
    ltac:(done) demo3_ok ltac:(ms_in) ltac:(done) ltac:(done) ltac:(done) ltac:(done)) ltac:(vm_compute; reflexivity))
    as (_ & Hc & _). eexists. exact Hc.
Defined.

(** The sum of the bounds check of [dispatch_data_create_subrange] wraps
    around: on a leaf, a length that takes [offset + length] past [2^64] is not
    cut to the object, and the result is an object whose only record covers
    bytes past the end of the leaf. *)
Theorem data_create_subrange_overflow iq n ext (w : W) dd d offset length :
  ok iq n ext w → data_at w dd = Some d → leaf d = true →
  0 ≤ offset < dsize d → 0 ≤ length < 2 ^ 64 → 2 ^ 64 ≤ offset + length → length ≠ dsize d → n + 3 < INT_MAX →
  wp (dispatch_data_create_subrange dd offset length)
     (λ o w', data_at w' o = Some (DD false B_NULL length [RR (PObj dd) offset length]) ∧
              dsize d < offset + length) w.
Proof.
  intros H Hd Hl Ho Hlen Hw Hne Hn. destruct (ok_leaf _ _ _ _ _ _ H Hd Hl) as [_ Hs].
  unfold dispatch_data_create_subrange. cbn [create_subrange DATA_DEPTH].
  wp_step. eapply wp_get_data; [exact Hd|]. rewrite decide_False by lia.
  assert ((dsize d <? u64 (offset + length)) = false) as ->.
  { apply Z.ltb_ge. mlia. }
  assert (negb false && (length =? dsize d) = false) as ->.
  { simpl. apply Z.eqb_neq. lia. }
  cbv zeta. rewrite Hl. wp_step. eapply wp_mono; [apply (bld_init iq n ext w 1 H)|].
  intros o w1 (B1 & -> & _ & _ & Hk1).
  wp_step. eapply wp_mono; [apply (bld_modify_data _ _ _ _ _ _ _ _ _ B1); intros ?? ? ? [=]|].
  intros _ w2 (B2 & _ & _ & Hk2).
  wp_step. eapply wp_mono; [apply (bld_modify_data _ _ _ _ _ _ _ _ _ B2); intros ?? ? ? [=]|].
  intros _ w3 (B3 & _ & _ & Hk3). pose proof (bld_data_at _ _ _ _ _ _ _ _ B3) as Hd3.
  wp_step. apply retain_records_one with offset length.
  pose proof (ok_lt _ _ _ _ _ _ H Hd) as Hlt.
  eapply wp_mono; [apply (bld_retain_records _ _ _ _ _ _ _ _ _ B3); [simpl; lia|]|].
  - constructor; [|done]. exists dd, d. split; [done|].
    assert (dd ≠ w_next w) by lia. split; [|done]. by rewrite Hk3, Hk2, Hk1.
  - intros _ w4 (_ & _ & Hk4). wp_step. split; [by rewrite Hk4|lia].
Qed.

Lemma data_create_subrange_overflow_witness :
  ∃ o w', data_at w' o = Some (DD false B_NULL SIZE_MAX [RR (PObj 4) 1 SIZE_MAX]) ∧
    size_of demo3 4 = 3.
Proof.
  destruct (wp_exec _ _ _ _ (data_create_subrange_overflow demo_iq 7 _ demo3 4 _ 1 SIZE_MAX
    demo3_ok eq_refl eq_refl ltac:(done) ltac:(done) ltac:(done) ltac:(done) ltac:(done)) ltac:(vm_compute; reflexivity)) as [Hd _].
  eexists _, _. split; [exact Hd|reflexivity].
Defined.

(** ** Apply *)

(** An applier that notes each region it is given, and goes on as long as [go]
    of what it noted. *)
Definition recorder (go : list (Z * list Z) → bool) (x : list (Z * list Z)) (ro : nat) (off : Z)
    (p : ptr) (len : Z) : MW (list (Z * list Z) * bool) :=
  bs ← load p len;
  let x := x ++ [(off, bs)] in mret (x, go x).

(** Non-empty regions, each at the offset where the one before ends. *)
Fixpoint chained (off : Z) (x : list (Z * list Z)) : Prop :=
  match x with
  | [] => True
  | (o, bs) :: x => o = off ∧ bs ≠ [] ∧ chained (off + Z.of_nat (length bs)) x
  end.

Lemma chained_snoc off x bs :
  chained off x → bs ≠ [] →
  chained off (x ++ [(off + Z.of_nat (length (mjoin x.*2)), bs)]).
Proof.
  revert off. induction x as [|[o b] x IH]; intros off; simpl.
  - intros _ Hb. split_and!; [lia|done|done].
  - intros (-> & Hb & Hx) Hbs. split_and!; [done|done|]. rewrite length_app, Nat2Z.inj_add, Z.add_assoc.
    by apply IH.
Qed.

Definition went_on (go : list (Z * list Z) → bool) (x : list (Z * list Z)) (n : nat) : Prop :=
  ∀ j, (0 < j < n)%nat → go (take j x) = true.

Lemma went_on_snoc go x r :
  went_on go x (S (length x)) → (go (x ++ [r]) = true → went_on go (x ++ [r]) (S (length (x ++ [r])))) ∧
  went_on go (x ++ [r]) (length (x ++ [r])).
Proof.
  intros H. assert (∀ j, (0 < j < length (x ++ [r]))%nat → go (take j (x ++ [r])) = true) as H'.
  { intros j Hj. rewrite length_app in Hj. simpl in Hj. rewrite take_app_le by lia. apply H. lia. }
  split; [|exact H']. intros Hg j Hj.
  destruct (decide (j = length (x ++ [r]))) as [->|Hne]; [by rewrite firstn_all|apply H'; lia].
Qed.

(** [dispatch_data_apply] calls the applier on consecutive, non-empty
    regions whose bytes, joined, are those of the object, from the first on; it
    stops at the first call that returns false and then returns false, and
    returns true when the whole object was visited. *)
Theorem data_apply_in_order iq n ext (w : W) dd go :
  ok iq n ext w → dd ∈ ext →
  wp (dispatch_data_apply (recorder go) dd [])
     (λ xr w', w' = w ∧ chained 0 xr.1 ∧ went_on go xr.1 (length xr.1) ∧
        if xr.2 then mjoin xr.1.*2 = contents w dd ∧ (xr.1 ≠ [] → go xr.1 = true)
        else go xr.1 = false ∧ mjoin xr.1.*2 `prefix_of` contents w dd) w.
Proof.
  intros H Hdd. destruct (ok_ext _ _ _ _ _ H Hdd) as [d Hd].
  set (I := λ (_ : nat) pre x (w' : W), w' = w ∧ chained 0 x ∧ mjoin x.*2 = pre ∧
    went_on go x (S (length x)) ∧ (x ≠ [] → go x = true)).
  eapply wp_mono; [eapply (apply_spec (recorder go) iq dd w n ext d H Hdd Hd I
    (λ x w', w' = w ∧ chained 0 x ∧ went_on go x (length x) ∧ go x = false ∧
       mjoin x.*2 `prefix_of` contents w dd) none)|].
  - done.
  - intros k pre x w' (-> & _). split; [done|]. by exists n, ext.
  - intros k pre bs post x w' ro p Hk Hlast Hc Hbs (-> & Hch & Hj & Hwent & _) Hp.
    unfold recorder. wp_step. eapply region_load; [by apply (Hp w n ext)|done|]. wp_step. cbn [fst snd].
    destruct (went_on_snoc go x (Z.of_nat (length pre), bs) Hwent) as [Hgo Hgo'].
    assert (chained 0 (x ++ [(Z.of_nat (length pre), bs)])) as Hch'.
    { rewrite <- Hj. by apply (chained_snoc 0). }
    assert (mjoin (x ++ [(Z.of_nat (length pre), bs)]).*2 = pre ++ bs) as Hj'.
    { rewrite fmap_app, join_app, Hj. simpl. by rewrite app_nil_r. }
    destruct (go _) eqn:Hg; [by split_and!; auto|]. split_and!; try done.
    rewrite Hj', Hc, app_assoc. by apply prefix_app_r.
  - split_and!; try done. intros j Hj. simpl in Hj. lia.
  - intros [x r] w'. unfold apply_post. simpl. destruct r.
    + intros (k & _ & -> & Hch & Hj & Hw & Hg). split_and!; try done. intros j ?. apply Hw. lia.
    + by intros (-> & Hch & Hw & Hg & Hp).
Qed.

Lemma data_apply_in_order_witness :
  result (dispatch_data_apply (recorder (λ _, true)) 8 []) demo3 =
    Some ([(0, [1; 2; 3]); (3, [4; 5])], true) ∧
  chained 0 [(0, [1; 2; 3]); (3, [4; 5])].
Proof.
  split; [vm_compute; reflexivity|].
  destruct (wp_exec _ _ _ ([(0, [1; 2; 3]); (3, [4; 5])], true)
    (data_apply_in_order demo_iq 7 _ demo3 8 (λ _, true) demo3_ok ltac:(ms_in))
    ltac:(vm_compute; reflexivity)) as (_ & Hc & _). exact Hc.
Defined.

(** ** Map *)

(** [dispatch_data_create_map]: the result represents the same bytes, in
    one contiguous region whose address and size it returns; the caller owns
    one reference to it, and no object of the clients changes. *)
Theorem data_create_map_correct iq n ext (w : W) dd :
  ok iq n ext w → dd ∈ ext → w_oom w = [] → n + map_room < INT_MAX →
  wp (dispatch_data_create_map dd)
     (λ res w', ∃ o p, res = (Some o, p, size_of w dd) ∧
        ok iq (n + map_room) (ext ⊎ {[+ o +]}) w' ∧ contents w' o = contents w dd ∧
        (contents w dd ≠ [] → region_at w' p (contents w dd)) ∧
        others_kept ext (ext ⊎ {[+ o +]}) w w') w.
Proof.
  intros H Hdd Ho Hn. eapply wp_mono; [by eapply map_spec|].
  intros res w' (o & p & -> & H' & Ev & Hc & Hm). exists o, p. split_and!; try done.
  - intros Hne. rewrite <- Hc. eapply mapped_region; [done|auto].
  - by eapply others_kept_of.
Qed.

Lemma data_create_map_correct_witness :
  ∃ p, region_at (exec (dispatch_data_create_map 8) demo3) p [1; 2; 3; 4; 5].
Proof.
  destruct (wp_exec _ _ _ _ (data_create_map_correct demo_iq 7 _ demo3 8 demo3_ok ltac:(ms_in)
    eq_refl ltac:(done)) ltac:(vm_compute; reflexivity)) as (o & p & _ & _ & _ & Hr & _).
  exists p. apply Hr. vm_compute. discriminate.
Defined.

(** ** Copy region *)

(** [dispatch_data_copy_region] on a location of the object: the result is
    an object that represents the range of [size_of] bytes from the returned
    offset on, and the range contains the location; past the end, the result
    is the empty object. *)
Theorem data_copy_region_correct iq n ext (w : W) dd location :
  ok iq n ext w → dd ∈ ext → 0 ≤ location → n + 3 < INT_MAX →
  wp (dispatch_data_copy_region dd location)
     (λ res w', let '(o, offset) := res in
        if decide (size_of w dd ≤ location) then o = dispatch_data_empty ∧ offset = 0 ∧ w' = w
        else ok iq (n + 3) (ext ⊎ {[+ o +]}) w' ∧ 0 ≤ offset ≤ location ∧
          location < offset + size_of w' o ∧
          contents w' o = slice offset (size_of w' o) (contents w dd) ∧
          others_kept ext (ext ⊎ {[+ o +]}) w w') w.
Proof.
  intros H Hdd Hl Hn. eapply wp_mono; [by eapply copy_region_spec|].
  intros [o offset] w'. case_decide; [by intros [[= -> ->] ->]|].
  intros (H' & Ev & ? & ? & ?). split_and!; try done; try lia. by eapply others_kept_of.
Qed.

Lemma data_copy_region_correct_witness :
  result (dispatch_data_copy_region 8 3) demo3 = Some (6%nat, 3) ∧
  contents (exec (dispatch_data_copy_region 8 3) demo3) 6 = [4; 5].
Proof.
  split; [vm_compute; reflexivity|].
  pose proof (wp_exec _ _ _ (6%nat, 3) (data_copy_region_correct demo_iq 7 _ demo3 8 3
    demo3_ok ltac:(ms_in) ltac:(done) ltac:(done)) ltac:(vm_compute; reflexivity)) as H.
  cbv beta iota in H. rewrite decide_False in H by (vm_compute; auto).
  apply proj2, proj2, proj2, proj1 in H. exact H.
Defined.

(** ** Release *)

(** C34. [dispatch_release] of a reference the caller owns succeeds, gives up
    exactly that reference, and leaves every object that clients still hold with
    its bytes; in a good state every object alive is reachable from a reference
    of a client, so when the clients hold no reference (but to the empty object)
    no data object is left. *)
Theorem data_release_correct iq n ext (w : W) dd :
  (∀ q, 1 ≤ iq q) → ok iq n ext w → dd ∈ ext →
  wp (_dispatch_data_release dd)
     (λ _ w', ok iq (n - 1) (ext ∖ {[+ dd +]}) w' ∧ others_kept ext (ext ∖ {[+ dd +]}) w w' ∧
        ((∀ x, x ∈ ext ∖ {[+ dd +]} → x = dispatch_data_empty) →
         ∀ x d, data_at w' x = Some d → x = dispatch_data_empty)) w.
Proof.
  intros Hiq H Hdd. eapply wp_mono; [by eapply (release_spec iq Hiq 1 n ext ∅ w dd)|].
  intros _ w' (H' & Ev). split_and!; [done|by eapply others_kept_of|by apply (nothing_left _ _ _ _ H')].
Qed.

Lemma data_release_correct_witness :
  let w1 := exec (_dispatch_data_release 4) demo1 in
  data_at demo1 4 ≠ None ∧ ∀ x d, data_at w1 x = Some d → x = dispatch_data_empty.
Proof.
  split; [by vm_compute|].
  pose proof (wp_exec _ _ _ tt (data_release_correct demo_iq 2 _ demo1 4 ltac:(done) demo1_ok
    ltac:(ms_in)) ltac:(vm_compute; reflexivity)) as H.
  destruct H as (_ & _ & Hl). intros x d. apply Hl. intros y Hy.
  exfalso. revert Hy. clear. multiset_solver.
Defined.
