(* ===== verification/ObjectTheorems.v ===== *)
(** * Dispatch objects: the properties of object.c *)

From S2P Require Import Prelude Object Data DataInv DataTheorems.

(** ** The two reference counts *)

Section Lifecycle.
Context {P : Type} `{DispatchClass P}.

(** A reference given up: one of a client, or one of the library. *)
Inductive ref_drop : Type := External | Internal.

Definition ext_count (g : ref_drop) : Z := match g with External => 1 | Internal => 0 end.
Definition int_count (g : ref_drop) : Z := match g with External => 0 | Internal => 1 end.
Definition sum_of (f : ref_drop → Z) (gs : list ref_drop) : Z := foldr (λ g z, f g + z) 0 gs.

Fixpoint drop_refs (disp : nat → M (world P) unit) (o : nat) (gs : list ref_drop) : M (world P) unit :=
  match gs with
  | [] => mret tt
  | External :: gs => _os_object_release (_dispatch_xref_dispose disp) o;; drop_refs disp o gs
  | Internal :: gs => _os_object_release_internal disp o;; drop_refs disp o gs
  end.

(** The counts of an object with [x + 1] external references and [r] internal
    ones, besides the one the library holds as long as there are external ones. *)
Definition counts (x r : Z) (ob : dispatch_object_s P) : dispatch_object_s P :=
  upd_ref (λ _, if decide (x = -1) then r - 1 else r) (upd_xref (λ _, x) ob).

Lemma sum_of_nonneg gs : 0 ≤ sum_of ext_count gs ∧ 0 ≤ sum_of int_count gs.
Proof. induction gs as [|[] gs IH]; simpl; lia. Qed.

Lemma sum_of_app f gs gs' : sum_of f (gs ++ gs') = sum_of f gs + sum_of f gs'.
Proof. induction gs as [|g gs IH]; simpl; lia. Qed.

Context (disp : nat → M (world P) unit) (o : nat) (ob : dispatch_object_s P).
Context (Hsusp : do_suspend_cnt ob < DISPATCH_OBJECT_SUSPEND_INTERVAL).
Context (Htype : dx_type (do_payload ob) ≠ DISPATCH_SOURCE_KEVENT_TYPE).

Definition held (x r : Z) (w : world P) : world P := put_obj o (counts x r ob) w.

Lemma external_run x r (w : world P) :
  0 ≤ x < INT_MAX → 0 ≤ r < INT_MAX →
  _os_object_release (_dispatch_xref_dispose disp) o (held x r w) =
    (if decide (x = 0 ∧ r = 0) then disp o else mret tt) (held (x - 1) r w).
Proof.
  intros Hx Hr. unfold held at 1. rewrite (release_run _ o _ _ (put_get _ _ _)) by (simpl; lia).
  simpl do_xref_cnt. unfold held. rewrite put_put. case_decide as Hz; simpl in Hz.
  - rewrite (xref_dispose_run _ o _ _ (put_get _ _ _)) by done.
    rewrite (release_internal_run _ o _ _ (put_get _ _ _)) by (simpl; rewrite decide_False by lia; lia).
    rewrite put_put. unfold counts, upd_ref, upd_xref. simpl.
    repeat case_decide; done || lia.
  - rewrite decide_False by lia. unfold counts, upd_ref, upd_xref. simpl. repeat case_decide; done || lia.
Qed.

Lemma internal_run x r (w : world P) :
  -1 ≤ x < INT_MAX → 1 ≤ r < INT_MAX →
  _os_object_release_internal disp o (held x r w) =
    (if decide (x = -1 ∧ r = 1) then disp o else mret tt) (held x (r - 1) w).
Proof.
  intros Hx Hr. unfold held.
  rewrite (release_internal_run _ o _ _ (put_get _ _ _)) by (simpl; case_decide; lia).
  rewrite put_put. simpl do_ref_cnt. unfold counts, upd_ref, upd_xref. simpl.
  repeat case_decide; done || lia.
Qed.

(** Short of the last reference, the object is alive with what is left. *)
Lemma drop_refs_partial gs : ∀ x r (w : world P),
  -1 ≤ x < INT_MAX → 0 ≤ r < INT_MAX →
  sum_of ext_count gs ≤ x + 1 → sum_of int_count gs ≤ r →
  0 < (x + 1 - sum_of ext_count gs) + (r - sum_of int_count gs) →
  drop_refs disp o gs (held x r w) = Ok tt (held (x - sum_of ext_count gs) (r - sum_of int_count gs) w).
Proof.
  induction gs as [|g gs IH]; intros x r w Hx Hr He Hi Hp; simpl in He, Hi, Hp |- *.
  { by rewrite !Z.sub_0_r. }
  pose proof (sum_of_nonneg gs) as [Hen Hin]. unfold mbind, M_bind.
  destruct g; simpl in He, Hi, Hp |- *.
  - rewrite external_run by lia. rewrite decide_False by lia. unfold mret, M_ret.
    rewrite IH by lia. do 2 f_equal; lia.
  - rewrite internal_run by lia. rewrite decide_False by lia. unfold mret, M_ret.
    rewrite IH by lia. do 2 f_equal; lia.
Qed.

(** With the last reference, it is disposed of. *)
Lemma drop_refs_complete gs x r (w : world P) :
  -1 ≤ x < INT_MAX → 0 ≤ r < INT_MAX → gs ≠ [] →
  sum_of ext_count gs = x + 1 → sum_of int_count gs = r →
  drop_refs disp o gs (held x r w) = disp o (held (-1) 0 w).
Proof.
  intros Hx Hr Hne He Hi. destruct gs as [|g gs _] using rev_ind; [done|].
  rewrite sum_of_app in He, Hi. pose proof (sum_of_nonneg gs) as [Hen Hin].
  assert (∀ w', drop_refs disp o (gs ++ [g]) w' = (drop_refs disp o gs;; drop_refs disp o [g]) w') as E.
  { clear. induction gs as [|[] gs IH]; intros w'; [done|..]; simpl; unfold mbind, M_bind in *.
    - destruct (_os_object_release _ o w'); [apply IH|done].
    - destruct (_os_object_release_internal _ o w'); [apply IH|done]. }
  rewrite E. unfold mbind, M_bind. rewrite drop_refs_partial by (destruct g; simpl in *; lia).
  destruct g; simpl in He, Hi |- *; unfold mbind, M_bind.
  - rewrite external_run by lia. rewrite decide_True by lia.
    replace (x - sum_of ext_count gs - 1) with (-1) by lia. replace (r - sum_of int_count gs) with 0 by lia.
    by destruct (disp o _) as [[]|].
  - rewrite internal_run by lia. rewrite decide_True by lia.
    replace (x - sum_of ext_count gs) with (-1) by lia. replace (r - sum_of int_count gs - 1) with 0 by lia.
    by destruct (disp o _) as [[]|].
Qed.
End Lifecycle.

(** C38. An object with [x + 1] references of clients and [r] of the library is
    disposed of exactly when the last of them is given up, whatever the order in
    which [_os_object_release] and [_os_object_release_internal] give them up:
    every shorter sequence leaves it alive, and the complete one ends with one
    call of dispose. *)
Theorem object_disposed_with_last_reference {P} `{DispatchClass P} disp o
    (ob : dispatch_object_s P) gs x r (w : world P) :
  do_suspend_cnt ob < DISPATCH_OBJECT_SUSPEND_INTERVAL →
  dx_type (do_payload ob) ≠ DISPATCH_SOURCE_KEVENT_TYPE →
  w_objs w !! o = Some ob → do_xref_cnt ob = x → do_ref_cnt ob = r →
  0 ≤ x < INT_MAX → 0 ≤ r < INT_MAX →
  sum_of ext_count gs = x + 1 → sum_of int_count gs = r →
  drop_refs disp o gs w = disp o (put_obj o (upd_ref (λ _, -1) (upd_xref (λ _, -1) ob)) w) ∧
  ∀ gs1 g gs2, gs = gs1 ++ g :: gs2 →
    ∃ ob', drop_refs disp o gs1 w = Ok tt (put_obj o ob' w) ∧
      do_payload ob' = do_payload ob ∧ (0 ≤ do_xref_cnt ob' ∨ 0 ≤ do_ref_cnt ob').
Proof.
  intros Hs Ht Ho Hxe Hre Hx Hr He Hi.
  assert (w = held o ob x r w) as Ew.
  { symmetry. unfold held. assert (counts x r ob = ob) as ->; [|by apply put_same].
    unfold counts, upd_ref, upd_xref. rewrite decide_False by lia. destruct ob; simpl in *. by subst. }
  split.
  - assert (gs ≠ []) as Hne by (intros ->; simpl in He; lia).
    pose proof (drop_refs_complete disp o ob Hs Ht gs x r w ltac:(lia) ltac:(lia) Hne He Hi) as E.
    by rewrite <- Ew in E.
  - intros gs1 g gs2 ->. rewrite sum_of_app in He, Hi.
    pose proof (sum_of_nonneg gs2) as [? ?].
    pose proof (drop_refs_partial disp o ob Hs Ht gs1 x r w ltac:(lia) ltac:(lia)) as E.
    rewrite <- Ew in E. rewrite E by (destruct g; simpl in *; lia).
    eexists. split_and!; [done|done|]. simpl. case_decide; destruct g; simpl in *; lia.
Qed.

Lemma object_disposed_with_last_reference_witness :
  drop_refs _os_object_dealloc 4 [External] demo1 =
    Ok tt (set_objs (delete 4%nat (w_objs demo1)) demo1).
Proof.
  destruct (object_disposed_with_last_reference _os_object_dealloc 4
    (DObj 0 0 DISPATCH_OBJECT_LISTLESS (Some 1%nat) 0 0 0
       (CData (DD true B_destructor_free 3 [RR (PBuf 5 0) 0 3]))) [External] 0 0 demo1) as [-> _];
    try done; vm_compute; reflexivity.
Defined.

(** ** Suspension *)

Section Suspension.
Context {P : Type} `{DispatchClass P}.
Context (o : nat) (ob : dispatch_object_s P) (wakeup : nat → M (world P) unit) (fuel : nat).
Context (Href : 0 ≤ do_ref_cnt ob) (Hzero : do_suspend_cnt ob = 0).

Fixpoint times (k : nat) (m : M (world P) unit) : M (world P) unit :=
  match k with O => mret tt | S k => m;; times k m end.

(** Suspended [c] times; each suspension holds a reference. *)
Definition nested (c : Z) : dispatch_object_s P :=
  upd_suspend (λ _, DISPATCH_OBJECT_SUSPEND_INTERVAL * c) (upd_ref (λ r, r + c) ob).

Lemma suspend_run c (w : world P) :
  0 ≤ c < 2 ^ 30 → do_ref_cnt ob + c < INT_MAX - 1 →
  dispatch_suspend o (put_obj o (nested c) w) = Ok tt (put_obj o (nested (c + 1)) w).
Proof.
  intros Hc Hr. unfold dispatch_suspend, mbind, M_bind at 1, get_obj. rewrite put_get.
  unfold DISPATCH_OBJECT_GLOBAL_REFCNT. rewrite decide_False by (simpl; consts; lia).
  unfold set_obj, modifyS, M_bind.
  change (set_objs (<[o:=?x]> (w_objs ?w0)) ?w0) with (put_obj o x w0). rewrite put_put.
  rewrite (retain_internal_run _ _ _ (put_get _ _ _)) by (simpl; consts; lia). rewrite put_put.
  do 2 f_equal. unfold nested, upd_suspend, upd_ref, DISPATCH_OBJECT_SUSPEND_INTERVAL. simpl.
  rewrite wrapU_small by (consts; lia). f_equal; lia.
Qed.

Lemma resume_run c (w : world P) :
  2 ≤ c < 2 ^ 30 → do_ref_cnt ob + c < INT_MAX →
  dispatch_resume wakeup fuel o (put_obj o (nested c) w) = Ok tt (put_obj o (nested (c - 1)) w).
Proof.
  intros Hc Hr. unfold dispatch_resume, mbind, M_bind at 1, get_obj. rewrite put_get.
  unfold DISPATCH_OBJECT_GLOBAL_REFCNT. rewrite decide_False by (simpl; consts; lia).
  cbv zeta. unfold set_obj, modifyS, M_bind, DISPATCH_OBJECT_SUSPEND_INTERVAL.
  change (set_objs (<[o:=?x]> (w_objs ?w0)) ?w0) with (put_obj o x w0). rewrite put_put.
  change (do_suspend_cnt (nested c)) with (2 * c).
  rewrite (wrapU_small 32 (2 * c - 2)), (wrapU_small 32 (2 * c - 2 + 2)) by (consts; lia).
  rewrite decide_True by lia.
  unfold _dispatch_release. rewrite (release_internal_run _ _ _ _ (put_get _ _ _)) by (simpl; lia).
  rewrite decide_False by (simpl; lia). rewrite put_put. unfold mret, M_ret.
  do 2 f_equal. unfold nested, upd_suspend, upd_ref, DISPATCH_OBJECT_SUSPEND_INTERVAL. simpl. f_equal; lia.
Qed.

Lemma suspends_run k c (w : world P) :
  0 ≤ c → c + Z.of_nat k < 2 ^ 30 → do_ref_cnt ob + c + Z.of_nat k < INT_MAX - 1 →
  times k (dispatch_suspend o) (put_obj o (nested c) w) = Ok tt (put_obj o (nested (c + Z.of_nat k)) w).
Proof.
  revert c. induction k as [|k IH]; intros c Hc Hk Hr; cbn [times].
  - by rewrite Z.add_0_r.
  - unfold mbind, M_bind. rewrite suspend_run by lia. rewrite IH by lia. do 3 f_equal. lia.
Qed.

Lemma resumes_run k c (w : world P) :
  1 + Z.of_nat k ≤ c < 2 ^ 30 → do_ref_cnt ob + c < INT_MAX →
  times k (dispatch_resume wakeup fuel o) (put_obj o (nested c) w) =
    Ok tt (put_obj o (nested (c - Z.of_nat k)) w).
Proof.
  revert c. induction k as [|k IH]; intros c Hc Hr; cbn [times].
  - by rewrite Z.sub_0_r.
  - unfold mbind, M_bind. rewrite resume_run by lia. rewrite IH by lia. do 3 f_equal. lia.
Qed.
End Suspension.

(** Suspensions nest: after [k + 1] suspensions and [k] resumptions the
    object is still suspended and nothing was woken; the last resumption brings
    the count to zero, wakes the object up and then gives up the reference of
    the suspension; one resumption more is a crash of the client. *)
Theorem suspend_resume_nest {P} `{DispatchClass P} o (ob : dispatch_object_s P) wakeup fuel k (w : world P) :
  w_objs w !! o = Some ob → 0 ≤ do_ref_cnt ob → do_suspend_cnt ob = 0 →
  1 + Z.of_nat k < 2 ^ 30 → do_ref_cnt ob + 2 + Z.of_nat k < INT_MAX →
  let w1 := put_obj o (upd_suspend (λ _, DISPATCH_OBJECT_SUSPEND_INTERVAL) (upd_ref (λ r, r + 1) ob)) w in
  (times (S k) (dispatch_suspend o);; times k (dispatch_resume wakeup fuel o)) w = Ok tt w1 ∧
  dispatch_resume wakeup fuel o w1 =
    (wakeup o;; _dispatch_release fuel o) (put_obj o (upd_ref (λ r, r + 1) ob) w) ∧
  dispatch_resume wakeup fuel o w = Fault (DISPATCH_CLIENT_CRASH "Over-resume of an object").
Proof.
  intros Ho Href Hz Hk Hr w1.
  assert (w = put_obj o (nested ob 0) w) as Ew.
  { rewrite put_same; [done|]. rewrite Ho. f_equal. unfold nested, upd_suspend, upd_ref.
    destruct ob; simpl in *. f_equal; lia. }
  split_and!.
  - unfold mbind, M_bind.
    pose proof (suspends_run o ob Href (S k) 0 w ltac:(lia) ltac:(lia) ltac:(lia)) as E.
    rewrite <- Ew in E. rewrite E. rewrite resumes_run by lia.
    replace (0 + Z.of_nat (S k) - Z.of_nat k) with 1 by lia. done.
  - unfold dispatch_resume, mbind, M_bind at 1, get_obj. unfold w1 at 1. rewrite put_get.
    unfold DISPATCH_OBJECT_GLOBAL_REFCNT. rewrite decide_False by (simpl; consts; lia).
    cbv zeta. unfold set_obj, modifyS, M_bind, w1.
    change (set_objs (<[o:=?x]> (w_objs ?w0)) ?w0) with (put_obj o x w0). rewrite put_put.
    simpl do_suspend_cnt. change (u32 (2 - 2)) with 0. change (u32 (0 + 2)) with 2. simpl.
    f_equal. f_equal. unfold upd_suspend, upd_ref. simpl. by rewrite Hz.
  - unfold dispatch_resume, mbind, M_bind at 1, get_obj. rewrite Ho.
    unfold DISPATCH_OBJECT_GLOBAL_REFCNT. rewrite decide_False by (consts; lia).
    cbv zeta. rewrite Hz. unfold set_obj, modifyS, M_bind. done.
Qed.

Lemma suspend_resume_nest_witness :
  dispatch_resume (λ _, mret tt) 0 4 demo1 = Fault (DISPATCH_CLIENT_CRASH "Over-resume of an object").
Proof.
  apply (suspend_resume_nest 4 (DObj 0 0 DISPATCH_OBJECT_LISTLESS (Some 1%nat) 0 0 0
       (CData (DD true B_destructor_free 3 [RR (PBuf 5 0) 0 3]))) (λ _, mret tt) 0 2 demo1);
    try done; vm_compute; reflexivity.
Defined.

(** ** Weak references *)

(** [_os_object_retain_weak] never brings an object back: whatever values
    other threads store into the count between its attempts, it returns true
    only after adding one to a count that was not negative, returns false only
    when it found the count at -1, which it leaves, and otherwise it found an
    over-released object, which is a crash of the client. *)
Theorem retain_weak_never_resurrects {P} `{DispatchClass P} env o (ob : dispatch_object_s P) (w : world P) :
  w_objs w !! o = Some ob → do_xref_cnt ob ≠ DISPATCH_OBJECT_GLOBAL_REFCNT →
  Forall (λ v, v < INT_MAX) (do_xref_cnt ob :: env) →
  match _os_object_retain_weak env o w with
  | Ok true w' => ∃ c, c ∈ do_xref_cnt ob :: env ∧ 0 ≤ c ∧ w' = put_obj o (upd_xref (λ _, c + 1) ob) w
  | Ok false w' => -1 ∈ do_xref_cnt ob :: env ∧ w' = put_obj o (upd_xref (λ _, -1) ob) w
  | Fault f => f = DISPATCH_CLIENT_CRASH "Over-release of an object" ∧
               ∃ c, c ∈ do_xref_cnt ob :: env ∧ c < -1
  end.
Proof.
  intros Ho Hg HF. unfold _os_object_retain_weak, mbind, M_bind at 1, get_obj. rewrite Ho.
  rewrite decide_False by done.
  assert (∀ c (w1 : world P), Forall (λ v, v < INT_MAX) (c :: env) →
    w1 = put_obj o (upd_xref (λ _, c) ob) w →
    match retain_weak_retry env c o w1 with
    | Ok true w' => ∃ c', c' ∈ c :: env ∧ 0 ≤ c' ∧ w' = put_obj o (upd_xref (λ _, c' + 1) ob) w
    | Ok false w' => -1 ∈ c :: env ∧ w' = put_obj o (upd_xref (λ _, -1) ob) w
    | Fault f => f = DISPATCH_CLIENT_CRASH "Over-release of an object" ∧ ∃ c', c' ∈ c :: env ∧ c' < -1
    end) as Hgo.
  2: { apply Hgo; [done|]. symmetry. apply put_same. rewrite Ho. by destruct ob. }
  clear Hg HF Ho. induction env as [|v env IH]; intros c w1 HF ->; cbn [retain_weak_retry].
  - case_decide as Hm; [subst; split; [by left|done]|]. case_decide; [split; [done|]; exists c; split; [by left|done]|].
    rewrite Forall_singleton in HF. rewrite wrapS_small by (consts; lia).
    unfold modify_obj, mbind, M_bind, get_obj. rewrite put_get. unfold set_obj, modifyS.
    exists c. split_and!; [by left|lia|]. 
    change (set_objs (<[o:=?x]> (w_objs ?w0)) ?w0) with (put_obj o x w0). by rewrite put_put.
  - apply Forall_cons in HF as [Hc HF].
    case_decide as Hm; [subst; split; [by left|done]|]. case_decide; [split; [done|]; exists c; split; [by left|done]|].
    rewrite wrapS_small by (consts; lia).
    unfold modify_obj, mbind, M_bind, get_obj. rewrite put_get. unfold set_obj, modifyS.
    change (set_objs (<[o:=?x]> (w_objs ?w0)) ?w0) with (put_obj o x w0). rewrite put_put.
    case_decide as Hv.
    + subst v. rewrite put_get. exists c. split_and!; [by left|lia|].
      change (set_objs (<[o:=?x]> (w_objs ?w0)) ?w0) with (put_obj o x w0). by rewrite put_put.
    + specialize (IH v _ HF eq_refl).
      change (upd_xref (λ _, v) (upd_xref (λ _, c) ob)) with (upd_xref (λ _, v) ob).
      destruct (retain_weak_retry env v o _) as [[] w'|f].
      * destruct IH as (c' & ? & ? & ->). exists c'. split_and!; [by right|done..].
      * destruct IH as [? ->]. split; [by right|done].
      * destruct IH as (-> & c' & ? & ?). split; [done|]. exists c'. split; [by right|done].
Qed.

Lemma retain_weak_never_resurrects_witness :
  match _os_object_retain_weak [5; -1] 4 demo1 with
  | Ok b w' => b = false ∧ -1 ∈ [0; 5; -1]
  | Fault _ => False
  end.
Proof.
  pose proof (retain_weak_never_resurrects [5; -1] 4
    (DObj 0 0 DISPATCH_OBJECT_LISTLESS (Some 1%nat) 0 0 0
       (CData (DD true B_destructor_free 3 [RR (PBuf 5 0) 0 3]))) demo1
    ltac:(vm_compute; reflexivity) ltac:(by vm_compute) ltac:(repeat constructor)) as H.
  destruct (_os_object_retain_weak _ _ _) as [[] w'|f] eqn:E.
  - vm_compute in E. discriminate.
  - split; [done|]. apply H.
  - vm_compute in E. discriminate.
Defined.
