(* ===== verification/Transform.v ===== *)
(** * Data transforms (src/transform.c)

    Conversions between byte data, base32, base64, UTF-8 and UTF-16.  The
    conversions run over the regions of a data object with an applier block;
    the [__block] variables are the state the applier threads.  The host is
    little-endian and [char] is signed (x86-64). *)

From S2P Require Import Prelude Object Data.

(** ** Tables *)

Definition base32_encode_table : list Z :=
  [65; 66; 67; 68; 69; 70; 71; 72; 73; 74; 75; 76; 77; 78; 79; 80; 81; 82; 83; 84; 85; 86;
   87; 88; 89; 90; 50; 51; 52; 53; 54; 55; 56; 57].

Definition base32_decode_table : list Z :=
  [-1; -1; -1; -1; -1; -1; -1; -1; -1; -1; -1; -1; -1; -1; -1; -1; -1;
   -1; -1; -1; -1; -1; -1; -1; -1; -1; -1; -1; -1; -1; -1; -1; -1; -1;
   -1; -1; -1; -1; -1; -1; -1; -1; -1; -1; -1; -1; -1; -1; -1; -1; 26;
   27; 28; 29; 30; 31; -1; -1; -1; -1; -1; -2; -1; -1; -1;  0;  1;  2;
    3;  4;  5;  6;  7;  8;  9; 10; 11; 12; 13; 14; 15; 16; 17; 18; 19;
   20; 21; 22; 23; 24; 25].

Definition base32_decode_table_size : Z := Z.of_nat (length base32_decode_table).

Definition base64_encode_table : list Z :=
  [65; 66; 67; 68; 69; 70; 71; 72; 73; 74; 75; 76; 77; 78; 79; 80; 81; 82; 83; 84; 85; 86;
   87; 88; 89; 90; 97; 98; 99; 100; 101; 102; 103; 104; 105; 106; 107; 108; 109; 110; 111;
   112; 113; 114; 115; 116; 117; 118; 119; 120; 121; 122; 48; 49; 50; 51; 52; 53; 54; 55;
   56; 57; 43; 47].

Definition base64_decode_table : list Z :=
  [-1;  -1;  -1;  -1;  -1;  -1;  -1;  -1;  -1;  -1;  -1;  -1;  -1;  -1;
   -1;  -1;  -1;  -1;  -1;  -1;  -1;  -1;  -1;  -1;  -1;  -1;  -1;  -1;
   -1;  -1;  -1;  -1;  -1;  -1;  -1;  -1;  -1;  -1;  -1;  -1;  -1;  -1;
   -1;  62;  -1;  -1;  -1;  63;  52;  53;  54;  55;  56;  57;  58;  59;
   60;  61;  -1;  -1;  -1;  -2;  -1;  -1;  -1;   0;   1;   2;   3;   4;
    5;   6;   7;   8;   9;  10;  11;  12;  13;  14;  15;  16;  17;  18;
   19;  20;  21;  22;  23;  24;  25;  -1;  -1;  -1;  -1;  -1;  -1;  26;
   27;  28;  29;  30;  31;  32;  33;  34;  35;  36;  37;  38;  39;  40;
   41;  42;  43;  44;  45;  46;  47;  48;  49;  50;  51].

Definition base64_decode_table_size : Z := Z.of_nat (length base64_decode_table).

(** [table[i]]. *)
Definition tbl (t : list Z) (i : Z) : Z := nth (Z.to_nat i) t 0.

(** Single bytes and little-endian half-words. *)
Definition load1 (p : ptr) : MW Z := bs ← load p 1; mret (nth 0 bs 0).
Definition le16 (bs : list Z) : Z := nth 0 bs 0 + 256 * nth 1 bs 0.
Definition load16 (p : ptr) : MW Z := bs ← load p 2; mret (le16 bs).
Definition bytes16 (x : Z) : list Z := [Z.land x 0xff; Z.land (Z.shiftr x 8) 0xff].

(** ** The output buffer *)

Record dispatch_transform_buffer_s : Type := TB {
  tb_data : nat;
  tb_start : ptr;
  tb_ptr : ptr;
  tb_size : Z
}.

Definition buffer_init : dispatch_transform_buffer_s := TB dispatch_data_empty PNull PNull 0.

(** [p - q] for pointers into one block; 0 when [q] is null (the difference is
    then not used). *)
Definition ptr_diff (p q : ptr) : Z :=
  match p, q with PBuf _ a, PBuf _ b => a - b | _, _ => 0 end.

Definition _dispatch_transform_sizet_mul (a b : Z) : Z :=
  if decide (a = 0 ∨ b ≤ SIZE_MAX / a) then u64 (a * b) else SIZE_MAX.

Definition BUFFER_MALLOC_MAX : Z := 100 * 1024 * 1024.

Definition _dispatch_transform_buffer_new (buffer : dispatch_transform_buffer_s)
    (required size : Z) : MW (dispatch_transform_buffer_s * bool) :=
  let remaining := u64 (tb_size buffer - ptr_diff (tb_ptr buffer) (tb_start buffer)) in
  if decide (required = 0 ∨ remaining < required) then
    buffer ←
      (if decide (tb_start buffer ≠ PNull) then
         if decide (0 < ptr_diff (tb_ptr buffer) (tb_start buffer)) then
           new ← dispatch_data_create (tb_start buffer)
                   (ptr_diff (tb_ptr buffer) (tb_start buffer)) None
                   DISPATCH_DATA_DESTRUCTOR_FREE;
           new ← try_opt "null data object" new;
           concat ← dispatch_data_create_concat (tb_data buffer) new;
           _dispatch_data_release new;;
           _dispatch_data_release (tb_data buffer);;
           mret (TB concat (tb_start buffer) (tb_ptr buffer) (tb_size buffer))
         else
           free (tb_start buffer);; mret buffer
       else mret buffer);
    let bsize := u64 (required + size) in
    let buffer := TB (tb_data buffer) PNull (tb_ptr buffer) bsize in
    if decide (0 < bsize) then
      if decide (BUFFER_MALLOC_MAX < bsize) then mret (buffer, false)
      else
        start ← malloc bsize;
        if decide (start = PNull) then mret (buffer, false)
        else mret (TB (tb_data buffer) start start bsize, true)
    else mret (TB (tb_data buffer) PNull PNull bsize, true)
  else mret (buffer, true).

(** [*(buffer.ptr.u8)++ = x] and [*(buffer.ptr.u16)++ = x]. *)
Definition put8 (buffer : dispatch_transform_buffer_s) (x : Z) : MW dispatch_transform_buffer_s :=
  store (tb_ptr buffer) [Z.land x 0xff];;
  mret (TB (tb_data buffer) (tb_start buffer) (ptr_add (tb_ptr buffer) 1) (tb_size buffer)).
Definition put16 (buffer : dispatch_transform_buffer_s) (x : Z) : MW dispatch_transform_buffer_s :=
  store (tb_ptr buffer) (bytes16 x);;
  mret (TB (tb_data buffer) (tb_start buffer) (ptr_add (tb_ptr buffer) 2) (tb_size buffer)).

(** ** Helpers *)

(** The map object, or null, and the pointer stored through [ptr]. *)
Definition _dispatch_data_subrange_map (data : nat) (offset size : Z) : MW (option (nat * ptr)) :=
  subrange ← dispatch_data_create_subrange data offset size;
  sz ← dispatch_data_get_size subrange;
  map ←
    (if decide (sz = size) then
       m ← dispatch_data_create_map subrange;
       let '(map, p, _) := m in
       mret (match map with Some o => Some (o, p) | None => None end)
     else mret None);
  _dispatch_data_release subrange;;
  mret map.

Inductive byte_order : Type := OSLittleEndian | OSBigEndian.

(** [bswap_16]. *)
Definition bswap16 (x : Z) : Z := Z.lor (Z.land (Z.shiftl x 8) 0xff00) (Z.land (Z.shiftr x 8) 0xff).

Definition _dispatch_transform_swap_to_host (x : Z) (byteOrder : byte_order) : Z :=
  match byteOrder with OSLittleEndian => x | OSBigEndian => bswap16 x end.

Definition _dispatch_transform_swap_from_host (x : Z) (byteOrder : byte_order) : Z :=
  match byteOrder with OSLittleEndian => x | OSBigEndian => bswap16 x end.

(** ** UTF-8 *)

Definition _dispatch_transform_utf8_length (byte : Z) : Z :=
  if decide (Z.land byte 0x80 = 0) then 1
  else if decide (Z.land byte 0xe0 = 0xc0) then 2
  else if decide (Z.land byte 0xf0 = 0xe0) then 3
  else if decide (Z.land byte 0xf8 = 0xf0) then 4
  else 0.

(** The [switch] on the length: what the lead byte contributes. *)
Definition utf8_lead (seq_length byte : Z) : Z :=
  if decide (seq_length = 4) then u32 (Z.shiftl (Z.land byte 0x7) 6)
  else if decide (seq_length = 3) then u32 (Z.shiftl (Z.land byte 0xf) 6)
  else if decide (seq_length = 2) then u32 (Z.shiftl (Z.land byte 0x1f) 6)
  else if decide (seq_length = 1) then Z.land byte 0x7f
  else 0.

(** The [while] loop over the [n] continuation bytes. *)
Fixpoint utf8_cont (n : nat) (bytes : ptr) (wch : Z) : MW Z :=
  match n with
  | O => mret wch
  | S n' =>
      b ← load1 bytes;
      let wch := Z.lor wch (Z.land b 0x3f) in
      let wch := if decide (n' = O) then wch else u32 (Z.shiftl wch 6) in
      utf8_cont n' (ptr_add bytes 1) wch
  end.

(** [seq_length] is a [uint8_t]: of no sequence it wraps around to 255. *)
Definition _dispatch_transform_read_utf8_sequence (bytes : ptr) : MW Z :=
  b ← load1 bytes;
  let seq_length := _dispatch_transform_utf8_length b in
  utf8_cont (Z.to_nat (u8 (seq_length - 1))) (ptr_add bytes 1) (utf8_lead seq_length b).

(** ** UTF-16 *)

(** The [__block] variables of the two UTF-16 conversions. *)
Record utf16_state : Type := U16 {
  u_skip : Z;
  u_buffer : dispatch_transform_buffer_s
}.

(** Convert one code point and append it; false: the block returns false. *)
Definition emit_utf16 (byteOrder : byte_order) (buffer : dispatch_transform_buffer_s)
    (wch next : Z) : MW (dispatch_transform_buffer_s * bool) :=
  if decide (0xd800 ≤ wch ∧ wch < 0xdfff) then mret (buffer, false)
  else if decide (0x10000 ≤ wch) then
    br ← _dispatch_transform_buffer_new buffer (2 * 2) next;
    let '(buffer, ok) := br in
    if negb ok then mret (buffer, false)
    else
      let wch := u32 (wch - 0x10000) in
      buffer ← put16 buffer (_dispatch_transform_swap_from_host
                 (u16 (Z.land (Z.shiftr wch 10) 0x3ff + 0xd800)) byteOrder);
      buffer ← put16 buffer (_dispatch_transform_swap_from_host
                 (u16 (Z.land wch 0x3ff + 0xdc00)) byteOrder);
      mret (buffer, true)
  else
    br ← _dispatch_transform_buffer_new buffer (1 * 2) next;
    let '(buffer, ok) := br in
    if negb ok then mret (buffer, false)
    else
      buffer ← put16 buffer (_dispatch_transform_swap_from_host (Z.land wch 0xffff) byteOrder);
      mret (buffer, true).

(** The loop [for (i = 0; i < size;)] of [to_utf16]; every turn consumes at
    least one byte, so [fuel = size + 1] is enough. *)
Fixpoint to_utf16_loop (fuel : nat) (byteOrder : byte_order) (data : nat)
    (offset size : Z) (src : ptr) (i : Z) (st : utf16_state) : MW (utf16_state * bool) :=
  match fuel with
  | O => fail OutOfFuel
  | S n =>
      if decide (i < size) then
        b ← load1 src;
        let byte_size := _dispatch_transform_utf8_length b in
        if decide (byte_size = 0) then mret (st, false)
        else if decide (size < byte_size + i) then
          range ← _dispatch_data_subrange_map data (u64 (offset + i)) byte_size;
          match range with
          | None => mret (st, false)
          | Some (subrange, p) =>
              wch ← _dispatch_transform_read_utf8_sequence p;
              let skip := u64 (u_skip st + (byte_size - (size - i))) in
              _dispatch_data_release subrange;;
              let next := _dispatch_transform_sizet_mul (size - size) 2 in
              br ← emit_utf16 byteOrder (u_buffer st) wch next;
              let '(buffer, ok) := br in
              if negb ok then mret (U16 skip buffer, false)
              else to_utf16_loop n byteOrder data offset size (ptr_add src byte_size) size
                     (U16 skip buffer)
          end
        else
          wch ← _dispatch_transform_read_utf8_sequence src;
          let i := i + byte_size in
          let next := _dispatch_transform_sizet_mul (size - i) 2 in
          br ← emit_utf16 byteOrder (u_buffer st) wch next;
          let '(buffer, ok) := br in
          if negb ok then mret (U16 (u_skip st) buffer, false)
          else to_utf16_loop n byteOrder data offset size (ptr_add src byte_size) i
                 (U16 (u_skip st) buffer)
      else
        br ← _dispatch_transform_buffer_new (u_buffer st) 0 0;
        mret (U16 (u_skip st) br.1, true)
  end.

Definition to_utf16_applier (byteOrder : byte_order) (data : nat) (st : utf16_state)
    (region : nat) (offset : Z) (buf : ptr) (size : Z) : MW (utf16_state * bool) :=
  sr ←
    (if decide (offset = 0) then
       let dest_size := u64 (2 + _dispatch_transform_sizet_mul size 2) in
       br ← _dispatch_transform_buffer_new (u_buffer st) dest_size 0;
       let '(buffer, ok) := br in
       if negb ok then mret (U16 (u_skip st) buffer, false)
       else
         buffer ← put16 buffer (_dispatch_transform_swap_from_host 0xfeff byteOrder);
         mret (U16 (u_skip st) buffer, true)
     else mret (st, true));
  let '(st, ok) := sr in
  if negb ok then mret (st, false)
  else if decide (size ≤ u_skip st) then mret (U16 (u_skip st - size) (u_buffer st), true)
  else
    let src := if decide (0 < u_skip st) then ptr_add buf (u_skip st) else buf in
    let size := if decide (0 < u_skip st) then size - u_skip st else size in
    to_utf16_loop (S (Z.to_nat size)) byteOrder data offset size src 0 (U16 0 (u_buffer st)).

Definition _dispatch_transform_to_utf16 (data : nat) (byteOrder : byte_order) : MW (option nat) :=
  xr ← dispatch_data_apply (to_utf16_applier byteOrder data) data (U16 0 buffer_init);
  let '(st, success) := xr in
  if negb success then
    br ← _dispatch_transform_buffer_new (u_buffer st) 0 0;
    _dispatch_data_release (tb_data br.1);;
    mret None
  else mret (Some (tb_data (u_buffer st))).

(** The bytes the [if (wch < 0x80) ... else if (wch < 0x200000)] chain appends. *)
Definition utf8_bytes (wch : Z) : list Z :=
  if decide (wch < 0x80) then [u8 (Z.land wch 0xff)]
  else if decide (wch < 0x800) then
    [u8 (Z.lor 0xc0 (Z.shiftr wch 6)); u8 (Z.lor 0x80 (Z.land wch 0x3f))]
  else if decide (wch < 0x10000) then
    [u8 (Z.lor 0xe0 (Z.shiftr wch 12)); u8 (Z.lor 0x80 (Z.land (Z.shiftr wch 6) 0x3f));
     u8 (Z.lor 0x80 (Z.land wch 0x3f))]
  else if decide (wch < 0x200000) then
    [u8 (Z.lor 0xf0 (Z.shiftr wch 18)); u8 (Z.lor 0x80 (Z.land (Z.shiftr wch 12) 0x3f));
     u8 (Z.lor 0x80 (Z.land (Z.shiftr wch 6) 0x3f)); u8 (Z.lor 0x80 (Z.land wch 0x3f))]
  else [].

(** [*(buffer.ptr.u8)++ = x] for each of the bytes. *)
Fixpoint put8_all (buffer : dispatch_transform_buffer_s) (bs : list Z)
  : MW dispatch_transform_buffer_s :=
  match bs with
  | [] => mret buffer
  | b :: bs => buffer ← put8 buffer b; put8_all buffer bs
  end.

Definition emit_utf8 (buffer : dispatch_transform_buffer_s) (wch next : Z)
  : MW (dispatch_transform_buffer_s * bool) :=
  if decide (wch < 0x200000) then
    br ← _dispatch_transform_buffer_new buffer (Z.of_nat (length (utf8_bytes wch))) next;
    let '(buffer, ok) := br in
    if negb ok then mret (buffer, false)
    else buffer ← put8_all buffer (utf8_bytes wch); mret (buffer, true)
  else mret (buffer, true).

(** Two bytes of [data] at [offset], read through a map object with a load of
    [width] bytes, of which the low 16 bits are kept; [None]: no such bytes. *)
Definition read_ahead16 (data : nat) (offset width : Z) (byteOrder : byte_order)
  : MW (option Z) :=
  range ← _dispatch_data_subrange_map data offset 2;
  match range with
  | None => mret None
  | Some (range, p) =>
      bs ← load p width;
      _dispatch_data_release range;;
      mret (Some (_dispatch_transform_swap_to_host (le16 bs) byteOrder))
  end.

(** The second half of a surrogate pair: [i] is the index after [++i]. *)
Definition from_utf16_trail (byteOrder : byte_order) (data : nat) (offset : Z) (src : ptr)
    (i max skip : Z) : MW (option Z * Z) :=
  if decide (max ≤ i) then
    ch ← read_ahead16 data (u64 (offset + i * 2)) 2 byteOrder;
    match ch with
    | None => mret (None, skip)
    | Some ch => mret (Some ch, u64 (skip + 2))
    end
  else
    ch ← load16 (ptr_add src (2 * i));
    mret (Some (_dispatch_transform_swap_to_host ch byteOrder), skip).

(** The loop [for (i = 0; i < max; i++)] of [from_utf16]; every turn consumes a
    unit, so [fuel = max + 1] is enough. *)
Fixpoint from_utf16_loop (fuel : nat) (byteOrder : byte_order) (data : nat)
    (offset size max : Z) (src : ptr) (i : Z) (st : utf16_state) : MW (utf16_state * bool) :=
  match fuel with
  | O => fail OutOfFuel
  | S n =>
      if decide (i < max) then
        (* the unit, and whether it was the last byte of an odd sized range *)
        cs ←
          (if decide (i = max - 1 ∧ size / 2 < max) then
             ch ← read_ahead16 data (u64 (offset + i * 2)) 8 byteOrder;
             mret (ch, u64 (u_skip st + 1))
           else
             ch ← load16 (ptr_add src (2 * i));
             mret (Some (_dispatch_transform_swap_to_host ch byteOrder), u_skip st));
        let '(ch, skip) := cs in
        match ch with
        | None => mret (st, false)
        | Some ch =>
            let st := U16 skip (u_buffer st) in
            if decide (ch = 0xfffe ∧ offset = 0 ∧ i = 0) then mret (st, false)
            else if decide (ch = 0xfeff ∧ offset = 0 ∧ i = 0) then
              from_utf16_loop n byteOrder data offset size max src (i + 1) st
            else if decide (0xd800 ≤ ch ∧ ch ≤ 0xdbff) then
              let wch := Z.shiftl (ch - 0xd800) 10 in
              let i := i + 1 in
              ts ← from_utf16_trail byteOrder data offset src i max skip;
              let '(trail, skip) := ts in
              match trail with
              | None => mret (st, false)
              | Some ch =>
                  if negb (bool_decide (0xdc00 ≤ ch ∧ ch ≤ 0xdfff))
                  then mret (U16 skip (u_buffer st), false)
                  else
                    let wch := u32 (Z.lor wch (Z.land ch 0x3ff) + 0x10000) in
                    br ← emit_utf8 (u_buffer st) wch
                           (_dispatch_transform_sizet_mul (u64 (max - i)) 2);
                    let '(buffer, ok) := br in
                    if negb ok then mret (U16 skip buffer, false)
                    else from_utf16_loop n byteOrder data offset size max src (i + 1)
                           (U16 skip buffer)
              end
            else if decide (0xdc00 ≤ ch ∧ ch ≤ 0xdfff) then mret (st, false)
            else
              br ← emit_utf8 (u_buffer st) ch
                     (_dispatch_transform_sizet_mul (u64 (max - i)) 2);
              let '(buffer, ok) := br in
              if negb ok then mret (U16 skip buffer, false)
              else from_utf16_loop n byteOrder data offset size max src (i + 1)
                     (U16 skip buffer)
        end
      else
        br ← _dispatch_transform_buffer_new (u_buffer st) 0 0;
        mret (U16 (u_skip st) br.1, true)
  end.

Definition from_utf16_applier (byteOrder : byte_order) (data : nat) (st : utf16_state)
    (region : nat) (offset : Z) (buf : ptr) (size : Z) : MW (utf16_state * bool) :=
  sr ←
    (if decide (offset = 0) then
       let dest_size := _dispatch_transform_sizet_mul size 2 / 3 in
       br ← _dispatch_transform_buffer_new (u_buffer st) dest_size 0;
       mret (U16 (u_skip st) br.1, br.2)
     else mret (st, true));
  let '(st, ok) := sr in
  if negb ok then mret (st, false)
  else if decide (size ≤ u_skip st) then mret (U16 (u_skip st - size) (u_buffer st), true)
  else
    let src := if decide (0 < u_skip st) then ptr_add buf (u_skip st) else buf in
    let size := if decide (0 < u_skip st) then size - u_skip st else size in
    let max := size / 2 in
    let max := if decide (size mod 2 ≠ 0) then max + 1 else max in
    from_utf16_loop (S (Z.to_nat max)) byteOrder data offset size max src 0
      (U16 0 (u_buffer st)).

Definition _dispatch_transform_from_utf16 (data : nat) (byteOrder : byte_order)
  : MW (option nat) :=
  xr ← dispatch_data_apply (from_utf16_applier byteOrder data) data (U16 0 buffer_init);
  let '(st, success) := xr in
  if negb success then
    br ← _dispatch_transform_buffer_new (u_buffer st) 0 0;
    _dispatch_data_release (tb_data br.1);;
    mret None
  else mret (Some (tb_data (u_buffer st))).

Definition _dispatch_transform_from_utf16le (data : nat) : MW (option nat) :=
  _dispatch_transform_from_utf16 data OSLittleEndian.
Definition _dispatch_transform_from_utf16be (data : nat) : MW (option nat) :=
  _dispatch_transform_from_utf16 data OSBigEndian.
Definition _dispatch_transform_to_utf16le (data : nat) : MW (option nat) :=
  _dispatch_transform_to_utf16 data OSLittleEndian.
Definition _dispatch_transform_to_utf16be (data : nat) : MW (option nat) :=
  _dispatch_transform_to_utf16 data OSBigEndian.

(** ** Base 32 and base 64

    The two encoders have the same text but for the group of input bytes, the
    characters of a step and the padding; so have the two decoders but for the
    bits of a character, the group, and what is cut off for the padding.  The
    common text is written once. *)

(** [*ptr++ = c] for each of the characters; the new [ptr]. *)
Fixpoint putc_all (p : ptr) (cs : list Z) : MW ptr :=
  match cs with
  | [] => mret p
  | c :: cs => store p [u8 c];; putc_all (ptr_add p 1) cs
  end.

Section Encode.
(** Bytes in a group; the characters written for the byte [curr] after
    [last]; the characters that complete the last group. *)
Variable group : Z.
Variable step_chars : Z → Z → Z → list Z.
Variable final_chars : Z → Z → list Z.

(** [last]: the byte before [bytes[i]], if the group needs it; [None]: the
    byte of the previous region cannot be mapped. *)
Definition encode_last (data : nat) (offset : Z) (bytes : ptr) (i count : Z) : MW (option Z) :=
  if decide (count mod group ≠ 0) then
    if decide (i = 0) then
      subrange ← _dispatch_data_subrange_map data (u64 (offset - 1)) 1;
      match subrange with
      | None => mret None
      | Some (subrange, p) =>
          last ← load1 p;
          _dispatch_data_release subrange;;
          mret (Some last)
      end
    else last ← load1 (ptr_add bytes (i - 1)); mret (Some last)
  else mret (Some 0).

(** The [for] loop over the [n] bytes that are left; the state is [count]
    and [ptr]. *)
Fixpoint encode_loop (n : nat) (data : nat) (offset : Z) (bytes : ptr) (i : Z)
    (st : Z * ptr) : MW ((Z * ptr) * bool) :=
  match n with
  | O => mret (st, true)
  | S n =>
      curr ← load1 (ptr_add bytes i);
      last ← encode_last data offset bytes i st.1;
      match last with
      | None => mret (st, false)
      | Some last =>
          p ← putc_all st.2 (step_chars (st.1 mod group) last curr);
          encode_loop n data offset bytes (i + 1) (u64 (st.1 + 1), p)
      end
  end.

Definition encode_applier (data : nat) (total : Z) (st : Z * ptr)
    (region : nat) (offset : Z) (bytes : ptr) (size : Z) : MW ((Z * ptr) * bool) :=
  sr ← encode_loop (Z.to_nat size) data offset bytes 0 st;
  let '(st, ok) := sr in
  if negb ok then mret (st, false)
  else if decide (u64 (offset + size) = total) then
    if decide (st.1 mod group = 0) then mret (st, true)
    else
      last ← load1 (ptr_add bytes (size - 1));
      p ← putc_all st.2 (final_chars (st.1 mod group) last);
      mret ((st.1, p), true)
  else mret (st, true).

Definition encode (dest_size : Z → Z) (data : nat) : MW (option nat) :=
  total ← dispatch_data_get_size data;
  let dest_size := dest_size total in
  dest ← malloc dest_size;
  if decide (dest = PNull) then mret None
  else
    xr ← dispatch_data_apply (encode_applier data total) data (0, dest);
    if negb xr.2 then free dest;; mret None
    else dispatch_data_create dest dest_size None DISPATCH_DATA_DESTRUCTOR_FREE.
End Encode.

(** [base64_encode_table[x & mask]]. *)
Definition chr64 (x mask : Z) : Z := tbl base64_encode_table (Z.land x mask).

Definition base64_step (k last curr : Z) : list Z :=
  if decide (k = 0) then [chr64 (Z.shiftr curr 2) 0x3f]
  else if decide (k = 1) then [chr64 (Z.lor (Z.shiftl last 4) (Z.shiftr curr 4)) 0x3f]
  else [chr64 (Z.lor (Z.shiftl last 2) (Z.shiftr curr 6)) 0x3f; chr64 curr 0x3f].

Definition base64_final (k last : Z) : list Z :=
  if decide (k = 1) then [chr64 (Z.shiftl last 4) 0x30; 61; 61]
  else [chr64 (Z.shiftl last 2) 0x3c; 61].

Definition base64_dest_size (total : Z) : Z :=
  let dest_size := u64 (u64 (total + 2) * 4) / 3 in dest_size - dest_size mod 4.

Definition _dispatch_transform_to_base64 : nat → MW (option nat) :=
  encode 3 base64_step base64_final base64_dest_size.

Definition chr32 (x mask : Z) : Z := tbl base32_encode_table (Z.land x mask).

Definition base32_step (k last curr : Z) : list Z :=
  if decide (k = 0) then [chr32 (Z.shiftr curr 3) 0x1f]
  else if decide (k = 1) then
    [chr32 (Z.lor (Z.shiftl last 2) (Z.shiftr curr 6)) 0x1f; chr32 (Z.shiftr curr 1) 0x1f]
  else if decide (k = 2) then [chr32 (Z.lor (Z.shiftl last 4) (Z.shiftr curr 4)) 0x1f]
  else if decide (k = 3) then
    [chr32 (Z.lor (Z.shiftl last 1) (Z.shiftr curr 7)) 0x1f; chr32 (Z.shiftr curr 2) 0x1f]
  else [chr32 (Z.lor (Z.shiftl last 3) (Z.shiftr curr 5)) 0x1f; chr32 curr 0x1f].

(** The two [switch] statements; the second one falls through. *)
Definition base32_final (k last : Z) : list Z :=
  if decide (k = 1) then [chr32 (Z.shiftl last 2) 0x1c; 61; 61; 61; 61; 61; 61]
  else if decide (k = 2) then [chr32 (Z.shiftl last 4) 0x10; 61; 61; 61; 61]
  else if decide (k = 3) then [chr32 (Z.shiftl last 1) 0x1e; 61; 61; 61]
  else [chr32 last 0x18; 61].

Definition base32_dest_size (total : Z) : Z :=
  let dest_size := u64 (u64 (total + 4) * 8) / 5 in dest_size - dest_size mod 8.

Definition _dispatch_transform_to_base32 : nat → MW (option nat) :=
  encode 5 base32_step base32_final base32_dest_size.

(** The [__block] variables of the decoders. *)
Record decode_state : Type := DS {
  ds_x : Z;
  ds_count : Z;
  ds_pad : Z;
  ds_rv : nat
}.

Section Decode.
(** The table; the bits of a character; the characters in a group; the bytes
    of a group; the bytes cut off for [pad] padding characters. *)
Variable table : list Z.
Variable bits group : Z.
Variable out : Z → list Z.
Variable cut : Z → Z.
Variable dest_size : Z → Z.

Definition is_blank (c : Z) : bool := (c =? 10) || (c =? 9) || (c =? 32).

(** The [for] loop over the [n] bytes that are left: the state, [ptr], and
    whether every character was valid. *)
Fixpoint decode_loop (n : nat) (bytes : ptr) (i : Z) (p : ptr) (st : decode_state)
  : MW (decode_state * ptr * bool) :=
  match n with
  | O => mret (st, p, true)
  | S n =>
      index ← load1 (ptr_add bytes i);
      if is_blank index then decode_loop n bytes (i + 1) p st
      else if decide (Z.of_nat (length table) ≤ index ∨ tbl table index = -1)
      then mret (st, p, false)
      else
        let count := u64 (ds_count st + 1) in
        let value := tbl table index in
        let pad := if decide (value = -2) then u64 (ds_pad st + 1) else ds_pad st in
        let value := if decide (value = -2) then 0 else value in
        let x := u64 (u64 (Z.shiftl (ds_x st) bits) + value) in
        p ← (if decide (Z.land count (group - 1) = 0) then putc_all p (out x) else mret p);
        decode_loop n bytes (i + 1) p (DS x count pad (ds_rv st))
  end.

Definition decode_applier (st : decode_state) (region : nat) (offset : Z) (bytes : ptr)
    (size : Z) : MW (decode_state * bool) :=
  dest ← malloc (dest_size size);
  if decide (dest = PNull) then mret (st, false)
  else
    lr ← decode_loop (Z.to_nat size) bytes 0 dest st;
    let '(st, p, ok) := lr in
    if negb ok then free dest;; mret (st, false)
    else
      let final := u64 (ptr_diff p dest - cut (ds_pad st)) in
      val ← dispatch_data_create dest final None DISPATCH_DATA_DESTRUCTOR_FREE;
      val ← try_opt "null data object" val;
      concat ← dispatch_data_create_concat (ds_rv st) val;
      _dispatch_data_release val;;
      _dispatch_data_release (ds_rv st);;
      mret (DS (ds_x st) (ds_count st) (ds_pad st) concat, true).

Definition decode (data : nat) : MW (option nat) :=
  xr ← dispatch_data_apply decode_applier data (DS 0 0 0 dispatch_data_empty);
  let '(st, success) := xr in
  if negb success then _dispatch_data_release (ds_rv st);; mret None
  else mret (Some (ds_rv st)).
End Decode.

(** [(x >> k) & 0xff]. *)
Definition byte_at (x k : Z) : Z := Z.land (Z.shiftr x k) 0xff.

Definition base64_out (x : Z) : list Z := [byte_at x 16; byte_at x 8; byte_at x 0].
Definition base64_cut (pad : Z) : Z := if decide (0 < pad) then pad else 0.
Definition base64_decode_size (size : Z) : Z := u64 (size * 3) / 4.

Definition _dispatch_transform_from_base64 : nat → MW (option nat) :=
  decode base64_decode_table 6 4 base64_out base64_cut base64_decode_size.

Definition base32_out (x : Z) : list Z :=
  [byte_at x 32; byte_at x 24; byte_at x 16; byte_at x 8; byte_at x 0].
Definition base32_cut (pad : Z) : Z :=
  if decide (pad = 1) then 1 else if decide (pad = 3) then 2
  else if decide (pad = 4) then 3 else if decide (pad = 6) then 4 else 0.
Definition base32_decode_size (size : Z) : Z := u64 (size * 5) / 8.

Definition _dispatch_transform_from_base32 : nat → MW (option nat) :=
  decode base32_decode_table 5 8 base32_out base32_cut base32_decode_size.

(** ** Formats *)

Definition _DISPATCH_DATA_FORMAT_NONE : Z := 0x1.
Definition _DISPATCH_DATA_FORMAT_UTF8 : Z := 0x2.
Definition _DISPATCH_DATA_FORMAT_UTF16LE : Z := 0x4.
Definition _DISPATCH_DATA_FORMAT_UTF16BE : Z := 0x8.
Definition _DISPATCH_DATA_FORMAT_UTF_ANY : Z := 0x10.
Definition _DISPATCH_DATA_FORMAT_BASE32 : Z := 0x20.
Definition _DISPATCH_DATA_FORMAT_BASE64 : Z := 0x40.

Record dispatch_data_format_type_s : Type := Format {
  ftype : Z;
  input_mask : Z;
  output_mask : Z;
  fdecode : option (nat → MW (option nat));
  fencode : option (nat → MW (option nat))
}.

Definition mask_base : Z :=
  Z.lor _DISPATCH_DATA_FORMAT_NONE (Z.lor _DISPATCH_DATA_FORMAT_BASE32 _DISPATCH_DATA_FORMAT_BASE64).
Definition mask_utf : Z :=
  Z.lor _DISPATCH_DATA_FORMAT_UTF8
    (Z.lor _DISPATCH_DATA_FORMAT_UTF16BE _DISPATCH_DATA_FORMAT_UTF16LE).

Definition _dispatch_data_format_type_none : dispatch_data_format_type_s :=
  Format _DISPATCH_DATA_FORMAT_NONE UINT64_MAX UINT64_MAX None None.
Definition _dispatch_data_format_type_base32 : dispatch_data_format_type_s :=
  Format _DISPATCH_DATA_FORMAT_BASE32 mask_base mask_base
    (Some _dispatch_transform_from_base32) (Some _dispatch_transform_to_base32).
Definition _dispatch_data_format_type_base64 : dispatch_data_format_type_s :=
  Format _DISPATCH_DATA_FORMAT_BASE64 mask_base mask_base
    (Some _dispatch_transform_from_base64) (Some _dispatch_transform_to_base64).
Definition _dispatch_data_format_type_utf16le : dispatch_data_format_type_s :=
  Format _DISPATCH_DATA_FORMAT_UTF16LE mask_utf mask_utf
    (Some _dispatch_transform_from_utf16le) (Some _dispatch_transform_to_utf16le).
Definition _dispatch_data_format_type_utf16be : dispatch_data_format_type_s :=
  Format _DISPATCH_DATA_FORMAT_UTF16BE mask_utf mask_utf
    (Some _dispatch_transform_from_utf16be) (Some _dispatch_transform_to_utf16be).
Definition _dispatch_data_format_type_utf8 : dispatch_data_format_type_s :=
  Format _DISPATCH_DATA_FORMAT_UTF8 mask_utf mask_utf None None.
Definition _dispatch_data_format_type_utf_any : dispatch_data_format_type_s :=
  Format _DISPATCH_DATA_FORMAT_UTF_ANY 0 0 None None.

Definition _dispatch_transform_detect_utf (data : nat)
  : MW (option dispatch_data_format_type_s) :=
  subrange ← _dispatch_data_subrange_map data 0 2;
  match subrange with
  | None => mret None
  | Some (subrange, p) =>
      ch ← load16 p;
      let type :=
        if decide (ch = 0xfeff) then _dispatch_data_format_type_utf16le
        else if decide (ch = 0xfffe) then _dispatch_data_format_type_utf16be
        else _dispatch_data_format_type_utf8 in
      _dispatch_data_release subrange;;
      mret (Some type)
  end.

(** [input->type & ~output->input_mask] and its converse are both zero. *)
Definition formats_compatible (input output : dispatch_data_format_type_s) : bool :=
  (Z.land (ftype input) (u64 (Z.lnot (input_mask output))) =? 0) &&
  (Z.land (ftype output) (u64 (Z.lnot (output_mask input))) =? 0).

Definition dispatch_data_create_with_transform (data : nat)
    (input output : dispatch_data_format_type_s) : MW (option nat) :=
  input ←
    (if decide (ftype input = _DISPATCH_DATA_FORMAT_UTF_ANY)
     then _dispatch_transform_detect_utf data else mret (Some input));
  match input with
  | None => mret None
  | Some input =>
      if negb (formats_compatible input output) then mret None
      else
        size ← dispatch_data_get_size data;
        if decide (size = 0) then mret (Some data)
        else
          temp1 ←
            match fdecode input with
            | Some dec => dec data
            | None => dispatch_retain data;; mret (Some data)
            end;
          match temp1 with
          | None => mret None
          | Some temp1 =>
              temp2 ←
                match fencode output with
                | Some enc => enc temp1
                | None => dispatch_retain temp1;; mret (Some temp1)
                end;
              _dispatch_data_release temp1;;
              mret temp2
          end
  end.
