(* ===== verification/TransformSpec.v ===== *)
(** * Transforms: access to bytes, output blocks, mapped subranges *)

From S2P Require Import Prelude Object Data DataInv DataRefs DataBuild DataSpec DataOps DataApply Transform.

(** ** Reading *)

Lemma region_sub w p bs pre mid post :
  region_at w p bs → bs = pre ++ mid ++ post → region_at w (ptr_add p (Z.of_nat (length pre))) mid.
Proof.
  intros (b & off & -> & Hoff & Hp) ->. exists b, (off + Z.of_nat (length pre)).
  split; [done|]. split; [lia|]. simpl in *. destruct (w_bufs w !! b) as [l|].
  - rewrite Nat2Z.id in *.
    assert (drop (Z.to_nat (off + Z.of_nat (length pre))) l = drop (length pre) (drop (Z.to_nat off) l)) as ->.
    { rewrite drop_drop. f_equal. lia. }
    assert (length (pre ++ mid ++ post) = (length pre + (length mid + length post))%nat) as El
      by by rewrite !length_app.
    rewrite El in Hp. apply (f_equal (drop (length pre))) in Hp.
    rewrite skipn_firstn_comm, drop_app_length in Hp.
    replace (length pre + (length mid + length post) - length pre)%nat
      with (length mid + length post)%nat in Hp by lia.
    apply (f_equal (take (length mid))) in Hp. rewrite take_take, take_app_length in Hp.
    by replace (length mid `min` (length mid + length post))%nat with (length mid) in Hp by lia.
  - symmetry in Hp. apply app_nil in Hp as [_ Hp]. apply app_nil in Hp as [-> _]. done.
Qed.

Lemma region_load1 w p bs i x (Q : Z → W → Prop) :
  region_at w p bs → 0 ≤ i → bs !! Z.to_nat i = Some x → Q x w → wp (load1 (ptr_add p i)) Q w.
Proof.
  intros Hr Hi Hx HQ. unfold load1. wp_step.
  pose proof (take_drop_middle _ _ _ Hx) as Hsplit.
  pose proof (lookup_lt_Some _ _ _ Hx) as Hlt.
  assert (region_at w (ptr_add p i) [x]) as H1.
  { replace i with (Z.of_nat (length (take (Z.to_nat i) bs))) by (rewrite length_take; lia).
    eapply region_sub; [exact Hr|]. by rewrite <- Hsplit at 1. }
  change 1 with (Z.of_nat (length [x])). apply region_load; [done|done|]. by wp_step.
Qed.

Lemma ptr_add_0 p : ptr_add p 0 = p.
Proof. destruct p; simpl; [done| |done]. f_equal. lia. Qed.

Lemma region_load1_0 w p x bs (Q : Z → W → Prop) :
  region_at w p (x :: bs) → Q x w → wp (load1 p) Q w.
Proof. intros. rewrite <- (ptr_add_0 p). by eapply region_load1. Qed.

(** ** Writing *)

Definition bytes (l : list Z) : Prop := Forall (λ x, 0 ≤ x < 256) l.

Lemma splice_snoc l off c cs :
  (off + S (length cs) ≤ length l)%nat →
  splice (splice l off [c]) (off + 1) cs = splice l off (c :: cs).
Proof.
  intros. unfold splice. simpl.
  rewrite (take_app_ge _ _ (off + 1)) by (rewrite length_take; lia).
  rewrite length_take, Nat.min_l by lia.
  replace (off + 1 - off)%nat with 1%nat by lia. simpl. rewrite take_0, <- app_assoc. simpl.
  do 2 f_equal. rewrite drop_app_ge by (rewrite length_take; lia).
  rewrite length_take, Nat.min_l by lia.
  replace (off + 1 + length cs - off)%nat with (S (length cs)) by lia. simpl.
  rewrite drop_drop. f_equal. f_equal. lia.
Qed.

Lemma splice_nil l off : splice l off [] = l.
Proof. unfold splice. simpl. rewrite Nat.add_0_r. apply take_drop. Qed.

(** [*ptr++ = c] for a list of bytes that fits the block. *)
Lemma putc_all_spec iq n ext (w : W) b off cs l :
  ok iq n ext w → w_bufs w !! b = Some l → 0 ≤ off →
  off + Z.of_nat (length cs) ≤ Z.of_nat (length l) → bytes cs →
  wp (putc_all (PBuf b off) cs) (λ p w', p = PBuf b (off + Z.of_nat (length cs)) ∧
    ok iq n ext w' ∧ evolves (eq b) w w' ∧ w_objs w' = w_objs w ∧ w_next w' = w_next w ∧
    w_bufs w' = <[b := splice l (Z.to_nat off) cs]> (w_bufs w)) w.
Proof.
  intros H Hb Hoff Hlen Hcs. revert w l off H Hb Hoff Hlen.
  induction Hcs as [|c cs Hc _ IH]; intros w l off H Hb Hoff Hlen; simpl in *.
  - wp_step. rewrite Z.add_0_r, splice_nil, insert_id by done. done.
  - wp_step. rewrite (wrapU_small 8) by (change (2 ^ 8) with 256; lia).
    eapply wp_mono; [eapply (store_spec iq n ext ∅ w b off [c] l); [done|done|done|simpl; lia]|].
    intros _ w1 (H1 & Ev1 & Eo1 & En1 & Eb1).
    eapply wp_mono; [eapply (IH w1 (splice l (Z.to_nat off) [c]) (off + 1))|].
    + done.
    + rewrite Eb1. apply lookup_insert_eq.
    + lia.
    + rewrite splice_length by (simpl; lia). lia.
    + intros p w2 (-> & H2 & Ev2 & Eo2 & En2 & Eb2).
      split_and!; [f_equal; lia|done|by etrans|congruence|congruence|].
      rewrite Eb2, Eb1, insert_insert_eq. f_equal.
      replace (Z.to_nat (off + 1)) with (Z.to_nat off + 1)%nat by lia.
      apply splice_snoc. simpl. lia.
Qed.

(** ** Mapped subranges *)

Definition subrange_map_room (R : Z) : Z := subrange_room R + map_room.

Section SubrangeMap.
Context (iq : nat → Z) (Hiq : ∀ q, 1 ≤ iq q).

Lemma subrange_map_spec n ext (w : W) data offset size :
  ok iq n ext w → data ∈ ext → w_oom w = [] →
  0 ≤ offset → 0 < size → offset + size ≤ Z.of_nat (length (contents w data)) →
  Z.of_nat (length (contents w data)) < 2 ^ 64 →
  n + subrange_map_room (recs_of w data) < INT_MAX →
  wp (_dispatch_data_subrange_map data offset size)
     (λ r w', ∃ o p, r = Some (o, p) ∧
        ok iq (n + subrange_map_room (recs_of w data)) (ext ⊎ {[+ o +]}) w' ∧ w ⇝ w' ∧
        region_at w' p (slice offset size (contents w data))) w.
Proof.
  intros H Hd Hoom Hoff Hsz Hin Hmax Hn. unfold subrange_map_room, map_room in *.
  unfold _dispatch_data_subrange_map.
  set (bs := slice offset size (contents w data)).
  assert (Z.of_nat (length bs) = size) as Hlen.
  { unfold bs, slice. rewrite length_take, length_drop. lia. }
  wp_step. eapply wp_mono; [eapply (subrange_spec iq Hiq n ext w data offset size); done || lia|].
  intros s w1 (H1 & Ev1 & Hc1).
  destruct (ok_ext _ _ _ _ s H1) as [ds Hds]; [ms_in|].
  pose proof (contents_length _ _ _ _ _ _ H1 Hds) as Hcl. rewrite Hc1 in Hcl. fold bs in Hcl, Hc1.
  unfold dispatch_data_get_size. wp_step. wp_step. eapply wp_get_data; [done|]. wp_step.
  rewrite decide_True by lia. wp_step. wp_step.
  eapply wp_mono; [eapply (map_spec iq _ _ w1 s H1)|].
  { ms_in. } { by apply (e_oom _ _ _ Ev1). } { unfold map_room. lia. }
  intros res w2 (o & p & -> & H2 & Ev2 & Hc2 & Hm2). wp_step.
  wp_step. eapply wp_mono; [eapply (release_spec iq Hiq 1 _ _ ∅ w2 s); [exact H2|ms_in]|].
  intros _ w3 (H3 & Ev3). wp_step.
  assert ((ext ⊎ {[+ s +]} ⊎ {[+ o +]}) ∖ {[+ s +]} = ext ⊎ {[+ o +]}) as Eext by by rewrite ?ms_take3, ?ms_take2, ?ms_take.
  rewrite Eext in H3. rewrite Hc1 in Hc2, Hm2.
  assert (bs ≠ []) as Hne by (intros E; rewrite E in Hlen; simpl in Hlen; lia).
  destruct (kept _ _ _ _ _ _ w2 w3 o H2 H3 Ev3) as (_ & Hc3 & _); [ms_in..|].
  exists o, p. split; [done|]. split; [eapply ok_weaken; [exact H3|unfold map_room; lia]|].
  split; [etrans; [exact Ev1|by etrans]|].
  rewrite <- Hc2, <- Hc3. eapply mapped_region; [exact H3|].
  eapply (mapped_kept _ _ _ _ _ _ w2 w3 o p H2 H3 Ev3); [ms_in..|auto].
Qed.
End SubrangeMap.
