(* ===== verification/BaseEncode.v ===== *)
(** * The base-N encoders

    The loop shared by [to_base32] and [to_base64] writes the characters a
    list function describes, whatever the regions of the data object. *)

From S2P Require Import Prelude Object Data DataInv DataRefs DataBuild DataSpec DataOps DataApply Transform TransformSpec.

(** ** A block being filled *)

(** The block [b] of [cap] bytes, that no object refers to, starts with [cs]. *)
Definition scratch (b : nat) (cap : Z) (cs : list Z) (w : W) : Prop :=
  (b < w_next w)%nat ∧ unref w b ∧
  ∃ l, w_bufs w !! b = Some l ∧ Z.of_nat (length l) = cap ∧ take (length cs) l = cs.

Lemma scratch_evolves b cap cs w w' : w ⇝ w' → scratch b cap cs w → scratch b cap cs w'.
Proof.
  intros Ev (Hlt & Hu & l & Hl & Hlen & Ht).
  destruct (e_unref _ _ _ Ev b Hlt) as [Hu' [l' Hl']]; [tauto|done|by eexists|].
  split; [pose proof (e_next _ _ _ Ev); lia|]. split; [done|]. exists l.
  destruct (e_bufs _ _ _ Ev b Hlt) as [E|E]; [tauto| |congruence]. by rewrite E.
Qed.

Lemma scratch_put iq n ext (w : W) b cap cs cs' :
  ok iq n ext w → scratch b cap cs w → bytes cs' →
  Z.of_nat (length cs) + Z.of_nat (length cs') ≤ cap →
  wp (putc_all (PBuf b (Z.of_nat (length cs))) cs')
     (λ p w', p = PBuf b (Z.of_nat (length (cs ++ cs'))) ∧ ok iq n ext w' ∧
        evolves (eq b) w w' ∧ scratch b cap (cs ++ cs') w') w.
Proof.
  intros H (Hlt & Hu & l & Hl & Hlen & Ht) Hcs Hcap.
  eapply wp_mono; [eapply putc_all_spec; [exact H|exact Hl|lia|lia|done]|].
  intros p w' (-> & H' & Ev & Eo & En & Eb).
  split; [f_equal; rewrite length_app; lia|]. split; [done|]. split; [done|].
  split; [lia|]. split.
  { intros o d off f k. rewrite (data_at_objs w) by done. apply Hu. }
  eexists. rewrite Eb, lookup_insert_eq. split; [done|]. rewrite Nat2Z.id.
  split; [by rewrite splice_length by lia|]. apply splice_prefix; [done|lia].
Qed.

Lemma scratch_new iq n ext (w : W) cap :
  ok iq n ext w → w_oom w = [] → 0 ≤ cap →
  wp (malloc cap) (λ p w', p = PBuf (w_next w) 0 ∧ ok iq n ext w' ∧ w ⇝ w' ∧
    w_oom w' = [] ∧ w_objs w' = w_objs w ∧ scratch (w_next w) cap [] w') w.
Proof.
  intros H Hoom Hcap. eapply wp_mono; [by eapply malloc_spec|].
  intros p w' (-> & H' & Ev & Eo & En & Eb). do 3 (split; [done|]).
  split; [by apply (e_oom _ _ _ Ev)|]. split; [done|]. split; [lia|]. split.
  - intros o d off f k. rewrite (data_at_objs w) by done. by apply (unref_fresh iq n ext).
  - eexists. rewrite Eb, lookup_insert_eq. split; [done|]. rewrite length_replicate. split; [lia|done].
Qed.

(** A block that no object refers to may be freed. *)
Lemma ok_free iq n ext (w : W) b :
  ok iq n ext w → unref w b →
  ok iq n ext (set_bufs (delete b (w_bufs w)) w) ∧
  evolves (eq b) w (set_bufs (delete b (w_bufs w)) w).
Proof.
  intros H Hu. split.
  - destruct H as (m & E & Hd & I & Hrest). exists m. split; [done|]. split; [done|].
    split; [|exact Hrest]. destruct I as [I1 I2 I3 I4 I5 I6 I7 I8].
    split; [done|done|done| | |done|done|done]; simpl.
    + intros b0 l0 [_ Hb]%lookup_delete_Some. eauto.
    + intros o ob d Ho Hp Hne. destruct (I5 o ob d Ho Hp Hne) as (Hok & ?). split; [|done].
      destruct Hok as (? & ? & ? & ? & ? & Hlc). do 5 (split; [done|]).
      destruct Hlc as [(? & ? & b0 & off & l0 & Hr & Hb0 & ?)|?]; [left|by right].
      split; [done|]. split; [done|]. exists b0, off, l0. split; [done|]. split; [|done].
      rewrite lookup_delete_ne; [done|]. intros <-. eapply (Hu o d off 0 (dsize d)); [|done].
      apply data_at_Some. exists ob. split; [|done]. rewrite E. by apply lookup_union_Some_l.
  - split; simpl; [done|by left| | |eauto|done].
    + intros b0 _ Hb0. left. by rewrite lookup_delete_ne.
    + intros b0 _ Hb0 Hu0 ?. split; [exact Hu0|by rewrite lookup_delete_ne].
Qed.

(** The filled block becomes a data object. *)
Lemma scratch_seal iq n ext (w : W) b cap cs :
  ok iq n ext w → scratch b cap cs w → 0 ≤ cap < 2 ^ 64 → Z.of_nat (length cs) ≤ cap →
  wp (dispatch_data_create (PBuf b 0) (Z.of_nat (length cs)) None DISPATCH_DATA_DESTRUCTOR_FREE)
     (λ r w', ∃ o, r = Some o ∧ ok iq (n + 2) (ext ⊎ {[+ o +]}) w' ∧ evolves (eq b) w w' ∧
        contents w' o = cs ∧
        (∀ d, data_at w' o = Some d → (length (as_records o d) ≤ 1)%nat)) w.
Proof.
  intros H (Hlt & Hu & l & Hl & Hlen & Ht) Hcap Hle.
  destruct (decide (cs = [])) as [->|Hne].
  - unfold dispatch_data_create. rewrite decide_True by by right. rewrite decide_True by done.
    wp_step. wp_step. unfold _dispatch_Block_copy. rewrite decide_False by done. wp_step.
    unfold _dispatch_data_destroy_buffer. rewrite decide_True by done.
    unfold free, wp. rewrite Hl.
    destruct (ok_free _ _ _ _ b H Hu) as (H' & Ev).
    destruct (empty_post iq n ext _ 0 H') as (H2 & _ & Hc & _); [lia|].
    exists dispatch_data_empty. split; [done|]. split; [eapply ok_weaken; [exact H2|lia]|].
    split; [done|split; [done|]].
    intros d Hd. rewrite (ok_empty _ _ _ _ H') in Hd. injection Hd as <-. simpl. lia.
  - assert (0 < Z.of_nat (length cs)) by (destruct cs; [done|simpl; lia]).
    eapply wp_mono; [eapply (create_spec iq n ext w b 0 (Z.of_nat (length cs)) _ l); try done; try lia|].
    { intros o2 d2 off2 f2 l2 Hd2 Hr2. by apply (Hu o2 d2 off2 f2 l2 Hd2) in Hr2. }
    intros r w' (-> & H' & Ev & Eb & Hd). exists (w_next w). do 3 (split; [done|]). split.
    + unfold contents. rewrite Hd. unfold recs_bytes. cbn. unfold rec_bytes. cbn.
      rewrite Eb, Hl, app_nil_r, drop_0, Nat2Z.id. done.
    + intros d. rewrite Hd. intros [= <-]. done.
Qed.

(** ** The encoders on lists *)

Section EncodeList.
Context (group : Z) (step_chars : Z → Z → Z → list Z) (final_chars : Z → Z → list Z).

(** The characters of the bytes [bs], the first of them at index [count],
    [last] the byte before it. *)
Fixpoint enc_from (count last : Z) (bs : list Z) : list Z :=
  match bs with
  | [] => []
  | c :: bs =>
      step_chars (count mod group) (if decide (count mod group ≠ 0) then last else 0) c
      ++ enc_from (count + 1) c bs
  end.

Definition enc_final (bs : list Z) : list Z :=
  let k := Z.of_nat (length bs) mod group in
  if decide (k = 0) then [] else final_chars k (List.last bs 0).

Definition enc_all (bs : list Z) : list Z := enc_from 0 0 bs ++ enc_final bs.

Lemma enc_from_snoc count last bs c :
  enc_from count last (bs ++ [c]) =
  enc_from count last bs ++
  step_chars ((count + Z.of_nat (length bs)) mod group)
    (if decide ((count + Z.of_nat (length bs)) mod group ≠ 0) then List.last bs last else 0) c.
Proof.
  revert count last. induction bs as [|b bs IH]; intros count last; cbn [app enc_from length].
  { rewrite Z.add_0_r, !app_nil_r. done. }
  rewrite IH, app_assoc.
  replace (count + 1 + Z.of_nat (length bs)) with (count + Z.of_nat (S (length bs))) by lia.
  repeat f_equal. case_decide; [|done]. destruct bs; [done|].
  clear. revert b z. induction bs as [|x bs IH]; intros b z; [done|]. simpl in *. apply IH.
Qed.

Lemma enc_from_app count last a b :
  ∃ cs, enc_from count last (a ++ b) = enc_from count last a ++ cs.
Proof.
  induction b as [|x b [cs IH]] using rev_ind.
  - exists []. by rewrite !app_nil_r.
  - rewrite app_assoc, enc_from_snoc, IH. eexists. by rewrite <- app_assoc.
Qed.
End EncodeList.

Lemma last_lookup (l : list Z) d :
  l ≠ [] → l !! Nat.pred (length l) = Some (List.last l d).
Proof.
  intros Hl. induction l as [|x l IH]; [done|]. destruct l as [|y l]; [done|]. by apply IH.
Qed.

Lemma lookup_before_last (pre bs : list Z) i :
  (0 < i ≤ length bs)%nat → bs !! Nat.pred i = Some (List.last (pre ++ take i bs) 0).
Proof.
  intros Hi. assert (pre ++ take i bs ≠ []) as Hne.
  { intros [_ E]%app_nil. apply (f_equal length) in E. rewrite length_take in E. simpl in E. lia. }
  rewrite <- (last_lookup _ 0 Hne), length_app, length_take, Nat.min_l by lia.
  rewrite lookup_app_r by lia. rewrite lookup_take_lt by lia. f_equal. lia.
Qed.

Lemma slice_last (pre post : list Z) :
  pre ≠ [] → slice (Z.of_nat (length pre) - 1) 1 (pre ++ post) = [List.last pre 0].
Proof.
  intros Hp. pose proof (last_lookup pre 0 Hp) as Hl. unfold slice.
  assert (0 < length pre)%nat by (destruct pre; [done|simpl; lia]).
  replace (Z.to_nat (Z.of_nat (length pre) - 1)) with (Nat.pred (length pre)) by lia.
  change (Z.to_nat 1) with 1%nat.
  rewrite (drop_S (pre ++ post) (List.last pre 0)); [by destruct (drop _ _)|].
  rewrite lookup_app_l by lia. done.
Qed.

(** ** The loop *)

Section Encode.
Context (group : Z) (step_chars : Z → Z → Z → list Z) (final_chars : Z → Z → list Z).
Context (Hstep : ∀ k l c, bytes (step_chars k l c)) (Hfinal : ∀ k l, bytes (final_chars k l)).
Context (iq : nat → Z) (Hiq : ∀ q, 1 ≤ iq q).
Context (dd : nat) (w1 : W) (n : Z) (ext : gmultiset nat) (d : dispatch_data_s).
Context (H1 : ok iq n ext w1) (Hdd : dd ∈ ext) (Hd : data_at w1 dd = Some d).
Context (bm : nat) (cap : Z) (Hu : unref w1 bm).

Abbreviation C := (contents w1 dd).
Abbreviation room := (subrange_map_room (recs_of w1 dd)).
Abbreviation enc := (enc_from group step_chars 0 0).

Context (Hcap : Z.of_nat (length (enc_all group step_chars final_chars C)) ≤ cap).
Context (Hn : n + Z.of_nat (length (as_records dd d)) * room < INT_MAX).

(** The state of the heap when the characters [cs] were written. *)
Definition encoding (m : Z) (cs : list Z) (w : W) : Prop :=
  evolves (eq bm) w1 w ∧ ok iq m ext w ∧ w_oom w = [] ∧ scratch bm cap cs w.

Lemma room_pos : 0 ≤ room.
Proof.
  unfold subrange_map_room, subrange_room, map_room, recs_of. rewrite Hd. unfold num_records. nia.
Qed.

Lemma encoding_dd m cs w :
  encoding m cs w → data_at w dd = data_at w1 dd ∧ contents w dd = C.
Proof.
  intros (Ev & H & _). destruct (kept_but (eq bm) iq iq n m ext ext w1 w) with (o := dd) as (? & ? & _);
    [by intros b <-|done..].
Qed.

Lemma total_lt : Z.of_nat (length C) < 2 ^ 64.
Proof.
  rewrite (contents_length _ _ _ _ _ _ H1 Hd).
  destruct (ok_data _ _ _ _ _ _ H1 Hd); [done|lia].
Qed.

Lemma encoding_region m cs w p bs :
  encoding m cs w → lasting iq dd w1 (eq bm) p bs → region_at w p bs.
Proof. intros (Ev & H & _) Hr. by apply (Hr w m ext). Qed.

Lemma encode_last_spec k pre bs post i p m cs w :
  (k < length (as_records dd d))%nat → C = pre ++ bs ++ post →
  lasting iq dd w1 (eq bm) p bs → (i < length bs)%nat → 0 < group →
  encoding m cs w → m ≤ n + (Z.of_nat k + 1) * room → (i = 0%nat → m ≤ n + Z.of_nat k * room) →
  let count := Z.of_nat (length (pre ++ take i bs)) in
  wp (encode_last group dd (Z.of_nat (length pre)) p (Z.of_nat i) count)
     (λ r w', r = Some (if decide (count mod group ≠ 0) then List.last (pre ++ take i bs) 0 else 0) ∧
              encoding (n + (Z.of_nat k + 1) * room) cs w') w.
Proof.
  intros Hk Hc Hr Hi Hg He Hm Hm0 count. pose proof room_pos as Hroom. pose proof total_lt as Htot.
  pose proof He as (Ev & H & Hoom & Hs).
  assert (encoding (n + (Z.of_nat k + 1) * room) cs w) as He'.
  { split_and!; [done|by eapply ok_weaken|done|done]. }
  unfold encode_last. case_decide as Hmod; [|by wp_step]. case_decide as Hi0.
  - assert (i = 0%nat) as -> by lia. rewrite take_0, app_nil_r in *.
    assert (pre ≠ []) as Hpre by (intros ->; unfold count in Hmod; simpl in Hmod; by rewrite Z.mod_0_l in Hmod by lia).
    assert (0 < Z.of_nat (length pre)) by (destruct pre; [done|simpl; lia]).
    destruct (encoding_dd _ _ _ He) as (Ed & Ec).
    assert (recs_of w dd = recs_of w1 dd) as Er by by (unfold recs_of; rewrite Ed).
    assert (Z.of_nat (length C) = Z.of_nat (length pre) + Z.of_nat (length bs) + Z.of_nat (length post)) as Hl.
    { rewrite Hc, !length_app. lia. }
    specialize (Hm0 eq_refl). rewrite wrapU_small by lia.
    wp_step. eapply wp_mono; [eapply (subrange_map_spec iq Hiq m ext w dd); try done; rewrite ?Ec, ?Er; try lia; nia|].
    rewrite Ec, Er. intros r w2 (o & q & -> & H2 & Ev2 & Hr2).
    rewrite Hc, slice_last in Hr2 by done.
    wp_step. eapply region_load1_0; [exact Hr2|].
    wp_step. eapply wp_mono; [eapply (release_spec iq Hiq 1 _ _ ∅ w2 o); [exact H2|multiset_solver]|].
    intros _ w3 (H3 & Ev3). wp_step. split; [done|].
    assert ((ext ⊎ {[+ o +]}) ∖ {[+ o +]} = ext) as Eext by multiset_solver. rewrite Eext in H3.
    split_and!.
    + etrans; [exact Ev|]. apply evolves_none. by etrans.
    + eapply ok_weaken; [exact H3|nia].
    + apply (e_oom _ _ _ Ev3), (e_oom _ _ _ Ev2), Hoom.
    + eapply scratch_evolves; [exact Ev3|]. by eapply scratch_evolves.
  - pose proof (encoding_region _ _ _ _ _ He Hr) as Hreg.
    wp_step. eapply region_load1; [exact Hreg|lia| |by wp_step].
    replace (Z.to_nat (Z.of_nat i - 1)) with (Nat.pred i) by lia. apply lookup_before_last; lia.
Qed.

Lemma enc_fits pre post : C = pre ++ post → Z.of_nat (length (enc pre)) ≤ cap.
Proof.
  intros Hc. destruct (enc_from_app group step_chars 0 0 pre post) as [cs E].
  unfold enc_all in Hcap. rewrite Hc, E, !length_app in Hcap. lia.
Qed.

Lemma encode_loop_spec k pre bs post p (Hg : 0 < group) :
  (k < length (as_records dd d))%nat → C = pre ++ bs ++ post →
  lasting iq dd w1 (eq bm) p bs →
  ∀ j i m w, (i + j = length bs)%nat → encoding m (enc (pre ++ take i bs)) w →
  m ≤ n + (Z.of_nat k + 1) * room → (i = 0%nat → m ≤ n + Z.of_nat k * room) →
  wp (encode_loop group step_chars j dd (Z.of_nat (length pre)) p (Z.of_nat i)
        (Z.of_nat (length (pre ++ take i bs)), PBuf bm (Z.of_nat (length (enc (pre ++ take i bs))))))
     (λ xr w', xr = ((Z.of_nat (length (pre ++ bs)), PBuf bm (Z.of_nat (length (enc (pre ++ bs))))), true) ∧
        encoding (n + (Z.of_nat k + 1) * room) (enc (pre ++ bs)) w') w.
Proof.
  intros Hk Hc Hr j. induction j as [|j IH]; intros i m w Hij He Hm Hm0; cbn [encode_loop fst snd].
  { wp_step. rewrite take_ge in * by lia. split; [done|].
    destruct He as (? & ? & ? & ?). split_and!; [done|by eapply ok_weaken|done|done]. }
  destruct (lookup_lt_is_Some_2 bs i) as [c Hci]; [lia|].
  assert (pre ++ take (S i) bs = (pre ++ take i bs) ++ [c]) as Esnoc
    by by rewrite (take_S_r _ _ _ Hci), app_assoc.
  wp_step. eapply region_load1; [by eapply encoding_region|lia|by rewrite Nat2Z.id|].
  wp_step. eapply wp_mono; [eapply encode_last_spec; try done; lia|].
  intros r w2 (-> & He2). cbv beta iota.
  pose proof (enc_from_snoc group step_chars 0 0 (pre ++ take i bs) c) as Eenc.
  rewrite Z.add_0_l in Eenc. set (cnt := Z.of_nat (length (pre ++ take i bs))) in *.
  assert (Z.of_nat (length (enc (pre ++ take (S i) bs))) ≤ cap) as Hfit.
  { apply (enc_fits _ (drop (S i) bs ++ post)).
    by rewrite Hc, <- app_assoc, (app_assoc (take _ _)), take_drop. }
  rewrite Esnoc, Eenc, length_app, Nat2Z.inj_add in Hfit. cbn [fst snd].
  pose proof He2 as (Ev2 & H2 & Hoom2 & Hs2).
  wp_step. eapply wp_mono; [eapply scratch_put; [exact H2|exact Hs2|apply Hstep|exact Hfit]|].
  intros q w3 (-> & H3 & Ev3 & Hs3). rewrite <- Eenc, <- Esnoc in Hs3 |- *.
  assert (u64 (cnt + 1) = Z.of_nat (length (pre ++ take (S i) bs))) as ->.
  { pose proof total_lt as Htot. rewrite Hc, !length_app in Htot.
    pose proof (lookup_lt_Some _ _ _ Hci).
    rewrite Esnoc, length_app. fold cnt. simpl. unfold cnt in *. rewrite length_app, length_take in *.
    rewrite wrapU_small by lia. lia. }
  replace (Z.of_nat i + 1) with (Z.of_nat (S i)) by lia.
  apply (IH (S i) (n + (Z.of_nat k + 1) * room) w3); [lia| |lia|lia].
  split_and!; [by etrans|exact H3| |exact Hs3]. by apply (e_oom _ _ _ Ev3).
Qed.

(** What was written when the bytes before are [pre]. *)
Definition written (pre : list Z) : list Z :=
  enc pre ++ (if decide (length pre = length C ∧ pre ≠ [])
              then enc_final group final_chars pre else []).

Definition encoded (k : nat) (pre : list Z) (x : Z * ptr) (w : W) : Prop :=
  x = (Z.of_nat (length pre), PBuf bm (Z.of_nat (length (written pre)))) ∧
  encoding (n + Z.of_nat k * room) (written pre) w.

Lemma encode_step (Hg : 0 < group) k pre bs post x w ro p :
  (k < length (as_records dd d))%nat → C = pre ++ bs ++ post → bs ≠ [] →
  encoded k pre x w → lasting iq dd w1 (eq bm) p bs →
  wp (encode_applier group step_chars final_chars dd (Z.of_nat (length C)) x ro
        (Z.of_nat (length pre)) p (Z.of_nat (length bs)))
     (λ xr w', if xr.2 then encoded (S k) (pre ++ bs) xr.1 w' else False) w.
Proof.
  intros Hk Hc Hne (-> & He) Hr.
  assert (0 < length bs)%nat as Hbs by (destruct bs; [done|simpl; lia]).
  assert (length C = length pre + length bs + length post)%nat as Hl
    by (rewrite Hc, !length_app; lia).
  assert (written pre = enc pre) as Ew.
  { unfold written. rewrite decide_False by (intros [? _]; lia). by rewrite app_nil_r. }
  rewrite Ew in *. unfold encode_applier. rewrite Nat2Z.id. wp_step.
  pose proof (encode_loop_spec k pre bs post p Hg Hk Hc Hr (length bs) 0
    (n + Z.of_nat k * room) w) as Hloop. rewrite take_0, app_nil_r in Hloop.
  pose proof room_pos. eapply wp_mono; [apply Hloop; [done|done|nia|lia]|].
  intros xr w2 (-> & He2). cbn [negb fst snd]. pose proof total_lt.
  replace (Z.of_nat k + 1) with (Z.of_nat (S k)) in He2 by lia.
  rewrite wrapU_small by lia. case_decide as Hlast; [|].
  - assert (post = []) as -> by (destruct post; [done|simpl in *; lia]).
    rewrite app_nil_r in Hc.
    assert (written (pre ++ bs) = enc (pre ++ bs) ++ enc_final group final_chars (pre ++ bs)) as Ew'.
    { unfold written. rewrite decide_True; [done|]. rewrite Hc. split; [done|].
      intros [_ ?]%app_nil. done. }
    unfold encoded. rewrite Ew'. unfold enc_final at 1 2. case_decide as Hmod.
    { wp_step. cbn [fst snd]. by rewrite !app_nil_r. }
    pose proof (lookup_before_last pre bs (length bs)) as Hlk.
    rewrite take_ge in Hlk by lia.
    wp_step. eapply region_load1; [eapply encoding_region; [exact He2|done]|lia| |].
    { replace (Z.to_nat (Z.of_nat (length bs) - 1)) with (Nat.pred (length bs)) by lia.
      apply Hlk. lia. }
    pose proof He2 as (Ev2 & H2 & Hoom2 & Hs2).
    wp_step. eapply wp_mono; [eapply scratch_put; [exact H2|exact Hs2|apply Hfinal|]|].
    { unfold enc_all, enc_final in Hcap. rewrite Hc in Hcap.
      rewrite decide_False in Hcap by done. rewrite length_app in Hcap. lia. }
    intros q w3 (-> & H3 & Ev3 & Hs3). wp_step. cbn [fst snd]. split; [done|].
    split_and!; [by etrans|exact H3| |exact Hs3]. by apply (e_oom _ _ _ Ev3).
  - wp_step. cbn [fst snd]. unfold encoded.
    assert (written (pre ++ bs) = enc (pre ++ bs)) as ->; [|done].
    unfold written. rewrite decide_False by (rewrite length_app; intros [? _]; lia).
    by rewrite app_nil_r.
Qed.

End Encode.

(** ** The whole encoder *)

(** The number of regions an applier is called with. *)
Definition regions_of (w : W) (o : nat) : nat :=
  match data_at w o with Some d => length (as_records o d) | None => 0 end.

(** References that encoding an object may need on the way. *)
Definition encode_room (w : W) (dd : nat) : Z :=
  Z.of_nat (regions_of w dd) * subrange_map_room (recs_of w dd) + 2.

Lemma encode_spec group step_chars final_chars dest_size iq n ext (w : W) dd :
  (∀ k l c, bytes (step_chars k l c)) → (∀ k l, bytes (final_chars k l)) →
  (∀ q, 1 ≤ iq q) → 0 < group →
  ok iq n ext w → dd ∈ ext → w_oom w = [] →
  let bs := contents w dd in
  let cs := enc_all group step_chars final_chars bs in
  dest_size (Z.of_nat (length bs)) = Z.of_nat (length cs) → Z.of_nat (length cs) < 2 ^ 64 →
  n + encode_room w dd < INT_MAX →
  wp (encode group step_chars final_chars dest_size dd)
     (λ r w', ∃ o, r = Some o ∧ ok iq (n + encode_room w dd) (ext ⊎ {[+ o +]}) w' ∧ w ⇝ w' ∧
        contents w' o = cs ∧ (regions_of w' o ≤ 1)%nat) w.
Proof.
  intros Hstep Hfinal Hiq Hg H Hdd Hoom bs cs Hsize Hmax Hn.
  destruct (ok_ext _ _ _ _ _ H Hdd) as [d Hd].
  pose proof (contents_length _ _ _ _ _ _ H Hd) as Hcl. fold bs in Hcl.
  unfold encode_room, regions_of in *. rewrite Hd in *.
  unfold encode, dispatch_data_get_size. wp_step. wp_step. eapply wp_get_data; [done|]. wp_step.
  rewrite <- Hcl, Hsize. wp_step.
  eapply wp_mono; [eapply scratch_new; [exact H|done|lia]|].
  intros p w1 (-> & H1 & Ev1 & Hoom1 & Eo1 & Hs1). rewrite decide_False by done.
  assert (data_at w1 dd = Some d) as Hd1 by by rewrite (data_at_objs w).
  destruct (kept _ _ _ _ _ _ w w1 dd H H1 Ev1 Hdd Hdd) as (_ & Hc1 & _).
  assert (recs_of w1 dd = recs_of w dd) as Er by by (unfold recs_of; rewrite Hd, Hd1).
  set (bm := w_next w) in *.
  assert (written group step_chars final_chars dd w1 bs = cs) as Ewr.
  { unfold written, cs, enc_all. f_equal. rewrite Hc1. case_decide as Hx; [done|].
    destruct (decide (bs = [])) as [->|]; [|tauto]. unfold enc_final. rewrite decide_True; [done|]. apply Z.mod_0_l. lia. }
  wp_step. eapply wp_mono.
  { eapply (apply_spec (encode_applier group step_chars final_chars dd (Z.of_nat (length bs)))
      iq dd w1 n ext d H1 Hdd Hd1
      (encoded group step_chars final_chars iq dd w1 n ext bm (Z.of_nat (length cs)))
      (λ _ _, False) (eq bm)).
    - intros b <-. apply Hs1.
    - intros k pre x w' (_ & Ev & Hok & _). split; [done|]. by eexists _, ext.
    - intros k pre bs' post x w' ro p Hk _ Hc Hne HI Hr. unfold bs. rewrite <- Hc1.
      eapply encode_step; try done; [apply Hs1|by rewrite Hc1|rewrite Er; lia].
    - unfold encoded, written. rewrite decide_False by (intros [_ ?]; done). split; [done|].
      split_and!; [done|eapply ok_weaken; [exact H1|simpl; lia]|done|done]. }
  intros [x [|]] w2; [|done]. unfold apply_post. cbn [fst snd negb].
  intros (k & Hk & -> & Ev2 & H2 & Hoom2 & Hs2). rewrite Hc1 in Hs2. fold bs in Hs2. rewrite Ewr in Hs2. rewrite Er in H2.
  eapply wp_mono; [eapply scratch_seal; [exact H2|exact Hs2|lia|lia]|].
  intros r w3 (o & -> & H3 & Ev3 & Hc3 & Hr3). exists o. split; [done|].
  assert (0 ≤ subrange_map_room (recs_of w dd)).
  { unfold subrange_map_room, subrange_room, map_room, recs_of. rewrite Hd. unfold num_records. nia. }
  split; [eapply ok_weaken; [exact H3|nia]|]. split; [|split; [done|]].
  - eapply evolves_fresh; [|exact Ev1|etrans; [exact Ev2|exact Ev3]]. by intros b <-.
  - destruct (data_at w3 o) as [d3|]; [by apply Hr3|lia].
Qed.
