(* ===== verification/BaseDecode.v ===== *)
(** * The base-N decoders

    On a data object of one region the loop shared by [from_base32] and
    [from_base64] computes a list function; on a character outside the
    alphabet the result is null and nothing is leaked. *)

From S2P Require Import Prelude Object Data DataInv DataRefs DataBuild DataSpec DataOps DataApply Transform TransformSpec BaseEncode.

(** ** The decoders on lists *)

Section DecodeList.
Context (table : list Z) (bits group : Z) (out : Z → list Z).

(** The accumulator: [x], [count], [pad]. *)
Definition acc : Type := Z * Z * Z.

Definition dec_char (a : acc) (index : Z) : acc :=
  let '(x, count, pad) := a in
  let value := tbl table index in
  (u64 (u64 (Z.shiftl x bits) + (if decide (value = -2) then 0 else value)),
   u64 (count + 1), if decide (value = -2) then u64 (pad + 1) else pad).

Definition dec_ok (index : Z) : bool :=
  negb (bool_decide (Z.of_nat (length table) ≤ index ∨ tbl table index = -1)).

(** The bytes written for the characters, and the accumulator reached. *)
Fixpoint dec_from (a : acc) (cs : list Z) : option (list Z * acc) :=
  match cs with
  | [] => Some ([], a)
  | c :: cs =>
      if is_blank c then dec_from a cs
      else if dec_ok c then
        let a := dec_char a c in
        '(bs, a') ← dec_from a cs;
        Some ((if decide (Z.land a.1.2 (group - 1) = 0) then out a.1.1 else []) ++ bs, a')
      else None
  end.

Lemma dec_from_app a cs cs' :
  dec_from a (cs ++ cs') =
  '(bs, a1) ← dec_from a cs; '(bs', a2) ← dec_from a1 cs'; Some (bs ++ bs', a2).
Proof.
  revert a. induction cs as [|c cs IH]; intros a; simpl.
  { by destruct (dec_from a cs') as [[? ?]|]. }
  destruct (is_blank c); [apply IH|]. destruct (dec_ok c); [|done]. rewrite IH.
  destruct (dec_from (dec_char a c) cs) as [[bs a1]|]; [|done]. simpl.
  destruct (dec_from a1 cs') as [[bs' a2]|]; [|done]. simpl. by rewrite app_assoc.
Qed.

Lemma dec_from_prefix a cs cs' : dec_from a cs = None → dec_from a (cs ++ cs') = None.
Proof. rewrite dec_from_app. by intros ->. Qed.
End DecodeList.

(** The decoded bytes: what was written less the bytes that stand for padding. *)
Definition dec_all table bits group out (cut : Z → Z) (cs : list Z) : option (list Z) :=
  '(bs, a) ← dec_from table bits group out (0, 0, 0) cs;
  Some (take (Z.to_nat (Z.of_nat (length bs) - cut a.2)) bs).

(** ** The loop *)

Definition ds_acc (st : decode_state) : acc := (ds_x st, ds_count st, ds_pad st).

Section Decode.
Context (table : list Z) (bits group : Z) (out : Z → list Z) (cut dest_size : Z → Z).
Context (Hout : ∀ x, bytes (out x)).
Abbreviation dec := (dec_from table bits group out).

Lemma decode_loop_spec iq n ext (w : W) dd w0 p bm cap bs pre post st :
  bs = pre ++ post → ok iq n ext w → dd ∈ ext → evolves (eq bm) w0 w →
  lasting iq dd w0 (eq bm) p bs → w_oom w = [] → ∀ written, scratch bm cap written w →
  (∀ post1 o a, post1 `prefix_of` post → dec (ds_acc st) post1 = Some (o, a) →
     Z.of_nat (length (written ++ o)) ≤ cap) →
  wp (decode_loop table bits group out (length post) p (Z.of_nat (length pre))
        (PBuf bm (Z.of_nat (length written))) st)
     (λ r w', evolves (eq bm) w0 w' ∧ ok iq n ext w' ∧ w_oom w' = [] ∧
        ds_rv r.1.1 = ds_rv st ∧
        match dec (ds_acc st) post with
        | Some (o, a) => r.1.2 = PBuf bm (Z.of_nat (length (written ++ o))) ∧ r.2 = true ∧
            ds_acc r.1.1 = a ∧ scratch bm cap (written ++ o) w'
        | None => r.2 = false ∧ ∃ o, scratch bm cap o w'
        end) w.
Proof.
  revert pre w st. induction post as [|c post IH]; intros pre w st Hbs H Hdd Ev Hr Hoom written Hs Hcap.
  { simpl. wp_step. cbn [fst snd]. rewrite app_nil_r. done. }
  cbn [decode_loop length dec_from].
  assert (bs = (pre ++ [c]) ++ post) as Hbs' by by rewrite <- app_assoc.
  replace (Z.of_nat (length pre) + 1) with (Z.of_nat (length (pre ++ [c])))
    by (rewrite length_app; simpl; lia).
  wp_step. eapply region_load1; [by apply (Hr w n ext)|lia| |].
  { rewrite Nat2Z.id, Hbs. by apply list_lookup_middle. }
  destruct (is_blank c) eqn:Hblank.
  { apply IH; try done.
    intros post1 o a Hp Ho. apply (Hcap (c :: post1) o a); [by apply prefix_cons|].
    simpl. by rewrite Hblank. }
  unfold dec_ok. case_decide as Hbad.
  { wp_step. cbn [fst snd]. rewrite bool_decide_true by done. simpl. eauto 10. }
  rewrite bool_decide_false by done. cbn [negb].
  cbv zeta. set (st1 := DS _ _ _ (ds_rv st)).
  assert (dec_char table bits (ds_acc st) c = ds_acc st1) as Ea by done. rewrite Ea.
  set (cs := if decide (Z.land (ds_acc st1).1.2 (group - 1) = 0) then out (ds_acc st1).1.1 else []).
  assert (∀ post1 o a, post1 `prefix_of` post → dec (ds_acc st1) post1 = Some (o, a) →
    Z.of_nat (length ((written ++ cs) ++ o)) ≤ cap) as Hcap'.
  { intros post1 o a Hp Ho. rewrite <- app_assoc.
    apply (Hcap (c :: post1) (cs ++ o) a); [by apply prefix_cons|].
    cbn [dec_from]. rewrite Hblank. unfold dec_ok. rewrite bool_decide_false by done.
    cbn [negb]. rewrite Ea, Ho. done. }
  wp_step. eapply (wp_mono _ (λ q w1, q = PBuf bm (Z.of_nat (length (written ++ cs))) ∧
    ok iq n ext w1 ∧ evolves (eq bm) w w1 ∧ scratch bm cap (written ++ cs) w1)).
  { pose proof (Hcap' [] [] (ds_acc st1) (prefix_nil _) eq_refl) as Hc0.
    revert Hc0. unfold cs, st1, ds_acc. cbn [ds_x ds_count ds_pad fst snd].
    case_decide; intros Hc0; [|wp_step; by rewrite app_nil_r].
    eapply scratch_put; [done|done|apply Hout|].
    rewrite app_nil_r, length_app in Hc0. lia. }
  intros q w1 (-> & H1 & Ev1 & Hs1).
  eapply wp_mono; [eapply (IH (pre ++ [c]) w1 st1 Hbs' H1 Hdd); try done|].
  - by etrans.
  - by apply (e_oom _ _ _ Ev1).
  - intros r w2 (Ev2 & H2 & Hoom2 & Hrv & Hres). do 3 (split; [done|]). split; [done|].
    destruct (dec (ds_acc st1) post) as [[o a]|]; simpl; [|done].
    by rewrite <- app_assoc in Hres.
Qed.

(** *** The block applied to the only region *)

Context (iq : nat → Z) (Hiq : ∀ q, 1 ≤ iq q).
Context (dd : nat) (w0 : W) (n : Z) (ext : gmultiset nat) (d : dispatch_data_s).
Context (H0 : ok iq n ext w0) (Hdd : dd ∈ ext) (Hd : data_at w0 dd = Some d).
Abbreviation C := (contents w0 dd).
Context (Hone : (length (as_records dd d) ≤ 1)%nat) (Hn : n + 5 < INT_MAX).
Context (Hsize : 0 ≤ dest_size (Z.of_nat (length C)) < 2 ^ 64).
Context (Hcap : ∀ cs o a, cs `prefix_of` C → dec (0, 0, 0) cs = Some (o, a) →
  Z.of_nat (length o) ≤ dest_size (Z.of_nat (length C))).
Context (Hcut : ∀ o a, dec (0, 0, 0) C = Some (o, a) → 0 ≤ cut a.2 ≤ Z.of_nat (length o)).

Definition decoding (m : Z) (rv : nat) (w : W) : Prop :=
  w0 ⇝ w ∧ ok iq m (ext ⊎ {[+ rv +]}) w ∧ w_oom w = [].

Definition decoded (k : nat) (pre : list Z) (st : decode_state) (w : W) : Prop :=
  decoding (n + 5) (ds_rv st) w ∧
  match k with
  | O => pre = [] ∧ st = DS 0 0 0 dispatch_data_empty ∧ ok iq (n + 1) (ext ⊎ {[+ ds_rv st +]}) w
  | S _ => dec_all table bits group out cut pre = Some (contents w (ds_rv st))
  end.

Definition undecoded (st : decode_state) (w : W) : Prop :=
  dec_all table bits group out cut C = None ∧ decoding (n + 5) (ds_rv st) w.

Lemma scratch_prefix b cap cs cs' w :
  cs' `prefix_of` cs → scratch b cap cs w → scratch b cap cs' w.
Proof.
  intros [k ->] (? & ? & l & ? & ? & Ht). do 2 (split; [done|]). exists l. do 2 (split; [done|]).
  apply (f_equal (take (length cs'))) in Ht.
  rewrite take_take, take_app_length, length_app in Ht.
  by replace (length cs' `min` (length cs' + length k))%nat with (length cs') in Ht by lia.
Qed.

(** The decoded block becomes the value of [rv]. *)
Lemma decode_finish w bm cap o st rv :
  ok iq (n + 1) (ext ⊎ {[+ rv +]}) w → rv = dispatch_data_empty → w_oom w = [] →
  scratch bm cap o w → 0 ≤ cap < 2 ^ 64 → Z.of_nat (length o) ≤ cap →
  0 ≤ cut (ds_pad st) ≤ Z.of_nat (length o) →
  wp (val ← dispatch_data_create (PBuf bm 0)
              (u64 (Z.of_nat (length o) - cut (ds_pad st))) None DISPATCH_DATA_DESTRUCTOR_FREE;
      val ← try_opt "null data object" val;
      concat ← dispatch_data_create_concat rv val;
      _dispatch_data_release val;;
      _dispatch_data_release rv;;
      mret (DS (ds_x st) (ds_count st) (ds_pad st) concat, true))
    (λ r w', r.2 = true ∧ evolves (eq bm) w w' ∧ ok iq (n + 5) (ext ⊎ {[+ ds_rv r.1 +]}) w' ∧
       w_oom w' = [] ∧
       contents w' (ds_rv r.1) = take (Z.to_nat (Z.of_nat (length o) - cut (ds_pad st))) o) w.
Proof.
  intros H -> Hoom Hs Hc Ho Hp. set (o' := take (Z.to_nat (Z.of_nat (length o) - cut (ds_pad st))) o).
  assert (u64 (Z.of_nat (length o) - cut (ds_pad st)) = Z.of_nat (length o')) as ->.
  { unfold o'. rewrite length_take, wrapU_small by lia. lia. }
  assert (Z.of_nat (length o') ≤ Z.of_nat (length o)) as Hlo by (unfold o'; rewrite length_take; lia).
  wp_step. eapply wp_mono; [eapply scratch_seal; [exact H| |exact Hc|lia]|].
  { eapply scratch_prefix; [|exact Hs]. apply prefix_take. }
  intros r w1 (val & -> & H1 & Ev1 & Hc1 & Hr1).
  destruct (ok_ext _ _ _ _ val H1) as [dv Hdv]; [ms_in|].
  pose proof (ok_empty _ _ _ _ H1) as Hde. pose proof (contents_length _ _ _ _ _ _ H1 Hdv) as Hlv.
  assert (num_records dv ≤ 1) as Hnv.
  { specialize (Hr1 dv Hdv). unfold as_records in Hr1. unfold num_records.
    destruct (leaf dv) eqn:Hl; [|lia].
    destruct (ok_leaf _ _ _ _ _ _ H1 Hdv Hl) as ((_ & _ & ? & ? & ? & -> & _) & _). simpl. lia. }
  wp_step. eapply wp_try_opt; [done|]. wp_step.
  eapply wp_mono; [eapply (concat_spec iq _ _ w1 dispatch_data_empty val); [exact H1|exact Hde|exact Hdv| |]|].
  { rewrite <- Hlv, Hc1. simpl. lia. } { unfold num_records at 1. simpl. lia. }
  intros cat w2 (H2 & Ev2 & _ & Hc2 & _). unfold num_records at 1 in H2. simpl in H2.
  wp_step. eapply wp_mono; [eapply (release_spec iq Hiq 1 _ _ ∅ w2 val); [exact H2|ms_in]|].
  intros _ w3 (H3 & Ev3).
  wp_step. eapply wp_mono; [eapply (release_spec iq Hiq 1 _ _ ∅ w3 dispatch_data_empty); [exact H3|rewrite ms_take_mid; ms_in]|].
  intros _ w4 (H4 & Ev4). wp_step. cbn [fst snd ds_rv].
  assert ((ext ⊎ {[+ dispatch_data_empty +]} ⊎ {[+ val +]} ⊎ {[+ cat +]}) ∖ {[+ val +]} ∖
    {[+ dispatch_data_empty +]} = ext ⊎ {[+ cat +]}) as Eext by by rewrite ms_take_mid, ms_take2.
  rewrite Eext in H4. assert (w2 ⇝ w4) as Ev24 by by etrans.
  destruct (kept _ _ _ _ _ _ w2 w4 cat H2 H4 Ev24) as (_ & Hc4 & _); [ms_in..|].
  split; [done|]. split; [etrans; [exact Ev1|apply evolves_none; by etrans]|].
  split; [eapply ok_weaken; [exact H4|lia]|]. split.
  - by apply (e_oom _ _ _ Ev24), (e_oom _ _ _ Ev2), (e_oom _ _ _ Ev1).
  - rewrite Hc4, Hc2, Hc1. unfold contents. rewrite Hde. done.
Qed.

Lemma decode_step k pre bs post st w ro p :
  (k < length (as_records dd d))%nat → (S k = length (as_records dd d) → post = []) →
  C = pre ++ bs ++ post → decoded k pre st w → lasting iq dd w0 none p bs →
  wp (decode_applier table bits group out cut dest_size st ro (Z.of_nat (length pre)) p
        (Z.of_nat (length bs)))
     (λ xr w', if xr.2 then decoded (S k) (pre ++ bs) xr.1 w' else undecoded xr.1 w') w.
Proof.
  intros Hk Hpost Hc [(Ev & Hok & Hoom) Hst] Hr. assert (k = 0%nat) as -> by lia.
  destruct Hst as (-> & -> & H). rewrite Hpost, app_nil_l, app_nil_r in Hc by lia.
  cbn [app ds_rv] in *. unfold decode_applier. rewrite <- Hc at 1.
  wp_step. eapply wp_mono; [eapply scratch_new; [exact H|done|apply Hsize]|].
  intros q w1 (-> & H1 & Ev1 & Hoom1 & Eo1 & Hs1). rewrite decide_False by done.
  set (bm := w_next w) in *. rewrite Nat2Z.id. rewrite <- Hc in *.
  wp_step. eapply wp_mono.
  { eapply (decode_loop_spec iq _ _ w1 dd w1 p bm _ C [] C (DS 0 0 0 dispatch_data_empty)
      eq_refl H1) with (written := []); [ms_in|done| |done|done|].
    - intros w' n' ext' Ev' H' Hdd'. apply (Hr w' n' ext'); [|done|done].
      eapply evolves_fresh; [|etrans; [exact Ev|exact Ev1]|exact Ev']. intros b <-.
      pose proof (e_next _ _ _ Ev). unfold bm. lia.
    - intros cs o a Hp Ho. by apply (Hcap cs o a). }
  intros [[st2 q] good] w2 (Ev2 & H2 & Hoom2 & Hrv & Hres). cbn [fst snd ds_rv] in *.
  assert (w0 ⇝ w2) as Ev02.
  { eapply evolves_fresh; [|etrans; [exact Ev|exact Ev1]|exact Ev2]. intros b <-.
    pose proof (e_next _ _ _ Ev). unfold bm. lia. }
  pose proof decode_finish as Hfinish. pose proof Hcut as Hpads. pose proof Hcap as Hcaps.
  change (ds_acc (DS 0 0 0 dispatch_data_empty)) with ((0, 0, 0) : acc) in Hres.
  destruct (dec (0, 0, 0) C) as [[o a]|] eqn:Ed.
  - destruct Hres as (-> & -> & Ha & Hs2). cbn [negb app] in *.
    assert (a.2 = ds_pad st2) as Epad by by rewrite <- Ha.
    pose proof (Hpads o a eq_refl) as Hpad. rewrite Epad in Hpad.
    cbn [ptr_diff]. rewrite Z.sub_0_r, Hrv.
    eapply wp_mono; [eapply (Hfinish w2 bm _ o st2); try done|].
    { by apply (Hcaps C o a). }
    intros [st3 b] w3 (Hb & Ev3 & H3 & Hoom3 & Hc3). cbn [fst snd] in *. subst b.
    split; [split; [|done]|].
    + eapply evolves_fresh; [|exact Ev02|exact Ev3]. intros b <-.
      pose proof (e_next _ _ _ Ev). unfold bm. lia.
    + unfold dec_all. rewrite Ed, Hc3. simpl. by rewrite Epad.
  - destruct Hres as (-> & o & Hs2). cbn [negb].
    pose proof Hs2 as (Hlt & Hu & l & Hl & _).
    destruct (ok_free _ _ _ _ bm H2 Hu) as (H3 & Ev3).
    wp_step. unfold free, wp. rewrite Hl. cbn [fst snd]. split.
    + unfold dec_all. by rewrite Ed.
    + unfold decoding. cbn [fst]. rewrite Hrv. split; [|split; [|done]].
      * eapply evolves_fresh; [|exact Ev02|exact Ev3]. intros b <-.
        pose proof (e_next _ _ _ Ev). unfold bm. lia.
      * eapply ok_weaken; [exact H3|lia].
Qed.

Lemma decode_spec (Hoom : w_oom w0 = []) :
  wp (decode table bits group out cut dest_size dd)
     (λ r w', w0 ⇝ w' ∧
        match dec_all table bits group out cut C with
        | Some bs => ∃ o, r = Some o ∧ ok iq (n + 5) (ext ⊎ {[+ o +]}) w' ∧ contents w' o = bs
        | None => r = None ∧ ok iq (n + 5) ext w'
        end) w0.
Proof.
  unfold decode. wp_step.
  destruct (empty_post iq n ext w0 0 H0) as (He & _ & Hce & _); [lia|].
  eapply wp_mono.
  { eapply (apply_spec _ iq dd w0 n ext d H0 Hdd Hd decoded undecoded none); [done| | |].
    - intros k pre x w ((Ev & Hok & _) & _). split; [done|].
      exists (n + 5), (ext ⊎ {[+ ds_rv x +]}). split; [done|]. ms_in.
    - intros k pre bs post x w ro p Hk Hp Hc _ HI Hr. by eapply decode_step.
    - split; [|by split_and!].
      split; [done|]. split; [eapply ok_weaken; [exact He|lia]|done]. }
  intros [st [|]] w; unfold apply_post; cbn [fst snd negb].
  - intros (k & Hk & (Ev & H & _) & Hst). wp_step. split; [done|]. destruct k as [|k].
    + destruct Hst as (-> & -> & _). simpl. eexists. split; [done|]. split; [done|].
      unfold contents. rewrite (ok_empty _ _ _ _ H), take_nil. done.
    + rewrite Hst. by eexists.
  - intros (-> & Ev & H & _).
    wp_step. eapply wp_mono; [eapply (release_spec iq Hiq 1 _ _ ∅ w (ds_rv st)); [exact H|ms_in]|].
    intros _ w2 (H2 & Ev2). wp_step. split; [by etrans|]. split; [done|].
    assert ((ext ⊎ {[+ ds_rv st +]}) ∖ {[+ ds_rv st +]} = ext) as Eext by by rewrite ?ms_take3, ?ms_take2, ?ms_take.
    rewrite Eext in H2. eapply ok_weaken; [exact H2|lia].
Qed.
End Decode.
