(* ===== verification/BaseCodec.v ===== *)
(** * Base 32 and base 64 on lists: RFC 4648

    The reference encoding of RFC 4648 in arithmetic, the proof that the list
    functions of the two encoders compute it, and that the list functions of
    the two decoders invert it. *)

From S2P Require Import Prelude Object Data DataInv DataSpec DataOps Transform TransformSpec BaseEncode BaseDecode.

(** ** Digits *)

(** The [n] lowest digits of [v] in base [b], the most significant first. *)
Fixpoint digits (b : Z) (n : nat) (v : Z) : list Z :=
  match n with O => [] | S n => digits b n (v / b) ++ [v mod b] end.

Definition undigits (b : Z) (ds : list Z) : Z := foldl (λ v d, v * b + d) 0 ds.

Lemma digits_length b n v : length (digits b n v) = n.
Proof. revert v. induction n; intros v; simpl; [done|]. rewrite length_app, IHn. simpl. lia. Qed.

Lemma undigits_snoc b ds d : undigits b (ds ++ [d]) = undigits b ds * b + d.
Proof. unfold undigits. by rewrite foldl_app. Qed.

Lemma undigits_digits b n v : 0 < b → 0 ≤ v < b ^ Z.of_nat n → undigits b (digits b n v) = v.
Proof.
  intros Hb. revert v. induction n as [|n IH]; intros v Hv.
  { change (b ^ Z.of_nat 0) with 1 in Hv. unfold undigits. simpl. lia. }
  rewrite Nat2Z.inj_succ, Z.pow_succ_r in Hv by lia.
  cbn [digits]. rewrite undigits_snoc, IH.
  - rewrite (Z.div_mod v b) at 3 by lia. lia.
  - split; [apply Z.div_pos; lia|]. apply Z.div_lt_upper_bound; lia.
Qed.

Lemma digits_undigits b ds :
  Forall (λ d, 0 ≤ d < b) ds → digits b (length ds) (undigits b ds) = ds.
Proof.
  induction ds as [|d ds IH] using rev_ind; [done|].
  intros [Hds Hd]%Forall_app. rewrite Forall_singleton in Hd.
  rewrite length_app, Nat.add_1_r. cbn [digits].
  rewrite undigits_snoc, Z.div_add_l by lia.
  rewrite (Z.div_small d b) by lia. rewrite Z.add_0_r.
  rewrite IH by done. do 2 f_equal. rewrite Z.add_comm, Z_mod_plus_full. apply Z.mod_small. lia.
Qed.

Lemma digits_range b n v : 0 < b → Forall (λ d, 0 ≤ d < b) (digits b n v).
Proof.
  intros Hb. revert v. induction n as [|n IH]; intros v; simpl; [constructor|].
  apply Forall_app. split; [done|]. apply Forall_singleton. by apply Z.mod_pos_bound.
Qed.

Lemma undigits_range b ds :
  0 < b → Forall (λ d, 0 ≤ d < b) ds → 0 ≤ undigits b ds < b ^ Z.of_nat (length ds).
Proof.
  intros Hb. induction ds as [|d ds IH] using rev_ind; [unfold undigits; simpl; lia|].
  intros [Hds Hd]%Forall_app. rewrite Forall_singleton in Hd. specialize (IH Hds).
  rewrite undigits_snoc, length_app, Nat.add_1_r, Nat2Z.inj_succ, Z.pow_succ_r by lia. nia.
Qed.

(** ** RFC 4648 *)

Section Rfc.
(** Bits of a character; bytes and characters of a group; the alphabet. *)
Context (bits : Z) (gb gc : nat) (alphabet : list Z).

(** The number of characters that carry bits of [n] bytes. *)
Definition rfc_used (n : nat) : nat := Z.to_nat ((8 * Z.of_nat n + bits - 1) / bits).

(** One group, of [gb] bytes or fewer: the bits of the bytes, with zero bits
    on the right, cut into characters, and ['='] for the rest. *)
Definition rfc_group (bs : list Z) : list Z :=
  let v := undigits 256 (bs ++ replicate (gb - length bs) 0) in
  let used := rfc_used (length bs) in
  take used (tbl alphabet <$> digits (2 ^ bits) gc v) ++ replicate (gc - used) 61.

Fixpoint rfc_groups (fuel : nat) (bs : list Z) : list Z :=
  match fuel, bs with
  | S fuel, _ :: _ => rfc_group (take gb bs) ++ rfc_groups fuel (drop gb bs)
  | _, _ => []
  end.

Definition rfc4648 (bs : list Z) : list Z := rfc_groups (length bs) bs.

Lemma rfc_groups_fuel n m bs :
  (0 < gb)%nat → (length bs ≤ n)%nat → (length bs ≤ m)%nat → rfc_groups n bs = rfc_groups m bs.
Proof.
  intros Hg. revert m bs. induction n as [|n IH]; intros m bs Hn Hm.
  { destruct bs; [by destruct m|simpl in *; lia]. }
  destruct bs as [|b bs]; [by destruct m|]. destruct m as [|m]; [simpl in *; lia|].
  cbn [rfc_groups]. f_equal. apply IH; rewrite length_drop; simpl in *; lia.
Qed.

Lemma rfc4648_cons bs :
  (0 < gb)%nat → bs ≠ [] → rfc4648 bs = rfc_group (take gb bs) ++ rfc4648 (drop gb bs).
Proof.
  intros Hg Hbs. unfold rfc4648. destruct bs as [|b bs]; [done|]. cbn [length rfc_groups].
  f_equal. apply rfc_groups_fuel; [done|rewrite length_drop; simpl; lia|done].
Qed.
End Rfc.

Definition base64_rfc : list Z → list Z := rfc4648 6 3 4 base64_encode_table.
Definition base32_rfc : list Z → list Z := rfc4648 5 5 8 base32_encode_table.

Example rfc_man : base64_rfc [77; 97; 110; 77] = [84; 87; 70; 117; 84; 81; 61; 61].
Proof. reflexivity. Qed.
Example rfc_foob : base32_rfc [102; 111; 111; 98] = [77; 90; 88; 87; 54; 89; 81; 61].
Proof. reflexivity. Qed.

(** ** The bit operations of the encoders *)

(** Two bit fields next to each other. *)
Lemma lor_fields k a b : 0 ≤ k → 0 ≤ b < 2 ^ k → Z.lor (Z.shiftl a k) b = a * 2 ^ k + b.
Proof.
  intros Hk Hb. assert (Z.land (Z.shiftl a k) b = 0) as E.
  { apply Z.bits_inj'. intros i Hi. rewrite Z.land_spec, Z.bits_0.
    destruct (Z.lt_ge_cases i k).
    - by rewrite Z.shiftl_spec_low by lia.
    - rewrite <- (Z.mod_small b (2 ^ k)) by lia.
      by rewrite Z.mod_pow2_bits_high, andb_false_r by lia. }
  rewrite <- Z.lxor_lor, <- Z.add_nocarry_lxor by done. by rewrite Z.shiftl_mul_pow2.
Qed.

(** The final masks keep the low bits of the last byte at the top. *)
Lemma land_shifted k m x : 0 ≤ k → Z.land (Z.shiftl x k) (Z.shiftl m k) = Z.shiftl (Z.land x m) k.
Proof. intros. by rewrite Z.shiftl_land. Qed.

Definition byte (x : Z) : Prop := 0 ≤ x < 256.

Lemma chr64_full x : chr64 x 0x3f = tbl base64_encode_table (x mod 64).
Proof. unfold chr64. by rewrite (land_mask 6). Qed.

Lemma chr32_full x : chr32 x 0x1f = tbl base32_encode_table (x mod 32).
Proof. unfold chr32. by rewrite (land_mask 5). Qed.

(** The character that straddles two bytes. *)
Lemma straddle k a b : 0 < k ≤ 8 → byte b →
  Z.lor (Z.shiftl a k) (Z.shiftr b (8 - k)) = a * 2 ^ k + b / 2 ^ (8 - k).
Proof.
  intros Hk Hb. rewrite Z.shiftr_div_pow2 by lia. apply lor_fields; [lia|].
  unfold byte in Hb. split; [apply Z.div_pos; lia|]. apply Z.div_lt_upper_bound; [lia|].
  rewrite <- Z.pow_add_r by lia. replace (8 - k + k) with 8 by lia. lia.
Qed.

Lemma final_field k m x : 0 ≤ k → 0 ≤ m →
  Z.land (Z.shiftl x k) (Z.shiftl (2 ^ m - 1) k) = x mod 2 ^ m * 2 ^ k.
Proof. intros. rewrite land_shifted, land_mask, Z.shiftl_mul_pow2 by lia. done. Qed.

Lemma count_next g c i : 0 < g → c mod g = 0 → 0 ≤ i < g → (c + i) mod g = i.
Proof. intros Hg Hc Hi. rewrite Z.add_mod, Hc, Z.add_0_l, Z.mod_mod by lia. by apply Z.mod_small. Qed.

Lemma last_app (l k : list Z) d d' : k ≠ [] → List.last (l ++ k) d = List.last k d'.
Proof.
  intros Hk. induction l as [|x l IH]; simpl.
  - destruct k as [|y k] using rev_ind; [done|]. by rewrite !List.last_last.
  - destruct (l ++ k) eqn:E; [by apply app_nil in E as [_ ?]|done].
Qed.

Lemma enc_final_app g final pre rest :
  0 < g → Z.of_nat (length pre) mod g = 0 → enc_final g final (pre ++ rest) = enc_final g final rest.
Proof.
  intros Hg Hp. unfold enc_final. rewrite length_app, Nat2Z.inj_add, Z.add_mod, Hp, Z.add_0_l by lia.
  rewrite Z.mod_mod by lia. case_decide as Hk; [done|]. rewrite (last_app _ _ 0 0); [done|].
  intros ->. by apply Hk, Z.mod_0_l.
Qed.

(** Equal lists of characters of the table [t]: the indices are equal. *)
Ltac same_chars t :=
  repeat (apply (f_equal2 (@cons Z)); [first [done | apply (f_equal (tbl t)); mlia]|]).

(** *** Base 64 *)

Section Base64.
Abbreviation T := (tbl base64_encode_table).
Abbreviation enc64 := (enc_from 3 base64_step).
Abbreviation rfc64 := (rfc_group 6 3 4 base64_encode_table).

Lemma step64_0 l c : base64_step 0 l c = [T (c / 4 mod 64)].
Proof. change (base64_step 0 l c) with [chr64 (Z.shiftr c 2) 0x3f]. by rewrite chr64_full, Z.shiftr_div_pow2. Qed.

Lemma step64_1 l c : byte c → base64_step 1 l c = [T ((l * 16 + c / 16) mod 64)].
Proof.
  intros. change (base64_step 1 l c) with [chr64 (Z.lor (Z.shiftl l 4) (Z.shiftr c (8 - 4))) 0x3f].
  by rewrite chr64_full, straddle.
Qed.

Lemma step64_2 l c : byte c → base64_step 2 l c = [T ((l * 4 + c / 64) mod 64); T (c mod 64)].
Proof.
  intros. change (base64_step 2 l c) with
    [chr64 (Z.lor (Z.shiftl l 2) (Z.shiftr c (8 - 2))) 0x3f; chr64 c 0x3f].
  by rewrite !chr64_full, straddle.
Qed.

Lemma final64_1 l : base64_final 1 l = [T (l mod 4 * 16); 61; 61].
Proof.
  change (base64_final 1 l) with
    [T (Z.land (Z.shiftl l 4) (Z.shiftl (2 ^ 2 - 1) 4)); 61; 61]. by rewrite final_field.
Qed.

Lemma final64_2 l : base64_final 2 l = [T (l mod 16 * 4); 61].
Proof.
  change (base64_final 2 l) with
    [T (Z.land (Z.shiftl l 2) (Z.shiftl (2 ^ 4 - 1) 2)); 61]. by rewrite final_field.
Qed.

(** The characters of a group whose bytes have the value [v]. *)
Definition chars64 (v : Z) : list Z :=
  [T (v / 64 / 64 / 64 mod 64); T (v / 64 / 64 mod 64); T (v / 64 mod 64); T (v mod 64)].

Lemma enc64_group count last a b c bs :
  count mod 3 = 0 → byte a → byte b → byte c →
  enc64 count last (a :: b :: c :: bs) = rfc64 [a; b; c] ++ enc64 (count + 3) c bs.
Proof.
  unfold byte. intros Hc Ha Hb Hcc. cbn [enc_from].
  rewrite <- !Z.add_assoc, Hc, !count_next by lia. change (1 + 1) with 2.
  rewrite step64_0, step64_1, step64_2 by done.
  change (rfc64 [a; b; c]) with (chars64 (((0 * 256 + a) * 256 + b) * 256 + c)).
  change (if decide (1 ≠ 0) then a else 0) with a.
  change (if decide (2 ≠ 0) then b else 0) with b.
  unfold chars64. cbn [app]. same_chars base64_encode_table. done.
Qed.

Lemma enc64_one count last a :
  count mod 3 = 0 → byte a → enc64 count last [a] ++ base64_final 1 a = rfc64 [a].
Proof.
  unfold byte. intros Hc Ha. cbn [enc_from]. rewrite Hc, step64_0, final64_1.
  change (rfc64 [a]) with (take 2 (chars64 (((0 * 256 + a) * 256 + 0) * 256 + 0)) ++ [61; 61]).
  unfold chars64. cbn [app take]. same_chars base64_encode_table. done.
Qed.

Lemma enc64_two count last a b :
  count mod 3 = 0 → byte a → byte b →
  enc64 count last [a; b] ++ base64_final 2 b = rfc64 [a; b].
Proof.
  unfold byte. intros Hc Ha Hb. cbn [enc_from]. rewrite Hc, count_next by lia.
  rewrite step64_0, step64_1, final64_2 by done.
  change (rfc64 [a; b]) with (take 3 (chars64 (((0 * 256 + a) * 256 + b) * 256 + 0)) ++ [61]).
  change (if decide (1 ≠ 0) then a else 0) with a.
  unfold chars64. cbn [app take]. same_chars base64_encode_table. done.
Qed.

Lemma enc64_rfc n count last bs :
  (length bs ≤ n)%nat → count mod 3 = 0 → bytes bs →
  enc64 count last bs ++ enc_final 3 base64_final bs = base64_rfc bs.
Proof.
  revert count last bs. induction n as [|n IH]; intros count last bs Hn Hc Hbs.
  { destruct bs; [done|simpl in Hn; lia]. }
  destruct bs as [|a [|b [|c bs]]]; [done| | |].
  - apply Forall_cons in Hbs as [Ha _]. change (base64_rfc [a]) with (rfc64 [a] ++ []).
    rewrite app_nil_r. exact (enc64_one count last a Hc Ha).
  - apply Forall_cons in Hbs as [Ha [Hb _]%Forall_cons].
    change (base64_rfc [a; b]) with (rfc64 [a; b] ++ []).
    rewrite app_nil_r. exact (enc64_two count last a b Hc Ha Hb).
  - apply Forall_cons in Hbs as [Ha [Hb [Hcc Hbs]%Forall_cons]%Forall_cons].
    rewrite enc64_group by done. change (a :: b :: c :: bs) with ([a; b; c] ++ bs).
    rewrite enc_final_app, <- app_assoc by done.
    unfold base64_rfc. rewrite rfc4648_cons by (lia || done).
    change (take 3 ([a; b; c] ++ bs)) with [a; b; c]. f_equal.
    change (drop 3 ([a; b; c] ++ bs)) with bs. apply IH; [simpl in Hn; lia| |done].
    rewrite Z.add_mod, Hc by lia. done.
Qed.

Lemma enc64_all bs : bytes bs → enc_all 3 base64_step base64_final bs = base64_rfc bs.
Proof. intros. by apply (enc64_rfc (length bs)). Qed.
End Base64.

(** *** Base 32 *)

Section Base32.
Abbreviation T := (tbl base32_encode_table).
Abbreviation enc32 := (enc_from 5 base32_step).
Abbreviation rfc32 := (rfc_group 5 5 8 base32_encode_table).

Lemma step32_0 l c : base32_step 0 l c = [T (c / 8 mod 32)].
Proof.
  change (base32_step 0 l c) with [chr32 (Z.shiftr c 3) 0x1f].
  by rewrite chr32_full, Z.shiftr_div_pow2.
Qed.

Lemma step32_1 l c :
  byte c → base32_step 1 l c = [T ((l * 4 + c / 64) mod 32); T (c / 2 mod 32)].
Proof.
  intros. change (base32_step 1 l c) with
    [chr32 (Z.lor (Z.shiftl l 2) (Z.shiftr c (8 - 2))) 0x1f; chr32 (Z.shiftr c 1) 0x1f].
  by rewrite !chr32_full, straddle, Z.shiftr_div_pow2.
Qed.

Lemma step32_2 l c : byte c → base32_step 2 l c = [T ((l * 16 + c / 16) mod 32)].
Proof.
  intros. change (base32_step 2 l c) with
    [chr32 (Z.lor (Z.shiftl l 4) (Z.shiftr c (8 - 4))) 0x1f].
  by rewrite chr32_full, straddle.
Qed.

Lemma step32_3 l c :
  byte c → base32_step 3 l c = [T ((l * 2 + c / 128) mod 32); T (c / 4 mod 32)].
Proof.
  intros. change (base32_step 3 l c) with
    [chr32 (Z.lor (Z.shiftl l 1) (Z.shiftr c (8 - 1))) 0x1f; chr32 (Z.shiftr c 2) 0x1f].
  by rewrite !chr32_full, straddle, Z.shiftr_div_pow2.
Qed.

Lemma step32_4 l c :
  byte c → base32_step 4 l c = [T ((l * 8 + c / 32) mod 32); T (c mod 32)].
Proof.
  intros. change (base32_step 4 l c) with
    [chr32 (Z.lor (Z.shiftl l 3) (Z.shiftr c (8 - 3))) 0x1f; chr32 c 0x1f].
  by rewrite !chr32_full, straddle.
Qed.

Lemma final32_1 l : base32_final 1 l = T (l mod 8 * 4) :: replicate 6 61.
Proof.
  change (base32_final 1 l) with (T (Z.land (Z.shiftl l 2) (Z.shiftl (2 ^ 3 - 1) 2)) :: replicate 6 61).
  by rewrite final_field.
Qed.

Lemma final32_2 l : base32_final 2 l = T (l mod 2 * 16) :: replicate 4 61.
Proof.
  change (base32_final 2 l) with (T (Z.land (Z.shiftl l 4) (Z.shiftl (2 ^ 1 - 1) 4)) :: replicate 4 61).
  by rewrite final_field.
Qed.

Lemma final32_3 l : base32_final 3 l = T (l mod 16 * 2) :: replicate 3 61.
Proof.
  change (base32_final 3 l) with (T (Z.land (Z.shiftl l 1) (Z.shiftl (2 ^ 4 - 1) 1)) :: replicate 3 61).
  by rewrite final_field.
Qed.

Definition chars32 (v : Z) : list Z :=
  [T (v / 32 / 32 / 32 / 32 / 32 / 32 / 32 mod 32); T (v / 32 / 32 / 32 / 32 / 32 / 32 mod 32);
   T (v / 32 / 32 / 32 / 32 / 32 mod 32); T (v / 32 / 32 / 32 / 32 mod 32);
   T (v / 32 / 32 / 32 mod 32); T (v / 32 / 32 mod 32); T (v / 32 mod 32); T (v mod 32)].

Definition value5 (a b c d e : Z) : Z :=
  ((((0 * 256 + a) * 256 + b) * 256 + c) * 256 + d) * 256 + e.

Lemma value5_quotients a b c d e :
  byte a → byte b → byte c → byte d → byte e →
  chars32 (value5 a b c d e) =
  [T (a / 8 mod 32); T ((a * 4 + b / 64) mod 32); T (b / 2 mod 32); T ((b * 16 + c / 16) mod 32);
   T ((c * 2 + d / 128) mod 32); T (d / 4 mod 32); T ((d * 8 + e / 32) mod 32); T (e mod 32)].
Proof.
  unfold byte, chars32, value5. intros. rewrite !Z.div_div by lia. cbn [Z.mul Pos.mul].
  same_chars base32_encode_table. done.
Qed.

(** The steps of a group that starts at [count]. *)
Ltac steps32 Hc :=
  cbn [enc_from]; rewrite <- ?Z.add_assoc, Hc, ?count_next by lia;
  cbn [Z.add Pos.add Pos.succ]; rewrite step32_0, ?step32_1, ?step32_2, ?step32_3, ?step32_4 by done;
  repeat match goal with
  | |- context [if decide (?i ≠ 0) then ?x else 0] =>
      change (if decide (i ≠ 0) then x else 0) with x
  end.

Lemma enc32_group count last a b c d e bs :
  count mod 5 = 0 → byte a → byte b → byte c → byte d → byte e →
  enc32 count last (a :: b :: c :: d :: e :: bs) =
  rfc32 [a; b; c; d; e] ++ enc32 (count + 5) e bs.
Proof.
  intros Hc Ha Hb Hcc Hd He. steps32 Hc.
  change (rfc32 [a; b; c; d; e]) with (chars32 (value5 a b c d e)).
  by rewrite value5_quotients.
Qed.

Lemma byte_0 : byte 0.
Proof. unfold byte. lia. Qed.
Hint Resolve byte_0 : core.

Lemma enc32_one count last a :
  count mod 5 = 0 → byte a → enc32 count last [a] ++ base32_final 1 a = rfc32 [a].
Proof.
  intros Hc Ha. steps32 Hc. rewrite final32_1.
  change (rfc32 [a]) with (take 2 (chars32 (value5 a 0 0 0 0)) ++ replicate 6 61).
  rewrite value5_quotients by done. cbn [app take replicate]. unfold byte in *.
  same_chars base32_encode_table. done.
Qed.

Lemma enc32_two count last a b :
  count mod 5 = 0 → byte a → byte b →
  enc32 count last [a; b] ++ base32_final 2 b = rfc32 [a; b].
Proof.
  intros Hc Ha Hb. steps32 Hc. rewrite final32_2.
  change (rfc32 [a; b]) with (take 4 (chars32 (value5 a b 0 0 0)) ++ replicate 4 61).
  rewrite value5_quotients by done. cbn [app take replicate]. unfold byte in *.
  same_chars base32_encode_table. done.
Qed.

Lemma enc32_three count last a b c :
  count mod 5 = 0 → byte a → byte b → byte c →
  enc32 count last [a; b; c] ++ base32_final 3 c = rfc32 [a; b; c].
Proof.
  intros Hc Ha Hb Hcc. steps32 Hc. rewrite final32_3.
  change (rfc32 [a; b; c]) with (take 5 (chars32 (value5 a b c 0 0)) ++ replicate 3 61).
  rewrite value5_quotients by done. cbn [app take replicate]. unfold byte in *.
  same_chars base32_encode_table. done.
Qed.

Lemma enc32_rfc n count last bs :
  (length bs ≤ n)%nat → count mod 5 = 0 → bytes bs → Z.of_nat (length bs) mod 5 ≠ 4 →
  enc32 count last bs ++ enc_final 5 base32_final bs = base32_rfc bs.
Proof.
  revert count last bs. induction n as [|n IH]; intros count last bs Hn Hc Hbs Hl.
  { destruct bs; [done|simpl in Hn; lia]. }
  destruct bs as [|a [|b [|c [|d [|e bs]]]]]; [done| | | |by simpl in Hl|].
  - apply Forall_cons in Hbs as [Ha _]. change (base32_rfc [a]) with (rfc32 [a] ++ []).
    rewrite app_nil_r. exact (enc32_one count last a Hc Ha).
  - apply Forall_cons in Hbs as [Ha [Hb _]%Forall_cons].
    change (base32_rfc [a; b]) with (rfc32 [a; b] ++ []).
    rewrite app_nil_r. exact (enc32_two count last a b Hc Ha Hb).
  - apply Forall_cons in Hbs as [Ha [Hb [Hcc _]%Forall_cons]%Forall_cons].
    change (base32_rfc [a; b; c]) with (rfc32 [a; b; c] ++ []).
    rewrite app_nil_r. exact (enc32_three count last a b c Hc Ha Hb Hcc).
  - apply Forall_cons in Hbs as [Ha [Hb [Hcc [Hd [He Hbs]%Forall_cons]%Forall_cons]%Forall_cons]%Forall_cons].
    rewrite enc32_group by done. change (a :: b :: c :: d :: e :: bs) with ([a; b; c; d; e] ++ bs).
    rewrite enc_final_app, <- app_assoc by done.
    unfold base32_rfc. rewrite rfc4648_cons by (lia || done).
    change (take 5 ([a; b; c; d; e] ++ bs)) with [a; b; c; d; e]. f_equal.
    change (drop 5 ([a; b; c; d; e] ++ bs)) with bs. apply IH; [simpl in Hn; lia| |done|].
    + rewrite Z.add_mod, Hc by lia. done.
    + simpl length in Hl. intros E. apply Hl. mlia.
Qed.

(** All but the inputs whose last group has four bytes, for which the last
    character is taken from the wrong bits. *)
Lemma enc32_all bs :
  bytes bs → Z.of_nat (length bs) mod 5 ≠ 4 → enc_all 5 base32_step base32_final bs = base32_rfc bs.
Proof. intros. by apply (enc32_rfc (length bs)). Qed.

Example enc32_foob :
  enc_all 5 base32_step base32_final [102; 111; 111; 98] = [77; 90; 88; 87; 54; 89; 65; 61].
Proof. reflexivity. Qed.
End Base32.

(** ** Decoding *)

Lemma digits_add b m k v : 0 < b → digits b (m + k) v = digits b m (v / b ^ Z.of_nat k) ++ digits b k v.
Proof.
  intros Hb. revert v. induction k as [|k IH]; intros v.
  { rewrite Nat.add_0_r, app_nil_r. change (b ^ Z.of_nat 0) with 1. by rewrite Z.div_1_r. }
  rewrite Nat.add_succ_r. cbn [digits]. rewrite IH, <- app_assoc, Z.div_div by lia.
  by rewrite Nat2Z.inj_succ, Z.pow_succ_r by lia.
Qed.

Lemma digits_multiple b k u : 0 < b → digits b k (u * b ^ Z.of_nat k) = replicate k 0.
Proof.
  intros Hb. induction k as [|k IH]; [done|]. cbn [digits].
  rewrite Nat2Z.inj_succ, Z.pow_succ_r, (Z.mul_comm b), Z.mul_assoc by lia.
  rewrite Z.div_mul, Z_mod_mult, IH by lia. by rewrite replicate_S_end.
Qed.

Lemma undigits_app b ds es :
  undigits b (ds ++ es) = undigits b ds * b ^ Z.of_nat (length es) + undigits b es.
Proof.
  induction es as [|e es IH] using rev_ind.
  { rewrite app_nil_r. unfold undigits at 3. simpl. lia. }
  rewrite app_assoc, !undigits_snoc, IH, length_app, Nat.add_1_r, Nat2Z.inj_succ, Z.pow_succ_r by lia.
  ring.
Qed.

Lemma undigits_zeros b k : undigits b (replicate k 0) = 0.
Proof. induction k as [|k IH]; [done|]. rewrite replicate_S_end, undigits_snoc, IH. lia. Qed.

Lemma digits_mod b n v : 0 < b → digits b n (v mod b ^ Z.of_nat n) = digits b n v.
Proof.
  intros Hb. revert v. induction n as [|n IH]; intros v; [done|]. cbn [digits].
  rewrite Nat2Z.inj_succ, Z.pow_succ_r by lia. f_equal.
  - rewrite <- (IH (v / b)), <- IH. f_equal. rewrite Z.rem_mul_r by lia.
    rewrite Z.mul_comm, Z.div_add by lia. rewrite (Z.div_small (v mod b)) by (apply Z.mod_pos_bound; lia).
    rewrite Z.add_0_l. by rewrite Z.mod_mod by lia.
  - f_equal. apply Z.mod_mod_divide. by exists (b ^ Z.of_nat n); rewrite Z.mul_comm.
Qed.

Section Decoder.
Context (bits : Z) (gb gc : nat) (alphabet table : list Z) (out : Z → list Z) (cut : Z → Z).
Context (Hbits : 0 < bits) (Hgc : (0 < gc)%nat) (Hgb : (0 < gb)%nat)
  (Hsame : bits * Z.of_nat gc = 8 * Z.of_nat gb) (Hword : bits * Z.of_nat gc ≤ 64).
Context (Hmask : ∀ x, Z.land x (Z.of_nat gc - 1) = x mod Z.of_nat gc) (Hgc64 : (Z.of_nat gc | 2 ^ 64)).
Context (Hout : ∀ x, out x = digits 256 gb x).

(** The character [c] stands for the value [v], and counts [p] as padding. *)
Definition is_char (c v p : Z) : Prop :=
  is_blank c = false ∧ dec_ok table c = true ∧ 0 ≤ v < 2 ^ bits ∧
  (tbl table c = v ∧ p = 0 ∨ tbl table c = -2 ∧ v = 0 ∧ p = 1).

Context (Halpha : ∀ k, 0 ≤ k < 2 ^ bits → is_char (tbl alphabet k) k 0) (Hpad : is_char 61 0 1).
Abbreviation dec := (dec_from table bits (Z.of_nat gc) out).

Definition push (x v : Z) : Z := u64 (u64 (Z.shiftl x bits) + v).

Lemma dec_one x n pd c v p cs :
  is_char c v p → 0 ≤ pd → pd + 1 < 2 ^ 64 →
  dec (x, n, pd) (c :: cs) =
  '(bs, a) ← dec (push x v, u64 (n + 1), pd + p) cs;
  Some ((if decide ((n + 1) mod Z.of_nat gc = 0) then out (push x v) else []) ++ bs, a).
Proof.
  intros (Hb & Hok & Hv & Hc) H0 H1. cbn [dec_from]. rewrite Hb, Hok.
  assert (dec_char table bits (x, n, pd) c = (push x v, u64 (n + 1), pd + p)) as ->.
  { unfold dec_char, push. destruct Hc as [[-> ->]|(-> & -> & ->)].
    - rewrite !decide_False by lia. by rewrite Z.add_0_r.
    - rewrite !decide_True by done. by rewrite (wrapU_small 64 (pd + 1)) by lia. }
  cbn [fst snd]. rewrite Hmask.
  assert (u64 (n + 1) mod Z.of_nat gc = (n + 1) mod Z.of_nat gc) as ->; [|done].
  by apply Z.mod_mod_divide.
Qed.

Lemma u64_mod j y : 0 ≤ j ≤ 64 → u64 y mod 2 ^ j = y mod 2 ^ j.
Proof.
  intros Hj. apply Z.mod_mod_divide.
  exists (2 ^ (64 - j)). rewrite <- Z.pow_add_r by lia. f_equal. lia.
Qed.

(** The low bits of the accumulator are the digits pushed last. *)
Lemma push_all x vs :
  Forall (λ v, 0 ≤ v < 2 ^ bits) vs → bits * Z.of_nat (length vs) ≤ 64 →
  foldl push x vs mod 2 ^ (bits * Z.of_nat (length vs)) = undigits (2 ^ bits) vs.
Proof.
  induction vs as [|v vs IH] using rev_ind; intros Hv Hl.
  { simpl. rewrite Z.mul_0_r. apply Z.mod_1_r. }
  apply Forall_app in Hv as [Hvs Hv]. rewrite Forall_singleton in Hv.
  rewrite length_app in *. simpl in Hl. rewrite Nat.add_1_r, Nat2Z.inj_succ in *.
  rewrite foldl_app, undigits_snoc, <- IH by (done || lia). simpl. unfold push at 1.
  set (k := bits * Z.of_nat (length vs)) in *.
  replace (bits * Z.succ (Z.of_nat (length vs))) with (k + bits) by lia.
  rewrite u64_mod, Z.add_mod, u64_mod, <- Z.add_mod by lia.
  rewrite Z.shiftl_mul_pow2, Z.pow_add_r by lia.
  set (X := foldl push x vs). rewrite (Z.mul_comm (2 ^ k)).
  assert (0 < 2 ^ k ∧ 0 < 2 ^ bits) as [H1 H2] by lia.
  rewrite (Z.div_mod X (2 ^ k)) at 1 by lia.
  rewrite (Z.mul_comm (2 ^ k) (X / 2 ^ k)).
  replace ((X / 2 ^ k * 2 ^ k + X mod 2 ^ k) * 2 ^ bits + v)
    with (X mod 2 ^ k * 2 ^ bits + v + X / 2 ^ k * (2 ^ bits * 2 ^ k)) by ring.
  rewrite Z_mod_plus_full. apply Z.mod_small.
  pose proof (Z.mod_pos_bound X (2 ^ k)). nia.
Qed.

(** The characters [cs] stand for the digits [vs], [q] of them padding. *)
Inductive spells : list Z → list Z → Z → Prop :=
  | spells_nil : spells [] [] 0
  | spells_cons c v p cs vs q :
      is_char c v p → spells cs vs q → spells (c :: cs) (v :: vs) (p + q).

Lemma spells_app cs vs q cs' vs' q' :
  spells cs vs q → spells cs' vs' q' → spells (cs ++ cs') (vs ++ vs') (q + q').
Proof.
  induction 1 as [|c v p cs vs q Hc _ IH]; intros H'; [done|].
  rewrite <- Z.add_assoc. constructor; auto.
Qed.

Lemma spells_alphabet vs : Forall (λ v, 0 ≤ v < 2 ^ bits) vs → spells (tbl alphabet <$> vs) vs 0.
Proof.
  induction 1 as [|v vs Hv _ IH]; [constructor|]. change 0 with (0 + 0). constructor; auto.
Qed.

Lemma spells_padding k : spells (replicate k 61) (replicate k 0) (Z.of_nat k).
Proof.
  induction k as [|k IH]; [constructor|].
  replace (Z.of_nat (S k)) with (1 + Z.of_nat k) by lia. by constructor.
Qed.

Lemma spells_facts cs vs q :
  spells cs vs q → length vs = length cs ∧ Forall (λ v, 0 ≤ v < 2 ^ bits) vs ∧
    0 ≤ q ≤ Z.of_nat (length cs).
Proof.
  induction 1 as [|c v p cs vs q (_ & _ & Hv & Hp) _ (IH1 & IH2 & IH3)]; [done|].
  simpl. split_and!; [lia|by constructor|lia|lia].
Qed.

(** A group is decoded at once, at its last character. *)
Lemma dec_spells cs vs q :
  spells cs vs q → ∀ x n pd rest, cs ≠ [] → (length cs ≤ gc)%nat →
  (n + Z.of_nat (length cs)) mod Z.of_nat gc = 0 → 0 ≤ pd →
  pd + Z.of_nat (length cs) < 2 ^ 64 →
  ∃ n', n' mod Z.of_nat gc = 0 ∧
    dec (x, n, pd) (cs ++ rest) =
    '(bs, a) ← dec (foldl push x vs, n', pd + q) rest; Some (out (foldl push x vs) ++ bs, a).
Proof.
  induction 1 as [|c v p cs vs q Hc Hcs IH]; intros x n pd rest Hne Hl Hn Hpd Hpd'; [done|].
  cbn [length app foldl] in *. rewrite (dec_one x n pd c v p) by (done || lia).
  assert (0 ≤ p ≤ 1) as Hp by (destruct Hc as (_ & _ & _ & Hc); lia).
  assert (u64 (n + 1) mod Z.of_nat gc = (n + 1) mod Z.of_nat gc) as Eu by by apply Z.mod_mod_divide.
  destruct cs as [|c' cs].
  - inversion Hcs; subst. rewrite Z.add_0_r. exists (u64 (n + 1)).
    simpl length in Hn. change (Z.of_nat 1) with 1 in Hn.
    rewrite decide_True by done. split; [by rewrite Eu|done].
  - rewrite decide_False.
    + destruct (IH (push x v) (u64 (n + 1)) (pd + p) rest) as (n' & Hn' & ->); [done|lia| |lia|lia|].
      { rewrite Z.add_mod, Eu, <- Z.add_mod by lia.
        replace (n + 1 + Z.of_nat (length (c' :: cs))) with (n + Z.of_nat (S (length (c' :: cs)))) by lia.
        done. }
      exists n'. split; [done|]. rewrite Z.add_assoc.
      destruct (dec _ rest) as [[bs a]|]; done.
    + intros E. replace (n + Z.of_nat (S (length (c' :: cs)))) with (n + 1 + Z.of_nat (length (c' :: cs))) in Hn by lia.
      rewrite Z.add_mod, E, Z.add_0_l, Z.mod_mod, Z.mod_small in Hn by (simpl in *; lia).
      simpl in Hn. lia.
Qed.

Abbreviation used := (rfc_used bits).

Lemma used_bound n : (0 < n ≤ gb)%nat →
  (0 < used n ≤ gc)%nat ∧ bits * Z.of_nat (gc - used n) ≤ 8 * Z.of_nat (gb - n).
Proof.
  intros Hn. unfold rfc_used.
  pose proof (Z.div_mod (8 * Z.of_nat n + bits - 1) bits).
  pose proof (Z.mod_pos_bound (8 * Z.of_nat n + bits - 1) bits).
  set (u := (8 * Z.of_nat n + bits - 1) / bits) in *. nia.
Qed.

(** The bits past the bytes of a group are zero. *)
Lemma group_digits bs :
  bytes bs → (0 < length bs ≤ gb)%nat →
  let v := undigits 256 (bs ++ replicate (gb - length bs) 0) in
  let k := (gc - used (length bs))%nat in
  digits (2 ^ bits) gc v = digits (2 ^ bits) (used (length bs)) (v / (2 ^ bits) ^ Z.of_nat k) ++ replicate k 0.
Proof.
  intros Hbs Hl v k. destruct (used_bound _ Hl) as [Hu Hk]. fold k in Hk.
  replace gc with (used (length bs) + k)%nat at 1 by lia.
  assert (0 < 2 ^ bits) by lia. rewrite digits_add by done. f_equal.
  unfold v. rewrite undigits_app, undigits_zeros, Z.add_0_r, length_replicate.
  rewrite <- (digits_multiple (2 ^ bits) k
    (undigits 256 bs * 2 ^ (8 * Z.of_nat (gb - length bs) - bits * Z.of_nat k))) by done.
  f_equal. rewrite <- Z.mul_assoc. f_equal.
  change 256 with (2 ^ 8). rewrite <- !Z.pow_mul_r, <- Z.pow_add_r by lia. f_equal. lia.
Qed.

Lemma dec_rfc_group bs x n pd rest :
  bytes bs → (0 < length bs ≤ gb)%nat → n mod Z.of_nat gc = 0 → 0 ≤ pd → pd + Z.of_nat gc < 2 ^ 64 →
  ∃ x' n', n' mod Z.of_nat gc = 0 ∧
    dec (x, n, pd) (rfc_group bits gb gc alphabet bs ++ rest) =
    '(bs', a) ← dec (x', n', pd + Z.of_nat (gc - used (length bs))) rest;
    Some ((bs ++ replicate (gb - length bs) 0) ++ bs', a).
Proof.
  intros Hbs Hl Hn Hpd Hpd'. unfold rfc_group.
  set (v := undigits 256 (bs ++ replicate (gb - length bs) 0)).
  pose proof (group_digits bs Hbs Hl) as Hd. cbv zeta in Hd. fold v in Hd.
  destruct (used_bound _ Hl) as [Hu _]. assert (0 < 2 ^ bits) as HD by lia.
  set (k := (gc - used (length bs))%nat) in *.
  set (hi := digits (2 ^ bits) (used (length bs)) _) in Hd.
  assert (length hi = used (length bs)) as Hhi by apply digits_length.
  rewrite Hd, fmap_app, take_app_length' by by rewrite length_fmap.
  assert (spells ((tbl alphabet <$> hi) ++ replicate k 61) (hi ++ replicate k 0) (0 + Z.of_nat k)) as Hs.
  { apply spells_app; [by apply spells_alphabet, digits_range|apply spells_padding]. }
  pose proof (spells_facts _ _ _ Hs) as (Hlen & Hrange & _).
  assert (length ((tbl alphabet <$> hi) ++ replicate k 61) = gc) as Hgl
    by (rewrite length_app, length_fmap, length_replicate; lia).
  destruct (dec_spells _ _ _ Hs x n pd rest) as (n' & Hn' & E); [|lia| |lia|lia|].
  { intros E. rewrite E in Hgl. simpl in Hgl. lia. }
  { rewrite Hgl, Z.add_mod, Hn, Z.add_0_l, Z.mod_mod, Z.mod_same by lia. done. }
  eexists _, n'. split; [done|]. rewrite E, Z.add_0_l. clear E.
  enough (out (foldl push x (hi ++ replicate k 0)) = bs ++ replicate (gb - length bs) 0) as -> by done.
  rewrite <- Hd in *. rewrite Hgl in Hlen.
  assert (length (bs ++ replicate (gb - length bs) 0) = gb) as Hbl
    by (rewrite length_app, length_replicate; lia).
  assert (bytes (bs ++ replicate (gb - length bs) 0)) as Hb0.
  { apply Forall_app. split; [done|]. apply Forall_replicate. lia. }
  rewrite Hout, <- digits_mod by lia. change 256 with (2 ^ 8) at 2.
  rewrite <- Z.pow_mul_r by lia.
  replace (8 * Z.of_nat gb) with (bits * Z.of_nat (length (digits (2 ^ bits) gc v))) by lia.
  rewrite push_all by (done || lia).
  rewrite undigits_digits.
  - rewrite <- Hbl at 1. by apply digits_undigits.
  - done.
  - rewrite <- Z.pow_mul_r, Hsame by lia. rewrite Z.pow_mul_r by lia.
    pose proof (undigits_range 256 _ ltac:(lia) Hb0) as Hv. by rewrite Hbl in Hv.
Qed.

Context (Hcut : ∀ n, (0 < n ≤ gb)%nat → cut (Z.of_nat (gc - used n)) = Z.of_nat (gb - n)) (Hcut0 : cut 0 = 0).

Lemma used_full : used gb = gc.
Proof. destruct (used_bound gb) as [? H]; [lia|]. rewrite Nat.sub_diag in H. nia. Qed.

Lemma dec_rfc bs x n :
  bytes bs → n mod Z.of_nat gc = 0 → Z.of_nat gc < 2 ^ 64 →
  ∃ x' n' p k, dec (x, n, 0) (rfc4648 bits gb gc alphabet bs) = Some (bs ++ replicate k 0, (x', n', p)) ∧
    cut p = Z.of_nat k ∧ (bs = [] → k = 0%nat).
Proof.
  intros Hbs Hn Hg. remember (length bs) as m eqn:Hm. revert bs x n Hbs Hn Hm.
  induction (lt_wf m) as [m _ IH]. intros bs x n Hbs Hn Hm.
  destruct (decide (bs = [])) as [->|Hne].
  { exists x, n, 0, 0%nat. done. }
  assert (0 < length bs)%nat by (destruct bs; [done|simpl; lia]).
  rewrite rfc4648_cons by done.
  destruct (dec_rfc_group (take gb bs) x n 0 (rfc4648 bits gb gc alphabet (drop gb bs)))
    as (x1 & n1 & Hn1 & ->); [by apply Forall_take|rewrite length_take; lia|done|lia|lia|].
  rewrite length_take, Z.add_0_l. destruct (decide (length bs ≤ gb)%nat) as [Hle|Hgt].
  - rewrite Nat.min_r, take_ge, drop_ge by lia. cbn. rewrite app_nil_r.
    eexists _, _, _, _. split; [done|]. split; [apply Hcut; lia|done].
  - rewrite Nat.min_l, used_full, !Nat.sub_diag by lia. change (Z.of_nat 0) with 0.
    rewrite app_nil_r.
    destruct (IH (length (drop gb bs))) with (bs := drop gb bs) (x := x1) (n := n1) as (x2 & n2 & p & k & -> & Hk & _);
      [rewrite length_drop; lia|by apply Forall_drop|done|done|].
    exists x2, n2, p, k. split; [|done]. cbn. by rewrite app_assoc, take_drop.
Qed.

(** Decoding inverts the encoding of RFC 4648. *)
Lemma decode_rfc bs :
  bytes bs → Z.of_nat gc < 2 ^ 64 →
  dec_all table bits (Z.of_nat gc) out cut (rfc4648 bits gb gc alphabet bs) = Some bs.
Proof.
  intros Hbs Hg. destruct (dec_rfc bs 0 0 Hbs) as (x & n & p & k & E & Hk & _); [by apply Z.mod_0_l; lia|done|].
  unfold dec_all. rewrite E. cbn. rewrite Hk, length_app, length_replicate. f_equal.
  apply take_app_length'. lia.
Qed.

(** Every byte costs at least the characters of its bits. *)
Lemma dec_from_length cs : ∀ x n pd bs a, 0 ≤ n → n + Z.of_nat (length cs) < 2 ^ 64 →
  dec (x, n, pd) cs = Some (bs, a) →
  Z.of_nat gc * Z.of_nat (length bs) ≤ Z.of_nat gb * (n mod Z.of_nat gc + Z.of_nat (length cs)).
Proof.
  induction cs as [|c cs IH]; intros x n pd bs a Hn Hmax E; cbn [dec_from length] in *.
  { injection E as <- _. pose proof (Z.mod_pos_bound n (Z.of_nat gc)). simpl. nia. }
  destruct (is_blank c).
  { apply IH in E; [nia|lia|lia]. }
  destruct (dec_ok table c); [|done].
  unfold dec_char in E. set (x1 := u64 _) in E. set (p1 := if decide _ then _ else pd) in E.
  rewrite (wrapU_small 64 (n + 1)) in E by lia. cbn [fst snd] in E.
  destruct (dec (x1, n + 1, p1) cs) as [[bs' a']|] eqn:E'; [|done]. simpl in E. injection E as <- _.
  apply IH in E'; [|lia|lia]. rewrite Hmask, length_app.
  pose proof (Z.mod_pos_bound n (Z.of_nat gc)). pose proof (Z.mod_pos_bound (n + 1) (Z.of_nat gc)).
  assert (length (out x1) = gb) as Ho by by rewrite Hout, digits_length.
  assert ((n + 1) mod Z.of_nat gc = 0 ∧ n mod Z.of_nat gc = Z.of_nat gc - 1 ∨
          (n + 1) mod Z.of_nat gc = n mod Z.of_nat gc + 1) as Hcase.
  { rewrite (Z.div_mod n (Z.of_nat gc)) at 1 3 by lia.
    destruct (decide (n mod Z.of_nat gc = Z.of_nat gc - 1)) as [Hm|Hm].
    - left. split; [|done]. rewrite Hm.
      replace (Z.of_nat gc * (n / Z.of_nat gc) + (Z.of_nat gc - 1) + 1)
        with (0 + (n / Z.of_nat gc + 1) * Z.of_nat gc) by ring.
      rewrite Z_mod_plus_full. apply Z.mod_0_l. lia.
    - right. replace (Z.of_nat gc * (n / Z.of_nat gc) + n mod Z.of_nat gc + 1)
        with (n mod Z.of_nat gc + 1 + n / Z.of_nat gc * Z.of_nat gc) by ring.
      rewrite Z_mod_plus_full. apply Z.mod_small. lia. }
  destruct Hcase as [[Hc Hc']|Hc]; case_decide; simpl; nia.
Qed.
End Decoder.
