(* ===== verification/BaseSpec.v ===== *)
(** * Specifications of the base 32 and base 64 conversions *)

From S2P Require Import Prelude Object Data DataInv DataRefs DataBuild DataSpec DataOps DataApply Transform TransformSpec BaseEncode BaseDecode BaseCodec.

(** ** Tables *)

Definition table_ok (bits : Z) (table alphabet : list Z) : bool :=
  forallb (λ i, let c := tbl alphabet (Z.of_nat i) in
    negb (is_blank c) && dec_ok table c && (tbl table c =? Z.of_nat i) && (0 <=? c) && (c <? 256))
    (seq 0 (Z.to_nat (2 ^ bits))).

Lemma table_ok_char bits table alphabet k :
  table_ok bits table alphabet = true → 0 ≤ k < 2 ^ bits →
  is_char bits table (tbl alphabet k) k 0 ∧ 0 ≤ tbl alphabet k < 256.
Proof.
  unfold table_ok. rewrite forallb_forall. intros H Hk.
  specialize (H (Z.to_nat k)). rewrite Z2Nat.id in H by lia.
  assert (In (Z.to_nat k) (seq 0 (Z.to_nat (2 ^ bits)))) as Hin by (apply in_seq; lia).
  specialize (H Hin). rewrite !andb_true_iff, negb_true_iff in H.
  destruct H as ((((H1 & H2) & H3%Z.eqb_eq) & H4%Z.leb_le) & H5%Z.ltb_lt).
  split; [|lia]. split_and!; [done|done|lia|lia|left; lia].
Qed.

Lemma table64_ok : table_ok 6 base64_decode_table base64_encode_table = true.
Proof. reflexivity. Qed.
Lemma table32_ok : table_ok 5 base32_decode_table base32_encode_table = true.
Proof. reflexivity. Qed.

Lemma chr64_byte x m : 0 ≤ m < 64 → byte (chr64 x m).
Proof.
  intros Hm. apply (table_ok_char 6 base64_decode_table base64_encode_table _ table64_ok).
  assert (0 ≤ Z.land x m) by (apply Z.land_nonneg; lia).
  split; [done|]. change (2 ^ 6) with (Z.succ (Z.ones 6)).
  rewrite <- (Z.mod_small m (2 ^ 6)) by done. rewrite <- Z.land_ones, Z.land_assoc, Z.land_ones by lia.
  pose proof (Z.mod_pos_bound (Z.land x m) (2 ^ 6)). change (Z.ones 6) with 63. lia.
Qed.

Lemma chr32_byte x m : 0 ≤ m < 32 → byte (chr32 x m).
Proof.
  intros Hm. apply (table_ok_char 5 base32_decode_table base32_encode_table _ table32_ok).
  assert (0 ≤ Z.land x m) by (apply Z.land_nonneg; lia).
  split; [done|]. change (2 ^ 5) with (Z.succ (Z.ones 5)).
  rewrite <- (Z.mod_small m (2 ^ 5)) by done. rewrite <- Z.land_ones, Z.land_assoc, Z.land_ones by lia.
  pose proof (Z.mod_pos_bound (Z.land x m) (2 ^ 5)). change (Z.ones 5) with 31. lia.
Qed.

Lemma pad_byte : byte 61.
Proof. unfold byte. lia. Qed.

Ltac all_bytes :=
  repeat first [ apply Forall_nil_2 | apply Forall_cons; split
               | apply chr64_byte; lia | apply chr32_byte; lia | exact pad_byte ].

Lemma base64_step_bytes k l c : bytes (base64_step k l c).
Proof. unfold base64_step. repeat case_decide; all_bytes. Qed.
Lemma base64_final_bytes k l : bytes (base64_final k l).
Proof. unfold base64_final. repeat case_decide; all_bytes. Qed.
Lemma base32_step_bytes k l c : bytes (base32_step k l c).
Proof. unfold base32_step. repeat case_decide; all_bytes. Qed.
Lemma base32_final_bytes k l : bytes (base32_final k l).
Proof. unfold base32_final. repeat case_decide; all_bytes. Qed.

(** ** Lengths *)

Lemma rfc_group_length bits gb gc alphabet bs :
  (rfc_used bits (length bs) ≤ gc)%nat → length (rfc_group bits gb gc alphabet bs) = gc.
Proof.
  intros. unfold rfc_group. rewrite length_app, length_take, length_fmap, digits_length, length_replicate.
  lia.
Qed.

Lemma rfc4648_length bits gb gc alphabet bs :
  (0 < gb)%nat → (∀ n, (0 < n ≤ gb)%nat → (rfc_used bits n ≤ gc)%nat) →
  Z.of_nat (length (rfc4648 bits gb gc alphabet bs)) =
  Z.of_nat gc * ((Z.of_nat (length bs) + Z.of_nat gb - 1) / Z.of_nat gb).
Proof.
  intros Hg Hu. remember (length bs) as m eqn:Hm. revert bs Hm.
  induction (lt_wf m) as [m _ IH]. intros bs ->.
  destruct (decide (bs = [])) as [->|Hne].
  { simpl. rewrite Z.div_small by lia. lia. }
  assert (0 < length bs)%nat by (destruct bs; [done|simpl; lia]).
  rewrite rfc4648_cons, length_app, rfc_group_length by (try done; rewrite length_take; apply Hu; lia).
  rewrite Nat2Z.inj_add, (IH (length (drop gb bs))) by (try done; rewrite length_drop; lia).
  rewrite length_drop. destruct (decide (length bs ≤ gb)%nat).
  - replace (length bs - gb)%nat with 0%nat by lia.
    rewrite (Z.div_small (Z.of_nat 0 + _ - 1)) by lia.
    replace (Z.of_nat (length bs) + Z.of_nat gb - 1) with (Z.of_nat (length bs) - 1 + 1 * Z.of_nat gb) by lia.
    rewrite Z.div_add, Z.div_small by lia. lia.
  - replace (Z.of_nat (length bs) + Z.of_nat gb - 1)
      with (Z.of_nat (length bs - gb) + Z.of_nat gb - 1 + 1 * Z.of_nat gb) by lia.
    rewrite Z.div_add by lia. lia.
Qed.

Lemma base64_rfc_length bs :
  Z.of_nat (length (base64_rfc bs)) = 4 * ((Z.of_nat (length bs) + 2) / 3).
Proof.
  unfold base64_rfc. rewrite rfc4648_length.
  - do 2 f_equal. lia.
  - lia.
  - intros n Hn. unfold rfc_used. assert ((8 * Z.of_nat n + 6 - 1) / 6 ≤ 4) by mlia. lia.
Qed.

Lemma base32_rfc_length bs :
  Z.of_nat (length (base32_rfc bs)) = 8 * ((Z.of_nat (length bs) + 4) / 5).
Proof.
  unfold base32_rfc. rewrite rfc4648_length.
  - do 2 f_equal. lia.
  - lia.
  - intros n Hn. unfold rfc_used. assert ((8 * Z.of_nat n + 5 - 1) / 5 ≤ 8) by mlia. lia.
Qed.

Lemma base64_dest_size_ok n : 0 ≤ n → (n + 2) * 4 < 2 ^ 64 → base64_dest_size n = 4 * ((n + 2) / 3).
Proof.
  intros. unfold base64_dest_size. rewrite (wrapU_small 64 (n + 2)) by lia.
  rewrite wrapU_small by lia. mlia.
Qed.

Lemma base32_dest_size_ok n : 0 ≤ n → (n + 4) * 8 < 2 ^ 64 → base32_dest_size n = 8 * ((n + 4) / 5).
Proof.
  intros. unfold base32_dest_size. rewrite (wrapU_small 64 (n + 4)) by lia.
  rewrite wrapU_small by lia. mlia.
Qed.

(** ** The instances of the generic decoder *)

Lemma byte_at_digit x k : 0 ≤ k → byte_at x k = x / 2 ^ k mod 256.
Proof.
  intros. unfold byte_at. change 0xff with (Z.ones 8).
  by rewrite Z.land_ones, Z.shiftr_div_pow2 by lia.
Qed.

Lemma base64_out_digits x : base64_out x = digits 256 3 x.
Proof. unfold base64_out. rewrite !byte_at_digit by lia. cbn [digits app]. rewrite !Z.div_div by lia.
  change (2 ^ 0) with 1. by rewrite Z.div_1_r. Qed.

Lemma base32_out_digits x : base32_out x = digits 256 5 x.
Proof. unfold base32_out. rewrite !byte_at_digit by lia. cbn [digits app]. rewrite !Z.div_div by lia.
  change (2 ^ 0) with 1. by rewrite Z.div_1_r. Qed.

Lemma mask_pow2 g k x : 0 ≤ k → g = 2 ^ k → Z.land x (g - 1) = x mod g.
Proof. intros ? ->. by apply land_mask. Qed.

Lemma pad_char64 : is_char 6 base64_decode_table 61 0 1.
Proof. split_and!; [done..|lia|done|right; done]. Qed.
Lemma pad_char32 : is_char 5 base32_decode_table 61 0 1.
Proof. split_and!; [done..|lia|done|right; done]. Qed.

Abbreviation dec64 := (dec_from base64_decode_table 6 4 base64_out).
Abbreviation dec32 := (dec_from base32_decode_table 5 8 base32_out).

(** What the decoders compute, as functions on lists. *)
Definition base64_decode : list Z → option (list Z) :=
  dec_all base64_decode_table 6 4 base64_out base64_cut.
Definition base32_decode : list Z → option (list Z) :=
  dec_all base32_decode_table 5 8 base32_out base32_cut.

Lemma base64_decode_rfc bs : bytes bs → base64_decode (base64_rfc bs) = Some bs.
Proof.
  intros Hbs. unfold base64_decode, base64_rfc.
  apply (decode_rfc 6 3 4 base64_encode_table base64_decode_table base64_out base64_cut); try done; try lia.
  - intros x. by apply (mask_pow2 _ 2).
  - by exists (2 ^ 62).
  - apply base64_out_digits.
  - intros k Hk. by apply table_ok_char, Hk.
  - apply pad_char64.
  - intros n Hn. assert (n = 1 ∨ n = 2 ∨ n = 3)%nat as [->|[->| ->]] by lia; done.
Qed.

Lemma base32_decode_rfc bs : bytes bs → base32_decode (base32_rfc bs) = Some bs.
Proof.
  intros Hbs. unfold base32_decode, base32_rfc.
  apply (decode_rfc 5 5 8 base32_encode_table base32_decode_table base32_out base32_cut); try done; try lia.
  - intros x. by apply (mask_pow2 _ 3).
  - by exists (2 ^ 61).
  - apply base32_out_digits.
  - intros k Hk. by apply table_ok_char, Hk.
  - apply pad_char32.
  - intros n Hn. assert (n = 1 ∨ n = 2 ∨ n = 3 ∨ n = 4 ∨ n = 5)%nat as [->|[->|[->|[->| ->]]]] by lia; done.
Qed.

Lemma dec64_length cs o a :
  Z.of_nat (length cs) < 2 ^ 64 → dec64 (0, 0, 0) cs = Some (o, a) →
  4 * Z.of_nat (length o) ≤ 3 * Z.of_nat (length cs).
Proof.
  intros Hl H. apply (dec_from_length 6 3 4 base64_decode_table base64_out) in H; try done; try lia.
  - intros x. by apply (mask_pow2 _ 2).
  - apply base64_out_digits.
Qed.

Lemma dec32_length cs o a :
  Z.of_nat (length cs) < 2 ^ 64 → dec32 (0, 0, 0) cs = Some (o, a) →
  8 * Z.of_nat (length o) ≤ 5 * Z.of_nat (length cs).
Proof.
  intros Hl H. apply (dec_from_length 5 5 8 base32_decode_table base32_out) in H; try done; try lia.
  - intros x. by apply (mask_pow2 _ 3).
  - apply base32_out_digits.
Qed.

(** The padding does not claim more bytes than were decoded. *)
Definition well_padded (dec : option (list Z * acc)) (cut : Z → Z) : Prop :=
  ∀ o a, dec = Some (o, a) → 0 ≤ cut a.2 ≤ Z.of_nat (length o).

(** ** Decoding as RFC 4648 says it

    Without the tables and the shifts of the program. *)

(** Table 1 of the RFC; a padding character takes the place of a zero. *)
Definition char64 (c : Z) : option Z :=
  if (65 <=? c) && (c <=? 90) then Some (c - 65)
  else if (97 <=? c) && (c <=? 122) then Some (c - 97 + 26)
  else if (48 <=? c) && (c <=? 57) then Some (c - 48 + 52)
  else if c =? 43 then Some 62
  else if c =? 47 then Some 63
  else if c =? 61 then Some 0
  else None.

(** The characters that are not white space, and the padding among them. *)
Definition significant (cs : list Z) : list Z := List.filter (λ c, negb ((c =? 9) || (c =? 10) || (c =? 32))) cs.
Definition padding (cs : list Z) : nat := length (List.filter (λ c, c =? 61) cs).

(** Four digits of six bits are three bytes; digits that do not fill a group
    are dropped. *)
Definition group64 (d1 d2 d3 d4 : Z) : list Z :=
  let v := ((d1 * 64 + d2) * 64 + d3) * 64 + d4 in [v / 65536; v / 256 mod 256; v mod 256].

Fixpoint groups64 (ds : list Z) : list Z :=
  match ds with
  | d1 :: d2 :: d3 :: d4 :: ds => group64 d1 d2 d3 d4 ++ groups64 ds
  | _ => []
  end.

(** Each padding character takes one byte off the end. *)
Definition rfc4648_decode64 (cs : list Z) : option (list Z) :=
  ds ← mapM char64 (significant cs);
  Some (take (length (groups64 ds) - padding cs) (groups64 ds)).

Abbreviation six d := (0 ≤ d < 64).

Lemma group64_digits d1 d2 d3 d4 :
  six d1 → six d2 → six d3 → six d4 → group64 d1 d2 d3 d4 = digits 256 3 (undigits 64 [d1; d2; d3; d4]).
Proof.
  intros. unfold group64, undigits. cbn [foldl digits app]. rewrite Z.mul_0_l, Z.add_0_l.
  set (v := ((d1 * 64 + d2) * 64 + d3) * 64 + d4). assert (0 ≤ v < 16777216) by (unfold v; lia).
  rewrite Z.div_div by lia. change (256 * 256) with 65536. do 2 f_equal. clearbody v. symmetry. apply Z.mod_small. mlia.
Qed.

Lemma groups64_length ds : length (groups64 ds) = (3 * (length ds / 4))%nat.
Proof.
  assert (∀ n ds, (length ds < 4 * n)%nat → length (groups64 ds) = (3 * (length ds / 4))%nat) as H; [|by apply (H (S (length ds))); lia].
  clear. induction n as [|n IH]; intros ds Hn; [lia|].
  destruct ds as [|d1 [|d2 [|d3 [|d4 ds]]]]; [done..|]. cbn [groups64 length] in *. rewrite length_app, IH by lia.
  replace (S (S (S (S (length ds))))) with (length ds + 1 * 4)%nat by lia. rewrite Nat.div_add by lia. simpl. lia.
Qed.

(** The table of the program is that of the RFC. *)
Definition table_is_rfc (i : nat) : bool :=
  let c := Z.of_nat i in
  is_blank c ||
  match char64 c with
  | Some v => dec_ok base64_decode_table c && (0 <=? v) && (v <? 64) && (tbl base64_decode_table c =? if c =? 61 then -2 else v)
  | None => negb (dec_ok base64_decode_table c)
  end.

Lemma table64_rfc c :
  is_blank c = false →
  match char64 c with
  | Some v => is_char 6 base64_decode_table c v (if c =? 61 then 1 else 0)
  | None => dec_ok base64_decode_table c = false
  end.
Proof.
  intros Hb. destruct (decide (0 ≤ c < 123)) as [Hc|Hc].
  - assert (forallb table_is_rfc (seq 0 123) = true) as H by (vm_compute; reflexivity). rewrite forallb_forall in H.
    specialize (H (Z.to_nat c) ltac:(apply in_seq; lia)). unfold table_is_rfc in H. rewrite Z2Nat.id, Hb in H by lia. cbn [orb] in H.
    destruct (char64 c) as [v|] eqn:Ec; [|by apply negb_true_iff].
    rewrite !andb_true_iff in H. destruct H as (((H1 & H2%Z.leb_le) & H3%Z.ltb_lt) & H4%Z.eqb_eq).
    split_and!; [done|done|lia|change (2 ^ 6) with 64; lia|]. destruct (Z.eqb_spec c 61) as [->|]; [right|left]; split_and!; try done.
    by injection Ec as <-.
  - replace (char64 c) with (@None Z).
    + unfold dec_ok. apply negb_false_iff, bool_decide_eq_true. change (Z.of_nat (length base64_decode_table)) with 123.
      destruct (decide (c < 0)); [right|left; lia]. unfold tbl. by replace (Z.to_nat c) with 0%nat by lia.
    + unfold char64. repeat match goal with |- context [if ?b then _ else _] => destruct b eqn:?; [exfalso; lia|] end. done.
Qed.

Lemma significant_cons c cs : significant (c :: cs) = if is_blank c then significant cs else c :: significant cs.
Proof.
  unfold significant, is_blank. cbn [List.filter]. by destruct (c =? 9), (c =? 10), (c =? 32).
Qed.

Lemma padding_cons c cs : Z.of_nat (padding (c :: cs)) = (if c =? 61 then 1 else 0) + Z.of_nat (padding cs).
Proof. unfold padding. cbn [List.filter]. destruct (c =? 61); [cbn [length]; lia|done]. Qed.

Lemma groups64_short vs : (length vs < 4)%nat → groups64 vs = [].
Proof. destruct vs as [|? [|? [|? [|? ?]]]]; simpl; [done..|lia]. Qed.

(** The loop, with the digits [vs] of a group that is not full. *)
Lemma dec64_groups cs : ∀ x vs n pd,
  Forall (λ v, 0 ≤ v < 2 ^ 6) vs → (length vs < 4)%nat → n mod 4 = Z.of_nat (length vs) → 0 ≤ pd → pd + Z.of_nat (length cs) < 2 ^ 64 →
  match mapM char64 (significant cs) with
  | Some ds => ∃ x' n', dec64 (foldl (push 6) x vs, n, pd) cs = Some (groups64 (vs ++ ds), (x', n', pd + Z.of_nat (padding cs)))
  | None => dec64 (foldl (push 6) x vs, n, pd) cs = None
  end.
Proof.
  induction cs as [|c cs IH]; intros x vs n pd Hvs Hl Hn Hpd Hmax; cbn [length] in Hmax.
  { cbn. rewrite app_nil_r, groups64_short, Z.add_0_r by done. by eexists _, _. }
  rewrite significant_cons, padding_cons. destruct (is_blank c) eqn:Hb.
  { assert (c =? 61 = false) as -> by (unfold is_blank in Hb; lia). cbn [dec_from]. rewrite Hb. apply IH; try done. lia. }
  pose proof (table64_rfc c Hb) as Hc. cbn [mapM]. destruct (char64 c) as [v|] eqn:Ec; [|cbn [dec_from]; by rewrite Hb, Hc].
  pose proof (dec_one 6 3 4 base64_decode_table base64_out ltac:(lia) ltac:(lia) (λ y, mask_pow2 4 2 y ltac:(lia) eq_refl)
    ltac:(by exists (2 ^ 62)) (foldl (push 6) x vs) n pd c v (if c =? 61 then 1 else 0) cs Hc Hpd ltac:(lia)) as E1.
  change (Z.of_nat 4) with 4 in E1. rewrite E1. clear E1.
  assert (0 ≤ v < 2 ^ 6) as Hv by apply Hc. set (p := if c =? 61 then 1 else 0) in *. assert (0 ≤ p ≤ 1) by (unfold p; destruct (_ =? _); lia).
  assert (Forall (λ v, 0 ≤ v < 2 ^ 6) (vs ++ [v])) as Hvs' by (apply Forall_app; split; [done|by apply Forall_singleton]).
  assert (push 6 (foldl (push 6) x vs) v = foldl (push 6) x (vs ++ [v])) as Ep by (by rewrite foldl_app). rewrite Ep.
  assert (u64 (n + 1) mod 4 = (n + 1) mod 4) as Eu by (apply Z.mod_mod_divide; by exists (2 ^ 62)).
  assert ((n + 1) mod 4 = (Z.of_nat (length vs) + 1) mod 4) as En by (rewrite <- Hn; symmetry; apply Zplus_mod_idemp_l).
  cbn [mbind option_bind]. destruct (decide (length vs = 3)%nat) as [H3|H3].
  - rewrite decide_True by (rewrite En, H3; done).
    specialize (IH (foldl (push 6) x (vs ++ [v])) [] (u64 (n + 1)) (pd + p) ltac:(constructor) ltac:(simpl; lia)
      ltac:(rewrite Eu, En, H3; done) ltac:(lia) ltac:(lia)). cbn [foldl app] in IH.
    destruct (mapM char64 (significant cs)) as [ds|]; cbn [mbind option_bind mret option_ret]; [|by rewrite IH].
    destruct IH as (x' & n' & ->). exists x', n'. cbn [mbind option_bind]. f_equal. f_equal; [|f_equal; lia].
    pose proof (push_all 6 3 4 ltac:(lia) ltac:(lia) ltac:(lia) x (vs ++ [v]) Hvs' ltac:(rewrite length_app; simpl; lia)) as Hx.
    rewrite length_app, H3 in Hx. change (6 * Z.of_nat (3 + length [v])) with 24 in Hx.
    rewrite base64_out_digits, <- digits_mod by lia. change (256 ^ Z.of_nat 3) with (2 ^ 24). rewrite Hx. clear Hx.
    destruct vs as [|v1 [|v2 [|v3 [|? ?]]]]; try done. cbn [app groups64]. rewrite group64_digits; [done|..].
    all: cbn [app] in Hvs'; rewrite !Forall_cons in Hvs'; change (2 ^ 6) with 64 in Hvs'; tauto.
  - rewrite decide_False by (rewrite En, Z.mod_small by lia; lia).
    specialize (IH x (vs ++ [v]) (u64 (n + 1)) (pd + p) Hvs' ltac:(rewrite length_app; simpl; lia)
      ltac:(rewrite Eu, En, Z.mod_small, length_app by lia; simpl; lia) ltac:(lia) ltac:(lia)).
    destruct (mapM char64 (significant cs)) as [ds|]; cbn [mbind option_bind mret option_ret]; [|by rewrite IH].
    destruct IH as (x' & n' & ->). exists x', n'. cbn [mbind option_bind]. rewrite <- app_assoc. cbn [app]. by rewrite Z.add_assoc.
Qed.

Lemma mapM_char64_length cs ds : mapM char64 cs = Some ds → length ds = length cs.
Proof. intros E. symmetry. by apply (length_mapM char64). Qed.

(** The decoder of the program is that of the RFC. *)
Lemma base64_decode_is_rfc cs : Z.of_nat (length cs) < 2 ^ 64 → base64_decode cs = rfc4648_decode64 cs.
Proof.
  intros Hl. pose proof (dec64_groups cs 0 [] 0 0 ltac:(constructor) ltac:(simpl; lia) eq_refl ltac:(lia) ltac:(lia)) as H.
  unfold base64_decode, dec_all, rfc4648_decode64. cbn [foldl app] in H. destruct (mapM char64 (significant cs)) as [ds|]; [|by rewrite H].
  destruct H as (x' & n' & ->). cbn [mbind option_bind snd]. do 2 f_equal. unfold base64_cut. case_decide; lia.
Qed.

(** Text whose padding does not stand for more bytes than were decoded. *)
Lemma well_padded_rfc cs :
  Z.of_nat (length cs) < 2 ^ 64 → (padding cs ≤ 3 * (length (significant cs) / 4))%nat → well_padded (dec64 (0, 0, 0) cs) base64_cut.
Proof.
  intros Hl Hp. pose proof (dec64_groups cs 0 [] 0 0 ltac:(constructor) ltac:(simpl; lia) eq_refl ltac:(lia) ltac:(lia)) as H.
  cbn [foldl app] in H. intros o a E. destruct (mapM char64 (significant cs)) as [ds|] eqn:Em; [|by rewrite H in E].
  destruct H as (x' & n' & H). rewrite H in E. injection E as <- <-. rewrite groups64_length, (mapM_char64_length _ _ Em).
  cbn [snd]. unfold base64_cut. case_decide; lia.
Qed.

(** ** The conversions of a data object *)

Section Convert.
Context (iq : nat → Z) (Hiq : ∀ q, 1 ≤ iq q).
Context (n : Z) (ext : gmultiset nat) (w : W) (dd : nat).
Context (H : ok iq n ext w) (Hdd : dd ∈ ext) (Hoom : w_oom w = []).
Abbreviation C := (contents w dd).

Definition encode_post (cs : list Z) (r : option nat) (w' : W) : Prop :=
  ∃ o, r = Some o ∧ ok iq (n + encode_room w dd) (ext ⊎ {[+ o +]}) w' ∧ w ⇝ w' ∧
       contents w' o = cs ∧ (regions_of w' o ≤ 1)%nat.

Lemma to_base64_spec :
  bytes C → (Z.of_nat (length C) + 2) * 4 < 2 ^ 64 → n + encode_room w dd < INT_MAX →
  wp (_dispatch_transform_to_base64 dd) (encode_post (base64_rfc C)) w.
Proof.
  intros Hb Hmax Hn. rewrite <- enc64_all by done.
  apply encode_spec; try done; [apply base64_step_bytes|apply base64_final_bytes|..].
  - rewrite enc64_all, base64_rfc_length by done. apply base64_dest_size_ok; lia.
  - rewrite enc64_all, base64_rfc_length by done. mlia.
Qed.

Lemma to_base32_spec :
  bytes C → Z.of_nat (length C) mod 5 ≠ 4 → (Z.of_nat (length C) + 4) * 8 < 2 ^ 64 →
  n + encode_room w dd < INT_MAX →
  wp (_dispatch_transform_to_base32 dd) (encode_post (base32_rfc C)) w.
Proof.
  intros Hb Hg Hmax Hn. rewrite <- enc32_all by done.
  apply encode_spec; try done; [apply base32_step_bytes|apply base32_final_bytes|..].
  - rewrite enc32_all, base32_rfc_length by done. apply base32_dest_size_ok; lia.
  - rewrite enc32_all, base32_rfc_length by done. mlia.
Qed.

Definition decode_post (res : option (list Z)) (r : option nat) (w' : W) : Prop :=
  w ⇝ w' ∧
  match res with
  | Some bs => ∃ o, r = Some o ∧ ok iq (n + 5) (ext ⊎ {[+ o +]}) w' ∧ contents w' o = bs
  | None => r = None ∧ ok iq (n + 5) ext w'
  end.

Context (Hone : (regions_of w dd ≤ 1)%nat) (Hn : n + 5 < INT_MAX).

Lemma from_base64_spec :
  Z.of_nat (length C) * 3 < 2 ^ 64 → well_padded (dec64 (0, 0, 0) C) base64_cut →
  wp (_dispatch_transform_from_base64 dd) (decode_post (base64_decode C)) w.
Proof.
  intros Hmax Hp. destruct (ok_ext _ _ _ _ _ H Hdd) as [d Hd].
  unfold regions_of in Hone. rewrite Hd in Hone.
  assert (base64_decode_size (Z.of_nat (length C)) = Z.of_nat (length C) * 3 / 4) as Hs.
  { unfold base64_decode_size. by rewrite wrapU_small by lia. }
  eapply (decode_spec base64_decode_table 6 4 base64_out base64_cut base64_decode_size); try done.
  - intros x. rewrite base64_out_digits. by apply digits_range.
  - rewrite Hs. mlia.
  - intros cs o a Hpre Ho. apply dec64_length in Ho; apply prefix_length in Hpre; [|lia].
    rewrite Hs. mlia.
Qed.

Lemma from_base32_spec :
  Z.of_nat (length C) * 5 < 2 ^ 64 → well_padded (dec32 (0, 0, 0) C) base32_cut →
  wp (_dispatch_transform_from_base32 dd) (decode_post (base32_decode C)) w.
Proof.
  intros Hmax Hp. destruct (ok_ext _ _ _ _ _ H Hdd) as [d Hd].
  unfold regions_of in Hone. rewrite Hd in Hone.
  assert (base32_decode_size (Z.of_nat (length C)) = Z.of_nat (length C) * 5 / 8) as Hs.
  { unfold base32_decode_size. by rewrite wrapU_small by lia. }
  eapply (decode_spec base32_decode_table 5 8 base32_out base32_cut base32_decode_size); try done.
  - intros x. rewrite base32_out_digits. by apply digits_range.
  - rewrite Hs. mlia.
  - intros cs o a Hpre Ho. apply dec32_length in Ho; apply prefix_length in Hpre; [|lia].
    rewrite Hs. mlia.
Qed.
End Convert.
