(* ===== verification/UtfSpec.v ===== *)
(** * UTF-8 and UTF-16 units: what the sequence reader and writers compute

    Arithmetic forms of the bit operations, and the round trip between a code
    point and its bytes. *)

From S2P Require Import Prelude Object Data DataInv DataBuild DataSpec DataOps DataApply Transform TransformSpec BaseCodec.

(** ** Bytes *)

(** A decidable fact about bytes, checked on all of them. *)
Lemma all_bytes_check (f : Z → bool) b :
  forallb (λ i, f (Z.of_nat i)) (seq 0 256) = true → 0 ≤ b < 256 → f b = true.
Proof.
  intros H Hb. rewrite forallb_forall in H.
  specialize (H (Z.to_nat b)). rewrite Z2Nat.id in H by lia. apply H, in_seq. lia.
Qed.

Definition utf8_length_arith (b : Z) : Z :=
  if decide (b < 0x80) then 1 else if decide (b < 0xc0) then 0 else if decide (b < 0xe0) then 2
  else if decide (b < 0xf0) then 3 else if decide (b < 0xf8) then 4 else 0.

Lemma utf8_length_ok b :
  0 ≤ b < 256 → _dispatch_transform_utf8_length b = utf8_length_arith b.
Proof.
  intros Hb. apply Z.eqb_eq.
  apply (all_bytes_check (λ b, _dispatch_transform_utf8_length b =? utf8_length_arith b)); [|done].
  vm_compute. reflexivity.
Qed.

(** The bytes of a code point, as quotients and remainders. *)
Definition utf8_arith (c : Z) : list Z :=
  if decide (c < 0x80) then [c]
  else if decide (c < 0x800) then [0xc0 + c / 64; 0x80 + c mod 64]
  else if decide (c < 0x10000) then [0xe0 + c / 64 / 64; 0x80 + c / 64 mod 64; 0x80 + c mod 64]
  else [0xf0 + c / 64 / 64 / 64; 0x80 + c / 64 / 64 mod 64; 0x80 + c / 64 mod 64; 0x80 + c mod 64].

Lemma lor_add k a b : 0 ≤ k → 0 ≤ b < 2 ^ k → Z.lor (a * 2 ^ k) b = a * 2 ^ k + b.
Proof. intros. rewrite <- Z.shiftl_mul_pow2 by lia. by rewrite lor_fields, Z.shiftl_mul_pow2 by lia. Qed.

Lemma shr6 c : Z.shiftr c 6 = c / 64.
Proof. by rewrite Z.shiftr_div_pow2. Qed.
Lemma shr12 c : Z.shiftr c 12 = c / 64 / 64.
Proof. rewrite Z.shiftr_div_pow2, Z.div_div by lia. done. Qed.
Lemma shr18 c : Z.shiftr c 18 = c / 64 / 64 / 64.
Proof. rewrite Z.shiftr_div_pow2, !Z.div_div by lia. done. Qed.
Lemma low6 c : Z.land c 0x3f = c mod 64.
Proof. by apply (land_mask 6). Qed.

Lemma utf8_bytes_arith c : 0 ≤ c < 0x200000 → utf8_bytes c = utf8_arith c.
Proof.
  intros Hc. unfold utf8_bytes, utf8_arith.
  assert (∀ x, Z.lor 0x80 (Z.land x 0x3f) = 0x80 + x mod 64) as Hcont.
  { intros x. rewrite low6. apply (lor_add 6 2); [lia|]. by apply Z.mod_pos_bound. }
  rewrite !Hcont, shr6, shr12, shr18.
  assert (∀ x, u8 (0x80 + x mod 64) = 0x80 + x mod 64) as Hu.
  { intros x. apply wrapU_small. assert (0 ≤ x mod 64 < 64) by by apply Z.mod_pos_bound. consts; lia. }
  rewrite !Hu. case_decide; [|case_decide; [|case_decide; [|rewrite decide_True by lia]]].
  - change 0xff with (2 ^ 8 - 1). rewrite land_mask by lia. f_equal. mlia.
  - rewrite (lor_add 6 3) by (consts; Z.div_mod_to_equations; lia). rewrite wrapU_small; [done|mlia].
  - rewrite (lor_add 4 14) by (consts; Z.div_mod_to_equations; lia). rewrite wrapU_small; [done|mlia].
  - rewrite (lor_add 3 30) by (consts; Z.div_mod_to_equations; lia). rewrite wrapU_small; [done|mlia].
Qed.

(** ** Reading a sequence *)

(** The bytes at [p], one at a time. *)
Fixpoint bytes_at (w : W) (p : ptr) (bs : list Z) : Prop :=
  match bs with
  | [] => True
  | b :: bs => load1 p w = Ok b w ∧ bytes_at w (ptr_add p 1) bs
  end.

Lemma load1_list bm l off i b (w : W) :
  w_bufs w !! bm = Some l → 0 ≤ off → 0 ≤ i → l !! Z.to_nat (off + i) = Some b →
  load1 (PBuf bm (off + i)) w = Ok b w.
Proof.
  intros Hl Ho Hi Hb. unfold load1, mbind, M_bind, load. rewrite Hl.
  pose proof (lookup_lt_Some _ _ _ Hb).
  rewrite decide_True by lia. unfold mret, M_ret. f_equal.
  change (Z.to_nat 1) with 1%nat. by rewrite (take_S_r _ 0 b), take_0 by (by rewrite lookup_drop, Nat.add_0_r).
Qed.

Lemma bytes_at_buf bm l off bs (w : W) :
  w_bufs w !! bm = Some l → 0 ≤ off → (∃ post, drop (Z.to_nat off) l = bs ++ post) →
  bytes_at w (PBuf bm off) bs.
Proof.
  intros Hl. revert off. induction bs as [|b bs IH]; intros off Ho [post Hp]; [done|].
  assert (l !! Z.to_nat off = Some b) as Hb.
  { rewrite <- (Nat.add_0_r (Z.to_nat off)), <- lookup_drop, Hp. done. }
  split.
  - replace off with (off + 0) by lia. eapply load1_list; [done|lia|lia|]. by rewrite Z.add_0_r.
  - simpl. apply IH; [lia|]. exists post. rewrite Z2Nat.inj_add by lia.
    rewrite <- drop_drop, Hp. done.
Qed.

Lemma cont_step c q : 0 ≤ q → 0 ≤ c → Z.lor (u32 (Z.shiftl q 6)) (Z.land (0x80 + c mod 64) 0x3f)
  = u32 (q * 64) + c mod 64.
Proof.
  intros Hq Hc. assert (0 ≤ c mod 64 < 64) by by apply Z.mod_pos_bound.
  rewrite low6, Z.shiftl_mul_pow2 by lia. change (2 ^ 6) with 64.
  replace ((128 + c mod 64) mod 64) with (c mod 64) by (Z.div_mod_to_equations; lia).
  replace (u32 (q * 64)) with ((q mod 2 ^ 26) * 2 ^ 6).
  - apply lor_add; consts; lia.
  - unfold wrapU. change (2 ^ 32) with (2 ^ 26 * 2 ^ 6). change 64 with (2 ^ 6).
    by rewrite Z.mul_mod_distr_r by lia.
Qed.

(** The reader inverts the writer, on every code point up to 21 bits. *)
Lemma read_utf8_bytes c p (w : W) :
  0 ≤ c < 0x200000 → bytes_at w p (utf8_bytes c) →
  _dispatch_transform_read_utf8_sequence p w = Ok c w.
Proof.
  intros Hc. rewrite utf8_bytes_arith by done. unfold utf8_arith.
  unfold _dispatch_transform_read_utf8_sequence, mbind, M_bind.
  assert (∀ n b, 0 ≤ b < 256 → utf8_length_arith b = n → _dispatch_transform_utf8_length b = n) as Hlen.
  { intros n b Hb <-. by apply utf8_length_ok. }
  assert (∀ k m b, 0 ≤ k → b mod 2 ^ k = m → Z.land b (2 ^ k - 1) = m) as Hmask.
  { intros k m b Hk <-. by apply land_mask. }
  case_decide; [|case_decide; [|case_decide]].
  - intros [-> _]. rewrite (Hlen 1 c) by (try lia; unfold utf8_length_arith; by rewrite decide_True).
    simpl. unfold utf8_lead. dec.
    change 0x7f with (2 ^ 7 - 1). rewrite (Hmask 7 c) by (done || apply Z.mod_small; lia). done.
  - intros (-> & B1 & _). set (q := c / 64). assert (2 ≤ q < 32) by (unfold q; Z.div_mod_to_equations; lia).
    rewrite (Hlen 2) by (try lia; unfold utf8_length_arith; by dec).
    change (Z.to_nat (u8 (2 - 1))) with 1%nat. cbn [utf8_cont]. unfold mbind, M_bind. rewrite B1.
    unfold utf8_lead. dec.
    change 0x1f with (2 ^ 5 - 1). rewrite (Hmask 5 q) by (lia || consts; Z.div_mod_to_equations; lia).
    rewrite cont_step by lia. unfold mret, M_ret. f_equal.
    rewrite wrapU_small by (consts; lia). unfold q. Z.div_mod_to_equations; lia.
  - intros (-> & B1 & B2 & _).
    set (q := c / 64 / 64). assert (0 ≤ q < 16) by (unfold q; Z.div_mod_to_equations; lia).
    rewrite (Hlen 3) by (try lia; unfold utf8_length_arith; by dec).
    change (Z.to_nat (u8 (3 - 1))) with 2%nat. cbn [utf8_cont]. unfold mbind, M_bind. rewrite B1, B2.
    unfold utf8_lead. dec.
    change 0xf with (2 ^ 4 - 1). rewrite (Hmask 4 q) by (lia || consts; Z.div_mod_to_equations; lia).
    rewrite (cont_step (c / 64) q) by (unfold q; Z.div_mod_to_equations; lia).
    rewrite (wrapU_small 32 (q * 64)) by (consts; lia).
    assert (q * 64 + c / 64 mod 64 = c / 64) as -> by (unfold q; Z.div_mod_to_equations; lia).
    rewrite (cont_step c (c / 64)) by (Z.div_mod_to_equations; lia). unfold mret, M_ret. f_equal.
    rewrite wrapU_small by (consts; Z.div_mod_to_equations; lia). Z.div_mod_to_equations; lia.
  - intros (-> & B1 & B2 & B3 & _).
    set (q := c / 64 / 64 / 64). assert (0 ≤ q < 8) by (unfold q; Z.div_mod_to_equations; lia).
    rewrite (Hlen 4) by (try lia; unfold utf8_length_arith; by dec).
    change (Z.to_nat (u8 (4 - 1))) with 3%nat. cbn [utf8_cont]. unfold mbind, M_bind. rewrite B1, B2, B3.
    unfold utf8_lead. dec.
    change 0x7 with (2 ^ 3 - 1). rewrite (Hmask 3 q) by (lia || consts; Z.div_mod_to_equations; lia).
    rewrite (cont_step (c / 64 / 64) q) by (unfold q; Z.div_mod_to_equations; lia).
    rewrite (wrapU_small 32 (q * 64)) by (consts; lia).
    assert (q * 64 + c / 64 / 64 mod 64 = c / 64 / 64) as -> by (unfold q; Z.div_mod_to_equations; lia).
    rewrite (cont_step (c / 64) (c / 64 / 64)) by (Z.div_mod_to_equations; lia).
    rewrite (wrapU_small 32 (c / 64 / 64 * 64)) by (consts; Z.div_mod_to_equations; lia).
    assert (c / 64 / 64 * 64 + c / 64 mod 64 = c / 64) as -> by (Z.div_mod_to_equations; lia).
    rewrite (cont_step c (c / 64)) by (Z.div_mod_to_equations; lia). unfold mret, M_ret. f_equal.
    rewrite wrapU_small by (consts; Z.div_mod_to_equations; lia). Z.div_mod_to_equations; lia.
Qed.

(** ** Byte order *)

Lemma bswap16_arith x : 0 ≤ x < 65536 → bswap16 x = x mod 256 * 256 + x / 256.
Proof.
  intros Hx. unfold bswap16.
  change 0xff00 with (Z.shiftl (2 ^ 8 - 1) 8). rewrite land_shifted, land_mask by lia.
  change 0xff with (2 ^ 8 - 1). rewrite land_mask, Z.shiftr_div_pow2 by lia.
  change (2 ^ 8) with 256. rewrite (Z.mod_small (x / 256)) by (Z.div_mod_to_equations; lia).
  rewrite lor_fields, ?Z.shiftl_mul_pow2 by (change (2 ^ 8) with 256; Z.div_mod_to_equations; lia). done.
Qed.

Lemma swap_roundtrip x bo :
  0 ≤ x < 65536 →
  _dispatch_transform_swap_to_host (_dispatch_transform_swap_from_host x bo) bo = x.
Proof.
  intros Hx. destruct bo; [done|]. unfold _dispatch_transform_swap_to_host, _dispatch_transform_swap_from_host.
  rewrite (bswap16_arith x) by done.
  rewrite bswap16_arith by (Z.div_mod_to_equations; lia). Z.div_mod_to_equations; lia.
Qed.
