(* ===== verification/TransformTheorems.v ===== *)
(** * Transforms: the properties of transform.c *)

From S2P Require Import Prelude Object Data DataInv DataBuild DataSpec DataOps DataApply DataTheorems Transform TransformSpec BaseEncode BaseDecode BaseCodec BaseSpec UtfSpec.

(** ** Encoders *)

(** Given one region of decoded characters, none is cut off that was not put. *)
Lemma well_padded_rfc64 bs :
  bytes bs → well_padded (dec64 (0, 0, 0) (base64_rfc bs)) base64_cut.
Proof.
  intros Hbs o a E.
  destruct (dec_rfc 6 3 4 base64_encode_table base64_decode_table base64_out base64_cut) with
    (bs := bs) (x := 0) (n := 0) as (x' & n' & p & k & E' & Hk & _); try done; try lia.
  - intros x. by apply (mask_pow2 _ 2).
  - by exists (2 ^ 62).
  - apply base64_out_digits.
  - intros k Hk. by apply table_ok_char, Hk.
  - apply pad_char64.
  - intros n Hn. assert (n = 1 ∨ n = 2 ∨ n = 3)%nat as [->|[->| ->]] by lia; done.
  - unfold base64_rfc in E. change (Z.of_nat 4) with 4 in E'. rewrite E' in E. injection E as <- <-. simpl. rewrite Hk.
    rewrite length_app, length_replicate. lia.
Qed.

Lemma well_padded_rfc32 bs :
  bytes bs → well_padded (dec32 (0, 0, 0) (base32_rfc bs)) base32_cut.
Proof.
  intros Hbs o a E.
  destruct (dec_rfc 5 5 8 base32_encode_table base32_decode_table base32_out base32_cut) with
    (bs := bs) (x := 0) (n := 0) as (x' & n' & p & k & E' & Hk & _); try done; try lia.
  - intros x. by apply (mask_pow2 _ 3).
  - by exists (2 ^ 61).
  - apply base32_out_digits.
  - intros k Hk. by apply table_ok_char, Hk.
  - apply pad_char32.
  - intros n Hn. assert (n = 1 ∨ n = 2 ∨ n = 3 ∨ n = 4 ∨ n = 5)%nat as [->|[->|[->|[->| ->]]]] by lia; done.
  - unfold base32_rfc in E. change (Z.of_nat 8) with 8 in E'. rewrite E' in E. injection E as <- <-. simpl. rewrite Hk.
    rewrite length_app, length_replicate. lia.
Qed.

Lemma demo3_bytes : bytes (contents demo3 8).
Proof. rewrite demo3_contents. repeat constructor; lia. Qed.

(** C35. [_dispatch_transform_to_base64]: the result represents the base 64
    encoding of RFC 4648 of the bytes of the data, whatever regions it consists
    of; the caller owns one reference to it, no object of the clients changes. *)
Theorem to_base64_is_rfc4648 iq n ext (w : W) dd :
  (∀ q, 1 ≤ iq q) → ok iq n ext w → dd ∈ ext → w_oom w = [] → bytes (contents w dd) →
  (Z.of_nat (length (contents w dd)) + 2) * 4 < 2 ^ 64 → n + encode_room w dd < INT_MAX →
  wp (_dispatch_transform_to_base64 dd)
     (λ r w', ∃ o, r = Some o ∧ ok iq (n + encode_room w dd) (ext ⊎ {[+ o +]}) w' ∧
        contents w' o = base64_rfc (contents w dd) ∧ others_kept ext (ext ⊎ {[+ o +]}) w w') w.
Proof.
  intros Hiq H Hdd Ho Hb Hl Hn. eapply wp_mono; [by eapply to_base64_spec|].
  intros r w' (o & -> & H' & Ev & Hc & _). exists o. split_and!; [done..|]. by eapply others_kept_of.
Qed.

Lemma to_base64_is_rfc4648_witness :
  ∃ o, contents (exec (_dispatch_transform_to_base64 8) demo3) o = [65; 81; 73; 68; 66; 65; 85; 61].
Proof.
  destruct (wp_exec _ _ _ _ (to_base64_is_rfc4648 demo_iq 7 _ demo3 8 ltac:(done) demo3_ok ltac:(ms_in)
    eq_refl demo3_bytes ltac:(vm_compute; reflexivity) ltac:(vm_compute; reflexivity))
    ltac:(vm_compute; reflexivity)) as (o & _ & _ & Hc & _).
  exists o. rewrite Hc. reflexivity.
Defined.

(** [_dispatch_transform_to_base32]: as for base 64, for every length that
    does not leave a last group of four bytes. *)
Theorem to_base32_is_rfc4648 iq n ext (w : W) dd :
  (∀ q, 1 ≤ iq q) → ok iq n ext w → dd ∈ ext → w_oom w = [] → bytes (contents w dd) →
  Z.of_nat (length (contents w dd)) mod 5 ≠ 4 →
  (Z.of_nat (length (contents w dd)) + 4) * 8 < 2 ^ 64 → n + encode_room w dd < INT_MAX →
  wp (_dispatch_transform_to_base32 dd)
     (λ r w', ∃ o, r = Some o ∧ ok iq (n + encode_room w dd) (ext ⊎ {[+ o +]}) w' ∧
        contents w' o = base32_rfc (contents w dd) ∧ others_kept ext (ext ⊎ {[+ o +]}) w w') w.
Proof.
  intros Hiq H Hdd Ho Hb Hg Hl Hn. eapply wp_mono; [by eapply to_base32_spec|].
  intros r w' (o & -> & H' & Ev & Hc & _). exists o. split_and!; [done..|]. by eapply others_kept_of.
Qed.

Lemma to_base32_is_rfc4648_witness :
  ∃ o, contents (exec (_dispatch_transform_to_base32 8) demo3) o = [65; 69; 66; 65; 71; 66; 65; 70].
Proof.
  destruct (wp_exec _ _ _ _ (to_base32_is_rfc4648 demo_iq 7 _ demo3 8 ltac:(done) demo3_ok ltac:(ms_in)
    eq_refl demo3_bytes ltac:(vm_compute; discriminate) ltac:(vm_compute; reflexivity) ltac:(vm_compute; reflexivity))
    ltac:(vm_compute; reflexivity)) as (o & _ & _ & Hc & _).
  exists o. rewrite Hc. reflexivity.
Defined.

(** After a last group of four bytes, the last character but the padding
    is taken from the wrong bits: the data "foob" is encoded as MZXW6YA=, where
    RFC 4648 has MZXW6YQ=. *)
Theorem to_base32_of_foob_is_wrong iq n ext (w : W) dd :
  (∀ q, 1 ≤ iq q) → ok iq n ext w → dd ∈ ext → w_oom w = [] →
  contents w dd = [102; 111; 111; 98] → n + encode_room w dd < INT_MAX →
  wp (_dispatch_transform_to_base32 dd)
     (λ r w', ∃ o, r = Some o ∧ contents w' o = [77; 90; 88; 87; 54; 89; 65; 61] ∧
        contents w' o ≠ base32_rfc (contents w dd)) w.
Proof.
  intros Hiq H Hdd Ho Hc Hn.
  eapply wp_mono; [apply (encode_spec 5 base32_step base32_final base32_dest_size iq n ext w dd)|];
    try done; try (rewrite Hc; done).
  - apply base32_step_bytes.
  - apply base32_final_bytes.
  - rewrite Hc. intros r w' (o & -> & _ & _ & Hco & _). exists o. by rewrite Hco.
Qed.

(** A heap with one data object, 4, that represents a copy of [bs]. *)
Definition demo_of (bs : list Z) : W :=
  exec (dispatch_data_create (PBuf 2 0) (Z.of_nat (length bs)) None B_NULL) (demo_with {[2%nat := bs]}).

Lemma demo_of_ok bs :
  0 < Z.of_nat (length bs) < 2 ^ 64 →
  ok demo_iq 2 {[+ 4%nat +]} (demo_of bs) ∧ contents (demo_of bs) 4 = bs.
Proof.
  intros Hl.
  assert (ok demo_iq 0 ∅ (demo_with {[2%nat := bs]})) as H.
  { apply demo_with_ok. intros b l [<- _]%lookup_singleton_Some. lia. }
  assert (peek (demo_with {[2%nat := bs]}) (PBuf 2 0) (Z.of_nat (length bs)) = bs) as Hp.
  { simpl. rewrite lookup_singleton_eq. by rewrite drop_0, Nat2Z.id, firstn_all. }
  pose proof (create_copy_spec demo_iq 0 ∅ _ 2 0 (Z.of_nat (length bs)) H eq_refl
    ltac:(done) Hl ltac:(by rewrite Hp)) as Hw.
  unfold demo_of, exec, DISPATCH_DATA_DESTRUCTOR_DEFAULT, wp in *.
  destruct (dispatch_data_create _ _ _ _ _) as [r w'|f]; [|done].
  destruct Hw as (_ & Hok & _ & Hc). rewrite (left_id_L ∅ (⊎)) in Hok.
  rewrite Hp in Hc. by split.
Qed.

Lemma to_base32_of_foob_is_wrong_witness :
  ∃ o, contents (exec (_dispatch_transform_to_base32 4) (demo_of [102; 111; 111; 98])) o
    = [77; 90; 88; 87; 54; 89; 65; 61].
Proof.
  destruct (demo_of_ok [102; 111; 111; 98] ltac:(done)) as [H Hc].
  destruct (wp_exec _ _ _ _ (to_base32_of_foob_is_wrong demo_iq 2 _ (demo_of [102; 111; 111; 98]) 4
    ltac:(done) H ltac:(ms_in) eq_refl Hc ltac:(vm_compute; reflexivity))
    ltac:(vm_compute; reflexivity)) as (o & _ & Hco & _).
  exists o. exact Hco.
Defined.

(** ** Decoders *)

Lemma regions_of_single bs : regions_of (demo_of bs) 4 = length (match data_at (demo_of bs) 4 with
  Some d => as_records 4 d | None => [] end).
Proof. unfold regions_of. by destruct (data_at _ _). Qed.

(** C37. [_dispatch_transform_from_base64] on text in one region, with at most
    as many padding characters as bytes in its whole groups, decodes as RFC 4648 says: when a
    character is neither in the alphabet nor white space the result is null and no
    reference is leaked; otherwise it is an object with the bytes that the groups of
    four digits stand for, less one for each padding character, to which the
    caller owns one reference. *)
Theorem from_base64_decodes iq n ext (w : W) dd :
  (∀ q, 1 ≤ iq q) → ok iq n ext w → dd ∈ ext → w_oom w = [] →
  (regions_of w dd ≤ 1)%nat → n + 5 < INT_MAX →
  Z.of_nat (length (contents w dd)) * 3 < 2 ^ 64 →
  (padding (contents w dd) ≤ 3 * (length (significant (contents w dd)) / 4))%nat →
  wp (_dispatch_transform_from_base64 dd)
     (λ r w', match rfc4648_decode64 (contents w dd) with
        | None => r = None ∧ ok iq (n + 5) ext w' ∧ others_kept ext ext w w'
        | Some bs => ∃ o, r = Some o ∧ ok iq (n + 5) (ext ⊎ {[+ o +]}) w' ∧ contents w' o = bs ∧
                       others_kept ext (ext ⊎ {[+ o +]}) w w'
        end) w.
Proof.
  intros Hiq H Hdd Ho Hr Hn Hl Hp. eapply wp_mono; [eapply from_base64_spec; try done; apply well_padded_rfc; [lia|done]|].
  intros r w' [Ev Hd]. rewrite base64_decode_is_rfc in Hd by lia. destruct (rfc4648_decode64 (contents w dd)) as [bs|].
  - destruct Hd as (o & -> & H' & Hc). exists o. split_and!; try done. by eapply others_kept_of.
  - destruct Hd as [-> H']. split_and!; try done. by eapply others_kept_of.
Qed.

(** "TW@u" has a character outside the alphabet. *)
Lemma from_base64_decodes_witness :
  result (_dispatch_transform_from_base64 4) (demo_of [84; 87; 64; 117]) = Some None.
Proof.
  destruct (demo_of_ok [84; 87; 64; 117] ltac:(done)) as [H Hc].
  pose proof (from_base64_decodes demo_iq 2 _ (demo_of [84; 87; 64; 117]) 4 ltac:(done) H ltac:(ms_in)
    eq_refl ltac:(rewrite regions_of_single; vm_compute; lia) ltac:(done) ltac:(by rewrite Hc) ltac:(rewrite Hc; vm_compute; lia)) as Hw.
  assert (rfc4648_decode64 (contents (demo_of [84; 87; 64; 117]) 4) = None) as E by (rewrite Hc; reflexivity).
  rewrite E in Hw. unfold result, wp in *.
  destruct (_dispatch_transform_from_base64 4 _) as [r w'|f]; [|done]. destruct Hw as [-> _]. done.
Defined.

Example rfc4648_decode64_example : rfc4648_decode64 [84; 87; 70; 117; 10; 84; 81; 61; 61] = Some [77; 97; 110; 77].
Proof. reflexivity. Qed.

(** *** Text that is decoded wrongly *)

(** A data of two regions. *)
Definition demo_two (bs1 bs2 : list Z) : W :=
  exec (dispatch_data_create_concat 4 6)
    (exec (dispatch_data_create (PBuf 3 0) (Z.of_nat (length bs2)) None B_NULL)
      (exec (dispatch_data_create (PBuf 2 0) (Z.of_nat (length bs1)) None B_NULL) (demo_with {[2%nat := bs1; 3%nat := bs2]}))).

Definition decoded_size (m : MW (option nat)) (w : W) : option Z :=
  match m w with Ok (Some o) w' => Some (size_of w' o) | _ => None end.

(** More padding than bytes, as in the text "=": [final -= pad] wraps around, and the
    result is an object of [SIZE_MAX] bytes over a buffer of none. *)
Example from_base64_size_wraps :
  decoded_size (_dispatch_transform_from_base64 4) (demo_of [61]) = Some SIZE_MAX ∧
  decoded_size (_dispatch_transform_from_base64 4) (demo_of [61; 61; 61; 61]) = Some SIZE_MAX.
Proof. by vm_compute. Qed.

(** "TQ==" and a newline, in two regions: the padding of the first is taken off
    the second one again. *)
Example from_base64_counts_pad_twice :
  contents (demo_two [84; 81; 61; 61] [10]) 8 = [84; 81; 61; 61; 10] ∧
  decoded_size (_dispatch_transform_from_base64 8) (demo_two [84; 81; 61; 61] [10]) = Some SIZE_MAX.
Proof. by vm_compute. Qed.

(** "TQ=" and "=", in two regions: the group ends in the second one, whose buffer has
    no room. *)
Example from_base64_overruns :
  contents (demo_two [84; 81; 61] [61]) 8 = [84; 81; 61; 61] ∧
  _dispatch_transform_from_base64 8 (demo_two [84; 81; 61] [61]) = Fault (UB "write out of bounds").
Proof. by vm_compute. Qed.

(** ** Round trips *)

Definition and_then (enc dec : nat → MW (option nat)) (dd : nat) : MW (option nat) :=
  r ← enc dd; match r with Some o => dec o | None => mret None end.

Lemma others_trans ext e1 e2 w1 w2 w3 :
  others_kept ext (ext ⊎ e1) w1 w2 → others_kept (ext ⊎ e1) (ext ⊎ e1 ⊎ e2) w2 w3 →
  others_kept ext (ext ⊎ e1 ⊎ e2) w1 w3.
Proof.
  intros H1 H2 x Hx Hx'. assert (x ∈ ext ⊎ e1) as Hx1 by (apply gmultiset_elem_of_disj_union; by left).
  destruct (H1 x Hx Hx1), (H2 x Hx1 Hx'). split; congruence.
Qed.

(** C36. Base 64 is a round trip on the heap: decoding the result of the encoder
    gives an object with the bytes of the original. *)
Theorem base64_roundtrip iq n ext (w : W) dd :
  (∀ q, 1 ≤ iq q) → ok iq n ext w → dd ∈ ext → w_oom w = [] → bytes (contents w dd) →
  (Z.of_nat (length (contents w dd)) + 2) * 12 < 2 ^ 64 → n + encode_room w dd + 5 < INT_MAX →
  wp (and_then _dispatch_transform_to_base64 _dispatch_transform_from_base64 dd)
     (λ r w', ∃ e o, r = Some o ∧
        ok iq (n + encode_room w dd + 5) (ext ⊎ {[+ e +]} ⊎ {[+ o +]}) w' ∧
        contents w' o = contents w dd ∧ others_kept ext (ext ⊎ {[+ e +]} ⊎ {[+ o +]}) w w') w.
Proof.
  intros Hiq H Hdd Ho Hb Hl Hn. unfold and_then. wp_step.
  eapply wp_mono; [eapply to_base64_spec; try done; lia|].
  intros r w1 (e & -> & H1 & Ev1 & Hc1 & Hr1).
  assert (Z.of_nat (length (contents w1 e)) * 3 < 2 ^ 64) as Hl1.
  { rewrite Hc1, base64_rfc_length. clear -Hl. Z.div_mod_to_equations. lia. }
  eapply wp_mono; [eapply (from_base64_spec iq Hiq _ _ w1 e H1); try done; [ms_in|by apply Ev1|]|].
  { rewrite Hc1. by apply well_padded_rfc64. }
  intros r w2 [Ev2 Hd]. rewrite Hc1, base64_decode_rfc in Hd by done.
  destruct Hd as (o & -> & H2 & Hc2). exists e, o. split_and!; try done.
  eapply others_trans; [by eapply others_kept_of|by eapply others_kept_of].
Qed.

Lemma base64_roundtrip_witness :
  ∃ o, contents (exec (and_then _dispatch_transform_to_base64 _dispatch_transform_from_base64 8) demo3) o
    = [1; 2; 3; 4; 5].
Proof.
  destruct (wp_exec _ _ _ _ (base64_roundtrip demo_iq 7 _ demo3 8 ltac:(done) demo3_ok ltac:(ms_in)
    eq_refl demo3_bytes ltac:(vm_compute; reflexivity) ltac:(vm_compute; reflexivity))
    ltac:(vm_compute; reflexivity)) as (e & o & _ & _ & Hc & _).
  exists o. rewrite Hc. reflexivity.
Defined.

(** So is base 32, for the lengths it encodes correctly. *)
Theorem base32_roundtrip iq n ext (w : W) dd :
  (∀ q, 1 ≤ iq q) → ok iq n ext w → dd ∈ ext → w_oom w = [] → bytes (contents w dd) →
  Z.of_nat (length (contents w dd)) mod 5 ≠ 4 →
  (Z.of_nat (length (contents w dd)) + 4) * 40 < 2 ^ 64 → n + encode_room w dd + 5 < INT_MAX →
  wp (and_then _dispatch_transform_to_base32 _dispatch_transform_from_base32 dd)
     (λ r w', ∃ e o, r = Some o ∧
        ok iq (n + encode_room w dd + 5) (ext ⊎ {[+ e +]} ⊎ {[+ o +]}) w' ∧
        contents w' o = contents w dd ∧ others_kept ext (ext ⊎ {[+ e +]} ⊎ {[+ o +]}) w w') w.
Proof.
  intros Hiq H Hdd Ho Hb Hg Hl Hn. unfold and_then. wp_step.
  eapply wp_mono; [eapply to_base32_spec; try done; lia|].
  intros r w1 (e & -> & H1 & Ev1 & Hc1 & Hr1).
  assert (Z.of_nat (length (contents w1 e)) * 5 < 2 ^ 64) as Hl1.
  { rewrite Hc1, base32_rfc_length. clear -Hl. Z.div_mod_to_equations. lia. }
  eapply wp_mono; [eapply (from_base32_spec iq Hiq _ _ w1 e H1); try done; [ms_in|by apply Ev1|]|].
  { rewrite Hc1. by apply well_padded_rfc32. }
  intros r w2 [Ev2 Hd]. rewrite Hc1, base32_decode_rfc in Hd by done.
  destruct Hd as (o & -> & H2 & Hc2). exists e, o. split_and!; try done.
  eapply others_trans; [by eapply others_kept_of|by eapply others_kept_of].
Qed.

Lemma base32_roundtrip_witness :
  ∃ o, contents (exec (and_then _dispatch_transform_to_base32 _dispatch_transform_from_base32 8) demo3) o
    = [1; 2; 3; 4; 5].
Proof.
  destruct (wp_exec _ _ _ _ (base32_roundtrip demo_iq 7 _ demo3 8 ltac:(done) demo3_ok ltac:(ms_in)
    eq_refl demo3_bytes ltac:(vm_compute; discriminate) ltac:(vm_compute; reflexivity) ltac:(vm_compute; reflexivity))
    ltac:(vm_compute; reflexivity)) as (e & o & _ & _ & Hc & _).
  exists o. rewrite Hc. reflexivity.
Defined.

(** ** Formats *)

Definition base_formats : list dispatch_data_format_type_s :=
  [_dispatch_data_format_type_none; _dispatch_data_format_type_base32; _dispatch_data_format_type_base64].
Definition utf_formats : list dispatch_data_format_type_s :=
  [_dispatch_data_format_type_utf8; _dispatch_data_format_type_utf16le; _dispatch_data_format_type_utf16be].

Lemma forallb_elem {A} (f : A → bool) l x : forallb f l = true → x ∈ l → f x = true.
Proof. intros H Hx. rewrite forallb_forall in H. apply H. by apply list_elem_of_In. Qed.

(** The masks allow exactly the conversions within a family (none,
    base 32, base 64; UTF-8, UTF-16LE, UTF-16BE): between families
    [dispatch_data_create_with_transform] returns null and touches nothing. *)
Theorem with_transform_families data input output (w : W) :
  (input ∈ base_formats ∧ output ∈ base_formats ∨ input ∈ utf_formats ∧ output ∈ utf_formats →
     formats_compatible input output = true) ∧
  (input ∈ base_formats ∧ output ∈ utf_formats ∨ input ∈ utf_formats ∧ output ∈ base_formats →
     dispatch_data_create_with_transform data input output w = Ok None w).
Proof.
  assert (∀ l1 l2 b, forallb (λ f, forallb (λ g, Bool.eqb (formats_compatible f g) b) l2) l1 = true →
    input ∈ l1 → output ∈ l2 → formats_compatible input output = b) as Hall.
  { intros l1 l2 b Hf Hi Ho. eapply (forallb_elem _ _ _ (forallb_elem _ _ _ Hf Hi)) in Ho.
    by apply Bool.eqb_prop in Ho. }
  split.
  - intros [[Hi Ho]|[Hi Ho]]; eapply Hall; try done; reflexivity.
  - intros Hio. assert (formats_compatible input output = false) as E.
    { destruct Hio as [[Hi Ho]|[Hi Ho]]; eapply Hall; try done; reflexivity. }
    assert (ftype input ≠ _DISPATCH_DATA_FORMAT_UTF_ANY) as Hne.
    { assert (∀ l, forallb (λ f, negb (ftype f =? _DISPATCH_DATA_FORMAT_UTF_ANY)) l = true → input ∈ l →
        ftype input ≠ _DISPATCH_DATA_FORMAT_UTF_ANY) as Ht.
      { intros l Hf Hi. apply (forallb_elem _ _ _ Hf) in Hi. apply negb_true_iff, Z.eqb_neq in Hi. done. }
      destruct Hio as [[Hi _]|[Hi _]]; eapply Ht; try done; reflexivity. }
    unfold dispatch_data_create_with_transform, mbind, M_bind. rewrite decide_False by done.
    unfold mret at 1, M_ret at 1. by rewrite E.
Qed.

Lemma with_transform_families_witness :
  dispatch_data_create_with_transform 4 _dispatch_data_format_type_none _dispatch_data_format_type_utf8 demo1
    = Ok None demo1.
Proof.
  apply (with_transform_families 4 _dispatch_data_format_type_none _dispatch_data_format_type_utf8 demo1).
  left. split; by left.
Defined.

(** ** UTF-8 and UTF-16 *)

(** Reading back a code point: on the bytes the UTF-8 writer produces for a
    code point below [0x200000], stored anywhere in a buffer, the reader returns
    that code point, leaves the heap alone, and the length it finds in the first
    byte is the number of bytes written. *)
Theorem utf8_roundtrip c bm off l post (w : W) :
  0 ≤ c < 0x200000 → 0 ≤ off → w_bufs w !! bm = Some l →
  drop (Z.to_nat off) l = utf8_bytes c ++ post →
  _dispatch_transform_read_utf8_sequence (PBuf bm off) w = Ok c w ∧
  ∃ b, load1 (PBuf bm off) w = Ok b w ∧
    _dispatch_transform_utf8_length b = Z.of_nat (length (utf8_bytes c)).
Proof.
  intros Hc Ho Hl Hd.
  assert (bytes_at w (PBuf bm off) (utf8_bytes c)) as Hb by (eapply bytes_at_buf; eauto).
  split; [by apply read_utf8_bytes|].
  rewrite utf8_bytes_arith in * by done. unfold utf8_arith in *.
  assert (∀ b, 0 ≤ b < 256 → _dispatch_transform_utf8_length b = utf8_length_arith b) as Hlen
    by apply utf8_length_ok.
  case_decide as D1; [|case_decide as D2; [|case_decide as D3]]; destruct Hb as [Hb _];
    eexists; (split; [exact Hb|]); rewrite Hlen by (Z.div_mod_to_equations; lia);
    unfold utf8_length_arith.
  - by dec.
  - assert (2 ≤ c / 64 < 32) by (Z.div_mod_to_equations; lia). by dec.
  - assert (0 ≤ c / 64 / 64 < 16) by (Z.div_mod_to_equations; lia). by dec.
  - assert (0 ≤ c / 64 / 64 / 64 < 8) by (Z.div_mod_to_equations; lia). by dec.
Qed.

(** U+20AC after one other byte. *)
Lemma utf8_roundtrip_witness :
  _dispatch_transform_read_utf8_sequence (PBuf 2 1) (demo_with {[2%nat := [65; 0xe2; 0x82; 0xac]]})
    = Ok 0x20ac (demo_with {[2%nat := [65; 0xe2; 0x82; 0xac]]}).
Proof.
  apply (utf8_roundtrip 0x20ac 2 1 [65; 0xe2; 0x82; 0xac] []); try done; vm_compute; auto.
Defined.

(** The last surrogate is taken for a character. *)
Example utf16_accepts_dfff :
  result (_dispatch_transform_to_utf16le 4) (demo_of [0xed; 0xbf; 0xbf]) ≠ Some None.
Proof. by vm_compute. Qed.
