(* ===== verification/Conc.v ===== *)
(** * Threads over a shared state

    A component whose functions run concurrently is a function
    [tstep choice i l g]: what the thread [i], in the local state [l] (a
    program point with its local variables), does next to the shared state [g];
    [None]: it cannot move.  [choice] resolves what the code leaves open (the
    kernel, the caller).  Every atomic access to shared memory is one step, and
    the steps of the threads interleave. *)

From S2P Require Import Prelude.

Section Conc.
Context {G L C : Type}.
Context (tstep : C → nat → L → G → option (L * G)).

Record config : Type := Config { shared : G; threads : gmap nat L }.

(** One step of one thread. *)
Inductive cstep : config → config → Prop :=
  | cstep_thread i c l g ths l' g' :
      ths !! i = Some l → tstep c i l g = Some (l', g') →
      cstep (Config g ths) (Config g' (<[i:=l']> ths)).

Definition reachable (init : config → Prop) (s : config) : Prop :=
  ∃ s0, init s0 ∧ rtc cstep s0 s.

(** The invariant rule. *)
Lemma reachable_inv (init Inv : config → Prop) :
  (∀ s, init s → Inv s) → (∀ s s', Inv s → cstep s s' → Inv s') →
  ∀ s, reachable init s → Inv s.
Proof.
  intros Hi Hs s (s0 & H0 & Hr). apply Hi in H0.
  revert H0. induction Hr as [s1|s1 s2 s3 H1 _ IH]; [done|]. intros H1'. apply IH. by eapply Hs.
Qed.

(** Run a schedule: who moves, and the choice. *)
Fixpoint run (sched : list (nat * C)) (s : config) : option config :=
  match sched with
  | [] => Some s
  | (i, c) :: sched =>
      l ← threads s !! i;
      '(l', g') ← tstep c i l (shared s);
      run sched (Config g' (<[i:=l']> (threads s)))
  end.

Lemma run_reachable sched s s' : run sched s = Some s' → rtc cstep s s'.
Proof.
  revert s. induction sched as [|[i c] sched IH]; intros s; simpl; [intros [= ->]; done|].
  destruct (threads s !! i) as [l|] eqn:Hl; [|done]. simpl.
  destruct (tstep c i l (shared s)) as [[l' g']|] eqn:Ht; [|done]. simpl. intros Hr.
  eapply rtc_l; [|by apply IH]. destruct s. by econstructor.
Qed.

Lemma run_init init sched s s' : init s → run sched s = Some s' → reachable init s'.
Proof. intros. exists s. split; [done|]. by eapply run_reachable. Qed.

(** Play a schedule, passing over the moves that are not possible. *)
Definition play (sched : list (nat * C)) (s : config) : config :=
  foldl (λ s m, default s (run [m] s)) s sched.

Lemma play_reachable init sched s : reachable init s → reachable init (play sched s).
Proof.
  revert s. induction sched as [|m sched IH]; intros s Hs; [done|].
  apply (IH (default s (run [m] s))). destruct (run [m] s) as [s'|] eqn:E; [|done].
  destruct Hs as (s0 & H0 & Hr). exists s0. split; [done|]. etrans; [done|]. by eapply run_reachable.
Qed.
End Conc.

(** Sums over the threads, with a step of one of them. *)
Section ThreadSum.
Context {L : Type} (f : nat → L → Z).

Definition tsum (ths : gmap nat L) : Z := map_fold (λ i l acc, f i l + acc) 0 ths.

Lemma tsum_insert_new ths i l : ths !! i = None → tsum (<[i:=l]> ths) = f i l + tsum ths.
Proof.
  intros. unfold tsum. apply (map_fold_insert_L (λ i l acc, f i l + acc)); [|done].
  intros; lia.
Qed.

Lemma tsum_step ths i l l' :
  ths !! i = Some l → tsum (<[i:=l']> ths) = tsum ths - f i l + f i l'.
Proof.
  intros Hi. rewrite <- (insert_delete_id ths i l Hi) at 2.
  rewrite <- insert_delete_eq, !tsum_insert_new by apply lookup_delete_eq. lia.
Qed.

Lemma tsum_nonneg ths : (∀ i l, ths !! i = Some l → 0 ≤ f i l) → 0 ≤ tsum ths.
Proof.
  induction ths as [|i l m Hi IH] using map_ind; [done|]. intros H.
  rewrite tsum_insert_new by done.
  assert (0 ≤ f i l) by (apply (H i); apply lookup_insert_eq).
  enough (0 ≤ tsum m) by lia. apply IH. intros j b Hj. apply (H j).
  rewrite lookup_insert_ne; [done|congruence].
Qed.

Lemma tsum_ge ths i l :
  (∀ j b, ths !! j = Some b → 0 ≤ f j b) → ths !! i = Some l → f i l ≤ tsum ths.
Proof.
  intros H Hi. rewrite <- (insert_delete_id ths i l Hi).
  rewrite tsum_insert_new by apply lookup_delete_eq.
  enough (0 ≤ tsum (delete i ths)) by lia.
  apply tsum_nonneg. intros j b [_ Hj]%lookup_delete_Some. eauto.
Qed.

Lemma tsum_zero ths : (∀ i l, ths !! i = Some l → f i l = 0) → tsum ths = 0.
Proof.
  induction ths as [|i l m Hi IH] using map_ind; [done|]. intros H.
  rewrite tsum_insert_new by done. rewrite (H i l) by apply lookup_insert_eq.
  rewrite IH; [done|]. intros j b Hj. apply (H j). rewrite lookup_insert_ne; [done|congruence].
Qed.

(** A positive sum has a positive summand. *)
Lemma tsum_pos ths : 0 < tsum ths → ∃ i l, ths !! i = Some l ∧ 0 < f i l.
Proof.
  induction ths as [|i l m Hi IH] using map_ind; [done|]. rewrite tsum_insert_new by done.
  destruct (decide (0 < f i l)) as [Hp|Hp].
  - intros _. exists i, l. by rewrite lookup_insert_eq.
  - intros H. destruct IH as (j & b & Hj & ?); [lia|]. exists j, b.
    rewrite lookup_insert_ne; [done|congruence].
Qed.
End ThreadSum.

Lemma tsum_le {L} (f g : nat → L → Z) ths :
  (∀ i l, ths !! i = Some l → f i l ≤ g i l) → tsum f ths ≤ tsum g ths.
Proof.
  induction ths as [|i l m Hi IH] using map_ind; [done|]. intros H.
  rewrite !tsum_insert_new by done. assert (f i l ≤ g i l) by (apply H; apply lookup_insert_eq).
  enough (tsum f m ≤ tsum g m) by lia. apply IH. intros j b Hj. apply H.
  rewrite lookup_insert_ne; [done|congruence].
Qed.

Lemma tsum_add {L} (f g : nat → L → Z) ths :
  tsum (λ i l, f i l + g i l) ths = tsum f ths + tsum g ths.
Proof.
  induction ths as [|i l m Hi IH] using map_ind; [done|]. rewrite !tsum_insert_new by done. lia.
Qed.

(** The number of threads. *)
Lemma tsum_const {L} (ths : gmap nat L) : tsum (λ _ _, 1) ths = Z.of_nat (size ths).
Proof.
  induction ths as [|i l m Hi IH] using map_ind; [done|]. rewrite tsum_insert_new by done.
  rewrite map_size_insert_None by done. lia.
Qed.

(** Two weights that differ at one thread only. *)
Lemma tsum_except {L} (f f' : nat → L → Z) ths i l :
  ths !! i = Some l → (∀ j k, j ≠ i → f' j k = f j k) →
  tsum f' ths = tsum f ths - f i l + f' i l.
Proof.
  intros Hi Hf. rewrite <- (insert_delete_id ths i l Hi).
  rewrite !tsum_insert_new by apply lookup_delete_eq.
  enough (tsum f' (delete i ths) = tsum f (delete i ths)) by lia.
  assert (∀ m : gmap nat L, m !! i = None → tsum f' m = tsum f m) as H; [|apply H, lookup_delete_eq].
  intros m. induction m as [|j k m Hj IH] using map_ind; [done|]. intros Hn.
  rewrite !tsum_insert_new by done.
  assert (j ≠ i) as Hne by (intros ->; by rewrite lookup_insert_eq in Hn).
  rewrite Hf, IH; [done| |done]. by rewrite lookup_insert_ne in Hn.
Qed.

Lemma tsum_ext {L} (f f' : nat → L → Z) ths :
  (∀ j k, ths !! j = Some k → f' j k = f j k) → tsum f' ths = tsum f ths.
Proof.
  induction ths as [|j k m Hj IH] using map_ind; [done|]. intros H.
  rewrite !tsum_insert_new by done. rewrite (H j k) by apply lookup_insert_eq. f_equal.
  apply IH. intros j' k' Hj'. apply H. rewrite lookup_insert_ne; [done|congruence].
Qed.

(** All the threads of a configuration, from the list of them. *)
Lemma threads_forall {L} (P : nat → L → Prop) (ths : gmap nat L) l :
  map_to_list ths = l → Forall (λ x, P x.1 x.2) l → ∀ i p, ths !! i = Some p → P i p.
Proof.
  intros <- H i p Hp. rewrite Forall_forall in H. apply (H (i, p)). by apply elem_of_map_to_list.
Qed.
