(* ===== verification/Mpsc.v ===== *)
(** * Lists that many threads push on

    The list of a queue, and of the other lists that are pushed on with an
    exchange of the tail: a thread that found the list empty will write the head
    (it opens the list), a thread that found a last element will link its own
    behind it.  One thread at a time takes elements off, from the head; while it
    holds the first element the head is null, and it is the one that will write
    it.  The theory is over any threads that say what they open and link. *)

From S2P Require Import Prelude Conc.

(** ** Neighbours in a list *)

Definition adj (l : list nat) (a b : nat) : Prop := ∃ k, l !! k = Some a ∧ l !! S k = Some b.

Lemma adj_snoc l n a b : adj (l ++ [n]) a b ↔ adj l a b ∨ last l = Some a ∧ b = n.
Proof.
  split.
  - intros (k & Ha & Hb). apply lookup_app_Some in Hb as [Hb|[Hle Hb]].
    + left. exists k. split; [|done]. rewrite lookup_app_l in Ha; [done|]. apply lookup_lt_Some in Hb. lia.
    + right. destruct (S k - length l)%nat as [|m] eqn:E; [|done]. injection Hb as ->.
      rewrite lookup_app_l in Ha by lia. split; [|done]. rewrite last_lookup. by replace (pred (length l)) with k by lia.
  - intros [(k & Ha & Hb)|[Ha ->]].
    + exists k. split; by apply lookup_app_l_Some.
    + rewrite last_lookup in Ha. pose proof (lookup_lt_Some _ _ _ Ha) as Hlt. exists (pred (length l)).
      split; [by apply lookup_app_l_Some|]. rewrite lookup_app_r by lia. by replace (S (pred (length l)) - length l)%nat with 0%nat by lia.
Qed.

Lemma adj_app l r a b : adj (l ++ r) a b ↔ adj l a b ∨ adj r a b ∨ last l = Some a ∧ hd_error r = Some b.
Proof.
  revert l. induction r as [|x r IH]; intros l.
  - rewrite app_nil_r. split; [by left|intros [?|[(? & ? & _)|[_ ?]]]; done].
  - replace (l ++ x :: r) with ((l ++ [x]) ++ r) by by rewrite <- app_assoc. rewrite IH, adj_snoc, last_snoc. split.
    + intros [[?|[? ->]]|[(k & ? & ?)|[[= <-] ?]]]; [by left|by right; right|right; left; by exists (S k)|right; left].
      exists 0%nat. by destruct r.
    + intros [?|[([|k] & Ha & Hb)|[? [= <-]]]]; [by left; left| | |by left; right].
      * injection Ha as <-. right; right. by destruct r.
      * right; left. by exists k.
Qed.

Lemma adj_cons x l a b : adj (x :: l) a b ↔ adj l a b ∨ a = x ∧ hd_error l = Some b.
Proof.
  split.
  - intros ([|k] & Ha & Hb); simpl in *; [right|left; by exists k]. injection Ha as ->. by destruct l.
  - intros [(k & Ha & Hb)|[-> Hb]]; [by exists (S k)|]. exists 0%nat. by destruct l.
Qed.

Lemma adj_in l a b : adj l a b → a ∈ l ∧ b ∈ l.
Proof. intros (k & Ha & Hb). split; by eapply list_elem_of_lookup_2. Qed.

Lemma adj_l l a b : adj l a b → a ∈ l.
Proof. intros H. by apply (adj_in l a b). Qed.

Lemma adj_inj l a b b' : NoDup l → adj l a b → adj l a b' → b = b'.
Proof.
  intros Hl (k & Ha & Hb) (k' & Ha' & Hb'). assert (k = k') as -> by (by eapply NoDup_lookup). congruence.
Qed.

Lemma adj_last l a b : NoDup l → adj l a b → last l ≠ Some a.
Proof.
  intros Hl (k & Ha & Hb). rewrite last_lookup. intros H.
  assert (k = pred (length l)) as -> by (by eapply NoDup_lookup). apply lookup_lt_Some in Hb. lia.
Qed.

(** ** The list *)

Definition some1 {A} (o : option A) : Z := match o with Some _ => 1 | None => 0 end.

Section Mpsc.
Context {L : Type}.
(** The element the thread will make the head of the list, and the link it will
    make. *)
Context (opener : L → option nat) (linking : L → option (nat * nat)).

Definition opn (l : L) : Z := some1 (opener l).

(** [nx x]: the link of the element [x], if it exists. *)
Record mpsc (nx : nat → option (option nat)) (head tail : option nat) (items : list nat) (ths : gmap nat L) : Prop :=
  Mpsc {
  q_tail : tail = last items;
  q_open : tsum (λ _, opn) ths + some1 head = some1 (hd_error items);
  q_head : ∀ n, head = Some n → hd_error items = Some n;
  q_opener : ∀ j l n, ths !! j = Some l → opener l = Some n → hd_error items = Some n;
  q_nodup : NoDup items;
  q_live : ∀ x, x ∈ items → is_Some (nx x);
  q_chain : ∀ a b, adj items a b →
    nx a = Some (Some b) ∨ nx a = Some None ∧ ∃ j l, ths !! j = Some l ∧ linking l = Some (a, b);
  q_last : ∀ a, last items = Some a → nx a = Some None;
  q_link : ∀ j l a b, ths !! j = Some l → linking l = Some (a, b) → adj items a b ∧ nx a = Some None;
  q_link_uniq : ∀ j k l m a b b', ths !! j = Some l → ths !! k = Some m →
    linking l = Some (a, b) → linking m = Some (a, b') → j = k
}.

Lemma opn_nonneg l : 0 ≤ opn l.
Proof. unfold opn. destruct (opener l); simpl; lia. Qed.

Lemma some1_le1 {A} (o : option A) : 0 ≤ some1 o ≤ 1.
Proof. destruct o; simpl; lia. Qed.

Section Update.
Context (nx : nat → option (option nat)) (head tl : option nat) (items : list nat) (ths : gmap nat L).
Context (i : nat) (l : L) (Q : mpsc nx head tl items ths) (Hi : ths !! i = Some l).

(** What a step of [i] has to show. *)
Lemma mpsc_update l' nx' head' tl' items' :
  tl' = last items' →
  opn l' - opn l + some1 head' - some1 head = some1 (hd_error items') - some1 (hd_error items) →
  (∀ n, head' = Some n → hd_error items' = Some n) →
  (∀ n, opener l' = Some n → hd_error items' = Some n) →
  (∀ j m n, j ≠ i → ths !! j = Some m → opener m = Some n → hd_error items = Some n → hd_error items' = Some n) →
  NoDup items' → (∀ x, x ∈ items' → is_Some (nx' x)) →
  (∀ a b, adj items' a b → nx' a = Some (Some b) ∨ nx' a = Some None ∧
     (linking l' = Some (a, b) ∨ ∃ j m, j ≠ i ∧ ths !! j = Some m ∧ linking m = Some (a, b))) →
  (∀ a, last items' = Some a → nx' a = Some None) →
  (∀ a b, linking l' = Some (a, b) → adj items' a b ∧ nx' a = Some None ∧
     ∀ j m b', j ≠ i → ths !! j = Some m → linking m ≠ Some (a, b')) →
  (∀ j m a b, j ≠ i → ths !! j = Some m → linking m = Some (a, b) → adj items a b → nx a = Some None →
     adj items' a b ∧ nx' a = Some None) →
  mpsc nx' head' tl' items' (<[i:=l']> ths).
Proof.
  intros Ht Ho Hh Hop Hop' Hnd Hlv Hc Hla Hl Hl'. split; try done.
  - rewrite (tsum_step _ _ _ _ l' Hi). pose proof (q_open _ _ _ _ _ Q). lia.
  - intros j m n [[<- <-]|[Hne Hj]]%lookup_insert_Some Hm; [by apply Hop|].
    eapply Hop'; try done. by eapply (q_opener _ _ _ _ _ Q).
  - intros a b Hab. destruct (Hc a b Hab) as [|(Hn & [Hk|(j & m & Hne & Hj & Hm)])]; [by left|right; split; [done|]..].
    + exists i, l'. by rewrite lookup_insert_eq.
    + exists j, m. by rewrite lookup_insert_ne.
  - intros j m a b [[<- <-]|[Hne Hj]]%lookup_insert_Some Hm.
    + by destruct (Hl a b Hm) as (? & ? & _).
    + destruct (q_link _ _ _ _ _ Q j m a b Hj Hm). by eapply Hl'.
  - intros j k m m' a b b' [[<- <-]|[Hne Hj]]%lookup_insert_Some [[<- <-]|[Hne' Hk]]%lookup_insert_Some Hm Hm'.
    + done.
    + destruct (Hl a b Hm) as (_ & _ & Hu). by destruct (Hu k m' b').
    + destruct (Hl a b' Hm') as (_ & _ & Hu). by destruct (Hu j m b).
    + by eapply (q_link_uniq _ _ _ _ _ Q).
Qed.

(** Whoever opens the list is alone, and the head is null. *)
Lemma opener_alone n : opener l = Some n →
  head = None ∧ hd_error items = Some n ∧ ∀ j m, j ≠ i → ths !! j = Some m → opener m = None.
Proof.
  intros Hn. pose proof (q_open _ _ _ _ _ Q) as Ho. pose proof (some1_le1 (hd_error items)).
  assert (opn l = 1) as H1 by (unfold opn; by rewrite Hn).
  assert (∀ j m, j ≠ i → ths !! j = Some m → opn l + opn m ≤ tsum (λ _, opn) ths) as Hpair.
  { intros j m Hne Hj. rewrite <- (insert_delete_id ths i l Hi).
    rewrite tsum_insert_new by apply lookup_delete_eq.
    enough (opn m ≤ tsum (λ _, opn) (delete i ths)) by lia.
    apply (tsum_ge (λ _, opn) _ j m); [|by rewrite lookup_delete_ne]. intros; apply opn_nonneg. }
  assert (opn l ≤ tsum (λ _, opn) ths) as Hge by (apply (tsum_ge (λ _, opn) ths i l); [intros; apply opn_nonneg|done]).
  split_and!; [destruct head; [simpl in Ho; lia|done]|by eapply (q_opener _ _ _ _ _ Q)|].
  intros j m Hne Hj. pose proof (Hpair j m Hne Hj). destruct (opener m) eqn:E; [|done].
  assert (opn m = 1) by (unfold opn; by rewrite E). pose proof (some1_le1 head). lia.
Qed.

(** When the head is there, or the list is empty, nobody opens it. *)
Lemma nobody_opens : head ≠ None ∨ items = [] → ∀ j m, ths !! j = Some m → opener m = None.
Proof.
  intros H j m Hj. pose proof (q_open _ _ _ _ _ Q) as Ho. destruct (opener m) as [n|] eqn:E; [|done].
  assert (opn m = 1) as H1 by (unfold opn; by rewrite E).
  assert (opn m ≤ tsum (λ _, opn) ths) by (apply (tsum_ge (λ _, opn) ths j m); [intros; apply opn_nonneg|done]).
  pose proof (some1_le1 (hd_error items)). destruct H as [H| ->].
  - destruct head; [simpl in Ho; lia|done].
  - pose proof (some1_le1 head). simpl in Ho. lia.
Qed.

(** The first element, read by the thread that holds it. *)
Lemma first_next a r : hd_error items = Some a → nx a = Some (Some r) → ∃ rest, items = a :: r :: rest.
Proof.
  intros Ha Hn. destruct items as [|x [|y rest]] eqn:E; [done| |]; injection Ha as ->.
  - pose proof (q_last _ _ _ _ _ Q a eq_refl). congruence.
  - exists rest. f_equal. destruct (q_chain _ _ _ _ _ Q a y) as [?|[? _]]; [|congruence..].
    apply adj_cons. by right.
Qed.
End Update.

Section Operations.
Context (nx : nat → option (option nat)) (head tl : option nat) (items : list nat) (ths : gmap nat L).
Context (i : nat) (l : L) (Q : mpsc nx head tl items ths) (Hi : ths !! i = Some l).

Lemma own_link_other a b : linking l = Some (a, b) → ∀ j m b', j ≠ i → ths !! j = Some m → linking m ≠ Some (a, b').
Proof. intros Hl j m b' Hne Hj Hm. apply Hne. symmetry. by eapply (q_link_uniq _ _ _ _ _ Q). Qed.

(** The chain, when the step of [i] keeps its own link. *)
Lemma chain_keep l' nx' : (∀ x, x ∈ items → nx' x = nx x) → linking l' = linking l →
  ∀ a b, adj items a b → nx' a = Some (Some b) ∨ nx' a = Some None ∧
     (linking l' = Some (a, b) ∨ ∃ j m, j ≠ i ∧ ths !! j = Some m ∧ linking m = Some (a, b)).
Proof.
  intros Hnx El a b Hab. rewrite Hnx by (by eapply adj_l). destruct (q_chain _ _ _ _ _ Q a b Hab) as [|(Hn & j & m & Hj & Hm)]; [by left|].
  right. split; [done|]. destruct (decide (j = i)) as [->|Hne]; [left|right; eauto]. rewrite Hi in Hj. injection Hj as <-. congruence.
Qed.

(** Nothing happens to the list. *)
Lemma mpsc_neutral l' nx' : (∀ x, x ∈ items → nx' x = nx x) → opener l' = opener l → linking l' = linking l →
  mpsc nx' head tl items (<[i:=l']> ths).
Proof.
  intros Hnx Eo El. apply (mpsc_update nx head tl items ths i l Q Hi); try apply Q.
  - unfold opn. rewrite Eo. lia.
  - rewrite Eo. intros n Hn. by eapply (q_opener _ _ _ _ _ Q).
  - by intros.
  - intros x Hx. rewrite Hnx by done. by apply (q_live _ _ _ _ _ Q).
  - by apply chain_keep.
  - intros a Ha. rewrite Hnx by (by apply last_Some_elem_of). by apply (q_last _ _ _ _ _ Q).
  - rewrite El. intros a b Hl. destruct (q_link _ _ _ _ _ Q i l a b Hi Hl) as [Hab Hn]. split_and!; [done| |by eapply own_link_other].
    rewrite Hnx; [done|]. by eapply adj_l.
  - intros j m a b Hne Hj Hm Hab Hn. split; [done|]. rewrite Hnx; [done|]. by eapply adj_l.
Qed.

(** The exchange of the tail by a chain of elements. *)
Lemma mpsc_push_list l' nx' h t ns :
  hd_error ns = Some h → last ns = Some t → NoDup ns → (∀ x, x ∈ ns → x ∉ items) →
  (∀ a b, adj ns a b → nx' a = Some (Some b)) → nx' t = Some None → (∀ x, x ∈ items → nx' x = nx x) →
  linking l = None → opener l = None →
  match tl with
  | Some prev => opener l' = None ∧ linking l' = Some (prev, h)
  | None => opener l' = Some h ∧ linking l' = None
  end →
  mpsc nx' head (Some t) (items ++ ns) (<[i:=l']> ths).
Proof.
  intros Hh Ht Hndn Hdis Hch Hnt Hnx Ell Eol Hl'. pose proof (q_tail _ _ _ _ _ Q) as Et. pose proof (q_nodup _ _ _ _ _ Q) as Hnd.
  assert (∀ a b, adj items a b → nx' a = nx a) as Ha by (intros a b [Hin _]%adj_in; by apply Hnx).
  assert (∀ x, x ∈ ns → is_Some (nx' x)) as Hlive.
  { intros x [k Hk]%list_elem_of_lookup. destruct (decide (x = t)) as [->|Hne]; [by rewrite Hnt|].
    destruct (ns !! S k) as [y|] eqn:Ey; [rewrite (Hch x y); [done|by exists k]|]. exfalso. apply Hne.
    apply lookup_ge_None in Ey. pose proof (lookup_lt_Some _ _ _ Hk). rewrite last_lookup in Ht.
    replace (pred (length ns)) with k in Ht by lia. congruence. }
  assert (last (items ++ ns) = Some t) as Hlast by by rewrite last_app, Ht.
  apply (mpsc_update nx head tl items ths i l Q Hi).
  - done.
  - destruct tl as [prev|] eqn:E.
    + destruct Hl' as [Eo _]. unfold opn. rewrite Eo, Eol. destruct items; [done|]. simpl. lia.
    + destruct Hl' as [Eo _]. unfold opn. rewrite Eo, Eol. symmetry in Et. apply last_None in Et. rewrite Et. simpl. rewrite Hh. simpl. lia.
  - intros m Hm. apply (q_head _ _ _ _ _ Q) in Hm. by destruct items.
  - destruct tl as [prev|]; destruct Hl' as [Eo _]; rewrite Eo; [done|]. intros m [= <-].
    symmetry in Et. apply last_None in Et. by rewrite Et.
  - intros j m k _ _ _ Hk. by destruct items.
  - apply NoDup_app. split_and!; [done| |done]. intros x Hx Hx'. by apply (Hdis x).
  - intros x [Hx|Hx]%elem_of_app; [rewrite Hnx by done; by apply (q_live _ _ _ _ _ Q)|by apply Hlive].
  - intros a b [Hab|[Hab|[Hla Hhb]]]%adj_app.
    + rewrite (Ha a b Hab). destruct (q_chain _ _ _ _ _ Q a b Hab) as [|(Hx & j & m & Hj & Hm)]; [by left|right; split; [done|right]].
      exists j, m. split_and!; try done. intros ->. rewrite Hi in Hj. injection Hj as <-. congruence.
    + left. by apply Hch.
    + right. rewrite Hnx by (by apply last_Some_elem_of). split; [by apply (q_last _ _ _ _ _ Q)|left].
      rewrite Et, Hla in Hl'. destruct Hl' as [_ ->]. congruence.
  - intros a. rewrite Hlast. by intros [= <-].
  - intros a b Hl. destruct tl as [prev|]; destruct Hl' as [_ El']; rewrite El' in Hl; [|done]. injection Hl as <- <-.
    symmetry in Et. pose proof (q_last _ _ _ _ _ Q prev Et) as Hp.
    split_and!; [apply adj_app; by right; right|rewrite Hnx by (by apply last_Some_elem_of); done|].
    intros j m b' _ Hj Hm. destruct (q_link _ _ _ _ _ Q j m prev b' Hj Hm) as [Hab _]. by eapply adj_last.
  - intros j m a b _ _ _ Hab Hna. split; [apply adj_app; by left|]. by rewrite (Ha a b).
Qed.

(** The exchange of the tail. *)
Lemma mpsc_push l' nx' n :
  n ∉ items → nx' n = Some None → (∀ x, x ∈ items → nx' x = nx x) → linking l = None → opener l = None →
  match tl with
  | Some prev => opener l' = None ∧ linking l' = Some (prev, n)
  | None => opener l' = Some n ∧ linking l' = None
  end →
  mpsc nx' head (Some n) (items ++ [n]) (<[i:=l']> ths).
Proof.
  intros Hn Hnn Hnx Ell Eol Hl'. apply (mpsc_push_list l' nx' n n [n]); try done.
  - apply NoDup_singleton.
  - by intros x ->%list_elem_of_singleton.
  - intros a b [[?%not_elem_of_nil _]%adj_in|[_ ?]]%adj_cons; done.
Qed.

(** The link behind the last element. *)
Lemma mpsc_link l' nx' prev n :
  linking l = Some (prev, n) → nx' prev = Some (Some n) → (∀ x, x ≠ prev → x ∈ items → nx' x = nx x) →
  linking l' = None → opener l' = opener l → mpsc nx' head tl items (<[i:=l']> ths).
Proof.
  intros El Hp Hnx El' Eo. destruct (q_link _ _ _ _ _ Q i l prev n Hi El) as [Hadj Hpn].
  pose proof (q_nodup _ _ _ _ _ Q) as Hnd.
  apply (mpsc_update nx head tl items ths i l Q Hi); try apply Q.
  - unfold opn. rewrite Eo. lia.
  - rewrite Eo. intros m Hm. by eapply (q_opener _ _ _ _ _ Q).
  - by intros.
  - intros x Hx. destruct (decide (x = prev)) as [->|Hne]; [by rewrite Hp|]. rewrite Hnx by done. by apply (q_live _ _ _ _ _ Q).
  - intros a b Hab. destruct (decide (a = prev)) as [->|Hne].
    + left. rewrite Hp. by rewrite (adj_inj items prev b n Hnd Hab Hadj).
    + rewrite Hnx by (done || by eapply adj_l). destruct (q_chain _ _ _ _ _ Q a b Hab) as [|(Hx & j & m & Hj & Hm)]; [by left|right; split; [done|right]].
      exists j, m. split_and!; try done. intros ->. rewrite Hi in Hj. injection Hj as <-. congruence.
  - intros a Ha. rewrite Hnx; [by apply (q_last _ _ _ _ _ Q)| |by apply last_Some_elem_of]. intros ->. by eapply adj_last.
  - intros a b. by rewrite El'.
  - intros j m a b Hne Hj Hm Hab Hn. split; [done|]. rewrite Hnx; [done| |by eapply adj_l]. intros ->.
    by eapply (own_link_other prev n El j m b).
Qed.

(** The first element becomes the head. *)
Lemma mpsc_set_head l' nx' n :
  opener l = Some n → opener l' = None → linking l' = linking l → (∀ x, x ∈ items → nx' x = nx x) →
  mpsc nx' (Some n) tl items (<[i:=l']> ths).
Proof.
  intros Eo Eo' El Hnx. destruct (opener_alone _ _ _ _ _ i l Q Hi n Eo) as (Eh & Hn & _).
  apply (mpsc_update nx head tl items ths i l Q Hi); try apply Q.
  - unfold opn. rewrite Eo, Eo', Eh. simpl. lia.
  - by intros m [= <-].
  - by rewrite Eo'.
  - by intros.
  - intros x Hx. rewrite Hnx by done. by apply (q_live _ _ _ _ _ Q).
  - by apply chain_keep.
  - intros a Ha. rewrite Hnx by (by apply last_Some_elem_of). by apply (q_last _ _ _ _ _ Q).
  - rewrite El. intros a b Hl. destruct (q_link _ _ _ _ _ Q i l a b Hi Hl) as [Hab Hx]. split_and!; [done| |by eapply own_link_other].
    rewrite Hnx; [done|]. by eapply adj_l.
  - intros j m a b Hne Hj Hm Hab Hx. split; [done|]. rewrite Hnx; [done|]. by eapply adj_l.
Qed.

(** The thread takes the head: it now holds the first element. *)
Lemma mpsc_take_head l' n :
  head = Some n → opener l = None → opener l' = Some n → linking l' = linking l →
  mpsc nx None tl items (<[i:=l']> ths).
Proof.
  intros Eh Eo Eo' El. apply (mpsc_update nx head tl items ths i l Q Hi); try done; try apply Q.
  - unfold opn. rewrite Eo, Eo', Eh. simpl. lia.
  - rewrite Eo'. intros m [= <-]. by apply (q_head _ _ _ _ _ Q).
  - by apply chain_keep.
  - rewrite El. intros a b Hl. destruct (q_link _ _ _ _ _ Q i l a b Hi Hl) as [Hab Hx].
    split_and!; [done|done|by eapply own_link_other].
Qed.

(** The first element goes, and the thread holds the next one. *)
Lemma mpsc_advance l' nx' a r rest :
  items = a :: r :: rest → opener l = Some a → opener l' = Some r → linking l' = linking l → linking l = None →
  nx a = Some (Some r) → (∀ x, x ∈ r :: rest → nx' x = nx x) →
  mpsc nx' head tl (r :: rest) (<[i:=l']> ths).
Proof.
  intros Ei Eo Eo' El Ell Ha Hnx. destruct (opener_alone _ _ _ _ _ i l Q Hi a Eo) as (Eh & _ & Hoth).
  assert (∀ x y, adj (r :: rest) x y → adj items x y) as Hadj by (intros; rewrite Ei; apply adj_cons; by left).
  pose proof (q_nodup _ _ _ _ _ Q) as Hnd. rewrite Ei in Hnd. apply NoDup_cons in Hnd as [Hna Hnd].
  apply (mpsc_update nx head tl items ths i l Q Hi); rewrite ?Eh; try done.
  - rewrite (q_tail _ _ _ _ _ Q), Ei. by rewrite last_cons_cons.
  - unfold opn. rewrite Eo, Eo', Ei. done.
  - rewrite Eo'. by intros n [= <-].
  - intros j m n Hne Hj Hm. by rewrite (Hoth j m Hne Hj) in Hm.
  - intros x Hx. rewrite Hnx by done. apply (q_live _ _ _ _ _ Q). rewrite Ei. by right.
  - intros x y Hxy. rewrite Hnx by (by eapply adj_l).
    destruct (q_chain _ _ _ _ _ Q x y (Hadj x y Hxy)) as [|(Hx & j & m & Hj & Hm)]; [by left|right; split; [done|right]].
    exists j, m. split_and!; try done. intros ->. rewrite Hi in Hj. injection Hj as <-. congruence.
  - intros x Hx. rewrite Hnx by (by apply last_Some_elem_of). apply (q_last _ _ _ _ _ Q). by rewrite Ei, last_cons_cons.
  - rewrite El, Ell. done.
  - intros j m x y Hne Hj Hm Hxy Hx. rewrite Ei in Hxy. apply adj_cons in Hxy as [Hxy|[-> _]]; [|congruence].
    split; [done|]. rewrite Hnx; [done|]. by eapply adj_l.
Qed.

(** The last element goes: the exchange of the tail with null. *)
Lemma mpsc_last l' a :
  tl = Some a → opener l = Some a → opener l' = None → linking l' = None → linking l = None →
  mpsc nx None None [] (<[i:=l']> ths) ∧ items = [a].
Proof.
  intros Et Eo Eo' El El0. destruct (opener_alone _ _ _ _ _ i l Q Hi a Eo) as (Eh & Hh & Hoth).
  assert (items = [a]) as Ei.
  { pose proof (q_tail _ _ _ _ _ Q) as Ht. rewrite Et in Ht. destruct items as [|x [|y rest]] eqn:E; [done|by injection Hh as ->|].
    injection Hh as ->. exfalso. pose proof (q_nodup _ _ _ _ _ Q) as [Hn _]%NoDup_cons. apply Hn.
    rewrite last_cons_cons in Ht. by apply last_Some_elem_of. }
  split; [|done]. apply (mpsc_update nx head tl items ths i l Q Hi); try done.
  - unfold opn. rewrite Eo, Eo', Eh, Ei. done.
  - by rewrite Eo'.
  - intros j m n Hne Hj Hm. by rewrite (Hoth j m Hne Hj) in Hm.
  - apply NoDup_nil_2.
  - by intros x ?%not_elem_of_nil.
  - intros x y [?%not_elem_of_nil _]%adj_in. done.
  - intros x y. by rewrite El.
  - intros j m x y Hne Hj Hm Hxy Hx. rewrite Ei in Hxy. apply adj_cons in Hxy as [[?%not_elem_of_nil _]%adj_in|[_ ?]]; done.
Qed.

(** An element that was taken off goes back to the front, and becomes the head;
    [m] is the next one: the thread holds it, or it is the head. *)
Lemma mpsc_unpop l' nx' n m :
  (opener l = Some m ∨ head = Some m ∧ opener l = None) → opener l' = None → linking l' = None → linking l = None →
  n ∉ items → nx' n = Some (Some m) → (∀ x, x ∈ items → nx' x = nx x) →
  mpsc nx' (Some n) tl (n :: items) (<[i:=l']> ths).
Proof.
  intros Ho Eo' El El0 Hn Hnn Hnx.
  assert (hd_error items = Some m) as Hm.
  { destruct Ho as [Ho|[Ho _]]; [by eapply (q_opener _ _ _ _ _ Q)|by apply (q_head _ _ _ _ _ Q)]. }
  assert (∀ j k, j ≠ i → ths !! j = Some k → opener k = None) as Hoth.
  { intros j k Hne Hj. destruct Ho as [Ho|[Ho _]].
    - by eapply (opener_alone _ _ _ _ _ i l Q Hi m).
    - eapply (nobody_opens _ _ _ _ _ Q); [|done]. left. by rewrite Ho. }
  apply (mpsc_update nx head tl items ths i l Q Hi); try done.
  - rewrite (q_tail _ _ _ _ _ Q). destruct items; [done|]. by rewrite last_cons_cons.
  - unfold opn. rewrite Eo'. destruct Ho as [Ho|[Hh Ho]]; rewrite Ho, Hm; simpl.
    + destruct (opener_alone _ _ _ _ _ i l Q Hi m Ho) as [-> _]. simpl. lia.
    + rewrite Hh. simpl. lia.
  - by rewrite Eo'.
  - intros j k x Hne Hj Hk. by rewrite (Hoth j k Hne Hj) in Hk.
  - apply NoDup_cons. split; [done|apply Q].
  - intros x [->|Hx]%elem_of_cons; [by rewrite Hnn|]. rewrite Hnx by done. by apply (q_live _ _ _ _ _ Q).
  - intros a b [Hab|[-> Hb]]%adj_cons; [|left; rewrite Hnn; congruence].
    rewrite Hnx by (by eapply adj_l). destruct (q_chain _ _ _ _ _ Q a b Hab) as [|(Hx & j & k & Hj & Hk)]; [by left|right; split; [done|right]].
    exists j, k. split_and!; try done. intros ->. rewrite Hi in Hj. injection Hj as <-. congruence.
  - intros a Ha. destruct items as [|x items']; [done|]. rewrite last_cons_cons in Ha.
    rewrite Hnx by (by apply last_Some_elem_of). by apply (q_last _ _ _ _ _ Q).
  - intros a b. by rewrite El.
  - intros j k a b Hne Hj Hk Hab Ha. split; [apply adj_cons; by left|]. rewrite Hnx; [done|]. by eapply adj_l.
Qed.

(** The thread that holds the next one holds it again. *)
Lemma mpsc_retreat l' n m :
  opener l = Some m → opener l' = Some n → linking l' = None → linking l = None →
  n ∉ items → nx n = Some (Some m) → mpsc nx head tl (n :: items) (<[i:=l']> ths).
Proof.
  intros Eo Eo' El El0 Hn Hnn. destruct (opener_alone _ _ _ _ _ i l Q Hi m Eo) as (Eh & Hm & Hoth).
  apply (mpsc_update nx head tl items ths i l Q Hi); rewrite ?Eh; try done.
  - rewrite (q_tail _ _ _ _ _ Q). destruct items; [done|]. by rewrite last_cons_cons.
  - unfold opn. rewrite Eo, Eo', Hm. done.
  - rewrite Eo'. by intros x [= <-].
  - intros j k x Hne Hj Hk. by rewrite (Hoth j k Hne Hj) in Hk.
  - apply NoDup_cons. split; [done|apply Q].
  - intros x [->|Hx]%elem_of_cons; [by rewrite Hnn|]. by apply (q_live _ _ _ _ _ Q).
  - intros a b [Hab|[-> Hb]]%adj_cons; [|left; congruence].
    destruct (q_chain _ _ _ _ _ Q a b Hab) as [|(Hx & j & k & Hj & Hk)]; [by left|right; split; [done|right]].
    exists j, k. split_and!; try done. intros ->. rewrite Hi in Hj. injection Hj as <-. congruence.
  - intros a Ha. destruct items as [|x items']; [done|]. rewrite last_cons_cons in Ha. by apply (q_last _ _ _ _ _ Q).
  - intros a b. by rewrite El.
  - intros j k a b Hne Hj Hk Hab Ha. split; [apply adj_cons; by left|done].
Qed.

(** The first element goes while the head is there, and the next is the head. *)
Lemma mpsc_pop_head l' a r :
  head = Some a → nx a = Some (Some r) → opener l' = None → opener l = None → linking l' = None → linking l = None →
  mpsc nx (Some r) tl (tail items) (<[i:=l']> ths) ∧ items = a :: tail items.
Proof.
  intros Eh Ha Eo' Eo El El0. pose proof (q_head _ _ _ _ _ Q a Eh) as Hh.
  destruct (first_next _ _ _ _ _ Q a r Hh Ha) as [rest Ei].
  assert (∀ j k, ths !! j = Some k → opener k = None) as Hoth by (eapply nobody_opens; [done|]; left; by rewrite Eh).
  assert (∀ x y, adj (r :: rest) x y → adj items x y) as Hadj by (intros; rewrite Ei; apply adj_cons; by left).
  pose proof (q_nodup _ _ _ _ _ Q) as Hnd. rewrite Ei in Hnd. apply NoDup_cons in Hnd as [Hna Hnd].
  rewrite Ei at 1 2. simpl. split; [|by rewrite Ei].
  apply (mpsc_update nx head tl items ths i l Q Hi); try done.
  - rewrite (q_tail _ _ _ _ _ Q), Ei. by rewrite last_cons_cons.
  - unfold opn. rewrite Eo, Eo', Ei, Eh. done.
  - by rewrite Eo'.
  - intros j m n Hne Hj Hm. by rewrite (Hoth j m Hj) in Hm.
  - intros x Hx. apply (q_live _ _ _ _ _ Q). rewrite Ei. by right.
  - intros x y Hxy. destruct (q_chain _ _ _ _ _ Q x y (Hadj x y Hxy)) as [|(Hx & j & m & Hj & Hm)]; [by left|right; split; [done|right]].
    exists j, m. split_and!; try done. intros ->. rewrite Hi in Hj. injection Hj as <-. congruence.
  - intros x Hx. apply (q_last _ _ _ _ _ Q). by rewrite Ei, last_cons_cons.
  - by rewrite El.
  - intros j m x y Hne Hj Hm Hxy Hx. rewrite Ei in Hxy. apply adj_cons in Hxy as [Hxy|[-> _]]; [done|congruence].
Qed.

(** It goes back to an empty list: the exchange of the null tail. *)
Lemma mpsc_unpop_empty l' n :
  tl = None → opener l = None → opener l' = Some n → linking l' = None → linking l = None → nx n = Some None →
  mpsc nx head (Some n) [n] (<[i:=l']> ths) ∧ items = [] ∧ head = None.
Proof.
  intros Et Eo Eo' El El0 Hn.
  assert (items = []) as Ei by (pose proof (q_tail _ _ _ _ _ Q) as H; rewrite Et in H; by apply last_None).
  assert (head = None) as Eh.
  { destruct head as [m|] eqn:E; [|done]. pose proof (q_head _ _ _ _ _ Q m eq_refl) as H. by rewrite Ei in H. }
  split; [|done]. apply (mpsc_update nx head tl items ths i l Q Hi); rewrite ?Eh; try done.
  - unfold opn. rewrite Eo, Eo', Ei. done.
  - rewrite Eo'. by intros m [= <-].
  - intros j m k Hne Hj Hm. assert (opener m = None) as E; [|by rewrite E in Hm].
    eapply (nobody_opens _ _ _ _ _ Q); [|done]. by right.
  - apply NoDup_singleton.
  - by intros x ->%list_elem_of_singleton.
  - intros a b [[?%not_elem_of_nil _]%adj_in|[_ ?]]%adj_cons; done.
  - by intros a [= <-].
  - intros a b. by rewrite El.
  - intros j m a b Hne Hj Hm Hab Ha. rewrite Ei in Hab. by destruct (adj_in _ _ _ Hab) as [?%not_elem_of_nil _].
Qed.
End Operations.
End Mpsc.
