(* ===== verification/Time.v ===== *)
(** * Time (src/time.c, src/shims/time.h)

    A [dispatch_time_t] is 0 (now), a positive value of the monotonic clock, a
    negated wall-clock value in nanoseconds, or [~0] (forever).  The readings
    of the clocks are arguments; on Linux the "mach" time unit is the
    nanosecond.  A signed overflow of the C code is [None]. *)

From S2P Require Import Prelude.

Definition NSEC_PER_SEC : Z := 1000000000.
Definition NSEC_PER_USEC : Z := 1000.
Definition DISPATCH_TIME_NOW : Z := 0.
Definition DISPATCH_TIME_FOREVER : Z := UINT64_MAX.

Record timespec : Type := TS { tv_sec : Z; tv_nsec : Z }.

Definition _dispatch_time_mach2nano (x : Z) : Z := x.
Definition _dispatch_time_nano2mach (x : Z) : Z := x.

(** [gettimeofday] gave [sec] and [usec]. *)
Definition _dispatch_get_nanoseconds (sec usec : Z) : Z :=
  u64 (u64 (sec * NSEC_PER_SEC) + u64 (usec * NSEC_PER_USEC)).

(** [clock_gettime(CLOCK_MONOTONIC)] gave [ts]. *)
Definition _dispatch_absolute_time (ts : timespec) : Z :=
  u64 (u64 (tv_sec ts * NSEC_PER_SEC) + tv_nsec ts).

Definition dispatch_time (now_abs : timespec) (inval delta : Z) : Z :=
  if decide (inval = DISPATCH_TIME_FOREVER) then DISPATCH_TIME_FOREVER
  else if decide (i64 inval < 0) then
    let inval := u64 (inval - delta) in
    if decide (0 ≤ delta) then
      if decide (0 ≤ i64 inval) then DISPATCH_TIME_FOREVER else inval
    else
      if decide (-1 ≤ i64 inval) then u64 (-2) else inval
  else
    let delta := _dispatch_time_nano2mach delta in
    let inval := if decide (inval = 0) then _dispatch_absolute_time now_abs else inval in
    let inval := u64 (inval + delta) in
    if decide (0 ≤ delta) then
      if decide (i64 inval ≤ 0) then DISPATCH_TIME_FOREVER else inval
    else
      if decide (i64 inval < 1) then 1 else inval.

(** [now_wall]: the seconds and microseconds of [gettimeofday]. *)
Definition dispatch_walltime (now_wall : Z * Z) (inval : option timespec) (delta : Z) : option Z :=
  let nsec :=
    match inval with
    | Some ts => i64 (u64 (u64 (tv_sec ts * 1000000000) + tv_nsec ts))
    | None => i64 (_dispatch_get_nanoseconds now_wall.1 now_wall.2)
    end in
  let sum := nsec + delta in
  if decide (sum < INT64_MIN ∨ INT64_MAX < sum) then None
  else if decide (sum ≤ 1) then
    Some (if decide (0 ≤ delta) then DISPATCH_TIME_FOREVER else u64 (-2))
  else Some (u64 (- sum)).

(** The negation of [INT64_MIN] overflows. *)
Definition _dispatch_timeout (now_wall : Z * Z) (now_abs : timespec) (when : Z) : option Z :=
  if decide (when = DISPATCH_TIME_FOREVER) then Some DISPATCH_TIME_FOREVER
  else if decide (when = 0) then Some 0
  else if decide (i64 when < 0) then
    if decide (i64 when = INT64_MIN) then None
    else
      let when := u64 (- i64 when) in
      let now := _dispatch_get_nanoseconds now_wall.1 now_wall.2 in
      Some (if decide (when ≤ now) then 0 else u64 (when - now))
  else
    let now := _dispatch_absolute_time now_abs in
    Some (if decide (when ≤ now) then 0 else _dispatch_time_mach2nano (u64 (when - now))).

(** The absolute, real time of POSIX semaphores (not compiled on Linux, where
    semaphores are futexes).  [now_real]: [clock_gettime(CLOCK_REALTIME)]. *)
Definition _dispatch_timeout_ts (now_real now_abs : timespec) (when : Z) : option timespec :=
  if decide (when = 0) then Some now_real
  else if decide (i64 when < 0) then
    if decide (i64 when = INT64_MIN) then None
    else
      let when := u64 (- i64 when) in
      Some (TS (when / NSEC_PER_SEC) (when mod NSEC_PER_SEC))
  else
    let abstime := _dispatch_absolute_time now_abs in
    let realtime := u64 (u64 (u64 (tv_sec now_real * NSEC_PER_SEC) + tv_nsec now_real)
                         + u64 (when - abstime)) in
    Some (TS (realtime / NSEC_PER_SEC) (realtime mod NSEC_PER_SEC)).

(** The timeout of a relative wait, as the semaphores compute it. *)
Definition relative_timeout (nsec : Z) : timespec :=
  TS (nsec / NSEC_PER_SEC) (nsec mod NSEC_PER_SEC).

(** ** Meaning *)

(** A deadline: never, or an instant of one of the two clocks. *)
Inductive deadline : Type :=
  | Forever
  | OnMonotonic (t : Z)
  | OnWall (t : Z).

(** The deadline of an encoded time, 0 being the instant [now] of the monotonic
    clock. *)
Definition denote (now : Z) (when : Z) : deadline :=
  if decide (when = DISPATCH_TIME_FOREVER) then Forever
  else if decide (when = 0) then OnMonotonic now
  else if decide (2 ^ 63 ≤ when) then OnWall (2 ^ 64 - when)
  else OnMonotonic when.

(** [delta] nanoseconds later, saturating: beyond the range of the encoding it
    is forever, and it is never before the first instant that can be encoded. *)
Definition later (d : deadline) (delta : Z) : deadline :=
  match d with
  | Forever => Forever
  | OnMonotonic t =>
      if decide (0 ≤ delta) then if decide (t + delta < 2 ^ 63) then OnMonotonic (t + delta) else Forever
      else OnMonotonic (Z.max 1 (t + delta))
  | OnWall t =>
      if decide (0 ≤ delta) then if decide (t + delta ≤ 2 ^ 63) then OnWall (t + delta) else Forever
      else OnWall (Z.max 2 (t + delta))
  end.

(** The nanoseconds left until a deadline. *)
Definition remaining (now_wall now_abs : Z) (d : deadline) : Z :=
  match d with
  | Forever => DISPATCH_TIME_FOREVER
  | OnMonotonic t => Z.max 0 (t - now_abs)
  | OnWall t => Z.max 0 (t - now_wall)
  end.

Lemma i64_neg x : 0 ≤ x < 2 ^ 64 → i64 x = if decide (2 ^ 63 ≤ x) then x - 2 ^ 64 else x.
Proof. intros. case_decide; mlia. Qed.

(** A clock reading that fits: until the year 2262. *)
Definition clock_ok (ts : timespec) : Prop :=
  0 ≤ tv_sec ts ∧ 0 ≤ tv_nsec ts < NSEC_PER_SEC ∧
  0 < tv_sec ts * NSEC_PER_SEC + tv_nsec ts < 2 ^ 63.

Lemma absolute_time_ok ts :
  clock_ok ts → _dispatch_absolute_time ts = tv_sec ts * NSEC_PER_SEC + tv_nsec ts.
Proof. unfold clock_ok, _dispatch_absolute_time, NSEC_PER_SEC. intros. mlia. Qed.

(** ** Correctness *)

Section TimeSpec.
Context (now : timespec) (Hnow : clock_ok now).
Abbreviation now_ns := (_dispatch_absolute_time now).

Lemma now_range : 0 < now_ns < 2 ^ 63.
Proof. rewrite absolute_time_ok by done. apply Hnow. Qed.

(** [dispatch_time] moves a deadline by [delta], saturating. *)
Lemma dispatch_time_denote when delta :
  0 ≤ when < 2 ^ 64 → - 2 ^ 63 ≤ delta < 2 ^ 63 →
  denote now_ns (dispatch_time now when delta) = later (denote now_ns when) delta.
Proof.
  intros Hw Hd. pose proof now_range as Hn. unfold dispatch_time, DISPATCH_TIME_FOREVER.
  unfold denote at 2, DISPATCH_TIME_FOREVER. case_decide as Hf; [done|].
  assert (when < 2 ^ 64 - 1) by (revert Hf; consts; lia).
  rewrite (i64_neg when) by done. unfold _dispatch_time_nano2mach.
  destruct (decide (2 ^ 63 ≤ when)) as [Hhi|Hlo].
  - dec. cbn [later]. destruct (decide (0 ≤ delta)).
    + rewrite (wrapU_small 64 (when - delta)) by lia. rewrite i64_neg by lia.
      destruct (decide (2 ^ 63 ≤ when - delta)); dec; [|done].
      unfold denote, DISPATCH_TIME_FOREVER. dec. f_equal. lia.
    + destruct (decide (-1 ≤ i64 (u64 (when - delta)))) as [Hu|Hu].
      * change (u64 (-2)) with (2 ^ 64 - 2). unfold denote, DISPATCH_TIME_FOREVER. dec.
        f_equal. revert Hu. mlia.
      * assert (u64 (when - delta) = when - delta ∧ when - delta < 2 ^ 64 - 1) as [-> ?]
          by (revert Hu; mlia).
        unfold denote, DISPATCH_TIME_FOREVER. dec. f_equal. lia.
  - dec. set (base := if decide (when = 0) then now_ns else when).
    assert (0 < base < 2 ^ 63) as Hb by (unfold base; case_decide; lia).
    assert ((if decide (when = 0) then OnMonotonic now_ns else OnMonotonic when) =
            OnMonotonic base) as -> by (unfold base; by case_decide).
    cbn [later]. destruct (decide (0 ≤ delta)).
    + rewrite (wrapU_small 64) by lia. rewrite i64_neg by lia.
      destruct (decide (2 ^ 63 ≤ base + delta)); dec; [done|].
      unfold denote, DISPATCH_TIME_FOREVER. by dec.
    + destruct (decide (i64 (u64 (base + delta)) < 1)) as [Hu|Hu];
        unfold denote, DISPATCH_TIME_FOREVER.
      * dec. f_equal. revert Hu. mlia.
      * assert (u64 (base + delta) = base + delta) as -> by (revert Hu; mlia).
        assert (1 ≤ base + delta) by (revert Hu; mlia). dec. f_equal. lia.
Qed.

(** The deadline of a wall-clock time [t] nanoseconds after the epoch, moved
    by [delta]: an instant before 2 is forever when time moves forward. *)
Definition wall_later (t delta : Z) : deadline :=
  if decide (t + delta ≤ 1) then if decide (0 ≤ delta) then Forever else OnWall 2
  else OnWall (t + delta).

Lemma dispatch_walltime_denote wall inval delta t :
  (match inval with
   | Some ts => t = tv_sec ts * NSEC_PER_SEC + tv_nsec ts
   | None => t = wall.1 * NSEC_PER_SEC + wall.2 * NSEC_PER_USEC
   end) →
  - 2 ^ 63 ≤ t < 2 ^ 63 → - 2 ^ 63 ≤ delta < 2 ^ 63 →
  match dispatch_walltime wall inval delta with
  | Some when => fits 64 when ∧ denote now_ns when = wall_later t delta
  | None => ¬ (- 2 ^ 63 ≤ t + delta < 2 ^ 63)
  end.
Proof.
  intros Ht Hr Hd. unfold dispatch_walltime.
  assert (match inval with
          | Some ts => i64 (u64 (u64 (tv_sec ts * 1000000000) + tv_nsec ts))
          | None => i64 (_dispatch_get_nanoseconds wall.1 wall.2)
          end = t) as ->.
  { destruct inval as [ts|]; subst t; unfold _dispatch_get_nanoseconds, NSEC_PER_SEC, NSEC_PER_USEC in *; mlia. }
  destruct (decide (t + delta < INT64_MIN ∨ INT64_MAX < t + delta)) as [Ho|Ho]; [revert Ho; consts; lia|].
  unfold wall_later, denote, DISPATCH_TIME_FOREVER. destruct (decide (t + delta ≤ 1)).
  - destruct (decide (0 ≤ delta)); [done|].
    change (u64 (-2)) with (2 ^ 64 - 2). dec. split; [consts; lia|]. f_equal.
  - assert (u64 (- (t + delta)) = 2 ^ 64 - (t + delta)) as -> by (revert Ho; mlia).
    assert (t + delta < 2 ^ 63) by (revert Ho; consts; lia). dec.
    split; [consts; lia|]. f_equal. lia.
Qed.

Lemma dispatch_timeout_remaining wall when :
  0 ≤ when < 2 ^ 64 → when ≠ 2 ^ 63 →
  0 ≤ wall.1 * NSEC_PER_SEC + wall.2 * NSEC_PER_USEC < 2 ^ 64 → 0 ≤ wall.1 → 0 ≤ wall.2 →
  _dispatch_timeout wall now when =
  Some (remaining (wall.1 * NSEC_PER_SEC + wall.2 * NSEC_PER_USEC) now_ns (denote now_ns when)).
Proof.
  intros Hw Hm Hwall H1 H2. unfold _dispatch_timeout, denote, DISPATCH_TIME_FOREVER.
  pose proof now_range as Hn.
  case_decide as Hf; [done|]. assert (when < 2 ^ 64 - 1) by (revert Hf; consts; lia).
  case_decide as H0; [cbn [remaining]; f_equal; lia|].
  rewrite (i64_neg when) by done.
  assert (_dispatch_get_nanoseconds wall.1 wall.2 =
          wall.1 * NSEC_PER_SEC + wall.2 * NSEC_PER_USEC) as ->.
  { unfold _dispatch_get_nanoseconds, NSEC_PER_SEC, NSEC_PER_USEC in *. mlia. }
  destruct (decide (2 ^ 63 ≤ when)); dec; cbn [remaining].
  - replace (- (when - 2 ^ 64)) with (2 ^ 64 - when) by lia.
    rewrite (wrapU_small 64) by lia. f_equal. case_decide; [lia|].
    rewrite wrapU_small by lia. lia.
  - f_equal. unfold _dispatch_time_mach2nano. case_decide; [lia|]. rewrite wrapU_small by lia. lia.
Qed.
End TimeSpec.
