(* ===== verification/TimeTheorems.v ===== *)
(** * Times: the properties of time.c

    A [dispatch_time_t] denotes a deadline ([denote]); the functions are correct
    for the deadlines, with saturation. *)

From S2P Require Import Prelude Time.

(** C39. [dispatch_time] moves the deadline a time denotes by [delta]
    nanoseconds, on the clock of the time; past the range of the encoding the
    result is forever, never an earlier deadline. *)
Theorem dispatch_time_correct now when delta :
  clock_ok now → 0 ≤ when < 2 ^ 64 → - 2 ^ 63 ≤ delta < 2 ^ 63 →
  denote (_dispatch_absolute_time now) (dispatch_time now when delta) =
  later (denote (_dispatch_absolute_time now) when) delta.
Proof. intros. by apply dispatch_time_denote. Qed.

Lemma dispatch_time_correct_witness :
  denote 5000000007 (dispatch_time (TS 5 7) 0 (2 ^ 63 - 1)) = Forever ∧
  denote 5000000007 (dispatch_time (TS 5 7) 0 3) = OnMonotonic 5000000010.
Proof.
  split.
  - apply (dispatch_time_correct (TS 5 7) 0 (2 ^ 63 - 1)); done.
  - apply (dispatch_time_correct (TS 5 7) 0 3); done.
Defined.

(** [_dispatch_timeout]: the nanoseconds left until the deadline on its
    clock, zero when it has passed, forever for forever. *)
Theorem dispatch_timeout_correct now wall when :
  clock_ok now → 0 ≤ when < 2 ^ 64 → when ≠ 2 ^ 63 →
  0 ≤ wall.1 * NSEC_PER_SEC + wall.2 * NSEC_PER_USEC < 2 ^ 64 → 0 ≤ wall.1 → 0 ≤ wall.2 →
  _dispatch_timeout wall now when =
  Some (remaining (wall.1 * NSEC_PER_SEC + wall.2 * NSEC_PER_USEC) (_dispatch_absolute_time now)
          (denote (_dispatch_absolute_time now) when)).
Proof. intros. by apply dispatch_timeout_remaining. Qed.

Lemma dispatch_timeout_correct_witness :
  _dispatch_timeout (1000, 0) (TS 5 7) 5000000010 = Some 3.
Proof. apply (dispatch_timeout_correct (TS 5 7) (1000, 0) 5000000010); done. Defined.

(** [dispatch_walltime]: the deadline on the wall clock [delta] nanoseconds
    after the given time; the only failure is the overflow of the signed sum,
    which C leaves undefined, and it happens exactly when the sum is out of
    range. *)
Theorem dispatch_walltime_correct now wall inval delta t :
  (match inval with
   | Some ts => t = tv_sec ts * NSEC_PER_SEC + tv_nsec ts
   | None => t = wall.1 * NSEC_PER_SEC + wall.2 * NSEC_PER_USEC
   end) →
  - 2 ^ 63 ≤ t < 2 ^ 63 → - 2 ^ 63 ≤ delta < 2 ^ 63 →
  match dispatch_walltime wall inval delta with
  | Some when => fits 64 when ∧ denote (_dispatch_absolute_time now) when = wall_later t delta
  | None => ¬ (- 2 ^ 63 ≤ t + delta < 2 ^ 63)
  end.
Proof. intros. by apply dispatch_walltime_denote. Qed.

Lemma dispatch_walltime_correct_witness :
  dispatch_walltime (0, 0) (Some (TS 1 0)) (2 ^ 63 - 1) = None ∧
  denote 5 (2 ^ 64 - 1000000003) = wall_later 1000000000 3.
Proof.
  split; [reflexivity|].
  pose proof (dispatch_walltime_correct (TS 0 5) (0, 0) (Some (TS 1 0)) 3 1000000000
    eq_refl ltac:(done) ltac:(done)) as [_ H]. exact H.
Defined.
