(* ===== verification/Futex.v ===== *)
(** * The futex semaphore (src/semaphore.c, [dispatch_futex_t])

    A 64-bit word: the count in the low half, the number of waiters in the high
    half.  Each function is a small machine; a step is one atomic access or one
    system call.  The kernel's queue of sleeping threads is part of the state. *)

From S2P Require Import Prelude Conc Time.

(** ** State *)

Inductive errno : Type := EINTR | ETIMEDOUT | EWOULDBLOCK.

Record dispatch_futex_t : Type := Futex {
  dfx_data : Z;
  k_sleep : gset nat
}.

(** What the kernel (or the scheduler) decides. *)
Inductive kchoice : Type :=
  | K_go
  | K_wake (i : nat)
  | K_signal
  | K_spurious
  | K_timeout.

Definition DISPATCH_FUTEX_NUM_SPINS : Z := 100.
Definition DISPATCH_FUTEX_VALUE_MAX : Z := INT_MAX.
Definition DISPATCH_FUTEX_NWAITERS_SHIFT : Z := 32.
Definition DISPATCH_FUTEX_VALUE_MASK : Z := Z.shiftl 1 DISPATCH_FUTEX_NWAITERS_SHIFT - 1.
Definition one_waiter : Z := Z.shiftl 1 DISPATCH_FUTEX_NWAITERS_SHIFT.

Definition set_data (x : Z) (g : dispatch_futex_t) : dispatch_futex_t := Futex x (k_sleep g).
Definition set_sleep (s : gset nat) (g : dispatch_futex_t) : dispatch_futex_t := Futex (dfx_data g) s.

Definition _dispatch_futex_init : dispatch_futex_t := Futex 0 ∅.

(** ** Signal *)

Inductive signal_pc : Type :=
  | S_read
  | S_cas (orig : Z)
  | S_wake
  | S_done
  | S_crash (f : fault).

Definition _dispatch_futex_signal (c : kchoice) (p : signal_pc) (g : dispatch_futex_t)
  : option (signal_pc * dispatch_futex_t) :=
  match p with
  | S_read =>
      let orig := dfx_data g in
      if decide (Z.land orig DISPATCH_FUTEX_VALUE_MASK = DISPATCH_FUTEX_VALUE_MAX)
      then Some (S_crash (DISPATCH_CRASH "semaphore overflow"), g)
      else Some (S_cas orig, g)
  | S_cas orig =>
      if decide (dfx_data g = orig) then
        Some (if decide (Z.shiftr orig DISPATCH_FUTEX_NWAITERS_SHIFT ≠ 0) then S_wake else S_done,
              set_data (u64 (orig + 1)) g)
      else Some (S_read, g)
  | S_wake =>
      (* FUTEX_WAKE of one thread: one of the sleeping, if there is one *)
      if decide (k_sleep g = ∅) then Some (S_done, g)
      else match c with
           | K_wake i => if decide (i ∈ k_sleep g) then Some (S_done, set_sleep (k_sleep g ∖ {[i]}) g)
                         else None
           | _ => None
           end
  | S_done | S_crash _ => None
  end.

(** ** Wait *)

Inductive try_pc : Type :=
  | T_read
  | T_cas (orig : Z).

(** [inr 0] and [inr (-1)] are the results. *)
Definition _dispatch_futex_trywait (p : try_pc) (g : dispatch_futex_t)
  : (try_pc + Z) * dispatch_futex_t :=
  match p with
  | T_read =>
      let orig := dfx_data g in
      if decide (Z.land orig DISPATCH_FUTEX_VALUE_MASK ≠ 0) then (inl (T_cas orig), g)
      else (inr (-1), g)
  | T_cas orig =>
      if decide (dfx_data g = orig) then (inr 0, set_data (u64 (orig - 1)) g)
      else (inl T_read, g)
  end.

(** [W_done None]: the result is 0; [W_done (Some e)]: it is -1 with [errno] [e]. *)
Inductive wait_pc : Type :=
  | W_first (p : try_pc)
  | W_spin (spins : Z)
  | W_loop (p : try_pc)
  | W_add
  | W_syscall
  | W_kernel
  | W_sub (ret : option errno)
  | W_again (p : try_pc)
  | W_done (ret : option errno).

Definition _dispatch_futex_wait_slow (timeout : option timespec) (c : kchoice) (i : nat)
    (p : wait_pc) (g : dispatch_futex_t) : option (wait_pc * dispatch_futex_t) :=
  match p with
  | W_spin spins =>
      if decide (spins = 0) then Some (W_loop T_read, g)
      else if decide (dfx_data g = 0) then Some (W_spin (spins - 1), g)
      else Some (W_loop T_read, g)
  | W_loop p =>
      let '(r, g) := _dispatch_futex_trywait p g in
      Some (match r with inl p => W_loop p | inr 0 => W_done None | inr _ => W_add end, g)
  | W_add => Some (W_syscall, set_data (u64 (dfx_data g + one_waiter)) g)
  | W_syscall =>
      (* FUTEX_WAIT: sleep if the low word is still 0; it can return 0 without a FUTEX_WAKE *)
      if decide (Z.land (dfx_data g) DISPATCH_FUTEX_VALUE_MASK = 0)
      then Some (W_kernel, set_sleep ({[i]} ∪ k_sleep g) g)
      else Some (W_sub (Some EWOULDBLOCK), g)
  | W_kernel =>
      if decide (i ∉ k_sleep g) then Some (W_sub None, g)
      else match c, timeout with
           | K_signal, _ => Some (W_sub (Some EINTR), set_sleep (k_sleep g ∖ {[i]}) g)
           | K_spurious, _ => Some (W_sub None, set_sleep (k_sleep g ∖ {[i]}) g)
           | K_timeout, Some _ => Some (W_sub (Some ETIMEDOUT), set_sleep (k_sleep g ∖ {[i]}) g)
           | _, _ => None
           end
  | W_sub ret =>
      Some (match ret, timeout with
            | Some EWOULDBLOCK, None => W_loop T_read
            | Some EWOULDBLOCK, Some _ => W_again T_read
            | Some e, _ => W_done (Some e)
            | None, _ => W_loop T_read
            end, set_data (u64 (dfx_data g - one_waiter)) g)
  | W_again p =>
      let '(r, g) := _dispatch_futex_trywait p g in
      Some (match r with inl p => W_again p | inr 0 => W_done None | inr _ => W_done (Some EINTR) end, g)
  | W_first _ | W_done _ => None
  end.

Definition _dispatch_futex_wait (timeout : option timespec) (c : kchoice) (i : nat)
    (p : wait_pc) (g : dispatch_futex_t) : option (wait_pc * dispatch_futex_t) :=
  match p with
  | W_first p =>
      let '(r, g) := _dispatch_futex_trywait p g in
      Some (match r with
            | inl p => W_first p
            | inr 0 => W_done None
            | inr _ => W_spin DISPATCH_FUTEX_NUM_SPINS
            end, g)
  | p => _dispatch_futex_wait_slow timeout c i p g
  end.

(** ** A thread's futex activity *)

Inductive futex_op : Type :=
  | F_idle
  | F_signal (p : signal_pc)
  | F_wait (timeout : option timespec) (p : wait_pc).

Definition futex_step (c : kchoice) (i : nat) (a : futex_op) (g : dispatch_futex_t)
  : option (futex_op * dispatch_futex_t) :=
  match a with
  | F_idle => None
  | F_signal p => '(p, g) ← _dispatch_futex_signal c p g; Some (F_signal p, g)
  | F_wait t p => '(p, g) ← _dispatch_futex_wait t c i p g; Some (F_wait t p, g)
  end.

(** ** Accounting *)

(** The count and the number of waiters of the word. *)
Definition count (g : dispatch_futex_t) : Z := dfx_data g mod 2 ^ 32.
Definition nwaiters (g : dispatch_futex_t) : Z := dfx_data g / 2 ^ 32.

(** Has added itself to the waiters. *)
Definition registered (a : futex_op) : Z :=
  match a with F_wait _ (W_syscall | W_kernel | W_sub _) => 1 | _ => 0 end.

(** Is about to wake a sleeping thread. *)
Definition waking (a : futex_op) : Z := match a with F_signal S_wake => 1 | _ => 0 end.

(** Is awake and will look at the count again before it gives up. *)
Definition retrying (s : gset nat) (i : nat) (a : futex_op) : Z :=
  match a with
  | F_wait _ (W_loop _ | W_syscall | W_sub None | W_sub (Some EWOULDBLOCK) | W_again _) => 1
  | F_wait _ W_kernel => if decide (i ∈ s) then 0 else 1
  | _ => 0
  end.

(** Takes part in nothing. *)
Definition inert (a : futex_op) : bool :=
  match a with
  | F_idle | F_signal (S_read | S_cas _ | S_done | S_crash _) => true
  | F_wait _ (W_first _ | W_spin _ | W_add | W_done _) => true
  | _ => false
  end.

(** A post that has not reached the count, a wait that has not taken from it. *)
Definition to_post (a : futex_op) : Z :=
  match a with F_signal (S_read | S_cas _ | S_crash _) => 1 | _ => 0 end.
Definition to_take (a : futex_op) : Z :=
  match a with F_wait _ (W_done None) => 0 | F_wait _ _ => 1 | _ => 0 end.

(** What a compare-and-swap relies on since the word was read. *)
Definition try_ok (p : try_pc) : Prop :=
  match p with T_cas orig => orig mod 2 ^ 32 ≠ 0 | T_read => True end.
Definition local_ok (a : futex_op) : Prop :=
  match a with
  | F_signal (S_cas orig) => orig mod 2 ^ 32 ≠ INT_MAX
  | F_wait _ (W_first p | W_loop p | W_again p) => try_ok p
  | _ => True
  end.

(** The invariant, over the threads of any component that uses one futex:
    [view] is what a thread does to the futex. *)
Section Invariant.
Context {L : Type} (view : L → futex_op).

Definition waiters (ths : gmap nat L) : Z := tsum (λ _ l, registered (view l)) ths.
Definition wakers (g : dispatch_futex_t) (ths : gmap nat L) : Z :=
  tsum (λ i l, waking (view l) + retrying (k_sleep g) i (view l)) ths.

Record futex_inv (g : dispatch_futex_t) (ths : gmap nat L) : Prop := FutexInv {
  f_count : 0 ≤ count g ≤ INT_MAX;
  f_word : dfx_data g = count g + 2 ^ 32 * waiters ths;
  f_asleep : ∀ i, i ∈ k_sleep g → ∃ l t, ths !! i = Some l ∧ view l = F_wait t W_kernel;
  f_wakers : k_sleep g ≠ ∅ → count g ≤ wakers g ths;
  f_local : ∀ i l, ths !! i = Some l → local_ok (view l)
}.
End Invariant.

(** ** Preservation *)

Lemma low_word x : Z.land x DISPATCH_FUTEX_VALUE_MASK = x mod 2 ^ 32.
Proof. change DISPATCH_FUTEX_VALUE_MASK with (2 ^ 32 - 1). by apply land_mask. Qed.

Lemma high_word x : Z.shiftr x DISPATCH_FUTEX_NWAITERS_SHIFT = x / 2 ^ 32.
Proof. unfold DISPATCH_FUTEX_NWAITERS_SHIFT. by rewrite Z.shiftr_div_pow2. Qed.

Section Preservation.
Context {L : Type} (view : L → futex_op).
Abbreviation inv := (futex_inv view).
Abbreviation waiters := (waiters view).
Abbreviation wakers := (wakers view).

Lemma registered_range a : 0 ≤ registered a ≤ 1.
Proof. destruct a as [|[]|? []]; simpl; lia. Qed.

Lemma waiters_range ths : 0 ≤ waiters ths ≤ Z.of_nat (size ths).
Proof.
  split.
  - apply tsum_nonneg. intros i l _. apply registered_range.
  - rewrite <- tsum_const. apply tsum_le. intros i l _. apply registered_range.
Qed.

Lemma waiters_step ths i l l' :
  ths !! i = Some l →
  waiters (<[i:=l']> ths) = waiters ths - registered (view l) + registered (view l').
Proof. intros. unfold Futex.waiters. by rewrite (tsum_step _ ths i l). Qed.

Lemma weight_nonneg s i a : 0 ≤ waking a + retrying s i a.
Proof. destruct a as [|[]|? [| | | | | |[[]|]| |]]; simpl; try case_decide; lia. Qed.

Lemma wakers_nonneg g ths : 0 ≤ wakers g ths.
Proof. apply tsum_nonneg. intros i l _. apply weight_nonneg. Qed.

(** A step of thread [i] that changes at most its own sleep. *)
Lemma wakers_step g g' ths i l l' :
  ths !! i = Some l → (∀ j, j ≠ i → j ∈ k_sleep g' ↔ j ∈ k_sleep g) →
  wakers g' (<[i:=l']> ths) =
  wakers g ths - (waking (view l) + retrying (k_sleep g) i (view l))
             + (waking (view l') + retrying (k_sleep g') i (view l')).
Proof.
  intros Hi Hs. unfold Futex.wakers.
  rewrite (tsum_except (λ i l, waking (view l) + retrying (k_sleep g) i (view l)) _ _ i l');
    [|by rewrite lookup_insert_eq|].
  - rewrite (tsum_step _ ths i l l' Hi). lia.
  - intros j k Hj. f_equal. specialize (Hs j Hj).
    destruct (view k) as [| |t []]; simpl; try done. repeat case_decide; tauto.
Qed.

(** Thread [i] wakes thread [j]. *)
Lemma wakers_wake g ths i l l' j k t :
  ths !! i = Some l → ths !! j = Some k → view k = F_wait t W_kernel → i ≠ j → j ∈ k_sleep g →
  wakers (set_sleep (k_sleep g ∖ {[j]}) g) (<[i:=l']> ths) =
  wakers g ths - (waking (view l) + retrying (k_sleep g) i (view l))
             + (waking (view l') + retrying (k_sleep g ∖ {[j]}) i (view l')) + 1.
Proof.
  intros Hi Hj Hk Hne Hin. set (g1 := set_sleep (k_sleep g ∖ {[j]}) g).
  assert (wakers g1 ths = wakers g ths + 1) as Hw.
  { unfold Futex.wakers, g1. simpl.
    rewrite (tsum_except (λ i l, waking (view l) + retrying (k_sleep g) i (view l)) _ _ j k Hj).
    - rewrite Hk. simpl. rewrite decide_True by done. rewrite decide_False by set_solver. lia.
    - intros x y Hx. f_equal. destruct (view y) as [| |? []]; simpl; try done.
      repeat case_decide; set_solver. }
  rewrite (wakers_step g1 g1 ths i l l') by done. rewrite Hw. simpl.
  assert (retrying (k_sleep g ∖ {[j]}) i (view l) = retrying (k_sleep g) i (view l)) as ->; [|lia].
  destruct (view l) as [| |? []]; simpl; try done. repeat case_decide; set_solver.
Qed.

(** The word after the count moved by [dc] and the waiters by [dw]. *)
Lemma word_update g ths dc dw :
  inv g ths → 0 ≤ count g + dc ≤ INT_MAX → 0 ≤ waiters ths + dw < 2 ^ 32 →
  let g' := set_data (u64 (dfx_data g + dc + 2 ^ 32 * dw)) g in
  count g' = count g + dc ∧ dfx_data g' = count g' + 2 ^ 32 * (waiters ths + dw).
Proof.
  intros I Hc Hw g'. pose proof (f_word _ _ _ I) as E. unfold g', count, set_data. simpl.
  set (c := count g) in *. change (dfx_data g mod 2 ^ 32) with c.
  rewrite E. clearbody c. set (wt := waiters ths) in *. clearbody wt. mlia.
Qed.

Lemma waiters_word g ths : inv g ths → dfx_data g / 2 ^ 32 = waiters ths.
Proof.
  intros I. rewrite (f_word _ _ _ I). pose proof (f_count _ _ _ I). set (c := count g) in *. clearbody c.
  set (wt := waiters ths). clearbody wt. mlia.
Qed.

(** Nobody is registered: nobody sleeps. *)
Lemma asleep_registered g ths : inv g ths → waiters ths = 0 → k_sleep g = ∅.
Proof.
  intros I Hz. apply set_eq. intros i. split; [|set_solver]. intros Hi. exfalso.
  destruct (f_asleep _ _ _ I i Hi) as (l & t & Hl & Hv).
  pose proof (tsum_ge (λ _ l, registered (view l)) ths i l (λ _ _ _, proj1 (registered_range _)) Hl) as H.
  change (tsum (λ _ l, registered (view l)) ths) with (waiters ths) in H. rewrite Hz, Hv in H. simpl in H. lia.
Qed.

Lemma local_step g ths i l' :
  inv g ths → local_ok (view l') → ∀ j k, <[i:=l']> ths !! j = Some k → local_ok (view k).
Proof. intros I Hl j k [[_ <-]|[_ Hk]]%lookup_insert_Some; [done|by eapply f_local]. Qed.

(** How a step leaves the invariant: what it does to the word and to the queue
    of sleepers, and what is left to show of the wakers. *)
Lemma inv_word_step g ths i l l' dc :
  inv g ths → ths !! i = Some l → 0 ≤ count g + dc ≤ INT_MAX →
  Z.of_nat (size ths) < 2 ^ 32 →
  (∀ t, view l ≠ F_wait t W_kernel) → local_ok (view l') →
  let dw := registered (view l') - registered (view l) in
  let g' := set_data (u64 (dfx_data g + dc + 2 ^ 32 * dw)) g in
  (k_sleep g ≠ ∅ → count g + dc ≤ wakers g' (<[i:=l']> ths)) →
  inv g' (<[i:=l']> ths) ∧ count g' = count g + dc.
Proof.
  intros I Hi Hc Hn Hk Hlo dw g' Hw.
  pose proof (waiters_step ths i l l' Hi) as Ew. pose proof (waiters_range (<[i:=l']> ths)) as Hr.
  rewrite map_size_insert_Some in Hr by by eexists.
  destruct (word_update g ths dc dw I Hc) as [Ec Ed]; [unfold dw; lia|]. fold g' in Ec, Ed.
  split; [|done]. split.
  - by rewrite Ec.
  - rewrite Ed, Ew. unfold dw. lia.
  - intros j Hj. destruct (f_asleep _ _ _ I j Hj) as (k & t & Hk' & Hv).
    destruct (decide (j = i)) as [->|Hne].
    + assert (k = l) as -> by congruence. by apply Hk in Hv.
    + exists k, t. by rewrite lookup_insert_ne.
  - rewrite Ec. done.
  - by eapply local_step.
Qed.

(** A step that does not touch the word. *)
Lemma inv_sleep_step g ths i l l' s' :
  inv g ths → ths !! i = Some l → registered (view l') = registered (view l) →
  local_ok (view l') → (∀ j, j ∈ s' → j ≠ i → j ∈ k_sleep g) →
  (i ∈ s' → ∃ t, view l' = F_wait t W_kernel) →
  (s' ≠ ∅ → count g ≤ wakers (set_sleep s' g) (<[i:=l']> ths)) →
  inv (set_sleep s' g) (<[i:=l']> ths).
Proof.
  intros I Hi Hr Hlo Hs Hs' Hw. split.
  - apply I.
  - rewrite (waiters_step ths i l l' Hi), Hr. simpl. rewrite (f_word _ _ _ I). change (count (set_sleep s' g)) with (count g). lia.
  - simpl. intros j Hj. destruct (decide (j = i)) as [->|Hne].
    + destruct (Hs' Hj) as [t Ht]. exists l', t. by rewrite lookup_insert_eq.
    + destruct (f_asleep _ _ _ I j (Hs j Hj Hne)) as (k & t & ? & ?).
      exists k, t. by rewrite lookup_insert_ne.
  - exact Hw.
  - by eapply local_step.
Qed.

Lemma set_sleep_same g : set_sleep (k_sleep g) g = g.
Proof. by destruct g. Qed.

(** A step that touches neither. *)
Lemma inv_local_step g ths i l l' :
  inv g ths → ths !! i = Some l → registered (view l') = registered (view l) →
  local_ok (view l') → (∀ t, view l ≠ F_wait t W_kernel) →
  (k_sleep g ≠ ∅ → count g = 0 ∨
     waking (view l) + retrying (k_sleep g) i (view l) ≤ waking (view l') + retrying (k_sleep g) i (view l')) →
  inv g (<[i:=l']> ths).
Proof.
  intros I Hi Hr Hlo Hk Hw. rewrite <- (set_sleep_same g) at 1.
  eapply inv_sleep_step; [done|done|done|done|done| |].
  - intros Hin. destruct (f_asleep _ _ _ I i Hin) as (k & t & Hk' & Hv).
    assert (k = l) as -> by congruence. by apply Hk in Hv.
  - intros Hne. rewrite set_sleep_same, (wakers_step g g ths i l l' Hi) by done.
    destruct (Hw Hne) as [Hz|Hle].
    + rewrite Hz. pose proof (wakers_nonneg g (<[i:=l']> ths)) as H.
      by rewrite (wakers_step g g ths i l l' Hi) in H by done.
    + pose proof (f_wakers _ _ _ I Hne). lia.
Qed.

(** A component's step that leaves the futex alone. *)
Lemma inv_inert g ths i l l' :
  inv g ths → ths !! i = Some l → inert (view l) = true → inert (view l') = true →
  local_ok (view l') → inv g (<[i:=l']> ths).
Proof.
  intros I Hi H H' Hlo.
  assert (∀ a, inert a = true → registered a = 0 ∧ (∀ t, a ≠ F_wait t W_kernel) ∧
    waking a + retrying (k_sleep g) i a = 0) as Hz.
  { intros [|[]|? []]; simpl; intros; try done. }
  destruct (Hz _ H) as (? & ? & ?), (Hz _ H') as (? & ? & ?).
  eapply inv_local_step; [done|done|congruence|done|done|]. intros _. right. lia.
Qed.

Section Step.
Context (g : dispatch_futex_t) (ths : gmap nat L) (i : nat) (l l' : L).
Context (I : inv g ths) (Hi : ths !! i = Some l) (Hn : Z.of_nat (size ths) < 2 ^ 32).

(** The invariant holds again, and the count moved by [dc]. *)
Definition step_ok (g' : dispatch_futex_t) (dc : Z) : Prop :=
  inv g' (<[i:=l']> ths) ∧ count g' = count g + dc.

Lemma set_data_word dc dw x :
  x = dfx_data g + dc + 2 ^ 32 * dw → set_data (u64 x) g = set_data (u64 (dfx_data g + dc + 2 ^ 32 * dw)) g.
Proof. by intros ->. Qed.

(** A step on the count, from and to states that are not registered. *)
Lemma count_step dc x :
  registered (view l') = registered (view l) → (∀ t, view l ≠ F_wait t W_kernel) →
  local_ok (view l') → x = dfx_data g + dc → 0 ≤ count g + dc ≤ INT_MAX →
  (k_sleep g ≠ ∅ → dc ≤ waking (view l') + retrying (k_sleep g) i (view l')
                      - (waking (view l) + retrying (k_sleep g) i (view l))) →
  step_ok (set_data (u64 x) g) dc.
Proof.
  intros Hr Hk Hlo -> Hc Hw. unfold step_ok.
  rewrite (set_data_word dc (registered (view l') - registered (view l))) by lia.
  apply (inv_word_step g ths i l l'); [done..|]. intros Hne.
  rewrite (wakers_step g _ ths i l l') by done. simpl. pose proof (f_wakers _ _ _ I Hne). specialize (Hw Hne). lia.
Qed.


(** A step between states that take part in nothing. *)
Lemma inert_step :
  inert (view l) = true → inert (view l') = true → local_ok (view l') → step_ok g 0.
Proof. intros. split; [by eapply inv_inert|lia]. Qed.

Lemma signal_step p c p' g' :
  view l = F_signal p → view l' = F_signal p' → _dispatch_futex_signal c p g = Some (p', g') →
  step_ok g' (to_post (F_signal p) - to_post (F_signal p')).
Proof.
  intros Hl Hl' Hs. pose proof (f_count _ _ _ I) as Hc. pose proof (f_local _ _ _ I i l Hi) as Hlo.
  destruct p as [|orig| | |f]; cbn [_dispatch_futex_signal] in Hs; try done.
  - rewrite low_word in Hs.
    case_decide as Hd; injection Hs as <- <-; apply inert_step; by rewrite ?Hl, ?Hl'.
  - rewrite Hl in Hlo. simpl in Hlo. rewrite high_word in Hs.
    case_decide as Hd; [|injection Hs as <- <-; apply inert_step; by rewrite ?Hl, ?Hl'].
    subst orig. rewrite (waiters_word _ _ I) in Hs. injection Hs as <- <-.
    assert (count g ≠ INT_MAX) by done.
    assert (to_post (F_signal (S_cas (dfx_data g))) -
      to_post (F_signal (if decide (waiters ths ≠ 0) then S_wake else S_done)) = 1) as -> by by case_decide.
    apply count_step; rewrite ?Hl, ?Hl'; try done; [simpl; by case_decide|lia|].
    intros Hne. case_decide as Hw; simpl; [lia|]. by rewrite (asleep_registered _ _ I) in Hne by lia.
  - change (to_post (F_signal S_wake) - to_post (F_signal p')) with (0 - to_post (F_signal p')).
    case_decide as He.
    + injection Hs as <- <-. split; [|simpl; lia]. eapply inv_local_step; [done|done|..]; rewrite ?Hl, ?Hl'; try done.
    + destruct c as [|j| | |]; try done. case_decide as Hj; [|done]. injection Hs as <- <-.
      split; [|simpl; unfold count; simpl; lia].
      destruct (f_asleep _ _ _ I j Hj) as (k & t & Hk & Hv).
      assert (i ≠ j) as Hne by (intros ->; congruence).
      eapply inv_sleep_step; [done|done|by rewrite Hl, Hl'|by rewrite Hl'|set_solver| |].
      * intros Hin. destruct (f_asleep _ _ _ I i) as (k' & t' & ? & ?); [set_solver|congruence].
      * intros _. rewrite (wakers_wake g ths i l l' j k t Hi Hk Hv Hne Hj), Hl, Hl'. simpl.
        pose proof (f_wakers _ _ _ I He). lia.
Qed.

(** The steps of [trywait], wherever it is called from. *)
Lemma trywait_step p r g' :
  (∀ t, view l ≠ F_wait t W_kernel) → registered (view l) = 0 → registered (view l') = 0 →
  waking (view l) = 0 → waking (view l') = 0 → try_ok p →
  _dispatch_futex_trywait p g = (r, g') →
  match r with
  | inl p' => try_ok p' ∧ g' = g
  | inr z => if decide (z = 0) then local_ok (view l') →
               (retrying (k_sleep g) i (view l) ≤ 1 + retrying (k_sleep g) i (view l')) → step_ok g' (-1)
             else count g = 0 ∧ g' = g
  end.
Proof.
  intros Hk Hr Hr' Hw Hw' Hp Ht. pose proof (f_count _ _ _ I) as Hc.
  destruct p as [|orig]; cbn [_dispatch_futex_trywait] in Ht; rewrite ?low_word in Ht; case_decide as Hd.
  - by injection Ht as <- <-.
  - injection Ht as <- <-. rewrite decide_False by lia. split; [|done]. unfold count. lia.
  - injection Ht as <- <-. rewrite decide_True by done. intros Hlo Hle. subst orig.
    apply count_step; [congruence|done|done|lia| |intros; lia].
    simpl in Hp. fold (count g) in Hp. lia.
  - by injection Ht as <- <-.
Qed.

Lemma local_wait_step t p t' p' :
  view l = F_wait t p → view l' = F_wait t' p' → p ≠ W_kernel →
  registered (F_wait t' p') = registered (F_wait t p) → local_ok (F_wait t' p') →
  to_take (F_wait t' p') = to_take (F_wait t p) →
  (count g = 0 ∨ retrying (k_sleep g) i (F_wait t p) ≤ retrying (k_sleep g) i (F_wait t' p')) →
  step_ok g (to_take (F_wait t' p') - to_take (F_wait t p)).
Proof.
  intros Hl Hl' Hk Hr Hlo Ht Hw. split; [|lia].
  eapply inv_local_step; [done|done|by rewrite Hl, Hl'|by rewrite Hl'| |].
  - intros t0. rewrite Hl. congruence.
  - intros _. rewrite Hl, Hl'. destruct Hw; [by left|right]. simpl waking. lia.
Qed.

Lemma sleep_wait_step t p p' s' :
  view l = F_wait t p → view l' = F_wait t p' →
  registered (F_wait t p') = registered (F_wait t p) → local_ok (F_wait t p') →
  to_take (F_wait t p') = to_take (F_wait t p) →
  (∀ j, j ≠ i → j ∈ s' ↔ j ∈ k_sleep g) → (i ∈ s' → p' = W_kernel) →
  (count g = 0 ∨ k_sleep g ≠ ∅ ∧ retrying (k_sleep g) i (F_wait t p) ≤ retrying s' i (F_wait t p')
   ∨ s' = ∅) →
  step_ok (set_sleep s' g) (to_take (F_wait t p') - to_take (F_wait t p)).
Proof.
  intros Hl Hl' Hr Hlo Ht Hs Hi' Hw. split; [|change (count (set_sleep s' g)) with (count g); lia].
  eapply inv_sleep_step; [done|done|by rewrite Hl, Hl'|by rewrite Hl'| | |].
  - intros j Hj Hne. by apply Hs.
  - intros Hin. exists t. by rewrite Hl', (Hi' Hin).
  - intros Hne. destruct Hw as [->|[[Hne' Hw]|Hw]]; [apply wakers_nonneg| |done].
    rewrite (wakers_step g _ ths i l l') by done. rewrite Hl, Hl'. simpl waking. simpl k_sleep.
    pose proof (f_wakers _ _ _ I Hne'). lia.
Qed.

(** A turn of [trywait]: the next state is [more p] or follows from the result. *)
Lemma try_wait_step t p0 p (more : try_pc → wait_pc) fail r g' p' :
  view l = F_wait t p0 → view l' = F_wait t p' → p0 = more p →
  (more = W_first ∧ fail = W_spin DISPATCH_FUTEX_NUM_SPINS ∨ more = W_loop ∧ fail = W_add ∨
   more = W_again ∧ fail = W_done (Some EINTR)) →
  _dispatch_futex_trywait p g = (r, g') →
  p' = match r with inl p => more p | inr 0 => W_done None | inr _ => fail end →
  step_ok g' (to_take (F_wait t p') - to_take (F_wait t p0)).
Proof.
  intros Hl Hl' -> Hmore Ht Hp'. pose proof (f_local _ _ _ I i l Hi) as Hlo. rewrite Hl in Hlo.
  assert (try_ok p) as Hp by by destruct Hmore as [[-> _]|[[-> _]|[-> _]]].
  assert (registered (view l) = 0 ∧ waking (view l) = 0 ∧ ∀ t, view l ≠ F_wait t W_kernel) as (Hr & Hw & Hk).
  { rewrite Hl. by destruct Hmore as [[-> _]|[[-> _]|[-> _]]]. }
  pose proof (trywait_step p r g' Hk Hr) as H. rewrite Hl, Hl' in H. subst p'.
  destruct r as [p1|z].
  - destruct H as [Hp1 ->]; [by destruct Hmore as [[-> _]|[[-> _]|[-> _]]]..|done|done|].
    eapply local_wait_step; [done|done|..]; try (by destruct Hmore as [[-> _]|[[-> _]|[-> _]]]).
    right. by destruct Hmore as [[-> _]|[[-> _]|[-> _]]].
  - destruct (decide (z = 0)) as [->|Hz].
    + assert (to_take (F_wait t (W_done None)) - to_take (F_wait t (more p)) = -1) as ->
        by by destruct Hmore as [[-> _]|[[-> _]|[-> _]]].
      apply H; try done. by destruct Hmore as [[-> _]|[[-> _]|[-> _]]].
    + assert (match z with 0 => W_done None | _ => fail end = fail) as E by by destruct z.
      rewrite E in *. destruct H as [Hz0 ->]; [by destruct Hmore as [[_ ->]|[[_ ->]|[_ ->]]]..|done|done|].
      eapply local_wait_step; [done|done|..]; try (by destruct Hmore as [[-> ->]|[[-> ->]|[-> ->]]]).
      by left.
Qed.

Lemma register_step t :
  view l = F_wait t W_add → view l' = F_wait t W_syscall →
  step_ok (set_data (u64 (dfx_data g + one_waiter)) g) 0.
Proof.
  intros Hl Hl'. pose proof (f_count _ _ _ I) as Hc.
  rewrite (set_data_word 0 1) by (change one_waiter with (2 ^ 32); lia).
  pose proof (inv_word_step g ths i l l' 0 I Hi) as H. rewrite Hl, Hl' in H. simpl registered in H.
  apply H; [lia|done|done|done|]. intros Hne.
  rewrite (wakers_step g _ ths i l l') by done. rewrite Hl, Hl'. simpl.
  pose proof (f_wakers _ _ _ I Hne). lia.
Qed.

(** Back from the system call, with what the [switch] does with its result. *)
Lemma unregister_step t ret p' :
  view l = F_wait t (W_sub ret) → view l' = F_wait t p' →
  p' = match ret, t with
       | Some EWOULDBLOCK, None => W_loop T_read
       | Some EWOULDBLOCK, Some _ => W_again T_read
       | Some e, _ => W_done (Some e)
       | None, _ => W_loop T_read
       end →
  step_ok (set_data (u64 (dfx_data g - one_waiter)) g) (to_take (F_wait t p') - to_take (F_wait t (W_sub ret))).
Proof.
  intros Hl Hl' Hp. pose proof (f_count _ _ _ I) as Hc.
  assert (registered (F_wait t p') = 0 ∧ local_ok (F_wait t p') ∧ to_take (F_wait t p') = 1 ∧
    retrying (k_sleep g) i (F_wait t (W_sub ret)) = retrying (k_sleep g) i (F_wait t p')) as (Hr & Hlo & Ht & Hw).
  { subst p'. by destruct ret as [[]|], t. }
  rewrite Ht. change (1 - to_take (F_wait t (W_sub ret))) with 0.
  rewrite (set_data_word 0 (-1)) by (change one_waiter with (2 ^ 32); lia).
  pose proof (inv_word_step g ths i l l' 0 I Hi) as H. rewrite Hl, Hl', Hr in H. simpl registered in H.
  apply H; [lia|done|done|done|]. intros Hne.
  rewrite (wakers_step g _ ths i l l') by done. rewrite Hl, Hl'. simpl k_sleep. simpl waking. rewrite <- Hw.
  pose proof (f_wakers _ _ _ I Hne). lia.
Qed.

Lemma wait_step t p c p' g' :
  view l = F_wait t p → view l' = F_wait t p' → _dispatch_futex_wait t c i p g = Some (p', g') →
  step_ok g' (to_take (F_wait t p') - to_take (F_wait t p)).
Proof.
  intros Hl Hl' Hs. pose proof (f_count _ _ _ I) as Hc.
  destruct p as [p|n|p| | | |ret|p|ret]; cbn [_dispatch_futex_wait _dispatch_futex_wait_slow] in Hs; try done.
  - destruct (_dispatch_futex_trywait p g) as [r g1] eqn:Ht. injection Hs as <- <-.
    eapply (try_wait_step t _ p W_first); [done|done|done|by left|done|done].
  - repeat case_decide; injection Hs as <- <-; eapply local_wait_step; try done; right; simpl; lia.
  - destruct (_dispatch_futex_trywait p g) as [r g1] eqn:Ht. injection Hs as <- <-.
    eapply (try_wait_step t _ p W_loop); [done|done|done|by right; left|done|done].
  - injection Hs as <- <-.
    change (to_take (F_wait t W_syscall) - to_take (F_wait t W_add)) with 0. by apply (register_step t).
  - rewrite low_word in Hs. fold (count g) in Hs. case_decide as Hz; injection Hs as <- <-.
    + eapply sleep_wait_step; try done; [set_solver|by left].
    + eapply local_wait_step; try done. right. simpl. lia.
  - case_decide as Hin.
    + injection Hs as <- <-. rewrite <- (set_sleep_same g) at 1.
      eapply sleep_wait_step; try done. destruct (decide (k_sleep g = ∅)); [by right; right|].
      right; left. split; [done|]. simpl. case_decide; lia.
    + assert (∀ e, (e = None ∨ e = Some EINTR ∨ e = Some ETIMEDOUT) →
        Some (W_sub e, set_sleep (k_sleep g ∖ {[i]}) g) = Some (p', g') →
        step_ok g' (to_take (F_wait t p') - to_take (F_wait t W_kernel))) as Hgo.
      { intros e He [= <- <-]. eapply sleep_wait_step; try done; [set_solver|set_solver|].
        right; left. split; [set_solver|]. simpl. rewrite decide_True by done.
        destruct He as [->|[->| ->]]; lia. }
      destruct c, t; try done; eauto.
  - injection Hs as <- <-. by eapply unregister_step.
  - destruct (_dispatch_futex_trywait p g) as [r g1] eqn:Ht. injection Hs as <- <-.
    eapply (try_wait_step t _ p W_again); [done|done|done|by right; right|done|done].
Qed.

(** Any step on the futex. *)
Lemma futex_step_ok c a' g' :
  futex_step c i (view l) g = Some (a', g') → view l' = a' →
  step_ok g' (to_post (view l) - to_post a' - (to_take (view l) - to_take a')).
Proof.
  intros Hs Hl'. destruct (view l) as [|p|t p] eqn:Hl; simpl in Hs; [done| |].
  - destruct (_dispatch_futex_signal c p g) as [[p' g1]|] eqn:E; [|done]. injection Hs as <- <-.
    simpl to_take. rewrite Z.sub_0_r. by eapply signal_step.
  - destruct (_dispatch_futex_wait t c i p g) as [[p' g1]|] eqn:E; [|done]. injection Hs as <- <-.
    pose proof (wait_step t p c p' g1 Hl Hl' E) as H.
    simpl to_post. by replace (0 - 0 - (to_take (F_wait t p) - to_take (F_wait t p')))
      with (to_take (F_wait t p') - to_take (F_wait t p)) by lia.
Qed.
End Step.

Lemma futex_inv_init ths :
  (∀ i l, ths !! i = Some l → view l = F_idle) → inv _dispatch_futex_init ths.
Proof.
  intros H. split; try done.
  - unfold Futex.waiters. rewrite (tsum_zero _ ths); [done|]. intros i l Hl. by rewrite (H i l Hl).
  - intros i l Hl. by rewrite (H i l Hl).
Qed.

(** If a thread sleeps while the count is positive, some thread is about to wake
    a sleeper, or is awake and will look at the count again. *)
Lemma no_lost_wakeup g ths i :
  inv g ths → i ∈ k_sleep g → 0 < count g →
  ∃ j l, ths !! j = Some l ∧ (waking (view l) = 1 ∨ retrying (k_sleep g) j (view l) = 1).
Proof.
  intros I Hi Hc. assert (k_sleep g ≠ ∅) as Hne by set_solver.
  pose proof (f_wakers _ _ _ I Hne) as Hw.
  destruct (tsum_pos (λ i l, waking (view l) + retrying (k_sleep g) i (view l)) ths) as (j & l & Hl & Hp).
  { change (0 < wakers g ths). lia. }
  exists j, l. split; [done|]. destruct (view l) as [|[]|? [| | | | | |[[]|]| |]]; simpl in *;
    try case_decide; auto; lia.
Qed.
End Preservation.
