(* ===== verification/Semaphore.v ===== *)
(** * Counting semaphores (src/semaphore.c, [dispatch_semaphore_t])

    [dsema_value] counts down past zero: a negative value is the number of
    threads that wait, or are about to, on the futex.  Each function is a
    machine whose steps are the atomic accesses of the code; a step on the
    futex is a step of [Futex]. *)

From S2P Require Import Prelude Conc Time Futex.

(** ** State *)

(** The fields of [struct dispatch_semaphore_s] that semaphores use: the value,
    its initial value, the futex, the internal reference count, and whether the
    object was disposed of. *)
Record dispatch_semaphore_s : Type := Sema {
  dsema_value : Z;
  dsema_orig : Z;
  dsema_futex : dispatch_futex_t;
  do_ref_cnt : Z;
  disposed : bool
}.

Definition set_value (v : Z) (g : dispatch_semaphore_s) : dispatch_semaphore_s :=
  Sema v (dsema_orig g) (dsema_futex g) (do_ref_cnt g) (disposed g).
Definition set_futex (x : dispatch_futex_t) (g : dispatch_semaphore_s) : dispatch_semaphore_s :=
  Sema (dsema_value g) (dsema_orig g) x (do_ref_cnt g) (disposed g).
Definition set_ref (r : Z) (g : dispatch_semaphore_s) : dispatch_semaphore_s :=
  Sema (dsema_value g) (dsema_orig g) (dsema_futex g) r (disposed g).
Definition set_disposed (g : dispatch_semaphore_s) : dispatch_semaphore_s :=
  Sema (dsema_value g) (dsema_orig g) (dsema_futex g) (do_ref_cnt g) true.

Definition _dispatch_semaphore_init (value : Z) : dispatch_semaphore_s :=
  Sema value value _dispatch_futex_init 0 false.

(** [None]: the null pointer. *)
Definition dispatch_semaphore_create (value : Z) : option dispatch_semaphore_s :=
  if decide (value < 0) then None else Some (_dispatch_semaphore_init value).

Definition _dispatch_semaphore_dispose (g : dispatch_semaphore_s) : fault + dispatch_semaphore_s :=
  if decide (dsema_value g < dsema_orig g)
  then inl (DISPATCH_CLIENT_CRASH "Semaphore/group object deallocated while in use")
  else inr (set_disposed g).

(** ** A thread in the semaphore functions *)

Inductive sema_pc : Type :=
  | P_idle
  | P_crash (f : fault)
  (* dispatch_semaphore_signal *)
  | P_signal
  | P_signal_slow
  | P_post (p : signal_pc)
  | P_post_release
  | P_signal_ret (r : Z)
  (* dispatch_semaphore_wait *)
  | P_wait (timeout : Z)
  | P_wait_slow (timeout : Z)
  | P_timed (timeout : Z) (rel : timespec) (p : wait_pc)
  | P_undo
  | P_undo_cas (orig : Z)
  | P_drain (p : wait_pc)
  | P_wait_ret (r : Z).

(** The choices: which function an idle thread calls, the clock readings, the
    kernel. *)
Inductive sema_choice : Type :=
  | C_signal
  | C_wait (timeout : Z)
  | C_clocks (now_wall : Z * Z) (now_abs : timespec)
  | C_kernel (c : kchoice)
  | C_go.

(** What the thread does to the futex. *)
Definition sema_view (p : sema_pc) : futex_op :=
  match p with
  | P_post p => F_signal p
  | P_timed _ rel p => F_wait (Some rel) p
  | P_drain p => F_wait None p
  | _ => F_idle
  end.

Definition kernel_choice (c : sema_choice) : kchoice :=
  match c with C_kernel k => k | _ => K_go end.

(** *** Signal *)

(** The release of the internal reference; the last one disposes. *)
Definition sema_release (g : dispatch_semaphore_s) : fault + dispatch_semaphore_s :=
  let ref_cnt := i32 (do_ref_cnt g - 1) in
  let g := set_ref ref_cnt g in
  if decide (0 ≤ ref_cnt) then inr g
  else if decide (ref_cnt < -1) then inl (DISPATCH_CRASH "Over-release of an object")
  else _dispatch_semaphore_dispose g.

Definition _dispatch_semaphore_signal_slow (c : sema_choice) (p : sema_pc) (g : dispatch_semaphore_s)
  : option (sema_pc * dispatch_semaphore_s) :=
  match p with
  | P_signal_slow =>
      let ref_cnt := i32 (do_ref_cnt g + 1) in
      Some (if decide (0 < ref_cnt) then P_post S_read
            else P_crash (DISPATCH_CRASH "Resurrection of an object"), set_ref ref_cnt g)
  | P_post S_done => Some (P_post_release, g)
  | P_post (S_crash f) => Some (P_crash f, g)
  | P_post p =>
      '(p, x) ← _dispatch_futex_signal (kernel_choice c) p (dsema_futex g);
      Some (P_post p, set_futex x g)
  | P_post_release =>
      Some (match sema_release g with
            | inl f => (P_crash f, g)
            | inr g => (P_signal_ret 1, g)
            end)
  | _ => None
  end.

Definition dispatch_semaphore_signal (g : dispatch_semaphore_s) : sema_pc * dispatch_semaphore_s :=
  let value := i64 (dsema_value g + 1) in
  let g := set_value value g in
  if decide (0 < value) then (P_signal_ret 0, g)
  else if decide (value = LONG_MIN)
  then (P_crash (DISPATCH_CLIENT_CRASH "Unbalanced call to dispatch_semaphore_signal()"), g)
  else (P_signal_slow, g).

(** *** Wait *)

(** The [switch] on the timeout; a thread in [P_timed] is in its [default]
    case, which recomputes the timeout after every interruption. *)
Definition _dispatch_semaphore_wait_slow (c : sema_choice) (i : nat) (p : sema_pc)
    (g : dispatch_semaphore_s) : option (sema_pc * dispatch_semaphore_s) :=
  match p with
  | P_wait_slow timeout =>
      if decide (timeout = DISPATCH_TIME_NOW) then Some (P_undo, g)
      else if decide (timeout = DISPATCH_TIME_FOREVER) then Some (P_drain (W_first T_read), g)
      else match c with
           | C_clocks now_wall now_abs =>
               Some (match _dispatch_timeout now_wall now_abs timeout with
                     | Some nsec => P_timed timeout (relative_timeout nsec) (W_first T_read)
                     | None => P_crash (UB "signed overflow")
                     end, g)
           | _ => None
           end
  | P_timed timeout _ (W_done ret) =>
      Some (match ret with
            | None => P_wait_ret 0
            | Some EINTR => P_wait_slow timeout
            | Some ETIMEDOUT => P_undo
            | Some _ => P_crash (DISPATCH_CRASH "flawed group/semaphore logic")
            end, g)
  | P_timed timeout rel p =>
      '(p, x) ← _dispatch_futex_wait (Some rel) (kernel_choice c) i p (dsema_futex g);
      Some (P_timed timeout rel p, set_futex x g)
  | P_undo =>
      let orig := dsema_value g in
      Some (if decide (orig < 0) then P_undo_cas orig else P_drain (W_first T_read), g)
  | P_undo_cas orig =>
      if decide (dsema_value g = orig) then Some (P_wait_ret (-1), set_value (i64 (orig + 1)) g)
      else Some (P_undo, g)
  | P_drain (W_done ret) =>
      Some (match ret with
            | None => P_wait_ret 0
            | Some EINTR => P_drain (W_first T_read)
            | Some _ => P_crash (DISPATCH_CRASH "flawed group/semaphore logic")
            end, g)
  | P_drain p =>
      '(p, x) ← _dispatch_futex_wait None (kernel_choice c) i p (dsema_futex g);
      Some (P_drain p, set_futex x g)
  | _ => None
  end.

Definition dispatch_semaphore_wait (timeout : Z) (g : dispatch_semaphore_s)
  : sema_pc * dispatch_semaphore_s :=
  let value := i64 (dsema_value g - 1) in
  let g := set_value value g in
  if decide (0 ≤ value) then (P_wait_ret 0, g) else (P_wait_slow timeout, g).

(** *** One step of a thread *)

Definition sema_step (c : sema_choice) (i : nat) (p : sema_pc) (g : dispatch_semaphore_s)
  : option (sema_pc * dispatch_semaphore_s) :=
  match p with
  | P_idle =>
      match c with
      | C_signal => Some (P_signal, g)
      | C_wait timeout => Some (P_wait timeout, g)
      | _ => None
      end
  | P_signal => Some (dispatch_semaphore_signal g)
  | P_wait timeout => Some (dispatch_semaphore_wait timeout g)
  | P_signal_ret _ | P_wait_ret _ => Some (P_idle, g)
  | P_signal_slow | P_post _ | P_post_release => _dispatch_semaphore_signal_slow c p g
  | P_crash _ => None
  | _ => _dispatch_semaphore_wait_slow c i p g
  end.

(** ** Accounting *)

(** Runs with a history: how many times the value was incremented by a signal,
    and how many waits returned 0. *)
Record history : Type := History { h_signals : Z; h_acquired : Z }.

Definition log_step (p p' : sema_pc) (h : history) : history :=
  History (h_signals h + match p with P_signal => 1 | _ => 0 end)
          (h_acquired h + match p' with P_wait_ret 0 => 1 | _ => 0 end).

Definition sema_tstep (c : sema_choice) (i : nat) (p : sema_pc) (s : dispatch_semaphore_s * history)
  : option (sema_pc * (dispatch_semaphore_s * history)) :=
  '(p', g) ← sema_step c i p s.1; Some (p', (g, log_step p p' s.2)).

(** Has decremented the value below zero, and neither took the decrement back
    nor consumed a post. *)
Definition waiting (p : sema_pc) : Z :=
  match p with
  | P_wait_slow _ | P_undo | P_undo_cas _ => 1
  | P_timed _ _ q | P_drain q => match q with W_done None => 0 | _ => 1 end
  | _ => 0
  end.

(** Has consumed a post, and is about to return 0. *)
Definition taken (p : sema_pc) : Z :=
  match p with P_timed _ _ (W_done None) | P_drain (W_done None) => 1 | _ => 0 end.

(** Owes a post. *)
Definition posting (p : sema_pc) : Z :=
  match p with P_signal_slow | P_post (S_read | S_cas _ | S_crash _) => 1 | _ => 0 end.

(** Holds the reference taken around the post. *)
Definition holding (p : sema_pc) : Z :=
  match p with P_post _ | P_post_release => 1 | _ => 0 end.

Definition pc_ok (p : sema_pc) : Prop :=
  match p with
  | P_crash _ => False
  | P_timed _ _ (W_done (Some EWOULDBLOCK)) => False
  | P_drain (W_done (Some (EWOULDBLOCK | ETIMEDOUT))) => False
  | P_drain (W_sub (Some ETIMEDOUT)) => False
  | P_undo_cas orig => orig < 0
  | P_post (S_crash f) => f = DISPATCH_CRASH "semaphore overflow"
  | _ => True
  end.

(** The faults that the code provides for, of clients that signal too much, or
    pass the time [2^63]. *)
Definition client_fault (f : fault) : Prop :=
  f = DISPATCH_CLIENT_CRASH "Unbalanced call to dispatch_semaphore_signal()" ∨
  f = DISPATCH_CRASH "semaphore overflow" ∨ f = UB "signed overflow".

Abbreviation sum f ths := (tsum (λ _ p, f p) ths).

Record sema_good (g : dispatch_semaphore_s) (h : history) (ths : gmap nat sema_pc) : Prop := SemaGood {
  s_futex : futex_inv sema_view (dsema_futex g) ths;
  s_waiting : sum waiting ths =
    Z.max 0 (- dsema_value g) + count (dsema_futex g) + sum posting ths;
  s_history : h_acquired h + sum taken ths + Z.max 0 (dsema_value g) + count (dsema_futex g)
    + sum posting ths = dsema_orig g + h_signals h;
  s_ref : do_ref_cnt g = sum holding ths;
  s_value : dsema_value g ≤ LONG_MAX;
  s_local : ∀ i p, ths !! i = Some p → pc_ok p;
  s_size : Z.of_nat (size ths) < INT_MAX;
  s_alive : disposed g = false
}.

Definition sema_inv (s : config (G := dispatch_semaphore_s * history) (L := sema_pc)) : Prop :=
  sema_good (shared s).1 (shared s).2 (threads s) ∨
  ∃ i f, threads s !! i = Some (P_crash f) ∧ client_fault f.

Lemma sum_bounds (f : sema_pc → Z) (ths : gmap nat sema_pc) :
  (∀ p, 0 ≤ f p ≤ 1) → 0 ≤ sum f ths ≤ Z.of_nat (size ths).
Proof.
  intros H. split; [apply tsum_nonneg; intros; apply H|].
  rewrite <- tsum_const. apply tsum_le. intros; apply H.
Qed.

Lemma weights_range p :
  0 ≤ waiting p ≤ 1 ∧ 0 ≤ posting p ≤ 1 ∧ 0 ≤ holding p ≤ 1 ∧ 0 ≤ taken p ≤ 1.
Proof. destruct p as [| | | |[]| | | | |? ? [| | | | | | | |[[]|]]| | |[| | | | | | | |[[]|]]|]; simpl; lia. Qed.

Section Step.
Context (g : dispatch_semaphore_s) (h : history) (ths : gmap nat sema_pc) (i : nat) (p : sema_pc).
Context (I : sema_good g h ths) (Hi : ths !! i = Some p).

Lemma value_lower : - INT_MAX < dsema_value g.
Proof.
  pose proof (s_waiting _ _ _ I). pose proof (s_size _ _ _ I).
  pose proof (f_count _ _ _ (s_futex _ _ _ I)).
  pose proof (sum_bounds waiting ths (λ p, proj1 (weights_range p))).
  pose proof (sum_bounds posting ths (λ p, proj1 (proj2 (weights_range p)))). lia.
Qed.

(** What one thread's step has to balance. *)
Lemma good_update p' g' h' :
  futex_inv sema_view (dsema_futex g') (<[i:=p']> ths) → pc_ok p' →
  waiting p' - waiting p =
    Z.max 0 (- dsema_value g') - Z.max 0 (- dsema_value g)
    + (count (dsema_futex g') - count (dsema_futex g)) + (posting p' - posting p) →
  h_acquired h' - h_acquired h + (taken p' - taken p)
    + (Z.max 0 (dsema_value g') - Z.max 0 (dsema_value g))
    + (count (dsema_futex g') - count (dsema_futex g)) + (posting p' - posting p)
    = h_signals h' - h_signals h →
  do_ref_cnt g' - do_ref_cnt g = holding p' - holding p →
  dsema_value g' ≤ LONG_MAX → dsema_orig g' = dsema_orig g → disposed g' = false →
  sema_good g' h' (<[i:=p']> ths).
Proof.
  intros Hf Hp Hw Hh Hr Hv Ho Hd. destruct I as [If Iw Ih Ir Iv Il Is Ia].
  split; try done.
  - rewrite !(tsum_step _ _ _ _ p' Hi). lia.
  - rewrite !(tsum_step _ _ _ _ p' Hi). lia.
  - rewrite (tsum_step _ _ _ _ p' Hi). lia.
  - intros j q [[_ <-]|[_ Hq]]%lookup_insert_Some; eauto.
  - rewrite map_size_insert_Some by by eexists. done.
Qed.

(** A step that leaves the futex alone. *)
Lemma good_local p' g' h' :
  dsema_futex g' = dsema_futex g → inert (sema_view p) = true → inert (sema_view p') = true →
  local_ok (sema_view p') → pc_ok p' →
  waiting p' - waiting p =
    Z.max 0 (- dsema_value g') - Z.max 0 (- dsema_value g) + (posting p' - posting p) →
  h_acquired h' - h_acquired h + (taken p' - taken p)
    + (Z.max 0 (dsema_value g') - Z.max 0 (dsema_value g)) + (posting p' - posting p)
    = h_signals h' - h_signals h →
  do_ref_cnt g' - do_ref_cnt g = holding p' - holding p →
  dsema_value g' ≤ LONG_MAX → dsema_orig g' = dsema_orig g → disposed g' = false →
  sema_good g' h' (<[i:=p']> ths).
Proof.
  intros Ef Hin Hin' Hlo Hp Hw Hh Hr Hv Ho Hd. apply good_update; try done; rewrite Ef; try lia.
  eapply inv_inert; [by apply (s_futex _ _ _ I)|done..].
Qed.

(** A step on the futex. *)
Lemma good_futex p' x k :
  futex_step k i (sema_view p) (dsema_futex g) = Some (sema_view p', x) → pc_ok p' →
  waiting p' - waiting p = to_take (sema_view p') - to_take (sema_view p) →
  posting p' - posting p = to_post (sema_view p') - to_post (sema_view p) →
  taken p' - taken p = waiting p - waiting p' → holding p' = holding p →
  sema_good (set_futex x g) h (<[i:=p']> ths).
Proof.
  intros Hs Hp Hw Ho Ht Hh. pose proof (s_size _ _ _ I).
  destruct (futex_step_ok sema_view (dsema_futex g) ths i p p' (s_futex _ _ _ I) Hi) with
    (c := k) (a' := sema_view p') (g' := x) as [If Ec]; [consts; lia|done|done|].
  apply good_update; try done; simpl; try lia; apply I.
Qed.
End Step.

Lemma log_none p p' h :
  p ≠ P_signal → p' ≠ P_wait_ret 0 → log_step p p' h = h.
Proof.
  intros Hp Hp'. destruct h as [s a]. unfold log_step. simpl.
  assert (match p with P_signal => 1 | _ => 0 end = 0) as -> by by destruct p.
  assert (match p' with P_wait_ret 0 => 1 | _ => 0 end = 0) as -> by (by destruct p' as [| | | | | | | | | | | | |[]]).
  by rewrite !Z.add_0_r.
Qed.

(** ** Preservation *)

(** The results of a wait: no time-out without a timeout, and [EWOULDBLOCK] is
    never passed on. *)
Lemma futex_wait_results t k i q x q' x' :
  _dispatch_futex_wait t k i q x = Some (q', x') →
  q' ≠ W_done (Some EWOULDBLOCK) ∧
  (t = None → q ≠ W_sub (Some ETIMEDOUT) → q' ≠ W_sub (Some ETIMEDOUT) ∧ q' ≠ W_done (Some ETIMEDOUT)).
Proof.
  destruct q as [r|n|r| | | |ret|r|ret]; cbn [_dispatch_futex_wait _dispatch_futex_wait_slow].
  - destruct (_dispatch_futex_trywait r x) as [[|[]] ?]; by intros [= <- <-].
  - repeat case_decide; by intros [= <- <-].
  - destruct (_dispatch_futex_trywait r x) as [[|[]] ?]; by intros [= <- <-].
  - by intros [= <- <-].
  - case_decide; by intros [= <- <-].
  - case_decide; [by intros [= <- <-]|]. destruct k, t; try done; by intros [= <- <-].
  - intros [= <- <-]. by destruct ret as [[]|], t.
  - destruct (_dispatch_futex_trywait r x) as [[|[]] ?]; by intros [= <- <-].
  - done.
Qed.

Section Preservation.
Context (g : dispatch_semaphore_s) (h : history) (ths : gmap nat sema_pc) (i : nat).
Context (I : sema_good g h ths).

Definition next_ok (p p' : sema_pc) (g' : dispatch_semaphore_s) : Prop :=
  sema_good g' (log_step p p' h) (<[i:=p']> ths) ∨ ∃ f, p' = P_crash f ∧ client_fault f.

(** A step that touches the local state only. *)
Lemma local_next p p' :
  ths !! i = Some p → p ≠ P_signal → inert (sema_view p) = true → inert (sema_view p') = true →
  local_ok (sema_view p') → pc_ok p' → waiting p' = waiting p → posting p' = posting p →
  taken p' + match p' with P_wait_ret 0 => 1 | _ => 0 end = taken p → holding p' = holding p →
  next_ok p p' g.
Proof.
  intros Hi Hp Hin Hin' Hlo Hok Hw Ho Ht Hh. left.
  eapply (good_local g h ths i p I Hi); try done; simpl; try lia; try apply I.
  destruct p; try done; lia.
Qed.

Lemma signal_next p' g' :
  ths !! i = Some P_signal → dispatch_semaphore_signal g = (p', g') → next_ok P_signal p' g'.
Proof.
  intros Hi Hs. unfold dispatch_semaphore_signal in Hs.
  pose proof (value_lower g h ths I) as Hlo. pose proof (s_value _ _ _ I) as Hhi.
  destruct (decide (dsema_value g = LONG_MAX)) as [Hm|Hm].
  { assert (i64 (dsema_value g + 1) = LONG_MIN) as E by by rewrite Hm.
    rewrite E in Hs. rewrite decide_False in Hs by done. rewrite decide_True in Hs by done.
    injection Hs as <- <-. right. eexists. split; [done|]. by left. }
  rewrite wrapS_small in Hs by (consts; lia).
  assert (∀ p'', p'' = P_signal_ret 0 ∧ 0 < dsema_value g + 1 ∨ p'' = P_signal_slow ∧ dsema_value g + 1 ≤ 0 →
    next_ok P_signal p'' (set_value (dsema_value g + 1) g)) as Hgo.
  { intros p'' Hp''. left. eapply (good_local g h ths i P_signal I Hi); try done; simpl;
      destruct Hp'' as [[-> ?]|[-> ?]]; simpl; try done; try lia; try apply I; consts; lia. }
  case_decide; [|case_decide as Hl; [consts; lia|]]; injection Hs as <- <-; apply Hgo;
    [left|right]; (split; [done|lia]).
Qed.

Lemma wait_next t p' g' :
  ths !! i = Some (P_wait t) → dispatch_semaphore_wait t g = (p', g') → next_ok (P_wait t) p' g'.
Proof.
  intros Hi Hs. unfold dispatch_semaphore_wait in Hs.
  pose proof (value_lower g h ths I) as Hlo. pose proof (s_value _ _ _ I) as Hhi.
  rewrite wrapS_small in Hs by (consts; lia).
  left. case_decide; injection Hs as <- <-; eapply (good_local g h ths i _ I Hi); try done; simpl;
    try lia; apply I.
Qed.

(** A step of the futex machine, from a state that is in it. *)
Lemma futex_next p p' x k :
  ths !! i = Some p →
  futex_step k i (sema_view p) (dsema_futex g) = Some (sema_view p', x) → pc_ok p' →
  p ≠ P_signal → p' ≠ P_wait_ret 0 →
  waiting p' - waiting p = to_take (sema_view p') - to_take (sema_view p) →
  posting p' - posting p = to_post (sema_view p') - to_post (sema_view p) →
  taken p' - taken p = waiting p - waiting p' → holding p' = holding p →
  next_ok p p' (set_futex x g).
Proof.
  intros. left. rewrite log_none by done. by eapply (good_futex g h ths i p I).
Qed.

Lemma ref_range : 0 ≤ do_ref_cnt g < INT_MAX.
Proof.
  rewrite (s_ref _ _ _ I). pose proof (s_size _ _ _ I).
  pose proof (sum_bounds holding ths (λ p, proj1 (proj2 (proj2 (weights_range p))))). lia.
Qed.

Lemma post_next c p p' x :
  ths !! i = Some (P_post p) → p ≠ S_done → (∀ f, p ≠ S_crash f) →
  _dispatch_futex_signal c p (dsema_futex g) = Some (p', x) → next_ok (P_post p) (P_post p') (set_futex x g).
Proof.
  intros Hi Hd Hc E. apply (futex_next _ _ _ c); try done.
  - simpl. by rewrite E.
  - destruct p as [|orig| | |f]; cbn [_dispatch_futex_signal] in E.
    + case_decide; apply some_pair in E as [-> _]; [exact eq_refl|exact Logic.I].
    + case_decide; apply some_pair in E as [-> _]; [|exact Logic.I]. case_decide; exact Logic.I.
    + case_decide; [apply some_pair in E as [-> ->]; exact Logic.I|].
      destruct c; try discriminate. case_decide; [|discriminate]. apply some_pair in E as [-> ->]. exact Logic.I.
    + done.
    + by destruct (Hc f).
Qed.

Lemma signal_slow_next c p p' g' :
  ths !! i = Some p → _dispatch_semaphore_signal_slow c p g = Some (p', g') → next_ok p p' g'.
Proof.
  intros Hi Hs. pose proof (s_local _ _ _ I i p Hi) as Hok. pose proof ref_range as Hr.
  destruct p as [| | | |q| | | | | | | | |]; try done.
  - cbn [_dispatch_semaphore_signal_slow] in Hs.
    rewrite wrapS_small in Hs by (consts; lia). rewrite decide_True in Hs by lia.
    apply some_pair in Hs as [-> ->]. left. rewrite log_none by done.
    eapply (good_local g h ths i _ I Hi); try done; simpl; try lia; apply I.
  - destruct q as [|orig| | |f]; cbn [_dispatch_semaphore_signal_slow] in Hs.
    1-3: destruct (_dispatch_futex_signal _ _ _) as [[q' x]|] eqn:E; [|done]; simpl in Hs;
      apply some_pair in Hs as [-> ->]; by eapply post_next.
    + apply some_pair in Hs as [-> ->]. by apply local_next.
    + apply some_pair in Hs as [-> ->]. right. eexists. split; [done|]. simpl in Hok. subst f. right. by left.
  - cbn [_dispatch_semaphore_signal_slow] in Hs. unfold sema_release in Hs.
    assert (1 ≤ do_ref_cnt g) as Hge.
    { rewrite (s_ref _ _ _ I).
      apply (tsum_ge (λ _ p, holding p) ths i P_post_release); [|done].
      intros j q _. apply weights_range. }
    rewrite wrapS_small in Hs by (consts; lia). rewrite decide_True in Hs by lia.
    apply some_pair in Hs as [-> ->]. left. rewrite log_none by done.
    eapply (good_local g h ths i _ I Hi); try done; simpl; try lia; apply I.
Qed.

Lemma done_or_not q : (∃ r, q = W_done r) ∨ ∀ r, q ≠ W_done r.
Proof. destruct q; try (right; congruence). left. by eexists. Qed.

(** A step of the futex wait in progress. *)
Lemma timed_next t rel q q' x k :
  ths !! i = Some (P_timed t rel q) → (∀ r, q ≠ W_done r) →
  _dispatch_futex_wait (Some rel) k i q (dsema_futex g) = Some (q', x) →
  next_ok (P_timed t rel q) (P_timed t rel q') (set_futex x g).
Proof.
  intros Hi Hd E. pose proof (futex_wait_results _ _ _ _ _ _ _ E) as [Hw _].
  apply (futex_next _ _ _ k); try done.
  { cbn [sema_view futex_step]. by rewrite E. }
  all: simpl; clear Hi E; destruct q as [| | | | | | | |r]; try (by destruct (Hd r)); by destruct q' as [| | | | | |[[]|]| |[[]|]].
Qed.

Lemma drain_next q q' x k :
  ths !! i = Some (P_drain q) → (∀ r, q ≠ W_done r) →
  _dispatch_futex_wait None k i q (dsema_futex g) = Some (q', x) →
  next_ok (P_drain q) (P_drain q') (set_futex x g).
Proof.
  intros Hi Hd E. pose proof (futex_wait_results _ _ _ _ _ _ _ E) as [Hw Ht].
  pose proof (s_local _ _ _ I i _ Hi) as Hok.
  destruct Ht as [Ht1 Ht2]; [done|intros ->; done|].
  apply (futex_next _ _ _ k); try done.
  { cbn [sema_view futex_step]. by rewrite E. }
  all: simpl; clear Hi E; destruct q as [| | | | | | | |r]; try (by destruct (Hd r)); by destruct q' as [| | | | | |[[]|]| |[[]|]].
Qed.

Lemma wait_slow_next c p p' g' :
  ths !! i = Some p → _dispatch_semaphore_wait_slow c i p g = Some (p', g') → next_ok p p' g'.
Proof.
  intros Hi Hs. pose proof (s_local _ _ _ I i p Hi) as Hok.
  destruct p as [| | | | | | | |t|t rel q| |orig|q|]; try done.
  - cbn [_dispatch_semaphore_wait_slow] in Hs.
    case_decide; [apply some_pair in Hs as [-> ->]; by apply local_next|].
    case_decide; [apply some_pair in Hs as [-> ->]; by apply local_next|].
    destruct c; try done. apply some_pair in Hs as [-> ->].
    destruct (_dispatch_timeout _ _ _); [by apply local_next|].
    right. eexists. split; [done|]. by right; right.
  - destruct (done_or_not q) as [[r ->]|Hd].
    + cbn [_dispatch_semaphore_wait_slow] in Hs. apply some_pair in Hs as [-> ->].
      destruct r as [[]|]; [by apply local_next|by apply local_next|by destruct Hok|by apply local_next].
    + assert (('(q', x) ← _dispatch_futex_wait (Some rel) (kernel_choice c) i q (dsema_futex g);
        Some (P_timed t rel q', set_futex x g)) = Some (p', g')) as Hs' by (destruct q; try exact Hs; by destruct (Hd ret)).
      destruct (_dispatch_futex_wait _ _ _ _ _) as [[q' x]|] eqn:E; [|done].
      apply some_pair in Hs' as [-> ->]. by eapply timed_next.
  - apply some_pair in Hs as [-> ->]. case_decide; by apply local_next.
  - cbn [_dispatch_semaphore_wait_slow] in Hs. simpl in Hok.
    case_decide as Ho; apply some_pair in Hs as [-> ->]; [|by apply local_next].
    rewrite wrapS_small by (pose proof (value_lower g h ths I); consts; lia).
    left. rewrite log_none by done.
    eapply (good_local g h ths i _ I Hi); try done; simpl; try lia; apply I || (consts; lia).
  - destruct (done_or_not q) as [[r ->]|Hd].
    + cbn [_dispatch_semaphore_wait_slow] in Hs. apply some_pair in Hs as [-> ->].
      destruct r as [[]|]; [by apply local_next|by destruct Hok|by destruct Hok|by apply local_next].
    + assert (('(q', x) ← _dispatch_futex_wait None (kernel_choice c) i q (dsema_futex g);
        Some (P_drain q', set_futex x g)) = Some (p', g')) as Hs' by (destruct q; try exact Hs; by destruct (Hd ret)).
      destruct (_dispatch_futex_wait _ _ _ _ _) as [[q' x]|] eqn:E; [|done].
      apply some_pair in Hs' as [-> ->]. by eapply drain_next.
Qed.

Lemma step_next c p p' g' :
  ths !! i = Some p → sema_step c i p g = Some (p', g') → next_ok p p' g'.
Proof.
  intros Hi Hs. destruct p; cbn [sema_step] in Hs; try done;
    try (by eapply signal_slow_next); try (by eapply wait_slow_next).
  - destruct c; try done; apply some_pair in Hs as [-> ->]; by apply local_next.
  - injection Hs as Hs. by apply signal_next.
  - apply some_pair in Hs as [-> ->]. left. eapply (good_local g h ths i _ I Hi); try done; simpl; try lia; apply I.
  - injection Hs as Hs. by apply wait_next.
  - apply some_pair in Hs as [-> ->]. by apply local_next.
Qed.
End Preservation.

Lemma sema_inv_step s s' : sema_inv s → cstep sema_tstep s s' → sema_inv s'.
Proof.
  intros Hinv Hs. destruct Hs as [i c p [g h] ths p' [g' h'] Hi Ht].
  unfold sema_tstep in Ht. simpl in Ht.
  destruct (sema_step c i p g) as [[q g1]|] eqn:E; [|done]. simpl in Ht.
  injection Ht as -> -> <-. destruct Hinv as [I|(j & f & Hj & Hf)]; simpl in *.
  - destruct (step_next g h ths i I c p p' g' Hi E) as [Hg|(f & -> & Hf)]; [by left|].
    right. exists i, f. simpl. by rewrite lookup_insert_eq.
  - right. exists j, f. split; [|done]. simpl. rewrite lookup_insert_ne; [done|].
    intros ->. rewrite Hj in Hi. injection Hi as <-. done.
Qed.

(** A semaphore made with the value [n], and idle threads. *)
Definition sema_init (n : Z) (s : config (G := dispatch_semaphore_s * history) (L := sema_pc)) : Prop :=
  dispatch_semaphore_create n = Some (shared s).1 ∧ (shared s).2 = History 0 0 ∧
  (∀ i p, threads s !! i = Some p → p = P_idle) ∧ Z.of_nat (size (threads s)) < INT_MAX.

Lemma sema_inv_init n s : n ≤ LONG_MAX → sema_init n s → sema_inv s.
Proof.
  intros Hn (Hg & Hh & Ht & Hsz). left. unfold dispatch_semaphore_create in Hg.
  case_decide; [done|]. injection Hg as <-. rewrite Hh.
  assert (∀ f : sema_pc → Z, f P_idle = 0 → sum f (threads s) = 0) as Hz.
  { intros f Hf. apply tsum_zero. intros i p Hp. by rewrite (Ht i p Hp). }
  split; rewrite ?Hz by done; try done; simpl;
    try change (count _dispatch_futex_init) with 0; try lia.
  - apply futex_inv_init. intros i p Hp. by rewrite (Ht i p Hp).
  - intros i p Hp. by rewrite (Ht i p Hp).
Qed.

Lemma sema_reachable n s : n ≤ LONG_MAX → reachable sema_tstep (sema_init n) s → sema_inv s.
Proof. intros Hn. apply (reachable_inv _ _ sema_inv); [by intros ? ?; eapply sema_inv_init|apply sema_inv_step]. Qed.
