(* ===== verification/SemaphoreTheorems.v ===== *)
(** * Counting semaphores: the properties

    Any number of threads below [INT_MAX] call [dispatch_semaphore_signal] and
    [dispatch_semaphore_wait] on one semaphore, in any interleaving of their
    atomic accesses, with any behaviour of the kernel (wake-ups of any sleeping
    thread, signals, time-outs). *)

From S2P Require Import Prelude Conc Time Futex Semaphore.

(** ** Faults *)

(** A thread is in a crash that is not the client's fault. *)
Definition library_crash (p : sema_pc) : Prop := ∃ f, p = P_crash f ∧ ¬ client_fault f.

(** A run in which no client fault occurred. *)
Definition no_fault (ths : gmap nat sema_pc) : Prop := ∀ i f, ths !! i ≠ Some (P_crash f).

Lemma reachable_good n s :
  n ≤ LONG_MAX → reachable sema_tstep (sema_init n) s → no_fault (threads s) →
  sema_good (shared s).1 (shared s).2 (threads s).
Proof.
  intros Hn Hr Hf. destruct (sema_reachable n s Hn Hr) as [H|(i & f & Hi & _)]; [done|].
  by destruct (Hf i f).
Qed.

(** [dsema_orig] never changes. *)
Lemma orig_reachable n s :
  reachable sema_tstep (sema_init n) s → dsema_orig (shared s).1 = n.
Proof.
  apply (reachable_inv _ _ (λ s, dsema_orig (shared s).1 = n)).
  - intros s0 (Hg & _). unfold dispatch_semaphore_create in Hg. case_decide; [done|]. by injection Hg as <-.
  - intros s0 s1 H0 Hs. destruct Hs as [i c p [g h] ths p' [g' h'] Hi Ht]. simpl in *. rewrite <- H0.
    unfold sema_tstep in Ht. simpl in Ht. destruct (sema_step c i p g) as [[q g1]|] eqn:E; [|done].
    injection Ht as _ <- _. clear -E. destruct p; simpl in E; try done.
    + destruct c; try done; by injection E as _ <-.
    + injection E as E. unfold dispatch_semaphore_signal in E. repeat case_decide; by injection E as _ <-.
    + by injection E as _ <-.
    + destruct p; try (by injection E as _ <-);
        destruct (_dispatch_futex_signal _ _ _) as [[? ?]|]; simpl in E; try done; by injection E as _ <-.
    + unfold sema_release in E. repeat case_decide; try (by injection E as _ <-).
      unfold _dispatch_semaphore_dispose in E. case_decide; by injection E as _ <-.
    + by injection E as _ <-.
    + injection E as E. unfold dispatch_semaphore_wait in E. case_decide; by injection E as _ <-.
    + repeat case_decide; try (by injection E as _ <-). destruct c; try done. by injection E as _ <-.
    + destruct p; try (by injection E as _ <-);
        destruct (_dispatch_futex_wait _ _ _ _ _) as [[? ?]|]; simpl in E; try done; by injection E as _ <-.
    + by injection E as _ <-.
    + case_decide; by injection E as _ <-.
    + destruct p; try (by injection E as _ <-);
        destruct (_dispatch_futex_wait _ _ _ _ _) as [[? ?]|]; simpl in E; try done; by injection E as _ <-.
    + by injection E as _ <-.
Qed.

(** ** The properties *)

(** C27. A semaphore made with the value [n] never hands out more permits than
    there are: the waits that returned 0 are at most [n] plus the signals, and
    the permits in the semaphore are what is left; the internal references
    balance, the semaphore is never disposed of, and no thread is ever in a
    crash but those the code provides for clients that signal too much. *)
Theorem semaphore_balance n s :
  n ≤ LONG_MAX → reachable sema_tstep (sema_init n) s → no_fault (threads s) →
  h_acquired (shared s).2 + Z.max 0 (dsema_value (shared s).1) ≤ n + h_signals (shared s).2 ∧
  do_ref_cnt (shared s).1 = sum holding (threads s) ∧ disposed (shared s).1 = false.
Proof.
  intros Hn Hr Hf. pose proof (reachable_good n s Hn Hr Hf) as I. rewrite <- (orig_reachable n s Hr).
  split_and!; [|apply I..]. pose proof (s_history _ _ _ I).
  pose proof (f_count _ _ _ (s_futex _ _ _ I)).
  pose proof (sum_bounds posting (threads s) (λ p, proj1 (proj2 (weights_range p)))).
  pose proof (sum_bounds taken (threads s) (λ p, proj2 (proj2 (proj2 (weights_range p))))). lia.
Qed.

(** Nothing moves unless a client calls or the kernel interrupts a sleeper: every
    thread is idle or asleep in the futex. *)
Definition quiescent (s : config (G := dispatch_semaphore_s * history) (L := sema_pc)) : Prop :=
  ∀ i p, threads s !! i = Some p →
    p = P_idle ∨ i ∈ k_sleep (dsema_futex (shared s).1) ∧
      (p = P_drain W_kernel ∨ ∃ t rel, p = P_timed t rel W_kernel).

(** C28. No wake-up is lost: when every thread is idle or asleep, and one is
    asleep, then every permit was handed out (the waits that returned 0 are
    exactly [n] plus the signals), so the sleepers wait rightly. *)
Theorem semaphore_no_lost_wakeup n s :
  n ≤ LONG_MAX → reachable sema_tstep (sema_init n) s → quiescent s →
  k_sleep (dsema_futex (shared s).1) ≠ ∅ →
  h_acquired (shared s).2 = n + h_signals (shared s).2 ∧ dsema_value (shared s).1 < 0.
Proof.
  intros Hn Hr Hq Hne.
  assert (no_fault (threads s)) as Hf.
  { intros i f Hi. destruct (Hq i _ Hi) as [|[_ [|(? & ? & ?)]]]; done. }
  pose proof (reachable_good n s Hn Hr Hf) as I. rewrite <- (orig_reachable n s Hr).
  assert (∀ f : sema_pc → Z, f P_idle = 0 → f (P_drain W_kernel) = 0 →
    (∀ t rel, f (P_timed t rel W_kernel) = 0) → sum f (threads s) = 0) as Hz.
  { intros f H1 H2 H3. apply tsum_zero. intros i p Hp.
    destruct (Hq i p Hp) as [->|[_ [->|(? & ? & ->)]]]; auto. }
  assert (count (dsema_futex (shared s).1) = 0) as Hc.
  { pose proof (f_count _ _ _ (s_futex _ _ _ I)). pose proof (f_wakers _ _ _ (s_futex _ _ _ I) Hne) as Hw.
    enough (wakers sema_view (dsema_futex (shared s).1) (threads s) = 0) by lia.
    apply tsum_zero. intros i p Hp.
    destruct (Hq i p Hp) as [->|[Hi [->|(? & ? & ->)]]]; simpl; rewrite ?decide_True by done; done. }
  pose proof (s_waiting _ _ _ I) as Hwt. pose proof (s_history _ _ _ I) as Hh.
  rewrite (Hz posting) in * by done. rewrite (Hz taken) in Hh by done.
  assert (0 < sum waiting (threads s)) as Hpos.
  { apply set_choose_L in Hne as [i Hi]. destruct (f_asleep _ _ _ (s_futex _ _ _ I) i Hi) as (p & t & Hp & Hv).
    enough (waiting p ≤ sum waiting (threads s)) as Hle.
    { destruct p; simpl in *; try done; injection Hv as; subst; simpl in *; lia. }
    apply (tsum_ge (λ _ p, waiting p) (threads s) i p); [|done]. intros j q _. apply weights_range. }
  lia.
Qed.

(** ** Two threads *)

Definition two_threads (n : Z) : config (G := dispatch_semaphore_s * history) (L := sema_pc) :=
  Config (_dispatch_semaphore_init n, History 0 0) {[0%nat := P_idle; 1%nat := P_idle]}.

Lemma two_threads_init n : 0 ≤ n → sema_init n (two_threads n).
Proof.
  intros Hn. split_and!; try done.
  - unfold dispatch_semaphore_create. by rewrite decide_False by lia.
  - intros i p. simpl. intros [[_ <-]|[_ [_ <-]%lookup_singleton_Some]]%lookup_insert_Some; done.
Qed.

(** Thread 0 takes the only permit, thread 1 goes to sleep. *)
Definition sleeping_schedule : list (nat * sema_choice) :=
  [(0%nat, C_wait DISPATCH_TIME_FOREVER); (0%nat, C_go); (0%nat, C_go);
   (1%nat, C_wait DISPATCH_TIME_FOREVER)] ++ replicate 110 (1%nat, C_go).

Definition asleep : config := play sema_tstep sleeping_schedule (two_threads 1).

Lemma asleep_reachable : reachable sema_tstep (sema_init 1) asleep.
Proof.
  apply play_reachable. exists (two_threads 1). split; [by apply two_threads_init|done].
Qed.

Lemma asleep_threads : threads asleep = {[0%nat := P_idle; 1%nat := P_drain W_kernel]}.
Proof. vm_compute. reflexivity. Qed.

Lemma semaphore_balance_witness :
  h_acquired (shared asleep).2 + Z.max 0 (dsema_value (shared asleep).1) ≤ 1 + 0.
Proof.
  apply (semaphore_balance 1 asleep ltac:(done) asleep_reachable).
  intros i f. rewrite asleep_threads.
  intros [[_ ?]|[_ [_ ?]%lookup_singleton_Some]]%lookup_insert_Some; done.
Defined.

Lemma semaphore_no_lost_wakeup_witness :
  h_acquired (shared asleep).2 = 1 + 0.
Proof.
  apply (semaphore_no_lost_wakeup 1 asleep ltac:(done) asleep_reachable); [|vm_compute; discriminate].
  intros i p. rewrite asleep_threads.
  intros [[_ <-]|[_ [<- <-]%lookup_singleton_Some]]%lookup_insert_Some; [by left|right].
  split; [|by left]. apply (bool_decide_unpack _). by vm_compute.
Defined.
