(* ===== verification/ThreadSema.v ===== *)
(** * Thread semaphores (src/semaphore.c, [_dispatch_thread_semaphore_t])

    A thread semaphore is a futex that counts from 0.  The first part runs its
    two operations as machines over the futex and accounts for them; the second
    is what their clients ([Once], [Apply]) rely on: a store of counters, with
    the cache of one semaphore that each thread keeps. *)

From S2P Require Import Prelude Conc Time Futex.

(** ** On the futex *)

Inductive tsema_pc : Type :=
  | TS_idle
  | TS_signal (p : signal_pc)
  | TS_wait (p : wait_pc)
  | TS_crash (f : fault).

Inductive tsema_choice : Type :=
  | TC_signal
  | TC_wait
  | TC_kernel (c : kchoice).

(** [DISPATCH_SEMAPHORE_VERIFY_RET]. *)
Definition verify_ret : fault := DISPATCH_CRASH "flawed group/semaphore logic".

Definition _dispatch_thread_semaphore_signal (c : kchoice) (p : signal_pc) (g : dispatch_futex_t)
  : option (tsema_pc * dispatch_futex_t) :=
  match p with
  | S_done => Some (TS_idle, g)
  | S_crash f => Some (TS_crash f, g)
  | p => '(p, g) ← _dispatch_futex_signal c p g; Some (TS_signal p, g)
  end.

Definition _dispatch_thread_semaphore_wait (c : kchoice) (i : nat) (p : wait_pc) (g : dispatch_futex_t)
  : option (tsema_pc * dispatch_futex_t) :=
  match p with
  | W_done None => Some (TS_idle, g)
  | W_done (Some EINTR) => Some (TS_wait (W_first T_read), g)
  | W_done (Some _) => Some (TS_crash verify_ret, g)
  | p => '(p, g) ← _dispatch_futex_wait None c i p g; Some (TS_wait p, g)
  end.

Definition tsema_step (c : tsema_choice) (i : nat) (p : tsema_pc) (g : dispatch_futex_t)
  : option (tsema_pc * dispatch_futex_t) :=
  match p, c with
  | TS_idle, TC_signal => Some (TS_signal S_read, g)
  | TS_idle, TC_wait => Some (TS_wait (W_first T_read), g)
  | TS_signal p, TC_kernel k => _dispatch_thread_semaphore_signal k p g
  | TS_wait p, TC_kernel k => _dispatch_thread_semaphore_wait k i p g
  | _, _ => None
  end.

(** *** Accounting *)

(** How many signals were called, and how many waits returned. *)
Record ts_history : Type := TSHistory { ts_signals : Z; ts_waited : Z }.

Definition ts_log (p p' : tsema_pc) (h : ts_history) : ts_history :=
  TSHistory
    (ts_signals h + match p, p' with TS_idle, TS_signal _ => 1 | _, _ => 0 end)
    (ts_waited h + match p, p' with TS_wait _, TS_idle => 1 | _, _ => 0 end).

Definition tsema_tstep (c : tsema_choice) (i : nat) (p : tsema_pc) (s : dispatch_futex_t * ts_history)
  : option (tsema_pc * (dispatch_futex_t * ts_history)) :=
  '(p', g) ← tsema_step c i p s.1; Some (p', (g, ts_log p p' s.2)).

Definition ts_view (p : tsema_pc) : futex_op :=
  match p with
  | TS_signal p => F_signal p
  | TS_wait p => F_wait None p
  | _ => F_idle
  end.

(** Has taken from the count and not returned yet. *)
Definition ts_taken (p : tsema_pc) : Z := match p with TS_wait (W_done None) => 1 | _ => 0 end.
Definition ts_posting (p : tsema_pc) : Z := match p with TS_signal p => to_post (F_signal p) | _ => 0 end.

Definition ts_pc_ok (p : tsema_pc) : Prop :=
  match p with
  | TS_crash _ => False
  | TS_wait (W_done (Some (EWOULDBLOCK | ETIMEDOUT)) | W_sub (Some ETIMEDOUT)) => False
  | TS_signal (S_crash f) => f = DISPATCH_CRASH "semaphore overflow"
  | _ => True
  end.

Record ts_good (g : dispatch_futex_t) (h : ts_history) (ths : gmap nat tsema_pc) : Prop := TSGood {
  t_futex : futex_inv ts_view g ths;
  t_history : ts_waited h + tsum (λ _, ts_taken) ths + count g + tsum (λ _, ts_posting) ths = ts_signals h;
  t_local : ∀ i p, ths !! i = Some p → ts_pc_ok p;
  t_size : Z.of_nat (size ths) < INT_MAX
}.

(** The count can only overflow when more than [INT_MAX] signals are not
    waited for. *)
Definition ts_inv (s : config (G := dispatch_futex_t * ts_history) (L := tsema_pc)) : Prop :=
  ts_good (shared s).1 (shared s).2 (threads s) ∨
  ∃ i, threads s !! i = Some (TS_crash (DISPATCH_CRASH "semaphore overflow")).

Section Step.
Context (g : dispatch_futex_t) (h : ts_history) (ths : gmap nat tsema_pc) (i : nat) (p : tsema_pc).
Context (I : ts_good g h ths) (Hi : ths !! i = Some p).

Lemma ts_update p' g' :
  futex_inv ts_view g' (<[i:=p']> ths) → ts_pc_ok p' →
  ts_waited (ts_log p p' h) - ts_waited h + (ts_taken p' - ts_taken p) + (count g' - count g)
    + (ts_posting p' - ts_posting p) = ts_signals (ts_log p p' h) - ts_signals h →
  ts_good g' (ts_log p p' h) (<[i:=p']> ths).
Proof.
  intros Hf Hp Hh. destruct I as [If Ih Il Is]. split; try done.
  - rewrite !(tsum_step _ _ _ _ p' Hi). lia.
  - intros j q [[_ <-]|[_ Hq]]%lookup_insert_Some; eauto.
  - rewrite map_size_insert_Some by by eexists. done.
Qed.

(** A step that leaves the futex alone. *)
Lemma ts_local p' :
  inert (ts_view p) = true → inert (ts_view p') = true → local_ok (ts_view p') → ts_pc_ok p' →
  ts_waited (ts_log p p' h) - ts_waited h + (ts_taken p' - ts_taken p)
    + (ts_posting p' - ts_posting p) = ts_signals (ts_log p p' h) - ts_signals h →
  ts_good g (ts_log p p' h) (<[i:=p']> ths).
Proof.
  intros Hin Hin' Hlo Hp Hh. apply ts_update; try done; [|lia].
  eapply inv_inert; [by apply (t_futex _ _ _ I)|done..].
Qed.

(** A step on the futex. *)
Lemma ts_futex p' k x :
  futex_step k i (ts_view p) g = Some (ts_view p', x) → ts_pc_ok p' →
  p ≠ TS_idle → p' ≠ TS_idle →
  ts_posting p' - ts_posting p = to_post (ts_view p') - to_post (ts_view p) →
  ts_taken p' - ts_taken p = to_take (ts_view p) - to_take (ts_view p') →
  ts_good x (ts_log p p' h) (<[i:=p']> ths).
Proof.
  intros Hs Hp Hn Hn' Ho Ht. pose proof (t_size _ _ _ I).
  destruct (futex_step_ok ts_view g ths i p p' (t_futex _ _ _ I) Hi) with
    (c := k) (a' := ts_view p') (g' := x) as [If Ec]; [consts; lia|done|done|].
  assert (ts_log p p' h = h) as El.
  { destruct h, p, p'; try done; unfold ts_log; simpl; by rewrite !Z.add_0_r. }
  apply ts_update; try done. rewrite El. lia.
Qed.
End Step.

(** The results of a wait without a timeout. *)
Lemma untimed_results k i q x q' x' :
  _dispatch_futex_wait None k i q x = Some (q', x') → ts_pc_ok (TS_wait q) → ts_pc_ok (TS_wait q').
Proof.
  destruct q as [r|n|r| | | |ret|r|ret]; cbn [_dispatch_futex_wait _dispatch_futex_wait_slow].
  - destruct (_dispatch_futex_trywait r x) as [[|[]] ?]; by intros [= <- <-].
  - repeat case_decide; by intros [= <- <-].
  - destruct (_dispatch_futex_trywait r x) as [[|[]] ?]; by intros [= <- <-].
  - by intros [= <- <-].
  - case_decide; by intros [= <- <-].
  - case_decide; [by intros [= <- <-]|]. destruct k; try done; by intros [= <- <-].
  - intros [= <- <-]. by destruct ret as [[]|].
  - destruct (_dispatch_futex_trywait r x) as [[|[]] ?]; by intros [= <- <-].
  - done.
Qed.

Lemma ts_step_inv g h ths i p c p' g' :
  ts_good g h ths → ths !! i = Some p → tsema_step c i p g = Some (p', g') →
  ts_good g' (ts_log p p' h) (<[i:=p']> ths) ∨ p' = TS_crash (DISPATCH_CRASH "semaphore overflow").
Proof.
  intros I Hi Hs. pose proof (t_local _ _ _ I i p Hi) as Hok.
  destruct p as [|q|q|f]; [destruct c| | |done]; cbn [tsema_step] in Hs; try done.
  - apply some_pair in Hs as [-> ->]. left. apply (ts_local _ _ _ _ _ I Hi); try done. simpl; lia.
  - apply some_pair in Hs as [-> ->]. left. apply (ts_local _ _ _ _ _ I Hi); try done. simpl; lia.
  - destruct c as [| |k]; try done.
    destruct q as [|orig| | |f]; cbn [_dispatch_thread_semaphore_signal] in Hs.
    1-3: destruct (_dispatch_futex_signal _ _ _) as [[q' x]|] eqn:E; [|done]; simpl in Hs;
      apply some_pair in Hs as [-> ->]; left;
      apply (ts_futex _ _ _ _ _ I Hi _ k); [cbn [ts_view futex_step]; by rewrite E| |done..];
      cbn [_dispatch_futex_signal] in E; destruct q'; try done;
      repeat case_decide; try discriminate E; try (by injection E as <- _);
      destruct k; try discriminate E; case_decide; discriminate E.
    + apply some_pair in Hs as [-> ->]. left. apply (ts_local _ _ _ _ _ I Hi); try done. simpl; lia.
    + apply some_pair in Hs as [-> ->]. right. simpl in Hok. by subst f.
  - destruct c as [| |k]; try done.
    assert (q = W_done None ∨ q = W_done (Some EINTR) ∨ ∀ r, q ≠ W_done r) as [->|[->|Hd]].
    { destruct q as [| | | | | | | |[[]|]]; try done; eauto; right; right; congruence. }
    + apply some_pair in Hs as [-> ->]. left. apply (ts_local _ _ _ _ _ I Hi); try done. simpl; lia.
    + apply some_pair in Hs as [-> ->]. left. apply (ts_local _ _ _ _ _ I Hi); try done. simpl; lia.
    + assert (('(q', x) ← _dispatch_futex_wait None k i q g; Some (TS_wait q', x)) = Some (p', g')) as Hs'
        by (destruct q; try exact Hs; by destruct (Hd ret)).
      destruct (_dispatch_futex_wait _ _ _ _ _) as [[q' x]|] eqn:E; [|done].
      apply some_pair in Hs' as [-> ->]. left.
      apply (ts_futex _ _ _ _ _ I Hi _ k); try done.
      * cbn [ts_view futex_step]. by rewrite E.
      * by eapply untimed_results.
      * simpl. destruct q as [| | | | | | | |r]; try (by destruct (Hd r)); by destruct q' as [| | | | | | | |[]].
Qed.

Lemma ts_inv_step s s' : ts_inv s → cstep tsema_tstep s s' → ts_inv s'.
Proof.
  intros Hinv Hs. destruct Hs as [i c p [g h] ths p' [g' h'] Hi Ht].
  unfold tsema_tstep in Ht. simpl in Ht.
  destruct (tsema_step c i p g) as [[q g1]|] eqn:E; [|done]. simpl in Ht.
  injection Ht as -> -> <-. destruct Hinv as [I|(j & Hj)]; simpl in *.
  - destruct (ts_step_inv g h ths i p c p' g' I Hi E) as [Hg| ->]; [by left|].
    right. exists i. simpl. by rewrite lookup_insert_eq.
  - right. exists j. simpl. rewrite lookup_insert_ne; [done|].
    intros ->. rewrite Hj in Hi. injection Hi as <-. by destruct c.
Qed.

(** A new semaphore, and idle threads. *)
Definition tsema_init (s : config (G := dispatch_futex_t * ts_history) (L := tsema_pc)) : Prop :=
  shared s = (_dispatch_futex_init, TSHistory 0 0) ∧
  (∀ i p, threads s !! i = Some p → p = TS_idle) ∧ Z.of_nat (size (threads s)) < INT_MAX.

Lemma ts_reachable s : reachable tsema_tstep tsema_init s → ts_inv s.
Proof.
  apply (reachable_inv _ _ ts_inv); [|apply ts_inv_step].
  intros s0 (Hg & Ht & Hsz). left. rewrite Hg. split; simpl.
  - apply futex_inv_init. intros i p Hp. by rewrite (Ht i p Hp).
  - rewrite !tsum_zero; [done|..]; intros i p Hp; by rewrite (Ht i p Hp).
  - intros i p Hp. by rewrite (Ht i p Hp).
  - done.
Qed.

(** Every thread is idle or asleep in the kernel. *)
Definition ts_quiescent (s : config (G := dispatch_futex_t * ts_history) (L := tsema_pc)) : Prop :=
  ∀ i p, threads s !! i = Some p →
    p = TS_idle ∨ i ∈ k_sleep (shared s).1 ∧ p = TS_wait W_kernel.

(** C31. Thread semaphores count: the waits that returned never exceed the
    signals, and when nothing is left to happen but a thread sleeps in a wait,
    every signal was consumed by a wait that returned: none is lost. *)
Theorem thread_semaphore_correct s :
  reachable tsema_tstep tsema_init s → (∀ i f, threads s !! i ≠ Some (TS_crash f)) →
  ts_waited (shared s).2 ≤ ts_signals (shared s).2 ∧
  (ts_quiescent s → k_sleep (shared s).1 ≠ ∅ → ts_waited (shared s).2 = ts_signals (shared s).2).
Proof.
  intros Hr Hf. destruct (ts_reachable s Hr) as [I|(i & Hi)]; [|by destruct (Hf i _ Hi)].
  pose proof (t_history _ _ _ I) as Hh. pose proof (f_count _ _ _ (t_futex _ _ _ I)) as Hc.
  split.
  - assert (0 ≤ tsum (λ _, ts_taken) (threads s)).
    { apply tsum_nonneg. intros j [|[]|[| | | | | | | |[]]|] _; simpl; lia. }
    assert (0 ≤ tsum (λ _, ts_posting) (threads s)).
    { apply tsum_nonneg. intros j [|[]|[]|] _; simpl; lia. }
    lia.
  - intros Hq Hne. rewrite !tsum_zero in Hh by (intros i p Hp; by destruct (Hq i p Hp) as [->|[_ ->]]).
    enough (count (shared s).1 ≤ 0) by lia.
    etrans; [by apply (f_wakers _ _ _ (t_futex _ _ _ I))|].
    apply Z.eq_le_incl, tsum_zero. intros i p Hp.
    destruct (Hq i p Hp) as [->|[Hs ->]]; simpl; rewrite ?decide_True by done; done.
Qed.

(** One thread waits, the other signals, wakes it, and waits in its turn. *)
Definition ts_schedule : list (nat * tsema_choice) :=
  (0%nat, TC_wait) :: replicate 110 (0%nat, TC_kernel K_go) ++
  (1%nat, TC_signal) :: replicate 4 (1%nat, TC_kernel (K_wake 0)) ++
  replicate 6 (0%nat, TC_kernel K_go) ++ (1%nat, TC_wait) :: replicate 110 (1%nat, TC_kernel K_go).

Definition ts_asleep : config :=
  play tsema_tstep ts_schedule
    (Config (_dispatch_futex_init, TSHistory 0 0) {[0%nat := TS_idle; 1%nat := TS_idle]}).

Lemma thread_semaphore_correct_witness :
  ts_waited (shared ts_asleep).2 = ts_signals (shared ts_asleep).2 ∧ ts_signals (shared ts_asleep).2 = 1.
Proof.
  assert (threads ts_asleep = {[0%nat := TS_idle; 1%nat := TS_wait W_kernel]}) as Et by by vm_compute.
  split; [|by vm_compute].
  apply (thread_semaphore_correct ts_asleep).
  - apply play_reachable. eexists. split; [|done]. split_and!; [done| |done].
    intros i p. simpl. intros [[_ <-]|[_ [_ <-]%lookup_singleton_Some]]%lookup_insert_Some; done.
  - intros i f. rewrite Et.
    intros [[_ ?]|[_ [_ ?]%lookup_singleton_Some]]%lookup_insert_Some; done.
  - intros i p. rewrite Et.
    intros [[_ <-]|[_ [<- <-]%lookup_singleton_Some]]%lookup_insert_Some; [by left|right].
    split; [|done]. apply (bool_decide_unpack _). by vm_compute.
  - by vm_compute.
Defined.

(** ** What clients use *)

(** The semaphores that exist, with the signals not yet waited for. *)
Record sema_store : Type := Semas { semas : gmap nat Z; next_sema : nat }.

Definition set_semas (m : gmap nat Z) (st : sema_store) : sema_store := Semas m (next_sema st).

Definition _dispatch_thread_semaphore_create (st : sema_store) : nat * sema_store :=
  (next_sema st, Semas (<[next_sema st := 0]> (semas st)) (S (next_sema st))).

Definition _dispatch_thread_semaphore_dispose (sema : nat) (st : sema_store) : sema_store :=
  set_semas (delete sema (semas st)) st.

(** [tsd] is the value of the calling thread for [dispatch_sema4_key]; the
    result is the semaphore and the new value. *)
Definition _dispatch_get_thread_semaphore (tsd : option nat) (st : sema_store)
  : nat * option nat * sema_store :=
  match tsd with
  | None => let '(sema, st) := _dispatch_thread_semaphore_create st in (sema, None, st)
  | Some sema => (sema, None, st)
  end.

Definition _dispatch_put_thread_semaphore (sema : nat) (tsd : option nat) (st : sema_store)
  : option nat * sema_store :=
  match tsd with
  | None => (Some sema, st)
  | Some old => (Some sema, _dispatch_thread_semaphore_dispose old st)
  end.

(** A signal of a semaphore that does not exist is a use after free. *)
Definition sema_signal (sema : nat) (st : sema_store) : option sema_store :=
  n ← semas st !! sema; Some (set_semas (<[sema := n + 1]> (semas st)) st).

(** A wait goes on when the count is positive; [inl tt]: the semaphore does not
    exist; [inr None]: it blocks. *)
Definition sema_wait (sema : nat) (st : sema_store) : unit + option sema_store :=
  match semas st !! sema with
  | None => inl tt
  | Some n => inr (if decide (0 < n) then Some (set_semas (<[sema := n - 1]> (semas st)) st) else None)
  end.
