(* ===== verification/Once.v ===== *)
(** * dispatch_once (src/once.c, dispatch/once.h)

    The predicate is null, the address of the record [dow] of the thread that
    came last, or [DISPATCH_ONCE_DONE].  A thread that finds another one running
    the function pushes its [dow] and waits on its semaphore; the thread that
    ran the function walks the list and signals.  A [dow] is on the stack of its
    thread: it exists during the call, and is named by its thread. *)

From S2P Require Import Prelude Conc Time Futex ThreadSema.

Inductive dow_ptr : Type :=
  | DowNull
  | DISPATCH_ONCE_DONE
  | Dow (i : nat).

#[global] Instance dow_ptr_eq : EqDecision dow_ptr.
Proof. solve_decision. Defined.

Record _dispatch_once_waiter_s : Type := Waiter { dow_next : dow_ptr; dow_sema : option nat }.

(** The predicate, the records on the stacks, and the thread semaphores; then
    how many times the function was called, and whether it returned. *)
Record once_state : Type := Once {
  vval : dow_ptr;
  dows : gmap nat _dispatch_once_waiter_s;
  store : sema_store;
  calls : Z;
  finished : bool
}.

Definition set_vval v (g : once_state) := Once v (dows g) (store g) (calls g) (finished g).
Definition set_dows d (g : once_state) := Once (vval g) d (store g) (calls g) (finished g).
Definition set_store st (g : once_state) := Once (vval g) (dows g) st (calls g) (finished g).
Definition func_called (g : once_state) := Once (vval g) (dows g) (store g) (calls g + 1) (finished g).
Definition func_returned (g : once_state) := Once (vval g) (dows g) (store g) (calls g) true.

Inductive once_pc : Type :=
  | O_idle
  | O_test
  | O_enter
  (* the thread that runs the function *)
  | O_call
  | O_callout
  | O_xchg
  | O_walk (tmp : dow_ptr)
  | O_spin (tmp : dow_ptr)
  | O_sema (tmp : dow_ptr)
  | O_next (tmp : dow_ptr) (sema : nat)
  | O_signal (sema : nat) (tmp : dow_ptr)
  (* the others *)
  | O_get
  | O_read
  | O_cas (tmp : dow_ptr)
  | O_link (tmp : dow_ptr)
  | O_wait
  | O_put
  | O_ret
  | O_crash (f : fault).

(** A thread: its cached semaphore, and where it is. *)
Abbreviation once_thread := (option nat * once_pc)%type.

Section Step.
Context (i : nat) (g : once_state).

(** Through a pointer to a [dow]: anything but a live one is undefined. *)
Definition deref (p : dow_ptr) : option _dispatch_once_waiter_s :=
  match p with Dow w => dows g !! w | _ => None end.

Definition bad (tsd : option nat) : once_thread * once_state := ((tsd, O_crash (UB "dow")), g).

(** The semaphore of this thread's [dow]. *)
Definition own_sema : option nat := d ← dows g !! i; dow_sema d.

Definition modify_own (f : _dispatch_once_waiter_s → _dispatch_once_waiter_s) : once_state :=
  set_dows (alter f i (dows g)) g.

(** The steps of the thread whose compare-and-swap found the predicate null. *)
Definition once_runner (tsd : option nat) (p : once_pc) : once_thread * once_state :=
  match p with
  | O_call => ((tsd, O_callout), func_called g)
  | O_callout => ((tsd, O_xchg), func_returned g)
  | O_xchg => ((tsd, O_walk (vval g)), set_vval DISPATCH_ONCE_DONE g)
  | O_walk tmp => ((tsd, if decide (tmp = Dow i) then O_ret else O_spin tmp), g)
  | O_spin tmp =>
      match deref tmp with
      | Some d => ((tsd, if decide (dow_next d = DowNull) then O_spin tmp else O_sema tmp), g)
      | None => bad tsd
      end
  | O_sema tmp =>
      match d ← deref tmp; dow_sema d with
      | Some sema => ((tsd, O_next tmp sema), g)
      | None => bad tsd
      end
  | O_next tmp sema =>
      match deref tmp with
      | Some d => ((tsd, O_signal sema (dow_next d)), g)
      | None => bad tsd
      end
  | O_signal sema tmp =>
      match sema_signal sema (store g) with
      | Some st => ((tsd, O_walk tmp), set_store st g)
      | None => bad tsd
      end
  | _ => bad tsd
  end.

(** The steps of the other threads; [None]: blocked. *)
Definition once_waiter (tsd : option nat) (p : once_pc) : option (once_thread * once_state) :=
  match p with
  | O_get =>
      let '(sema, tsd, st) := _dispatch_get_thread_semaphore tsd (store g) in
      Some ((tsd, O_read),
            set_store st (modify_own (λ d, Waiter (dow_next d) (Some sema))))
  | O_read =>
      Some ((tsd, if decide (vval g = DISPATCH_ONCE_DONE) then O_put else O_cas (vval g)), g)
  | O_cas tmp =>
      Some (if decide (vval g = tmp) then ((tsd, O_link tmp), set_vval (Dow i) g)
            else ((tsd, O_read), g))
  | O_link tmp => Some ((tsd, O_wait), modify_own (λ d, Waiter tmp (dow_sema d)))
  | O_wait =>
      match own_sema with
      | None => Some (bad tsd)
      | Some sema =>
          match sema_wait sema (store g) with
          | inl _ => Some (bad tsd)
          | inr (Some st) => Some ((tsd, O_read), set_store st g)
          | inr None => None
          end
      end
  | O_put =>
      match own_sema with
      | None => Some (bad tsd)
      | Some sema =>
          let '(tsd, st) := _dispatch_put_thread_semaphore sema tsd (store g) in
          Some ((tsd, O_ret), set_store st g)
      end
  | _ => None
  end.

Definition dispatch_once_f (tsd : option nat) (p : once_pc) : option (once_thread * once_state) :=
  match p with
  | O_enter =>
      let g := set_dows (<[i := Waiter DowNull None]> (dows g)) g in
      Some (if decide (vval g = DowNull) then ((tsd, O_call), set_vval (Dow i) g)
            else ((tsd, O_get), g))
  | O_call | O_callout | O_xchg | O_walk _ | O_spin _ | O_sema _ | O_next _ _ | O_signal _ _ =>
      Some (once_runner tsd p)
  | O_ret => Some ((tsd, O_idle), set_dows (delete i (dows g)) g)
  | _ => once_waiter tsd p
  end.

(** The inline test of the header. *)
Definition _dispatch_once_f (tsd : option nat) : once_thread * once_state :=
  if decide (vval g = DISPATCH_ONCE_DONE) then ((tsd, O_ret), g) else ((tsd, O_enter), g).
End Step.

Definition once_tstep (_ : unit) (i : nat) (l : once_thread) (g : once_state)
  : option (once_thread * once_state) :=
  match l.2 with
  | O_idle => Some ((l.1, O_test), g)
  | O_test => Some (_dispatch_once_f g l.1)
  | O_crash _ => None
  | p => dispatch_once_f i g l.1 p
  end.

(** The predicate is zero, and every thread is idle, with an empty cache or a
    semaphore of its own. *)
Definition once_init (s : config (G := once_state) (L := once_thread)) : Prop :=
  vval (shared s) = DowNull ∧ dows (shared s) = ∅ ∧ calls (shared s) = 0 ∧
  finished (shared s) = false ∧ semas (store (shared s)) = ∅ ∧
  ∀ i l, threads s !! i = Some l → l = (None, O_idle).

(** A thread is past the call when it returns. *)
Definition returning (p : once_pc) : Prop := p = O_ret.

(** ** The invariant *)

(** Runs the function, or walks the list after it. *)
Definition runner (p : once_pc) : bool :=
  match p with
  | O_call | O_callout | O_xchg | O_walk _ | O_spin _ | O_sema _ | O_next _ _ | O_signal _ _ => true
  | _ => false
  end.

Definition sema_at (g : once_state) (s : nat) (n : Z) : Prop := semas (store g) !! s = Some n.

(** The semaphores a thread owns: the cached one, the one of its record. *)
Definition holds (g : once_state) (i : nat) (l : once_thread) (s : nat) : Prop :=
  l.1 = Some s ∨ own_sema i g = Some s.

#[global] Instance once_pc_eq : EqDecision once_pc.
Proof. solve_decision. Defined.

(** What holds of a thread wherever the others are. *)
Definition once_local (g : once_state) (i : nat) (l : once_thread) : Prop :=
  let cached := ∀ s, l.1 = Some s → sema_at g s 0 in
  let waiter n s c := dows g !! i = Some (Waiter n (Some s)) ∧ sema_at g s c ∧ l.1 = None ∧ vval g ≠ DowNull in
  match l.2 with
  | O_idle | O_test | O_enter => dows g !! i = None ∧ cached
  | O_get => dows g !! i = Some (Waiter DowNull None) ∧ cached ∧ vval g ≠ DowNull
  | O_read => ∃ n s, waiter n s 0 ∧ (n = DowNull ∨ vval g = DISPATCH_ONCE_DONE)
  | O_cas tmp =>
      ∃ n s, waiter n s 0 ∧ (n = DowNull ∨ vval g = DISPATCH_ONCE_DONE) ∧
        tmp ≠ DISPATCH_ONCE_DONE ∧ tmp ≠ DowNull
  | O_link tmp => ∃ s, waiter DowNull s 0
  | O_wait => ∃ n s c, waiter n s c ∧ (c = 0 ∨ c = 1 ∧ vval g = DISPATCH_ONCE_DONE)
  | O_put => ∃ n s, waiter n s 0 ∧ vval g = DISPATCH_ONCE_DONE
  | O_ret =>
      vval g = DISPATCH_ONCE_DONE ∧ cached ∧ ∀ s, own_sema i g = Some s → l.1 = Some s
  | O_crash _ => False
  | _ => dows g !! i = Some (Waiter DowNull None) ∧ cached
  end.

Definition sems_ok (g : once_state) (ths : gmap nat once_thread) : Prop :=
  (∀ i j l k s, ths !! i = Some l → ths !! j = Some k → holds g i l s → holds g j k s → i = j) ∧
  (∀ s n, sema_at g s n → (s < next_sema (store g))%nat).

(** [w] is in the list, nobody signalled it, and its record points, or is about
    to point, to [nxt]. *)
Definition linking (g : once_state) (ths : gmap nat once_thread) (w : nat) (nxt : dow_ptr) : Prop :=
  ∃ tsd s m p, ths !! w = Some (tsd, p) ∧ dows g !! w = Some (Waiter m (Some s)) ∧ sema_at g s 0 ∧
    (p = O_link nxt ∧ m = DowNull ∨ p = O_wait ∧ m = nxt).

(** Its record does point to [nxt]. *)
Definition in_wait (g : once_state) (ths : gmap nat once_thread) (w : nat) (nxt : dow_ptr) (s : nat) : Prop :=
  ∃ tsd, ths !! w = Some (tsd, O_wait) ∧ dows g !! w = Some (Waiter nxt (Some s)) ∧ sema_at g s 0.

(** The list from [v]: the threads [ws], the last of them pointing to the
    record of the runner [r]. *)
Fixpoint linked (g : once_state) (ths : gmap nat once_thread) (r : nat) (v : dow_ptr) (ws : list nat) : Prop :=
  match ws with
  | [] => v = Dow r
  | w :: ws => v = Dow w ∧ ∃ nxt, linking g ths w nxt ∧ linked g ths r nxt ws
  end.

(** What the walk has left of it. *)
Definition walking (g : once_state) (ths : gmap nat once_thread) (r : nat) (p : once_pc) (ws : list nat) : Prop :=
  match p with
  | O_walk tmp => linked g ths r tmp ws
  | O_spin tmp => linked g ths r tmp ws ∧ ws ≠ []
  | O_sema tmp => ∃ w ws' nxt s, ws = w :: ws' ∧ tmp = Dow w ∧ in_wait g ths w nxt s ∧ linked g ths r nxt ws'
  | O_next tmp s =>
      ∃ w ws' nxt, ws = w :: ws' ∧ tmp = Dow w ∧ in_wait g ths w nxt s ∧ linked g ths r nxt ws'
  | O_signal s tmp =>
      ∃ w ws' nxt, ws = w :: ws' ∧ in_wait g ths w nxt s ∧ linked g ths r tmp ws'
  | _ => False
  end.

(** Waits for a signal that was not sent. *)
Definition unsignalled (g : once_state) (i : nat) (l : once_thread) : Prop :=
  match l.2 with
  | O_link _ => True
  | O_wait => ∃ s, own_sema i g = Some s ∧ sema_at g s 0
  | _ => False
  end.

Inductive once_phase (g : once_state) (ths : gmap nat once_thread) : Prop :=
  | Ph_start :
      vval g = DowNull → calls g = 0 → finished g = false →
      (∀ i l, ths !! i = Some l → runner l.2 = false) → once_phase g ths
  | Ph_run r tsd p ws :
      ths !! r = Some (tsd, p) → (p = O_call ∨ p = O_callout ∨ p = O_xchg) →
      linked g ths r (vval g) ws → NoDup ws →
      calls g = (if decide (p = O_call) then 0 else 1) → finished g = bool_decide (p = O_xchg) →
      (∀ i l, ths !! i = Some l → runner l.2 = true → i = r) →
      (∀ i l, ths !! i = Some l → unsignalled g i l → i ∈ ws) → once_phase g ths
  | Ph_walk r tsd p ws :
      ths !! r = Some (tsd, p) → vval g = DISPATCH_ONCE_DONE → walking g ths r p ws → NoDup ws →
      calls g = 1 → finished g = true →
      (∀ i l, ths !! i = Some l → runner l.2 = true → i = r) →
      (∀ i l, ths !! i = Some l → unsignalled g i l → i ∈ ws) → once_phase g ths
  | Ph_over :
      vval g = DISPATCH_ONCE_DONE → calls g = 1 → finished g = true →
      (∀ i l, ths !! i = Some l → runner l.2 = false ∧ ¬ unsignalled g i l) → once_phase g ths.

Record once_good (g : once_state) (ths : gmap nat once_thread) : Prop := OnceGood {
  o_local : ∀ i l, ths !! i = Some l → once_local g i l;
  o_sems : sems_ok g ths;
  o_phase : once_phase g ths
}.

(** ** Frames *)

(** A step of thread [i] leaves the records and the semaphores of the others. *)
Record frame (g g' : once_state) (ths : gmap nat once_thread) (i : nat) : Prop := Frame {
  fr_dows : ∀ j, j ≠ i → dows g' !! j = dows g !! j;
  fr_semas : ∀ j l s, j ≠ i → ths !! j = Some l → holds g j l s →
    semas (store g') !! s = semas (store g) !! s;
  fr_null : vval g ≠ DowNull → vval g' ≠ DowNull;
  fr_done : vval g = DISPATCH_ONCE_DONE → vval g' = DISPATCH_ONCE_DONE
}.

Section Frame.
Context (g g' : once_state) (ths : gmap nat once_thread) (i : nat) (F : frame g g' ths i).

Lemma frame_own j : j ≠ i → own_sema j g' = own_sema j g.
Proof. intros Hj. unfold own_sema. by rewrite (fr_dows _ _ _ _ F j Hj). Qed.

Lemma frame_holds j l s : j ≠ i → holds g' j l s ↔ holds g j l s.
Proof. intros Hj. unfold holds. by rewrite frame_own. Qed.

Lemma own_dow j n s : dows g !! j = Some (Waiter n (Some s)) → own_sema j g = Some s.
Proof. intros H. unfold own_sema. by rewrite H. Qed.

Lemma frame_at j l s n :
  j ≠ i → ths !! j = Some l → holds g j l s → sema_at g s n → sema_at g' s n.
Proof. intros Hj Hl Hh Hs. unfold sema_at in *. by rewrite (fr_semas _ _ _ _ F j l s Hj Hl Hh). Qed.

Lemma frame_local j l : j ≠ i → ths !! j = Some l → once_local g j l → once_local g' j l.
Proof.
  intros Hj Hl. pose proof (fr_null _ _ _ _ F) as Hn. pose proof (fr_done _ _ _ _ F) as Hd.
  assert (∀ s, l.1 = Some s → sema_at g s 0 → sema_at g' s 0) as Hc.
  { intros s Hs. eapply frame_at; [done..|]. by left. }
  assert (∀ n s c, dows g !! j = Some (Waiter n (Some s)) → sema_at g s c → sema_at g' s c) as Hw.
  { intros n s c Hs. eapply frame_at; [done..|]. right. by eapply own_dow. }
  unfold once_local. rewrite (frame_own j Hj), (fr_dows _ _ _ _ F j Hj).
  destruct l.2; naive_solver.
Qed.

Lemma frame_linking l' w nxt : w ≠ i → linking g ths w nxt → linking g' (<[i:=l']> ths) w nxt.
Proof.
  intros Hw (tsd & s & m & p & Hl & Hd & Hs & Hp). exists tsd, s, m, p.
  rewrite lookup_insert_ne by done. rewrite (fr_dows _ _ _ _ F w Hw). split_and!; try done.
  eapply frame_at; [done..| |done]. right. by eapply own_dow.
Qed.

Lemma frame_in_wait l' w nxt s : w ≠ i → in_wait g ths w nxt s → in_wait g' (<[i:=l']> ths) w nxt s.
Proof.
  intros Hw (tsd & Hl & Hd & Hs). exists tsd.
  rewrite lookup_insert_ne by done. rewrite (fr_dows _ _ _ _ F w Hw). split_and!; try done.
  eapply frame_at; [done..| |done]. right. by eapply own_dow.
Qed.

Lemma frame_unsignalled j l :
  j ≠ i → ths !! j = Some l → once_local g j l → unsignalled g' j l → unsignalled g j l.
Proof.
  intros Hj Hl Ho. unfold unsignalled, once_local in *. destruct l.2; try done.
  intros (s & Hs & H0). rewrite frame_own in Hs by done. exists s. split; [done|].
  unfold sema_at in *. rewrite <- (fr_semas _ _ _ _ F j l s Hj Hl); [done|]. by right.
Qed.

(** The semaphores of thread [i] are among those it had. *)
Lemma frame_sems l l' :
  sems_ok g ths → ths !! i = Some l → (∀ s, holds g' i l' s → holds g i l s) →
  next_sema (store g') = next_sema (store g) →
  (∀ s n, sema_at g' s n → ∃ n', sema_at g s n') → sems_ok g' (<[i:=l']> ths).
Proof.
  intros [Hinj Hlt] Hl Hh Hn Hs. split.
  - assert (∀ j k, <[i:=l']> ths !! j = Some k → ∃ k0, ths !! j = Some k0 ∧
      ∀ s, holds g' j k s → holds g j k0 s) as Hg.
    { intros j k [[<- <-]|[Hj Hk]]%lookup_insert_Some; [by exists l|].
      exists k. split; [done|]. intros s. by apply frame_holds. }
    intros j1 j2 k1 k2 s H1 H2. destruct (Hg _ _ H1) as (k1' & ? & ?), (Hg _ _ H2) as (k2' & ? & ?).
    eauto.
  - intros s n H. rewrite Hn. destruct (Hs s n H) as [n' H']. by eapply Hlt.
Qed.
End Frame.

Lemma linking_unsignalled g ths w nxt l : linking g ths w nxt → ths !! w = Some l → unsignalled g w l ∧ runner l.2 = false.
Proof.
  intros (tsd & s & m & p & Hl & Hd & Hs & Hp) Hl0. rewrite Hl in Hl0. injection Hl0 as <-.
  unfold unsignalled. simpl. destruct Hp as [[-> ->]|[-> ->]]; [done|]. split; [|done].
  exists s. split; [by eapply own_dow|done].
Qed.

Lemma in_wait_linking g ths w nxt s : in_wait g ths w nxt s → linking g ths w nxt.
Proof. intros (tsd & ? & ? & ?). exists tsd, s, nxt, O_wait. split_and!; try done. by right. Qed.

Lemma linked_member g ths r v ws w : linked g ths r v ws → w ∈ ws → ∃ nxt, linking g ths w nxt.
Proof.
  revert v. induction ws as [|w' ws IH]; intros v; simpl; [set_solver|].
  intros (-> & nxt & Hl & Hr) [->|Hin]%elem_of_cons; eauto.
Qed.

Lemma walking_member g ths r p ws w : walking g ths r p ws → w ∈ ws → ∃ nxt, linking g ths w nxt.
Proof.
  intros Hw Hin. destruct p; try done; simpl in Hw.
  - by eapply linked_member.
  - destruct Hw. by eapply linked_member.
  - destruct Hw as (w' & ws' & nxt & s & -> & _ & Hi & Hl). apply elem_of_cons in Hin as [->|Hin].
    + exists nxt. by eapply in_wait_linking.
    + by eapply linked_member.
  - destruct Hw as (w' & ws' & nxt & -> & _ & Hi & Hl). apply elem_of_cons in Hin as [->|Hin].
    + exists nxt. by eapply in_wait_linking.
    + by eapply linked_member.
  - destruct Hw as (w' & ws' & nxt & -> & Hi & Hl). apply elem_of_cons in Hin as [->|Hin].
    + exists nxt. by eapply in_wait_linking.
    + by eapply linked_member.
Qed.

(** A linked thread's successor is a record, never null. *)
Lemma linked_dow g ths r v ws : linked g ths r v ws → ∃ k, v = Dow k.
Proof. destruct ws; simpl; [eauto|]. intros [-> _]. eauto. Qed.

Lemma linked_mono g ths g' ths' r v ws :
  (∀ w n, w ∈ ws → linking g ths w n → linking g' ths' w n) →
  linked g ths r v ws → linked g' ths' r v ws.
Proof.
  revert v. induction ws as [|w ws IH]; intros v H; simpl; [done|].
  intros (-> & nxt & Hl & Hr). split; [done|]. exists nxt. split; [apply H; [left|done]|].
  apply IH; [|done]. intros w' n Hw'. apply H. by right.
Qed.

Lemma walking_mono g ths g' ths' r p ws :
  (∀ w n, w ∈ ws → linking g ths w n → linking g' ths' w n) →
  (∀ w n s, w ∈ ws → in_wait g ths w n s → in_wait g' ths' w n s) →
  walking g ths r p ws → walking g' ths' r p ws.
Proof.
  intros H1 H2 Hw.
  assert (∀ v w ws', ws = w :: ws' → linked g ths r v ws' → linked g' ths' r v ws') as Ht.
  { intros v w ws' -> Hl. eapply linked_mono; [|done]. intros w' n Hw'. apply H1. by right. }
  destruct p; try done; simpl in *.
  - by eapply linked_mono.
  - destruct Hw. split; [by eapply linked_mono|done].
  - destruct Hw as (w & ws' & nxt & s & -> & -> & Hiw & Hl). exists w, ws', nxt, s.
    split_and!; [done|done|apply H2; [left|done]|by eapply Ht].
  - destruct Hw as (w & ws' & nxt & -> & -> & Hiw & Hl). exists w, ws', nxt.
    split_and!; [done|done|apply H2; [left|done]|by eapply Ht].
  - destruct Hw as (w & ws' & nxt & -> & Hiw & Hl). exists w, ws', nxt.
    split_and!; [done|apply H2; [left|done]|by eapply Ht].
Qed.

Section Step.
Context (g : once_state) (ths : gmap nat once_thread) (I : once_good g ths).
Context (i : nat) (l : once_thread) (Hi : ths !! i = Some l).

(** What a step of a thread that does not run has to keep. *)
Record keeps (g' : once_state) (l' : once_thread) : Prop := Keeps {
  kp_frame : frame g g' ths i;
  kp_runner : runner l.2 = false;
  kp_runner' : runner l'.2 = false;
  kp_unsignalled : unsignalled g' i l' → unsignalled g i l;
  kp_linking : ∀ n, linking g ths i n → linking g' (<[i:=l']> ths) i n;
  kp_in_wait : ∀ n s, in_wait g ths i n s → in_wait g' (<[i:=l']> ths) i n s;
  kp_vval : vval g' = vval g;
  kp_calls : calls g' = calls g;
  kp_finished : finished g' = finished g
}.

Lemma phase_other g' l' : keeps g' l' → once_phase g' (<[i:=l']> ths).
Proof.
  intros [F Hr Hr' Hu Hlk Hiw Hv Hc Hf].
  assert (∀ ws : list nat, (∀ j k, ths !! j = Some k → unsignalled g j k → j ∈ ws) →
    ∀ j k, <[i:=l']> ths !! j = Some k → unsignalled g' j k → j ∈ ws) as HU.
  { intros ws H j k [[<- <-]|[Hj Hk]]%lookup_insert_Some Hun; [by apply (H i l Hi), Hu|].
    apply (H j k Hk). eapply frame_unsignalled; [done|done|done| |done]. by apply (o_local _ _ I). }
  assert (∀ r : nat, (∀ j k, ths !! j = Some k → runner k.2 = true → j = r) →
    ∀ j k, <[i:=l']> ths !! j = Some k → runner k.2 = true → j = r) as HR.
  { intros r H j k [[<- <-]|[Hj Hk]]%lookup_insert_Some Hun; [congruence|eauto]. }
  assert (∀ w n, linking g ths w n → linking g' (<[i:=l']> ths) w n) as HL.
  { intros w n H. destruct (decide (w = i)) as [->|]; [auto|by eapply frame_linking]. }
  assert (∀ w n s, in_wait g ths w n s → in_wait g' (<[i:=l']> ths) w n s) as HW.
  { intros w n s H. destruct (decide (w = i)) as [->|]; [auto|by eapply frame_in_wait]. }
  destruct (o_phase _ _ I) as [H1 H2 H3 H4|r tsd p ws H1 H2 H3 H4 H5 H6 H7 H8|r tsd p ws H1 H2 H3 H4 H5 H6 H7 H8|H1 H2 H3 H4].
  - apply Ph_start; try congruence. intros j k [[<- <-]|[Hj Hk]]%lookup_insert_Some; eauto.
  - assert (r ≠ i) as Hne by (intros ->; rewrite Hi in H1; injection H1 as ->; simpl in Hr; by destruct H2 as [->|[->| ->]]).
    eapply (Ph_run _ _ r tsd p ws); rewrite ?Hv, ?Hc, ?Hf; try done; eauto.
    + by rewrite lookup_insert_ne.
    + eapply linked_mono; [|done]. eauto.
  - assert (r ≠ i) as Hne by (intros ->; rewrite Hi in H1; injection H1 as ->; simpl in Hr; by destruct p).
    eapply (Ph_walk _ _ r tsd p ws); rewrite ?Hv, ?Hc, ?Hf; try done; eauto.
    + by rewrite lookup_insert_ne.
    + eapply walking_mono; [..|done]; eauto.
  - apply Ph_over; try congruence. intros j k Hk. split.
    + apply lookup_insert_Some in Hk as [[<- <-]|[Hj Hk]]; [done|]. by apply (H4 j k).
    + intros Hun. apply lookup_insert_Some in Hk as [[<- <-]|[Hj Hk]].
      * destruct (H4 i l Hi) as [_ Hn]. auto.
      * destruct (H4 j k Hk) as [_ Hn]. apply Hn.
        eapply frame_unsignalled; [done|done|done| |done]. by apply (o_local _ _ I).
Qed.

(** It is not in the list. *)
Lemma keeps_outside g' l' :
  frame g g' ths i → runner l.2 = false → runner l'.2 = false →
  ¬ unsignalled g i l → ¬ unsignalled g' i l' →
  vval g' = vval g → calls g' = calls g → finished g' = finished g → keeps g' l'.
Proof.
  intros. assert (∀ n, ¬ linking g ths i n) as Hn by (intros n H'; by destruct (linking_unsignalled _ _ _ _ _ H' Hi)).
  split; try done.
  - intros n H'. by destruct (Hn n).
  - intros n s H'%in_wait_linking. by destruct (Hn n).
Qed.

(** The rest of the invariant after a step. *)
Lemma good_step g' l' :
  frame g g' ths i → once_local g' i l' → sems_ok g' (<[i:=l']> ths) →
  once_phase g' (<[i:=l']> ths) → once_good g' (<[i:=l']> ths).
Proof.
  intros F Hl Hs Hp. split; [|done|done].
  intros j k [[<- <-]|[Hj Hk]]%lookup_insert_Some; [done|].
  eapply frame_local; [done..|]. by apply (o_local _ _ I).
Qed.

(** The semaphores of a thread exist. *)
Lemma holds_at j k s : ths !! j = Some k → holds g j k s → ∃ n, sema_at g s n.
Proof.
  intros Hj Hh. pose proof (o_local _ _ I j k Hj) as Hl.
  unfold holds in Hh. unfold once_local in Hl. destruct k as [tsd p]; cbn [fst snd] in *.
  destruct Hh as [Hh|Hh]; [destruct p; naive_solver|].
  pose proof Hh as Ho. unfold own_sema in Hh.
  destruct (dows g !! j) as [[n o]|]; [|done]. simpl in Hh. subst o. destruct p; naive_solver.
Qed.

Lemma other_good g' l' :
  keeps g' l' → once_local g' i l' → (∀ s, holds g' i l' s → holds g i l s) →
  next_sema (store g') = next_sema (store g) →
  (∀ s n, sema_at g' s n → ∃ n', sema_at g s n') → once_good g' (<[i:=l']> ths).
Proof.
  intros K Hl Hh Hn Hs. apply good_step; [by destruct K|done| |by apply phase_other].
  eapply frame_sems; [by destruct K|by apply (o_sems _ _ I)|done..].
Qed.

Lemma frame_refl : frame g g ths i.
Proof. by split. Qed.

Lemma frame_own_dow d : (∀ j, j ≠ i → d !! j = dows g !! j) → frame g (set_dows d g) ths i.
Proof. by split. Qed.

(** A step that changes nothing but where the thread is. *)
Lemma move_good p' :
  runner l.2 = false → runner p' = false → ¬ unsignalled g i l → ¬ unsignalled g i (l.1, p') →
  once_local g i (l.1, p') → once_good g (<[i:=(l.1, p')]> ths).
Proof.
  intros Hr Hr' Hu Hu' Hl. apply other_good; [|done|done|done|eauto].
  by apply keeps_outside.
Qed.
End Step.

(** *** The threads that wait *)

Section Waiter.
Context (g : once_state) (ths : gmap nat once_thread) (I : once_good g ths).
Context (i : nat) (tsd : option nat).
Abbreviation at_pc p := (ths !! i = Some (tsd, p)).
Abbreviation good_at g' l' := (once_good g' (<[i:=l']> ths)).

Lemma idle_step : at_pc O_idle → good_at g (tsd, O_test).
Proof.
  intros Hi. apply (move_good g ths I i (tsd, O_idle) Hi); try done; try (by intros []).
  apply (o_local _ _ I i _ Hi).
Qed.

Lemma test_step : at_pc O_test → good_at (_dispatch_once_f g tsd).2 (_dispatch_once_f g tsd).1.
Proof.
  intros Hi. pose proof (o_local _ _ I i _ Hi) as [Hd Hc]. unfold _dispatch_once_f. case_decide as Hv; simpl.
  - apply (move_good g ths I i (tsd, O_test) Hi); try done; try (by intros []).
    split_and!; [done|done|]. unfold own_sema. intros s. by rewrite Hd.
  - apply (move_good g ths I i (tsd, O_test) Hi); try done; try (by intros []).
Qed.

(** The compare-and-swap of a thread whose record is new. *)
Lemma enter_step l' g' :
  at_pc O_enter → dispatch_once_f i g tsd O_enter = Some (l', g') → good_at g' l'.
Proof.
  intros Hi Hs. pose proof (o_local _ _ I i _ Hi) as [Hd Hc]. simpl in Hd, Hc.
  cbn [dispatch_once_f] in Hs. set (g1 := set_dows _ g) in *.
  assert (dows g1 !! i = Some (Waiter DowNull None)) as Hd1 by apply lookup_insert_eq.
  assert (own_sema i g1 = None) as Ho1 by (unfold own_sema; by rewrite Hd1).
  assert (frame g g1 ths i) as F.
  { apply frame_own_dow. intros j Hj. by rewrite lookup_insert_ne. }
  change (vval g1) with (vval g) in Hs. case_decide as Hv; apply some_pair in Hs as [-> ->].
  - apply (good_step g ths I i).
    + split; try apply F. { done. } intros Hv'. simpl. congruence.
    + done.
    + eapply (frame_sems g (set_vval (Dow i) g1)); [|by apply (o_sems _ _ I)|done|..]; try done; [..|eauto].
      * split; try apply F; [done|]. intros Hv'. simpl. congruence.
      * intros s [H|H]; [by left|]. change (own_sema i g1 = Some s) in H. congruence.
    + destruct (o_phase _ _ I) as [H1 H2 H3 H4|r t p ws H1 H2 H3|r t p ws H1 H2 H3|H1]; [|exfalso..].
      * eapply (Ph_run _ _ i tsd O_call []); simpl; try done; [by rewrite lookup_insert_eq|auto|constructor|..].
        -- intros j k [[<- <-]|[Hj Hk]]%lookup_insert_Some; [done|]. intros Hr. by rewrite (H4 j k Hk) in Hr.
        -- intros j k [[<- <-]|[Hj Hk]]%lookup_insert_Some; [done|]. intros Hu.
           pose proof (o_local _ _ I j k Hk) as Hl. unfold unsignalled, once_local in *.
           destruct k as [? []]; simpl in *; try done; naive_solver.
      * apply linked_dow in H3 as [k H3]. congruence.
      * congruence.
      * congruence.
  - apply (other_good g ths I i (tsd, O_enter) Hi).
    + apply (keeps_outside g ths i (tsd, O_enter) Hi); try done; by intros [].
    + done.
    + intros s [H|H]; [by left|congruence].
    + done.
    + eauto.
Qed.

(** The thread takes its cached semaphore, or a new one. *)
Lemma get_step l' g' :
  at_pc O_get → once_waiter i g tsd O_get = Some (l', g') → good_at g' l'.
Proof.
  intros Hi Hs. pose proof (o_local _ _ I i _ Hi) as (Hd & Hc & Hv). cbn [fst snd] in *.
  destruct (o_sems _ _ I) as [Hinj Hlt].
  assert (∀ o st, own_sema i (set_store st (modify_own i g (λ d, Waiter (dow_next d) (Some o)))) = Some o) as Hown.
  { intros o st. unfold own_sema. simpl. by rewrite lookup_alter_eq, Hd. }
  destruct tsd as [s|] eqn:Et; simpl in Hs; apply some_pair in Hs as [-> ->].
  - apply (other_good g ths I i (Some s, O_get) Hi).
    + apply (keeps_outside g ths i (Some s, O_get) Hi); try done; try (by intros []).
      split; try done. intros j Hj. simpl. by rewrite lookup_alter_ne.
    + exists DowNull, s. simpl. rewrite lookup_alter_eq, Hd. split_and!; try done; [by apply Hc|by left].
    + intros s' [H|H]; [done|]. left. rewrite Hown in H. done.
    + done.
    + eauto.
  - set (st := Semas _ _). set (g1 := set_store st _).
    assert (frame g g1 ths i) as F.
    { split; try done.
      - intros j Hj. simpl. by rewrite lookup_alter_ne.
      - intros j k s Hj Hk Hh. simpl. rewrite lookup_insert_ne; [done|].
        destruct (holds_at g ths I j k s Hk Hh) as [n Hn]. specialize (Hlt s n Hn). lia. }
    assert (∀ s, holds g1 i (None, O_read) s → s = next_sema (store g)) as Hnew.
    { intros s [H|H]; [done|]. unfold g1 in H. rewrite Hown in H. congruence. }
    apply (good_step g ths I i); [done| | |].
    + exists DowNull, (next_sema (store g)). simpl. rewrite lookup_alter_eq, Hd. split_and!; try done; [|by left].
      unfold sema_at. simpl. by rewrite lookup_insert_eq.
    + assert (∀ j k s, j ≠ i → ths !! j = Some k → holds g1 j k s → s ≠ next_sema (store g)) as Hold.
      { intros j k s Hj Hk Hh%(frame_holds g g1 ths i F); [|done].
        destruct (holds_at g ths I j k s Hk Hh) as [n Hn]. specialize (Hlt s n Hn). lia. }
      split.
      * intros j1 j2 k1 k2 s [[<- <-]|[Hj1 Hk1]]%lookup_insert_Some [[<- <-]|[Hj2 Hk2]]%lookup_insert_Some Hh1 Hh2.
        -- done.
        -- apply Hnew in Hh1. by destruct (Hold j2 k2 s).
        -- apply Hnew in Hh2. by destruct (Hold j1 k1 s).
        -- apply (frame_holds g g1 ths i F) in Hh1, Hh2; [|done..]. eauto.
      * intros s n Hn. unfold sema_at in Hn. simpl in Hn.
        apply lookup_insert_Some in Hn as [[<- _]|[_ Hn]]; simpl; [lia|]. specialize (Hlt s n Hn). lia.
    + apply (phase_other g ths I i (None, O_get) Hi).
      apply (keeps_outside g ths i (None, O_get) Hi); try done; by intros [].
Qed.

Lemma read_step l' g' :
  at_pc O_read → once_waiter i g tsd O_read = Some (l', g') → good_at g' l'.
Proof.
  intros Hi Hs. pose proof (o_local _ _ I i _ Hi) as (n & s & Hw & Hn). cbn [fst snd] in *.
  apply some_pair in Hs as [-> ->]. case_decide as Hv.
  - apply (move_good g ths I i (tsd, O_read) Hi); try done; try (by intros []). by exists n, s.
  - apply (move_good g ths I i (tsd, O_read) Hi); try done; try (by intros []).
    exists n, s. split_and!; try done; apply Hw.
Qed.

Lemma cas_step tmp l' g' :
  at_pc (O_cas tmp) → once_waiter i g tsd (O_cas tmp) = Some (l', g') → good_at g' l'.
Proof.
  intros Hi Hs. pose proof (o_local _ _ I i _ Hi) as (n & s & (Hd & H0 & Ht & Hv) & Hn & Htd & Htn). cbn [fst snd] in *.
  cbn [once_waiter] in Hs. case_decide as Heq; apply some_pair in Hs as [-> ->].
  - subst tmp. destruct Hn as [->|]; [|done].
    set (g1 := set_vval (Dow i) g). assert (frame g g1 ths i) as F by (split; try done; intros; done).
    apply (good_step g ths I i); [done| | |].
    + exists s. done.
    + eapply (frame_sems g g1); [|by apply (o_sems _ _ I)|done|..]; try done. eauto.
    + destruct (o_phase _ _ I) as [H1 H2 H3 H4|r t p ws H1 H2 H3 H4 H5 H6 H7 H8|r t p ws H1 H2|H1];
        [by rewrite H1 in Hv| |done|done].
      assert (¬ unsignalled g i (tsd, O_cas (vval g))) as Hu by by intros [].
      assert (r ≠ i) as Hne.
      { intros ->. rewrite Hi in H1. injection H1 as _ <-. by destruct H2 as [|[|]]. }
      eapply (Ph_run _ _ r t p (i :: ws)); simpl; try done.
      * by rewrite lookup_insert_ne.
      * split; [done|]. exists (vval g). split.
        -- exists tsd, s, DowNull, (O_link (vval g)). rewrite lookup_insert_eq. split_and!; try done. by left.
        -- eapply linked_mono; [|done]. intros w nx Hw Hl. apply (frame_linking g g1 ths i F); [|done].
           intros ->. by destruct (linking_unsignalled _ _ _ _ _ Hl Hi).
      * constructor; [|done]. intros Hin. destruct (linked_member _ _ _ _ _ _ H3 Hin) as [nx Hl].
        by destruct (linking_unsignalled _ _ _ _ _ Hl Hi).
      * intros j k [[<- <-]|[Hj Hk]]%lookup_insert_Some; [done|]. by apply H7.
      * intros j k [[<- <-]|[Hj Hk]]%lookup_insert_Some; [by left|]. intros Hu'. right. by apply (H8 j k).
  - apply (move_good g ths I i (tsd, O_cas tmp) Hi); try done; try (by intros []). by exists n, s.
Qed.

Lemma link_step tmp l' g' :
  at_pc (O_link tmp) → once_waiter i g tsd (O_link tmp) = Some (l', g') → good_at g' l'.
Proof.
  intros Hi Hs. pose proof (o_local _ _ I i _ Hi) as (s & Hd & H0 & Ht & Hv). cbn [fst snd] in *.
  cbn [once_waiter] in Hs. apply some_pair in Hs as [-> ->]. set (g1 := modify_own _ _ _).
  assert (dows g1 !! i = Some (Waiter tmp (Some s))) as Hd1 by (simpl; by rewrite lookup_alter_eq, Hd).
  apply (other_good g ths I i (tsd, O_link tmp) Hi).
  - split; try done.
    + apply frame_own_dow. intros j Hj. by rewrite lookup_alter_ne.
    + intros n (t & s' & m & p & Hl & Hd' & Hs' & Hp). rewrite Hi in Hl. injection Hl as <- <-.
      rewrite Hd in Hd'. injection Hd' as <- <-. destruct Hp as [[[= <-] _]|[? _]]; [|done].
      exists tsd, s, tmp, O_wait. rewrite lookup_insert_eq. split_and!; try done. by right.
    + intros n s' (t & Hl & _). rewrite Hi in Hl. done.
  - exists tmp, s, 0. split_and!; try done. by left.
  - intros s' [H|H]; [by left|]. right. rewrite (own_dow g i _ _ Hd). rewrite <- H. symmetry.
    by eapply own_dow.
  - done.
  - eauto.
Qed.

(** Only a semaphore that was signalled lets the thread through. *)
Lemma once_wait_step l' g' :
  at_pc O_wait → once_waiter i g tsd O_wait = Some (l', g') → good_at g' l'.
Proof.
  intros Hi Hs. pose proof (o_local _ _ I i _ Hi) as (n & s & c & (Hd & H0 & Ht & Hv) & Hc). cbn [fst snd] in *.
  cbn [once_waiter] in Hs. rewrite (own_dow g i _ _ Hd) in Hs. unfold sema_wait in Hs. unfold sema_at in H0.
  rewrite H0 in Hs. destruct Hc as [->|[-> Hdone]]; [done|]. rewrite decide_True in Hs by lia.
  apply some_pair in Hs as [-> ->]. set (g1 := set_store _ g).
  apply (other_good g ths I i (tsd, O_wait) Hi).
  - apply (keeps_outside g ths i (tsd, O_wait) Hi); try done; try (by intros []).
    + split; try done. intros j k s' Hj Hk Hh. simpl. rewrite lookup_insert_ne; [done|].
      intros <-. apply Hj. eapply (proj1 (o_sems _ _ I)); [done..|]. right. by eapply own_dow.
    + intros (s' & Hs' & Hz). rewrite (own_dow g i _ _ Hd) in Hs'. injection Hs' as <-. unfold sema_at in Hz. congruence.
  - exists n, s. split_and!; try done; [|by right]. unfold sema_at. simpl. by rewrite lookup_insert_eq.
  - intros s' [H|H]; [by left|by right].
  - done.
  - intros s' n' Hn. unfold sema_at in Hn. simpl in Hn. apply lookup_insert_Some in Hn as [[<- _]|[_ Hn]]; unfold sema_at; eauto.
Qed.

Lemma put_step l' g' :
  at_pc O_put → once_waiter i g tsd O_put = Some (l', g') → good_at g' l'.
Proof.
  intros Hi Hs. pose proof (o_local _ _ I i _ Hi) as (n & s & (Hd & H0 & Ht & Hv) & Hdone). cbn [fst snd] in *.
  pose proof (own_dow g i _ _ Hd) as Ho. cbn [once_waiter] in Hs. rewrite Ho in Hs. subst tsd. simpl in Hs.
  apply some_pair in Hs as [-> ->].
  replace (set_store (store g) g) with g by by destruct g.
  apply (other_good g ths I i (None, O_put) Hi); try done; [| | |eauto].
  - apply (keeps_outside g ths i (None, O_put) Hi); try done; by intros [].
  - split_and!; [done|by intros ? [= <-]|]. intros s'. by rewrite Ho.
  - intros s' [H|H]; [|by right]. right. by rewrite Ho.
Qed.

Lemma ret_step l' g' :
  at_pc O_ret → dispatch_once_f i g tsd O_ret = Some (l', g') → good_at g' l'.
Proof.
  intros Hi Hs. pose proof (o_local _ _ I i _ Hi) as (Hdone & Hc & Ho). cbn [fst snd] in *.
  cbn [dispatch_once_f] in Hs. apply some_pair in Hs as [-> ->]. set (g1 := set_dows _ g).
  assert (dows g1 !! i = None) as Hd1 by apply lookup_delete_eq.
  apply (other_good g ths I i (tsd, O_ret) Hi); try done; [| |eauto].
  - apply (keeps_outside g ths i (tsd, O_ret) Hi); try done; try (by intros []).
    apply frame_own_dow. intros j Hj. by rewrite lookup_delete_ne.
  - intros s [H|H]; [by left|]. unfold own_sema in H. by rewrite Hd1 in H.
Qed.
End Waiter.

(** *** The thread that runs the function *)

Section Runner.
Context (g : once_state) (ths : gmap nat once_thread) (I : once_good g ths).
Context (i : nat) (tsd : option nat).
Abbreviation at_pc p := (ths !! i = Some (tsd, p)).
Abbreviation good_at g' l' := (once_good g' (<[i:=l']> ths)).

Lemma runner_local p : at_pc p → runner p = true →
  dows g !! i = Some (Waiter DowNull None) ∧ ∀ s, tsd = Some s → sema_at g s 0.
Proof. intros Hi Hr. pose proof (o_local _ _ I i _ Hi) as Hl. by destruct p. Qed.

(** The members of the list are other threads. *)
Lemma runner_not_member p v ws : at_pc p → runner p = true → linked g ths i v ws → i ∉ ws.
Proof.
  intros Hi Hr Hl Hin. destruct (linked_member _ _ _ _ _ _ Hl Hin) as [nx Hn].
  destruct (linking_unsignalled _ _ _ _ _ Hn Hi) as [_ H]. simpl in H. congruence.
Qed.

Lemma runner_good p p' g' :
  at_pc p → runner p = true → runner p' = true ∨ p' = O_ret ∧ vval g' = DISPATCH_ONCE_DONE →
  frame g g' ths i → dows g' = dows g → store g' = store g →
  once_phase g' (<[i:=(tsd, p')]> ths) → good_at g' (tsd, p').
Proof.
  intros Hi Hr Hr' F Hd Hs Hp. destruct (runner_local p Hi Hr) as [Hdow Hc].
  assert (∀ s n, sema_at g' s n ↔ sema_at g s n) as Hat by (intros; unfold sema_at; by rewrite Hs).
  assert (∀ j, own_sema j g' = own_sema j g) as Hown by (intros; unfold own_sema; by rewrite Hd).
  assert (own_sema i g = None) as Hn by (unfold own_sema; by rewrite Hdow).
  apply (good_step g ths I i); [done| | |done].
  - assert (∀ s, tsd = Some s → sema_at g' s 0) as Hc' by (intros s Hs'; by apply Hat, Hc).
    destruct Hr' as [Hr'|[-> Hv]]; [|split_and!; [done|done|intros s; by rewrite Hown, Hn]].
    destruct p'; try done; unfold once_local; cbn [fst snd]; rewrite Hd; done.
  - eapply (frame_sems g g'); [done|by apply (o_sems _ _ I)|done| |by rewrite Hs|].
    + intros s [H|H]; [by left|right]. by rewrite <- Hown.
    + intros s n H%Hat. eauto.
Qed.

(** What is left of the phase when the list [ws] is kept. *)
Lemma runner_rest p g' l' (ws : list nat) :
  at_pc p → runner p = true → frame g g' ths i → ¬ unsignalled g' i l' →
  (∀ j k, ths !! j = Some k → runner k.2 = true → j = i) →
  (∀ j k, ths !! j = Some k → unsignalled g j k → j ∈ ws) →
  (∀ j k, <[i:=l']> ths !! j = Some k → runner k.2 = true → j = i) ∧
  (∀ j k, <[i:=l']> ths !! j = Some k → unsignalled g' j k → j ∈ ws).
Proof.
  intros Hi Hr F Hu H1 H2. split.
  - intros j k [[<- <-]|[Hj Hk]]%lookup_insert_Some; eauto.
  - intros j k [[<- <-]|[Hj Hk]]%lookup_insert_Some Hun; [done|].
    apply (H2 j k Hk). eapply frame_unsignalled; [done|done|done| |done]. by apply (o_local _ _ I).
Qed.

Lemma runner_linked p g' l' v ws :
  at_pc p → runner p = true → frame g g' ths i → linked g ths i v ws → linked g' (<[i:=l']> ths) i v ws.
Proof.
  intros Hi Hr F Hl. eapply linked_mono; [|done]. intros w n Hw Hk. apply (frame_linking g g' ths i F); [|done].
  intros ->. by eapply runner_not_member.
Qed.

(** The phase is that of the runner. *)
Lemma runner_phase p : at_pc p → runner p = true →
  (∃ ws : list nat, (p = O_call ∨ p = O_callout ∨ p = O_xchg) ∧ linked g ths i (vval g) ws ∧ NoDup ws ∧
    calls g = (if decide (p = O_call) then 0 else 1) ∧ finished g = bool_decide (p = O_xchg) ∧
    (∀ j k, ths !! j = Some k → runner k.2 = true → j = i) ∧
    (∀ j k, ths !! j = Some k → unsignalled g j k → j ∈ ws)) ∨
  (∃ ws : list nat, vval g = DISPATCH_ONCE_DONE ∧ walking g ths i p ws ∧ NoDup ws ∧ calls g = 1 ∧ finished g = true ∧
    (∀ j k, ths !! j = Some k → runner k.2 = true → j = i) ∧
    (∀ j k, ths !! j = Some k → unsignalled g j k → j ∈ ws)).
Proof.
  intros Hi Hr. destruct (o_phase _ _ I) as [H1 H2 H3 H4|r t q ws H1 H2 H3 H4 H5 H6 H7 H8|r t q ws H1 H2 H3 H4 H5 H6 H7 H8|H1 H2 H3 H4].
  - specialize (H4 i _ Hi). simpl in H4. congruence.
  - pose proof (H7 i _ Hi Hr) as <-. rewrite Hi in H1. injection H1 as <- <-. left. by exists ws.
  - pose proof (H7 i _ Hi Hr) as <-. rewrite Hi in H1. injection H1 as <- <-. right. by exists ws.
  - destruct (H4 i _ Hi) as [H5 _]. simpl in H5. congruence.
Qed.

Lemma call_step p l' g' :
  at_pc p → p = O_call ∨ p = O_callout ∨ p = O_xchg → once_runner i g tsd p = (l', g') → good_at g' l'.
Proof.
  intros Hi Hp Hs. assert (runner p = true) as Hr by by destruct Hp as [->|[->| ->]].
  destruct (runner_phase p Hi Hr) as [(ws & _ & Hl & Hnd & Hc & Hf & H1 & H2)|(ws & _ & Hw & _)];
    [|by destruct Hp as [->|[->| ->]]].
  assert (∃ p', l' = (tsd, p') ∧ runner p' = true ∧ dows g' = dows g ∧ store g' = store g ∧
    frame g g' ths i ∧ (∀ m, ¬ unsignalled m i (tsd, p'))) as (p' & -> & Hr' & Hd & Hst & F & Hu).
  { destruct Hp as [->|[->| ->]]; injection Hs as <- <-; eexists; split_and!; try done; by intros ? []. }
  apply (runner_good p); try done; [by left|].
  destruct (runner_rest p g' (tsd, p') ws) as [H1' H2']; try done.
  pose proof (runner_linked p g' (tsd, p') _ _ Hi Hr F Hl) as Hl'.
  destruct Hp as [->|[->| ->]]; injection Hs as <- <-.
  - eapply (Ph_run _ _ i tsd O_callout ws); simpl; try done; [by rewrite lookup_insert_eq|auto|].
    simpl in Hc. by rewrite Hc.
  - eapply (Ph_run _ _ i tsd O_xchg ws); simpl; try done; [by rewrite lookup_insert_eq|auto].
  - eapply (Ph_walk _ _ i tsd _ ws); simpl; try done; [by rewrite lookup_insert_eq|].
    exact Hl'.
Qed.

(** The steps of the walk between two signals. *)
Lemma walk_good p p' (ws : list nat) :
  at_pc p → runner p = true → runner p' = true → vval g = DISPATCH_ONCE_DONE → NoDup ws →
  calls g = 1 → finished g = true →
  (∀ j k, ths !! j = Some k → runner k.2 = true → j = i) →
  (∀ j k, ths !! j = Some k → unsignalled g j k → j ∈ ws) →
  walking g (<[i:=(tsd, p')]> ths) i p' ws → good_at g (tsd, p').
Proof.
  intros Hi Hr Hr' Hv Hnd Hc Hf H1 H2 Hw. apply (runner_good p); try done; [by left|].
  destruct (runner_rest p g (tsd, p') ws) as [H1' H2']; try done; [intros Hu; by destruct p'|].
  eapply (Ph_walk _ _ i tsd p' ws); try done. by rewrite lookup_insert_eq.
Qed.

Lemma in_wait_other p w nx s : at_pc p → runner p = true → in_wait g ths w nx s → w ≠ i.
Proof. intros Hi Hr (t & Hw & _) ->. rewrite Hi in Hw. injection Hw as _ ->. done. Qed.

Lemma walk_step p l' g' :
  at_pc p → (∃ tmp, p = O_walk tmp ∨ p = O_spin tmp ∨ p = O_sema tmp ∨ ∃ s, p = O_next tmp s) →
  once_runner i g tsd p = (l', g') → good_at g' l'.
Proof.
  intros Hi (tmp & Hp) Hs. assert (runner p = true) as Hr by by destruct Hp as [->|[->|[->|[? ->]]]].
  destruct (runner_phase p Hi Hr) as [(ws & [|[|]] & _)|(ws & Hv & Hw & Hnd & Hc & Hf & H1 & H2)];
    [by destruct Hp as [|[|[|[]]]]; simplify_eq..|].
  assert (frame g g ths i) as F by done.
  assert (∀ p' v (ws : list nat), linked g ths i v ws → linked g (<[i:=(tsd, p')]> ths) i v ws) as HL
    by (intros; by eapply runner_linked).
  assert (∀ p' w nx s, in_wait g ths w nx s → in_wait g (<[i:=(tsd, p')]> ths) w nx s) as HW.
  { intros p' w nx s H. eapply (frame_in_wait g g ths i F); [|done]. by eapply in_wait_other. }
  destruct Hp as [->|[->|[->|[s ->]]]]; simpl in Hw.
  - cbn [once_runner] in Hs. case_decide as He; injection Hs as <- <-.
    + apply (runner_good (O_walk tmp)); try done; [by right|].
      destruct ws as [|w ws].
      * apply Ph_over; try done. intros j k [[<- <-]|[Hj Hk]]%lookup_insert_Some; [split; [done|by intros []]|].
        split; [|intros Hu; pose proof (H2 j k Hk Hu) as Hn; by apply not_elem_of_nil in Hn].
        destruct (runner k.2) eqn:E; [|done]. by destruct Hj; symmetry; eapply H1.
      * exfalso. eapply (runner_not_member (O_walk tmp)); [done|done|done|]. destruct Hw as [-> _].
        injection He as ->. by left.
    + eapply (walk_good (O_walk tmp) _ ws); try done. split; [by apply HL|].
      intros ->. by simpl in Hw.
  - destruct Hw as [Hl Hne]. destruct ws as [|w ws]; [done|]. destruct Hl as (-> & nx & Hlk & Hl).
    cbn [once_runner deref] in Hs. pose proof Hlk as (t & s & m & q & Hq & Hd & Hz & Hcase). rewrite Hd in Hs.
    destruct (linked_dow _ _ _ _ _ Hl) as [k ->].
    destruct Hcase as [[-> ->]|[-> ->]]; simpl in Hs.
    + injection Hs as <- <-. eapply (walk_good (O_spin (Dow w)) _ (w :: ws)); try done. split; [|done].
      apply HL. split; [done|]. by exists (Dow k).
    + injection Hs as <- <-. eapply (walk_good (O_spin (Dow w)) _ (w :: ws)); try done.
      exists w, ws, (Dow k), s. split_and!; try done; [|by apply HL]. apply HW. by exists t.
  - destruct Hw as (w & ws' & nx & s & -> & -> & Hiw & Hl). cbn [once_runner deref] in Hs.
    pose proof Hiw as (t & _ & Hd & _). rewrite Hd in Hs. injection Hs as <- <-.
    eapply (walk_good (O_sema (Dow w)) _ (w :: ws')); try done. exists w, ws', nx.
    split_and!; try done; [by apply HW|by apply HL].
  - destruct Hw as (w & ws' & nx & -> & -> & Hiw & Hl). cbn [once_runner deref] in Hs.
    pose proof Hiw as (t & _ & Hd & _). rewrite Hd in Hs. injection Hs as <- <-.
    eapply (walk_good (O_next (Dow w) s) _ (w :: ws')); try done. exists w, ws', nx.
    split_and!; try done; [by apply HW|by apply HL].
Qed.

(** The signal: the first thread of the list may go. *)
Lemma once_signal_step s tmp l' g' :
  at_pc (O_signal s tmp) → once_runner i g tsd (O_signal s tmp) = (l', g') → good_at g' l'.
Proof.
  intros Hi Hs. destruct (runner_phase _ Hi eq_refl) as [(ws & [|[|]] & _)|(ws & Hv & Hw & Hnd & Hc & Hf & H1 & H2)]; [done..|].
  destruct Hw as (w & ws' & nx & -> & Hiw & Hl). pose proof (in_wait_other _ _ _ _ Hi eq_refl Hiw) as Hwi.
  pose proof (runner_not_member _ _ _ Hi eq_refl Hl) as Hni.
  apply NoDup_cons in Hnd as [Hww Hnd].
  pose proof Hiw as (t & Hwt & Hwd & Hz). pose proof (own_dow g w _ _ Hwd) as Hwo.
  cbn [once_runner] in Hs. unfold sema_signal in Hs. unfold sema_at in Hz. rewrite Hz in Hs. injection Hs as <- <-.
  set (g1 := set_store _ g). destruct (o_sems _ _ I) as [Hinj Hlt].
  assert (frame g g1 ths w) as F.
  { split; try done. intros j k s' Hj Hk Hh. simpl. rewrite lookup_insert_ne; [done|].
    intros <-. apply Hj. eapply Hinj; [done..|]. by right. }
  assert (∀ s' n, sema_at g1 s' n → ∃ n', sema_at g s' n') as Hat.
  { intros s' n Hn. unfold sema_at in Hn. simpl in Hn. apply lookup_insert_Some in Hn as [[<- _]|[_ Hn]]; unfold sema_at; eauto. }
  assert (sema_at g1 s 1) as Hs1 by (unfold sema_at; simpl; by rewrite lookup_insert_eq).
  split.
  - intros j k [[<- <-]|[Hj Hk]]%lookup_insert_Some.
    + apply (frame_local g g1 ths w F i (tsd, O_signal s tmp)); [done|done|]. by apply (o_local _ _ I).
    + destruct (decide (j = w)) as [->|Hjw].
      * rewrite Hwt in Hk. injection Hk as <-. pose proof (o_local _ _ I w _ Hwt) as (n0 & s0 & c & (E & _ & Ht & Hvn) & _).
        cbn [fst snd] in *. rewrite Hwd in E. injection E as <- <-. exists nx, s, 1. split_and!; try done. by right.
      * apply (frame_local g g1 ths w F j k); [done|done|]. by apply (o_local _ _ I).
  - split; [|intros s' n Hn; destruct (Hat s' n Hn) as [n' Hn']; by apply (Hlt s' n')].
    assert (∀ j k, <[i:=(tsd, O_walk tmp)]> ths !! j = Some k → ∃ k0, ths !! j = Some k0 ∧ ∀ s', holds g1 j k s' → holds g j k0 s') as Hg.
    { intros j k [[<- <-]|[Hj Hk]]%lookup_insert_Some; eexists; (split; [done|]); intros s' Hh; exact Hh. }
    intros j1 j2 k1 k2 s' Hk1 Hk2. destruct (Hg _ _ Hk1) as (k1' & ? & ?), (Hg _ _ Hk2) as (k2' & ? & ?). eauto.
  - eapply (Ph_walk _ _ i tsd (O_walk tmp) ws'); try done; [by rewrite lookup_insert_eq| |..].
    + simpl. eapply linked_mono; [|done]. intros x n Hx (t' & s' & m & q & Hq & Hd & Hz' & Hcase).
      exists t', s', m, q. rewrite lookup_insert_ne by (intros ->; done). split_and!; try done.
      eapply (frame_at g g1 ths w F x); [intros ->; done|done| |done]. right. by eapply own_dow.
    + intros j k [[<- <-]|[Hj Hk]]%lookup_insert_Some; [done|]. by apply (H1 j k).
    + intros j k [[<- <-]|[Hj Hk]]%lookup_insert_Some Hu; [done|].
      destruct (decide (j = w)) as [->|Hjw].
      * rewrite Hwt in Hk. injection Hk as <-. destruct Hu as (s' & Ho & Hz'). change (own_sema w g1) with (own_sema w g) in Ho.
        rewrite Hwo in Ho. injection Ho as <-. unfold sema_at in *. congruence.
      * apply (frame_unsignalled g g1 ths w F j k) in Hu; [|done|done|by apply (o_local _ _ I)].
        specialize (H2 j k Hk Hu). by apply elem_of_cons in H2 as [->|].
Qed.
End Runner.

Lemma once_step_good g ths i l l' g' :
  once_good g ths → ths !! i = Some l → once_tstep tt i l g = Some (l', g') → once_good g' (<[i:=l']> ths).
Proof.
  intros I Hi Hs. destruct l as [tsd p]. unfold once_tstep in Hs. cbn [fst snd] in Hs.
  destruct p; try discriminate Hs; try (by eapply enter_step; eauto);
    try (by eapply ret_step; eauto); cbn [dispatch_once_f] in Hs.
  - apply some_pair in Hs as [-> ->]. by apply idle_step.
  - apply (inj Some) in Hs. pose proof (test_step g ths I i tsd Hi) as H. by rewrite Hs in H.
  - apply (inj Some) in Hs. eapply call_step; eauto.
  - apply (inj Some) in Hs. eapply call_step; eauto.
  - apply (inj Some) in Hs. eapply call_step; eauto.
  - apply (inj Some) in Hs. eapply walk_step; eauto.
  - apply (inj Some) in Hs. eapply walk_step; eauto.
  - apply (inj Some) in Hs. eapply walk_step; eauto.
  - apply (inj Some) in Hs. eapply walk_step; eauto 10.
  - apply (inj Some) in Hs. eapply once_signal_step; eauto.
  - eapply get_step; eauto.
  - eapply read_step; eauto.
  - eapply cas_step; eauto.
  - eapply link_step; eauto.
  - eapply once_wait_step; eauto.
  - eapply put_step; eauto.
Qed.

Lemma once_reachable s : reachable once_tstep once_init s → once_good (shared s) (threads s).
Proof.
  apply (reachable_inv _ _ (λ s, once_good (shared s) (threads s))).
  - intros s0 (Hv & Hd & Hc & Hf & Hs & Ht). split.
    + intros i l Hl. rewrite (Ht i l Hl). split; [by rewrite Hd|done].
    + split.
      * intros i j l k s1 Hl Hk [H|H]; [by rewrite (Ht i l Hl) in H|]. unfold own_sema in H. by rewrite Hd in H.
      * intros s1 n H. unfold sema_at in H. by rewrite Hs in H.
    + apply Ph_start; try done. intros i l Hl. by rewrite (Ht i l Hl).
  - intros s0 s1 I Hs. destruct Hs as [i [] l g ths l' g' Hi Ht]. by eapply once_step_good.
Qed.

(** ** The properties *)

(** C29. The function is called at most once, in any interleaving; no thread
    returns before it was called and has returned; and no thread ever follows a
    pointer to a record that is gone, or signals a semaphore that is. *)
Theorem once_runs_once s :
  reachable once_tstep once_init s →
  0 ≤ calls (shared s) ≤ 1 ∧
  ∀ i tsd p, threads s !! i = Some (tsd, p) →
    (returning p → calls (shared s) = 1 ∧ finished (shared s) = true) ∧ ∀ f, p ≠ O_crash f.
Proof.
  intros Hr. pose proof (once_reachable s Hr) as I. split.
  - destruct (o_phase _ _ I) as [? ->|? ? p ? ? ? ? ? ->|? ? ? ? ? ? ? ? ->|? ->]; try destruct (decide (p = O_call)); lia.
  - intros i tsd p Hi. pose proof (o_local _ _ I i _ Hi) as Hl. split; [|by intros f ->].
    intros ->. destruct Hl as [Hv _].
    destruct (o_phase _ _ I) as [H1|r t q ws H1 H2 H3|r t q ws H1 H2 H3 H4 H5 H6|H1 H2 H3]; try done; [congruence|].
    apply linked_dow in H3 as [k H3]. congruence.
Qed.

(** C30. No waiter is forgotten: if every thread is outside or cannot move, then
    every thread is outside. *)
Theorem once_no_deadlock s :
  reachable once_tstep once_init s →
  (∀ i l, threads s !! i = Some l → l.2 = O_idle ∨ once_tstep tt i l (shared s) = None) →
  ∀ i l, threads s !! i = Some l → l.2 = O_idle.
Proof.
  intros Hr Hq. pose proof (once_reachable s Hr) as I.
  assert (∀ i l, threads s !! i = Some l → l.2 ≠ O_idle → unsignalled (shared s) i l ∧ runner l.2 = false) as Hw.
  { intros i [tsd p] Hi Hne. destruct (Hq i _ Hi) as [|Hn]; [done|].
    pose proof (o_local _ _ I i _ Hi) as Hl. unfold once_tstep in Hn. cbn [fst snd] in *.
    destruct p; try done; cbn [dispatch_once_f once_waiter] in Hn.
    - by destruct (_dispatch_get_thread_semaphore tsd _) as [[? ?] ?].
    - destruct Hl as (n & s' & c & (Hd & Hs & _) & _). rewrite (own_dow _ _ _ _ Hd) in Hn.
      unfold sema_wait in Hn. unfold sema_at in Hs. rewrite Hs in Hn. case_decide as Hc; [done|].
      split; [|done]. exists s'. split; [by eapply own_dow|]. unfold sema_at. rewrite Hs.
      destruct (o_local _ _ I i _ Hi) as (n' & s2 & c2 & (Hd2 & Hs2 & _) & Hc2). cbn [fst snd] in *.
      rewrite Hd in Hd2. injection Hd2 as <- <-. unfold sema_at in Hs2. rewrite Hs in Hs2. injection Hs2 as <-.
      f_equal. lia.
    - destruct (own_sema i (shared s)); [|done]. by destruct (_dispatch_put_thread_semaphore _ tsd _). }
  intros i l Hi. destruct (decide (l.2 = O_idle)) as [|Hne]; [done|exfalso].
  destruct (Hw i l Hi Hne) as [Hu _].
  destruct (o_phase _ _ I) as [H1 _ _ _|r t q ws H1 H2|r t q ws H1 _ H3|H1 _ _ H4].
  - pose proof (o_local _ _ I i l Hi) as Hl. unfold once_local, unsignalled in *. destruct (l.2); try done; naive_solver.
  - destruct (Hw r _ H1) as [_ HH]; [by destruct H2 as [->|[->| ->]]|]. by destruct H2 as [->|[->| ->]].
  - destruct (Hw r _ H1) as [_ HH]; [by destruct q|]. by destruct q.
  - by destruct (H4 i l Hi).
Qed.

(** Thread 1 comes while thread 0 runs the function, and is woken. *)
Definition once_start : config (G := once_state) (L := once_thread) :=
  Config (Once DowNull ∅ (Semas ∅ 0) 0 false) {[0%nat := (None, O_idle); 1%nat := (None, O_idle)]}.

Definition once_schedule : list (nat * unit) :=
  replicate 4 (0%nat, tt) ++ replicate 7 (1%nat, tt) ++ replicate 12 (0%nat, tt).

Definition once_woken : config := play once_tstep once_schedule once_start.
Definition once_done : config := play once_tstep (replicate 3 (1%nat, tt)) once_woken.

Lemma once_woken_reachable : reachable once_tstep once_init once_woken.
Proof.
  apply play_reachable. exists once_start. split; [|done]. split_and!; try done.
  intros i p. simpl. intros [[_ <-]|[_ [_ <-]%lookup_singleton_Some]]%lookup_insert_Some; done.
Qed.

Lemma once_runs_once_witness :
  calls (shared once_done) ≤ 1 ∧ calls (shared once_done) = 1 ∧ finished (shared once_done) = true.
Proof.
  destruct (once_runs_once once_done) as [H1 H2]; [by apply play_reachable, once_woken_reachable|].
  split; [apply H1|]. destruct (H2 1%nat (Some 0%nat) O_ret) as [H3 _]; [by vm_compute|]. by apply H3.
Defined.

Lemma once_no_deadlock_witness :
  snd <$> threads (play once_tstep (replicate 4 (1%nat, tt)) once_woken) !! 1%nat = Some O_idle.
Proof.
  set (s := play _ _ _).
  assert (threads s = {[0%nat := (None, O_idle); 1%nat := (Some 0%nat, O_idle)]}) as Et by by vm_compute.
  assert (∀ i l, threads s !! i = Some l → l.2 = O_idle) as H.
  { apply (once_no_deadlock _ (play_reachable _ _ _ _ once_woken_reachable)). fold s. rewrite Et.
    intros i l [[_ <-]|[_ [_ <-]%lookup_singleton_Some]]%lookup_insert_Some; by left. }
  assert (threads s !! 1%nat = Some (Some 0%nat, O_idle)) as E by by rewrite Et.
  rewrite E. apply (f_equal Some (H _ _ E)).
Defined.
