(* ===== verification/Lane.v ===== *)
(** * The scheduling of a queue (src/queue.c, src/object.c)

    A dispatch queue that targets a root queue: a lock-free list of
    continuations, [dq_running] (the low bit is the barrier, two for every other
    holder) and [do_suspend_cnt] (the low bit is the lock of the queue on its
    target, two for every suspension).  Clients submit, suspend and resume;
    workers of the root queue take what was pushed on it and drain the queue.
    A step is one atomic access to the shared state, with the private work
    before it, or a call of the client's function.  A client function may call
    the queue again: as far as the queue is concerned that is the call of
    another thread. *)

From S2P Require Import Prelude Conc ThreadSema.

(** ** State *)

Definition DISPATCH_OBJ_ASYNC_BIT : Z := 0x1.
Definition DISPATCH_OBJ_BARRIER_BIT : Z := 0x2.
Definition DISPATCH_OBJ_SYNC_SLOW_BIT : Z := 0x8.
Definition DISPATCH_OBJECT_SUSPEND_LOCK : Z := 1.
Definition DISPATCH_OBJECT_SUSPEND_INTERVAL : Z := 2.

(** [dc_sema]: the semaphore that [dc_ctxt] of a synchronous item leads to. *)
Record dispatch_continuation_s : Type := DC {
  dc_vtable : Z;
  dc_next : option nat;
  dc_func : Z;
  dc_ctxt : Z;
  dc_sema : option nat
}.

Definition set_dc_next (n : option nat) (d : dispatch_continuation_s) : dispatch_continuation_s :=
  DC (dc_vtable d) n (dc_func d) (dc_ctxt d) (dc_sema d).

Definition has_bits (d : dispatch_continuation_s) (bits : Z) : bool := Z.land (dc_vtable d) bits =? bits.

(** What the queue pushes on its target: itself, or a continuation with
    [_dispatch_async_f_redirect_invoke] as function and a [dc_other]. *)
Inductive target_item : Type := T_queue | T_redirect (dc_other : nat).

(** The queue, the continuations by their address, the list of the target, the
    thread semaphores; and every call of a client's function, with the
    continuation it came from. *)
Record lane : Type := Lane {
  dq_items_head : option nat;
  dq_items_tail : option nat;
  dq_running : Z;
  dq_width : Z;
  do_suspend_cnt : Z;
  do_ref_cnt : Z;
  do_listless : bool;
  conts : gmap nat dispatch_continuation_s;
  next_cont : nat;
  targetq : list target_item;
  store : sema_store;
  callouts : list (option nat * (Z * Z))
}.

Definition set_items_head x g := Lane x (dq_items_tail g) (dq_running g) (dq_width g) (do_suspend_cnt g) (do_ref_cnt g) (do_listless g) (conts g) (next_cont g) (targetq g) (store g) (callouts g).
Definition set_items_tail x g := Lane (dq_items_head g) x (dq_running g) (dq_width g) (do_suspend_cnt g) (do_ref_cnt g) (do_listless g) (conts g) (next_cont g) (targetq g) (store g) (callouts g).
Definition set_running x g := Lane (dq_items_head g) (dq_items_tail g) x (dq_width g) (do_suspend_cnt g) (do_ref_cnt g) (do_listless g) (conts g) (next_cont g) (targetq g) (store g) (callouts g).
Definition set_suspend_cnt x g := Lane (dq_items_head g) (dq_items_tail g) (dq_running g) (dq_width g) x (do_ref_cnt g) (do_listless g) (conts g) (next_cont g) (targetq g) (store g) (callouts g).
Definition set_ref_cnt x g := Lane (dq_items_head g) (dq_items_tail g) (dq_running g) (dq_width g) (do_suspend_cnt g) x (do_listless g) (conts g) (next_cont g) (targetq g) (store g) (callouts g).
Definition set_listless x g := Lane (dq_items_head g) (dq_items_tail g) (dq_running g) (dq_width g) (do_suspend_cnt g) (do_ref_cnt g) x (conts g) (next_cont g) (targetq g) (store g) (callouts g).
Definition set_conts x g := Lane (dq_items_head g) (dq_items_tail g) (dq_running g) (dq_width g) (do_suspend_cnt g) (do_ref_cnt g) (do_listless g) x (next_cont g) (targetq g) (store g) (callouts g).
Definition set_next_cont x g := Lane (dq_items_head g) (dq_items_tail g) (dq_running g) (dq_width g) (do_suspend_cnt g) (do_ref_cnt g) (do_listless g) (conts g) x (targetq g) (store g) (callouts g).
Definition set_targetq x g := Lane (dq_items_head g) (dq_items_tail g) (dq_running g) (dq_width g) (do_suspend_cnt g) (do_ref_cnt g) (do_listless g) (conts g) (next_cont g) x (store g) (callouts g).
Definition set_store x g := Lane (dq_items_head g) (dq_items_tail g) (dq_running g) (dq_width g) (do_suspend_cnt g) (do_ref_cnt g) (do_listless g) (conts g) (next_cont g) (targetq g) x (callouts g).
Definition log_callout x g := Lane (dq_items_head g) (dq_items_tail g) (dq_running g) (dq_width g) (do_suspend_cnt g) (do_ref_cnt g) (do_listless g) (conts g) (next_cont g) (targetq g) (store g) (callouts g ++ [x]).

Definition add_running (n : Z) (g : lane) : lane := set_running (u32 (dq_running g + n)) g.
Definition add_suspend_cnt (n : Z) (g : lane) : lane := set_suspend_cnt (u32 (do_suspend_cnt g + n)) g.

Definition DISPATCH_OBJECT_SUSPENDED (g : lane) : bool := DISPATCH_OBJECT_SUSPEND_INTERVAL <=? do_suspend_cnt g.

(** A new continuation. *)
Definition new_cont (d : dispatch_continuation_s) (g : lane) : lane :=
  set_next_cont (S (next_cont g)) (set_conts (<[next_cont g := d]> (conts g)) g).

(** ** Program points *)

(** What a thread goes on with after a push or a wake-up. *)
Inductive kont : Type :=
  | K_return
  | K_barrier_wait (n sema : nat) (ctxt func : Z)
  | K_sync_wait (n sema : nat) (ctxt func : Z)
  | K_sync_slow (ctxt func : Z)
  | K_push (n : nat)
  | K_release (k : kont).

(** Who calls [_dispatch_queue_drain_one_barrier_sync]: [_dispatch_barrier_sync_f2],
    or the end of [_dispatch_barrier_sync_f_slow]. *)
Inductive one_kont : Type := O_f2 | O_slow.

Inductive lane_pc : Type :=
  | L_idle
  | L_crash (f : fault)
  (* _dispatch_queue_push, _dispatch_queue_push_list_slow2 *)
  | L_push (n : nat) (k : kont)
  | L_link (prev n : nat) (k : kont)
  | L_retain (n : nat) (k : kont)
  | L_head (n : nat) (k : kont)
  (* _dispatch_wakeup *)
  | L_wake (k : kont)
  | L_wake_tail (k : kont)
  | L_wake_cas (k : kont)
  | L_wake_retain (k : kont)
  | L_wake_push (k : kont)
  | L_release (k : kont)
  (* dispatch_async_f *)
  | L_async (ctxt func : Z)
  | L_barrier_async (ctxt func : Z)
  | L_async_alloc (ctxt func : Z)
  | L_async2 (n : nat)
  | L_async2_suspended (n : nat)
  | L_async2_add (n : nat)
  | L_async2_over (n : nat)
  | L_async2_locked (n : nat)
  | L_redirect (n : nat)
  | L_redirect_push (n : nat)
  (* dispatch_barrier_sync_f *)
  | L_sync (ctxt func : Z)
  | L_bsync (ctxt func : Z)
  | L_bsync_suspended (ctxt func : Z)
  | L_bsync_cas (ctxt func : Z)
  | L_bsync_call (ctxt func : Z)
  | L_bsync_run
  | L_bsync_tail
  | L_bsync_f2
  | L_bsync_dec
  | L_f2_suspend (sema : nat)
  | L_f2_inc (sema : nat)
  | L_signal (sema : nat)
  (* _dispatch_barrier_sync_f_slow *)
  | L_bslow (ctxt func : Z)
  | L_bwait (n sema : nat) (ctxt func : Z)
  | L_bput (n sema : nat) (ctxt func : Z)
  | L_bcall (n : nat) (ctxt func : Z)
  | L_brun
  | L_bcheck
  | L_bcheck_running
  | L_bresume
  | L_bdec
  (* _dispatch_queue_drain_one_barrier_sync *)
  | L_one (o : one_kont)
  | L_one_next (o : one_kont) (dc sema : nat)
  | L_one_head (o : one_kont) (dc sema : nat) (next : option nat)
  | L_one_cas (o : one_kont) (dc sema : nat)
  | L_one_spin (o : one_kont) (dc sema : nat)
  | L_one_head2 (o : one_kont) (next sema : nat)
  (* dispatch_sync_f *)
  | L_sync2 (ctxt func : Z)
  | L_sync2_suspended (ctxt func : Z)
  | L_sync2_add (ctxt func : Z)
  | L_sync2_sub (ctxt func : Z)
  | L_sslow (ctxt func : Z)
  | L_swait (n sema : nat) (ctxt func : Z)
  | L_sput (n sema : nat) (ctxt func : Z)
  | L_scall (n : option nat) (ctxt func : Z)
  | L_srun
  | L_sdec
  (* _dispatch_queue_invoke *)
  | L_inv
  | L_inv_cas
  | L_inv_dec (sema : option nat)
  | L_inv_signal (sema : nat)
  | L_inv_listless
  | L_inv_unlock
  | L_inv_running
  (* _dispatch_queue_drain *)
  | L_dr_tail
  | L_dr_head
  | L_dr_clear (dc : nat)
  | L_dr_next (dc : nat)
  | L_dr_cas (dc : nat)
  | L_dr_spin (dc : nat)
  | L_dr_suspended (dc : nat) (next : option nat)
  | L_dr_width (dc : nat) (next : option nat)
  | L_dr_barrier (dc : nat) (next : option nat)
  | L_dr_redirect (dc : nat) (next : option nat)
  | L_dr_redirect2 (dc : nat) (next : option nat)
  | L_dr_redirect_push (dc : nat) (next : option nat)
  | L_dr_pop (dc : nat) (next : option nat)
  | L_dr_pop_suspend (dc : nat) (next : option nat) (sema : nat)
  | L_dr_pop_running (dc : nat) (next : option nat) (sema : nat)
  | L_dr_call (dc : nat) (next : option nat)
  | L_dr_run (next : option nat)
  | L_out_cas (dc : nat)
  | L_out_spin (dc : nat)
  | L_out_link (dc next : nat)
  | L_out_head (dc : nat) (sema : option nat)
  (* _dispatch_async_f_redirect_invoke *)
  | L_rinv (n : nat)
  | L_rrun
  | L_rdec
  (* dispatch_suspend, dispatch_resume *)
  | L_suspend
  | L_suspend_retain
  | L_resume.

Inductive lane_choice : Type :=
  | LC_async (ctxt func : Z)
  | LC_barrier_async (ctxt func : Z)
  | LC_sync (ctxt func : Z)
  | LC_barrier_sync (ctxt func : Z)
  | LC_suspend
  | LC_resume
  | LC_work
  | LC_alloc (ok : bool)
  | LC_go.

(** A thread: its cached semaphore, and where it is. *)
Abbreviation lane_thread := (option nat * lane_pc)%type.

Definition bad_cont : lane_pc := L_crash (UB "dispatch_continuation_s").
Definition bad_sema : lane_pc := L_crash (UB "thread semaphore").

(** ** Pushing and waking up *)

Definition resume_kont (k : kont) : lane_pc :=
  match k with
  | K_return => L_idle
  | K_barrier_wait n sema ctxt func => L_bwait n sema ctxt func
  | K_sync_wait n sema ctxt func => L_swait n sema ctxt func
  | K_sync_slow ctxt func => L_sslow ctxt func
  | K_push n => L_push n K_return
  | K_release k => L_release k
  end.

Definition _dispatch_queue_push (p : lane_pc) (g : lane) : option (lane_pc * lane) :=
  match p with
  | L_push n k =>
      Some (match conts g !! n with
            | Some d =>
                (match dq_items_tail g with Some prev => L_link prev n k | None => L_retain n k end,
                 set_items_tail (Some n) (set_conts (<[n := set_dc_next None d]> (conts g)) g))
            | None => (bad_cont, g)
            end)
  | L_link prev n k =>
      Some (match conts g !! prev with
            | Some d => (resume_kont k, set_conts (<[prev := set_dc_next (Some n) d]> (conts g)) g)
            | None => (bad_cont, g)
            end)
  | _ => None
  end.

Definition _dispatch_retain (p : lane_pc) (g : lane) : lane_pc * lane :=
  let ref_cnt := i32 (do_ref_cnt g + 1) in
  (if decide (0 < ref_cnt) then p else L_crash (DISPATCH_CRASH "Resurrection of an object"), set_ref_cnt ref_cnt g).

(** The last reference is the client's: it is not released here, and giving one
    up that is not there disposes of a queue in use. *)
Definition _dispatch_release (p : lane_pc) (g : lane) : lane_pc * lane :=
  let ref_cnt := i32 (do_ref_cnt g - 1) in
  (if decide (0 <= ref_cnt) then p else L_crash (DISPATCH_CRASH "Over-release of an object"), set_ref_cnt ref_cnt g).

Definition _dispatch_queue_push_list_slow2 (p : lane_pc) (g : lane) : option (lane_pc * lane) :=
  match p with
  | L_retain n k => Some (_dispatch_retain (L_head n k) g)
  | L_head n k => Some (L_wake (K_release k), set_items_head (Some n) g)
  | _ => None
  end.

(** [dx_probe] of a queue is [dummy_function_r0]. *)
Definition _dispatch_wakeup (p : lane_pc) (g : lane) : option (lane_pc * lane) :=
  match p with
  | L_wake k => Some (if DISPATCH_OBJECT_SUSPENDED g then resume_kont k else L_wake_tail k, g)
  | L_wake_tail k => Some (if decide (dq_items_tail g = None) then resume_kont k else L_wake_cas k, g)
  | L_wake_cas k =>
      Some (if decide (do_suspend_cnt g = 0) then (L_wake_retain k, set_suspend_cnt DISPATCH_OBJECT_SUSPEND_LOCK g)
            else (resume_kont k, g))
  | L_wake_retain k => Some (_dispatch_retain (L_wake_push k) g)
  | L_wake_push k => Some (resume_kont k, set_listless false (set_targetq (targetq g ++ [T_queue]) g))
  | _ => None
  end.

(** ** Asynchronous submission *)

(** [_dispatch_continuation_alloc] retries until there is memory. *)
Definition alloc_cont (c : lane_choice) (d : dispatch_continuation_s) (stay : lane_pc) (k : nat → lane_pc) (g : lane)
  : option (lane_pc * lane) :=
  match c with
  | LC_alloc true => Some (k (next_cont g), new_cont d g)
  | LC_alloc false => Some (stay, g)
  | _ => None
  end.

Definition dispatch_barrier_async_f (c : lane_choice) (ctxt func : Z) (g : lane) : option (lane_pc * lane) :=
  alloc_cont c (DC (Z.lor DISPATCH_OBJ_ASYNC_BIT DISPATCH_OBJ_BARRIER_BIT) None func ctxt None)
    (L_barrier_async ctxt func) (λ n, L_push n K_return) g.

Definition dispatch_async_f (c : lane_choice) (p : lane_pc) (g : lane) : option (lane_pc * lane) :=
  match p with
  | L_async ctxt func =>
      Some (if decide (dq_width g = 1) then L_barrier_async ctxt func else L_async_alloc ctxt func, g)
  | L_async_alloc ctxt func =>
      alloc_cont c (DC DISPATCH_OBJ_ASYNC_BIT None func ctxt None) p L_async2 g
  | _ => None
  end.

(** The target is a root queue, which has no target. *)
Definition _dispatch_async_f_redirect (c : lane_choice) (p : lane_pc) (g : lane) : option (lane_pc * lane) :=
  match p with
  | L_redirect n => Some (_dispatch_retain (L_redirect_push n) g)
  | L_redirect_push n =>
      match c with
      | LC_alloc true => Some (L_idle, set_targetq (targetq g ++ [T_redirect n]) g)
      | LC_alloc false => Some (p, g)
      | _ => None
      end
  | _ => None
  end.

Definition _dispatch_async_f2 (p : lane_pc) (g : lane) : option (lane_pc * lane) :=
  match p with
  | L_async2 n =>
      Some (if decide (dq_items_tail g = None) then L_async2_suspended n else L_push n K_return, g)
  | L_async2_suspended n =>
      Some (if DISPATCH_OBJECT_SUSPENDED g then L_push n K_return else L_async2_add n, g)
  | L_async2_add n =>
      let g := add_running 2 g in
      Some (if decide (dq_width g < dq_running g) then L_async2_over n
            else if Z.testbit (dq_running g) 0 then L_async2_locked n else L_redirect n, g)
  | L_async2_over n =>
      let g := add_running (-2) g in
      Some (if decide (dq_running g = 0) then L_wake (K_push n) else L_push n K_return, g)
  | L_async2_locked n =>
      let g := add_running (-2) g in
      Some (if Z.testbit (dq_running g) 0 then L_push n K_return else L_async2 n, g)
  | _ => None
  end.

(** The function of a redirected continuation; the loop over the targets ends
    at once. *)
Definition _dispatch_async_f_redirect_invoke (p : lane_pc) (g : lane) : option (lane_pc * lane) :=
  match p with
  | L_rinv n =>
      Some (match conts g !! n with
            | Some d => (L_rrun, log_callout (Some n, (dc_ctxt d, dc_func d)) (set_conts (delete n (conts g)) g))
            | None => (bad_cont, g)
            end)
  | L_rrun => Some (L_rdec, g)
  | L_rdec =>
      let g := add_running (-2) g in
      Some (if decide (dq_running g = 0) then L_wake (K_release K_return) else L_release K_return, g)
  | _ => None
  end.

(** ** Synchronous submission *)

Definition barrier_sync : Z := Z.lor DISPATCH_OBJ_BARRIER_BIT DISPATCH_OBJ_SYNC_SLOW_BIT.

(** The semaphore of a continuation that [_dispatch_barrier_sync_f_slow] pushed. *)
Definition _dispatch_barrier_sync_f_pop (dc : nat) (g : lane) : option (option nat) :=
  d ← conts g !! dc;
  Some (if has_bits d barrier_sync then dc_sema d else None).

Definition one_none (o : one_kont) : lane_pc := match o with O_f2 => L_bsync_dec | O_slow => L_bresume end.
Definition one_some (o : one_kont) (sema : nat) : lane_pc :=
  match o with O_f2 => L_f2_suspend sema | O_slow => L_signal sema end.

Definition _dispatch_queue_drain_one_barrier_sync (p : lane_pc) (g : lane) : option (lane_pc * lane) :=
  match p with
  | L_one o =>
      Some (match dq_items_head g with
            | None => one_none o
            | Some dc =>
                match _dispatch_barrier_sync_f_pop dc g with
                | Some (Some sema) => L_one_next o dc sema
                | Some None => one_none o
                | None => bad_cont
                end
            end, g)
  | L_one_next o dc sema =>
      Some (match conts g !! dc with Some d => L_one_head o dc sema (dc_next d) | None => bad_cont end, g)
  | L_one_head o dc sema next =>
      Some (match next with Some _ => one_some o sema | None => L_one_cas o dc sema end, set_items_head next g)
  | L_one_cas o dc sema =>
      Some (if decide (dq_items_tail g = Some dc) then (one_some o sema, set_items_tail None g)
            else (L_one_spin o dc sema, g))
  | L_one_spin o dc sema =>
      Some (match conts g !! dc with
            | Some d => match dc_next d with Some next => L_one_head2 o next sema | None => p end
            | None => bad_cont
            end, g)
  | L_one_head2 o next sema => Some (one_some o sema, set_items_head (Some next) g)
  | _ => None
  end.

Definition sema_post (sema : nat) (p : lane_pc) (g : lane) : lane_pc * lane :=
  match sema_signal sema (store g) with Some st => (p, set_store st g) | None => (bad_sema, g) end.

(** [None]: blocked. *)
Definition sema_block (sema : nat) (p : lane_pc) (g : lane) : option (lane_pc * lane) :=
  match sema_wait sema (store g) with
  | inl _ => Some (bad_sema, g)
  | inr o => st ← o; Some (p, set_store st g)
  end.

Definition _dispatch_barrier_sync_f2 (p : lane_pc) (g : lane) : option (lane_pc * lane) :=
  match p with
  | L_bsync_f2 => Some (if DISPATCH_OBJECT_SUSPENDED g then L_bsync_dec else L_one O_f2, g)
  | L_f2_suspend sema => Some (L_f2_inc sema, add_suspend_cnt DISPATCH_OBJECT_SUSPEND_INTERVAL g)
  | L_f2_inc sema => Some (L_signal sema, add_running 1 g)
  | L_signal sema => Some (sema_post sema L_idle g)
  | L_bsync_dec =>
      let g := add_running (-1) g in
      Some (if decide (dq_running g = 0) then L_wake K_return else L_idle, g)
  | _ => None
  end.

Definition _dispatch_barrier_sync_f_invoke (p : lane_pc) (g : lane) : option (lane_pc * lane) :=
  match p with
  | L_bsync_call ctxt func => Some (L_bsync_run, log_callout (None, (ctxt, func)) g)
  | L_bsync_run => Some (L_bsync_tail, g)
  | L_bsync_tail => Some (if decide (dq_items_tail g = None) then L_bsync_dec else L_bsync_f2, g)
  | _ => None
  end.

Definition dispatch_barrier_sync_f (p : lane_pc) (g : lane) : option (lane_pc * lane) :=
  match p with
  | L_bsync ctxt func =>
      Some (if decide (dq_items_tail g = None) then L_bsync_suspended ctxt func else L_bslow ctxt func, g)
  | L_bsync_suspended ctxt func =>
      Some (if DISPATCH_OBJECT_SUSPENDED g then L_bslow ctxt func else L_bsync_cas ctxt func, g)
  | L_bsync_cas ctxt func =>
      Some (if decide (dq_running g = 0) then (L_bsync_call ctxt func, set_running 1 g) else (L_bslow ctxt func, g))
  | _ => None
  end.

(** Get the semaphore and make the record on the stack. *)
Definition push_waiter (tsd : option nat) (vtable : Z) (k : nat → nat → kont) (g : lane) : lane_thread * lane :=
  let '(sema, tsd, st) := _dispatch_get_thread_semaphore tsd (store g) in
  ((tsd, L_push (next_cont g) (k (next_cont g) sema)), set_store st (new_cont (DC vtable None 0 0 (Some sema)) g)).

(** Return the semaphore; from here on nobody follows the record. *)
Definition put_waiter (tsd : option nat) (n sema : nat) (p : lane_pc) (g : lane) : lane_thread * lane :=
  let '(tsd, st) := _dispatch_put_thread_semaphore sema tsd (store g) in
  ((tsd, p), set_store st (set_conts (delete n (conts g)) g)).

Definition _dispatch_barrier_sync_f_slow (tsd : option nat) (p : lane_pc) (g : lane) : option (lane_thread * lane) :=
  let stay o := '(p, g) ← o; Some ((tsd, p), g) in
  match p with
  | L_bslow ctxt func => Some (push_waiter tsd barrier_sync (λ n sema, K_barrier_wait n sema ctxt func) g)
  | L_bwait n sema ctxt func => stay (sema_block sema (L_bput n sema ctxt func) g)
  | L_bput n sema ctxt func => Some (put_waiter tsd n sema (L_bcall n ctxt func) g)
  | L_bcall n ctxt func => stay (Some (L_brun, log_callout (Some n, (ctxt, func)) g))
  | L_brun => stay (Some (L_bcheck, g))
  | L_bcheck =>
      stay (Some (if decide (do_suspend_cnt g < 2 * DISPATCH_OBJECT_SUSPEND_INTERVAL) then L_bcheck_running else L_bresume, g))
  | L_bcheck_running => stay (Some (if decide (dq_running g = 2) then L_one O_slow else L_bresume, g))
  | L_bresume => stay (Some (L_bdec, add_suspend_cnt (- DISPATCH_OBJECT_SUSPEND_INTERVAL) g))
  | L_bdec =>
      let g := add_running (-2) g in
      stay (Some (if decide (dq_running g = 0) then L_wake K_return else L_idle, g))
  | _ => None
  end.

Definition _dispatch_sync_f2 (p : lane_pc) (g : lane) : option (lane_pc * lane) :=
  match p with
  | L_sync2 ctxt func =>
      Some (if decide (dq_items_tail g = None) then L_sync2_suspended ctxt func else L_sslow ctxt func, g)
  | L_sync2_suspended ctxt func =>
      Some (if DISPATCH_OBJECT_SUSPENDED g then L_sslow ctxt func else L_sync2_add ctxt func, g)
  | L_sync2_add ctxt func =>
      let g := add_running 2 g in
      Some (if Z.testbit (dq_running g) 0 then L_sync2_sub ctxt func else L_scall None ctxt func, g)
  | _ => None
  end.

Definition _dispatch_sync_f_slow2 (p : lane_pc) (g : lane) : option (lane_pc * lane) :=
  match p with
  | L_sync2_sub ctxt func =>
      let g := add_running (-2) g in
      Some (if decide (dq_running g = 0) then L_wake (K_sync_slow ctxt func) else L_sslow ctxt func, g)
  | _ => None
  end.

Definition _dispatch_sync_f_slow (tsd : option nat) (p : lane_pc) (g : lane) : option (lane_thread * lane) :=
  match p with
  | L_sslow ctxt func => Some (push_waiter tsd DISPATCH_OBJ_SYNC_SLOW_BIT (λ n sema, K_sync_wait n sema ctxt func) g)
  | L_swait n sema ctxt func => '(p, g) ← sema_block sema (L_sput n sema ctxt func) g; Some ((tsd, p), g)
  | L_sput n sema ctxt func => Some (put_waiter tsd n sema (L_scall (Some n) ctxt func) g)
  | _ => None
  end.

(** The end of [_dispatch_sync_f_slow] is the same. *)
Definition _dispatch_sync_f_invoke (p : lane_pc) (g : lane) : option (lane_pc * lane) :=
  match p with
  | L_scall n ctxt func => Some (L_srun, log_callout (n, (ctxt, func)) g)
  | L_srun => Some (L_sdec, g)
  | L_sdec =>
      let g := add_running (-2) g in
      Some (if decide (dq_running g = 0) then L_wake K_return else L_idle, g)
  | _ => None
  end.

Definition dispatch_sync_f (p : lane_pc) (g : lane) : option (lane_pc * lane) :=
  match p with
  | L_sync ctxt func => Some (if decide (dq_width g = 1) then L_bsync ctxt func else L_sync2 ctxt func, g)
  | _ => None
  end.

(** ** Draining *)

(** The condition of the inner loop, with [dc = next_dc]. *)
Definition drain_next (next : option nat) : lane_pc := match next with Some dc => L_dr_next dc | None => L_dr_tail end.

(** The label [out], with [dc] not null. *)
Definition drain_out (dc : nat) (next : option nat) : lane_pc :=
  match next with Some _ => L_out_head dc None | None => L_out_cas dc end.

Definition _dispatch_continuation_redirect (c : lane_choice) (p : lane_pc) (g : lane) : option (lane_pc * lane) :=
  match p with
  | L_dr_redirect dc next => Some (L_dr_redirect2 dc next, add_running 2 g)
  | L_dr_redirect2 dc next =>
      Some (match conts g !! dc with
            | Some d =>
                if has_bits d DISPATCH_OBJ_SYNC_SLOW_BIT then
                  match dc_sema d with Some sema => sema_post sema (drain_next next) g | None => (bad_sema, g) end
                else _dispatch_retain (L_dr_redirect_push dc next) g
            | None => (bad_cont, g)
            end)
  | L_dr_redirect_push dc next =>
      match c with
      | LC_alloc true => Some (drain_next next, set_targetq (targetq g ++ [T_redirect dc]) g)
      | LC_alloc false => Some (p, g)
      | _ => None
      end
  | _ => None
  end.

(** The continuation goes back to the cache before its function is called. *)
Definition _dispatch_continuation_pop (dc : nat) (p : lane_pc) (g : lane) : lane_pc * lane :=
  match conts g !! dc with
  | Some d =>
      if has_bits d DISPATCH_OBJ_ASYNC_BIT
      then (p, log_callout (Some dc, (dc_ctxt d, dc_func d)) (set_conts (delete dc (conts g)) g))
      else (L_crash (UB "null function"), g)
  | None => (bad_cont, g)
  end.

Definition _dispatch_queue_drain (p : lane_pc) (g : lane) : option (lane_pc * lane) :=
  match p with
  | L_dr_tail => Some (if decide (dq_items_tail g = None) then L_inv_dec None else L_dr_head, g)
  | L_dr_head => Some (match dq_items_head g with Some dc => L_dr_clear dc | None => p end, g)
  | L_dr_clear dc => Some (L_dr_next dc, set_items_head None g)
  | L_dr_next dc =>
      Some (match conts g !! dc with
            | Some d => match dc_next d with Some next => L_dr_suspended dc (Some next) | None => L_dr_cas dc end
            | None => bad_cont
            end, g)
  | L_dr_cas dc =>
      Some (if decide (dq_items_tail g = Some dc) then (L_dr_suspended dc None, set_items_tail None g)
            else (L_dr_spin dc, g))
  | L_dr_spin dc =>
      Some (match conts g !! dc with
            | Some d => match dc_next d with Some next => L_dr_suspended dc (Some next) | None => p end
            | None => bad_cont
            end, g)
  | L_dr_suspended dc next => Some (if DISPATCH_OBJECT_SUSPENDED g then drain_out dc next else L_dr_width dc next, g)
  | L_dr_width dc next =>
      Some (if decide (dq_width g < dq_running g) then drain_out dc next
            else if decide (dq_width g = 1) then L_dr_pop dc next else L_dr_barrier dc next, g)
  | L_dr_barrier dc next =>
      Some (match conts g !! dc with
            | Some d =>
                if has_bits d DISPATCH_OBJ_BARRIER_BIT
                then if decide (1 < dq_running g) then drain_out dc next else L_dr_pop dc next
                else L_dr_redirect dc next
            | None => bad_cont
            end, g)
  | L_dr_pop dc next =>
      Some (match _dispatch_barrier_sync_f_pop dc g with
            | Some (Some sema) => L_dr_pop_suspend dc next sema
            | Some None => L_dr_call dc next
            | None => bad_cont
            end, g)
  | L_dr_pop_suspend dc next sema =>
      Some (L_dr_pop_running dc next sema, add_suspend_cnt DISPATCH_OBJECT_SUSPEND_INTERVAL g)
  | L_dr_pop_running dc next sema =>
      Some (match next with Some dc => L_out_head dc (Some sema) | None => L_inv_dec (Some sema) end, add_running 2 g)
  | L_dr_call dc next => Some (_dispatch_continuation_pop dc (L_dr_run next) g)
  | L_dr_run next => Some (drain_next next, g)
  | L_out_cas dc =>
      Some (if decide (dq_items_tail g = None) then (L_out_head dc None, set_items_tail (Some dc) g)
            else (L_out_spin dc, g))
  | L_out_spin dc => Some (match dq_items_head g with Some next => L_out_link dc next | None => p end, g)
  | L_out_link dc next =>
      (* the first write is to a continuation that no list holds *)
      Some (match conts g !! dc with
            | Some d =>
                (L_inv_dec None, set_items_head (Some dc) (set_conts (<[dc := set_dc_next (Some next) d]> (conts g)) g))
            | None => (bad_cont, g)
            end)
  | L_out_head dc sema => Some (L_inv_dec sema, set_items_head (Some dc) g)
  | _ => None
  end.

(** The target does not change, and a queue has no [do_invoke]. *)
Definition _dispatch_queue_invoke (p : lane_pc) (g : lane) : option (lane_pc * lane) :=
  match p with
  | L_inv => Some (if DISPATCH_OBJECT_SUSPENDED g then L_inv_listless else L_inv_cas, g)
  | L_inv_cas =>
      Some (if decide (dq_running g = 0) then (L_dr_tail, set_running 1 g) else (L_inv_listless, g))
  | L_inv_dec sema =>
      Some (match sema with Some sema => L_inv_signal sema | None => L_inv_listless end, add_running (-1) g)
  | L_inv_signal sema => Some (sema_post sema L_inv_listless g)
  | L_inv_listless => Some (L_inv_unlock, set_listless true g)
  | L_inv_unlock =>
      let g := add_suspend_cnt (- DISPATCH_OBJECT_SUSPEND_LOCK) g in
      Some (if decide (do_suspend_cnt g = 0) then L_inv_running else L_release K_return, g)
  | L_inv_running => Some (if decide (dq_running g = 0) then L_wake (K_release K_return) else L_release K_return, g)
  | _ => None
  end.

(** ** Suspension *)

Definition dispatch_suspend (p : lane_pc) (g : lane) : option (lane_pc * lane) :=
  match p with
  | L_suspend => Some (L_suspend_retain, add_suspend_cnt DISPATCH_OBJECT_SUSPEND_INTERVAL g)
  | L_suspend_retain => Some (_dispatch_retain L_idle g)
  | _ => None
  end.

Definition dispatch_resume (g : lane) : lane_pc * lane :=
  let g := add_suspend_cnt (- DISPATCH_OBJECT_SUSPEND_INTERVAL) g in
  let suspend_cnt := u32 (do_suspend_cnt g + DISPATCH_OBJECT_SUSPEND_INTERVAL) in
  (if decide (DISPATCH_OBJECT_SUSPEND_INTERVAL < suspend_cnt) then L_release K_return
   else if decide (suspend_cnt = DISPATCH_OBJECT_SUSPEND_INTERVAL) then L_wake (K_release K_return)
   else L_crash (DISPATCH_CLIENT_CRASH "Over-resume of an object"), g).

(** ** A step *)

(** The next call of a client; or a worker of the root queue takes the first
    item. *)
Definition lane_begin (c : lane_choice) (g : lane) : option (lane_pc * lane) :=
  match c with
  | LC_async ctxt func => Some (L_async ctxt func, g)
  | LC_barrier_async ctxt func => Some (L_barrier_async ctxt func, g)
  | LC_sync ctxt func => Some (L_sync ctxt func, g)
  | LC_barrier_sync ctxt func => Some (L_bsync ctxt func, g)
  | LC_suspend => Some (L_suspend, g)
  | LC_resume => Some (L_resume, g)
  | LC_work =>
      match targetq g with
      | T_queue :: l => Some (L_inv, set_targetq l g)
      | T_redirect n :: l => Some (L_rinv n, set_targetq l g)
      | [] => None
      end
  | _ => None
  end.

Definition lane_step (c : lane_choice) (p : lane_pc) (g : lane) : option (lane_pc * lane) :=
  match p with
  | L_idle => lane_begin c g
  | L_crash _ => None
  | L_push _ _ | L_link _ _ _ => _dispatch_queue_push p g
  | L_retain _ _ | L_head _ _ => _dispatch_queue_push_list_slow2 p g
  | L_wake _ | L_wake_tail _ | L_wake_cas _ | L_wake_retain _ | L_wake_push _ => _dispatch_wakeup p g
  | L_release k => Some (_dispatch_release (resume_kont k) g)
  | L_async _ _ | L_async_alloc _ _ => dispatch_async_f c p g
  | L_barrier_async ctxt func => dispatch_barrier_async_f c ctxt func g
  | L_async2 _ | L_async2_suspended _ | L_async2_add _ | L_async2_over _ | L_async2_locked _ => _dispatch_async_f2 p g
  | L_redirect _ | L_redirect_push _ => _dispatch_async_f_redirect c p g
  | L_rinv _ | L_rrun | L_rdec => _dispatch_async_f_redirect_invoke p g
  | L_sync _ _ => dispatch_sync_f p g
  | L_bsync _ _ | L_bsync_suspended _ _ | L_bsync_cas _ _ => dispatch_barrier_sync_f p g
  | L_bsync_call _ _ | L_bsync_run | L_bsync_tail => _dispatch_barrier_sync_f_invoke p g
  | L_bsync_f2 | L_f2_suspend _ | L_f2_inc _ | L_signal _ | L_bsync_dec => _dispatch_barrier_sync_f2 p g
  | L_one _ | L_one_next _ _ _ | L_one_head _ _ _ _ | L_one_cas _ _ _ | L_one_spin _ _ _ | L_one_head2 _ _ _ =>
      _dispatch_queue_drain_one_barrier_sync p g
  | L_sync2 _ _ | L_sync2_suspended _ _ | L_sync2_add _ _ => _dispatch_sync_f2 p g
  | L_sync2_sub _ _ => _dispatch_sync_f_slow2 p g
  | L_scall _ _ _ | L_srun | L_sdec => _dispatch_sync_f_invoke p g
  | L_inv | L_inv_cas | L_inv_dec _ | L_inv_signal _ | L_inv_listless | L_inv_unlock | L_inv_running =>
      _dispatch_queue_invoke p g
  | L_dr_redirect _ _ | L_dr_redirect2 _ _ | L_dr_redirect_push _ _ => _dispatch_continuation_redirect c p g
  | L_suspend | L_suspend_retain => dispatch_suspend p g
  | L_resume => Some (dispatch_resume g)
  | L_bslow _ _ | L_bwait _ _ _ _ | L_bput _ _ _ _ | L_bcall _ _ _ | L_brun | L_bcheck | L_bcheck_running
  | L_bresume | L_bdec | L_sslow _ _ | L_swait _ _ _ _ | L_sput _ _ _ _ => None
  | _ => _dispatch_queue_drain p g
  end.

(** The functions that use the semaphore of the thread. *)
Definition lane_tstep (c : lane_choice) (i : nat) (l : lane_thread) (g : lane) : option (lane_thread * lane) :=
  let '(tsd, p) := l in
  match p with
  | L_bslow _ _ | L_bwait _ _ _ _ | L_bput _ _ _ _ | L_bcall _ _ _ | L_brun | L_bcheck | L_bcheck_running
  | L_bresume | L_bdec => _dispatch_barrier_sync_f_slow tsd p g
  | L_sslow _ _ | L_swait _ _ _ _ | L_sput _ _ _ _ => _dispatch_sync_f_slow tsd p g
  | _ => '(p, g) ← lane_step c p g; Some ((tsd, p), g)
  end.
