(* ===== verification/LaneInv.v ===== *)
(** * The scheduling of a queue: the invariant of a serial queue

    What a proof follows beside the state, what each program point of a thread
    stands for in the counters of the queue, and the invariant that a queue of
    width 1 keeps. *)

From S2P Require Import Prelude Conc Mpsc ThreadSema Lane.

(** ** The history *)

(** The items in the list, in order; the item that was taken off it and whose
    function was not called yet; the items in the order they were pushed; the
    records of waiting threads with their semaphores; the suspensions that
    count, how often they suspended, how many of the suspensions they may resume
    (the calls that returned), and whether they resumed more. *)
Record lane_history : Type := LHist {
  h_items : list nat;
  h_carry : option nat;
  h_pushed : list nat;
  h_wait : gmap nat nat;
  h_susp : Z;
  h_nsusp : Z;
  h_held : Z;
  h_over : bool
}.

Definition log_list (x : list nat) (c : option nat) (h : lane_history) : lane_history :=
  LHist x c (h_pushed h) (h_wait h) (h_susp h) (h_nsusp h) (h_held h) (h_over h).
Definition log_wait (w : gmap nat nat) (h : lane_history) : lane_history :=
  LHist (h_items h) (h_carry h) (h_pushed h) w (h_susp h) (h_nsusp h) (h_held h) (h_over h).

(** The first item is taken off; an item goes back; a function is called. *)
Definition log_pop (dc : nat) (h : lane_history) : lane_history := log_list (tail (h_items h)) (Some dc) h.
Definition log_back (dc : nat) (h : lane_history) : lane_history := log_list (dc :: h_items h) None h.
Definition log_start (h : lane_history) : lane_history := log_list (h_items h) None h.

Definition lane_log (p p' : lane_pc) (h : lane_history) : lane_history :=
  match p, p' with
  | L_push n _, _ =>
      LHist (h_items h ++ [n]) (h_carry h) (h_pushed h ++ [n]) (h_wait h) (h_susp h) (h_nsusp h) (h_held h) (h_over h)
  | L_dr_next _, L_dr_suspended dc _ | L_dr_cas _, L_dr_suspended dc _ | L_dr_spin _, L_dr_suspended dc _ => log_pop dc h
  | L_one_head _ dc _ (Some _), _ | L_one_spin _ dc _, L_one_head2 _ _ _ => log_pop dc h
  | L_one_cas _ dc _, (L_f2_suspend _ | L_signal _) => log_pop dc h
  | L_dr_suspended _ _, L_out_head dc _ | L_dr_width _ _, L_out_head dc _ | L_out_cas _, L_out_head dc _ => log_back dc h
  | L_out_link dc _, _ => log_back dc h
  | L_dr_call _ _, _ | L_bcall _ _ _, _ => log_start h
  | L_bslow _ _, L_push n (K_barrier_wait _ sema _ _) => log_wait (<[n := sema]> (h_wait h)) h
  | L_bput n _ _ _, _ => log_wait (delete n (h_wait h)) h
  | L_suspend, _ =>
      LHist (h_items h) (h_carry h) (h_pushed h) (h_wait h) (h_susp h + 1) (h_nsusp h + 1) (h_held h) (h_over h)
  | L_suspend_retain, _ =>
      LHist (h_items h) (h_carry h) (h_pushed h) (h_wait h) (h_susp h) (h_nsusp h) (h_held h + 1) (h_over h)
  | L_resume, _ =>
      LHist (h_items h) (h_carry h) (h_pushed h) (h_wait h) (h_susp h - 1) (h_nsusp h) (h_held h - 1) (h_over h || (h_held h <=? 0))
  | _, _ => h
  end.

Definition lane_hstep (c : lane_choice) (i : nat) (l : lane_thread) (s : lane * lane_history)
  : option (lane_thread * (lane * lane_history)) :=
  '(l', g) ← lane_tstep c i l s.1; Some (l', (g, lane_log l.2 l'.2 s.2)).

(** ** What a program point stands for *)

(** Its part of [dq_running]. *)
Definition own (p : lane_pc) : Z :=
  match p with
  | L_bsync_call _ _ | L_bsync_run | L_bsync_tail | L_bsync_f2 | L_bsync_dec | L_f2_suspend _ | L_f2_inc _ => 1
  | L_signal _ => 2
  | L_bput _ _ _ _ | L_bcall _ _ _ | L_brun | L_bcheck | L_bcheck_running | L_bresume | L_bdec => 2
  | L_one o | L_one_next o _ _ | L_one_head o _ _ _ | L_one_cas o _ _ | L_one_spin o _ _ | L_one_head2 o _ _ =>
      match o with O_f2 => 1 | O_slow => 2 end
  | L_inv_dec None => 1
  | L_inv_dec (Some _) => 3
  | L_inv_signal _ => 2
  | L_out_head _ (Some _) => 3
  | L_dr_tail | L_dr_head | L_dr_clear _ | L_dr_next _ | L_dr_cas _ | L_dr_spin _ | L_dr_suspended _ _
  | L_dr_width _ _ | L_dr_pop _ _ | L_dr_pop_suspend _ _ _ | L_dr_pop_running _ _ _ | L_dr_call _ _ | L_dr_run _
  | L_out_cas _ | L_out_spin _ | L_out_link _ _ | L_out_head _ None => 1
  | _ => 0
  end.

(** It may run an item, or hand that right over. *)
Definition right (p : lane_pc) : Z := if 0 <? own p then 1 else 0.

(** Its part of the suspensions, for a waiting thread that was let in. *)
Definition grants (p : lane_pc) : Z :=
  match p with
  | L_f2_inc _ | L_signal _ | L_bput _ _ _ _ | L_bcall _ _ _ | L_brun | L_bcheck | L_bcheck_running | L_bresume
  | L_one O_slow | L_one_next O_slow _ _ | L_one_head O_slow _ _ _ | L_one_cas O_slow _ _ | L_one_spin O_slow _ _
  | L_one_head2 O_slow _ _ | L_dr_pop_running _ _ _ | L_inv_dec (Some _) | L_inv_signal _ | L_out_head _ (Some _) => 1
  | _ => 0
  end.

(** A worker that invokes the queue. *)
Definition invoking (p : lane_pc) : bool :=
  match p with
  | L_inv | L_inv_cas | L_inv_dec _ | L_inv_signal _ | L_inv_listless | L_inv_unlock
  | L_dr_tail | L_dr_head | L_dr_clear _ | L_dr_next _ | L_dr_cas _ | L_dr_spin _ | L_dr_suspended _ _
  | L_dr_width _ _ | L_dr_pop _ _ | L_dr_pop_suspend _ _ _ | L_dr_pop_running _ _ _ | L_dr_call _ _ | L_dr_run _
  | L_out_cas _ | L_out_spin _ | L_out_link _ _ | L_out_head _ _ => true
  | _ => false
  end.

(** It has the lock bit of [do_suspend_cnt]. *)
Definition lock (p : lane_pc) : Z :=
  match p with
  | L_wake_retain _ | L_wake_push _ => 1
  | _ => if invoking p then 1 else 0
  end.

Fixpoint krefs (k : kont) : Z := match k with K_release k => 1 + krefs k | _ => 0 end.

(** The references it holds, or still has to take. *)
Definition refs (p : lane_pc) : Z :=
  match p with
  | L_push _ k | L_link _ _ k | L_retain _ k | L_wake k | L_wake_tail k | L_wake_cas k | L_wake_retain k => krefs k
  | L_head _ k | L_wake_push k | L_release k => 1 + krefs k
  | L_inv_running => 1
  | L_suspend_retain => -1
  | _ => if invoking p then 1 else 0
  end.

(** A suspension that did not return. *)
Definition pend (p : lane_pc) : Z := match p with L_suspend_retain => 1 | _ => 0 end.

(** It is going to wake the queue up, or to run its items. *)
Definition about (p : lane_pc) : Z :=
  match p with
  | L_retain _ _ | L_head _ _ | L_wake _ | L_wake_tail _ | L_wake_cas _ | L_inv_running => 1
  | _ => Z.max (right p) (lock p)
  end.

Definition opener (l : lane_thread) : option nat :=
  match l.2 with
  | L_retain n _ | L_head n _ => Some n
  | L_dr_next dc | L_dr_cas dc | L_dr_spin dc => Some dc
  | L_dr_suspended _ next | L_dr_width _ next | L_dr_pop _ next | L_dr_pop_suspend _ next _ | L_dr_pop_running _ next _
  | L_dr_call _ next | L_dr_run next => next
  | L_out_head dc _ => Some dc
  | L_one_cas _ dc _ | L_one_spin _ dc _ => Some dc
  | L_one_head2 _ next _ => Some next
  | _ => None
  end.

Definition linking (l : lane_thread) : option (nat * nat) :=
  match l.2 with L_link prev n _ => Some (prev, n) | _ => None end.

Fixpoint kwait (k : kont) : option (nat * nat) :=
  match k with K_barrier_wait n sema _ _ => Some (n, sema) | K_release k => kwait k | _ => None end.

(** The record on its stack, and its semaphore. *)
Definition waiting (p : lane_pc) : option (nat * nat) :=
  match p with
  | L_push _ k | L_link _ _ k | L_retain _ k | L_head _ k | L_wake k | L_wake_tail k | L_wake_cas k | L_wake_retain k
  | L_wake_push k | L_release k => kwait k
  | L_bwait n sema _ _ | L_bput n sema _ _ => Some (n, sema)
  | _ => None
  end.

Definition semas_of (l : lane_thread) : list nat :=
  option_list l.1 ++ match waiting l.2 with Some (_, sema) => [sema] | None => [] end.

Definition nx (g : lane) (x : nat) : option (option nat) := dc_next <$> conts g !! x.

(** The signals that were not waited for. *)
Definition signals (g : lane) : Z := msum (λ c, c) (semas (store g)).

Abbreviation lsum f ths := (tsum (λ _ (l : lane_thread), f l.2) ths).

(** ** Conditions *)

(** After a push, the thread goes home or waits; after a wake-up it may have a
    reference to release before that. *)
Definition plain (k : kont) : bool := match k with K_return | K_barrier_wait _ _ _ _ => true | _ => false end.
Definition kont_ok (k : kont) : bool := match k with K_release k => plain k | _ => plain k end.

Definition async_cont (g : lane) (x : nat) : Prop :=
  ∃ d, conts g !! x = Some d ∧ has_bits d DISPATCH_OBJ_ASYNC_BIT = true ∧ has_bits d barrier_sync = false.

Definition sync_cont (g : lane) (x sema : nat) : Prop :=
  ∃ d, conts g !! x = Some d ∧ has_bits d barrier_sync = true ∧ dc_sema d = Some sema.

Definition known (g : lane) (h : lane_history) (x : nat) : Prop := async_cont g x ∨ is_Some (h_wait h !! x).

(** The item in hand is the record of the thread that waits on [sema]. *)
Definition granted (h : lane_history) (sema : nat) : Prop := ∃ n, h_carry h = Some n ∧ h_wait h !! n = Some sema.

Definition base_local (g : lane) (h : lane_history) (p : lane_pc) : Prop :=
  match p with
  | L_push n k => plain k = true ∧ n ∉ h_pushed h ∧
      match kwait k with Some (m, _) => m = n | None => async_cont g n end
  | L_link _ _ k | L_retain _ k | L_head _ k => plain k = true ∧ ∀ n s, kwait k = Some (n, s) → n ∈ h_pushed h
  | L_wake k | L_wake_tail k | L_wake_cas k | L_wake_retain k | L_wake_push k | L_release k =>
      kont_ok k = true ∧ ∀ n s, kwait k = Some (n, s) → n ∈ h_pushed h
  | L_bwait n _ _ _ => n ∈ h_pushed h
  | L_crash _ | L_async_alloc _ _ | L_async2 _ | L_async2_suspended _ | L_async2_add _ | L_async2_over _
  | L_async2_locked _ | L_redirect _ | L_redirect_push _ | L_rinv _ | L_rrun | L_rdec
  | L_sync2 _ _ | L_sync2_suspended _ _ | L_sync2_add _ _ | L_sync2_sub _ _ | L_sslow _ _ | L_swait _ _ _ _
  | L_sput _ _ _ _ | L_scall _ _ _ | L_srun | L_sdec | L_dr_barrier _ _ | L_dr_redirect _ _ | L_dr_redirect2 _ _
  | L_dr_redirect_push _ _ => False
  | _ => True
  end.

(** What the thread that has the right to run items knows. *)
Definition right_local (g : lane) (h : lane_history) (p : lane_pc) : Prop :=
  match p with
  | L_dr_clear dc => dq_items_head g = Some dc ∧ h_carry h = None
  | L_dr_suspended dc next | L_dr_width dc next | L_dr_pop dc next =>
      h_carry h = Some dc ∧ nx g dc = Some next ∧ known g h dc
  | L_dr_call dc next => h_carry h = Some dc ∧ async_cont g dc
  | L_dr_pop_suspend dc next s | L_dr_pop_running dc next s => h_carry h = Some dc ∧ h_wait h !! dc = Some s
  | L_out_cas dc | L_out_spin dc => h_carry h = Some dc ∧ nx g dc = Some None ∧ known g h dc
  | L_out_link dc next => h_carry h = Some dc ∧ nx g dc = Some None ∧ known g h dc ∧ dq_items_head g = Some next
  | L_one_next _ dc s => dq_items_head g = Some dc ∧ h_carry h = None ∧ h_wait h !! dc = Some s
  | L_one_head _ dc s next =>
      dq_items_head g = Some dc ∧ h_carry h = None ∧ h_wait h !! dc = Some s ∧ ∀ m, next = Some m → nx g dc = Some next
  | L_one_cas _ dc s | L_one_spin _ dc s => h_carry h = None ∧ h_wait h !! dc = Some s
  | L_out_head _ (Some s) | L_inv_dec (Some s) | L_inv_signal s | L_f2_suspend s | L_f2_inc s | L_signal s
  | L_one_head2 _ _ s => granted h s
  | L_bput n _ _ _ => h_carry h = Some n
  | L_bcall n _ _ => h_carry h = Some n ∧ h_wait h !! n = None
  | _ => right p = 1 → h_carry h = None
  end.

(** ** The invariant *)

Definition started (g : lane) : list nat := omap fst (callouts g).

(** The counters. *)
Record lane_counts (g : lane) (h : lane_history) (ths : gmap nat lane_thread) : Prop := LCounts {
  c_width : dq_width g = 1;
  c_running : dq_running g = lsum own ths + 2 * signals g;
  c_right : lsum right ths + signals g ≤ 1;
  c_suspend : do_suspend_cnt g = lsum lock ths + Z.of_nat (length (targetq g)) + 2 * (h_susp h + lsum grants ths + signals g);
  c_lock : lsum lock ths + Z.of_nat (length (targetq g)) ≤ 1;
  c_target : ∀ x, x ∈ targetq g → x = T_queue;
  c_ref : do_ref_cnt g = lsum refs ths + Z.of_nat (length (targetq g)) + h_susp h;
  c_susp : 0 ≤ h_susp h ≤ h_nsusp h;
  c_held : h_susp h = h_held h + lsum pend ths ∧ 0 ≤ h_held h;
  c_size : Z.of_nat (size ths) < 2 ^ 28;
  c_signal : ∀ s c, semas (store g) !! s = Some c → c = 0 ∨ c = 1 ∧ granted h s;
  c_about : h_items h ≠ [] ∨ h_carry h ≠ None → h_susp h = 0 →
    0 < lsum about ths + Z.of_nat (length (targetq g)) + signals g;
  c_carry : h_carry h ≠ None → 0 < lsum right ths + signals g
}.

(** The items. *)
Record lane_items (g : lane) (h : lane_history) : Prop := LItems {
  i_log : h_pushed h = started g ++ option_list (h_carry h) ++ h_items h;
  i_nodup : NoDup (h_pushed h);
  i_known : ∀ x, x ∈ h_items h → known g h x;
  i_wait : ∀ n s, h_wait h !! n = Some s → sync_cont g n s;
  i_unstarted : ∀ n, is_Some (h_wait h !! n) → n ∉ started g;
  i_fresh : ∀ n, is_Some (conts g !! n) ∨ n ∈ h_pushed h → (n < next_cont g)%nat;
  i_sema_fresh : ∀ s, is_Some (semas (store g) !! s) → (s < next_sema (store g))%nat
}.

(** The threads. *)
Record lane_threads (g : lane) (h : lane_history) (ths : gmap nat lane_thread) : Prop := LThreads {
  t_base : ∀ j l, ths !! j = Some l → base_local g h l.2;
  t_right : ∀ j l, ths !! j = Some l → right_local g h l.2;
  t_wait : ∀ n s, h_wait h !! n = Some s ↔ ∃ j l, ths !! j = Some l ∧ waiting l.2 = Some (n, s);
  t_wait_uniq : ∀ j k l m n s s', ths !! j = Some l → ths !! k = Some m →
    waiting l.2 = Some (n, s) → waiting m.2 = Some (n, s') → j = k;
  t_push_uniq : ∀ j k l m n ka kb, ths !! j = Some l → ths !! k = Some m →
    l.2 = L_push n ka → m.2 = L_push n kb → j = k;
  t_semas : ∀ j l, ths !! j = Some l → NoDup (semas_of l) ∧ ∀ s, s ∈ semas_of l → is_Some (semas (store g) !! s);
  t_semas_uniq : ∀ j k l m s, ths !! j = Some l → ths !! k = Some m → s ∈ semas_of l → s ∈ semas_of m → j = k
}.

Record lane_inv (g : lane) (h : lane_history) (ths : gmap nat lane_thread) : Prop := LInv {
  v_counts : lane_counts g h ths;
  v_list : mpsc opener linking (nx g) (dq_items_head g) (dq_items_tail g) (h_items h) ths;
  v_items : lane_items g h;
  v_threads : lane_threads g h ths
}.
