(* ===== verification/LaneStep.v ===== *)
(** * The scheduling of a queue: facts of the invariant, and what a step shows *)

From S2P Require Import Prelude Conc Mpsc ThreadSema Lane LaneInv.

Abbreviation lthreads := (gmap nat lane_thread).

(** ** Weights *)

(** The cases of an option, or of a caller, in a program point. *)
Ltac inner := repeat match goal with |- context [match ?x with _ => _ end] => is_var x; destruct x end.

Lemma own_range p : 0 ≤ own p ≤ 3.
Proof. destruct p; simpl; inner; lia. Qed.

Lemma right_own p : right p = 0 ∧ own p = 0 ∨ right p = 1 ∧ 0 < own p.
Proof. pose proof (own_range p). unfold right. destruct (0 <? own p) eqn:E; lia. Qed.

Lemma grants_range p : 0 ≤ grants p ≤ right p.
Proof.
  destruct p; unfold right; simpl; inner; simpl; lia.
Qed.

Lemma lock_range p : 0 ≤ lock p ≤ 1.
Proof. unfold lock. destruct p; try destruct (invoking _); lia. Qed.

Lemma right_range p : 0 ≤ right p ≤ 1.
Proof. destruct (right_own p); lia. Qed.

Lemma about_ge p : right p ≤ about p ∧ lock p ≤ about p ∧ 0 ≤ about p ≤ 1.
Proof. pose proof (right_range p). pose proof (lock_range p). destruct p; simpl in *; lia. Qed.

Lemma krefs_range k : kont_ok k = true → 0 ≤ krefs k ≤ 1.
Proof. destruct k as [| | | | |k]; simpl; try lia. destruct k; simpl; try done; lia. Qed.

Lemma plain_ok k : plain k = true → kont_ok k = true ∧ krefs k = 0.
Proof. by destruct k. Qed.

(** Weighted sums of a weight between 0 and 1, with one of the threads. *)
Lemma lsum_one (f : lane_pc → Z) (ths : lthreads) i l :
  (∀ p, 0 ≤ f p) → ths !! i = Some l → f l.2 ≤ lsum f ths.
Proof. intros Hf Hi. apply (tsum_ge (λ _ (l : lane_thread), f l.2) ths i l); [|done]. intros; apply Hf. Qed.

Lemma lsum_two (f : lane_pc → Z) (ths : lthreads) i j l m :
  (∀ p, 0 ≤ f p) → ths !! i = Some l → ths !! j = Some m → j ≠ i → f l.2 + f m.2 ≤ lsum f ths.
Proof.
  intros Hf Hi Hj Hne. rewrite <- (insert_delete_id ths i l Hi). rewrite tsum_insert_new by apply lookup_delete_eq.
  enough (f m.2 ≤ lsum f (delete i ths)) by lia. apply lsum_one with j; [done|]. by rewrite lookup_delete_ne.
Qed.

Lemma lsum_nonneg (f : lane_pc → Z) (ths : lthreads) : (∀ p, 0 ≤ f p) → 0 ≤ lsum f ths.
Proof. intros Hf. apply tsum_nonneg. intros; apply Hf. Qed.

Lemma lsum_le (f f' : lane_pc → Z) (ths : lthreads) : (∀ p, f p ≤ f' p) → lsum f ths ≤ lsum f' ths.
Proof. intros Hf. apply tsum_le. intros; apply Hf. Qed.

(** ** Facts *)

Section Facts.
Context (g : lane) (h : lane_history) (ths : lthreads) (I : lane_inv g h ths).

Let C := v_counts _ _ _ I.

Lemma signal_range s c : semas (store g) !! s = Some c → 0 ≤ c.
Proof. intros Hs. destruct (c_signal _ _ _ C s c Hs) as [|[]]; lia. Qed.

Lemma signals_nonneg : 0 ≤ signals g.
Proof. apply msum_nonneg. intros s c. apply signal_range. Qed.

Lemma sums_range : 0 ≤ lsum right ths ∧ 0 ≤ lsum lock ths ∧ 0 ≤ lsum grants ths ≤ lsum right ths ∧ 0 ≤ lsum about ths.
Proof.
  split_and!; try (apply lsum_nonneg; intros p; pose proof (right_range p); pose proof (lock_range p);
    pose proof (grants_range p); pose proof (about_ge p); lia).
  apply lsum_le. apply grants_range.
Qed.

(** Whoever has the right to run items is alone, and no signal is on its way. *)
Lemma right_alone i l : ths !! i = Some l → right l.2 = 1 →
  signals g = 0 ∧ lsum right ths = 1 ∧ ∀ j m, j ≠ i → ths !! j = Some m → right m.2 = 0.
Proof.
  intros Hi Hr. pose proof (c_right _ _ _ C). pose proof signals_nonneg.
  assert (∀ p, 0 ≤ right p) as Hp by (intros; apply right_range).
  pose proof (lsum_one right ths i l Hp Hi). split_and!; [lia..|]. intros j m Hne Hj.
  pose proof (lsum_two right ths i j l m Hp Hi Hj Hne). pose proof (right_range m.2). lia.
Qed.

(** ... and [dq_running] is its part. *)
Lemma running_alone i l : ths !! i = Some l → right l.2 = 1 → dq_running g = own l.2.
Proof.
  intros Hi Hr. destruct (right_alone i l Hi Hr) as (Hs & _ & Hoth). rewrite (c_running _ _ _ C), Hs.
  rewrite <- (insert_delete_id ths i l Hi). rewrite tsum_insert_new by apply lookup_delete_eq.
  rewrite (tsum_zero (λ _ (l : lane_thread), own l.2) (delete i ths)); [lia|].
  intros j m [Hne Hj]%lookup_delete_Some. destruct (right_own m.2) as [[_ ?]|[Hm _]]; [done|].
  rewrite (Hoth j m) in Hm by done. lia.
Qed.

(** Nobody has it when [dq_running] is 0. *)
Lemma running_zero : dq_running g = 0 → lsum right ths = 0 ∧ signals g = 0.
Proof.
  intros Hz. pose proof signals_nonneg. pose proof (c_running _ _ _ C).
  assert (lsum right ths ≤ lsum own ths) by (apply lsum_le; intros p; destruct (right_own p); lia).
  destruct sums_range as (? & _). lia.
Qed.

Lemma running_pos : dq_running g ≠ 0 → 0 < lsum right ths + signals g.
Proof.
  intros Hz. pose proof signals_nonneg. pose proof (c_running _ _ _ C).
  assert (lsum own ths ≤ 3 * lsum right ths).
  { assert (3 * lsum right ths = tsum (λ _ (l : lane_thread), 3 * right l.2) ths) as ->.
    { clear. induction ths as [|j m ths' Hj IH] using map_ind; [done|]. rewrite !tsum_insert_new by done. lia. }
    apply tsum_le. intros j m _. pose proof (own_range m.2). destruct (right_own m.2); lia. }
  assert (0 ≤ lsum own ths) by (apply lsum_nonneg; intros p; apply own_range).
  destruct sums_range as (? & _). lia.
Qed.

(** The holder of the lock bit is alone, and the queue is not on its target. *)
Lemma lock_alone i l : ths !! i = Some l → lock l.2 = 1 → targetq g = [] ∧ lsum lock ths = 1.
Proof.
  intros Hi Hl. pose proof (c_lock _ _ _ C). pose proof (lsum_one lock ths i l (λ p, proj1 (lock_range p)) Hi).
  destruct (targetq g); simpl in *; [|lia]. split; [done|lia].
Qed.

(** How far the unsigned and the signed counters go. *)
Lemma counter_bounds : h_nsusp h ≤ 2 ^ 29 →
  0 ≤ dq_running g ≤ 3 ∧ 0 ≤ do_suspend_cnt g ≤ 2 ^ 30 + 8 ∧ Z.of_nat (length (targetq g)) ≤ 1.
Proof.
  intros Hn. pose proof signals_nonneg. pose proof (c_right _ _ _ C). pose proof (c_suspend _ _ _ C).
  pose proof (c_lock _ _ _ C). pose proof (c_susp _ _ _ C). destruct sums_range as (? & ? & ? & ?).
  assert (0 ≤ dq_running g ≤ 3); [|lia].
  destruct (decide (dq_running g = 0)) as [->|Hz]; [lia|]. pose proof (running_pos Hz).
  destruct (decide (signals g = 0)) as [Hs|Hs].
  - destruct (tsum_pos (λ _ (l : lane_thread), right l.2) ths) as (i & l & Hi & Hr); [lia|].
    pose proof (right_range l.2). rewrite (running_alone i l Hi) by lia. apply own_range.
  - rewrite (c_running _ _ _ C). rewrite (tsum_zero (λ _ (l : lane_thread), own l.2) ths); [lia|].
    intros j m Hj. destruct (right_own m.2) as [[_ ?]|[Hm _]]; [done|].
    pose proof (lsum_one right ths j m (λ p, proj1 (right_range p)) Hj). lia.
Qed.

Lemma refs_range (Hk : ∀ j l, ths !! j = Some l → base_local g h l.2) j l :
  ths !! j = Some l → Z.max 0 (refs l.2) ≤ lsum refs ths + lsum pend ths ≤ 2 * Z.of_nat (size ths).
Proof.
  assert (∀ j l, ths !! j = Some l → 0 ≤ refs l.2 + pend l.2 ≤ 2 ∧ 0 ≤ pend l.2) as Hl.
  { intros j' m Hm. pose proof (Hk j' m Hm) as Hb. destruct m as [tsd p]. clear Hm. simpl in *.
    destruct p; simpl in *; try lia; try (destruct Hb as [Hb _]);
      try (apply plain_ok in Hb as [_ ->]; lia); try (apply krefs_range in Hb; lia). }
  intros Hj. rewrite <- tsum_add. split.
  - pose proof (Hl j l Hj). enough (refs l.2 + pend l.2 ≤ tsum (λ _ (l : lane_thread), refs l.2 + pend l.2) ths) by lia.
    apply (tsum_ge (λ _ (l : lane_thread), refs l.2 + pend l.2) ths j l); [|done]. intros j' m Hm. pose proof (Hl j' m Hm). lia.
  - rewrite <- tsum_const. clear Hj. replace (2 * tsum (λ (_ : nat) (_ : lane_thread), 1) ths) with (tsum (λ (_ : nat) (_ : lane_thread), 2) ths).
    + apply tsum_le. intros j' m Hm. pose proof (Hl j' m Hm). lia.
    + clear. induction ths as [|j m ths' Hj IH] using map_ind; [done|]. rewrite !tsum_insert_new by done. lia.
Qed.

(** Nobody gives up a reference that is not there. *)
Lemma lane_ref_bounds j l : h_nsusp h ≤ 2 ^ 29 → ths !! j = Some l → Z.max 0 (refs l.2) ≤ do_ref_cnt g < 2 ^ 31 - 2.
Proof.
  intros Hn Hj. pose proof (refs_range (t_base _ _ _ (v_threads _ _ _ I)) j l Hj). pose proof (c_ref _ _ _ C).
  pose proof (c_size _ _ _ C). pose proof (c_susp _ _ _ C). destruct (counter_bounds Hn) as (_ & _ & ?).
  pose proof (c_held _ _ _ C) as [? ?]. assert (0 ≤ lsum pend ths); [|lia].
  apply lsum_nonneg. intros []; simpl; lia.
Qed.
End Facts.

(** The conditions of a thread without the right. *)
Lemma right_local_zero g h p : right p = 0 → right_local g h p.
Proof.
  destruct p; unfold right; simpl; inner; simpl; try done; intros; lia.
Qed.

(** ** What a step shows *)

Section Update.
Context (g : lane) (h : lane_history) (ths : lthreads) (i : nat) (l : lane_thread).
Context (I : lane_inv g h ths) (Hi : ths !! i = Some l).

Abbreviation tlen g := (Z.of_nat (length (targetq g))).

Lemma counts_update l' g' h' :
  dq_width g' = 1 →
  dq_running g' = dq_running g + own l'.2 - own l.2 + 2 * (signals g' - signals g) →
  lsum right ths - right l.2 + right l'.2 + signals g' ≤ 1 →
  do_suspend_cnt g' = do_suspend_cnt g + lock l'.2 - lock l.2 + (tlen g' - tlen g)
    + 2 * (h_susp h' - h_susp h + grants l'.2 - grants l.2 + signals g' - signals g) →
  lsum lock ths - lock l.2 + lock l'.2 + tlen g' ≤ 1 →
  (∀ x, x ∈ targetq g' → x = T_queue) →
  do_ref_cnt g' = do_ref_cnt g + refs l'.2 - refs l.2 + (tlen g' - tlen g) + (h_susp h' - h_susp h) →
  0 ≤ h_susp h' ≤ h_nsusp h' →
  h_susp h' - h_susp h = h_held h' - h_held h + pend l'.2 - pend l.2 → 0 ≤ h_held h' →
  (∀ s c, semas (store g') !! s = Some c → c = 0 ∨ c = 1 ∧ granted h' s) →
  (h_items h' ≠ [] ∨ h_carry h' ≠ None → h_susp h' = 0 →
     0 < lsum about ths - about l.2 + about l'.2 + tlen g' + signals g') →
  (h_carry h' ≠ None → 0 < lsum right ths - right l.2 + right l'.2 + signals g') →
  lane_counts g' h' (<[i:=l']> ths).
Proof.
  intros Hw Hr Hri Hs Hl Ht Hf Hsu Hpe Hhe Hsi Hab Hca. destruct (v_counts _ _ _ I) as [].
  split; rewrite ?(tsum_step _ _ _ _ l' Hi); try done; try lia.
  rewrite map_size_insert_Some by by eexists. done.
Qed.

Lemma lsum_same (f : lane_pc → Z) l' : f l'.2 = f l.2 → lsum f (<[i:=l']> ths) = lsum f ths.
Proof. intros Hf. rewrite (tsum_step _ _ _ _ l' Hi). lia. Qed.

(** The conditions of the other threads, in another state. *)
Lemma base_other g' h' j m :
  j ≠ i → ths !! j = Some m →
  (∀ n k, m.2 = L_push n k → n ∉ h_pushed h → n ∉ h_pushed h' ∧ (async_cont g n → async_cont g' n)) →
  (∀ n, n ∈ h_pushed h → n ∈ h_pushed h') →
  base_local g' h' m.2.
Proof.
  intros Hne Hj Hp Hin. pose proof (t_base _ _ _ (v_threads _ _ _ I) j m Hj) as Hb.
  destruct m as [tsd p]. simpl in *. destruct p; simpl in *; try done; try (destruct Hb as [Hb1 Hb2]; split; [done|]; eauto); try by apply Hin.
  destruct Hb2 as [Hb2 Hb3]. destruct (Hp _ _ eq_refl Hb2) as [H1 H2]. split; [done|].
  destruct (kwait k) as [[]|]; auto.
Qed.

(** What the step of a thread without the right must leave alone. *)
Record undisturbed (g' : lane) (h' : lane_history) : Prop := Undisturbed {
  u_head : ∀ n, dq_items_head g = Some n → dq_items_head g' = Some n;
  u_carry : h_carry h' = h_carry h;
  u_wait : ∀ n s, h_wait h !! n = Some s → h_wait h' !! n = Some s;
  u_wait_none : ∀ n, h_carry h = Some n → h_wait h !! n = None → h_wait h' !! n = None;
  u_nx : ∀ n x, h_carry h = Some n → nx g n = x → nx g' n = x;
  u_nx_some : ∀ n m, dq_items_head g = Some n → nx g n = Some (Some m) → nx g' n = Some (Some m);
  u_async : ∀ n, h_carry h = Some n → async_cont g n → async_cont g' n
}.

Lemma right_other g' h' j m :
  j ≠ i → ths !! j = Some m → right l.2 = 1 ∨ undisturbed g' h' → right_local g' h' m.2.
Proof.
  intros Hne Hj [Hr|[U1 U2 U3 U3' U4 U5 U6]].
  - apply right_local_zero. by eapply (right_alone g h ths I i l).
  - pose proof (t_right _ _ _ (v_threads _ _ _ I) j m Hj) as Hm. destruct m as [tsd p]. simpl in *. clear Hj.
    assert (∀ x, h_carry h = Some x → known g h x → known g' h' x) as Hk.
    { intros x Hx [?|[s ?]]; [left; by apply U6|right; exists s; by apply U3]. }
    assert (∀ s, granted h s → granted h' s) as Hg.
    { intros s (n & H1 & H2). exists n. rewrite U2. auto. }
    destruct p; unfold right_local in *; inner; rewrite ?U2; try done; try (intros; by apply Hm); auto;
      repeat match goal with H : _ ∧ _ |- _ => destruct H end; split_and?; eauto.
    intros x ->. eauto.
Qed.

(** A step that touches neither the continuations nor the lists nor the
    semaphores. *)
Record same_lists (g' : lane) (h' : lane_history) : Prop := SameLists {
  e_head : dq_items_head g' = dq_items_head g;
  e_tail : dq_items_tail g' = dq_items_tail g;
  e_conts : conts g' = conts g;
  e_next : next_cont g' = next_cont g;
  e_store : store g' = store g;
  e_started : started g' = started g;
  e_items : h_items h' = h_items h;
  e_carry : h_carry h' = h_carry h;
  e_pushed : h_pushed h' = h_pushed h;
  e_wait : h_wait h' = h_wait h
}.

Definition not_push (p : lane_pc) : Prop := ∀ n k, p ≠ L_push n k.

(** The threads. *)
Lemma threads_wait l' g' h' :
  base_local g' h' l'.2 → right_local g' h' l'.2 →
  (∀ j m, j ≠ i → ths !! j = Some m → base_local g' h' m.2 ∧ right_local g' h' m.2) →
  (∀ n s, h_wait h' !! n = Some s ↔
     waiting l'.2 = Some (n, s) ∨ ∃ j m, j ≠ i ∧ ths !! j = Some m ∧ waiting m.2 = Some (n, s)) →
  (∀ n s, waiting l'.2 = Some (n, s) → ∀ j m s', j ≠ i → ths !! j = Some m → waiting m.2 ≠ Some (n, s')) →
  (∀ n k, l'.2 = L_push n k → ∀ j m k', j ≠ i → ths !! j = Some m → m.2 ≠ L_push n k') →
  NoDup (semas_of l') → (∀ s, s ∈ semas_of l' → is_Some (semas (store g') !! s)) →
  (∀ j m s, j ≠ i → ths !! j = Some m → s ∈ semas_of m → is_Some (semas (store g') !! s) ∧ s ∉ semas_of l') →
  lane_threads g' h' (<[i:=l']> ths).
Proof.
  intros Hb Hr Ho Hw Hwu Hp Hnd Hs Hso. destruct (v_threads _ _ _ I) as [T1 T2 T3 T4 T5 T6 T7].
  split.
  - intros j m [[<- <-]|[Hne Hj]]%lookup_insert_Some; [done|by apply (Ho j m)].
  - intros j m [[<- <-]|[Hne Hj]]%lookup_insert_Some; [done|by apply (Ho j m)].
  - intros n s. rewrite Hw. split.
    + intros [H|(j & m & Hne & Hj & Hm)]; [exists i, l'; by rewrite lookup_insert_eq|].
      exists j, m. by rewrite lookup_insert_ne.
    + intros (j & m & [[<- <-]|[Hne Hj]]%lookup_insert_Some & Hm); [by left|right]. by exists j, m.
  - intros j k m m' n s s' [[<- <-]|[Hne Hj]]%lookup_insert_Some [[<- <-]|[Hne' Hk]]%lookup_insert_Some H1 H2; try done.
    + by destruct (Hwu n s H1 k m' s').
    + by destruct (Hwu n s' H2 j m s).
    + by eapply T4.
  - intros j k m m' n ka kb [[<- <-]|[Hne Hj]]%lookup_insert_Some [[<- <-]|[Hne' Hk]]%lookup_insert_Some H1 H2; try done.
    + by destruct (Hp n ka H1 k m' kb).
    + by destruct (Hp n kb H2 j m ka).
    + by eapply T5.
  - intros j m [[<- <-]|[Hne Hj]]%lookup_insert_Some; [done|]. split; [by apply (T6 j m)|]. intros s H. by eapply Hso.
  - intros j k m m' s [[<- <-]|[Hne Hj]]%lookup_insert_Some [[<- <-]|[Hne' Hk]]%lookup_insert_Some H1 H2; try done.
    + by destruct (Hso k m' s) as [_ []].
    + by destruct (Hso j m s) as [_ []].
    + by eapply T7.
Qed.

(** ... when the records that wait and the semaphores are the same. *)
Lemma lthreads_update l' g' h' :
  base_local g' h' l'.2 → right_local g' h' l'.2 →
  (∀ j m, j ≠ i → ths !! j = Some m → base_local g' h' m.2 ∧ right_local g' h' m.2) →
  waiting l'.2 = waiting l.2 → l'.1 = l.1 → h_wait h' = h_wait h →
  (∀ s, is_Some (semas (store g) !! s) → is_Some (semas (store g') !! s)) →
  (∀ n k, l'.2 = L_push n k → ∀ j m k', j ≠ i → ths !! j = Some m → m.2 ≠ L_push n k') →
  lane_threads g' h' (<[i:=l']> ths).
Proof.
  intros Hb Hr Ho Ew Et Eh Es Hp. destruct (v_threads _ _ _ I) as [T1 T2 T3 T4 T5 T6 T7].
  assert (semas_of l' = semas_of l) as Esem by (unfold semas_of; by rewrite Ew, Et).
  apply threads_wait; try done; rewrite ?Ew, ?Esem; try by apply (T6 i l).
  - intros n s. rewrite Eh, T3. split.
    + intros (j & m & Hj & Hm). destruct (decide (j = i)) as [->|Hne]; [left|right; by exists j, m].
      rewrite Hi in Hj. by injection Hj as <-.
    + intros [H|(j & m & _ & Hj & Hm)]; [by exists i, l|by exists j, m].
  - intros n s H j m s' Hne Hj Hm. apply Hne. by eapply T4.
  - intros s H. apply Es. by apply (T6 i l).
  - intros j m s Hne Hj H. split; [apply Es; by apply (T6 j m)|]. intros H'. apply Hne. by eapply T7.
Qed.

Lemma items_same g' h' : same_lists g' h' → lane_items g' h'.
Proof.
  intros [E1 E2 E3 E4 E5 E6 E7 E8 E9 E10]. destruct (v_items _ _ _ I) as [L1 L2 L3 L4 L4' L5 L6].
  split; rewrite ?E3, ?E4, ?E5, ?E6, ?E7, ?E8, ?E9, ?E10; try done.
  - intros x Hx. destruct (L3 x Hx) as [(d & Hd)|Hs]; [left|right].
    + exists d. by rewrite E3.
    + by rewrite E10.
  - intros n s Hn. destruct (L4 n s Hn) as (d & Hd). exists d. by rewrite E3.
Qed.

Lemma undisturbed_same g' h' : same_lists g' h' → undisturbed g' h'.
Proof.
  intros [E1 E2 E3 E4 E5 E6 E7 E8 E9 E10]. split; unfold nx, async_cont; rewrite ?E1, ?E3, ?E8, ?E10; done.
Qed.

Lemma about_others :
  lsum right ths - right l.2 ≤ lsum about ths - about l.2 ∧ lsum lock ths - lock l.2 ≤ lsum about ths - about l.2.
Proof.
  rewrite <- (insert_delete_id ths i l Hi), !tsum_insert_new by apply lookup_delete_eq.
  pose proof (lsum_le right about (delete i ths) (λ p, proj1 (about_ge p))).
  pose proof (lsum_le lock about (delete i ths) (λ p, proj1 (proj2 (about_ge p)))). lia.
Qed.

Lemma quiet l' g' h' :
  same_lists g' h' → lane_counts g' h' (<[i:=l']> ths) →
  opener l' = opener l → linking l' = linking l → waiting l'.2 = waiting l.2 → l'.1 = l.1 →
  (∀ n k, l'.2 ≠ L_push n k) → base_local g h l'.2 → right_local g h l'.2 →
  lane_inv g' h' (<[i:=l']> ths).
Proof.
  intros E Hc Eo El Ew Et Hp Hb Hr. pose proof (undisturbed_same g' h' E) as U.
  assert (∀ n, async_cont g n → async_cont g' n) as Ha.
  { intros n (d & Hd). exists d. by rewrite (e_conts _ _ E). }
  split; [done| |by apply items_same|].
  - rewrite (e_head _ _ E), (e_tail _ _ E), (e_items _ _ E).
    eapply mpsc_neutral; [apply I|done| |done|done]. intros x _. unfold nx. by rewrite (e_conts _ _ E).
  - apply lthreads_update; rewrite ?(e_wait _ _ E), ?(e_store _ _ E); try done.
    + destruct l' as [tsd p]. simpl in *. destruct p; simpl in *; rewrite ?(e_pushed _ _ E); try done. by destruct (Hp n k).
    + destruct l' as [tsd p]. simpl in *. clear Hc. destruct E as [E1 E2 E3 E4 E5 E6 E7 E8 E9 E10]. destruct p; unfold right_local, granted, known, async_cont, nx in *; inner; rewrite ?E1, ?E3, ?E8, ?E10; done.
    + intros j m Hne Hj. split; [|by apply (right_other g' h' j m); [..|right]].
      apply (base_other g' h' j m); try done; rewrite (e_pushed _ _ E); [|done]. intros n k _ Hn. auto.
    + intros n k H. by destruct (Hp n k).
Qed.

(** A step that changes the program point only. *)
Lemma move l' :
  own l'.2 = own l.2 → pend l'.2 = pend l.2 → lock l'.2 = lock l.2 → grants l'.2 = grants l.2 → refs l'.2 = refs l.2 →
  (about l.2 ≤ about l'.2 ∨
   (h_items h ≠ [] ∨ h_carry h ≠ None → h_susp h = 0 → 0 < lsum about ths - about l.2 + tlen g + signals g)) →
  opener l' = opener l → linking l' = linking l → waiting l'.2 = waiting l.2 → l'.1 = l.1 →
  (∀ n k, l'.2 ≠ L_push n k) → base_local g h l'.2 → right_local g h l'.2 →
  lane_inv g h (<[i:=l']> ths).
Proof.
  intros Eo Epe El Eg Er Hab. intros. apply quiet; try done.
  assert (right l'.2 = right l.2) as Eri by (unfold right; by rewrite Eo).
  pose proof (c_about _ _ _ (v_counts _ _ _ I)) as c_about0. pose proof (c_carry _ _ _ (v_counts _ _ _ I)) as c_carry0.
  destruct (v_counts _ _ _ I). destruct (about_ge l'.2) as (_ & _ & ?). apply counts_update; try done; rewrite ?Eo, ?Epe, ?El, ?Eg, ?Er, ?Eri; try lia.
  - intros Hne Hsu. destruct Hab as [Hab|Hab]; [specialize (c_about0 Hne Hsu); lia|specialize (Hab Hne Hsu); lia].
  - intros Hc. specialize (c_carry0 Hc). lia.
Qed.

(** A step that changes the counters, and the list of the target. *)
Definition counted (r s f : Z) (b : bool) (q : list target_item) (g : lane) : lane :=
  set_targetq q (set_listless b (set_ref_cnt f (set_suspend_cnt s (set_running r g)))).

Lemma counters_step l' r s f b q su nsu he ov :
  let h' := LHist (h_items h) (h_carry h) (h_pushed h) (h_wait h) su nsu he ov in
  let dq := Z.of_nat (length q) - tlen g in
  r = dq_running g + own l'.2 - own l.2 → lsum right ths - right l.2 + right l'.2 + signals g ≤ 1 →
  s = do_suspend_cnt g + lock l'.2 - lock l.2 + dq + 2 * (su - h_susp h + grants l'.2 - grants l.2) →
  lsum lock ths - lock l.2 + lock l'.2 + Z.of_nat (length q) ≤ 1 → (∀ x, x ∈ q → x = T_queue) →
  f = do_ref_cnt g + refs l'.2 - refs l.2 + dq + (su - h_susp h) → 0 ≤ su ≤ nsu →
  su - h_susp h = he - h_held h + pend l'.2 - pend l.2 → 0 ≤ he →
  (h_items h ≠ [] ∨ h_carry h ≠ None → su = 0 →
     0 < lsum about ths - about l.2 + about l'.2 + Z.of_nat (length q) + signals g) →
  (h_carry h ≠ None → 0 < lsum right ths - right l.2 + right l'.2 + signals g) →
  opener l' = opener l → linking l' = linking l → waiting l'.2 = waiting l.2 → l'.1 = l.1 →
  (∀ n k, l'.2 ≠ L_push n k) → base_local g h l'.2 → right_local g h l'.2 →
  lane_inv (counted r s f b q g) h' (<[i:=l']> ths).
Proof.
  intros h' dq -> Hri -> Hlo Hq -> Hsu Hpe Hhe Hab Hca. intros. apply quiet; try done. destruct (v_counts _ _ _ I).
  apply counts_update; try done; change (signals (counted _ _ _ _ _ g)) with (signals g); simpl; subst dq; try lia.
Qed.

(** ... and nothing of the history. *)
Lemma target_step l' r s f b q :
  let dq := Z.of_nat (length q) - tlen g in
  r = dq_running g + own l'.2 - own l.2 → lsum right ths - right l.2 + right l'.2 + signals g ≤ 1 →
  s = do_suspend_cnt g + lock l'.2 - lock l.2 + dq + 2 * (grants l'.2 - grants l.2) →
  lsum lock ths - lock l.2 + lock l'.2 + Z.of_nat (length q) ≤ 1 → (∀ x, x ∈ q → x = T_queue) →
  f = do_ref_cnt g + refs l'.2 - refs l.2 + dq → pend l'.2 = pend l.2 →
  (h_items h ≠ [] ∨ h_carry h ≠ None → h_susp h = 0 →
     0 < lsum about ths - about l.2 + about l'.2 + Z.of_nat (length q) + signals g) →
  (h_carry h ≠ None → 0 < lsum right ths - right l.2 + right l'.2 + signals g) →
  opener l' = opener l → linking l' = linking l → waiting l'.2 = waiting l.2 → l'.1 = l.1 →
  (∀ n k, l'.2 ≠ L_push n k) → base_local g h l'.2 → right_local g h l'.2 →
  lane_inv (counted r s f b q g) h (<[i:=l']> ths).
Proof.
  intros dq Hr Hri Hs Hlo Hq Hf Hpe Hab Hca. intros. pose proof (c_held _ _ _ (v_counts _ _ _ I)) as [? ?].
  pose proof (c_susp _ _ _ (v_counts _ _ _ I)) as Hsu.
  replace h with (LHist (h_items h) (h_carry h) (h_pushed h) (h_wait h) (h_susp h) (h_nsusp h) (h_held h) (h_over h)) by (by destruct h).
  apply counters_step; try done; subst dq; lia.
Qed.

(** ... nor the target. *)
Lemma count_same l' r s f b :
  r = dq_running g + own l'.2 - own l.2 → lsum right ths - right l.2 + right l'.2 + signals g ≤ 1 →
  s = do_suspend_cnt g + lock l'.2 - lock l.2 + 2 * (grants l'.2 - grants l.2) →
  lsum lock ths - lock l.2 + lock l'.2 + tlen g ≤ 1 →
  f = do_ref_cnt g + refs l'.2 - refs l.2 → pend l'.2 = pend l.2 →
  (h_items h ≠ [] ∨ h_carry h ≠ None → h_susp h = 0 → 0 < lsum about ths - about l.2 + about l'.2 + tlen g + signals g) →
  (h_carry h ≠ None → 0 < lsum right ths - right l.2 + right l'.2 + signals g) →
  opener l' = opener l → linking l' = linking l → waiting l'.2 = waiting l.2 → l'.1 = l.1 →
  (∀ n k, l'.2 ≠ L_push n k) → base_local g h l'.2 → right_local g h l'.2 →
  lane_inv (counted r s f b (targetq g) g) h (<[i:=l']> ths).
Proof.
  intros. apply target_step; try done; try lia. apply (v_counts _ _ _ I).
Qed.
End Update.
