(* ===== verification/LaneQuiet.v ===== *)
(** * The scheduling of a queue: the steps that leave the lists alone *)

From S2P Require Import Prelude Conc Mpsc ThreadSema Lane LaneInv LaneStep.

(** The counters, when they do not wrap. *)
Lemma retain_small p g : 0 ≤ do_ref_cnt g < 2 ^ 31 - 1 → _dispatch_retain p g = (p, set_ref_cnt (do_ref_cnt g + 1) g).
Proof. intros H. unfold _dispatch_retain. rewrite wrapS_small by (consts; lia). by rewrite decide_True by lia. Qed.

Lemma release_small p g : 1 ≤ do_ref_cnt g < 2 ^ 31 - 1 → _dispatch_release p g = (p, set_ref_cnt (do_ref_cnt g - 1) g).
Proof. intros H. unfold _dispatch_release. rewrite wrapS_small by (consts; lia). by rewrite decide_True by lia. Qed.

Lemma add_running_small n g : 0 ≤ dq_running g + n < 2 ^ 32 → add_running n g = set_running (dq_running g + n) g.
Proof. intros H. unfold add_running. by rewrite wrapU_small. Qed.

Lemma add_suspend_small n g :
  0 ≤ do_suspend_cnt g + n < 2 ^ 32 → add_suspend_cnt n g = set_suspend_cnt (do_suspend_cnt g + n) g.
Proof. intros H. unfold add_suspend_cnt. by rewrite wrapU_small. Qed.

Section Quiet.
Context (g : lane) (h : lane_history) (ths : lthreads) (i : nat) (tsd : option nat).
Context (I : lane_inv g h ths) (Hn : h_nsusp h ≤ 2 ^ 29).

Definition at_pc (p : lane_pc) : Prop := ths !! i = Some (tsd, p).
Definition lane_next (p p' : lane_pc) (g' : lane) : Prop := lane_inv g' (lane_log p p' h) (<[i:=(tsd, p')]> ths).

Abbreviation tlen g := (Z.of_nat (length (targetq g))).

(** Facts at a program point. *)
Lemma at_base p : at_pc p → base_local g h p.
Proof. intros Hp. exact (t_base _ _ _ (v_threads _ _ _ I) i _ Hp). Qed.

Lemma at_right p : at_pc p → right_local g h p.
Proof. intros Hp. exact (t_right _ _ _ (v_threads _ _ _ I) i _ Hp). Qed.

Definition pc_facts (p : lane_pc) : Prop :=
  (0 ≤ dq_running g ≤ 3 ∧ 0 ≤ do_suspend_cnt g ≤ 2 ^ 30 + 8 ∧ Z.max 0 (refs p) ≤ do_ref_cnt g < 2 ^ 31 - 2) ∧
  (right p ≤ lsum right ths ∧ lock p ≤ lsum lock ths ∧ grants p ≤ lsum grants ths ∧ pend p ≤ lsum pend ths ∧
   own p ≤ lsum own ths) ∧
  (0 ≤ signals g ∧ lsum right ths + signals g ≤ 1 ∧ lsum lock ths + tlen g ≤ 1 ∧ 0 ≤ tlen g) ∧
  (do_suspend_cnt g = lsum lock ths + tlen g + 2 * (h_susp h + lsum grants ths + signals g) ∧
   dq_running g = lsum own ths + 2 * signals g) ∧
  (0 ≤ h_susp h ≤ h_nsusp h ∧ h_susp h = h_held h + lsum pend ths ∧ 0 ≤ h_held h) ∧
  (h_items h ≠ [] ∨ h_carry h ≠ None → h_susp h = 0 → 0 < lsum about ths + tlen g + signals g) ∧
  (h_carry h ≠ None → 0 < lsum right ths + signals g).

Lemma at_facts p : at_pc p → pc_facts p.
Proof.
  intros Hp. pose proof (v_counts _ _ _ I) as C. destruct (counter_bounds g h ths I Hn) as (? & ? & ?).
  unfold pc_facts.
  split_and!; try lia; try apply C; try apply (lane_ref_bounds g h ths I i _ Hn Hp); try apply (signals_nonneg g h ths I);
    eapply (lsum_one _ ths i (tsd, p)); try exact Hp; intros q; pose proof (right_range q); pose proof (lock_range q);
    pose proof (grants_range q); pose proof (own_range q); try lia; by destruct q.
Qed.

(** A thread that moves on while others have work to do, or nobody has. *)
Lemma others_right p : at_pc p → right p < lsum right ths + signals g →
  0 < lsum about ths - about p + tlen g + signals g.
Proof.
  intros Hp Hr. pose proof (about_others ths i (tsd, p) Hp) as [H _]. simpl in H.
  pose proof (signals_nonneg _ _ _ I). lia.
Qed.

Lemma others_lock p : at_pc p → lock p < lsum lock ths + tlen g →
  0 < lsum about ths - about p + tlen g + signals g.
Proof.
  intros Hp Hr. pose proof (about_others ths i (tsd, p) Hp) as [_ H]. simpl in H.
  pose proof (signals_nonneg _ _ _ I). lia.
Qed.

(** Somebody else wakes a queue that is suspended, though not by a client. *)
Lemma others_suspended p : at_pc p → lock p + 2 * grants p < do_suspend_cnt g → h_susp h = 0 → right p = grants p →
  0 < lsum about ths - about p + tlen g + signals g.
Proof.
  intros Hp Hs Hz Hr. pose proof (at_facts p Hp) as (? & ? & ? & ? & _).
  destruct (sums_range ths) as (_ & _ & ? & _).
  destruct (decide (lock p < lsum lock ths + tlen g)); [by apply others_lock|]. apply others_right; [done|]. lia.
Qed.

Lemma others_carry p : at_pc p → right p = 0 → h_items h = [] → h_items h ≠ [] ∨ h_carry h ≠ None →
  0 < lsum about ths - about p + tlen g + signals g.
Proof.
  intros Hp Hr He [|Hc]; [done|]. apply others_right; [done|]. pose proof (c_carry _ _ _ (v_counts _ _ _ I) Hc). lia.
Qed.

Lemma others_running p : at_pc p → right p = 0 → dq_running g ≠ 0 → 0 < lsum about ths - about p + tlen g + signals g.
Proof. intros Hp Hr Hz. apply others_right; [done|]. rewrite Hr. by apply (running_pos g h). Qed.

(** The tail is null exactly when the list is empty. *)
Lemma tail_empty : dq_items_tail g = None ↔ h_items h = [].
Proof. rewrite (q_tail _ _ _ _ _ _ _ (v_list _ _ _ I)). apply last_None. Qed.

(** *** Tactics *)

Ltac csimp := cbn -[Z.add Z.sub Z.mul Z.of_nat Z.pow Z.max].

Ltac csimp_in H := cbn -[Z.add Z.sub Z.mul Z.of_nat Z.pow Z.max] in H.

(** What lia shows of the weights. *)
Ltac weigh :=
  try done; try lia;
  try (let H1 := fresh in let H2 := fresh in intros H1 H2;
    match goal with H : _ ∨ _ → _ = _ → 0 < _ |- _ => specialize (H H1 H2); lia end);
  try (let H1 := fresh in intros H1; match goal with H : h_carry h ≠ None → _ |- _ => specialize (H H1); lia end).

(** Another program point in the same state; other counters. *)
Ltac mv Hp := apply (move g h ths i _ I Hp); csimp; try done; try lia; try (by split); try (by left).
Ltac cnt Hp r s f b := apply (count_same g h ths i _ I Hp _ r s f b); csimp; weigh; try (by split).

(** The facts at [p]; a step of a function. *)
Ltac facts Hp :=
  pose proof (at_base _ Hp) as Hb; pose proof (at_right _ Hp) as Hrl;
  pose proof (at_facts _ Hp) as (Hrng & Hge & Hcap & Hdef & Hsus & Hab & Hca);
  cbn -[Z.add Z.sub Z.mul Z.of_nat Z.pow Z.max] in Hge, Hrng.

Ltac small Hs :=
  unfold DISPATCH_OBJECT_SUSPEND_LOCK, DISPATCH_OBJECT_SUSPEND_INTERVAL in Hs;
  rewrite ?retain_small, ?release_small, ?add_running_small, ?add_suspend_small in Hs by (simpl in *; lia).

(** *** Waking up *)

(** Where a continuation leads. *)
Lemma resume_weights k : kont_ok k = true →
  (own (resume_kont k) = 0 ∧ right (resume_kont k) = 0 ∧ lock (resume_kont k) = 0 ∧ grants (resume_kont k) = 0 ∧
   refs (resume_kont k) = krefs k ∧ pend (resume_kont k) = 0 ∧ about (resume_kont k) = 0) ∧
  opener (tsd, resume_kont k) = None ∧ linking (tsd, resume_kont k) = None ∧ waiting (resume_kont k) = kwait k ∧
  (∀ n k', resume_kont k ≠ L_push n k') ∧
  ((∀ n s, kwait k = Some (n, s) → n ∈ h_pushed h) → base_local g h (resume_kont k)) ∧
  right_local g h (resume_kont k) ∧ (∀ p, lane_log p (resume_kont k) h = lane_log p L_idle h).
Proof.
  destruct k as [|n s ctxt func| | | |k]; simpl; try done; intros Hk; split_and!; try done.
  all: try (by intros []).
  - intros H. by apply (H n s).
  - intros H. split; [|done]. by destruct k.
Qed.

Definition waking (p : lane_pc) : option kont :=
  match p with L_wake k | L_wake_tail k | L_wake_cas k => Some k | _ => None end.

(** From a wake-up that has nothing to do. *)
Lemma wake_done p k : at_pc p → waking p = Some k →
  (h_items h ≠ [] ∨ h_carry h ≠ None → h_susp h = 0 → 0 < lsum about ths - about p + tlen g + signals g) →
  lane_next p (resume_kont k) g.
Proof.
  intros Hp Hk Hab. pose proof (at_base p Hp) as Hb.
  assert (kont_ok k = true ∧ ∀ n s, kwait k = Some (n, s) → n ∈ h_pushed h) as [H1 H2].
  { destruct p; try done; injection Hk as ->; exact Hb. }
  destruct (resume_weights k H1) as ((E1 & E2 & E3 & E4 & E5 & E6 & E7) & E8 & E9 & E10 & E11 & E12 & E13 & E14).
  unfold lane_next. rewrite E14.
  assert (lane_log p L_idle h = h) as -> by (by destruct p).
  apply (move g h ths i _ I Hp); cbn [fst snd]; rewrite ?E1, ?E3, ?E4, ?E5, ?E6, ?E7, ?E8, ?E9, ?E10; auto;
    by destruct p; try done; injection Hk as ->.
Qed.

Lemma wake_step p p' g' : at_pc p → _dispatch_wakeup p g = Some (p', g') → lane_next p p' g'.
Proof.
  intros Hp Hs. destruct p; cbn [_dispatch_wakeup] in Hs; try done; facts Hp.
  - apply some_pair in Hs as [-> ->]. destruct (DISPATCH_OBJECT_SUSPENDED g) eqn:E; [|mv Hp].
    apply wake_done; try done. intros _ Hz. apply others_suspended; try done. simpl.
    apply Z.leb_le in E. unfold DISPATCH_OBJECT_SUSPEND_INTERVAL in E. lia.
  - apply some_pair in Hs as [-> ->]. case_decide as Ht; [|mv Hp].
    apply wake_done; try done. intros Hne _. apply others_carry; try done. by apply tail_empty.
  - case_decide as Hz; apply some_pair in Hs as [-> ->].
    + cnt Hp (dq_running g) 1 (do_ref_cnt g) (do_listless g).
    + apply wake_done; try done. intros _ Hz'. apply others_suspended; try done. simpl. lia.
  - small Hs. apply some_pair in Hs as [-> ->].
    cnt Hp (dq_running g) (do_suspend_cnt g) (do_ref_cnt g + 1) (do_listless g).
  - apply some_pair in Hs as [-> ->]. destruct Hb as [Hk Hin].
    destruct (resume_weights k Hk) as ((E1 & E2 & E3 & E4 & E5 & E6 & E7) & E8 & E9 & E10 & E11 & E12 & E13 & E14).
    unfold lane_next. rewrite E14.
    assert (∀ x, x ∈ targetq g ++ [T_queue] → x = T_queue) as Ht.
    { intros x [Hx|Hx]%elem_of_app; [by apply (c_target _ _ _ (v_counts _ _ _ I))|by apply list_elem_of_singleton]. }
    apply (target_step g h ths i _ I Hp _ (dq_running g) (do_suspend_cnt g) (do_ref_cnt g) false (targetq g ++ [T_queue]));
      cbn [fst snd]; rewrite ?length_app, ?E1, ?E2, ?E3, ?E4, ?E5, ?E6, ?E7, ?E8, ?E9, ?E10; cbn -[Z.add Z.sub Z.of_nat] in *; auto; weigh.
Qed.

Lemma release_step k p' g' : at_pc (L_release k) →
  _dispatch_release (resume_kont k) g = (p', g') → lane_next (L_release k) p' g'.
Proof.
  intros Hp Hs. facts Hp. destruct Hb as [Hk Hin].
  destruct (resume_weights k Hk) as ((E1 & E2 & E3 & E4 & E5 & E6 & E7) & E8 & E9 & E10 & E11 & E12 & E13 & E14).
  pose proof (krefs_range k Hk). small Hs. injection Hs as <- <-. unfold lane_next. rewrite E14.
  apply (count_same g h ths i _ I Hp _ (dq_running g) (do_suspend_cnt g) (do_ref_cnt g - 1) (do_listless g));
    cbn [fst snd]; rewrite ?E1, ?E2, ?E3, ?E4, ?E5, ?E6, ?E7, ?E8, ?E9, ?E10; csimp; auto; weigh.
Qed.

(** *** Invoking and draining *)

(** Whoever sets [dq_running] from 0 gets the right. *)
Lemma carry_none : dq_running g = 0 → h_carry h = None.
Proof.
  intros Hz. destruct (running_zero g h ths I Hz) as [? ?]. destruct (h_carry h) eqn:E; [|done].
  assert (0 < lsum right ths + signals g); [|lia]. apply (v_counts _ _ _ I). by rewrite E.
Qed.

Lemma invoke_step p p' g' : at_pc p → (∀ s, p ≠ L_inv_signal s) →
  _dispatch_queue_invoke p g = Some (p', g') → lane_next p p' g'.
Proof.
  intros Hp Hne Hs. destruct p; cbn [_dispatch_queue_invoke] in Hs; try done; facts Hp.
  - apply some_pair in Hs as [-> ->]. destruct (DISPATCH_OBJECT_SUSPENDED g); mv Hp.
  - case_decide as Hz; apply some_pair in Hs as [-> ->]; [|mv Hp].
    destruct (running_zero g h ths I Hz) as [? ?]. pose proof (carry_none Hz).
    cnt Hp 1 (do_suspend_cnt g) (do_ref_cnt g) (do_listless g).
  - destruct sema as [s|]; csimp_in Hge; small Hs; apply some_pair in Hs as [-> ->].
    + cnt Hp (dq_running g - 1) (do_suspend_cnt g) (do_ref_cnt g) (do_listless g).
    + cnt Hp (dq_running g - 1) (do_suspend_cnt g) (do_ref_cnt g) (do_listless g). by rewrite (Hrl eq_refl).
  - by destruct (Hne sema).
  - apply some_pair in Hs as [-> ->]. cnt Hp (dq_running g) (do_suspend_cnt g) (do_ref_cnt g) true.
  - small Hs; apply some_pair in Hs as [-> ->]. case_decide as Hz.
    + cnt Hp (dq_running g) (do_suspend_cnt g + - (1)) (do_ref_cnt g) (do_listless g).
    + cnt Hp (dq_running g) (do_suspend_cnt g + - (1)) (do_ref_cnt g) (do_listless g).
      intros _ H2. pose proof (others_suspended _ Hp) as Ho. csimp_in Ho. simpl in Hz. specialize (Ho ltac:(lia) H2 eq_refl). lia.
  - apply some_pair in Hs as [-> ->]. case_decide as Hz; [mv Hp|]. mv Hp.
    right. intros _ _. by apply (others_running L_inv_running).
Qed.

(** What the item in hand is. *)
Lemma pop_known dc : known g h dc →
  (_dispatch_barrier_sync_f_pop dc g = Some None ∧ async_cont g dc) ∨
  (∃ s, _dispatch_barrier_sync_f_pop dc g = Some (Some s) ∧ h_wait h !! dc = Some s).
Proof.
  unfold _dispatch_barrier_sync_f_pop. intros [(d & Hd & H1 & H2)|[s Hs]].
  - left. rewrite Hd. simpl. rewrite H2. split; [done|]. by exists d.
  - right. exists s. destruct (i_wait _ _ (v_items _ _ _ I) _ _ Hs) as (d & Hd & H1 & H2). rewrite Hd. simpl. by rewrite H1, H2.
Qed.

Lemma known_conts dc : known g h dc → ∃ d, conts g !! dc = Some d.
Proof.
  intros [(d & Hd & _)|[s Hs]]; [by exists d|]. destruct (i_wait _ _ (v_items _ _ _ I) _ _ Hs) as (d & Hd & _). by exists d.
Qed.

(** The head is an item of the list. *)
Lemma head_known dc : dq_items_head g = Some dc → known g h dc.
Proof.
  intros Hh. apply (i_known _ _ (v_items _ _ _ I)). pose proof (q_head _ _ _ _ _ _ _ (v_list _ _ _ I) dc Hh) as H.
  destruct (h_items h); [done|]. injection H as ->. by left.
Qed.

Definition drain_quiet (p : lane_pc) : Prop :=
  match p with
  | L_dr_tail | L_dr_head | L_dr_width _ _ | L_dr_pop _ _ | L_dr_pop_suspend _ _ _ | L_dr_pop_running _ _ _ | L_dr_run _
  | L_out_spin _ => True
  | L_dr_suspended _ next => next = None ∨ DISPATCH_OBJECT_SUSPENDED g = false
  | L_out_cas _ => dq_items_tail g ≠ None
  | _ => False
  end.

Lemma drain_step p p' g' : at_pc p → drain_quiet p → _dispatch_queue_drain p g = Some (p', g') → lane_next p p' g'.
Proof.
  intros Hp Hq Hs. destruct p; try done; cbn [_dispatch_queue_drain] in Hs; facts Hp.
  - apply some_pair in Hs as [-> ->]. case_decide; mv Hp.
  - apply some_pair in Hs as [-> ->]. destruct (dq_items_head g) as [dc|] eqn:E; mv Hp. split; [done|by apply Hrl].
  - apply some_pair in Hs as [-> ->]. destruct (DISPATCH_OBJECT_SUSPENDED g) eqn:E; [|mv Hp].
    destruct Hq as [->|]; [|congruence]. mv Hp.
  - apply some_pair in Hs as [-> ->]. pose proof (running_alone g h ths I i _ Hp eq_refl) as Ha. simpl in Ha.
    pose proof (c_width _ _ _ (v_counts _ _ _ I)) as Hw. rewrite decide_False by lia. rewrite decide_True by done. mv Hp.
  - apply some_pair in Hs as [-> ->]. destruct Hrl as (H1 & H2 & H3).
    destruct (pop_known dc H3) as [[-> ?]|(s & -> & ?)]; mv Hp.
  - small Hs. apply some_pair in Hs as [-> ->]. cnt Hp (dq_running g) (do_suspend_cnt g + 2) (do_ref_cnt g) (do_listless g).
  - small Hs. apply some_pair in Hs as [-> ->]. destruct Hrl as [H1 H2].
    destruct next as [m|]; cnt Hp (dq_running g + 2) (do_suspend_cnt g) (do_ref_cnt g) (do_listless g); by exists dc.
  - apply some_pair in Hs as [-> ->]. destruct next; mv Hp.
  - rewrite decide_False in Hs by done. apply some_pair in Hs as [-> ->]. mv Hp.
  - apply some_pair in Hs as [-> ->]. destruct Hrl as (H1 & H2 & H3). destruct (dq_items_head g) eqn:E; mv Hp.
Qed.

(** *** Synchronous submission *)

Lemma barrier_sync_step p p' g' : at_pc p → dispatch_barrier_sync_f p g = Some (p', g') → lane_next p p' g'.
Proof.
  intros Hp Hs. destruct p; cbn [dispatch_barrier_sync_f] in Hs; try done; facts Hp.
  - apply some_pair in Hs as [-> ->]. case_decide; mv Hp.
  - apply some_pair in Hs as [-> ->]. destruct (DISPATCH_OBJECT_SUSPENDED g); mv Hp.
  - case_decide as Hz; apply some_pair in Hs as [-> ->]; [|mv Hp].
    destruct (running_zero g h ths I Hz) as [? ?]. pose proof (carry_none Hz).
    cnt Hp 1 (do_suspend_cnt g) (do_ref_cnt g) (do_listless g).
Qed.

Lemma barrier_invoke_step p p' g' : at_pc p → _dispatch_barrier_sync_f_invoke p g = Some (p', g') → lane_next p p' g'.
Proof.
  intros Hp Hs. destruct p; cbn [_dispatch_barrier_sync_f_invoke] in Hs; try done; facts Hp; apply some_pair in Hs as [-> ->].
  - apply (quiet g h ths i _ I Hp); csimp; try done.
    + split; try done. unfold started. simpl. rewrite omap_app. simpl. by rewrite app_nil_r.
    + destruct (v_counts _ _ _ I). apply (counts_update g h ths i _ I Hp); csimp; try done; try lia; change (signals (log_callout _ g)) with (signals g); weigh.
  - mv Hp.
  - case_decide; mv Hp.
Qed.

Lemma barrier_f2_step p p' g' : at_pc p → (∀ s, p ≠ L_signal s) →
  _dispatch_barrier_sync_f2 p g = Some (p', g') → lane_next p p' g'.
Proof.
  intros Hp Hne Hs. destruct p; cbn [_dispatch_barrier_sync_f2] in Hs; try done; facts Hp.
  - apply some_pair in Hs as [-> ->]. destruct (DISPATCH_OBJECT_SUSPENDED g); mv Hp.
  - small Hs. apply some_pair in Hs as [-> ->]. pose proof (running_alone g h ths I i _ Hp eq_refl) as Ha. simpl in Ha.
    rewrite decide_True by (simpl; lia). cnt Hp (dq_running g + -1) (do_suspend_cnt g) (do_ref_cnt g) (do_listless g).
    by rewrite (Hrl eq_refl).
  - small Hs. apply some_pair in Hs as [-> ->]. cnt Hp (dq_running g) (do_suspend_cnt g + 2) (do_ref_cnt g) (do_listless g).
  - small Hs. apply some_pair in Hs as [-> ->]. cnt Hp (dq_running g + 1) (do_suspend_cnt g) (do_ref_cnt g) (do_listless g).
  - by destruct (Hne sema).
Qed.

Lemma barrier_slow_step p p' g' :
  at_pc p → match p with L_brun | L_bcheck | L_bcheck_running | L_bresume | L_bdec => True | _ => False end →
  _dispatch_barrier_sync_f_slow tsd p g = Some ((tsd, p'), g') → lane_next p p' g'.
Proof.
  intros Hp Hne Hs. destruct p; try done; cbn -[add_running add_suspend_cnt Z.mul] in Hs; facts Hp.
  - injection Hs as <- <-. mv Hp.
  - injection Hs as <- <-. case_decide; mv Hp.
  - injection Hs as <- <-. case_decide; mv Hp.
  - small Hs. injection Hs as <- <-. cnt Hp (dq_running g) (do_suspend_cnt g + -(2)) (do_ref_cnt g) (do_listless g).
  - small Hs. injection Hs as <- <-. pose proof (running_alone g h ths I i _ Hp eq_refl) as Ha. simpl in Ha.
    rewrite decide_True by (simpl; lia). cnt Hp (dq_running g + -2) (do_suspend_cnt g) (do_ref_cnt g) (do_listless g).
    by rewrite (Hrl eq_refl).
Qed.

Lemma one_step p p' g' : at_pc p → match p with L_one _ | L_one_next _ _ _ => True | _ => False end →
  _dispatch_queue_drain_one_barrier_sync p g = Some (p', g') → lane_next p p' g'.
Proof.
  intros Hp Hne Hs. destruct p; try done; cbn [_dispatch_queue_drain_one_barrier_sync] in Hs; facts Hp; apply some_pair in Hs as [-> ->].
  - destruct (dq_items_head g) as [dc|] eqn:E; [|destruct o; mv Hp].
    destruct (pop_known dc (head_known dc E)) as [[-> ?]|(s & -> & ?)]; destruct o; mv Hp; split_and!; try done; by apply Hrl.
  - destruct Hrl as (H1 & H2 & H3). destruct (known_conts dc) as [d Hd]; [right; by exists sema|]. rewrite Hd.
    destruct o; mv Hp; split_and!; try done; intros m Hm; unfold nx; rewrite Hd; done.
Qed.

(** *** Suspension *)

Lemma suspend_step p p' g' : at_pc p → h_nsusp (lane_log p p' h) ≤ 2 ^ 29 →
  dispatch_suspend p g = Some (p', g') → lane_next p p' g'.
Proof.
  intros Hp Hle Hs. destruct p; cbn [dispatch_suspend] in Hs; try done; facts Hp; small Hs; apply some_pair in Hs as [-> ->].
  - apply (counters_step g h ths i _ I Hp _ (dq_running g) (do_suspend_cnt g + 2) (do_ref_cnt g) (do_listless g) (targetq g));
      csimp; weigh. by apply (v_counts _ _ _ I).
  - apply (counters_step g h ths i _ I Hp _ (dq_running g) (do_suspend_cnt g) (do_ref_cnt g + 1) (do_listless g) (targetq g));
      csimp; weigh. by apply (v_counts _ _ _ I).
Qed.

Lemma resume_step p' g' : at_pc L_resume → h_over (lane_log L_resume p' h) = false →
  dispatch_resume g = (p', g') → lane_next L_resume p' g'.
Proof.
  intros Hp Hov Hs. facts Hp. simpl in Hov. apply orb_false_iff in Hov as [_ Hov]. unfold dispatch_resume in Hs. cbn zeta in Hs.
  assert (u32 (do_suspend_cnt (add_suspend_cnt (- DISPATCH_OBJECT_SUSPEND_INTERVAL) g) + DISPATCH_OBJECT_SUSPEND_INTERVAL)
    = do_suspend_cnt g) as E.
  { unfold DISPATCH_OBJECT_SUSPEND_INTERVAL. rewrite add_suspend_small by lia. simpl. rewrite wrapU_small by (consts; lia). lia. }
  rewrite E in Hs. unfold DISPATCH_OBJECT_SUSPEND_INTERVAL in Hs. rewrite add_suspend_small in Hs by lia. injection Hs as <- <-.
  case_decide as H2; [|rewrite decide_True by lia];
    apply (counters_step g h ths i _ I Hp _ (dq_running g) (do_suspend_cnt g + -(2)) (do_ref_cnt g) (do_listless g) (targetq g)
      (h_susp h - 1) (h_nsusp h) (h_held h - 1) (h_over h || (h_held h <=? 0)));
    csimp; weigh; try (by split); try by apply (v_counts _ _ _ I).
  all: destruct (sums_range ths) as (_ & _ & Hgr & Ha); intros _ Hz; try lia.
  pose proof (others_lock L_resume Hp) as Ho1. pose proof (others_right L_resume Hp) as Ho2. csimp_in Ho1. csimp_in Ho2.
  destruct (decide (0 < lsum lock ths + tlen g)) as [Hl|Hl]; [specialize (Ho1 Hl)|specialize (Ho2 ltac:(lia))]; lia.
Qed.

(** *** Calls *)

Lemma async_step c p p' g' : at_pc p → dispatch_async_f c p g = Some (p', g') → lane_next p p' g'.
Proof.
  intros Hp Hs. destruct p; cbn [dispatch_async_f] in Hs; try done; facts Hp; [|done]. apply some_pair in Hs as [-> ->].
  rewrite decide_True by apply I. mv Hp.
Qed.

Lemma sync_step p p' g' : at_pc p → dispatch_sync_f p g = Some (p', g') → lane_next p p' g'.
Proof.
  intros Hp Hs. destruct p; cbn [dispatch_sync_f] in Hs; try done; facts Hp. apply some_pair in Hs as [-> ->].
  rewrite decide_True by apply I. mv Hp.
Qed.

Lemma begin_step c p' g' : at_pc L_idle → lane_begin c g = Some (p', g') → lane_next L_idle p' g'.
Proof.
  intros Hp Hs. facts Hp. destruct c; cbn [lane_begin] in Hs; try done; try (apply some_pair in Hs as [-> ->]; mv Hp).
  pose proof (c_target _ _ _ (v_counts _ _ _ I)) as Ht.
  destruct (targetq g) as [|[|n] l] eqn:E; [done| |by specialize (Ht (T_redirect n) ltac:(left))].
  apply some_pair in Hs as [-> ->]. cbn [length] in *.
  apply (target_step g h ths i _ I Hp _ (dq_running g) (do_suspend_cnt g) (do_ref_cnt g) (do_listless g) l);
    rewrite ?E; csimp; weigh. intros x Hx. apply Ht. by right.
Qed.

End Quiet.
