(* ===== verification/LaneLists.v ===== *)
(** * The scheduling of a queue: the steps on the list of items *)

From S2P Require Import Prelude Conc Mpsc ThreadSema Lane LaneInv LaneStep LaneQuiet.

(** The continuations are the same, but for their links. *)
Definition relinked (g g' : lane) : Prop :=
  (∀ x d, conts g !! x = Some d → ∃ n, conts g' !! x = Some (set_dc_next n d)) ∧
  (∀ x, is_Some (conts g' !! x) → is_Some (conts g !! x)).

Lemma relinked_refl g g' : conts g' = conts g → relinked g g'.
Proof.
  intros E. split; rewrite E; [|done]. intros x d Hd. exists (dc_next d). rewrite Hd. by destruct d.
Qed.

Lemma relinked_insert g g' x d n :
  conts g !! x = Some d → conts g' = <[x := set_dc_next n d]> (conts g) → relinked g g'.
Proof.
  intros Hd E. split; rewrite E.
  - intros y e He. destruct (decide (x = y)) as [<-|Hne].
    + exists n. rewrite lookup_insert_eq. congruence.
    + exists (dc_next e). rewrite lookup_insert_ne, He by done. by destruct e.
  - intros y. destruct (decide (x = y)) as [<-|Hne]; [by rewrite Hd|]. by rewrite lookup_insert_ne.
Qed.

Lemma relinked_async g g' n : relinked g g' → async_cont g n → async_cont g' n.
Proof. intros [R _] (d & Hd & H1 & H2). destruct (R n d Hd) as [m Hm]. by exists (set_dc_next m d). Qed.

Lemma relinked_sync g g' n s : relinked g g' → sync_cont g n s → sync_cont g' n s.
Proof. intros [R _] (d & Hd & H1 & H2). destruct (R n d Hd) as [m Hm]. by exists (set_dc_next m d). Qed.

(** The links that the list follows, after a link was written. *)
Lemma nx_insert g g' x d n y :
  conts g' = <[x := set_dc_next n d]> (conts g) → nx g' y = if decide (x = y) then Some n else nx g y.
Proof.
  intros E. unfold nx. rewrite E. case_decide as H; [subst; by rewrite lookup_insert_eq|by rewrite lookup_insert_ne].
Qed.

(** The counters and the rest of the state are the same. *)
Record same_rest (g g' : lane) : Prop := SameRest {
  r_running : dq_running g' = dq_running g;
  r_width : dq_width g' = dq_width g;
  r_suspend : do_suspend_cnt g' = do_suspend_cnt g;
  r_ref : do_ref_cnt g' = do_ref_cnt g;
  r_next : next_cont g' = next_cont g;
  r_target : targetq g' = targetq g;
  r_store : store g' = store g;
  r_callouts : callouts g' = callouts g
}.

Section Lists.
Context (g : lane) (h : lane_history) (ths : lthreads) (i : nat) (l : lane_thread).
Context (I : lane_inv g h ths) (Hi : ths !! i = Some l).

(** The program point [p'] has the part that [p] has. *)
Definition same_part (p p' : lane_pc) : Prop :=
  own p' = own p ∧ lock p' = lock p ∧ grants p' = grants p ∧ refs p' = refs p ∧ pend p' = pend p ∧
  about p' = about p ∧ waiting p' = waiting p ∧ ∀ n k, p' ≠ L_push n k.

Lemma items_relinked g' h' :
  same_rest g g' → relinked g g' → h_wait h' = h_wait h → h_pushed h' = h_pushed h →
  option_list (h_carry h') ++ h_items h' = option_list (h_carry h) ++ h_items h →
  (∀ y, y ∈ h_items h' → known g h y) → lane_items g' h'.
Proof.
  intros [R1 R2 R3 R4 R5 R6 R7 R8] [Ra Rb] Ew Ep E Hk. destruct (v_items _ _ _ I) as [L1 L2 L3 L4 L4' L5 L6].
  split; unfold started; rewrite ?R5, ?R7, ?R8, ?Ep, ?Ew; try done.
  - by rewrite E.
  - intros y Hy. destruct (Hk y Hy) as [Ha|Hs]; [left; by apply (relinked_async g)|right; by rewrite Ew].
  - intros n s Hn. apply (relinked_sync g); [done|]. by apply L4.
  - intros n [Hn|Hn]; apply L5; [left; by apply Rb|by right].
Qed.

Lemma counts_relinked l' g' x c :
  right l.2 = 1 → same_part l.2 l'.2 → same_rest g g' → lane_counts g' (log_list x c h) (<[i:=l']> ths).
Proof.
  intros Hr (E1 & E2 & E3 & E4 & E5 & E6 & _) [R1 R2 R3 R4 R5 R6 R7 R8].
  destruct (right_alone g h ths I i l Hi Hr) as (Hs & Hone & _).
  destruct (v_counts _ _ _ I) as [C1 C2 C3 C4 C5 C6 C7 C8 [C9 C9'] C10 C11 C12 C13].
  assert (right l'.2 = right l.2) as Er by (unfold right; by rewrite E1).
  assert (signals g' = signals g) as Es by (unfold signals; by rewrite R7).
  destruct (about_ge l.2) as (Ha & _). pose proof (lsum_one about ths i l (λ p, proj1 (proj2 (proj2 (about_ge p)))) Hi).
  apply (counts_update g h ths i l I Hi); rewrite ?Er, ?Es, ?E1, ?E2, ?E3, ?E4, ?E5, ?E6, ?R1, ?R2, ?R3, ?R4, ?R6, ?R7; try done; try lia;
    try (simpl; lia).
  intros s k Hk. left. destruct (C11 s k Hk) as [?|[? _]]; [done|].
  assert (k ≤ signals g); [|lia]. unfold signals. apply (msum_pos (λ c, c) _ s k); [|done]. intros s' k'. by apply (signal_range g h ths I).
Qed.

(** The thread with the right to run items changes the list. *)
Lemma relist l' g' x c h' :
  h' = log_list x c h → right l.2 = 1 → same_part l.2 l'.2 → same_rest g g' → relinked g g' →
  option_list c ++ x = option_list (h_carry h) ++ h_items h → (∀ y, y ∈ x → known g h y) →
  mpsc opener linking (nx g') (dq_items_head g') (dq_items_tail g') x (<[i:=l']> ths) →
  base_local g' h' l'.2 → right_local g' h' l'.2 → l'.1 = l.1 →
  lane_inv g' h' (<[i:=l']> ths).
Proof.
  intros Eh Hr Hp Hre Hl E Hk Hm Hb Hrl Et. subst h'. split; [by apply counts_relinked|done| |].
  - by apply items_relinked.
  - destruct Hp as (_ & _ & _ & _ & _ & _ & Ew & Hnp). apply (lthreads_update g h ths i l I Hi); try done.
    + intros j m Hne Hj. split; [|eapply (right_other g h ths i l I Hi); [done..|by left]].
      apply (base_other g h ths i I g' (log_list x c h) j m Hne Hj); [|done]. intros n k _ Hn. split; [done|by apply relinked_async].
    + by rewrite (r_store _ _ Hre).
    + intros n k Hn. by destruct (Hnp n k).
Qed.
End Lists.

Lemma log_list_id h : h = log_list (h_items h) (h_carry h) h.
Proof. by destruct h. Qed.

Section Steps.
Context (g : lane) (h : lane_history) (ths : lthreads) (i : nat) (tsd : option nat).
Context (I : lane_inv g h ths).

Abbreviation here p := (at_pc ths i tsd p).
Abbreviation next := (lane_next h ths i tsd).

Lemma items_known y : y ∈ h_items h → known g h y.
Proof. apply (i_known _ _ (v_items _ _ _ I)). Qed.

(** The item in hand is not in the list. *)
Lemma carry_items dc : h_carry h = Some dc → dc ∉ h_items h.
Proof.
  intros Hc Hin. pose proof (i_nodup _ _ (v_items _ _ _ I)) as Hnd. rewrite (i_log _ _ (v_items _ _ _ I)), Hc in Hnd.
  simpl in Hnd. apply NoDup_app in Hnd as (_ & _ & Hnd). by apply NoDup_cons in Hnd as [? _].
Qed.

Ltac local Hp :=
  pose proof (v_list _ _ _ I) as Q;
  unfold lane_next, at_pc in *.

(** The side conditions of [relist] that computing shows. *)
Ltac sides := try done; try (by split); try (by (split_and!; done)); try (by apply relinked_refl); try apply items_known.

(** The head is taken. *)
Lemma take_step p p' dc : here p → right p = 1 → same_part p p' → lane_log p p' h = h →
  opener (tsd, p) = None → opener (tsd, p') = Some dc → linking (tsd, p) = None → linking (tsd, p') = None →
  dq_items_head g = Some dc → base_local (set_items_head None g) h p' → right_local (set_items_head None g) h p' →
  next p p' (set_items_head None g).
Proof.
  intros Hp Hr Hs El Eo Eo' Ek Ek' Hh Hb Hrl. local Hp.
  apply (relist g h ths i _ I Hp _ _ (h_items h) (h_carry h)); sides; rewrite ?El; try done; [by destruct h|].
  by apply (mpsc_take_head opener linking _ _ _ _ _ _ _ Q Hp _ dc); rewrite ?Ek, ?Ek'.
Qed.

(** The head is written. *)
Lemma head_step p p' dc : here p → right p = 1 → same_part p p' → lane_log p p' h = h →
  opener (tsd, p) = Some dc → opener (tsd, p') = None → linking (tsd, p) = None → linking (tsd, p') = None →
  base_local (set_items_head (Some dc) g) h p' → right_local (set_items_head (Some dc) g) h p' →
  next p p' (set_items_head (Some dc) g).
Proof.
  intros Hp Hr Hs El Eo Eo' Ek Ek' Hb Hrl. local Hp.
  apply (relist g h ths i _ I Hp _ _ (h_items h) (h_carry h)); sides; rewrite ?El; try done; [by destruct h|].
  apply (mpsc_set_head opener linking _ _ _ _ _ _ _ Q Hp); rewrite ?Ek, ?Ek'; done.
Qed.

(** The first item is taken off, and the thread knows the next one. *)
Lemma pop_step p p' dc n : here p → right p = 1 → same_part p p' → lane_log p p' h = log_pop dc h →
  opener (tsd, p) = Some dc → opener (tsd, p') = Some n → linking (tsd, p) = None → linking (tsd, p') = None →
  h_carry h = None → nx g dc = Some (Some n) → base_local g (log_pop dc h) p' → right_local g (log_pop dc h) p' →
  next p p' g.
Proof.
  intros Hp Hr Hs El Eo Eo' Ek Ek' Hc Hn Hb Hrl. local Hp.
  destruct (first_next _ _ _ _ _ _ _ Q dc n) as [rest Ei]; [by eapply (q_opener _ _ _ _ _ _ _ Q)|done|].
  apply (relist g h ths i _ I Hp _ _ (tail (h_items h)) (Some dc)); sides; rewrite ?El; try done.
  - rewrite Hc, Ei. done.
  - intros y Hy. apply items_known. rewrite Ei in *. by right.
  - rewrite Ei. apply (mpsc_advance opener linking _ _ _ _ _ _ _ Q Hp _ _ dc); rewrite ?Ek, ?Ek'; done.
Qed.

(** ... and it is the last one. *)
Lemma pop_last_step p p' dc : here p → right p = 1 → same_part p p' → lane_log p p' h = log_pop dc h →
  opener (tsd, p) = Some dc → opener (tsd, p') = None → linking (tsd, p) = None → linking (tsd, p') = None →
  h_carry h = None → dq_items_tail g = Some dc →
  base_local (set_items_tail None g) (log_pop dc h) p' →
  (known g h dc → nx g dc = Some None → right_local (set_items_tail None g) (log_pop dc h) p') →
  next p p' (set_items_tail None g).
Proof.
  intros Hp Hr Hs El Eo Eo' Ek Ek' Hc Ht Hb Hrl. local Hp.
  destruct (mpsc_last opener linking _ _ _ _ _ _ _ Q Hp (tsd, p') dc) as [Q' Ei]; try done; rewrite ?Ek, ?Ek'; try done.
  destruct (opener_alone _ _ _ _ _ _ _ _ _ Q Hp dc Eo) as (Eh & _).
  apply (relist g h ths i _ I Hp _ _ [] (Some dc)); sides; rewrite ?El; try done.
  - unfold log_pop. by rewrite Ei.
  - by rewrite Hc, Ei.
  - by intros y ?%not_elem_of_nil.
  - cbn. by rewrite Eh.
  - apply Hrl; [|by apply (q_last _ _ _ _ _ _ _ Q); rewrite Ei]. apply items_known. rewrite Ei. by left.
Qed.

(** The first item is taken off while the next becomes the head. *)
Lemma pop_head_step p p' dc n : here p → right p = 1 → same_part p p' → lane_log p p' h = log_pop dc h →
  opener (tsd, p) = None → opener (tsd, p') = None → linking (tsd, p) = None → linking (tsd, p') = None →
  h_carry h = None → dq_items_head g = Some dc → nx g dc = Some (Some n) →
  base_local (set_items_head (Some n) g) (log_pop dc h) p' → right_local (set_items_head (Some n) g) (log_pop dc h) p' →
  next p p' (set_items_head (Some n) g).
Proof.
  intros Hp Hr Hs El Eo Eo' Ek Ek' Hc Hh Hn Hb Hrl. local Hp.
  destruct (mpsc_pop_head opener linking _ _ _ _ _ _ _ Q Hp (tsd, p') dc n) as [Q' Ei]; try done.
  apply (relist g h ths i _ I Hp _ _ (tail (h_items h)) (Some dc)); sides; rewrite ?El; try done.
  - rewrite Hc. simpl. by rewrite <- Ei.
  - intros y Hy. apply items_known. rewrite Ei. by right.
Qed.

(** The item in hand goes back. *)
Lemma retreat_step p p' dc n : here p → right p = 1 → same_part p p' → lane_log p p' h = log_back dc h →
  opener (tsd, p) = Some n → opener (tsd, p') = Some dc → linking (tsd, p) = None → linking (tsd, p') = None →
  h_carry h = Some dc → nx g dc = Some (Some n) → known g h dc →
  base_local g (log_back dc h) p' → right_local g (log_back dc h) p' → next p p' g.
Proof.
  intros Hp Hr Hs El Eo Eo' Ek Ek' Hc Hn Hk Hb Hrl. local Hp.
  apply (relist g h ths i _ I Hp _ _ (dc :: h_items h) None); sides; rewrite ?El; try done.
  - by rewrite Hc.
  - intros y [->|Hy]%elem_of_cons; [done|by apply items_known].
  - by apply (mpsc_retreat opener linking _ _ _ _ _ _ _ Q Hp _ dc n); [..|by apply carry_items|].
Qed.

Lemma unpop_empty_step p p' dc : here p → right p = 1 → same_part p p' → lane_log p p' h = log_back dc h →
  opener (tsd, p) = None → opener (tsd, p') = Some dc → linking (tsd, p) = None → linking (tsd, p') = None →
  h_carry h = Some dc → nx g dc = Some None → known g h dc → dq_items_tail g = None →
  base_local (set_items_tail (Some dc) g) (log_back dc h) p' → right_local (set_items_tail (Some dc) g) (log_back dc h) p' →
  next p p' (set_items_tail (Some dc) g).
Proof.
  intros Hp Hr Hs El Eo Eo' Ek Ek' Hc Hn Hk Ht Hb Hrl. local Hp.
  destruct (mpsc_unpop_empty opener linking _ _ _ _ _ _ _ Q Hp (tsd, p') dc) as (Q' & Ei & _); try done.
  apply (relist g h ths i _ I Hp _ _ [dc] None); sides; rewrite ?El; try done.
  - unfold log_back. by rewrite Ei.
  - by rewrite Hc, Ei.
  - by intros y ->%list_elem_of_singleton.
Qed.

Lemma unpop_step p p' dc n d : here p → right p = 1 → same_part p p' → lane_log p p' h = log_back dc h →
  opener (tsd, p) = None → opener (tsd, p') = None → linking (tsd, p) = None → linking (tsd, p') = None →
  h_carry h = Some dc → conts g !! dc = Some d → known g h dc → dq_items_head g = Some n →
  let g' := set_items_head (Some dc) (set_conts (<[dc := set_dc_next (Some n) d]> (conts g)) g) in
  base_local g' (log_back dc h) p' → right_local g' (log_back dc h) p' → next p p' g'.
Proof.
  intros Hp Hr Hs El Eo Eo' Ek Ek' Hc Hd Hk Hh g' Hb Hrl. local Hp. pose proof (carry_items dc Hc) as Hni.
  assert (∀ y, nx g' y = if decide (dc = y) then Some (Some n) else nx g y) as Hnx by (intros; by apply (nx_insert _ _ _ d)).
  apply (relist g h ths i _ I Hp _ _ (dc :: h_items h) None); sides; rewrite ?El; try done.
  - by apply (relinked_insert _ _ dc d (Some n)).
  - by rewrite Hc.
  - intros y [->|Hy]%elem_of_cons; [done|by apply items_known].
  - apply (mpsc_unpop opener linking _ _ _ _ _ _ _ Q Hp _ _ dc n); try done; [by right| |].
    + rewrite Hnx. by rewrite decide_True.
    + intros x Hx. rewrite Hnx. rewrite decide_False; [done|]. by intros ->.
Qed.

(** *** The functions *)

Definition drain_list (p : lane_pc) : Prop :=
  match p with
  | L_dr_clear _ | L_dr_next _ | L_dr_cas _ | L_dr_spin _ | L_out_link _ _ | L_out_head _ _ => True
  | L_dr_suspended _ next => next ≠ None ∧ DISPATCH_OBJECT_SUSPENDED g = true
  | L_out_cas _ => dq_items_tail g = None
  | _ => False
  end.

Lemma nx_conts dc n : nx g dc = Some n → ∃ d, conts g !! dc = Some d ∧ dc_next d = n.
Proof. unfold nx. destruct (conts g !! dc) as [d|]; [|done]. intros [= <-]. by exists d. Qed.

Lemma opener_known p dc : here p → opener (tsd, p) = Some dc → known g h dc.
Proof.
  intros Hp Ho. apply items_known. pose proof (q_opener _ _ _ _ _ _ _ (v_list _ _ _ I) i _ dc Hp Ho) as Hh.
  destruct (h_items h); [done|]. injection Hh as ->. by left.
Qed.

(** A program point more, with the same part and the same list. *)
Lemma same_step p p' : here p → same_part p p' → lane_log p p' h = h → opener (tsd, p') = opener (tsd, p) →
  linking (tsd, p') = linking (tsd, p) → base_local g h p' → right_local g h p' → next p p' g.
Proof.
  intros Hp (E1 & E2 & E3 & E4 & E5 & E6 & E7 & E8) El Eo Ek Hb Hr. unfold lane_next. rewrite El.
  apply (move g h ths i _ I Hp); try done. left. simpl. by rewrite E6.
Qed.

Ltac go := try done; try (split_and!; by intros); try by intros _.

(** The drain reads the link of the item it holds. *)
Lemma dr_next_step p dc d : here p → p = L_dr_next dc ∨ p = L_dr_spin dc → conts g !! dc = Some d →
  ∀ n, dc_next d = Some n → next p (L_dr_suspended dc (Some n)) g.
Proof.
  intros Hp Hpc Hd n E. assert (nx g dc = Some (Some n)) as Hn by (unfold nx; rewrite Hd; simpl; by rewrite E).
  assert (opener (tsd, p) = Some dc) as Ho by (by destruct Hpc as [-> | ->]).
  pose proof (at_right g h ths i tsd I p Hp) as Hrl. pose proof (opener_known p dc Hp Ho) as Hk.
  destruct Hpc as [-> | ->]; (apply (pop_step _ _ dc n); go; by apply Hrl).
Qed.

Lemma drain_list_step p p' g' : here p → drain_list p → _dispatch_queue_drain p g = Some (p', g') → next p p' g'.
Proof.
  intros Hp Hq Hs. pose proof (at_right g h ths i tsd I p Hp) as Hrl.
  destruct p; try done; cbn [_dispatch_queue_drain] in Hs.
  - apply some_pair in Hs as [-> ->]. destruct Hrl as [Hh Hc]. apply (take_step _ _ dc); go.
  - destruct (known_conts g h ths I dc (opener_known _ dc Hp eq_refl)) as [d Hd]. rewrite Hd in Hs. apply some_pair in Hs as [-> ->].
    destruct (dc_next d) as [n|] eqn:E; [by apply (dr_next_step _ dc d Hp); [left|..]|apply same_step; go].
  - case_decide as Ht; apply some_pair in Hs as [-> ->]; [|apply same_step; go].
    apply (pop_last_step _ _ dc); go. by apply Hrl.
  - destruct (known_conts g h ths I dc (opener_known _ dc Hp eq_refl)) as [d Hd]. rewrite Hd in Hs. apply some_pair in Hs as [-> ->].
    destruct (dc_next d) as [n|] eqn:E; [by apply (dr_next_step _ dc d Hp); [right|..]|apply same_step; go].
  - destruct Hq as [Hq Hsu]. rewrite Hsu in Hs. apply some_pair in Hs as [-> ->]. destruct next as [n|]; [|done].
    destruct Hrl as (Hc & Hn & Hk). apply (retreat_step _ _ dc n); go.
  - simpl in Hq. rewrite decide_True in Hs by done. apply some_pair in Hs as [-> ->].
    destruct Hrl as (Hc & Hn & Hk). apply (unpop_empty_step _ _ dc); go.
  - destruct Hrl as (Hc & Hn & Hk & Hh). destruct (nx_conts dc None Hn) as (d & Hd & _). rewrite Hd in Hs.
    apply some_pair in Hs as [-> ->]. apply (unpop_step _ _ dc next d); go.
  - apply some_pair in Hs as [-> ->]. destruct sema as [s|]; apply (head_step _ _ dc); go.
Qed.

Definition one_list (p : lane_pc) : Prop :=
  match p with L_one_head _ _ _ _ | L_one_cas _ _ _ | L_one_spin _ _ _ | L_one_head2 _ _ _ => True | _ => False end.

Lemma one_list_step p p' g' : here p → one_list p →
  _dispatch_queue_drain_one_barrier_sync p g = Some (p', g') → next p p' g'.
Proof.
  intros Hp Hq Hs. pose proof (at_right g h ths i tsd I p Hp) as Hrl.
  destruct p; try done; cbn [_dispatch_queue_drain_one_barrier_sync] in Hs.
  - apply some_pair in Hs as [-> ->]. destruct Hrl as (Hh & Hc & Hw & Hn). destruct next as [n|].
    + destruct o; (apply (pop_head_step _ _ dc n); go; [by apply (Hn n)|by exists dc]).
    + destruct o; apply (take_step _ _ dc); go.
  - destruct Hrl as (Hc & Hw). case_decide as Ht; apply some_pair in Hs as [-> ->]; [|destruct o; apply same_step; go].
    destruct o; (apply (pop_last_step _ _ dc); go; intros _ _; by exists dc).
  - destruct Hrl as (Hc & Hw). destruct (known_conts g h ths I dc (opener_known _ dc Hp eq_refl)) as [d Hd].
    rewrite Hd in Hs. apply some_pair in Hs as [-> ->].
    destruct (dc_next d) as [n|] eqn:E; [|destruct o; apply same_step; go].
    assert (nx g dc = Some (Some n)) as Hn by (unfold nx; rewrite Hd; simpl; by rewrite E).
    destruct o; (apply (pop_step _ _ dc n); go; by exists dc).
  - apply some_pair in Hs as [-> ->]. destruct o; apply (head_step _ _ next); go.
Qed.

End Steps.
