(* ===== verification/LanePush.v ===== *)
(** * The scheduling of a queue: the steps that push an item *)

From S2P Require Import Prelude Conc Mpsc ThreadSema Lane LaneInv LaneStep LaneQuiet LaneLists.

Section Push.
Context (g : lane) (h : lane_history) (ths : lthreads) (i : nat) (tsd : option nat).
Context (I : lane_inv g h ths) (Hn : h_nsusp h ≤ 2 ^ 29).

Abbreviation here p := (at_pc ths i tsd p).
Abbreviation next := (lane_next h ths i tsd).

Definition log_push (x pu : list nat) : lane_history :=
  LHist x (h_carry h) pu (h_wait h) (h_susp h) (h_nsusp h) (h_held h) (h_over h).

(** Items that are in the list, or in hand, were pushed. *)
Lemma items_pushed x : x ∈ h_items h → x ∈ h_pushed h.
Proof. intros Hx. rewrite (i_log _ _ (v_items _ _ _ I)). rewrite !elem_of_app. auto. Qed.

Lemma carry_pushed x : h_carry h = Some x → x ∈ h_pushed h.
Proof. intros Hx. rewrite (i_log _ _ (v_items _ _ _ I)), Hx. simpl. rewrite elem_of_app, elem_of_cons. auto. Qed.

Lemma head_items x : dq_items_head g = Some x → x ∈ h_items h.
Proof.
  intros Hx. pose proof (q_head _ _ _ _ _ _ _ (v_list _ _ _ I) x Hx) as Hh. destruct (h_items h); [done|].
  injection Hh as ->. by left.
Qed.

Lemma last_items x : dq_items_tail g = Some x → x ∈ h_items h.
Proof. rewrite (q_tail _ _ _ _ _ _ _ (v_list _ _ _ I)). apply last_Some_elem_of. Qed.

(** A thread without the right changes the list at its end. *)
Lemma relist_other p p' g' x pu :
  here p → right p = 0 → own p' = 0 → lock p' = lock p → grants p' = grants p → refs p' = refs p → pend p' = pend p →
  waiting p' = waiting p → (∀ n k, p' ≠ L_push n k) → same_rest g g' → relinked g g' →
  0 < about p' ∨ about p = 0 ∧ h_items h ≠ [] →
  (∀ n, dq_items_head g = Some n → dq_items_head g' = Some n) →
  (∀ n y, n ∈ h_items h ∨ h_carry h = Some n → nx g n = Some (Some y) → nx g' n = Some (Some y)) →
  (∀ n, h_carry h = Some n → nx g' n = nx g n) →
  lane_items g' (log_push x pu) →
  (∀ y, y ∈ h_pushed h → y ∈ pu) →
  (∀ j m y k, j ≠ i → ths !! j = Some m → m.2 = L_push y k → y ∉ h_pushed h → y ∉ pu) →
  mpsc opener linking (nx g') (dq_items_head g') (dq_items_tail g') x (<[i:=(tsd, p')]> ths) →
  base_local g' (log_push x pu) p' →
  lane_inv g' (log_push x pu) (<[i:=(tsd, p')]> ths).
Proof.
  intros Hp Hr Ho Hl Hg Hrf Hpe Hw Hnp Hre Hrl Hab Hh Hn1 Hn2 Hit Hpu Hpo Hm Hb. unfold at_pc in *.
  assert (right p' = 0) as Hr' by (unfold right; by rewrite Ho).
  assert (own p = 0) as Ho' by (destruct (right_own p); lia).
  split; [|done|done|].
  - destruct Hre as [R1 R2 R3 R4 R5 R6 R7 R8]. assert (signals g' = signals g) as Es by (unfold signals; by rewrite R7).
    destruct (v_counts _ _ _ I) as [C1 C2 C3 C4 C5 C6 C7 C8 [C9 C9'] C10 C11 C12 C13].
    destruct (about_ge p') as (_ & _ & ?). pose proof (lsum_one about ths i _ (λ p, proj1 (proj2 (proj2 (about_ge p)))) Hp) as Hge.
    pose proof (signals_nonneg _ _ _ I). simpl in Hge.
    apply (counts_update g h ths i _ I Hp); cbn [fst snd]; rewrite ?R1, ?R2, ?R3, ?R4, ?R6, ?R7, ?Es, ?Hr, ?Hr', ?Ho, ?Ho', ?Hl, ?Hg, ?Hrf, ?Hpe;
      cbn [log_push h_susp h_nsusp h_held h_carry h_items]; try done; try lia.
    + intros _ Hz. destruct Hab as [Hab|[Hab Hi]]; [lia|]. specialize (C12 (or_introl Hi) Hz). lia.
    + intros Hc. specialize (C13 Hc). lia.
  - apply (lthreads_update g h ths i _ I Hp); try done; [by apply right_local_zero| |by rewrite (r_store _ _ Hre)|by intros n k Hk; destruct (Hnp n k)].
    intros j m Hne Hj. split.
    + apply (base_other g h ths i I _ _ j m Hne Hj); [|done]. intros n k Hk Hnin. split; [by eapply Hpo|by apply relinked_async].
    + apply (right_other g h ths i _ I Hp _ _ j m Hne Hj). right. split; try done.
      * intros n y Hc Hy. by rewrite Hn2.
      * intros n y Hd Hy. apply Hn1; [|done]. left. by apply head_items.
      * intros n _. by apply relinked_async.
Qed.

(** The continuation to push. *)
Lemma push_known n k : here (L_push n k) → known g h n.
Proof.
  intros Hp. destruct (at_base g h ths i tsd I _ Hp) as (Hk & Hnin & Hb). destruct (kwait k) as [[m s]|] eqn:E; [|by left].
  subst m. right. exists s. apply (t_wait _ _ _ (v_threads _ _ _ I)). by exists i, (tsd, L_push n k).
Qed.

(** The items, after a push. *)
Lemma items_push g' n :
  same_rest g g' → relinked g g' → known g h n → n ∉ h_pushed h →
  lane_items g' (log_push (h_items h ++ [n]) (h_pushed h ++ [n])).
Proof.
  intros [R1 R2 R3 R4 R5 R6 R7 R8] Hr Hk Hnin. destruct (v_items _ _ _ I) as [L1 L2 L3 L4 L4' L5 L6].
  split; unfold started; cbn [log_push h_pushed h_items h_carry h_wait]; rewrite ?R5, ?R7, ?R8; try done.
  - by rewrite L1, !app_assoc.
  - apply NoDup_app. split_and!; [done| |apply NoDup_singleton]. by intros x Hx ->%list_elem_of_singleton.
  - intros x [Hx| ->%list_elem_of_singleton]%elem_of_app.
    + destruct (L3 x Hx); [left; by apply (relinked_async g)|by right].
    + destruct Hk; [left; by apply (relinked_async g)|by right].
  - intros m s Hm. apply (relinked_sync g); [done|]. by apply L4.
  - intros m [Hm|[Hm| ->%list_elem_of_singleton]%elem_of_app]; apply L5; [left; by apply Hr|by right|].
    left. destruct (known_conts g h ths I n Hk) as [d Hd]. by exists d.
Qed.

(** The exchange of the tail. *)
Lemma push_step n k p' g' : here (L_push n k) →
  _dispatch_queue_push (L_push n k) g = Some (p', g') → next (L_push n k) p' g'.
Proof.
  intros Hp Hs. destruct (at_base g h ths i tsd I _ Hp) as (Hk & Hnin & _). pose proof (push_known n k Hp) as Hkn.
  destruct (known_conts g h ths I n Hkn) as [d Hd]. cbn [_dispatch_queue_push] in Hs. rewrite Hd in Hs.
  apply some_pair in Hs as [-> ->]. set (g' := set_items_tail _ _). destruct (plain_ok k Hk) as [_ Hkr].
  assert (∀ y, nx g' y = if decide (n = y) then Some None else nx g y) as Hnx by (intros; by apply (nx_insert _ _ _ d)).
  assert (relinked g g') as Hrl by (by apply (relinked_insert _ _ n d None)).
  assert (same_rest g g') as Hre by done.
  assert (∀ x, x ∈ h_pushed h → n ≠ x) as Hne by (by intros x Hx ->).
  assert (∀ m s, kwait k = Some (m, s) → m ∈ h_pushed h ++ [n]) as Hw.
  { intros m s Hm. pose proof (at_base g h ths i tsd I _ Hp) as (_ & _ & Hb). rewrite Hm in Hb. subst m. apply elem_of_app. right. by left. }
  apply (relist_other (L_push n k)); try done.
  - by destruct (dq_items_tail g).
  - by destruct (dq_items_tail g).
  - by destruct (dq_items_tail g).
  - by destruct (dq_items_tail g).
  - by destruct (dq_items_tail g).
  - by destruct (dq_items_tail g).
  - by destruct (dq_items_tail g).
  - destruct (dq_items_tail g) as [prev|] eqn:E; [right|by left]. split; [done|]. pose proof (last_items prev E) as Hl.
    intros Hi. rewrite Hi in Hl. by apply not_elem_of_nil in Hl.
  - intros x y Hx Hy. rewrite Hnx, decide_False; [done|]. apply Hne. destruct Hx; [by apply items_pushed|by apply carry_pushed].
  - intros x Hx. rewrite Hnx, decide_False; [done|]. by apply Hne, carry_pushed.
  - by apply items_push.
  - intros y Hy. apply elem_of_app. by left.
  - intros j m y ky Hji Hj Hm Hy [Hy'| ->%list_elem_of_singleton]%elem_of_app; [done|]. apply Hji.
    by eapply (t_push_uniq _ _ _ (v_threads _ _ _ I) j i m (tsd, L_push n k) n).
  - eapply (mpsc_push opener linking _ _ _ _ _ _ _ (v_list _ _ _ I) Hp).
    + intros Hx. by apply Hnin, items_pushed.
    + by rewrite Hnx, decide_True.
    + intros x Hx. rewrite Hnx, decide_False; [done|]. by apply Hne, items_pushed.
    + done.
    + done.
    + by destruct (dq_items_tail g).
  - by destruct (dq_items_tail g).
Qed.

(** The state of a step that pushes nothing. *)
Lemma log_push_id : log_push (h_items h) (h_pushed h) = h.
Proof. clear I Hn. unfold log_push. by destruct h. Qed.

(** The link behind the last item. *)
Lemma push_link_step prev n k p' g' : here (L_link prev n k) →
  _dispatch_queue_push (L_link prev n k) g = Some (p', g') → next (L_link prev n k) p' g'.
Proof.
  intros Hp Hs. destruct (at_base g h ths i tsd I _ Hp) as (Hk & Hin). pose proof (v_list _ _ _ I) as Q.
  destruct (q_link _ _ _ _ _ _ _ Q i _ prev n Hp eq_refl) as [Hadj Hpn]. apply adj_l in Hadj as Hpi.
  destruct (nx_conts g prev None Hpn) as (d & Hd & _). cbn [_dispatch_queue_push] in Hs. rewrite Hd in Hs.
  apply some_pair in Hs as [-> ->]. set (g' := set_conts _ _). destruct (plain_ok k Hk) as [Hk' Hkr].
  destruct (resume_weights g' h tsd k Hk') as ((E1 & E2 & E3 & E4 & E5 & E6 & E7) & E8 & E9 & E10 & E11 & E12 & E13 & E14).
  assert (∀ y, nx g' y = if decide (prev = y) then Some (Some n) else nx g y) as Hnx by (intros; by apply (nx_insert _ _ _ d)).
  unfold lane_next. rewrite E14. change (lane_log (L_link prev n k) L_idle h) with h. rewrite <- log_push_id.
  apply (relist_other (L_link prev n k)); rewrite ?E1, ?E3, ?E4, ?E5, ?E6, ?E7, ?E10; try done.
  - by apply (relinked_insert _ _ prev d (Some n)).
  - right. split; [done|]. intros Hi. rewrite Hi in Hpi. by apply not_elem_of_nil in Hpi.
  - intros x y Hx Hy. rewrite Hnx, decide_False; [done|]. intros <-. congruence.
  - intros x Hx. rewrite Hnx, decide_False; [done|]. intros <-. by apply (carry_items g h ths I prev Hx).
  - rewrite log_push_id. apply (items_relinked g h ths I); try done; [by apply (relinked_insert _ _ prev d (Some n))|].
    apply (i_known _ _ (v_items _ _ _ I)).
  - eapply (mpsc_link opener linking _ _ _ _ _ _ _ Q Hp _ _ prev n); try done.
    + by rewrite Hnx, decide_True.
    + intros x Hx _. rewrite Hnx, decide_False; [done|]. by intros ->.
  - rewrite log_push_id. by apply E12.
Qed.

Lemma slow2_step p p' g' : here p → _dispatch_queue_push_list_slow2 p g = Some (p', g') → next p p' g'.
Proof.
  intros Hp Hs. pose proof (at_base g h ths i tsd I _ Hp) as Hb. pose proof (at_facts g h ths i tsd I Hn _ Hp) as (Hrng & Hge & Hcap & Hdef & Hsus & Hab & Hca).
  destruct p; cbn [_dispatch_queue_push_list_slow2] in Hs; try done; destruct Hb as [Hk Hin].
  - rewrite retain_small in Hs by lia. apply some_pair in Hs as [-> ->].
    apply (count_same g h ths i _ I Hp _ (dq_running g) (do_suspend_cnt g) (do_ref_cnt g + 1) (do_listless g)); try done; cbn -[Z.add Z.sub Z.mul Z.of_nat Z.max]; try lia.
    + intros H1 H2. specialize (Hab H1 H2). lia.
    + intros H1. specialize (Hca H1). lia.
  - apply some_pair in Hs as [-> ->]. unfold lane_next. change (lane_log (L_head n k) _ h) with h. rewrite <- log_push_id.
    pose proof (v_list _ _ _ I) as Q. destruct (opener_alone _ _ _ _ _ _ _ _ _ Q Hp n eq_refl) as (Eh & _).
    apply (relist_other (L_head n k)); try done.
    + by apply relinked_refl.
    + by left.
    + intros m Hm. congruence.
    + rewrite log_push_id. apply (items_relinked g h ths I); try done; [by apply relinked_refl|]. apply (i_known _ _ (v_items _ _ _ I)).
    + by apply (mpsc_set_head opener linking _ _ _ _ _ _ _ Q Hp _ _ n).
Qed.
End Push.
