(* ===== verification/LaneWait.v ===== *)
(** * The scheduling of a queue: the steps that make a continuation, wait,
    signal and call *)

From S2P Require Import Prelude Conc Mpsc ThreadSema Lane LaneInv LaneStep LaneQuiet LaneLists LanePush.

Section Wait.
Context (g : lane) (h : lane_history) (ths : lthreads) (i : nat) (tsd : option nat).
Context (I : lane_inv g h ths) (Hn : h_nsusp h ≤ 2 ^ 29).

Abbreviation here p := (at_pc ths i tsd p).
Abbreviation next := (lane_next h ths i tsd).

(** *** New continuations *)

Lemma fresh_conts : conts g !! next_cont g = None.
Proof.
  destruct (conts g !! next_cont g) as [d|] eqn:E; [|done].
  enough (next_cont g < next_cont g)%nat by lia. apply (i_fresh _ _ (v_items _ _ _ I)). left. by exists d.
Qed.

Lemma fresh_unpushed : next_cont g ∉ h_pushed h.
Proof.
  intros Hx. enough (next_cont g < next_cont g)%nat by lia. apply (i_fresh _ _ (v_items _ _ _ I)). by right.
Qed.

Lemma fresh_wait : h_wait h !! next_cont g = None.
Proof.
  destruct (h_wait h !! next_cont g) as [s|] eqn:E; [|done].
  destruct (i_wait _ _ (v_items _ _ _ I) _ _ E) as (d & Hd & _). by rewrite fresh_conts in Hd.
Qed.

Lemma known_ne x : known g h x → x ≠ next_cont g.
Proof. intros Hk ->. destruct (known_conts g h ths I _ Hk) as [d Hd]. by rewrite fresh_conts in Hd. Qed.

(** Continuations that stay, or come. *)
Definition extended (g g' : lane) : Prop := ∀ x d, conts g !! x = Some d → conts g' !! x = Some d.

Lemma extended_async g' n : extended g g' → async_cont g n → async_cont g' n.
Proof. intros E (d & Hd & H). exists d. split; [by apply E|done]. Qed.

Lemma extended_sync g' n s : extended g g' → sync_cont g n s → sync_cont g' n s.
Proof. intros E (d & Hd & H). exists d. split; [by apply E|done]. Qed.

Lemma extended_nx g' n x : extended g g' → nx g n = Some x → nx g' n = Some x.
Proof. unfold nx. intros E H. destruct (conts g !! n) as [d|] eqn:Hd; [|done]. by rewrite (E n d Hd). Qed.

Lemma new_extended d g' : conts g' = <[next_cont g := d]> (conts g) → extended g g'.
Proof. intros E x e He. rewrite E, lookup_insert_ne; [done|]. intros <-. by rewrite fresh_conts in He. Qed.

(** A new continuation, and perhaps a new record of a waiting thread. *)
Lemma items_new d g' w :
  conts g' = <[next_cont g := d]> (conts g) → next_cont g' = S (next_cont g) → callouts g' = callouts g →
  (∀ n s, w !! n = Some s → h_wait h !! n = Some s ∨ n = next_cont g ∧ sync_cont g' n s) →
  (∀ n, is_Some (h_wait h !! n) → is_Some (w !! n)) →
  (∀ s, is_Some (semas (store g') !! s) → (s < next_sema (store g'))%nat) →
  lane_items g' (log_wait w h).
Proof.
  intros E En Ec Hw Hw' Hs. destruct (v_items _ _ _ I) as [L1 L2 L3 L4 L4' L5 L6]. pose proof (new_extended d g' E) as Hx.
  split; unfold started; cbn [log_wait h_pushed h_items h_carry h_wait]; rewrite ?Ec, ?En; try done.
  - intros x Hk. destruct (L3 x Hk) as [?|?]; [left; by apply extended_async|right; by apply Hw'].
  - intros n s Hk. destruct (Hw n s Hk) as [H|[-> H]]; [|done]. apply extended_sync; [done|]. by apply L4.
  - intros n [s Hk]. destruct (Hw n s Hk) as [H|[-> _]]; [apply L4'; by exists s|]. intros Hin. apply fresh_unpushed.
    rewrite L1. apply elem_of_app. by left.
  - intros n [Hk|Hk].
    + rewrite E in Hk. destruct (decide (n = next_cont g)) as [ ->|Hne]; [lia|]. rewrite lookup_insert_ne in Hk by done.
      specialize (L5 n (or_introl Hk)). lia.
    + specialize (L5 n (or_intror Hk)). lia.
Qed.

(** The counters, when a step changes none of them and no signal. *)
Lemma counts_keep p p' t' g' h' :
  here p → right p = 0 → own p' = 0 → lock p' = lock p → grants p' = grants p → refs p' = refs p → pend p' = pend p →
  about p ≤ about p' → dq_running g' = dq_running g → dq_width g' = dq_width g → do_suspend_cnt g' = do_suspend_cnt g →
  do_ref_cnt g' = do_ref_cnt g → targetq g' = targetq g → signals g' = signals g →
  h_susp h' = h_susp h → h_nsusp h' = h_nsusp h → h_held h' = h_held h → h_items h' = h_items h → h_carry h' = h_carry h →
  (∀ s c, semas (store g') !! s = Some c → c = 0 ∨ c = 1 ∧ granted h' s) →
  lane_counts g' h' (<[i:=(t', p')]> ths).
Proof.
  intros Hp Hr Ho Hl Hg Hrf Hpe Hab R1 R2 R3 R4 R5 R6 S1 S2 S3 S4 S5 Hs. unfold at_pc in *.
  assert (right p' = 0) as Hr' by (unfold right; by rewrite Ho).
  assert (own p = 0) as Ho' by (destruct (right_own p); lia).
  destruct (v_counts _ _ _ I) as [C1 C2 C3 C4 C5 C6 C7 C8 [C9 C9'] C10 C11 C12 C13].
  apply (counts_update g h ths i _ I Hp); cbn [fst snd];
    rewrite ?R1, ?R2, ?R3, ?R4, ?R5, ?R6, ?S1, ?S2, ?S3, ?S4, ?S5, ?Hr, ?Hr', ?Ho, ?Ho', ?Hl, ?Hg, ?Hrf, ?Hpe; try done; try lia.
  - intros H1 H2. specialize (C12 H1 H2). lia.
  - intros H1. specialize (C13 H1). lia.
Qed.

(** The other threads, when there is a new continuation. *)
Lemma new_others p d g' w j m :
  here p → conts g' = <[next_cont g := d]> (conts g) → dq_items_head g' = dq_items_head g →
  (∀ n s, h_wait h !! n = Some s → w !! n = Some s) → (∀ n, n ≠ next_cont g → h_wait h !! n = None → w !! n = None) →
  j ≠ i → ths !! j = Some m → base_local g' (log_wait w h) m.2 ∧ right_local g' (log_wait w h) m.2.
Proof.
  intros Hp E Eh Hw Hw0 Hne Hj. pose proof (new_extended d g' E) as Hx. split.
  - apply (base_other g h ths i I _ _ j m Hne Hj); [|done]. intros n k Hk Hni. split; [done|by apply extended_async].
  - apply (right_other g h ths i _ I Hp _ _ j m Hne Hj). right. split; rewrite ?Eh; try done.
    + intros n Hc Hnone. apply Hw0; [|done]. intros ->. by apply fresh_unpushed, (carry_pushed g h ths I).
    + intros n x Hc Hnx. unfold nx. rewrite E, lookup_insert_ne; [done|]. intros <-.
      by apply fresh_unpushed, (carry_pushed g h ths I).
    + intros n x _ Hnx. by apply extended_nx.
    + intros n _. by apply extended_async.
Qed.

Lemma new_push_uniq j m k : ths !! j = Some m → m.2 ≠ L_push (next_cont g) k.
Proof.
  intros Hj Hm. destruct m as [t q]. simpl in Hm. subst q.
  by apply (known_ne (next_cont g)); [apply (push_known g h ths j t I _ k Hj)|].
Qed.

(** The list does not change. *)
Lemma new_list p t' p' d g' :
  here p → opener (tsd, p) = None → linking (tsd, p) = None → opener (t', p') = None → linking (t', p') = None →
  conts g' = <[next_cont g := d]> (conts g) → dq_items_head g' = dq_items_head g → dq_items_tail g' = dq_items_tail g →
  mpsc opener linking (nx g') (dq_items_head g') (dq_items_tail g') (h_items h) (<[i:=(t', p')]> ths).
Proof.
  intros Hp Eo Ek Eo' Ek' E Eh Et. rewrite Eh, Et.
  apply (mpsc_neutral opener linking _ _ _ _ _ _ _ (v_list _ _ _ I) Hp); rewrite ?Eo, ?Ek; try done.
  intros x Hx. unfold nx. rewrite E, lookup_insert_ne; [done|]. apply not_eq_sym, known_ne, (items_known g h ths I), Hx.
Qed.

Lemma log_wait_id : log_wait (h_wait h) h = h.
Proof. clear I Hn. unfold log_wait. by destruct h. Qed.

(** dispatch_barrier_async_f *)
Lemma barrier_async_step c ctxt func p' g' : here (L_barrier_async ctxt func) →
  dispatch_barrier_async_f c ctxt func g = Some (p', g') → next (L_barrier_async ctxt func) p' g'.
Proof.
  intros Hp Hs. unfold dispatch_barrier_async_f in Hs. destruct c as [| | | | | | |[]|]; cbn [alloc_cont] in Hs; try done;
    apply some_pair in Hs as [-> ->]; [|by apply (move g h ths i _ I Hp); try (by left)].
  set (d := DC _ _ _ _ _). set (g' := new_cont d g). set (p' := L_push (next_cont g) K_return).
  unfold lane_next. change (lane_log _ p' h) with h. rewrite <- log_wait_id.
  assert (async_cont g' (next_cont g)) as Ha by (exists d; split_and!; [apply lookup_insert_eq|done..]).
  destruct (v_items _ _ _ I) as [L1 L2 L3 L4 L4' L5 L6]. split.
  - apply (counts_keep (L_barrier_async ctxt func)); try done. apply (v_counts _ _ _ I).
  - by apply (new_list (L_barrier_async ctxt func) tsd p' d g').
  - apply (items_new d); try done. intros n s Hw. by left.
  - apply (lthreads_update g h ths i _ I Hp); try done.
    + simpl. split_and!; try done. apply fresh_unpushed.
    + intros j m Hne Hj. by apply (new_others (L_barrier_async ctxt func) d g' (h_wait h) j m).
    + intros n k Hk j m k' Hne Hj. injection Hk as <- <-. by apply (new_push_uniq j m).
Qed.

(** *** Waiting *)

(** The semaphore of the calling thread. *)
Lemma get_sema p s t st : here p → _dispatch_get_thread_semaphore tsd (store g) = (s, t, st) →
  t = None ∧ is_Some (semas st !! s) ∧ msum (λ c, c) (semas st) = signals g ∧
  (∀ x c, semas st !! x = Some c → semas (store g) !! x = Some c ∨ c = 0) ∧
  (∀ x, is_Some (semas (store g) !! x) → is_Some (semas st !! x)) ∧
  (∀ x, is_Some (semas st !! x) → (x < next_sema st)%nat) ∧
  (∀ j m, j ≠ i → ths !! j = Some m → s ∉ semas_of m).
Proof.
  intros Hp Hs. destruct (v_items _ _ _ I) as [L1 L2 L3 L4 L4' L5 L6]. destruct (v_threads _ _ _ I) as [T1 T2 T3 T4 T5 T6 T7].
  destruct tsd as [s0|] eqn:Et; simpl in Hs; injection Hs as <- <- <-.
  - split_and!; try done; [apply (T6 i _ Hp); simpl; by left|by left|].
    intros j m Hne Hj Hin. apply Hne. eapply (T7 j i m _ s0); try done. simpl. by left.
  - assert (semas (store g) !! next_sema (store g) = None) as Hf.
    { destruct (semas (store g) !! next_sema (store g)) as [c|] eqn:E; [|done].
      enough (next_sema (store g) < next_sema (store g))%nat by lia. apply L6. by exists c. }
    split_and!; try done; cbn [semas next_sema].
    + rewrite lookup_insert_eq. by eexists.
    + unfold signals. rewrite msum_insert by done. lia.
    + intros x c [[<- <-]|[_ H]]%lookup_insert_Some; [by right|by left].
    + intros x Hx. destruct (decide (next_sema (store g) = x)) as [<-|Hne]; [by rewrite Hf in Hx; destruct Hx|by rewrite lookup_insert_ne].
    + intros x Hx. destruct (decide (x = next_sema (store g))) as [ ->|Hne]; [lia|]. rewrite lookup_insert_ne in Hx by done.
      specialize (L6 x Hx). lia.
    + intros j m _ Hj Hin. destruct (T6 j m Hj) as [_ H]. destruct (H _ Hin) as [c Hc]. by rewrite Hf in Hc.
Qed.

(** The record on the stack of [_dispatch_barrier_sync_f_slow]. *)
Lemma bslow_step ctxt func l' g' : here (L_bslow ctxt func) →
  _dispatch_barrier_sync_f_slow tsd (L_bslow ctxt func) g = Some (l', g') →
  lane_inv g' (lane_log (L_bslow ctxt func) l'.2 h) (<[i:=l']> ths).
Proof.
  intros Hp Hs. cbn [_dispatch_barrier_sync_f_slow] in Hs. unfold push_waiter in Hs.
  destruct (_dispatch_get_thread_semaphore tsd (store g)) as [[s t] st] eqn:E. apply some_pair in Hs as [-> ->].
  destruct (get_sema _ s t st Hp E) as (-> & Hs1 & Hs2 & Hs3 & Hs4 & Hs5 & Hs6).
  pose proof fresh_wait as Hfw. set (n := next_cont g) in *. set (d := DC barrier_sync None 0 0 (Some s)). set (g' := set_store st (new_cont d g)).
  set (w := <[n := s]> (h_wait h)). change (lane_log _ _ h) with (log_wait w h).
  assert (sync_cont g' n s) as Ha by (exists d; split_and!; [apply lookup_insert_eq|done..]).
  assert (∀ m x, h_wait h !! m = Some x → w !! m = Some x) as Hw.
  { intros m x Hm. unfold w. rewrite lookup_insert_ne; [done|]. intros <-. by rewrite Hfw in Hm. }
  destruct (v_threads _ _ _ I) as [T1 T2 T3 T4 T5 T6 T7]. split.
  - apply (counts_keep (L_bslow ctxt func)); try done. intros x c Hx. destruct (Hs3 x c Hx) as [H| ->]; [|by left].
    destruct (c_signal _ _ _ (v_counts _ _ _ I) x c H) as [?|(H1 & m & Hm1 & Hm2)]; [by left|right].
    split; [done|]. exists m. split; [done|]. by apply Hw.
  - by apply (new_list (L_bslow ctxt func) None _ d g').
  - apply (items_new d); try done.
    + intros m x [[<- <-]|[_ H]]%lookup_insert_Some; [by right|by left].
    + intros m [x Hm]. exists x. by apply Hw.
  - apply (threads_wait g h ths i I); try done.
    + simpl. split_and!; try done. apply fresh_unpushed.
    + intros j m Hne Hj. apply (new_others (L_bslow ctxt func) d g' w j m); try done.
      intros x Hx Hnone. unfold w. by rewrite lookup_insert_ne.
    + intros m x. simpl. unfold w. rewrite lookup_insert_Some, T3. split.
      * intros [[-> ->]|[Hne (j & k & Hj & Hk)]]; [by left|right]. exists j, k. split_and!; try done. intros ->.
        unfold at_pc in Hp. rewrite Hp in Hj. by injection Hj as <-.
      * intros [[= -> ->]|(j & k & Hji & Hj & Hk)]; [by left|right]. split; [|by exists j, k].
        intros <-. assert (h_wait h !! n = Some x) as H by (apply T3; by exists j, k). by rewrite Hfw in H.
    + intros m x Hm j k x' Hji Hj Hk. simpl in Hm. injection Hm as <- <-.
      assert (h_wait h !! n = Some x') as H by (apply T3; by exists j, k). by rewrite Hfw in H.
    + intros m k Hk j m' k' Hne Hj. simpl in Hk. injection Hk as <- <-. by apply (new_push_uniq j m').
    + unfold semas_of. simpl. apply NoDup_singleton.
    + unfold semas_of. simpl. by intros x ->%list_elem_of_singleton.
    + intros j m x Hne Hj Hx. split; [apply Hs4; by apply (T6 j m)|]. unfold semas_of at 1. simpl.
      intros ->%list_elem_of_singleton. by apply (Hs6 j m).
Qed.

(** *** Signals *)

Lemma granted_waits s : granted h s →
  ∃ n j m, h_carry h = Some n ∧ ths !! j = Some m ∧ waiting m.2 = Some (n, s) ∧ is_Some (semas (store g) !! s).
Proof.
  intros (n & Hc & Hw). destruct (v_threads _ _ _ I) as [T1 T2 T3 T4 T5 T6 T7]. apply T3 in Hw as (j & m & Hj & Hm).
  exists n, j, m. split_and!; try done. apply (T6 j m Hj). unfold semas_of. rewrite Hm. apply elem_of_app. right. by left.
Qed.

(** The semaphores, after a change of one of them: nothing else of the threads. *)
Lemma store_threads p p' t st :
  here p → waiting p' = waiting p → (∀ n k, p' ≠ L_push n k) →
  (∀ x, is_Some (semas (store g) !! x) → is_Some (semas st !! x)) → t = tsd →
  base_local g h p' → right_local (set_store st g) h p' → right p = 1 ∨ right p = 0 →
  lane_threads (set_store st g) h (<[i:=(t, p')]> ths).
Proof.
  intros Hp Hw Hnp Hs -> Hb Hr Hrp. apply (lthreads_update g h ths i _ I Hp); try done.
  - intros j m Hne Hj. split; [by apply (base_other g h ths i I _ _ j m Hne Hj)|].
    apply (right_other g h ths i _ I Hp _ _ j m Hne Hj). destruct Hrp; [by left|by right].
  - intros n k Hk. by destruct (Hnp n k).
Qed.

Lemma store_items st : (∀ x, is_Some (semas st !! x) → is_Some (semas (store g) !! x)) → next_sema st = next_sema (store g) →
  lane_items (set_store st g) h.
Proof.
  intros Hs En. destruct (v_items _ _ _ I) as [L1 L2 L3 L4 L4' L5 L6]. split; simpl; try done. intros s Hk. rewrite En. by apply L6, Hs.
Qed.

Lemma store_list p p' st : here p → opener (tsd, p') = opener (tsd, p) → linking (tsd, p') = linking (tsd, p) →
  mpsc opener linking (nx (set_store st g)) (dq_items_head g) (dq_items_tail g) (h_items h) (<[i:=(tsd, p')]> ths).
Proof. intros Hp Eo Ek. by apply (mpsc_neutral opener linking _ _ _ _ _ _ _ (v_list _ _ _ I) Hp). Qed.

Lemma sema_signal_step s p p' p'' g' :
  here p → granted h s → own p = 2 → grants p = 1 → own p' = 0 → grants p' = 0 → lock p' = lock p → refs p' = refs p →
  pend p' = pend p → waiting p' = waiting p → (∀ n k, p' ≠ L_push n k) → opener (tsd, p') = opener (tsd, p) →
  linking (tsd, p') = linking (tsd, p) → base_local g h p' → lane_log p p' h = h →
  sema_post s p' g = (p'', g') → next p p'' g'.
Proof.
  intros Hp Hg Ho Hgr Ho' Hgr' Hl Hrf Hpe Hw Hnp Eo Ek Hb El Hs.
  assert (right p = 1) as Hr by (unfold right; by rewrite Ho). assert (right p' = 0) as Hr' by (unfold right; by rewrite Ho').
  destruct (right_alone g h ths I i _ Hp Hr) as (Hsz & Hone & _).
  destruct (granted_waits s Hg) as (n & j & m & Hc & Hj & Hm & [c Hsc]).
  assert (∀ x k, semas (store g) !! x = Some k → k = 0) as Hz.
  { intros x k Hx. pose proof (msum_pos (λ c, c) _ x k (signal_range g h ths I) Hx) as H. simpl in H.
    pose proof (signal_range g h ths I x k Hx). unfold signals in Hsz. lia. }
  pose proof (Hz s c Hsc) as ->. unfold sema_post, sema_signal in Hs. rewrite Hsc in Hs. simpl in Hs. injection Hs as <- <-.
  unfold lane_next. rewrite El. set (st := set_semas _ _).
  assert (signals (set_store st g) = 1) as Es.
  { unfold signals, st. simpl. rewrite (msum_update _ _ s 0) by done. unfold signals in Hsz. lia. }
  destruct (v_counts _ _ _ I) as [C1 C2 C3 C4 C5 C6 C7 C8 [C9 C9'] C10 C11 C12 C13]. split.
  - pose proof (lsum_one about ths i _ (λ p, proj1 (proj2 (proj2 (about_ge p)))) Hp) as Hge.
    destruct (about_ge p') as (_ & _ & ?). destruct (about_ge p) as (_ & _ & ?). simpl in Hge.
    apply (counts_update g h ths i _ I Hp); cbn [fst snd]; rewrite ?Es, ?Hsz, ?Hr, ?Hr', ?Ho, ?Ho', ?Hl, ?Hgr, ?Hgr', ?Hrf, ?Hpe;
      simpl; try done; try lia.
    intros x k [[<- <-]|[_ Hx]]%lookup_insert_Some; [by right|left; by apply (Hz x)].
  - by apply (store_list p).
  - apply store_items; [|done]. intros x. simpl. destruct (decide (s = x)) as [<-|Hne]; [by rewrite Hsc|by rewrite lookup_insert_ne].
  - apply (store_threads p); try done; [|by apply right_local_zero|by left].
    intros x Hx. simpl. destruct (decide (s = x)) as [<-|Hne]; [rewrite lookup_insert_eq; by eexists|by rewrite lookup_insert_ne].
Qed.

Lemma lane_signal_step s p' g' : here (L_signal s) → sema_post s L_idle g = (p', g') → next (L_signal s) p' g'.
Proof. intros Hp. pose proof (at_right g h ths i tsd I _ Hp). by apply sema_signal_step. Qed.

Lemma inv_signal_step s p' g' : here (L_inv_signal s) → sema_post s L_inv_listless g = (p', g') → next (L_inv_signal s) p' g'.
Proof. intros Hp. pose proof (at_right g h ths i tsd I _ Hp). by apply sema_signal_step. Qed.

(** The wait of [_dispatch_barrier_sync_f_slow]. *)
Lemma bwait_step n s ctxt func p' g' : here (L_bwait n s ctxt func) →
  sema_block s (L_bput n s ctxt func) g = Some (p', g') → next (L_bwait n s ctxt func) p' g'.
Proof.
  intros Hp Hs. destruct (v_threads _ _ _ I) as [T1 T2 T3 T4 T5 T6 T7].
  assert (s ∈ semas_of (tsd, L_bwait n s ctxt func)) as Hin by (unfold semas_of; simpl; apply elem_of_app; right; by left).
  destruct (T6 i _ Hp) as [_ H]. destruct (H s Hin) as [c Hc]. unfold sema_block, sema_wait in Hs. rewrite Hc in Hs.
  case_decide as Hpos; [|done]. simpl in Hs. apply some_pair in Hs as [-> ->].
  destruct (v_counts _ _ _ I) as [C1 C2 C3 C4 C5 C6 C7 C8 [C9 C9'] C10 C11 C12 C13].
  destruct (C11 s c Hc) as [ ->|[-> (n' & Hn1 & Hn2)]]; [lia|]. clear Hpos.
  apply T3 in Hn2 as Hw. destruct Hw as (j & m & Hj & Hm).
  assert (j = i) as ->. { apply (T7 j i m _ s Hj Hp); [|done]. unfold semas_of. rewrite Hm. apply elem_of_app. right. by left. }
  unfold at_pc in Hp. rewrite Hp in Hj. injection Hj as <-. simpl in Hm. injection Hm as <-.
  pose proof (msum_pos (λ c, c) _ s 1 (signal_range g h ths I) Hc) as Hge. simpl in Hge. fold (signals g) in Hge.
  pose proof (sums_range ths) as (Hsr & _). set (st := set_semas _ _).
  assert (signals (set_store st g) = signals g - 1) as Es.
  { unfold signals, st. simpl. rewrite (msum_update _ _ s 1) by done. lia. }
  split.
  - pose proof (lsum_nonneg about ths (λ p, proj1 (proj2 (proj2 (about_ge p))))).
    apply (counts_update g h ths i _ I Hp); cbn [fst snd]; rewrite ?Es; cbn -[Z.add Z.sub Z.mul Z.of_nat Z.max]; try done; try lia.
    intros x k [[<- <-]|[_ Hx]]%lookup_insert_Some; [by left|by apply C11].
  - by apply (store_list (L_bwait n s ctxt func)).
  - apply store_items; [|done]. intros x. simpl. destruct (decide (s = x)) as [<-|Hne]; [by rewrite Hc|by rewrite lookup_insert_ne].
  - apply (store_threads (L_bwait n s ctxt func)); try done; [|by right].
    intros x Hx. simpl. destruct (decide (s = x)) as [<-|Hne]; [rewrite lookup_insert_eq; by eexists|by rewrite lookup_insert_ne].
Qed.

(** *** The item in hand goes *)

(** The signals of a queue while somebody has the right to run items. *)
Lemma no_signal p s c : here p → right p = 1 → semas (store g) !! s = Some c → c = 0.
Proof.
  intros Hp Hr Hs. destruct (right_alone g h ths I i _ Hp Hr) as (Hz & _).
  pose proof (msum_pos (λ c, c) _ s c (signal_range g h ths I) Hs) as H. simpl in H.
  pose proof (signal_range g h ths I s c Hs). unfold signals in Hz. lia.
Qed.

Lemma counts_right p p' t' g' h' :
  here p → right p = 1 → same_part p p' ∨ own p' = own p ∧ lock p' = lock p ∧ grants p' = grants p ∧ refs p' = refs p ∧ pend p' = pend p →
  dq_running g' = dq_running g → dq_width g' = dq_width g → do_suspend_cnt g' = do_suspend_cnt g →
  do_ref_cnt g' = do_ref_cnt g → targetq g' = targetq g → (∀ s c, semas (store g') !! s = Some c → c = 0) →
  h_susp h' = h_susp h → h_nsusp h' = h_nsusp h → h_held h' = h_held h →
  lane_counts g' h' (<[i:=(t', p')]> ths).
Proof.
  intros Hp Hr Hpart R1 R2 R3 R4 R5 Hs S1 S2 S3. unfold at_pc in *.
  assert (own p' = own p ∧ lock p' = lock p ∧ grants p' = grants p ∧ refs p' = refs p ∧ pend p' = pend p) as (E1 & E2 & E3 & E4 & E5).
  { destruct Hpart as [(?&?&?&?&?&_)|?]; done. }
  destruct (right_alone g h ths I i _ Hp Hr) as (Hz & Hone & _). simpl in Hone.
  assert (signals g' = 0) as Es by (unfold signals; by apply msum_zero).
  assert (right p' = 1) as Hr' by (unfold right in *; by rewrite E1).
  destruct (v_counts _ _ _ I) as [C1 C2 C3 C4 C5 C6 C7 C8 [C9 C9'] C10 C11 C12 C13].
  destruct (about_ge p') as (? & _). pose proof (lsum_one about ths i _ (λ p, proj1 (proj2 (proj2 (about_ge p)))) Hp) as Hge. simpl in Hge.
  apply (counts_update g h ths i _ I Hp); cbn [fst snd];
    rewrite ?R1, ?R2, ?R3, ?R4, ?R5, ?S1, ?S2, ?S3, ?Hr, ?Hr', ?E1, ?E2, ?E3, ?E4, ?E5, ?Es, ?Hz; try done; try lia.
  intros s c Hc. left. by apply (Hs s).
Qed.

Lemma gone_conts g' n x : conts g' = delete n (conts g) → x ≠ n → conts g' !! x = conts g !! x.
Proof. intros E Hne. by rewrite E, lookup_delete_ne. Qed.

Lemma gone_async g' n x : conts g' = delete n (conts g) → x ≠ n → async_cont g x → async_cont g' x.
Proof. intros E Hne (d & Hd & H). exists d. by rewrite (gone_conts g' n). Qed.

Lemma items_gone g' h' n :
  h_carry h = Some n → conts g' = delete n (conts g) → next_cont g' = next_cont g →
  h_pushed h' = h_pushed h → h_items h' = h_items h →
  started g' ++ option_list (h_carry h') = started g ++ option_list (h_carry h) →
  (∀ m s, h_wait h' !! m = Some s → h_wait h !! m = Some s ∧ m ≠ n) →
  (∀ m, m ≠ n → is_Some (h_wait h !! m) → is_Some (h_wait h' !! m)) →
  (∀ s, is_Some (semas (store g') !! s) → (s < next_sema (store g'))%nat) →
  lane_items g' h'.
Proof.
  intros Hc E En Ep Ei Es Hw Hw' Hsm. destruct (v_items _ _ _ I) as [L1 L2 L3 L4 L4' L5 L6].
  split; rewrite ?Ep, ?Ei, ?En; try done.
  - by rewrite L1, !app_assoc, Es.
  - intros x Hx. assert (x ≠ n) as Hne by (intros ->; by apply (carry_items g h ths I n Hc)).
    destruct (L3 x Hx); [left; by apply (gone_async g' n)|right; by apply Hw'].
  - intros m s Hm. apply Hw in Hm as [Hm Hne]. destruct (L4 m s Hm) as (d & Hd & H). exists d. by rewrite (gone_conts g' n).
  - intros m [s Hm] Hin. apply Hw in Hm as [Hm Hne]. apply (L4' m); [by exists s|].
    assert (m ∈ started g ++ option_list (h_carry h)) as H by (rewrite <- Es; apply elem_of_app; by left).
    rewrite Hc in H. apply elem_of_app in H as [|H%list_elem_of_singleton]; done.
  - intros m [Hm|Hm]; apply L5; [left|by right]. rewrite E in Hm. destruct Hm as [d [_ Hd]%lookup_delete_Some]. by exists d.
Qed.

Lemma list_gone p p' t' g' n : here p → h_carry h = Some n → conts g' = delete n (conts g) →
  dq_items_head g' = dq_items_head g → dq_items_tail g' = dq_items_tail g →
  opener (t', p') = opener (tsd, p) → linking (t', p') = linking (tsd, p) →
  mpsc opener linking (nx g') (dq_items_head g') (dq_items_tail g') (h_items h) (<[i:=(t', p')]> ths).
Proof.
  intros Hp Hc E Eh Et Eo Ek. rewrite Eh, Et. apply (mpsc_neutral opener linking _ _ _ _ _ _ _ (v_list _ _ _ I) Hp); try done.
  intros x Hx. unfold nx. rewrite (gone_conts g' n); [done..|]. intros ->. by apply (carry_items g h ths I n Hc).
Qed.

Lemma others_gone p g' h' n j m : here p → right p = 1 → h_carry h = Some n → conts g' = delete n (conts g) →
  h_pushed h' = h_pushed h → j ≠ i → ths !! j = Some m → base_local g' h' m.2 ∧ right_local g' h' m.2.
Proof.
  intros Hp Hr Hc E Ep Hne Hj. split; [|by apply (right_other g h ths i _ I Hp _ _ j m Hne Hj); left].
  apply (base_other g h ths i I _ _ j m Hne Hj); rewrite Ep; [|done]. intros x k _ Hx. split; [done|].
  apply (gone_async g' n); [done|]. intros ->. by apply Hx, (carry_pushed g h ths I).
Qed.

(** The drain calls the function of an item. *)
Lemma drain_call_step dc nxt p' g' : here (L_dr_call dc nxt) →
  _dispatch_continuation_pop dc (L_dr_run nxt) g = (p', g') → next (L_dr_call dc nxt) p' g'.
Proof.
  intros Hp Hs. destruct (at_right g h ths i tsd I _ Hp) as (Hc & d & Hd & Hd1 & Hd2).
  unfold _dispatch_continuation_pop in Hs. rewrite Hd, Hd1 in Hs. injection Hs as <- <-. set (g' := log_callout _ _).
  unfold lane_next. split.
  - apply (counts_right (L_dr_call dc nxt)); try done; [by left|]. intros s c. by apply (no_signal (L_dr_call dc nxt)).
  - by apply (list_gone (L_dr_call dc nxt) _ _ g' dc).
  - apply (items_gone g' _ dc); try done; [| |by apply (v_items _ _ _ I)].
    + rewrite Hc. unfold started. simpl. rewrite omap_app. simpl. by rewrite app_nil_r.
    + simpl. intros m s Hm. split; [done|]. intros ->. destruct (i_wait _ _ (v_items _ _ _ I) _ _ Hm) as (e & He & He1 & _). congruence.
  - apply (lthreads_update g h ths i _ I Hp); try done. intros j m Hne Hj. by apply (others_gone (L_dr_call dc nxt) _ _ dc j m).
Qed.

(** The waiting thread calls its own function. *)
Lemma bcall_step n ctxt func : here (L_bcall n ctxt func) →
  next (L_bcall n ctxt func) L_brun (log_callout (Some n, (ctxt, func)) g).
Proof.
  intros Hp. destruct (at_right g h ths i tsd I _ Hp) as [Hc Hnw]. unfold lane_next. split.
  - apply (counts_right (L_bcall n ctxt func)); try done; [by left|]. intros s c. by apply (no_signal (L_bcall n ctxt func)).
  - by apply (mpsc_neutral opener linking _ _ _ _ _ _ _ (v_list _ _ _ I) Hp).
  - destruct (v_items _ _ _ I) as [L1 L2 L3 L4 L4' L5 L6]. split; try done; unfold started; simpl; rewrite omap_app; simpl.
    + rewrite L1, Hc. simpl. by rewrite <- app_assoc.
    + intros m Hm [Hin|Hin%list_elem_of_singleton]%elem_of_app; [by apply (L4' m)|]. subst m. rewrite Hnw in Hm. by destruct Hm.
  - apply (lthreads_update g h ths i _ I Hp); try done. intros j m Hne Hj. split.
    + by apply (base_other g h ths i I _ _ j m Hne Hj).
    + by apply (right_other g h ths i _ I Hp _ _ j m Hne Hj); left.
Qed.

(** The waiting thread returns its semaphore, and gives its record up. *)
Lemma put_sema s n t st ctxt func : here (L_bput n s ctxt func) → _dispatch_put_thread_semaphore s tsd (store g) = (t, st) →
  t = Some s ∧ next_sema st = next_sema (store g) ∧
  (∀ x c, semas st !! x = Some c → semas (store g) !! x = Some c) ∧ is_Some (semas st !! s) ∧
  (∀ j m x, j ≠ i → ths !! j = Some m → x ∈ semas_of m → is_Some (semas st !! x) ∧ x ≠ s).
Proof.
  intros Hp Hs. destruct (v_threads _ _ _ I) as [T1 T2 T3 T4 T5 T6 T7]. destruct (T6 i _ Hp) as [Hnd Hsm].
  assert (∀ x, x ∈ option_list tsd ++ [s] → ∀ j m, j ≠ i → ths !! j = Some m → x ∉ semas_of m) as Hoth.
  { intros x Hx j m Hne Hj Hm. apply Hne. by apply (T7 j i m (tsd, L_bput n s ctxt func) x). }
  assert (is_Some (semas (store g) !! s)) as Hss by (apply Hsm; unfold semas_of; simpl; apply elem_of_app; right; by left).
  destruct tsd as [old|] eqn:Et; simpl in Hs; injection Hs as <- <-; split_and!; try done; cbn [semas set_semas _dispatch_thread_semaphore_dispose].
  - by intros x c [_ H]%lookup_delete_Some.
  - unfold semas_of in Hnd. simpl in Hnd. apply NoDup_cons in Hnd as [Hnd _]. rewrite lookup_delete_ne; [done|].
    intros ->. apply Hnd. by left.
  - intros j m x Hne Hj Hx. destruct (T6 j m Hj) as [_ H]. split.
    + rewrite lookup_delete_ne; [by apply H|]. intros <-. apply (Hoth old ltac:(by left) j m Hne Hj Hx).
    + intros ->. apply (Hoth s ltac:(right; by left) j m Hne Hj Hx).
  - intros j m x Hne Hj Hx. destruct (T6 j m Hj) as [_ H]. split; [by apply H|].
    intros ->. apply (Hoth s ltac:(by left) j m Hne Hj Hx).
Qed.

Lemma bput_step n s ctxt func l' g' : here (L_bput n s ctxt func) →
  _dispatch_barrier_sync_f_slow tsd (L_bput n s ctxt func) g = Some (l', g') →
  lane_inv g' (lane_log (L_bput n s ctxt func) l'.2 h) (<[i:=l']> ths).
Proof.
  intros Hp Hs. pose proof (at_right g h ths i tsd I _ Hp) as Hc. simpl in Hc.
  cbn [_dispatch_barrier_sync_f_slow] in Hs. unfold put_waiter in Hs.
  destruct (_dispatch_put_thread_semaphore s tsd (store g)) as [t st] eqn:E. apply some_pair in Hs as [-> ->].
  destruct (put_sema s n t st ctxt func Hp E) as (-> & Hn1 & Hs1 & Hs2 & Hs3). set (g' := set_store st _).
  destruct (v_threads _ _ _ I) as [T1 T2 T3 T4 T5 T6 T7]. change (lane_log _ _ h) with (log_wait (delete n (h_wait h)) h). split.
  - apply (counts_right (L_bput n s ctxt func)); try done; [by right|]. intros x c Hx. apply (no_signal (L_bput n s ctxt func) x); try done. by apply Hs1.
  - by apply (list_gone (L_bput n s ctxt func) _ _ g' n).
  - apply (items_gone g' _ n); try done.
    + intros m x Hm. simpl in Hm. by apply lookup_delete_Some in Hm as [? ?].
    + intros m Hne Hm. simpl. by rewrite lookup_delete_ne.
    + intros x [c Hx]. simpl. rewrite Hn1. apply (i_sema_fresh _ _ (v_items _ _ _ I)). exists c. by apply Hs1.
  - apply (threads_wait g h ths i I); try done.
    + simpl. split; [done|]. apply lookup_delete_eq.
    + intros j m Hne Hj. by apply (others_gone (L_bput n s ctxt func) _ _ n j m).
    + intros m x. simpl. rewrite lookup_delete_Some, T3. split.
      * intros [Hne (j & k & Hj & Hk)]. right. exists j, k. split_and!; try done. intros ->. unfold at_pc in Hp. rewrite Hp in Hj.
        injection Hj as <-. simpl in Hk. congruence.
      * intros [|(j & k & Hne & Hj & Hk)]; [done|]. split; [|by exists j, k]. intros <-. apply Hne.
        by apply (T4 j i k _ n x s Hj Hp).
    + unfold semas_of. simpl. apply NoDup_singleton.
    + unfold semas_of. simpl. by intros x ->%list_elem_of_singleton.
    + intros j m x Hne Hj Hx. destruct (Hs3 j m x Hne Hj Hx) as [H1 H2]. split; [done|]. unfold semas_of. simpl.
      by rewrite list_elem_of_singleton.
Qed.
End Wait.
