(* ===== verification/LaneCalls.v ===== *)
(** * The scheduling of a queue: what is called

    Every function a serial queue calls is called with the context it was
    submitted with. *)

From S2P Require Import Prelude Conc Mpsc ThreadSema Lane LaneInv LaneStep LaneQuiet LaneLists LanePush LaneWait.

(** The submissions, by their continuation. *)
Abbreviation submissions := (gmap nat (Z * Z)).

Definition call_log (p p' : lane_pc) (s : submissions) : submissions :=
  match p, p' with
  | L_barrier_async ctxt func, L_push n _ | L_async_alloc ctxt func, L_async2 n
  | L_bslow ctxt func, L_push n _ | L_sslow ctxt func, L_push n _ => <[n := (ctxt, func)]> s
  | _, _ => s
  end.

Fixpoint kargs (k : kont) : option (nat * (Z * Z)) :=
  match k with
  | K_barrier_wait n _ ctxt func | K_sync_wait n _ ctxt func => Some (n, (ctxt, func))
  | K_release k => kargs k
  | _ => None
  end.

(** The submission that a thread waits with. *)
Definition args_of (p : lane_pc) : option (nat * (Z * Z)) :=
  match p with
  | L_push _ k | L_link _ _ k | L_retain _ k | L_head _ k | L_wake k | L_wake_tail k | L_wake_cas k | L_wake_retain k
  | L_wake_push k | L_release k => kargs k
  | L_bwait n _ ctxt func | L_bput n _ ctxt func | L_bcall n ctxt func => Some (n, (ctxt, func))
  | _ => None
  end.

Record calls_inv (g : lane) (s : submissions) (ths : lthreads) : Prop := CallsInv {
  a_cont : ∀ n d, conts g !! n = Some d → has_bits d DISPATCH_OBJ_ASYNC_BIT = true → s !! n = Some (dc_ctxt d, dc_func d);
  a_args : ∀ j l n x, ths !! j = Some l → args_of l.2 = Some (n, x) → s !! n = Some x;
  a_fresh : ∀ n, is_Some (s !! n) → (n < next_cont g)%nat;
  a_log : ∀ n x, (Some n, x) ∈ callouts g → s !! n = Some x
}.

Section Calls.
Context (g : lane) (h : lane_history) (s : submissions) (ths : lthreads) (i : nat) (l : lane_thread).
Context (I : lane_inv g h ths) (C : calls_inv g s ths) (Hi : ths !! i = Some l).

(** A step that makes no continuation and calls nothing. *)
Lemma calls_same l' g' :
  (∀ n d, conts g' !! n = Some d → ∃ m e, conts g !! n = Some e ∧ d = set_dc_next m e) →
  callouts g' = callouts g → next_cont g' = next_cont g → (args_of l'.2 = None ∨ args_of l'.2 = args_of l.2) →
  calls_inv g' s (<[i:=l']> ths).
Proof.
  intros Hc Hl Hn Ha. destruct C as [C1 C2 C3 C4]. split; rewrite ?Hl, ?Hn; try done.
  - intros n d Hd Hb. destruct (Hc n d Hd) as (m & e & He & ->). exact (C1 n e He Hb).
  - intros j k n x [[<- <-]|[Hne Hj]]%lookup_insert_Some Hk; [|by eapply C2].
    destruct Ha as [Ha|Ha]; [congruence|]. apply (C2 i l); [done|congruence].
Qed.

(** A submission. *)
Lemma calls_new l' g' d x :
  conts g' = <[next_cont g := d]> (conts g) → next_cont g' = S (next_cont g) → callouts g' = callouts g →
  (has_bits d DISPATCH_OBJ_ASYNC_BIT = true → x = (dc_ctxt d, dc_func d)) →
  (∀ n y, args_of l'.2 = Some (n, y) → n = next_cont g ∧ y = x) →
  calls_inv g' (<[next_cont g := x]> s) (<[i:=l']> ths).
Proof.
  intros Hc Hn Hl Hd Ha. destruct C as [C1 C2 C3 C4].
  assert (∀ n y, s !! n = Some y → <[next_cont g := x]> s !! n = Some y) as Hs.
  { intros n y Hy. rewrite lookup_insert_ne; [done|]. intros <-. pose proof (C3 (next_cont g) ltac:(by exists y)). lia. }
  split; rewrite ?Hc, ?Hn, ?Hl.
  - intros n e [[<- <-]|[Hne He]]%lookup_insert_Some Hb; [rewrite lookup_insert_eq; f_equal; by apply Hd|]. by apply Hs, C1.
  - intros j k n y [[<- <-]|[Hne Hj]]%lookup_insert_Some Hk.
    + destruct (Ha n y Hk) as [-> ->]. apply lookup_insert_eq.
    + apply Hs. by eapply C2.
  - intros n [y [[<- _]|[_ Hy]]%lookup_insert_Some]; [lia|]. pose proof (C3 n ltac:(by exists y)). lia.
  - intros n y Hin. by apply Hs, C4.
Qed.

(** A call. *)
Lemma calls_call l' g' o x :
  (∀ n d, conts g' !! n = Some d → conts g !! n = Some d) → next_cont g' = next_cont g →
  callouts g' = callouts g ++ [(o, x)] → (∀ n, o = Some n → s !! n = Some x) → args_of l'.2 = None →
  calls_inv g' s (<[i:=l']> ths).
Proof.
  intros Hc Hn Hl Ho Ha. destruct C as [C1 C2 C3 C4]. split; rewrite ?Hl, ?Hn; try done.
  - intros n d Hd. by apply C1, Hc.
  - intros j k n y [[<- <-]|[Hne Hj]]%lookup_insert_Some Hk; [congruence|by eapply C2].
  - intros n y [Hin|[= <- <-]%list_elem_of_singleton]%elem_of_app; [by apply C4|by apply Ho].
Qed.

Lemma conts_same g' : conts g' = conts g → ∀ n d, conts g' !! n = Some d → ∃ m e, conts g !! n = Some e ∧ d = set_dc_next m e.
Proof. intros E n d Hd. rewrite E in Hd. exists (dc_next d), d. split; [done|]. by destruct d. Qed.

Lemma conts_insert g' x e m : conts g !! x = Some e → conts g' = <[x := set_dc_next m e]> (conts g) →
  ∀ n d, conts g' !! n = Some d → ∃ m e, conts g !! n = Some e ∧ d = set_dc_next m e.
Proof.
  intros He E n d Hd. rewrite E in Hd. apply lookup_insert_Some in Hd as [[<- <-]|[_ Hd]]; [by exists m, e|].
  exists (dc_next d), d. split; [done|]. by destruct d.
Qed.

Lemma conts_delete g' x : conts g' = delete x (conts g) →
  ∀ n d, conts g' !! n = Some d → ∃ m e, conts g !! n = Some e ∧ d = set_dc_next m e.
Proof.
  intros E n d Hd. rewrite E in Hd. apply lookup_delete_Some in Hd as [_ Hd]. exists (dc_next d), d. split; [done|]. by destruct d.
Qed.
End Calls.

(** The step of a thread. *)
Section Step.
Context (g : lane) (h : lane_history) (s : submissions) (ths : lthreads) (i : nat) (tsd : option nat).
Context (I : lane_inv g h ths) (C : calls_inv g s ths).

Lemma resume_args k : args_of (resume_kont k) = None ∨ args_of (resume_kont k) = kargs k.
Proof. destruct k; simpl; auto. Qed.

(** The steps that touch the continuations, or call. *)
Definition special (p : lane_pc) : bool :=
  match p with
  | L_push _ _ | L_link _ _ _ | L_out_link _ _ | L_barrier_async _ _ | L_bsync_call _ _ | L_dr_call _ _ => true
  | _ => false
  end.

(** The cases of a step. *)
Ltac cases Hs :=
  repeat match type of Hs with
  | context [match ?x with _ => _ end] => destruct x eqn:?
  end;
  first [discriminate Hs | apply some_pair in Hs as [-> ->] | apply (inj Some) in Hs; injection Hs as <- <-].

Lemma plain_step c p p' g' : base_local g h p → (∀ x, x ∈ targetq g → x = T_queue) → special p = false →
  lane_step c p g = Some (p', g') →
  conts g' = conts g ∧ callouts g' = callouts g ∧ next_cont g' = next_cont g ∧ call_log p p' s = s ∧
  (args_of p' = None ∨ args_of p' = args_of p).
Proof.
  intros Hb Ht Hsp Hs. clear I C.
  destruct p; try done; cbn in Hs; try done;
    unfold _dispatch_retain, _dispatch_release, dispatch_resume, one_none, one_some, drain_next, drain_out, sema_post in Hs;
    cbn in Hs; try (cases Hs; (split_and!; [done|done|done|done|]); simpl; auto; fail).
  - destruct c; cbn in Hs; try done; try (apply some_pair in Hs as [-> ->]; split_and!; simpl; auto; fail).
    destruct (targetq g) as [|[|n] q]; [done| |by specialize (Ht (T_redirect n) ltac:(left))].
    apply some_pair in Hs as [-> ->]. split_and!; simpl; auto.
  - destruct k; cbn in Hs; cases Hs; split_and!; simpl; auto.
  - destruct k; cbn in Hs; cases Hs; split_and!; simpl; auto.
  - destruct k; cbn in Hs; cases Hs; split_and!; simpl; auto.
  - destruct k; cbn in Hs; cases Hs; split_and!; simpl; auto.
  - destruct k; cbn in Hs; cases Hs; split_and!; simpl; auto.
Qed.

Lemma calls_lane_step c p p' g' : ths !! i = Some (tsd, p) → lane_step c p g = Some (p', g') →
  calls_inv g' (call_log p p' s) (<[i:=(tsd, p')]> ths).
Proof.
  intros Hp Hs. pose proof (at_base g h ths i tsd I p Hp) as Hb. pose proof (c_target _ _ _ (v_counts _ _ _ I)) as Ht.
  destruct (special p) eqn:Hsp.
  - destruct p; try done; cbn in Hs.
    + destruct (conts g !! n) as [d|] eqn:Hd; apply some_pair in Hs as [-> ->].
      * destruct (dq_items_tail g); (apply (calls_same g s ths i _ C Hp); try done; [by eapply conts_insert|by right]).
      * apply (calls_same g s ths i _ C Hp); try done; [by apply conts_same|by left].
    + destruct (conts g !! prev) as [d|] eqn:Hd; apply some_pair in Hs as [-> ->].
      * assert (call_log (L_link prev n k) (resume_kont k) s = s) as -> by done.
        apply (calls_same g s ths i _ C Hp); try done; [by eapply conts_insert|apply resume_args].
      * apply (calls_same g s ths i _ C Hp); try done; [by apply conts_same|by left].
    + unfold dispatch_barrier_async_f in Hs. destruct c as [| | | | | | |[]|]; cbn in Hs; try done; apply some_pair in Hs as [-> ->].
      * by eapply (calls_new g s ths i C).
      * apply (calls_same g s ths i _ C Hp); try done; [by apply conts_same|by left].
    + apply some_pair in Hs as [-> ->]. by eapply (calls_call g s ths i C).
    + apply (inj Some) in Hs. destruct (at_right g h ths i tsd I _ Hp) as (_ & d & Hd & Hd1 & _).
      unfold _dispatch_continuation_pop in Hs. rewrite Hd, Hd1 in Hs. injection Hs as <- <-.
      eapply (calls_call g s ths i C); try done.
      * intros n e. simpl. by intros [_ ?]%lookup_delete_Some.
      * intros n [= <-]. by apply (a_cont _ _ _ C).
    + destruct (conts g !! dc) as [d|] eqn:Hd; apply some_pair in Hs as [-> ->].
      * apply (calls_same g s ths i _ C Hp); try done; [by eapply conts_insert|by left].
      * apply (calls_same g s ths i _ C Hp); try done; [by apply conts_same|by left].
  - destruct (plain_step c p p' g' Hb Ht Hsp Hs) as (E1 & E2 & E3 & E4 & E5). rewrite E4.
    by apply (calls_same g s ths i _ C Hp); [apply conts_same|..].
Qed.

Lemma calls_tstep c p l' g' : ths !! i = Some (tsd, p) → lane_tstep c i (tsd, p) g = Some (l', g') →
  calls_inv g' (call_log p l'.2 s) (<[i:=l']> ths).
Proof.
  intros Hp Hs. pose proof (at_base g h ths i tsd I p Hp) as Hb.
  assert ((∃ p', l' = (tsd, p') ∧ lane_step c p g = Some (p', g')) ∨ _dispatch_barrier_sync_f_slow tsd p g = Some (l', g')) as [(p' & -> & H)|H].
  { destruct p; try (by destruct Hb); cbn [lane_tstep] in Hs; try (by right); left;
      (destruct (lane_step c _ g) as [[p' g1]|]; [|done]; injection Hs as <- <-; by exists p'). }
  - by apply (calls_lane_step c).
  - clear Hs. destruct p; try done; cbn in H.
    + unfold push_waiter in H. destruct (_dispatch_get_thread_semaphore tsd (store g)) as [[sm t] st]. injection H as <- <-.
      eapply (calls_new g s ths i C); try done. by intros n y [= <- <-].
    + unfold sema_block, sema_wait in H. destruct (semas (store g) !! sema) as [k|]; simpl in H; [case_decide|]; simpl in H; try done; injection H as <- <-;
        (apply (calls_same g s ths i _ C Hp); try done; [by apply conts_same|simpl; auto]).
    + unfold put_waiter in H. destruct (_dispatch_put_thread_semaphore sema tsd (store g)) as [t st]. injection H as <- <-.
      apply (calls_same g s ths i _ C Hp); try done; [by eapply conts_delete|by right].
    + injection H as <- <-. eapply (calls_call g s ths i C); try done. intros m [= <-]. by apply (a_args _ _ _ C i _ _ _ Hp).
    + injection H as <- <-. apply (calls_same g s ths i _ C Hp); try done; [by apply conts_same|by left].
    + injection H as <- <-. apply (calls_same g s ths i _ C Hp); try done; [by apply conts_same|left; by case_decide].
    + injection H as <- <-. apply (calls_same g s ths i _ C Hp); try done; [by apply conts_same|left; by case_decide].
    + injection H as <- <-. apply (calls_same g s ths i _ C Hp); try done; [by apply conts_same|by left].
    + injection H as <- <-. apply (calls_same g s ths i _ C Hp); try done; [by apply conts_same|left; by case_decide].
Qed.
End Step.
