(* ===== verification/LaneTheorems.v ===== *)
(** * The scheduling of a queue: the properties

    Any number of threads (below [2^28]) submit to one serial queue, suspend and
    resume it, and work for its target, in any interleaving of their atomic
    accesses. *)

From S2P Require Import Prelude Conc Mpsc ThreadSema Lane LaneInv LaneStep LaneQuiet LaneLists LanePush LaneWait LaneCalls.

(** ** Every step *)


Section Step.
Context (g : lane) (h : lane_history) (ths : lthreads) (i : nat) (tsd : option nat).
Context (I : lane_inv g h ths) (Hn : h_nsusp h ≤ 2 ^ 29).

Abbreviation here p := (at_pc ths i tsd p).
Abbreviation after := (lane_next h ths i tsd).

Lemma drain_any p p' g' : here p → _dispatch_queue_drain p g = Some (p', g') → after p p' g'.
Proof.
  intros Hp Hs.
  assert (drain_quiet g p ∨ drain_list g p ∨ base_local g h p = False ∨ ∃ dc nxt, p = L_dr_call dc nxt) as [H|[H|[H|(dc & nxt & ->)]]].
  { destruct p; try done; simpl; auto; try (right; right; right; by eexists _, _).
    - destruct (DISPATCH_OBJECT_SUSPENDED g); [|auto]. destruct next; [by right; left|by left; left].
    - destruct (dq_items_tail g); [by left|by right; left]. }
  - by eapply drain_step.
  - by eapply drain_list_step.
  - exfalso. rewrite <- H. by eapply at_base.
  - simpl in Hs. injection Hs as Hs. by eapply drain_call_step.
Qed.

Lemma one_any p p' g' : here p → (one_list p ∨ match p with L_one _ | L_one_next _ _ _ => True | _ => False end) →
  _dispatch_queue_drain_one_barrier_sync p g = Some (p', g') → after p p' g'.
Proof. intros Hp [H|H] Hs; [by eapply one_list_step|by eapply one_step]. Qed.

(** The functions that leave the semaphore of the thread alone. *)
Lemma lane_step_next c p p' g' :
  here p → h_nsusp (lane_log p p' h) ≤ 2 ^ 29 → h_over (lane_log p p' h) = false →
  lane_step c p g = Some (p', g') → after p p' g'.
Proof.
  intros Hp Hn' Ho Hs. pose proof (at_base g h ths i tsd I p Hp) as Hb.
  destruct p; try (by destruct Hb); cbn [lane_step] in Hs; try done;
    first
    [ by eapply drain_any
    | apply (one_any _ _ _ Hp); [by right|exact Hs]
    | apply (one_any _ _ _ Hp); [by left|exact Hs]
    | by eapply wake_step
    | by eapply push_step
    | by eapply push_link_step
    | by eapply slow2_step
    | by eapply begin_step
    | by eapply async_step
    | by eapply sync_step
    | by eapply barrier_async_step
    | by eapply barrier_sync_step
    | by eapply barrier_invoke_step
    | by eapply suspend_step
    | apply (inj Some) in Hs; by eapply release_step
    | apply (inj Some) in Hs; by eapply resume_step
    | by eapply barrier_f2_step; [..|exact Hs]
    | by eapply invoke_step; [..|exact Hs]
    | injection Hs as Hs; by eapply lane_signal_step
    | injection Hs as Hs; by eapply inv_signal_step ].
Qed.

Lemma lane_tstep_inv c p l' g' :
  here p → h_nsusp (lane_log p l'.2 h) ≤ 2 ^ 29 → h_over (lane_log p l'.2 h) = false →
  lane_tstep c i (tsd, p) g = Some (l', g') → lane_inv g' (lane_log p l'.2 h) (<[i:=l']> ths).
Proof.
  intros Hp Hn' Ho Hs. pose proof (at_base g h ths i tsd I p Hp) as Hb.
  assert (∀ o, ('(p', g1) ← o; Some ((tsd, p'), g1)) = Some (l', g') →
    ∃ p', l' = (tsd, p') ∧ o = Some (p', g')) as Hbind.
  { intros [[p' g1]|]; [|done]. intros [= <- <-]. by exists p'. }
  destruct p; try (by destruct Hb); cbn [lane_tstep] in Hs;
    try (apply Hbind in Hs as (p' & -> & Hs); by eapply lane_step_next).
  - by eapply bslow_step.
  - cbn in Hs. apply Hbind in Hs as (p' & -> & Hs). by eapply bwait_step.
  - by eapply bput_step.
  - injection Hs as <- <-. by apply bcall_step.
  - injection Hs as <- <-. by apply (barrier_slow_step g h ths i tsd I Hn L_brun).
  - injection Hs as <- <-. by apply (barrier_slow_step g h ths i tsd I Hn L_bcheck).
  - injection Hs as <- <-. by apply (barrier_slow_step g h ths i tsd I Hn L_bcheck_running).
  - injection Hs as <- <-. by apply (barrier_slow_step g h ths i tsd I Hn L_bresume).
  - injection Hs as <- <-. by apply (barrier_slow_step g h ths i tsd I Hn L_bdec).
Qed.
End Step.

(** ** Reachable states *)

Abbreviation lhistory := (lane_history * submissions)%type.
Abbreviation lconfig := (config (G := lane * lhistory) (L := lane_thread)).

Definition lane_full (c : lane_choice) (i : nat) (l : lane_thread) (s : lane * lhistory)
  : option (lane_thread * (lane * lhistory)) :=
  '(l', (g, h)) ← lane_hstep c i l (s.1, s.2.1); Some (l', (g, (h, call_log l.2 l'.2 s.2.2))).

(** What [dispatch_queue_create] and [dispatch_set_queue_width] leave. *)
Definition new_lane (width : Z) : lane := Lane None None 0 width 0 0 true ∅ 0 [] (Semas ∅ 0) [].

Definition lane_init (width : Z) (s : lconfig) : Prop :=
  shared s = (new_lane width, (LHist [] None [] ∅ 0 0 0 false, ∅)) ∧
  (∀ i l, threads s !! i = Some l → l = (None, L_idle)) ∧ Z.of_nat (size (threads s)) < 2 ^ 28.

(** The clients resumed only what they had suspended, and the suspensions fit
    the counter. *)
Definition client_ok (s : lconfig) : Prop := h_over (shared s).2.1 = false ∧ h_nsusp (shared s).2.1 ≤ 2 ^ 29.

Definition serial_inv (s : lconfig) : Prop :=
  client_ok s → lane_inv (shared s).1 (shared s).2.1 (threads s) ∧ calls_inv (shared s).1 (shared s).2.2 (threads s).

Lemma client_ok_log p p' h : h_over (lane_log p p' h) = false → h_nsusp (lane_log p p' h) ≤ 2 ^ 29 →
  h_over h = false ∧ h_nsusp h ≤ 2 ^ 29.
Proof.
  intros H1 H2. assert ((h_over h = true → h_over (lane_log p p' h) = true) ∧ h_nsusp h ≤ h_nsusp (lane_log p p' h)) as [H3 H4].
  { unfold lane_log. repeat case_match; simpl; (split; [|lia]); try done. by intros ->. }
  split; [|lia]. destruct (h_over h); [|done]. by rewrite H3 in H1.
Qed.

Lemma serial_inv_step s s' : serial_inv s → cstep lane_full s s' → serial_inv s'.
Proof.
  intros Hinv Hs. destruct Hs as [i c l [g [h a]] ths l' [g' [h' a']] Hi Ht]. unfold lane_full, lane_hstep in Ht. simpl in Ht.
  destruct (lane_tstep c i l g) as [[l1 g1]|] eqn:E; [|done]. simpl in Ht. injection Ht as -> -> <- <-.
  intros [Ho Hn]. simpl in *. destruct (client_ok_log _ _ _ Ho Hn) as [Ho' Hn'].
  destruct (Hinv (conj Ho' Hn')) as [I C]. simpl in I, C. destruct l as [tsd p]. split.
  - by apply (lane_tstep_inv g h ths i tsd I Hn' c).
  - by apply (calls_tstep g h a ths i tsd I C c).
Qed.

Lemma serial_inv_init s : lane_init 1 s → serial_inv s.
Proof.
  intros (Es & Ht & Hz) _. rewrite Es. simpl.
  assert (∀ f : lane_pc → Z, f L_idle = 0 → lsum f (threads s) = 0) as Hs.
  { intros f Hf. apply tsum_zero. intros i l Hl. by rewrite (Ht i l Hl). }
  split; [split|].
  - split; rewrite ?Hs by done; try done; simpl.
    + intros x Hx. by apply not_elem_of_nil in Hx.
    + by intros [?|?].
  - split; try done; simpl.
    + rewrite tsum_zero; [done|]. intros j l Hl. by rewrite (Ht j l Hl).
    + intros j l n Hl. by rewrite (Ht j l Hl).
    + apply NoDup_nil_2.
    + intros x Hx. by apply not_elem_of_nil in Hx.
    + intros a b [Hx%not_elem_of_nil _]%adj_in. done.
    + intros j l a b Hl. by rewrite (Ht j l Hl).
    + intros j k l m a b b' Hl _. by rewrite (Ht j l Hl).
  - split; simpl; try done.
    + apply NoDup_nil_2.
    + intros x Hx. by apply not_elem_of_nil in Hx.
    + intros n [x Hx]. by rewrite lookup_empty in Hx.
    + intros n [[x Hx]|Hx]; [by rewrite lookup_empty in Hx|by apply not_elem_of_nil in Hx].
    + intros x [c Hx]. by rewrite lookup_empty in Hx.
  - split; simpl.
    + intros j l Hl. by rewrite (Ht j l Hl).
    + intros j l Hl. by rewrite (Ht j l Hl).
    + intros n x. rewrite lookup_empty. split; [done|]. intros (j & l & Hl & Hw). by rewrite (Ht j l Hl) in Hw.
    + intros j k l m n x x' Hl _. by rewrite (Ht j l Hl).
    + intros j k l m n ka kb Hl _. by rewrite (Ht j l Hl).
    + intros j l Hl. rewrite (Ht j l Hl). split; [apply NoDup_nil_2|]. intros x Hx. by apply not_elem_of_nil in Hx.
    + intros j k l m x Hl _ Hx. rewrite (Ht j l Hl) in Hx. by apply not_elem_of_nil in Hx.
  - split; simpl.
    + intros n d. by rewrite lookup_empty.
    + intros j l n x Hl. by rewrite (Ht j l Hl).
    + intros n [x Hx]. by rewrite lookup_empty in Hx.
    + intros n x Hx. by apply not_elem_of_nil in Hx.
Qed.

Lemma serial_reachable s : reachable lane_full (lane_init 1) s → client_ok s →
  lane_inv (shared s).1 (shared s).2.1 (threads s) ∧ calls_inv (shared s).1 (shared s).2.2 (threads s).
Proof. intros H. apply (reachable_inv _ _ serial_inv serial_inv_init serial_inv_step s H). Qed.

(** ** A serial queue *)

(** Inside a function that the queue called. *)
Definition runs (p : lane_pc) : bool :=
  match p with L_dr_run _ | L_bsync_run | L_brun | L_srun | L_rrun => true | _ => false end.

(** C1. Whatever the interleaving, at most one function submitted to a serial
    queue runs at a time, asynchronous or synchronous, and no thread of the
    library crashes. *)
Theorem serial_queue_exclusive s :
  reachable lane_full (lane_init 1) s → client_ok s →
  (∀ i j l m, threads s !! i = Some l → threads s !! j = Some m → runs l.2 = true → runs m.2 = true → i = j) ∧
  (∀ i l f, threads s !! i = Some l → l.2 ≠ L_crash f).
Proof.
  intros Hr Hc. destruct (serial_reachable s Hr Hc) as [I _]. split.
  - intros i j l m Hi Hj Hl Hm. destruct (decide (i = j)) as [|Hne]; [done|].
    assert (∀ k n, threads s !! k = Some n → runs n.2 = true → right n.2 = 1) as Hk.
    { intros k [t p] Hk Hp. pose proof (t_base _ _ _ (v_threads _ _ _ I) k _ Hk). by destruct p. }
    destruct (right_alone _ _ _ I i l Hi (Hk i l Hi Hl)) as (_ & _ & Ho). specialize (Ho j m ltac:(done) Hj).
    rewrite (Hk j m Hj Hm) in Ho. done.
  - intros i l f Hi E. pose proof (t_base _ _ _ (v_threads _ _ _ I) i _ Hi) as Hb. by rewrite E in Hb.
Qed.

(** C2. A serial queue calls what was pushed on it in the order of the pushes,
    every item at most once, and with the context and the function it was
    submitted with: the items are those called, the one in hand and those in
    the list. *)
Theorem serial_queue_fifo s :
  reachable lane_full (lane_init 1) s → client_ok s →
  let g := (shared s).1 in let h := (shared s).2.1 in
  h_pushed h = started g ++ option_list (h_carry h) ++ h_items h ∧ NoDup (h_pushed h) ∧
  (∀ n x, (Some n, x) ∈ callouts g → (shared s).2.2 !! n = Some x).
Proof.
  intros Hr Hc. destruct (serial_reachable s Hr Hc) as [I C].
  split_and!; [apply (v_items _ _ _ I)|apply (v_items _ _ _ I)|apply (a_log _ _ _ C)].
Qed.

(** Nothing moves unless a client calls: every thread is idle, or blocked in
    [_dispatch_barrier_sync_f_slow], and the target has nothing to run. *)
Definition lane_quiescent (s : lconfig) : Prop :=
  targetq (shared s).1 = [] ∧
  ∀ i l, threads s !! i = Some l →
    l.2 = L_idle ∨ ∃ n sema ctxt func, l.2 = L_bwait n sema ctxt func ∧ semas (store (shared s).1) !! sema = Some 0.

(** C3. No item is forgotten: when nothing moves any more and no client has
    suspended the queue, everything that was pushed was called, and no thread
    is blocked. *)
Theorem serial_queue_drains s :
  reachable lane_full (lane_init 1) s → client_ok s → lane_quiescent s → h_susp (shared s).2.1 = 0 →
  started (shared s).1 = h_pushed (shared s).2.1 ∧ ∀ i l, threads s !! i = Some l → l.2 = L_idle.
Proof.
  intros Hr Hc [Ht Hq] Hz. destruct (serial_reachable s Hr Hc) as [I _]. destruct (shared s) as [g [h a]]. simpl in *.
  assert (∀ f : lane_pc → Z, f L_idle = 0 → (∀ n sema ctxt func, f (L_bwait n sema ctxt func) = 0) → lsum f (threads s) = 0) as Hs.
  { intros f H1 H2. apply tsum_zero. intros i l Hl. destruct (Hq i l Hl) as [->|(n & sm & x & y & -> & _)]; auto. }
  assert (signals g = 0) as Hsig.
  { apply msum_zero. intros sm c Hsm. destruct (c_signal _ _ _ (v_counts _ _ _ I) sm c Hsm) as [|[-> Hg]]; [done|].
    destruct (granted_waits g h (threads s) I sm Hg) as (n & j & m & _ & Hj & Hm & _).
    destruct (Hq j m Hj) as [E|(n' & sm' & x & y & E & H0)]; rewrite E in Hm; simpl in Hm; [done|]. injection Hm as -> ->. congruence. }
  assert (h_items h = [] ∧ h_carry h = None) as [Hi Hca].
  { destruct (decide (h_items h = [] ∧ h_carry h = None)) as [|Hn]; [done|exfalso].
    assert (0 < lsum about (threads s) + Z.of_nat (length (targetq g)) + signals g) as H.
    { apply (v_counts _ _ _ I); [|done]. destruct (h_items h), (h_carry h); auto. }
    rewrite Hs, Ht, Hsig in H by done. simpl in H. lia. }
  pose proof (i_log _ _ (v_items _ _ _ I)) as Hl. rewrite Hi, Hca in Hl. simpl in Hl. rewrite app_nil_r in Hl.
  split; [done|]. intros i l Hl'. destruct (Hq i l Hl') as [|(n & sm & x & y & E & _)]; [done|exfalso].
  pose proof (t_base _ _ _ (v_threads _ _ _ I) i l Hl') as Hb. rewrite E in Hb. simpl in Hb.
  apply (i_unstarted _ _ (v_items _ _ _ I) n); [|by rewrite <- Hl].
  exists sm. apply (t_wait _ _ _ (v_threads _ _ _ I)). exists i, l. by rewrite E.
Qed.

(** ** Threads at work *)

Definition lane_threads_at (n : nat) : gmap nat lane_thread := list_to_map ((λ i, (i, (None, L_idle))) <$> seq 0 n).

Definition lane_start (width : Z) : lconfig :=
  Config (new_lane width, (LHist [] None [] ∅ 0 0 0 false, ∅)) (lane_threads_at 4).

Lemma lane_start_init width : lane_init width (lane_start width).
Proof.
  split_and!; [done| |by vm_compute].
  apply (threads_forall _ _ _ eq_refl). vm_compute. repeat constructor.
Qed.

Definition go (i n : nat) : list (nat * lane_choice) := replicate n (i, LC_go).

(** Thread 0 submits, thread 1 submits and waits; thread 2 suspends and resumes
    the queue; thread 3 works for the target, and calls the first function. *)
Definition serial_calls : list (nat * lane_choice) :=
  (2%nat, LC_suspend) :: go 2 2 ++ (0%nat, LC_barrier_async 10 11) :: (0%nat, LC_alloc true) :: go 0 12 ++
  (1%nat, LC_barrier_sync 20 21) :: go 1 12 ++ (2%nat, LC_resume) :: go 2 12 ++ (3%nat, LC_work) :: go 3 10.

Definition serial_busy : lconfig := play lane_full serial_calls (lane_start 1).
Definition serial_end : lconfig := play lane_full (go 3 30 ++ go 1 30 ++ go 0 30) serial_busy.

Lemma serial_busy_reachable : reachable lane_full (lane_init 1) serial_busy.
Proof. apply play_reachable. exists (lane_start 1). split; [apply lane_start_init|done]. Qed.

Lemma serial_end_reachable : reachable lane_full (lane_init 1) serial_end.
Proof. apply play_reachable, serial_busy_reachable. Qed.

Lemma serial_busy_ok : client_ok serial_busy.
Proof. split; vm_compute; done. Qed.

Lemma serial_end_ok : client_ok serial_end.
Proof. split; vm_compute; done. Qed.

Lemma serial_queue_exclusive_witness :
  (∃ l, threads serial_busy !! 3%nat = Some l ∧ runs l.2 = true) ∧
  ¬ ∃ i l, i ≠ 3%nat ∧ threads serial_busy !! i = Some l ∧ runs l.2 = true.
Proof.
  assert (threads serial_busy !! 3%nat = Some (None, L_dr_run (Some 1%nat))) as H3 by (by vm_compute).
  split; [exact (ex_intro _ _ (conj H3 eq_refl))|]. intros (i & l & Hne & Hi & Hl). apply Hne.
  destruct (serial_queue_exclusive serial_busy serial_busy_reachable serial_busy_ok) as [H _].
  exact (H i 3%nat l (None, L_dr_run (Some 1%nat)) Hi H3 Hl eq_refl).
Defined.

Lemma serial_queue_fifo_witness :
  callouts (shared serial_end).1 = [(Some 0%nat, (10, 11)); (Some 1%nat, (20, 21))] ∧
  (shared serial_end).2.2 !! 1%nat = Some (20, 21).
Proof.
  assert (callouts (shared serial_end).1 = [(Some 0%nat, (10, 11)); (Some 1%nat, (20, 21))]) as E by (by vm_compute).
  split; [exact E|]. destruct (serial_queue_fifo serial_end serial_end_reachable serial_end_ok) as (_ & _ & H).
  apply H. rewrite E. right. by left.
Defined.

Lemma serial_end_quiescent : lane_quiescent serial_end.
Proof.
  split; [by vm_compute|]. apply (threads_forall (λ _ (l : lane_thread), l.2 = L_idle ∨ _) _ _ eq_refl).
  vm_compute. repeat constructor.
Qed.

Lemma serial_queue_drains_witness : started (shared serial_end).1 = [0%nat; 1%nat].
Proof.
  rewrite (proj1 (serial_queue_drains serial_end serial_end_reachable serial_end_ok serial_end_quiescent ltac:(by vm_compute))).
  by vm_compute.
Defined.

(** ** A concurrent queue *)

(** Thread 2 runs a function; thread 0 has seen the queue empty and not
    suspended; thread 1 has to push its barrier and wait; thread 2 ends, thread 3
    drains the queue and lets the barrier in, and thread 0 goes on. *)
Definition barrier_calls : list (nat * lane_choice) :=
  (2%nat, LC_sync 1 1) :: go 2 5 ++ (0%nat, LC_sync 2 2) :: go 0 3 ++ (1%nat, LC_barrier_sync 3 3) :: go 1 14 ++
  go 2 10 ++ (3%nat, LC_work) :: go 3 20 ++ go 1 3 ++ go 0 2.

Definition barrier_end : lconfig := play lane_full barrier_calls (lane_start 4).

(** On a concurrent queue a barrier is not exclusive: a function submitted
    with [dispatch_sync_f] can start while one submitted with
    [dispatch_barrier_sync_f] runs, because [_dispatch_sync_f2] looks at the
    list and at the suspension before it adds itself to [dq_running], and a
    barrier that waited in the list counts 2 there and not the low bit. *)
Theorem concurrent_barrier_not_exclusive :
  ∃ s i j l m, reachable lane_full (lane_init 4) s ∧ client_ok s ∧ i ≠ j ∧
    threads s !! i = Some l ∧ l.2 = L_brun ∧ threads s !! j = Some m ∧ m.2 = L_srun.
Proof.
  exists barrier_end, 1%nat, 0%nat, (Some 0%nat, L_brun), (None, L_srun). split.
  { apply play_reachable. exists (lane_start 4). split; [apply lane_start_init|apply rtc_refl]. }
  split; [split; vm_compute; done|]. split; [done|]. split_and!; vm_compute; reflexivity.
Qed.
