(* ===== verification/Apply.v ===== *)
(** * The parallel loop (src/apply.c)

    One call of [dispatch_apply_f] on a root queue: the calling thread pushes
    continuations that lead to one record, and every thread that pops one takes
    indices from the record until there are no more.  A step is one atomic access
    to shared memory, with the private work before it, or a call of the client's
    function.  The second part is the width that [_dispatch_apply_redirect] takes
    on the queues between the one it is given and the root queue. *)

From S2P Require Import Prelude Conc ThreadSema.

(** ** The record *)

Definition DISPATCH_APPLY_MAX_CPUS : Z := 64.

Record dispatch_apply_s : Type := DA {
  da_index : Z;
  da_iterations : Z;
  da_func : Z;
  da_ctxt : Z;
  da_sema : nat;
  da_done : Z;
  da_thr_cnt : Z
}.

Definition set_index x d := DA x (da_iterations d) (da_func d) (da_ctxt d) (da_sema d) (da_done d) (da_thr_cnt d).
Definition set_sema x d := DA (da_index d) (da_iterations d) (da_func d) (da_ctxt d) x (da_done d) (da_thr_cnt d).
Definition set_done x d := DA (da_index d) (da_iterations d) (da_func d) (da_ctxt d) (da_sema d) x (da_thr_cnt d).
Definition set_thr_cnt x d := DA (da_index d) (da_iterations d) (da_func d) (da_ctxt d) (da_sema d) (da_done d) x.

(** The record, if it is allocated; the continuations that lead to it on the root
    queue; the thread semaphores; every call of the client's function, with the
    index, the context and the function. *)
Record apply_state : Type := AState {
  da : option dispatch_apply_s;
  pending : nat;
  semaphores : sema_store;
  calls : list (Z * (Z * Z))
}.

Definition set_da x g := AState x (pending g) (semaphores g) (calls g).
Definition set_pending x g := AState (da g) x (semaphores g) (calls g).
Definition set_semaphores x g := AState (da g) (pending g) x (calls g).
Definition log_apply x g := AState (da g) (pending g) (semaphores g) (calls g ++ [x]).

(** ** Program points *)

Inductive apply_pc : Type :=
  | AP_idle
  | AP_returned
  | AP_crash (f : fault)
  (* dispatch_apply_f, _dispatch_apply_f2 *)
  | AP_start (iterations ctxt func : Z) (nested : bool)
  | AP_conts (cnt i : Z)
  | AP_sema (cnt : Z)
  | AP_wait (sema : nat)
  | AP_put (sema : nat)
  (* _dispatch_apply_invoke; [caller]: the semaphore of the calling thread *)
  | AP_enter (caller : option nat)
  | AP_loop (caller : option nat) (iter done : Z)
  | AP_call (caller : option nat) (iter idx done : Z)
  | AP_run (caller : option nat) (iter done : Z)
  | AP_done (caller : option nat) (iter done : Z)
  | AP_signal (caller : option nat)
  | AP_dec (caller : option nat)
  (* _dispatch_apply_serial *)
  | AP_serial (idx : Z)
  | AP_serial_run (idx : Z)
  | AP_serial_free.

Abbreviation apply_thread := (option nat * apply_pc)%type.

Inductive apply_choice : Type :=
  | AC_work
  | AC_alloc (ok : bool)
  | AC_go.

(** The record does not exist: a use after free. *)
Definition bad_da : apply_pc := AP_crash (UB "dispatch_apply_t").
Definition bad_tsema : apply_pc := AP_crash (UB "thread semaphore").

(** ** The operations *)

Definition with_da (g : apply_state) (k : dispatch_apply_s → apply_pc * apply_state) : apply_pc * apply_state :=
  match da g with Some d => k d | None => (bad_da, g) end.

(** How many threads are to share the work. *)
Definition apply_thr_cnt (max_active iterations : Z) : Z :=
  let thr_cnt := max_active in
  let thr_cnt := if DISPATCH_APPLY_MAX_CPUS <? thr_cnt then DISPATCH_APPLY_MAX_CPUS else thr_cnt in
  if iterations <? thr_cnt then u32 iterations else thr_cnt.

(** After the loop of [_dispatch_apply_invoke], and after it. *)
Definition apply_after (caller : option nat) : apply_pc :=
  match caller with Some sema => AP_wait sema | None => AP_idle end.

Definition _dispatch_apply_invoke (p : apply_pc) (g : apply_state) : option (apply_pc * apply_state) :=
  match p with
  | AP_enter w => Some (with_da g (λ d, (AP_loop w (da_iterations d) 0, g)))
  | AP_loop w iter done =>
      Some (with_da g (λ d,
        let index := u64 (da_index d + 1) in
        let idx := u64 (index - 1) in
        (if decide (idx < iter) then AP_call w iter idx done
         else if decide (done = 0) then AP_dec w else AP_done w iter done,
         set_da (Some (set_index index d)) g)))
  | AP_call w iter idx done =>
      Some (with_da g (λ d, (AP_run w iter done, log_apply (idx, (da_ctxt d, da_func d)) g)))
  | AP_run w iter done => Some (AP_loop w iter (u64 (done + 1)), g)
  | AP_done w iter done =>
      Some (with_da g (λ d,
        let total := u64 (da_done d + done) in
        (if decide (total = iter) then AP_signal w else AP_dec w, set_da (Some (set_done total d)) g)))
  | AP_signal w =>
      Some (with_da g (λ d,
        match sema_signal (da_sema d) (semaphores g) with
        | Some st => (AP_dec w, set_semaphores st g)
        | None => (bad_tsema, g)
        end))
  | AP_dec w =>
      Some (with_da g (λ d,
        let thr_cnt := u32 (da_thr_cnt d - 1) in
        (apply_after w, set_da (if decide (thr_cnt = 0) then None else Some (set_thr_cnt thr_cnt d)) g)))
  | _ => None
  end.

Definition _dispatch_apply_serial (p : apply_pc) (g : apply_state) : option (apply_pc * apply_state) :=
  match p with
  | AP_serial idx => Some (with_da g (λ d, (AP_serial_run idx, log_apply (idx, (da_ctxt d, da_func d)) g)))
  | AP_serial_run idx =>
      Some (with_da g (λ d,
        let idx := u64 (idx + 1) in (if decide (idx < da_iterations d) then AP_serial idx else AP_serial_free, g)))
  | AP_serial_free => Some (with_da g (λ d, (AP_returned, set_da None g)))
  | _ => None
  end.

(** The semaphore is written to the record before the continuations are there
    for others. *)
Definition _dispatch_apply_f2 (c : apply_choice) (tsd : option nat) (p : apply_pc) (g : apply_state)
  : option (apply_thread * apply_state) :=
  match p with
  | AP_conts cnt i =>
      match c with
      | AC_alloc ok =>
          Some (tsd, if ok then if decide (u32 (i + 1) < cnt) then AP_conts cnt (u32 (i + 1)) else AP_sema cnt else p, g)
      | _ => None
      end
  | AP_sema cnt =>
      match da g with
      | Some d =>
          let '(sema, tsd, st) := _dispatch_get_thread_semaphore tsd (semaphores g) in
          Some (tsd, AP_enter (Some sema),
            AState (Some (set_sema sema d)) (pending g + Z.to_nat cnt) st (calls g))
      | None => Some (tsd, bad_da, g)
      end
  | AP_wait sema =>
      match sema_wait sema (semaphores g) with
      | inl _ => Some (tsd, bad_tsema, g)
      | inr o => st ← o; Some (tsd, AP_put sema, set_semaphores st g)
      end
  | AP_put sema =>
      let '(tsd, st) := _dispatch_put_thread_semaphore sema tsd (semaphores g) in
      Some (tsd, AP_returned, set_semaphores st g)
  | _ => None
  end.

Section Apply.
(** [_dispatch_hw_config.cc_max_active] *)
Context (max_active : Z).

(** The width of a root queue is not at most 2.  [nested]: the thread is in a
    [dispatch_apply] already. *)
Definition dispatch_apply_f (c : apply_choice) (p : apply_pc) (g : apply_state) : option (apply_pc * apply_state) :=
  match p with
  | AP_start iterations ctxt func nested =>
      if decide (iterations = 0) then Some (AP_returned, g)
      else
        match c with
        | AC_alloc true =>
            let thr_cnt := apply_thr_cnt max_active iterations in
            let g := set_da (Some (DA 0 iterations func ctxt 0 0 thr_cnt)) g in
            if (thr_cnt <=? 1) || nested then Some (AP_serial 0, g)
            else
              let cnt := u32 (thr_cnt - 1) in
              Some (if decide (cnt = 0) then AP_crash (DISPATCH_CRASH "continuation_cnt") else AP_conts cnt 0, g)
        | AC_alloc false => Some (p, g)
        | _ => None
        end
  | _ => None
  end.

(** A worker pops a continuation. *)
Definition apply_work (c : apply_choice) (g : apply_state) : option (apply_pc * apply_state) :=
  match c, pending g with
  | AC_work, S n => Some (AP_enter None, set_pending n g)
  | _, _ => None
  end.

Definition apply_tstep (c : apply_choice) (i : nat) (l : apply_thread) (g : apply_state)
  : option (apply_thread * apply_state) :=
  let '(tsd, p) := l in
  match p with
  | AP_conts _ _ | AP_sema _ | AP_wait _ | AP_put _ => _dispatch_apply_f2 c tsd p g
  | _ =>
      '(p, g) ←
        match p with
        | AP_idle => apply_work c g
        | AP_start _ _ _ _ => dispatch_apply_f c p g
        | AP_serial _ | AP_serial_run _ | AP_serial_free => _dispatch_apply_serial p g
        | _ => _dispatch_apply_invoke p g
        end;
      Some ((tsd, p), g)
  end.
End Apply.


(** ** The queues between *)

(** [dq_running] and [dq_width]. *)
Abbreviation queue_use := (Z * Z)%type.

Definition use_width (k : Z) (q : queue_use) : queue_use := (u32 (q.1 + k), q.2).
Definition give_width (k : Z) (q : queue_use) : queue_use := (u32 (q.1 - k), q.2).

Inductive redirect_to : Type :=
  (* _dispatch_apply_serial *)
  | RT_serial (queues : list queue_use)
  (* _dispatch_apply_f2, with the queues while it runs and after it *)
  | RT_apply (thr_cnt : Z) (during after : list queue_use).

(** The first loop of [_dispatch_apply_redirect]: [taken] are the queues from the
    given one up to [rq], [queues] those from [rq] to the root queue. *)
Fixpoint redirect_loop (da_width thr_cnt : Z) (taken queues : list queue_use) : redirect_to :=
  match queues with
  | [] => RT_apply thr_cnt taken (give_width da_width <$> taken)
  | rq :: queues =>
      let rq := use_width da_width rq in
      let running := rq.1 in
      let width := rq.2 in
      if decide (width < running) then
        let excess := if decide (1 < width) then u32 (running - width) else da_width in
        let taken := give_width excess <$> taken ++ [rq] in
        let da_width := u32 (da_width - excess) in
        if decide (da_width = 0) then RT_serial (taken ++ queues)
        else redirect_loop da_width (u32 (thr_cnt - excess / 2)) taken queues
      else redirect_loop da_width thr_cnt (taken ++ [rq]) queues
  end.

(** [queues]: the given queue and those it leads to, without the root queue. *)
Definition _dispatch_apply_redirect (thr_cnt : Z) (queues : list queue_use) : redirect_to :=
  redirect_loop (u32 (2 * u32 (thr_cnt - 1))) thr_cnt [] queues.

(** [continuation_cnt] of [_dispatch_apply_f2]. *)
Definition continuation_cnt (thr_cnt : Z) : Z := u32 (thr_cnt - 1).
