(* ===== verification/ApplyInv.v ===== *)
(** * The parallel loop: the invariant of one call *)

From S2P Require Import Prelude Conc ThreadSema Apply.

(** ** What a program point stands for *)

(** Its part of [da_thr_cnt], of the indices that were done but not counted in
    [da_done], and of the indices taken. *)
Definition share (p : apply_pc) : Z :=
  match p with
  | AP_conts cnt _ | AP_sema cnt => cnt + 1
  | AP_enter _ | AP_loop _ _ _ | AP_call _ _ _ _ | AP_run _ _ _ | AP_done _ _ _ | AP_signal _ | AP_dec _ => 1
  | _ => 0
  end.

Definition part (p : apply_pc) : Z :=
  match p with
  | AP_loop _ _ done | AP_done _ _ done => done
  | AP_call _ _ _ done | AP_run _ _ done => done + 1
  | _ => 0
  end.

Definition calling (p : apply_pc) : Z := match p with AP_call _ _ _ _ => 1 | _ => 0 end.

Definition inside (p : apply_pc) : Z := match p with AP_conts _ _ | AP_sema _ => 0 | _ => share p end.

(** It found no index any more; it is going to signal. *)
Definition over (p : apply_pc) : Z := match p with AP_done _ _ _ | AP_signal _ | AP_dec _ => 1 | _ => 0 end.
Definition signalling (p : apply_pc) : Z := match p with AP_signal _ => 1 | _ => 0 end.

(** The phases of the calling thread. *)
Definition fresh (p : apply_pc) : Z := match p with AP_start _ _ _ _ => 1 | _ => 0 end.
Definition prep (p : apply_pc) : Z := match p with AP_conts _ _ | AP_sema _ => 1 | _ => 0 end.
Definition serial (p : apply_pc) : Z := match p with AP_serial _ | AP_serial_run _ | AP_serial_free => 1 | _ => 0 end.

Definition caller_sema (p : apply_pc) : option nat :=
  match p with
  | AP_enter w | AP_loop w _ _ | AP_call w _ _ _ | AP_run w _ _ | AP_done w _ _ | AP_signal w | AP_dec w => w
  | AP_wait s => Some s
  | _ => None
  end.

Definition calls_in (w : option nat) : Z := match w with Some _ => 1 | None => 0 end.

Definition waits (p : apply_pc) : Z :=
  match p with
  | AP_enter w | AP_loop w _ _ | AP_call w _ _ _ | AP_run w _ _ | AP_done w _ _ | AP_signal w | AP_dec w => calls_in w
  | AP_wait _ => 1
  | _ => 0
  end.
Definition left_loop (p : apply_pc) : Z := match p with AP_wait _ => 1 | _ => 0 end.
Definition rest (p : apply_pc) : Z := match p with AP_put _ | AP_returned => 1 | _ => 0 end.

Definition main (p : apply_pc) : Z := fresh p + prep p + serial p + waits p + rest p.

Abbreviation asum f ths := (tsum (λ _ (l : apply_thread), f l.2) ths).
Abbreviation athreads := (gmap nat apply_thread).

Section Invariant.
(** The call: its iterations, and its context and function. *)
Context (n : Z) (x : Z * Z).

Definition indices (g : apply_state) : list Z := (calls g).*1.

(** The indices are taken in parallel. *)
Record parallel (g : apply_state) (d : dispatch_apply_s) (ths : athreads) : Prop := Parallel {
  p_serial : asum serial ths = 0;
  p_thr : da_thr_cnt d = asum share ths + Z.of_nat (pending g);
  p_pos : 1 ≤ da_thr_cnt d ≤ 64;
  p_done : da_done d + asum part ths = Z.min (da_index d) n;
  p_done_pos : 0 ≤ da_done d;
  p_index : 0 ≤ da_index d ≤ n + asum over ths + 64 - da_thr_cnt d;
  p_over : 0 < asum over ths → n ≤ da_index d;
  p_calls : Z.of_nat (length (calls g)) + asum calling ths = Z.min (da_index d) n;
  p_prep : 0 < asum prep ths → da_index d = 0 ∧ pending g = 0%nat ∧ asum inside ths = 0;
  p_fin : asum prep ths = 0 → asum waits ths = 0 → da_done d = n ∧ asum signalling ths = 0;
  p_sig : 0 < asum signalling ths → da_done d = n;
  p_left : 0 < asum left_loop ths → n ≤ da_index d
}.

(** One thread does all of it. *)
Record alone (g : apply_state) (ths : athreads) : Prop := Alone {
  o_serial : 0 < asum serial ths;
  o_share : asum share ths = 0;
  o_pending : pending g = 0%nat
}.

Definition phase (g : apply_state) (ths : athreads) : Prop :=
  match da g with
  | Some d =>
      asum fresh ths = 0 ∧ da_iterations d = n ∧ (da_ctxt d, da_func d) = x ∧ 0 < n ∧ (parallel g d ths ∨ alone g ths)
  | None =>
      asum share ths = 0 ∧ asum serial ths = 0 ∧ pending g = 0%nat ∧
      (0 < asum fresh ths ∧ calls g = [] ∨ asum fresh ths = 0 ∧ Z.of_nat (length (calls g)) = n)
  end.

Definition apply_local (g : apply_state) (p : apply_pc) : Prop :=
  match p with
  | AP_crash _ => False
  | AP_start it ctxt func _ => it = n ∧ (ctxt, func) = x
  | AP_conts cnt i => 1 ≤ cnt ≤ 63 ∧ 0 ≤ i < cnt
  | AP_sema cnt => 1 ≤ cnt ≤ 63
  | AP_loop _ iter done => iter = n ∧ 0 ≤ done
  | AP_call _ iter idx done => iter = n ∧ 0 ≤ done ∧ 0 ≤ idx < n ∧ idx ∉ indices g ∧ ∀ d, da g = Some d → idx < da_index d
  | AP_run _ iter done => iter = n ∧ 0 ≤ done
  | AP_done _ iter done => iter = n ∧ 0 < done
  | AP_serial idx => 0 ≤ idx < n ∧ indices g = seqZ 0 idx
  | AP_serial_run idx => 0 ≤ idx < n ∧ indices g = seqZ 0 (idx + 1)
  | AP_serial_free => indices g = seqZ 0 n
  | _ => True
  end.

(** The semaphore of the calling thread, until it was waited for. *)
Definition sema_ok (g : apply_state) (ths : athreads) (s : nat) : Prop :=
  ∃ c, semas (semaphores g) !! s = Some c ∧
    match da g with
    | Some d => da_sema d = s ∧ c + asum signalling ths = if decide (da_done d = n) then 1 else 0
    | None => c = 1
    end.

Record apply_inv (g : apply_state) (ths : athreads) : Prop := AInv {
  a_main : asum main ths = 1;
  a_phase : phase g ths;
  a_local : ∀ j l, ths !! j = Some l → apply_local g l.2;
  a_sema : ∀ j l s, ths !! j = Some l → caller_sema l.2 = Some s → sema_ok g ths s;
  a_tsd : ∀ j l s, ths !! j = Some l → 0 < fresh l.2 + prep l.2 → l.1 = Some s → semas (semaphores g) !! s = Some 0;
  a_fresh_sema : ∀ s, (next_sema (semaphores g) ≤ s)%nat → semas (semaphores g) !! s = None;
  a_uniq : ∀ j k l m w w' it it' idx d d', ths !! j = Some l → ths !! k = Some m →
    l.2 = AP_call w it idx d → m.2 = AP_call w' it' idx d' → j = k;
  a_nodup : NoDup (indices g);
  a_calls : ∀ idx y, (idx, y) ∈ calls g → y = x ∧ 0 ≤ idx < n ∧ ∀ d, da g = Some d → asum serial ths = 0 → idx < da_index d
}.
End Invariant.

(** ** Weights *)

Lemma asum_one (f : apply_pc → Z) (ths : athreads) i l :
  (∀ j m, ths !! j = Some m → 0 ≤ f m.2) → ths !! i = Some l → f l.2 ≤ asum f ths.
Proof. intros Hf Hi. by apply (tsum_ge (λ _ (l : apply_thread), f l.2) ths i l). Qed.

Lemma main_range p : 0 ≤ main p.
Proof. destruct p; unfold main; simpl; try lia; destruct caller; simpl; lia. Qed.

Lemma phases_range p : 0 ≤ fresh p ∧ 0 ≤ prep p ∧ 0 ≤ serial p ∧ 0 ≤ waits p ∧ 0 ≤ rest p ∧ 0 ≤ over p ∧ 0 ≤ signalling p ∧ 0 ≤ calling p.
Proof. destruct p; simpl; try lia; destruct caller; simpl; lia. Qed.

Lemma waits_caller p : waits p = calls_in (caller_sema p).
Proof. by destruct p. Qed.

Lemma over_le p : signalling p ≤ over p.
Proof. destruct p; simpl; lia. Qed.

Lemma left_le p : left_loop p ≤ waits p.
Proof. destruct p; simpl; try lia; destruct caller; simpl; lia. Qed.

Lemma local_range n x g p : apply_local n x g p → 0 ≤ part p ∧ 0 ≤ share p ∧ over p + calling p ≤ share p ∧ calling p ≤ part p.
Proof. destruct p; simpl; try lia; try done. Qed.

Section Facts.
Context (n : Z) (x : Z * Z) (g : apply_state) (ths : athreads) (I : apply_inv n x g ths).

(** The sums bound the weights of a thread. *)
Lemma apply_sums i l : ths !! i = Some l →
  (0 ≤ fresh l.2 ≤ asum fresh ths ∧ 0 ≤ prep l.2 ≤ asum prep ths ∧ 0 ≤ serial l.2 ≤ asum serial ths ∧
   0 ≤ waits l.2 ≤ asum waits ths ∧ 0 ≤ rest l.2 ≤ asum rest ths) ∧
  (0 ≤ over l.2 ≤ asum over ths ∧ 0 ≤ signalling l.2 ≤ asum signalling ths ∧ 0 ≤ calling l.2 ≤ asum calling ths ∧
   0 ≤ part l.2 ≤ asum part ths ∧ 0 ≤ share l.2 ≤ asum share ths ∧ 0 ≤ inside l.2 ≤ asum inside ths ∧ 0 ≤ left_loop l.2 ≤ asum left_loop ths).
Proof.
  intros Hi. assert (∀ j m, ths !! j = Some m → 0 ≤ part m.2 ∧ 0 ≤ share m.2 ∧ 0 ≤ inside m.2 ∧ 0 ≤ left_loop m.2) as Hl.
  { intros j m Hj. destruct (local_range n x g m.2 (a_local _ _ _ _ I j m Hj)) as (? & ? & _). split_and!; try done; [unfold inside|]; by destruct m.2. }
  pose proof (phases_range l.2) as (? & ? & ? & ? & ? & ? & ? & ?). destruct (Hl i l Hi) as (? & ? & ? & ?).
  split_and!; try done; apply (asum_one _ ths i l); try done;
    intros j m Hj; pose proof (phases_range m.2) as (? & ? & ? & ? & ? & ? & ? & ?); destruct (Hl j m Hj) as (? & ? & ? & ?); done.
Qed.

Lemma apply_sums_between : asum over ths + asum calling ths ≤ asum share ths ∧ asum calling ths ≤ asum part ths ∧
  asum signalling ths ≤ asum over ths ∧ asum inside ths ≤ asum share ths ∧ asum left_loop ths ≤ asum waits ths.
Proof.
  rewrite <- (tsum_add (λ _ (l : apply_thread), _) (λ _ (l : apply_thread), _)).
  split_and!; apply tsum_le; intros j m Hj; destruct (local_range n x g m.2 (a_local _ _ _ _ I j m Hj)) as (? & ? & ? & ?);
    pose proof (over_le m.2); pose proof (left_le m.2); try lia; destruct m as [t []]; simpl in *; lia.
Qed.

Lemma main_sum : asum main ths = asum fresh ths + asum prep ths + asum serial ths + asum waits ths + asum rest ths.
Proof. unfold main. by rewrite !(tsum_add (λ _ (l : apply_thread), _) (λ _ (l : apply_thread), _)). Qed.

(** There is one calling thread. *)
Lemma main_alone i l j m : ths !! i = Some l → ths !! j = Some m → j ≠ i → main l.2 = 1 → main m.2 = 0.
Proof.
  intros Hi Hj Hne Hl. pose proof (a_main _ _ _ _ I) as H. rewrite <- (insert_delete_id ths i l Hi) in H.
  rewrite tsum_insert_new in H by apply lookup_delete_eq.
  assert (main m.2 ≤ asum main (delete i ths)) as Hm.
  { apply (asum_one main _ j m); [intros; apply main_range|]. by rewrite lookup_delete_ne. }
  pose proof (main_range m.2). lia.
Qed.
End Facts.

Section Update.
Context (n : Z) (x : Z * Z) (g : apply_state) (ths : athreads) (i : nat) (l : apply_thread).
Context (I : apply_inv n x g ths) (Hi : ths !! i = Some l).

(** A step that leaves the semaphores alone. *)
Lemma apply_update l' g' :
  main l'.2 = main l.2 → fresh l'.2 + prep l'.2 ≤ fresh l.2 + prep l.2 → l'.1 = l.1 → semaphores g' = semaphores g →
  phase n x g' (<[i:=l']> ths) → apply_local n x g' l'.2 →
  (∀ j m, j ≠ i → ths !! j = Some m → apply_local n x g m.2 → apply_local n x g' m.2) →
  (∀ s, caller_sema l'.2 = Some s → caller_sema l.2 = Some s) →
  (∀ s c, match da g with
          | Some d => da_sema d = s ∧ c + asum signalling ths = if decide (da_done d = n) then 1 else 0
          | None => c = 1
          end →
     0 < asum waits ths → match da g' with
          | Some d => da_sema d = s ∧ c + asum signalling (<[i:=l']> ths) = if decide (da_done d = n) then 1 else 0
          | None => c = 1
          end) →
  (∀ w it idx d, l'.2 = AP_call w it idx d → ∀ j m w' it' d', j ≠ i → ths !! j = Some m → m.2 ≠ AP_call w' it' idx d') →
  NoDup (indices g') →
  (∀ idx y, (idx, y) ∈ calls g' → y = x ∧ 0 ≤ idx < n ∧ ∀ d, da g' = Some d → asum serial (<[i:=l']> ths) = 0 → idx < da_index d) →
  apply_inv n x g' (<[i:=l']> ths).
Proof.
  intros Hm Hfp Ht Es Hph Hlo Hlo' Hcs Hse Hu Hnd Hca. split; try done.
  - rewrite (tsum_step _ _ _ _ l' Hi), Hm. pose proof (a_main _ _ _ _ I). lia.
  - intros j m [[<- <-]|[Hne Hj]]%lookup_insert_Some; [done|]. apply Hlo' with j; [done..|]. by apply (a_local _ _ _ _ I j).
  - intros j m s Hj Hs.
    assert (sema_ok n g ths s ∧ 0 < asum waits ths) as [(c & Hc & Hd) Hw].
    { assert (∃ k q, ths !! k = Some q ∧ caller_sema q.2 = Some s) as (k & q & Hk & Hq).
      { apply lookup_insert_Some in Hj as [[<- <-]|[Hne Hj]]; [exists i, l; auto|by exists j, m]. }
      split; [by apply (a_sema _ _ _ _ I k q)|]. destruct (apply_sums n x g ths I k q Hk) as ((_ & _ & _ & H & _) & _).
      pose proof (waits_caller q.2) as Hc. rewrite Hq in Hc. simpl in Hc. lia. }
    exists c. rewrite Es. split; [done|]. by apply Hse.
  - intros j m s [[<- <-]|[Hne Hj]]%lookup_insert_Some Hp Hs; rewrite Es; [|by apply (a_tsd _ _ _ _ I j m)].
    apply (a_tsd _ _ _ _ I i l); [done|lia|congruence].
  - rewrite Es. apply (a_fresh_sema _ _ _ _ I).
  - intros j k m m' w w' it it' idx d d' [[<- <-]|[Hne Hj]]%lookup_insert_Some [[<- <-]|[Hne' Hk]]%lookup_insert_Some H1 H2; try done.
    + exfalso. by apply (Hu w it idx d H1 k m' w' it' d').
    + exfalso. by apply (Hu w' it' idx d' H2 j m w it d).
    + by eapply (a_uniq _ _ _ _ I).
Qed.
End Update.
