(* ===== verification/ApplyStep.v ===== *)
(** * The parallel loop: every step keeps the invariant *)

From S2P Require Import Prelude Conc ThreadSema Apply ApplyInv.

Lemma apply_thr_cnt_range max_active n : 0 ≤ n →
  apply_thr_cnt max_active n ≤ 64 ∧ (1 < apply_thr_cnt max_active n → apply_thr_cnt max_active n ≤ n).
Proof.
  intros. unfold apply_thr_cnt, DISPATCH_APPLY_MAX_CPUS.
  destruct (Z.ltb_spec 64 max_active); match goal with |- context [if ?a <? ?b then _ else _] => destruct (Z.ltb_spec a b) end;
    rewrite ?wrapU_small by (consts; lia); lia.
Qed.

Section Step.
Context (n : Z) (x : Z * Z) (g : apply_state) (ths : athreads) (i : nat) (tsd : option nat).
Context (I : apply_inv n x g ths) (Hn : n < 2 ^ 63).

Definition on (p : apply_pc) : Prop := ths !! i = Some (tsd, p).

(** A thread in [_dispatch_apply_invoke] finds the record. *)
Lemma inside_parallel p : on p → 0 < inside p →
  ∃ d, da g = Some d ∧ da_iterations d = n ∧ (da_ctxt d, da_func d) = x ∧ 0 < n ∧ asum fresh ths = 0 ∧ asum prep ths = 0 ∧ parallel n g d ths.
Proof.
  intros Hp Hin. destruct (apply_sums n x g ths I i _ Hp) as (_ & (_ & _ & _ & _ & Hs & Hi)). cbn [snd] in *.
  pose proof (a_phase _ _ _ _ I) as Hph. unfold phase in Hph. assert (inside p ≤ share p) as Hle by (destruct p; simpl in *; lia).
  destruct (da g) as [d|]; [|lia]. destruct Hph as (H1 & H2 & H3 & H4 & [H5|H5]).
  - exists d. split_and!; try done. assert (0 ≤ asum prep ths).
    { apply tsum_nonneg. intros j m _. apply phases_range. }
    destruct (decide (asum prep ths = 0)) as [|Hne]; [done|]. destruct (p_prep _ _ _ _ H5) as (_ & _ & H6); lia.
  - destruct H5. lia.
Qed.

(** The facts about a thread that lia uses. *)
Ltac facts Hp :=
  pose proof (apply_sums n x g ths I i _ Hp) as ((?&?&?&?&?) & (?&?&?&?&?&?&?)); cbn [snd] in *;
  pose proof (apply_sums_between n x g ths I) as (?&?&?&?&?).

(** The sums after the step. *)
Ltac sums Hp := rewrite ?(tsum_step _ _ _ _ _ Hp); cbn [snd fst].

Lemma keep_local g' : indices g' = indices g →
  (∀ d', da g' = Some d' → ∃ d, da g = Some d ∧ da_index d ≤ da_index d') →
  ∀ p, apply_local n x g p → apply_local n x g' p.
Proof.
  intros E Hd p. destruct p; simpl; rewrite ?E; try done. intros (? & ? & ? & ? & Hl). split_and!; try done; try lia.
  intros d' Hd'. destruct (Hd d' Hd') as (d & Hd1 & ?). specialize (Hl d Hd1). lia.
Qed.

Lemma set_da_same d : da g = Some d → set_da (Some d) g = g.
Proof. intros Hd. unfold set_da. rewrite <- Hd. by destruct g. Qed.

(** A step of [_dispatch_apply_invoke] that changes the record only. *)
Lemma record_step p p' d d' : on p → 0 < inside p → da g = Some d → asum serial ths = 0 → main p' = main p → fresh p' + prep p' = 0 →
  da_index d ≤ da_index d' → (∀ s, caller_sema p' = Some s → caller_sema p = Some s) →
  phase n x (set_da (Some d') g) (<[i:=(tsd, p')]> ths) → apply_local n x (set_da (Some d') g) p' →
  da_sema d' = da_sema d →
  signalling p' - signalling p + (if decide (da_done d = n) then 1 else 0) = (if decide (da_done d' = n) then 1 else 0) →
  (∀ w it idx y, p' = AP_call w it idx y → da_index d ≤ idx) →
  apply_inv n x (set_da (Some d') g) (<[i:=(tsd, p')]> ths).
Proof.
  intros Hp Hin Hd Hs Hm Hfp Hle Hcs Hph Hlo Ese Hsig Hcall. pose proof (phases_range p) as (? & ? & _).
  apply (apply_update n x g ths i _ I Hp); try done.
  - cbn [snd]. lia.
  - intros j m _ Hj. apply keep_local; [done|]. intros d1 [= <-]. by exists d.
  - intros s c. rewrite Hd. intros [? Hc] _. simpl. sums Hp. rewrite Ese. split; [done|]. lia.
  - intros w it idx y Ep j m w2 it2 d2 Hne Hj Hmm. pose proof (a_local _ _ _ _ I j m Hj) as Hl.
    rewrite Hmm in Hl. destruct Hl as (_ & _ & _ & _ & Hl). specialize (Hl d Hd). specialize (Hcall w it idx y Ep). lia.
  - apply (a_nodup _ _ _ _ I).
  - intros idx y Hc. destruct (a_calls _ _ _ _ I idx y Hc) as (? & ? & Hidx). split_and!; try done; try lia.
    intros d1 [= <-] _. specialize (Hidx d Hd Hs). lia.
Qed.

Lemma loop_step w iter done p' g' : on (AP_loop w iter done) →
  _dispatch_apply_invoke (AP_loop w iter done) g = Some (p', g') → apply_inv n x g' (<[i:=(tsd, p')]> ths).
Proof.
  intros Hp Hs. destruct (a_local _ _ _ _ I i _ Hp) as [-> Hdn]. destruct (inside_parallel _ Hp) as (d & Hd & Hit & Hx & Hpos & Hf & Hpr & P); [done|].
  facts Hp. destruct P as [P1 P2 P3 P4 P5 P6 P7 P8 P9 P10 P11 P12].
  cbn [_dispatch_apply_invoke] in Hs. unfold with_da in Hs. rewrite Hd in Hs. apply some_pair in Hs as [-> ->].
  rewrite (wrapU_small 64 (da_index d + 1)) by (consts; lia). rewrite (wrapU_small 64) by (consts; lia).
  replace (da_index d + 1 - 1) with (da_index d) by lia.
  case_decide as Hlt; [|case_decide as Hz]; (eapply (record_step _ _ d); try done; [simpl; lia|..]).
  - unfold phase. sums Hp. simpl in *. split_and!; try done; [lia|]. left. split; sums Hp; simpl; lia.
  - simpl. split_and!; try done; try lia.
    + intros ([idx y] & E & Hin)%list_elem_of_fmap. simpl in *.
      destruct (a_calls _ _ _ _ I idx y Hin) as (_ & _ & Hidx). specialize (Hidx d Hd P1). lia.
    + intros d' [= <-]. simpl. lia.
  - by intros w' it idx y [= <- <- <- <-].
  - unfold phase. sums Hp. simpl in *. split_and!; try done; [lia|]. left. split; sums Hp; simpl; lia.
  - unfold phase. sums Hp. simpl in *. split_and!; try done; [lia|]. left. split; sums Hp; simpl; lia.
  - simpl. lia.
Qed.

Lemma ap_enter_step w p' g' : on (AP_enter w) →
  _dispatch_apply_invoke (AP_enter w) g = Some (p', g') → apply_inv n x g' (<[i:=(tsd, p')]> ths).
Proof.
  intros Hp Hs. destruct (inside_parallel _ Hp) as (d & Hd & Hit & Hx & Hpos & Hf & Hpr & P); [done|].
  facts Hp. destruct P as [P1 P2 P3 P4 P5 P6 P7 P8 P9 P10 P11 P12].
  cbn [_dispatch_apply_invoke] in Hs. unfold with_da in Hs. rewrite Hd in Hs. apply some_pair in Hs as [-> ->].
  rewrite <- (set_da_same d Hd).
  eapply (record_step _ _ d); try done.
  unfold phase. sums Hp. simpl in *. split_and!; try done; [lia|]. left. split; sums Hp; simpl; lia.
Qed.

Lemma run_step w iter done p' g' : on (AP_run w iter done) →
  _dispatch_apply_invoke (AP_run w iter done) g = Some (p', g') → apply_inv n x g' (<[i:=(tsd, p')]> ths).
Proof.
  intros Hp Hs. destruct (a_local _ _ _ _ I i _ Hp) as [-> Hdn]. destruct (inside_parallel _ Hp) as (d & Hd & Hit & Hx & Hpos & Hf & Hpr & P); [done|].
  facts Hp. destruct P as [P1 P2 P3 P4 P5 P6 P7 P8 P9 P10 P11 P12].
  cbn [_dispatch_apply_invoke] in Hs. apply some_pair in Hs as [-> ->]. simpl in *. rewrite wrapU_small by (consts; lia).
  rewrite <- (set_da_same d Hd).
  eapply (record_step _ _ d); try done.
  - unfold phase. sums Hp. simpl in *. split_and!; try done; [lia|]. left. split; sums Hp; simpl; lia.
  - simpl. lia.
Qed.

Lemma done_step w iter done p' g' : on (AP_done w iter done) →
  _dispatch_apply_invoke (AP_done w iter done) g = Some (p', g') → apply_inv n x g' (<[i:=(tsd, p')]> ths).
Proof.
  intros Hp Hs. destruct (a_local _ _ _ _ I i _ Hp) as [-> Hdn]. destruct (inside_parallel _ Hp) as (d & Hd & Hit & Hx & Hpos & Hf & Hpr & P); [done|].
  facts Hp. destruct P as [P1 P2 P3 P4 P5 P6 P7 P8 P9 P10 P11 P12].
  cbn [_dispatch_apply_invoke] in Hs. unfold with_da in Hs. rewrite Hd in Hs. apply some_pair in Hs as [-> ->].
  simpl in *. rewrite wrapU_small by (consts; lia).
  case_decide as Hz; (eapply (record_step _ _ d); try done).
  - unfold phase. sums Hp. simpl in *. split_and!; try done; [lia|]. left. split; sums Hp; simpl; lia.
  - simpl. rewrite decide_False by lia. by rewrite decide_True.
  - unfold phase. sums Hp. simpl in *. split_and!; try done; [lia|]. left. split; sums Hp; simpl; lia.
  - simpl. rewrite decide_False by lia. by rewrite decide_False.
Qed.
Lemma ap_call_step w iter idx done p' g' : on (AP_call w iter idx done) →
  _dispatch_apply_invoke (AP_call w iter idx done) g = Some (p', g') → apply_inv n x g' (<[i:=(tsd, p')]> ths).
Proof.
  intros Hp Hs. destruct (a_local _ _ _ _ I i _ Hp) as (-> & Hdn & Hidx & Hni & Hlt). destruct (inside_parallel _ Hp) as (d & Hd & Hit & Hx & Hpos & Hf & Hpr & P); [done|].
  facts Hp. destruct P as [P1 P2 P3 P4 P5 P6 P7 P8 P9 P10 P11 P12].
  cbn [_dispatch_apply_invoke] in Hs. unfold with_da in Hs. rewrite Hd in Hs. apply some_pair in Hs as [-> ->].
  assert (indices (log_apply (idx, (da_ctxt d, da_func d)) g) = indices g ++ [idx]) as Ei.
  { unfold indices, log_apply. simpl. by rewrite fmap_app. }
  apply (apply_update n x g ths i _ I Hp); try done.
  - unfold phase. simpl. rewrite Hd. sums Hp. simpl in *. split_and!; try done; [lia|]. left.
    split; sums Hp; simpl; rewrite ?length_app; simpl; try lia.
  - intros j m Hne Hj Hl. pose proof (apply_sums n x g ths I j m Hj) as ((? & _ & ? & _) & _).
    destruct m as [t q]. cbn [snd] in *. destruct q; simpl in *; try done; try lia.
    destruct Hl as (? & ? & ? & Hni' & ?). split_and!; try done; try lia. rewrite Ei, elem_of_app, list_elem_of_singleton.
    intros [?| ->]; [done|]. apply Hne. by eapply (a_uniq _ _ _ _ I).
  - intros s c. simpl. rewrite Hd. intros [? Hc] _. sums Hp. simpl. split; [done|lia].
  - rewrite Ei. apply NoDup_app. split_and!; [apply (a_nodup _ _ _ _ I)| |apply NoDup_singleton].
    intros z Hz. rewrite list_elem_of_singleton. by intros ->.
  - intros idx' y. simpl. rewrite elem_of_app, list_elem_of_singleton. intros [Hc|[= -> ->]].
    + destruct (a_calls _ _ _ _ I idx' y Hc) as (? & ? & H'). split_and!; try done; try lia. intros d1 Hd1 _. by apply H'.
    + split_and!; try done; try lia. intros d1 Hd1 _. by apply Hlt.
Qed.

(** The last thread that has a share. *)
Lemma only_share p : on p → asum share ths ≤ share p → ∀ j m, j ≠ i → ths !! j = Some m → share m.2 = 0.
Proof.
  intros Hp Hle j m Hne Hj. destruct (local_range n x g m.2 (a_local _ _ _ _ I j m Hj)) as (? & ? & _).
  assert (share m.2 ≤ asum share (<[i:=(tsd, AP_idle)]> ths)) as Hm.
  { apply (asum_one share _ j m); [|by rewrite lookup_insert_ne].
    intros k q [[<- <-]|[_ Hk]]%lookup_insert_Some; [simpl; lia|]. by destruct (local_range n x g q.2 (a_local _ _ _ _ I k q Hk)) as (? & ? & _). }
  rewrite (tsum_step _ _ _ _ _ Hp) in Hm. simpl in Hm. lia.
Qed.

Lemma last_share p : on p → part p = 0 → signalling p = 0 → asum share ths ≤ share p →
  asum part ths = 0 ∧ asum signalling ths = 0.
Proof.
  intros Hp Hz Hsg Hle. split; apply tsum_zero; intros j m Hm;
    (destruct (decide (j = i)) as [->|Hne]; [unfold on in Hp; rewrite Hp in Hm; by injection Hm as <-|]);
    pose proof (only_share _ Hp Hle j m Hne Hm); pose proof (a_local _ _ _ _ I j m Hm); by destruct m as [t []]; simpl in *; try lia.
Qed.

(** The others are not in the way of the calling thread. *)
Lemma others_local p : on p → main p = 1 → asum share ths ≤ share p →
  ∀ j m, j ≠ i → ths !! j = Some m → ∀ g', apply_local n x g m.2 → apply_local n x g' m.2.
Proof.
  intros Hp Hm Hle j m Hne Hj g' Hl. pose proof (only_share _ Hp Hle j m Hne Hj).
  pose proof (main_alone n x g ths I i _ j m Hp Hj Hne Hm) as Hmm. destruct m as [t q]. unfold main in Hmm.
  destruct q; simpl in *; try done; lia.
Qed.

Lemma dec_step w p' g' : on (AP_dec w) →
  _dispatch_apply_invoke (AP_dec w) g = Some (p', g') → apply_inv n x g' (<[i:=(tsd, p')]> ths).
Proof.
  intros Hp Hs. destruct (inside_parallel _ Hp) as (d & Hd & Hit & Hx & Hpos & Hf & Hpr & P); [done|].
  facts Hp. pose proof P as [P1 P2 P3 P4 P5 P6 P7 P8 P9 P10 P11 P12].
  cbn [_dispatch_apply_invoke] in Hs. unfold with_da in Hs. rewrite Hd in Hs. apply some_pair in Hs as [-> ->].
  rewrite wrapU_small by (consts; lia).
  destruct w as [s|]; case_decide as Hz; cbn [apply_after] in *.
  1,3: apply (apply_update n x g ths i _ I Hp); try done; [| | | |].
  1,6: (unfold phase; simpl; sums Hp; simpl in *; split_and!; try lia; right; split; lia).
  1,5: (intros j m _ Hj; by apply keep_local).
  1,4: (intros s' c; simpl; rewrite Hd; intros [_ Hc] _; pose proof (last_share _ Hp eq_refl eq_refl) as Hl; simpl in *; case_decide; lia).
  1,3: apply (a_nodup _ _ _ _ I).
  1,2: (intros idx y Hc; destruct (a_calls _ _ _ _ I idx y Hc) as (? & ? & Hidx); split_and!; [done|lia|lia|done]).
  1,2: (eapply (record_step _ _ d); try done; try (simpl in *; lia)).
  all: unfold phase; sums Hp; simpl in *; split_and!; try done; [lia|]; left; split; sums Hp; simpl; lia.
Qed.
(** *** One thread does all of it *)

Lemma serial_alone p : on p → 0 < serial p →
  ∃ d, da g = Some d ∧ da_iterations d = n ∧ (da_ctxt d, da_func d) = x ∧ 0 < n ∧ asum fresh ths = 0 ∧ alone g ths.
Proof.
  intros Hp Hin. facts Hp. pose proof (a_phase _ _ _ _ I) as Hph. unfold phase in Hph.
  destruct (da g) as [d|]; [|lia]. destruct Hph as (H1' & H2' & H3' & H4' & [[]|H5']); [lia|]. by exists d.
Qed.

Lemma indices_log (idx : Z) y : indices (log_apply (idx, y) g) = indices g ++ [idx].
Proof. unfold indices, log_apply. simpl. by rewrite fmap_app. Qed.

Lemma seqZ_snoc idx : 0 ≤ idx → seqZ 0 (idx + 1) = seqZ 0 idx ++ [idx].
Proof. intros. rewrite seqZ_app by lia. done. Qed.

(** While a call starts or is alone, no one waits. *)
Lemma no_waits : 0 < asum fresh ths + asum prep ths + asum serial ths → asum waits ths = 0.
Proof.
  pose proof (main_sum ths) as Hm. rewrite (a_main _ _ _ _ I) in Hm.
  assert (∀ f : apply_pc → Z, (∀ q, 0 ≤ f q) → 0 ≤ asum f ths) as Hz by (intros; apply tsum_nonneg; auto).
  assert (0 ≤ asum waits ths) by (apply Hz; intros q; pose proof (phases_range q); lia).
  assert (0 ≤ asum rest ths) by (apply Hz; intros q; pose proof (phases_range q); lia). lia.
Qed.

(** When it is alone, no one waits and no one is at the record. *)
Lemma alone_sums : alone g ths → asum waits ths = 0 ∧ asum signalling ths = 0.
Proof.
  intros [O1 O2 O3]. pose proof (apply_sums_between n x g ths I) as (?&?&?&?&?).
  assert (∀ f : apply_pc → Z, (∀ q, 0 ≤ f q) → 0 ≤ asum f ths) as Hz by (intros; apply tsum_nonneg; auto).
  pose proof (Hz fresh (λ q, proj1 (phases_range q))). pose proof (Hz prep (λ q, proj1 (proj2 (phases_range q)))).
  assert (0 ≤ asum calling ths) by (apply Hz; intros q; pose proof (phases_range q); lia).
  assert (0 ≤ asum signalling ths) by (apply Hz; intros q; pose proof (phases_range q); lia).
  split; [apply no_waits|]; lia.
Qed.

Lemma serial_step p p' g' : on p → serial p = 1 →
  _dispatch_apply_serial p g = Some (p', g') → apply_inv n x g' (<[i:=(tsd, p')]> ths).
Proof.
  intros Hp H1 Hs. destruct (serial_alone _ Hp) as (d & Hd & Hit & Hx & Hpos & Hf & O); [lia|].
  destruct (alone_sums O) as [Hw Hsg]. destruct O as [O1 O2 O3].
  facts Hp. assert (main p = 1) as Hm by by destruct p. pose proof (others_local _ Hp Hm) as Ho. pose proof (a_local _ _ _ _ I i _ Hp) as Hl. cbn [snd] in Hl.
  destruct p as [| |?|? ? ? ?|? ?|?|?|?|?|? ? ?|? ? ? ?|? ? ?|? ? ?|?|?|idx|idx|]; try done;
    cbn [_dispatch_apply_serial] in Hs; unfold with_da in Hs; rewrite Hd in Hs; apply some_pair in Hs as [-> ->]; simpl in Hl;
    try (lazymatch type of Hl with _ ∧ _ => destruct Hl as [Hidx Hl] end; rewrite ?Hit, ?wrapU_small by (consts; lia); try case_decide);
    (apply (apply_update n x g ths i _ I Hp); try done; try (by intros; eapply Ho; try done; simpl; lia); try (intros; lia)).
  - unfold phase. simpl. rewrite Hd. split_and!; try done; [by sums Hp; simpl; lia|]. right. split; sums Hp; simpl; lia.
  - simpl. split; [done|]. by rewrite indices_log, Hl, seqZ_snoc by lia.
  - rewrite indices_log, Hl, <- seqZ_snoc by lia. apply NoDup_seqZ.
  - intros idx' y. simpl. rewrite elem_of_app, list_elem_of_singleton. sums Hp. simpl. intros [Hc|[= -> ->]]; split_and!; try lia; try done.
    all: destruct (a_calls _ _ _ _ I idx' y Hc); done || lia.
  - unfold phase. simpl. rewrite Hd. split_and!; try done; [by sums Hp; simpl; lia|]. right. split; sums Hp; simpl; lia.
  - simpl. split; [lia|done].
  - apply (a_nodup _ _ _ _ I).
  - intros idx' y Hc. sums Hp. simpl. destruct (a_calls _ _ _ _ I idx' y Hc). split_and!; try done; lia.
  - unfold phase. simpl. rewrite Hd. split_and!; try done; [by sums Hp; simpl; lia|]. right. split; sums Hp; simpl; lia.
  - simpl. by replace n with (idx + 1) by lia.
  - apply (a_nodup _ _ _ _ I).
  - intros idx' y Hc. sums Hp. simpl. destruct (a_calls _ _ _ _ I idx' y Hc). split_and!; try done; lia.
  - unfold phase. simpl. sums Hp. simpl in *.
    pose proof (a_main _ _ _ _ I) as Hmn. rewrite main_sum in Hmn.
    assert (Z.of_nat (length (calls g)) = n); [|lia]. unfold indices in Hl. rewrite <- (length_fmap fst (calls g)), Hl, length_seqZ. lia.
  - apply (a_nodup _ _ _ _ I).
  - intros idx' y Hc. destruct (a_calls _ _ _ _ I idx' y Hc). split_and!; try done; lia.
Qed.

(** *** The semaphore of the calling thread *)

(** The calling thread is the only one that is preparing or waiting. *)
Lemma caller_only p : on p → main p = 1 → ∀ j m, j ≠ i → ths !! j = Some m → fresh m.2 + prep m.2 = 0 ∧ caller_sema m.2 = None.
Proof.
  intros Hp Hm j m Hne Hj. pose proof (main_alone n x g ths I i _ j m Hp Hj Hne Hm) as H0. pose proof (phases_range m.2) as (? & ? & ? & ? & ? & _).
  unfold main in H0. pose proof (waits_caller m.2) as Hc. destruct (caller_sema m.2); simpl in Hc; split; done || lia.
Qed.

(** A step of the calling thread that leaves no one preparing. *)
Lemma caller_step p p' tsd' g' : on p → main p = 1 → main p' = 1 → fresh p' + prep p' = 0 → calls g' = calls g →
  (∀ w it idx y, p' ≠ AP_call w it idx y) →
  (∀ s, caller_sema p' = Some s → sema_ok n g' (<[i:=(tsd', p')]> ths) s) →
  phase n x g' (<[i:=(tsd', p')]> ths) → apply_local n x g' p' →
  (∀ j m, j ≠ i → ths !! j = Some m → apply_local n x g m.2 → apply_local n x g' m.2) →
  (∀ idx y d', (idx, y) ∈ calls g → da g' = Some d' → asum serial (<[i:=(tsd', p')]> ths) = 0 → idx < da_index d') →
  (∀ s, (next_sema (semaphores g') ≤ s)%nat → semas (semaphores g') !! s = None) →
  apply_inv n x g' (<[i:=(tsd', p')]> ths).
Proof.
  intros Hp Hm Hm' Hfp Ec Hnc Hse Hph Hlo Hlo' Hd Hfr. pose proof (caller_only p Hp Hm) as Ho.
  assert (indices g' = indices g) as Ei by by unfold indices; rewrite Ec.
  split; try done.
  - sums Hp. rewrite Hm, Hm', (a_main _ _ _ _ I). done.
  - intros j m [[<- <-]|[Hne Hj]]%lookup_insert_Some; [done|]. by apply (Hlo' j); [..|apply (a_local _ _ _ _ I j)].
  - intros j m s [[<- <-]|[Hne Hj]]%lookup_insert_Some; [by apply Hse|]. destruct (Ho j m) as [_ ->]; done.
  - intros j m s [[<- <-]|[Hne Hj]]%lookup_insert_Some; simpl; [lia|]. destruct (Ho j m) as [-> _]; [done..|lia].
  - intros j k m m' w w' it it' idx y y' [[<- <-]|[Hne Hj]]%lookup_insert_Some [[<- <-]|[Hne' Hk]]%lookup_insert_Some H1 H2; try done.
    + by apply Hnc in H1.
    + by apply Hnc in H2.
    + by eapply (a_uniq _ _ _ _ I).
  - rewrite Ei. apply (a_nodup _ _ _ _ I).
  - intros idx y. rewrite Ec. intros Hc. destruct (a_calls _ _ _ _ I idx y Hc) as (? & ? & Hidx). split_and!; try done; try lia. eauto.
Qed.

(** The phase, when the sums do not change. *)
Lemma phase_same p p' tsd' g' : on p → da g' = da g → pending g' = pending g → calls g' = calls g →
  fresh p' = fresh p → prep p' = prep p → serial p' = serial p → over p' = over p → signalling p' = signalling p →
  calling p' = calling p → part p' = part p → share p' = share p → inside p' = inside p → left_loop p' ≤ left_loop p →
  (∀ d, da g = Some d → waits p' = waits p ∨ da_done d = n ∧ asum signalling ths = 0) →
  phase n x g' (<[i:=(tsd', p')]> ths).
Proof.
  intros Hp Hd Ep Ec E1 E2 E3 E4 E5 E6 E7 E8 E9 E10 Hf. pose proof (a_phase _ _ _ _ I) as Hph. unfold phase in *.
  rewrite Hd, Ep, Ec. sums Hp. rewrite E1, E3, E8, !Z.sub_add. destruct (da g) as [d|]; [|done].
  destruct Hph as (? & ? & ? & ? & [P|[]]); split_and!; try done; [left|right].
  - destruct P. split; rewrite ?Ep, ?Ec; sums Hp; rewrite ?E1, ?E2, ?E3, ?E4, ?E5, ?E6, ?E7, ?E8, ?E9, ?Z.sub_add; try done; [|intros; lia].
    intros Hz Hw. destruct (Hf d eq_refl) as [E|]; [|done]. rewrite E, Z.sub_add in Hw. auto.
  - split; rewrite ?Ep; sums Hp; rewrite ?E3, ?E8, ?Z.sub_add; done.
Qed.

Lemma ap_wait_step s st : on (AP_wait s) → sema_wait s (semaphores g) = inr (Some st) →
  apply_inv n x (set_semaphores st g) (<[i:=(tsd, AP_put s)]> ths).
Proof.
  intros Hp Hs. facts Hp. destruct (a_sema _ _ _ _ I i _ s Hp eq_refl) as (c & Hc & Hd). unfold sema_wait in Hs. rewrite Hc in Hs.
  case_decide as Hpos; [|done]. injection Hs as <-.
  apply (caller_step (AP_wait s)); try done.
  - apply (phase_same (AP_wait s)); try done. intros d Ed. right. rewrite Ed in Hd. case_decide; lia.
  - intros idx y d' Hin Hd'. sums Hp. simpl. intros Hz. destruct (a_calls _ _ _ _ I idx y Hin) as (_ & _ & H'). apply H'; [done|lia].
  - simpl. intros s' Hs'. rewrite lookup_insert_ne; [by apply (a_fresh_sema _ _ _ _ I)|]. intros <-.
    by rewrite (a_fresh_sema _ _ _ _ I) in Hc.
Qed.

Lemma ap_put_step s tsd' st : on (AP_put s) → _dispatch_put_thread_semaphore s tsd (semaphores g) = (tsd', st) →
  apply_inv n x (set_semaphores st g) (<[i:=(tsd', AP_returned)]> ths).
Proof.
  intros Hp Hs. facts Hp. apply (caller_step (AP_put s)); try done.
  - apply (phase_same (AP_put s)); try done. by left.
  - intros idx y d' Hin Hd'. sums Hp. simpl. intros Hz. destruct (a_calls _ _ _ _ I idx y Hin) as (_ & _ & H'). apply H'; [done|lia].
  - simpl. intros s' Hs'. unfold _dispatch_put_thread_semaphore in Hs. destruct tsd as [old|]; injection Hs as <- <-; simpl in *.
    + apply lookup_delete_None. right. by apply (a_fresh_sema _ _ _ _ I).
    + by apply (a_fresh_sema _ _ _ _ I).
Qed.
Lemma ap_signal_step w p' g' : on (AP_signal w) →
  _dispatch_apply_invoke (AP_signal w) g = Some (p', g') → apply_inv n x g' (<[i:=(tsd, p')]> ths).
Proof.
  intros Hp Hs. destruct (inside_parallel _ Hp) as (d & Hd & Hit & Hx & Hpos & Hf & Hpr & P); [done|].
  facts Hp. pose proof P as [P1 P2 P3 P4 P5 P6 P7 P8 P9 P10 P11 P12]. simpl in *.
  assert (∃ j m s, ths !! j = Some m ∧ caller_sema m.2 = Some s) as (j & m & s & Hj & Hcs).
  { destruct (tsum_pos (λ _ (l : apply_thread), waits l.2) ths) as (j & m & Hj & Hw); [lia|].
    rewrite waits_caller in Hw. destruct (caller_sema m.2) as [s|] eqn:E; [by exists j, m, s|simpl in Hw; lia]. }
  destruct (a_sema _ _ _ _ I j m s Hj Hcs) as (c & Hc & Hds). rewrite Hd in Hds. destruct Hds as [<- Hds].
  unfold with_da in Hs. rewrite Hd in Hs. unfold sema_signal in Hs. rewrite Hc in Hs. simpl in Hs. apply some_pair in Hs as [-> ->].
  assert (da_done d = n) as Hdn by (apply P11; lia). rewrite decide_True in Hds by done.
  assert (∀ k q s, <[i:=(tsd, AP_dec w)]> ths !! k = Some q → caller_sema q.2 = Some s → s = da_sema d) as Hu.
  { intros k q s Hk Hq. assert (∃ k q, ths !! k = Some q ∧ caller_sema q.2 = Some s) as (k' & q' & Hk' & Hq').
    { apply lookup_insert_Some in Hk as [[<- <-]|[_ Hk]]; [by exists i, (tsd, AP_signal w)|by exists k, q]. }
    destruct (a_sema _ _ _ _ I k' q' s Hk' Hq') as (? & _ & Hds'). rewrite Hd in Hds'. by destruct Hds'. }
  split; try done.
  - sums Hp. rewrite (a_main _ _ _ _ I). unfold main. simpl. lia.
  - unfold phase. simpl. rewrite Hd. sums Hp. simpl. split_and!; try done; [lia|]. left. split; sums Hp; simpl; lia.
  - intros k q [[<- <-]|[Hne Hk]]%lookup_insert_Some; [done|]. apply keep_local; [done| |by apply (a_local _ _ _ _ I k)].
    intros d1 Hd1. by exists d1.
  - intros k q s Hk Hq. rewrite (Hu k q s Hk Hq). exists (c + 1). simpl. rewrite lookup_insert_eq, Hd. split; [done|].
    sums Hp. simpl. split; [done|]. rewrite decide_True by done. lia.
  - intros k q s [[<- <-]|[Hne Hk]]%lookup_insert_Some Hq; simpl in Hq; [lia|].
    pose proof (apply_sums n x g ths I k q Hk) as ((? & ? & _) & _). lia.
  - intros s Hs. simpl. rewrite lookup_insert_ne; [by apply (a_fresh_sema _ _ _ _ I)|]. intros <-. simpl in Hs. by rewrite (a_fresh_sema _ _ _ _ I) in Hc.
  - intros k k' q q' w1 w2 it it' idx y y' [[<- <-]|[Hne Hk]]%lookup_insert_Some [[<- <-]|[Hne' Hk']]%lookup_insert_Some H1' H2'; try done.
    by eapply (a_uniq _ _ _ _ I).
  - apply (a_nodup _ _ _ _ I).
  - intros idx y Hin. destruct (a_calls _ _ _ _ I idx y Hin) as (? & ? & Hidx). split_and!; try done; try lia.
    intros d1 Hd1 _. by apply Hidx.
Qed.

Lemma work_step p' g' : on AP_idle → apply_work AC_work g = Some (p', g') → apply_inv n x g' (<[i:=(tsd, p')]> ths).
Proof.
  intros Hp Hs. unfold apply_work in Hs. destruct (pending g) as [|k] eqn:Ep; [done|]. apply some_pair in Hs as [-> ->].
  facts Hp. pose proof (a_phase _ _ _ _ I) as Hph. unfold phase in Hph. destruct (da g) as [d|] eqn:Hd; [|lia].
  destruct Hph as (Hf & Hit & Hx & Hpos & [P|[]]); [|lia]. destruct P as [P1 P2 P3 P4 P5 P6 P7 P8 P9 P10 P11 P12].
  apply (apply_update n x g ths i _ I Hp); try done.
  - unfold phase. simpl. rewrite Hd. sums Hp. simpl in *. split_and!; try done; [lia|]. left. split; sums Hp; simpl; lia.
  - intros s c. simpl. rewrite Hd. sums Hp. simpl. by rewrite Z.sub_0_r, Z.add_0_r.
  - apply (a_nodup _ _ _ _ I).
  - intros idx y Hin. sums Hp. simpl. rewrite Z.sub_0_r, Z.add_0_r. by apply (a_calls _ _ _ _ I).
Qed.
Section Start.
Context (max_active : Z).

Lemma start_step c it ctxt func nested p' g' : 0 ≤ n → on (AP_start it ctxt func nested) →
  dispatch_apply_f max_active c (AP_start it ctxt func nested) g = Some (p', g') → apply_inv n x g' (<[i:=(tsd, p')]> ths).
Proof.
  intros Hn0 Hp Hs. destruct (a_local _ _ _ _ I i _ Hp) as [-> Hx]. facts Hp. simpl in *.
  pose proof (a_phase _ _ _ _ I) as Hph. unfold phase in Hph. destruct (da g) as [d|] eqn:Hd; [lia|].
  destruct Hph as (Hsh & Hse & Hpe & [[_ Hc]|]); [|lia]. pose proof (no_waits ltac:(lia)) as Hw.
  pose proof (others_local _ Hp eq_refl ltac:(simpl; lia)) as Ho. destruct (last_share _ Hp eq_refl eq_refl ltac:(simpl; lia)) as [Hpt _].
  pose proof (main_sum ths) as Hms. rewrite (a_main _ _ _ _ I) in Hms.
  assert (∀ q h, main q = 1 → fresh q + prep q ≤ 1 → caller_sema q = None → semaphores h = semaphores g → calls h = [] →
    phase n (ctxt, func) h (<[i:=(tsd, q)]> ths) → apply_local n (ctxt, func) h q → apply_inv n (ctxt, func) h (<[i:=(tsd, q)]> ths)) as U.
  { intros q h H1' H2' H3' H4' H5' H6' H7'. rewrite Hx in *. assert (indices h = []) as Ei by (unfold indices; by rewrite H5').
    apply (apply_update n x g ths i _ I Hp); try done; cbn [snd]; rewrite ?H3', ?H5', ?Ei; try done; try (by intros; lia).
    - intros j m Hne Hj. by apply (Ho j).
    - intros w it idx y ->. simpl in H3'. by subst w.
    - apply NoDup_nil_2.
    - by intros idx y ?%elem_of_nil. }
  subst x. case_decide as Hz; [apply some_pair in Hs as [-> ->]|destruct c as [|[]|]; try done].
  - apply U; try done. unfold phase. rewrite Hd, Hc. sums Hp. simpl. split_and!; lia.
  - pose proof (apply_thr_cnt_range max_active n Hn0) as [? ?]. destruct ((_ || _)%bool) eqn:Eb; apply some_pair in Hs as [-> ->].
    + apply U; try done; [|simpl; split; [lia|by unfold indices; simpl; rewrite Hc]]. unfold phase. simpl. sums Hp. simpl.
      split_and!; try lia; try done. right. split; sums Hp; simpl; lia.
    + apply orb_false_iff in Eb as [Eb _]. apply Z.leb_gt in Eb. rewrite wrapU_small by (consts; lia). rewrite decide_False by lia.
      apply U; try done; [|simpl; lia]. unfold phase. simpl. sums Hp. simpl.
      split_and!; try lia; try done. left. split; sums Hp; simpl; rewrite ?Hc; simpl; lia.
  - apply some_pair in Hs as [-> ->]. by rewrite insert_id.
Qed.

(** *** The continuations *)

Lemma conts_step ok cnt k p' tsd' g' : on (AP_conts cnt k) →
  _dispatch_apply_f2 (AC_alloc ok) tsd (AP_conts cnt k) g = Some ((tsd', p'), g') → apply_inv n x g' (<[i:=(tsd', p')]> ths).
Proof.
  intros Hp Hs. destruct (a_local _ _ _ _ I i _ Hp) as [Hcnt Hk]. facts Hp. simpl in *.
  injection Hs as <- <- <-. destruct ok; [|by rewrite insert_id]. rewrite wrapU_small by (consts; lia).
  assert (∀ q, q = AP_conts cnt (k + 1) ∧ k + 1 < cnt ∨ q = AP_sema cnt → apply_inv n x g (<[i:=(tsd, q)]> ths)) as U;
    [|case_decide; apply U; auto].
  intros q Hq. assert (signalling q = 0 ∧ serial q = 0) as [Hsg Hse] by by destruct Hq as [[-> _]| ->].
  apply (apply_update n x g ths i _ I Hp); cbn [snd]; try done.
  1,2,5,7: by destruct Hq as [[-> _]| ->].
  - by apply (phase_same (AP_conts cnt k)); destruct Hq as [[-> _]| ->]; try done; left.
  - destruct Hq as [[-> ?]| ->]; simpl; lia.
  - intros s c. sums Hp. simpl. by rewrite Hsg, Z.sub_0_r, Z.add_0_r.
  - apply (a_nodup _ _ _ _ I).
  - intros idx y Hin. sums Hp. simpl. rewrite Hse, Z.sub_0_r, Z.add_0_r. by apply (a_calls _ _ _ _ I).
Qed.

Lemma sema_step c cnt p' tsd' g' : on (AP_sema cnt) →
  _dispatch_apply_f2 c tsd (AP_sema cnt) g = Some ((tsd', p'), g') → apply_inv n x g' (<[i:=(tsd', p')]> ths).
Proof.
  intros Hp Hs. pose proof (a_local _ _ _ _ I i _ Hp) as Hcnt. facts Hp. simpl in *.
  pose proof (a_phase _ _ _ _ I) as Hph. unfold phase in Hph. destruct (da g) as [d|] eqn:Hd; [|lia].
  destruct Hph as (Hf & Hit & Hx & Hpos & [P|[]]); [|lia]. destruct P as [P1 P2 P3 P4 P5 P6 P7 P8 P9 P10 P11 P12].
  destruct (P9 ltac:(lia)) as (Ei & Epe & Ein).
  pose proof (main_sum ths) as Hms. rewrite (a_main _ _ _ _ I) in Hms.
  destruct (_dispatch_get_thread_semaphore tsd (semaphores g)) as [[sema tsd2] st] eqn:Hg. injection Hs as <- <- <-.
  assert (semas st !! sema = Some 0 ∧ ∀ s, (next_sema st ≤ s)%nat → semas st !! s = None) as [Hs0 Hfr].
  { unfold _dispatch_get_thread_semaphore in Hg. destruct tsd as [s|] eqn:Et; injection Hg as <- _ <-.
    - split; [|apply (a_fresh_sema _ _ _ _ I)]. apply (a_tsd _ _ _ _ I i _ s Hp); [simpl; lia|exact Et].
    - simpl. split; [apply lookup_insert_eq|]. intros s Hs. rewrite lookup_insert_ne by lia. apply (a_fresh_sema _ _ _ _ I). lia. }
  apply (caller_step (AP_sema cnt)); try done.
  - intros s [= <-]. exists 0. simpl. split; [done|]. split; [done|]. sums Hp. simpl. rewrite decide_False by lia. lia.
  - unfold phase. simpl. sums Hp. simpl. split_and!; try done; [lia|]. left. split; sums Hp; simpl; lia.
  - intros j m _ Hj. apply keep_local; [done|]. simpl. intros d' [= <-]. exists d. simpl. split; [done|lia].
  - intros idx y d' Hin [= <-]. sums Hp. simpl. intros Hz. destruct (a_calls _ _ _ _ I idx y Hin) as (_ & _ & H'). by apply H'.
Qed.
End Start.
End Step.
