(* ===== verification/ApplyTheorems.v ===== *)
(** * The parallel loop: theorems *)

From S2P Require Import Prelude Conc ThreadSema Apply ApplyInv ApplyStep.

Section Reachable.
Context (max_active n ctxt func : Z).

(** One thread calls [dispatch_apply_f], with a semaphore in its cache or none;
    the others are workers of the root queue. *)
Definition apply_init (s : config (G := apply_state) (L := apply_thread)) : Prop :=
  let g := shared s in
  let ths := threads s in
  da g = None ∧ pending g = 0%nat ∧ calls g = [] ∧
  (∀ t, (next_sema (semaphores g) ≤ t)%nat → semas (semaphores g) !! t = None) ∧
  ∃ i tsd nested, ths !! i = Some (tsd, AP_start n ctxt func nested) ∧
    (∀ t, tsd = Some t → semas (semaphores g) !! t = Some 0) ∧
    ∀ j l, j ≠ i → ths !! j = Some l → l.2 = AP_idle.

Definition apply_good (s : config (G := apply_state) (L := apply_thread)) : Prop := apply_inv n (ctxt, func) (shared s) (threads s).

(** Only the calling thread counts. *)
Lemma init_sum (f : apply_pc → Z) (ths : athreads) i l : ths !! i = Some l → f AP_idle = 0 →
  (∀ j m, j ≠ i → ths !! j = Some m → m.2 = AP_idle) → asum f ths = f l.2.
Proof.
  intros Hi Hf Ho. rewrite <- (insert_delete_id ths i l Hi), tsum_insert_new by apply lookup_delete_eq.
  rewrite tsum_zero; [lia|]. intros j m [Hne Hj]%lookup_delete_Some. by rewrite (Ho j m).
Qed.

Lemma apply_init_inv s : apply_init s → apply_good s.
Proof.
  destruct s as [g ths]. intros (Hd & Hpe & Hc & Hfr & i & tsd & nested & Hi & Ht & Ho). unfold apply_good. cbn [shared threads] in *.
  assert (∀ f : apply_pc → Z, f AP_idle = 0 → asum f ths = f (AP_start n ctxt func nested)) as Hs.
  { intros f Hf. by apply (init_sum f ths i (tsd, AP_start n ctxt func nested)). }
  assert (∀ j l, ths !! j = Some l → j = i ∧ l = (tsd, AP_start n ctxt func nested) ∨ l.2 = AP_idle) as Hl.
  { intros j l Hj. destruct (decide (j = i)) as [->|Hne]; [left; by simplify_eq|right; by apply (Ho j)]. }
  split.
  - by rewrite Hs.
  - unfold phase. rewrite Hd, !Hs by done. split_and!; try done. by left.
  - intros j l Hj. destruct (Hl j l Hj) as [[_ ->]| ->]; done.
  - intros j l t Hj Hcs. by destruct (Hl j l Hj) as [[_ ->]|E]; [|rewrite E in Hcs].
  - intros j l t Hj Hp Hcs. destruct (Hl j l Hj) as [[_ ->]|E]; [by apply Ht|]. by rewrite E in Hp.
  - done.
  - intros j k l m w w' it it' idx y y' Hj _ E _. destruct (Hl j l Hj) as [[_ ->]|E']; [done|]. by rewrite E' in E.
  - unfold indices. rewrite Hc. apply NoDup_nil_2.
  - rewrite Hc. by intros idx y ?%elem_of_nil.
Qed.

Lemma apply_step_inv g ths i l c l' g' : 0 ≤ n < 2 ^ 63 → apply_inv n (ctxt, func) g ths → ths !! i = Some l →
  apply_tstep max_active c i l g = Some (l', g') → apply_inv n (ctxt, func) g' (<[i:=l']> ths).
Proof.
  intros [Hn0 Hn] I Hi Hs. destruct l as [tsd p], l' as [tsd' p']. pose proof (a_local _ _ _ _ I i _ Hi) as Hl. cbn [snd] in Hl.
  destruct p; try done; cbn [apply_tstep] in Hs;
    try (apply bind_Some in Hs as ([p2 g2] & Hs & [= <- <- <-])).
  - destruct c; try done. by apply (work_step _ _ g).
  - by eapply start_step.
  - destruct c; try done. by eapply conts_step.
  - by eapply sema_step.
  - cbn [_dispatch_apply_f2] in Hs. destruct (sema_wait sema (semaphores g)) as [[]|[st|]] eqn:E.
    + destruct (a_sema _ _ _ _ I i _ sema Hi eq_refl) as (c0 & Hc & _). unfold sema_wait in E. by rewrite Hc in E.
    + injection Hs as <- <- <-. by eapply ap_wait_step.
    + done.
  - cbn [_dispatch_apply_f2] in Hs. destruct (_dispatch_put_thread_semaphore sema tsd (semaphores g)) as [t st] eqn:E.
    injection Hs as <- <- <-. by eapply ap_put_step.
  - by eapply ap_enter_step.
  - by eapply loop_step.
  - by eapply ap_call_step.
  - by eapply run_step.
  - by eapply done_step.
  - by eapply ap_signal_step.
  - by eapply dec_step.
  - by eapply serial_step.
  - by eapply serial_step.
  - by eapply serial_step.
Qed.
End Reachable.

(** ** Every index once *)

(** The client's function runs. *)
Definition in_func (p : apply_pc) : bool :=
  match p with AP_run _ _ _ | AP_serial_run _ => true | _ => false end.

Section Result.
Context (max_active n ctxt func : Z) (Hn : 0 ≤ n < 2 ^ 63).
Context (s : config (G := apply_state) (L := apply_thread)).
Context (R : reachable (apply_tstep max_active) (apply_init n ctxt func) s).

Lemma apply_reachable : apply_good n ctxt func s.
Proof.
  revert s R. apply reachable_inv; [apply apply_init_inv|].
  intros s1 s2 I Hs. destruct Hs as [i c l g ths l' g' Hi Hs]. by eapply apply_step_inv.
Qed.

(** When the calling thread has been waited for, the rest of the phases is over. *)
Lemma returned_sums i l : threads s !! i = Some l → rest l.2 = 1 →
  asum fresh (threads s) = 0 ∧ asum prep (threads s) = 0 ∧ asum serial (threads s) = 0 ∧ asum waits (threads s) = 0.
Proof.
  intros Hi Hr. pose proof apply_reachable as I. unfold apply_good in I.
  pose proof (apply_sums n (ctxt, func) _ _ I i l Hi) as (? & _). pose proof (main_sum (threads s)) as Hm.
  rewrite (a_main _ _ _ _ I) in Hm. lia.
Qed.

(** Every index was called, and no one is at an index. *)
Lemma returned_calls i l : threads s !! i = Some l → rest l.2 = 1 →
  Z.of_nat (length (calls (shared s))) = n ∧ ∀ j m, threads s !! j = Some m → in_func m.2 = false.
Proof.
  intros Hi Hr. pose proof apply_reachable as I. unfold apply_good in I.
  destruct (returned_sums i l Hi Hr) as (H1 & H2 & H3 & H4).
  pose proof (apply_sums_between n (ctxt, func) _ _ I) as Hb. pose proof (apply_sums n (ctxt, func) _ _ I i l Hi) as (_ & Hs).
  pose proof (a_phase _ _ _ _ I) as Hph. unfold phase in Hph. rewrite H1 in Hph.
  assert (Z.of_nat (length (calls (shared s))) = n ∧ (asum share (threads s) = 0 ∨ asum part (threads s) = 0)) as [Hlen Hz].
  { destruct (da (shared s)) as [d|].
    - destruct Hph as (_ & _ & _ & Hpos & [P|[]]); [|lia]. destruct P as [P1 P2 P3 P4 P5 P6 P7 P8 P9 P10 P11 P12].
      destruct (P10 H2 H4). lia.
    - destruct Hph as (? & ? & ? & [[]|[]]); lia. }
  split; [done|]. intros j m Hj. pose proof (apply_sums n (ctxt, func) _ _ I j m Hj) as (? & ?).
  destruct (local_range _ _ _ _ (a_local _ _ _ _ I j m Hj)) as (? & ? & _). pose proof (a_local _ _ _ _ I j m Hj) as Hl.
  destruct m as [t []]; try done; simpl in *; lia.
Qed.

(** C4. A call of [dispatch_apply_f] never uses its record or its semaphore after
    they are gone, calls the function at most once for an index, and by the time
    it returns it has called it exactly once for each of [0 .. iterations - 1],
    with the client's context, and none of these calls is still running. *)
Theorem dispatch_apply_each_index_once :
  (∀ j l f, threads s !! j = Some l → l.2 ≠ AP_crash f) ∧
  NoDup (calls (shared s)).*1 ∧
  ∀ i tsd, threads s !! i = Some (tsd, AP_returned) →
    calls (shared s) ≡ₚ (λ idx, (idx, (ctxt, func))) <$> seqZ 0 n ∧
    ∀ j l, threads s !! j = Some l → in_func l.2 = false.
Proof.
  pose proof apply_reachable as I. unfold apply_good in I. split_and!.
  - intros j [t p] f Hj Hp. simpl in Hp. subst p. apply (a_local _ _ _ _ I j _ Hj).
  - apply (a_nodup _ _ _ _ I).
  - intros i tsd Hi. destruct (returned_calls i _ Hi eq_refl) as [Hlen Hf]. split; [|done].
    apply submseteq_length_Permutation; [|rewrite length_fmap, length_seqZ; lia].
    apply NoDup_submseteq; [by apply (NoDup_fmap_1 fst), (a_nodup _ _ _ _ I)|].
    intros [idx y] Hin. destruct (a_calls _ _ _ _ I idx y Hin) as (-> & ? & _). apply list_elem_of_fmap. exists idx. split; [done|].
    apply elem_of_seqZ. lia.
Qed.

(** A thread that cannot move. *)
Definition at_rest (i : nat) (l : apply_thread) : Prop := ∀ c, apply_tstep max_active c i l (shared s) = None.

Lemma rest_points i l : threads s !! i = Some l → at_rest i l →
  (l.2 = AP_idle ∧ pending (shared s) = 0%nat) ∨ l.2 = AP_returned ∨
  ∃ t c, l.2 = AP_wait t ∧ semas (semaphores (shared s)) !! t = Some c ∧ c ≤ 0.
Proof.
  intros Hi Hr. pose proof (Hr AC_work) as Hw. pose proof (Hr AC_go) as Hg. pose proof (Hr (AC_alloc true)) as Ha.
  pose proof (a_local _ _ _ _ apply_reachable i l Hi) as Hl. destruct l as [t p]. cbn [snd] in *.
  destruct p; cbn [apply_tstep _dispatch_apply_invoke _dispatch_apply_serial _dispatch_apply_f2 dispatch_apply_f apply_work] in *;
    try done; auto;
    try (unfold with_da, sema_signal in Hg; destruct (da (shared s)) as [d|]; try done; by destruct (semas _ !! _)).
  - left. by destruct (pending (shared s)).
  - case_decide; [done|]. by destruct ((_ || _)%bool).
  - destruct (da (shared s)); [|done]. by destruct (_dispatch_get_thread_semaphore t (semaphores (shared s))) as [[] ].
  - right; right. unfold sema_wait in Hg.
    destruct (semas (semaphores (shared s)) !! sema) as [c|] eqn:Ec; [|done].
    destruct (decide (0 < c)); [done|]. exists sema, c. split_and!; [done..|lia].
  - by destruct (_dispatch_put_thread_semaphore sema t _).
Qed.

(** C5. A call of [dispatch_apply_f] cannot hang: when no thread can move any
    more, the call has returned - even if no worker ever came to help - and if
    a worker is left the record is free and no continuation leads to it. *)
Theorem dispatch_apply_no_deadlock :
  (∀ i l, threads s !! i = Some l → at_rest i l) →
  (∃ i tsd, threads s !! i = Some (tsd, AP_returned)) ∧
  ((∃ i tsd, threads s !! i = Some (tsd, AP_idle)) → da (shared s) = None ∧ pending (shared s) = 0%nat).
Proof.
  intros Hr. pose proof apply_reachable as I. unfold apply_good in I. pose proof (a_phase _ _ _ _ I) as Hph. unfold phase in Hph.
  assert (∀ i l, threads s !! i = Some l → l.2 = AP_idle ∨ l.2 = AP_returned ∨ ∃ t, l.2 = AP_wait t) as Hp.
  { intros i l Hi. destruct (rest_points i l Hi (Hr i l Hi)) as [[? _]|[?|(t & _ & ? & _)]]; eauto. }
  assert (asum share (threads s) = 0 ∧ asum serial (threads s) = 0 ∧ asum part (threads s) = 0 ∧ asum signalling (threads s) = 0)
    as (Z1 & Z2 & Z3 & Z4).
  { split_and!; apply tsum_zero; intros i l Hi; by destruct (Hp i l Hi) as [-> |[-> |[t ->]]]. }
  assert (∀ i l t, threads s !! i = Some l → l.2 ≠ AP_wait t) as Hnw.
  { intros i l t Hi Et. destruct (rest_points i l Hi (Hr i l Hi)) as [[E _]|[E|(t' & c & E & Hc & Hle)]]; [congruence..|].
    rewrite Et in E. injection E as <-. destruct (a_sema _ _ _ _ I i l t Hi) as (c' & Hc' & Hd); [by rewrite Et|].
    rewrite Hc in Hc'. injection Hc' as <-. destruct (da (shared s)) as [d|]; [|lia].
    destruct Hph as (_ & _ & _ & Hpos & [P|[]]); [|lia]. destruct P as [P1 P2 P3 P4 P5 P6 P7 P8 P9 P10 P11 P12].
    destruct (apply_sums n (ctxt, func) _ _ I i l Hi) as (_ & (_ & _ & _ & _ & _ & _ & Hl)). rewrite Et in Hl. simpl in Hl.
    rewrite decide_True in Hd by lia. lia. }
  split.
  - destruct (tsum_pos (λ _ (l : apply_thread), main l.2) (threads s)) as (i & [t p] & Hi & Hm); [rewrite (a_main _ _ _ _ I); lia|].
    exists i, t. destruct (Hp i _ Hi) as [E|[E|[t' E]]]; simpl in E; subst p; [done|done|by destruct (Hnw i _ t' Hi)].
  - intros (i & t & Hi). destruct (rest_points i _ Hi (Hr i _ Hi)) as [[_ Hpe]|[?|(? & ? & ? & _)]]; [|done..].
    split; [|done]. destruct (da (shared s)) as [d|]; [|done]. destruct Hph as (_ & _ & _ & Hpos & [[]|[]]); lia.
Qed.
End Result.

(** ** It ends *)

(** The steps that a thread has left, other than those that take an index. *)
Definition weight (n : Z) (p : apply_pc) : Z :=
  match p with
  | AP_idle | AP_returned | AP_crash _ => 0
  | AP_start _ _ _ _ => 5 * n + 600
  | AP_conts cnt i => 8 * cnt + 9 + (cnt - i)
  | AP_sema cnt => 8 * cnt + 9
  | AP_enter _ => 7
  | AP_loop _ _ _ => 6
  | AP_call _ _ _ _ => 8
  | AP_run _ _ _ => 7
  | AP_done _ _ _ => 5
  | AP_signal _ => 4
  | AP_dec _ => 3
  | AP_wait _ => 2
  | AP_put _ => 1
  | AP_serial idx => 2 * (n - idx) + 1
  | AP_serial_run idx => 2 * (n - idx)
  | AP_serial_free => 1
  end.

(** The steps that the whole call has left. *)
Definition measure (n : Z) (g : apply_state) (ths : athreads) : Z :=
  asum (weight n) ths + 8 * Z.of_nat (pending g) +
  match da g with Some d => 3 * (n - Z.min (da_index d) n) | None => 0 end.

Section Terminates.
Context (max_active n ctxt func : Z) (Hn : 0 ≤ n < 2 ^ 63).

Lemma measure_pos g ths : apply_inv n (ctxt, func) g ths → 0 ≤ measure n g ths.
Proof.
  intros I. assert (0 ≤ asum (weight n) ths).
  { apply tsum_nonneg. intros j m Hj. pose proof (a_local _ _ _ _ I j m Hj) as Hl. destruct m as [t []]; simpl in *; lia. }
  unfold measure. destruct (da g); lia.
Qed.

Ltac meas := cbn [weight bad_da bad_tsema snd pending set_pending da set_da semaphores set_semaphores log_apply calls da_index set_sema set_index set_done set_thr_cnt];
  try match goal with H : da _ = _ |- _ => rewrite H end; lia.

Ltac by_record :=
  match goal with
  | Hs : _ = Some (?p2, _) |- context [da ?g] =>
      cbn [_dispatch_apply_invoke _dispatch_apply_serial] in Hs; unfold with_da in Hs; destruct (da g) as [d|] eqn:Hd;
      [try (apply some_pair in Hs as [-> ->]; rewrite ?Hd; try meas)|apply some_pair in Hs as [-> ->]; rewrite ?Hd; simpl in *; meas]
  end.

Lemma measure_step g ths i l c l' g' : apply_inv n (ctxt, func) g ths → ths !! i = Some l → c ≠ AC_alloc false →
  apply_tstep max_active c i l g = Some (l', g') → measure n g' (<[i:=l']> ths) < measure n g ths.
Proof.
  intros I Hi Hc Hs. unfold measure. rewrite (tsum_step _ _ _ _ _ Hi). pose proof (a_local _ _ _ _ I i _ Hi) as Hl.
  destruct l as [t p], l' as [t' p']. cbn [snd] in *.
  destruct p; try done; cbn [apply_tstep] in Hs; try (apply bind_Some in Hs as ([p2 g2] & Hs & [= <- <- <-])).
  - destruct c; try done. unfold apply_work in Hs. destruct (pending g) as [|k] eqn:Ep; [done|]. apply some_pair in Hs as [-> ->].
    cbn [weight pending set_pending da]. destruct (da g); lia.
  - unfold dispatch_apply_f in Hs. simpl in Hl. destruct Hl as [-> _].
    pose proof (a_phase _ _ _ _ I) as Hph. unfold phase in Hph. destruct (apply_sums n (ctxt, func) _ _ I i _ Hi) as ((Hf & _) & _). simpl in Hf.
    destruct (da g) as [d|] eqn:Hd; [lia|]. case_decide; [apply some_pair in Hs as [-> ->]; rewrite Hd; meas|].
    destruct c as [|[]|]; try done. destruct (apply_thr_cnt_range max_active n) as [Hle _]; [lia|]. destruct ((_ || _)%bool) eqn:Eb.
    + apply some_pair in Hs as [-> ->]. meas.
    + apply some_pair in Hs as [-> ->]. apply orb_false_iff in Eb as [Eb _]. apply Z.leb_gt in Eb.
      rewrite wrapU_small by (consts; lia). rewrite decide_False by lia. meas.
  - destruct c as [|[]|]; try done. injection Hs as <- <- <-. simpl in Hl. rewrite wrapU_small by (consts; lia).
    case_decide; meas.
  - simpl in Hs, Hl. destruct (da g) as [d|] eqn:Hd; [|injection Hs as <- <- <-; rewrite Hd; meas].
    destruct (_dispatch_get_thread_semaphore t (semaphores g)) as [[sema t2] st]. injection Hs as <- <- <-. meas.
  - simpl in Hs. destruct (sema_wait sema (semaphores g)) as [|[st|]]; [| |done]; injection Hs as <- <- <-; meas.
  - simpl in Hs. destruct (_dispatch_put_thread_semaphore sema t (semaphores g)) as [t2 st]. injection Hs as <- <- <-. meas.
  - by_record.
  - destruct (inside_parallel n (ctxt, func) g ths i t I _ Hi) as (d & Hd & _ & _ & _ & _ & _ & P); [done|]. destruct (p_index _ _ _ _ P).
    pose proof (apply_sums_between n (ctxt, func) g ths I). pose proof (apply_sums n (ctxt, func) g ths I i _ Hi). pose proof (p_pos _ _ _ _ P). pose proof (p_thr _ _ _ _ P).
    cbn [_dispatch_apply_invoke] in Hs. unfold with_da in Hs. rewrite Hd in *. apply some_pair in Hs as [-> ->]. simpl in Hl.
    rewrite (wrapU_small 64 (da_index d + 1)) by (consts; lia). rewrite wrapU_small by (consts; lia).
    replace (da_index d + 1 - 1) with (da_index d) by lia. destruct Hl as [-> _]. repeat case_decide; meas.
  - by_record.
  - cbn [_dispatch_apply_invoke] in Hs. apply some_pair in Hs as [-> ->]. meas.
  - by_record. case_decide; meas.
  - by_record. destruct (sema_signal _ _); apply some_pair in Hs as [-> ->]; rewrite ?Hd; meas.
  - by_record. case_decide; destruct caller; cbn [apply_after]; meas.
  - by_record.
  - by_record. simpl in Hl. rewrite wrapU_small by (consts; lia). case_decide; meas.
  - by_record.
Qed.

(** The bound, by the program point that the call starts at. *)
Lemma measure_init s : apply_init n ctxt func s → measure n (shared s) (threads s) = 5 * n + 600.
Proof.
  intros (Hd & Hpe & _ & _ & i & tsd & nested & Hi & _ & Ho). unfold measure. rewrite Hd, Hpe.
  rewrite (init_sum (weight n) (threads s) i _ Hi); [simpl; lia|done|done].
Qed.

Lemma measure_run sched s s' : apply_good n ctxt func s → (∀ i, (i, AC_alloc false) ∉ sched) →
  run (apply_tstep max_active) sched s = Some s' →
  Z.of_nat (length sched) + measure n (shared s') (threads s') ≤ measure n (shared s) (threads s).
Proof.
  revert s. induction sched as [|[i c] sched IH]; intros s I Hok Hr; [injection Hr as ->; simpl; lia|].
  simpl in Hr. apply bind_Some in Hr as (l & Hi & Hr). apply bind_Some in Hr as ([l' g'] & Hs & Hr).
  assert (c ≠ AC_alloc false) as Hc by (intros ->; apply (Hok i); left).
  pose proof (measure_step _ _ _ _ _ _ _ I Hi Hc Hs) as Hm.
  pose proof (IH (Config g' (<[i:=l']> (threads s))) (apply_step_inv max_active n ctxt func _ _ _ _ _ _ _ Hn I Hi Hs) (λ j Hj, Hok j (list_elem_of_further _ _ _ Hj)) Hr) as H'.
  simpl in *. lia.
Qed.

(** C6. A call of [dispatch_apply_f] ends: whatever the schedule, as long as
    allocations succeed, all threads together take at most
    [5 * iterations + 600] steps. *)
Theorem dispatch_apply_terminates sched s s' :
  apply_init n ctxt func s → (∀ i, (i, AC_alloc false) ∉ sched) → run (apply_tstep max_active) sched s = Some s' →
  Z.of_nat (length sched) ≤ 5 * n + 600.
Proof.
  intros Hi Hok Hr. pose proof (measure_run sched s s' (apply_init_inv n ctxt func s Hi) Hok Hr). rewrite (measure_init s Hi) in *.
  pose proof (measure_pos (shared s') (threads s')) as Hp. assert (apply_good n ctxt func s') as I; [|specialize (Hp I); lia].
  apply (apply_reachable max_active n ctxt func Hn). by apply (run_init _ _ sched s).
Qed.
End Terminates.

(** ** The queues between *)

(** A queue that runs no more than its width, in units of 2. *)
Definition within_width (q : queue_use) : Prop := 0 ≤ q.1 ≤ q.2 ∧ q.2 < 2 ^ 31 ∧ (1 < q.2 → q.1 `mod` 2 = 0 ∧ q.2 `mod` 2 = 0).

Section Redirect.

Lemma sub_add_running k q : 0 ≤ q.1 < 2 ^ 32 → give_width k (use_width k q) = q.
Proof.
  intros. destruct q as [r w]. unfold give_width, use_width. simpl in *. f_equal. unfold wrapU. rewrite Zminus_mod_idemp_l.
  rewrite Z.add_simpl_r. apply Z.mod_small. lia.
Qed.

(** Some of the width taken is given back. *)
Lemma give_back w e q : 0 ≤ e ≤ w → 0 ≤ q.1 → q.1 + w < 2 ^ 32 → give_width e (use_width w q) = use_width (w - e) q.
Proof.
  intros. destruct q as [r v]. unfold give_width, use_width. simpl in *. f_equal.
  rewrite (wrapU_small 32 (r + w)) by (consts; lia). f_equal. lia.
Qed.

(** What the loop ends with, from the queues [done] that [w] was added to. *)
Definition redirect_ok (w0 : Z) (queues : list queue_use) (r : redirect_to) : Prop :=
  match r with
  | RT_serial after => after = queues
  | RT_apply thr_cnt during after =>
      ∃ w, 0 < w ≤ w0 ∧ thr_cnt = w / 2 + 1 ∧ w `mod` 2 = 0 ∧ during = use_width w <$> queues ∧ after = queues ∧
        Forall (λ q : queue_use, q.1 ≤ q.2) during
  end.

Lemma redirect_ok_le w w0 queues r : w ≤ w0 → redirect_ok w queues r → redirect_ok w0 queues r.
Proof. intros Hle. destruct r; [done|]. intros (w' & Hw & H). exists w'. split; [lia|done]. Qed.

Lemma fmap_queues (f h : queue_use → queue_use) qs : Forall (λ q, f q = h q) qs → f <$> qs = h <$> qs.
Proof. apply Forall_fmap_ext_1. Qed.

(** All of the queues are within their widths, with [w] more where it was added. *)
Lemma taken_back w e qs : 0 ≤ e ≤ w → w ≤ 126 → Forall within_width qs →
  give_width e <$> (use_width w <$> qs) = use_width (w - e) <$> qs.
Proof.
  intros He Hw Hq. rewrite <- list_fmap_compose. apply fmap_queues. eapply Forall_impl; [exact Hq|].
  intros q (? & ? & _). simpl. apply give_back; consts; lia.
Qed.

Lemma add_none qs : Forall within_width qs → use_width 0 <$> qs = qs.
Proof.
  intros Hq. rewrite <- (list_fmap_id qs) at 2. apply fmap_queues. eapply Forall_impl; [exact Hq|].
  intros [r v] (? & ? & _). unfold use_width. simpl in *. f_equal. rewrite wrapU_small by (consts; lia). lia.
Qed.

Lemma redirect_loop_ok w thr passed queues : 0 < w ≤ 126 → w `mod` 2 = 0 → thr = w / 2 + 1 →
  Forall within_width passed → Forall within_width queues → Forall (λ q : queue_use, q.1 + w ≤ q.2) passed →
  redirect_ok w (passed ++ queues) (redirect_loop w thr (use_width w <$> passed) queues).
Proof.
  revert w thr passed. induction queues as [|q queues IH]; intros w thr passed Hw Hm Ht Hp Hq Hpw; simpl.
  - rewrite app_nil_r. exists w. split_and!; try done; try lia.
    + rewrite (taken_back w w) by (done || lia). rewrite Z.sub_diag. by apply add_none.
    + apply Forall_fmap, Forall_forall. intros q Hin. rewrite Forall_forall in Hp, Hpw. pose proof (Hpw q Hin). destruct (Hp q Hin) as (? & ? & _).
      simpl. rewrite wrapU_small; consts; lia.
  - apply Forall_cons in Hq as [Hq1 Hq]. pose proof Hq1 as (Hr & Hv & He).
    assert (passed ++ q :: queues = (passed ++ [q]) ++ queues) as -> by by rewrite <- app_assoc.
    assert (Forall within_width (passed ++ [q])) as Hpq by (apply Forall_app; split; [done|by apply Forall_singleton]).
    rewrite (wrapU_small 32 (q.1 + w)) by (consts; lia).
    replace (use_width w <$> passed) with (use_width w <$> passed ++ []) by by rewrite app_nil_r.
    replace ((use_width w <$> passed ++ []) ++ [use_width w q]) with (use_width w <$> passed ++ [q]) by by rewrite !fmap_app, app_nil_r.
    case_decide as Hlt.
    + set (excess := if decide (1 < q.2) then _ else _).
      assert (0 < excess ≤ w ∧ (w - excess = 0 ∨ w - excess = q.2 - q.1 ∧ 1 < q.2)) as [Hex Hwe].
      { subst excess. case_decide; rewrite ?(wrapU_small 32 (q.1 + w - q.2)) by (consts; lia); lia. }
      rewrite (wrapU_small 32 (w - excess)) by (consts; lia). rewrite (taken_back w excess) by (done || lia).
      case_decide as Hz; [rewrite Hz, add_none by done; done|].
      assert ((w - excess) `mod` 2 = 0) as Hme by (destruct Hwe as [?|[-> Hv1]]; [lia|]; destruct (He Hv1) as [E1 E2]; by rewrite Zminus_mod, E1, E2).
      apply (redirect_ok_le (w - excess)); [lia|]. apply IH; try done; try lia.
      * clearbody excess. clear -Hex Ht Hw Hm Hme Hz. assert (thr - excess / 2 = (w - excess) / 2 + 1) as <- by (Z.to_euclidean_division_equations; lia).
        apply wrapU_small. consts. Z.to_euclidean_division_equations. lia.
      * apply Forall_app. split; [|apply Forall_singleton; lia]. eapply Forall_impl; [exact Hpw|]. simpl. lia.
    + apply IH; try done. apply Forall_app. split; [done|apply Forall_singleton; lia].
Qed.

(** When no queue runs more than its width, [_dispatch_apply_redirect] takes at
    most what is free: with the workers it leaves to the loop, every queue is
    within its width while the loop runs - or the loop is done serially - and
    every queue ends as it was.  The number of threads is one more than half of
    the width taken. *)
Theorem apply_redirect_within_width thr_cnt queues : 1 < thr_cnt ≤ 64 → Forall within_width queues →
  redirect_ok (2 * (thr_cnt - 1)) queues (_dispatch_apply_redirect thr_cnt queues).
Proof.
  intros Ht Hq. unfold _dispatch_apply_redirect. rewrite !wrapU_small by (rewrite ?wrapU_small; consts; lia).
  apply (redirect_loop_ok _ _ [] queues); try done; [lia|..]; Z.to_euclidean_division_equations; lia.
Qed.

(** A queue of width 4 (two at a time) on which three clients are in
    [dispatch_sync] already runs more than its width, so more than the width taken
    is given back: [da_width] wraps around, the number of threads becomes 0, and
    [_dispatch_apply_f2] sets out to allocate 4294967295 continuations. *)
Theorem apply_redirect_over_width :
  ∃ during after, _dispatch_apply_redirect 4 [(6, 4)] = RT_apply 0 during after ∧ continuation_cnt 0 = 4294967295.
Proof. eexists _, _. split; vm_compute; reflexivity. Qed.
End Redirect.

(** ** Witnesses *)

(** Two processors, three iterations, one worker. *)
Definition apply_start : config (G := apply_state) (L := apply_thread) :=
  Config (AState None 0 (Semas ∅ 0) []) {[0%nat := (None, AP_start 3 7 8 false); 1%nat := (None, AP_idle)]}.

Definition apply_schedule : list (nat * apply_choice) :=
  [(0%nat, AC_alloc true); (0%nat, AC_alloc true); (0%nat, AC_go); (1%nat, AC_work)] ++
  concat (repeat [(0%nat, AC_go); (1%nat, AC_go)] 14).

Definition apply_end : config (G := apply_state) (L := apply_thread) := play (apply_tstep 2) apply_schedule apply_start.

Lemma apply_start_init : apply_init 3 7 8 apply_start.
Proof.
  split_and!; try done. exists 0%nat, None, false. split_and!; try done.
  intros j l Hne. cbn [threads apply_start]. intros [[<- _]|[_ [_ <-]%lookup_singleton_Some]]%lookup_insert_Some; done.
Qed.

Lemma apply_end_reachable : reachable (apply_tstep 2) (apply_init 3 7 8) apply_end.
Proof. apply play_reachable. exists apply_start. split; [apply apply_start_init|apply rtc_refl]. Qed.

Lemma apply_end_threads : threads apply_end = {[0%nat := (Some 0%nat, AP_returned); 1%nat := (None, AP_idle)]}.
Proof. vm_compute. reflexivity. Qed.

Lemma dispatch_apply_each_index_once_witness :
  calls (shared apply_end) ≡ₚ [(0, (7, 8)); (1, (7, 8)); (2, (7, 8))] ∧ NoDup (calls (shared apply_end)).*1.
Proof.
  destruct (dispatch_apply_each_index_once 2 3 7 8 ltac:(lia) apply_end apply_end_reachable) as (_ & H1 & H2).
  split; [|exact H1]. apply (H2 0%nat (Some 0%nat)). rewrite apply_end_threads. reflexivity.
Defined.

Lemma dispatch_apply_no_deadlock_witness : (∃ i tsd, threads apply_end !! i = Some (tsd, AP_returned)) ∧ da (shared apply_end) = None.
Proof.
  destruct (dispatch_apply_no_deadlock 2 3 7 8 ltac:(lia) apply_end apply_end_reachable) as [H1 H2].
  - intros i l. rewrite apply_end_threads.
    intros [[<- <-]|[_ [<- <-]%lookup_singleton_Some]]%lookup_insert_Some c; [done|]. by destruct c.
  - split; [exact H1|]. apply H2. exists 1%nat, None. rewrite apply_end_threads. reflexivity.
Defined.

Lemma dispatch_apply_terminates_witness : Z.of_nat (length [(0%nat, AC_alloc true); (0%nat, AC_alloc true); (0%nat, AC_go)]) ≤ 5 * 3 + 600.
Proof.
  apply (dispatch_apply_terminates 2 3 7 8 ltac:(lia) _ apply_start
    (play (apply_tstep 2) [(0%nat, AC_alloc true); (0%nat, AC_alloc true); (0%nat, AC_go)] apply_start)).
  - apply apply_start_init.
  - intros i. rewrite !elem_of_cons. intros [?|[?|[?|?%elem_of_nil]]]; done.
  - vm_compute. reflexivity.
Defined.

Lemma apply_redirect_within_width_witness :
  redirect_ok 6 [(2, 8); (4, 6)] (_dispatch_apply_redirect 4 [(2, 8); (4, 6)]) ∧
  _dispatch_apply_redirect 4 [(2, 8); (4, 6)] = RT_apply 2 [(4, 8); (6, 6)] [(2, 8); (4, 6)].
Proof.
  split; [|vm_compute; reflexivity]. apply (apply_redirect_within_width 4); [lia|].
  repeat constructor; simpl; lia.
Defined.
