(* ===== verification/Group.v ===== *)
(** * Groups (src/semaphore.c, [dispatch_group_t])

    A group is a semaphore whose value starts at [LONG_MAX]: entering takes one,
    leaving puts it back, and the group is empty when the value is the initial
    one again.  Whoever finds the group empty wakes the threads counted in
    [dsema_group_waiters], through the futex, and submits the blocks of the
    list of notifications.  A step is one atomic access, or one call of another
    component. *)

From S2P Require Import Prelude Conc Time Futex Semaphore.

(** ** State *)

(** A notification; nodes are named by numbers, the null pointer is [None]. *)
Record dispatch_sema_notify_s : Type := Notify {
  dsn_next : option nat;
  dsn_queue : nat;
  dsn_ctxt : Z;
  dsn_func : Z
}.

Definition set_next (n : option nat) (d : dispatch_sema_notify_s) : dispatch_sema_notify_s :=
  Notify n (dsn_queue d) (dsn_ctxt d) (dsn_func d).

(** The calls made to the queues. *)
Inductive queue_call : Type :=
  | Q_retain (q : nat)
  | Q_async (q : nat) (ctxt func : Z)
  | Q_release (q : nat).

Record dispatch_group_s : Type := Group {
  dsema : dispatch_semaphore_s;
  dsema_group_waiters : Z;
  dsema_notify_head : option nat;
  dsema_notify_tail : option nat;
  nodes : gmap nat dispatch_sema_notify_s;
  next_node : nat;
  calls : list queue_call
}.

Definition set_dsema x g := Group x (dsema_group_waiters g) (dsema_notify_head g) (dsema_notify_tail g) (nodes g) (next_node g) (calls g).
Definition set_waiters x g := Group (dsema g) x (dsema_notify_head g) (dsema_notify_tail g) (nodes g) (next_node g) (calls g).
Definition set_head x g := Group (dsema g) (dsema_group_waiters g) x (dsema_notify_tail g) (nodes g) (next_node g) (calls g).
Definition set_tail x g := Group (dsema g) (dsema_group_waiters g) (dsema_notify_head g) x (nodes g) (next_node g) (calls g).
Definition set_nodes x g := Group (dsema g) (dsema_group_waiters g) (dsema_notify_head g) (dsema_notify_tail g) x (next_node g) (calls g).
Definition log_call c g := Group (dsema g) (dsema_group_waiters g) (dsema_notify_head g) (dsema_notify_tail g) (nodes g) (next_node g) (calls g ++ [c]).
Definition set_gfutex x g := set_dsema (set_futex x (dsema g)) g.

Definition value g := dsema_value (dsema g).

Definition dispatch_group_create : dispatch_group_s :=
  Group (_dispatch_semaphore_init LONG_MAX) 0 None None ∅ 0 [].

(** [dsema->dsema_value == dsema->dsema_orig] *)
Definition group_empty (g : dispatch_group_s) : bool := dsema_value (dsema g) =? dsema_orig (dsema g).

(** ** Program points *)

Inductive wake_pc : Type :=
  | K_head
  | K_tail (head : nat)
  | K_waiters (list : option (nat * option nat))
  | K_post (rval : Z) (p : signal_pc) (list : option (nat * option nat))
  | K_async (head : nat) (tail : option nat)
  | K_release_queue (head : nat) (tail : option nat)
  | K_next (head : nat) (tail : option nat)
  | K_spin (head : nat) (tail : option nat)
  | K_free (head : nat) (next tail : option nat)
  | K_release
  | K_done.

Inductive group_pc : Type :=
  | G_idle
  | G_crash (f : fault)
  | G_enter
  | G_sema (p : sema_pc)
  | G_leave
  | G_wake (p : wake_pc) (waiting : bool)
  | G_wait (timeout : Z)
  | G_again (timeout : Z)
  | G_inc (timeout : Z)
  | G_check (timeout : Z)
  | G_switch (timeout : Z)
  | G_timed (timeout : Z) (rel : timespec) (p : wait_pc)
  | G_undo (timeout : Z)
  | G_undo_cas (timeout orig : Z)
  | G_drain (timeout : Z) (p : wait_pc)
  | G_wait_ret (r : Z)
  | G_notify (q : nat) (ctxt func : Z)
  | G_retain_queue (n : nat)
  | G_push (n : nat)
  | G_link (prev n : nat)
  | G_retain (n : nat)
  | G_head (n : nat)
  | G_notify_check.

Inductive group_choice : Type :=
  | GC_enter
  | GC_leave
  | GC_wait (timeout : Z)
  | GC_notify (q : nat) (ctxt func : Z)
  | GC_calloc (ok : bool)
  | GC_clocks (now_wall : Z * Z) (now_abs : timespec)
  | GC_kernel (c : kchoice).

Definition gkernel (c : group_choice) : kchoice := match c with GC_kernel k => k | _ => K_go end.

(** The same choice, for the semaphore functions a group calls. *)
Definition sema_of (c : group_choice) : sema_choice :=
  match c with
  | GC_clocks w a => C_clocks w a
  | GC_kernel k => C_kernel k
  | _ => C_go
  end.

Definition bad_node : group_pc := G_crash (UB "dispatch_sema_notify_s").

(** ** The functions *)

(** [waiting]: called by [_dispatch_group_wait_slow], which returns its result. *)
Definition _dispatch_group_wake (c : group_choice) (waiting : bool) (p : wake_pc) (g : dispatch_group_s)
  : option (group_pc * dispatch_group_s) :=
  let go p := G_wake p waiting in
  let notify list := match list with Some (head, tail) => go (K_async head tail) | None => go K_done end in
  match p with
  | K_head =>
      Some (match dsema_notify_head g with
            | Some head => go (K_tail head)
            | None => go (K_waiters None)
            end, set_head None g)
  | K_tail head =>
      Some (go (K_waiters (Some (head, dsema_notify_tail g))), set_tail None g)
  | K_waiters list =>
      let rval := dsema_group_waiters g in
      Some (if decide (rval ≠ 0) then go (K_post rval S_read list) else notify list, set_waiters 0 g)
  | K_post rval S_done list =>
      Some (if decide (rval - 1 ≠ 0) then go (K_post (rval - 1) S_read list) else notify list, g)
  | K_post rval (S_crash f) list => Some (G_crash f, g)
  | K_post rval p list =>
      '(p, x) ← _dispatch_futex_signal (gkernel c) p (dsema_futex (dsema g));
      Some (go (K_post rval p list), set_gfutex x g)
  | K_async head tail =>
      Some (match nodes g !! head with
            | Some d => (go (K_release_queue head tail), log_call (Q_async (dsn_queue d) (dsn_ctxt d) (dsn_func d)) g)
            | None => (bad_node, g)
            end)
  | K_release_queue head tail =>
      Some (match nodes g !! head with
            | Some d => (go (K_next head tail), log_call (Q_release (dsn_queue d)) g)
            | None => (bad_node, g)
            end)
  | K_next head tail =>
      Some (match nodes g !! head with
            | Some d =>
                if decide (dsn_next d = None ∧ Some head ≠ tail) then go (K_spin head tail)
                else go (K_free head (dsn_next d) tail)
            | None => bad_node
            end, g)
  | K_spin head tail =>
      Some (match nodes g !! head with
            | Some d =>
                if decide (dsn_next d = None) then go (K_spin head tail)
                else go (K_free head (dsn_next d) tail)
            | None => bad_node
            end, g)
  | K_free head next tail =>
      Some (match nodes g !! head with
            | Some _ => match next with Some next => go (K_async next tail) | None => go K_release end
            | None => bad_node
            end, set_nodes (delete head (nodes g)) g)
  | K_release =>
      Some (match sema_release (dsema g) with
            | inl f => (G_crash f, g)
            | inr s => (go K_done, set_dsema s g)
            end)
  | K_done => Some (if waiting then G_wait_ret 0 else G_idle, g)
  end.

Definition dispatch_group_enter (g : dispatch_group_s) : group_pc * dispatch_group_s :=
  let '(p, s) := dispatch_semaphore_wait DISPATCH_TIME_FOREVER (dsema g) in (G_sema p, set_dsema s g).

Definition dispatch_group_leave (g : dispatch_group_s) : group_pc * dispatch_group_s :=
  let value := i64 (dsema_value (dsema g) + 1) in
  let g := set_dsema (set_value value (dsema g)) g in
  (if decide (value = LONG_MIN)
   then G_crash (DISPATCH_CLIENT_CRASH "Unbalanced call to dispatch_group_leave()")
   else if decide (value = dsema_orig (dsema g)) then G_wake K_head false else G_idle, g).

Definition _dispatch_group_wait_slow (c : group_choice) (i : nat) (p : group_pc) (g : dispatch_group_s)
  : option (group_pc * dispatch_group_s) :=
  match p with
  | G_again timeout => Some (if group_empty g then G_wake K_head true else G_inc timeout, g)
  | G_inc timeout => Some (G_check timeout, set_waiters (u64 (dsema_group_waiters g + 1)) g)
  | G_check timeout => Some (if group_empty g then G_wake K_head true else G_switch timeout, g)
  | G_switch timeout =>
      if decide (timeout = DISPATCH_TIME_NOW) then Some (G_undo timeout, g)
      else if decide (timeout = DISPATCH_TIME_FOREVER) then Some (G_drain timeout (W_first T_read), g)
      else match c with
           | GC_clocks now_wall now_abs =>
               Some (match _dispatch_timeout now_wall now_abs timeout with
                     | Some nsec => G_timed timeout (relative_timeout nsec) (W_first T_read)
                     | None => G_crash (UB "signed overflow")
                     end, g)
           | _ => None
           end
  | G_timed timeout _ (W_done ret) =>
      Some (match ret with
            | None => G_again timeout
            | Some EINTR => G_switch timeout
            | Some ETIMEDOUT => G_undo timeout
            | Some _ => G_crash (DISPATCH_CRASH "flawed group/semaphore logic")
            end, g)
  | G_timed timeout rel p =>
      '(p, x) ← _dispatch_futex_wait (Some rel) (gkernel c) i p (dsema_futex (dsema g));
      Some (G_timed timeout rel p, set_gfutex x g)
  | G_undo timeout =>
      let orig := dsema_group_waiters g in
      Some (if decide (orig ≠ 0) then G_undo_cas timeout orig else G_drain timeout (W_first T_read), g)
  | G_undo_cas timeout orig =>
      if decide (dsema_group_waiters g = orig) then Some (G_wait_ret (-1), set_waiters (orig - 1) g)
      else Some (G_undo timeout, g)
  | G_drain timeout (W_done ret) =>
      Some (match ret with
            | None => G_again timeout
            | Some EINTR => G_drain timeout (W_first T_read)
            | Some _ => G_crash (DISPATCH_CRASH "flawed group/semaphore logic")
            end, g)
  | G_drain timeout p =>
      '(p, x) ← _dispatch_futex_wait None (gkernel c) i p (dsema_futex (dsema g));
      Some (G_drain timeout p, set_gfutex x g)
  | _ => None
  end.

Definition dispatch_group_wait (timeout : Z) (g : dispatch_group_s) : group_pc :=
  if group_empty g then G_wait_ret 0
  else if decide (timeout = 0) then G_wait_ret (-1) else G_again timeout.

Definition dispatch_group_notify_f (c : group_choice) (p : group_pc) (g : dispatch_group_s)
  : option (group_pc * dispatch_group_s) :=
  match p with
  | G_notify q ctxt func =>
      match c with
      | GC_calloc true =>
          let n := next_node g in
          Some (G_retain_queue n,
                Group (dsema g) (dsema_group_waiters g) (dsema_notify_head g) (dsema_notify_tail g)
                  (<[n := Notify None q ctxt func]> (nodes g)) (S n) (calls g))
      | GC_calloc false => Some (p, g)
      | _ => None
      end
  | G_retain_queue n =>
      Some (match nodes g !! n with
            | Some d => (G_push n, log_call (Q_retain (dsn_queue d)) g)
            | None => (bad_node, g)
            end)
  | G_push n =>
      Some (match dsema_notify_tail g with
            | Some prev => G_link prev n
            | None => G_retain n
            end, set_tail (Some n) g)
  | G_link prev n =>
      Some (match nodes g !! prev with
            | Some d => (G_idle, set_nodes (<[prev := set_next (Some n) d]> (nodes g)) g)
            | None => (bad_node, g)
            end)
  | G_retain n =>
      let ref_cnt := i32 (do_ref_cnt (dsema g) + 1) in
      Some (if decide (0 < ref_cnt) then G_head n else G_crash (DISPATCH_CRASH "Resurrection of an object"),
            set_dsema (set_ref ref_cnt (dsema g)) g)
  | G_head n => Some (G_notify_check, set_head (Some n) g)
  | G_notify_check => Some (if group_empty g then G_wake K_head false else G_idle, g)
  | _ => None
  end.

Definition group_step (c : group_choice) (i : nat) (p : group_pc) (g : dispatch_group_s)
  : option (group_pc * dispatch_group_s) :=
  match p with
  | G_idle =>
      match c with
      | GC_enter => Some (G_enter, g)
      | GC_leave => Some (G_leave, g)
      | GC_wait timeout => Some (G_wait timeout, g)
      | GC_notify q ctxt func => Some (G_notify q ctxt func, g)
      | _ => None
      end
  | G_crash _ => None
  | G_enter => Some (dispatch_group_enter g)
  | G_sema (P_wait_ret _) => Some (G_idle, g)
  | G_sema (P_crash f) => Some (G_crash f, g)
  | G_sema p =>
      '(p, s) ← _dispatch_semaphore_wait_slow (sema_of c) i p (dsema g);
      Some (G_sema p, set_dsema s g)
  | G_leave => Some (dispatch_group_leave g)
  | G_wake p waiting => _dispatch_group_wake c waiting p g
  | G_wait timeout => Some (dispatch_group_wait timeout g, g)
  | G_wait_ret _ => Some (G_idle, g)
  | G_notify _ _ _ | G_retain_queue _ | G_push _ | G_link _ _ | G_retain _ | G_head _ | G_notify_check =>
      dispatch_group_notify_f c p g
  | _ => _dispatch_group_wait_slow c i p g
  end.
