(* ===== verification/GroupInv.v ===== *)
(** * Groups: the invariant of the waiters and of the value *)

From S2P Require Import Prelude Conc Time Futex Semaphore Group.

(** ** The history *)

(** What a proof follows beside the state: how many times a thread entered or
    counted itself as a waiter; the notifications in the list, those each thread
    took out of it and has not freed, those that were pushed and those that were
    submitted, and what each of them holds. *)
Record list_history : Type := LHistory {
  h_pending : list nat;
  h_taken : gmap nat (list nat);
  h_pushed : list nat;
  h_submitted : list nat;
  h_content : gmap nat (nat * Z * Z)
}.

Definition calls_log (p : group_pc) (n : Z) : Z := match p with G_enter | G_inc _ => n + 1 | _ => n end.

Definition list_log (i : nat) (p p' : group_pc) (l : list_history) : list_history :=
  match p with
  | G_push n => LHistory (h_pending l ++ [n]) (h_taken l) (h_pushed l ++ [n]) (h_submitted l) (h_content l)
  | G_wake (K_tail _) _ =>
      LHistory [] (<[i := h_pending l]> (h_taken l)) (h_pushed l) (h_submitted l) (h_content l)
  | G_wake (K_async head _) _ =>
      LHistory (h_pending l) (h_taken l) (h_pushed l) (h_submitted l ++ [head]) (h_content l)
  | G_wake (K_free _ _ _) _ =>
      LHistory (h_pending l) (alter tail i (h_taken l)) (h_pushed l) (h_submitted l) (h_content l)
  | G_wake K_release _ =>
      LHistory (h_pending l) (delete i (h_taken l)) (h_pushed l) (h_submitted l) (h_content l)
  | G_notify q ctxt func =>
      match p' with
      | G_retain_queue n =>
          LHistory (h_pending l) (h_taken l) (h_pushed l) (h_submitted l) (<[n := (q, ctxt, func)]> (h_content l))
      | _ => l
      end
  | _ => l
  end.

Abbreviation group_history := (Z * list_history)%type.

Definition group_tstep (c : group_choice) (i : nat) (p : group_pc) (s : dispatch_group_s * group_history)
  : option (group_pc * (dispatch_group_s * group_history)) :=
  '(p', g) ← group_step c i p s.1; Some (p', (g, (calls_log p s.2.1, list_log i p p' s.2.2))).

(** ** Weights *)

Definition gview (p : group_pc) : futex_op :=
  match p with
  | G_wake (K_post _ p _) _ => F_signal p
  | G_timed _ rel p => F_wait (Some rel) p
  | G_drain _ p => F_wait None p
  | _ => F_idle
  end.

(** Counted itself, and neither took that back nor consumed a post. *)
Definition gwaiting (p : group_pc) : Z :=
  match p with
  | G_check _ | G_switch _ | G_undo _ | G_undo_cas _ _ => 1
  | G_timed _ _ q | G_drain _ q => match q with W_done None => 0 | _ => 1 end
  | _ => 0
  end.

(** The posts a waker has yet to make. *)
Definition gowed (p : group_pc) : Z :=
  match p with G_wake (K_post n p _) _ => n - 1 + to_post (F_signal p) | _ => 0 end.

(** Will look at the waiters, or at the value. *)
Definition gabout (p : group_pc) : Z :=
  match p with G_wake (K_head | K_tail _ | K_waiters _) _ | G_check _ => 1 | _ => 0 end.

Definition gpc_ok (p : group_pc) : Prop :=
  match p with
  | G_crash _ => False
  | G_sema q => q = P_wait_ret 0
  | G_timed _ _ (W_done (Some EWOULDBLOCK)) => False
  | G_drain _ (W_done (Some (EWOULDBLOCK | ETIMEDOUT)) | W_sub (Some ETIMEDOUT)) => False
  | G_undo_cas _ orig => orig ≠ 0
  | G_wake (K_post n p _) _ =>
      1 ≤ n ∧ match p with S_crash f => f = DISPATCH_CRASH "semaphore overflow" | _ => True end
  | _ => True
  end.

(** The faults of clients: leaving too often, and the time [2^63]; and the count
    of the futex, of which a post is lost whenever a waiter finds the group empty
    just after it counted itself. *)
Definition group_fault (f : fault) : Prop :=
  f = DISPATCH_CLIENT_CRASH "Unbalanced call to dispatch_group_leave()" ∨
  f = DISPATCH_CRASH "semaphore overflow" ∨ f = UB "signed overflow".

Abbreviation gsum f ths := (tsum (λ _ p, f p) ths).

Record group_counts (g : dispatch_group_s) (h : Z) (ths : gmap nat group_pc) : Prop := GCounts {
  gc_futex : futex_inv gview (dsema_futex (dsema g)) ths;
  gc_waiters : gsum gwaiting ths ≤ dsema_group_waiters g + count (dsema_futex (dsema g)) + gsum gowed ths;
  gc_range : 0 ≤ dsema_group_waiters g ≤ h;
  gc_value : LONG_MAX - h ≤ dsema_value (dsema g) ≤ LONG_MAX;
  gc_orig : dsema_orig (dsema g) = LONG_MAX;
  gc_about : group_empty g = true → 0 < dsema_group_waiters g → 0 < gsum gabout ths;
  gc_local : ∀ i p, ths !! i = Some p → gpc_ok p;
  gc_size : Z.of_nat (size ths) < INT_MAX
}.

Lemma empty_value g : dsema_orig (dsema g) = LONG_MAX → group_empty g = true ↔ dsema_value (dsema g) = LONG_MAX.
Proof. intros <-. unfold group_empty. by rewrite Z.eqb_eq. Qed.

Lemma gabout_nonneg p : 0 ≤ gabout p.
Proof. destruct p as [| | | | |[]| | | | | | | | | | | | | | | | |]; simpl; lia. Qed.

Section Step.
Context (g : dispatch_group_s) (h : Z) (ths : gmap nat group_pc) (i : nat) (p : group_pc).
Context (I : group_counts g h ths) (Hi : ths !! i = Some p).

(** What a step has to balance. *)
Lemma gcounts_update p' g' h' :
  futex_inv gview (dsema_futex (dsema g')) (<[i:=p']> ths) → gpc_ok p' →
  gwaiting p' - gwaiting p ≤ (dsema_group_waiters g' - dsema_group_waiters g)
    + (count (dsema_futex (dsema g')) - count (dsema_futex (dsema g))) + (gowed p' - gowed p) →
  0 ≤ dsema_group_waiters g' ≤ h' →
  LONG_MAX - h' ≤ dsema_value (dsema g') ≤ LONG_MAX → dsema_orig (dsema g') = LONG_MAX →
  (group_empty g' = true → 0 < dsema_group_waiters g' →
     0 < gabout p' ∨ gabout p ≤ gabout p' ∧ group_empty g = true ∧ 0 < dsema_group_waiters g) →
  group_counts g' h' (<[i:=p']> ths).
Proof.
  intros Hf Hp Hw Hr Hv Ho Hab. destruct I as [If Iw Ir Iv Io Ia Il Is]. split; try done.
  - rewrite !(tsum_step _ _ _ _ p' Hi). lia.
  - intros He Hpos. rewrite (tsum_step _ _ _ _ p' Hi).
    assert (gabout p ≤ gsum gabout ths) as Hle.
    { apply (tsum_ge (λ _ p, gabout p) ths i p); [|done]. intros j q _. apply gabout_nonneg. }
    destruct (Hab He Hpos) as [H|(H1 & H2 & H3)]; [lia|]. specialize (Ia H2 H3). lia.
  - intros j q [[_ <-]|[_ Hq]]%lookup_insert_Some; eauto.
  - rewrite map_size_insert_Some by by eexists. done.
Qed.

(** A step that leaves the value, the waiters and the futex alone. *)
Lemma gcounts_local p' g' h' :
  dsema_futex (dsema g') = dsema_futex (dsema g) → dsema_value (dsema g') = dsema_value (dsema g) →
  dsema_orig (dsema g') = dsema_orig (dsema g) → dsema_group_waiters g' = dsema_group_waiters g →
  h' = h →
  inert (gview p) = true → inert (gview p') = true → local_ok (gview p') → gpc_ok p' →
  gwaiting p' ≤ gwaiting p → gowed p' = gowed p →
  (gabout p ≤ gabout p' ∨ group_empty g = false ∨ dsema_group_waiters g = 0) →
  group_counts g' h' (<[i:=p']> ths).
Proof.
  intros Ef Ev Eo Ew Ec Hin Hin' Hlo Hp Hwt How Hab.
  pose proof (gc_range _ _ _ I). pose proof (gc_value _ _ _ I). pose proof (gc_orig _ _ _ I).
  apply gcounts_update; rewrite ?Ef, ?Ev, ?Ew, ?Ec; try done; try lia; try congruence.
  - eapply inv_inert; [by apply (gc_futex _ _ _ I)|done..].
  - assert (group_empty g' = group_empty g) as -> by (unfold group_empty; congruence).
    intros He Hpos. right. split_and!; try done. destruct Hab as [|[|]]; [done|congruence|lia].
Qed.

(** A step on the futex. *)
Lemma gcounts_futex p' k x :
  futex_step k i (gview p) (dsema_futex (dsema g)) = Some (gview p', x) → gpc_ok p' →
  gwaiting p' - gwaiting p = to_take (gview p') - to_take (gview p) →
  gowed p' - gowed p = to_post (gview p') - to_post (gview p) →
  gabout p = 0 → gabout p' = 0 →
  group_counts (set_gfutex x g) h (<[i:=p']> ths).
Proof.
  intros Hs Hp Hw Ho Ha Ha'. pose proof (gc_size _ _ _ I).
  destruct (futex_step_ok gview (dsema_futex (dsema g)) ths i p p' (gc_futex _ _ _ I) Hi) with
    (c := k) (a' := gview p') (g' := x) as [If Ec]; [consts; lia|done|done|].
  apply gcounts_update; try done; simpl; try apply I; [lia|].
  intros He Hpos. right. rewrite Ha, Ha'. split_and!; done || lia.
Qed.
End Step.

(** ** Preservation *)

Section Preservation.
Context (g : dispatch_group_s) (h : Z) (ths : gmap nat group_pc) (i : nat).
Context (I : group_counts g h ths).

Definition counts_next (p p' : group_pc) (g' : dispatch_group_s) : Prop :=
  group_counts g' (calls_log p h) (<[i:=p']> ths) ∨ ∃ f, p' = G_crash f ∧ group_fault f.

(** A step that touches neither the value nor the waiters nor the futex. *)
Lemma glocal_next p p' g' :
  ths !! i = Some p →
  dsema_futex (dsema g') = dsema_futex (dsema g) → dsema_value (dsema g') = dsema_value (dsema g) →
  dsema_orig (dsema g') = dsema_orig (dsema g) → dsema_group_waiters g' = dsema_group_waiters g →
  match p with G_enter | G_inc _ => False | _ => True end →
  inert (gview p) = true → inert (gview p') = true → local_ok (gview p') → gpc_ok p' →
  gwaiting p' ≤ gwaiting p → gowed p' = gowed p →
  (gabout p ≤ gabout p' ∨ group_empty g = false ∨ dsema_group_waiters g = 0) →
  counts_next p p' g'.
Proof.
  intros Hi Ef Ev Eo Ew Hc. intros. left. eapply (gcounts_local g h ths i p I Hi); try done.
  by destruct p; simpl; try lia.
Qed.

Lemma gfutex_next p p' k x :
  ths !! i = Some p →
  futex_step k i (gview p) (dsema_futex (dsema g)) = Some (gview p', x) → gpc_ok p' →
  match p with G_wake (K_post _ _ _) _ | G_timed _ _ _ | G_drain _ _ => True | _ => False end →
  gwaiting p' - gwaiting p = to_take (gview p') - to_take (gview p) →
  gowed p' - gowed p = to_post (gview p') - to_post (gview p) → gabout p' = 0 →
  counts_next p p' (set_gfutex x g).
Proof.
  intros Hi Hs Hp Hc Hw Ho Ha. left.
  assert (calls_log p h = h) as -> by (by destruct p).
  eapply (gcounts_futex g h ths i p I Hi); try done. by destruct p as [| | | | |[]| | | | | | | | | | | | | | | | |]; try destruct Hc.
Qed.

Ltac local := apply glocal_next; simpl; try done; try lia.

Lemma enter_next p' g' :
  ths !! i = Some G_enter → dispatch_group_enter g = (p', g') → h + 1 ≤ LONG_MAX → counts_next G_enter p' g'.
Proof.
  intros Hi Hs Hc. unfold dispatch_group_enter, dispatch_semaphore_wait in Hs.
  pose proof (gc_value _ _ _ I) as Hv. pose proof (gc_range _ _ _ I) as Hr.
  rewrite wrapS_small in Hs by (consts; lia). rewrite decide_True in Hs by lia. injection Hs as <- <-.
  left. eapply (gcounts_update g h ths i _ I Hi); simpl; try done; try lia; try apply I.
  - eapply inv_inert; [by apply (gc_futex _ _ _ I)|done..].
  - intros He. apply (empty_value (set_dsema _ g)) in He; [|simpl; apply I]. simpl in He. lia.
Qed.

Lemma leave_next p' g' :
  ths !! i = Some G_leave → dispatch_group_leave g = (p', g') → h ≤ LONG_MAX → counts_next G_leave p' g'.
Proof.
  intros Hi Hs Hc. unfold dispatch_group_leave in Hs. cbv zeta in Hs. simpl in Hs.
  pose proof (gc_value _ _ _ I) as Hv. pose proof (gc_range _ _ _ I) as Hr. pose proof (gc_orig _ _ _ I) as Ho.
  destruct (decide (dsema_value (dsema g) = LONG_MAX)) as [Hm|Hm].
  { assert (i64 (dsema_value (dsema g) + 1) = LONG_MIN) as E by by rewrite Hm.
    rewrite E in Hs. rewrite decide_True in Hs by done. injection Hs as <- <-. right. eexists. split; [done|]. by left. }
  rewrite wrapS_small in Hs by (consts; lia). rewrite decide_False in Hs by (consts; lia).
  left. case_decide as He; injection Hs as <- <-; eapply (gcounts_update g h ths i _ I Hi); simpl;
    try (eapply inv_inert; [by apply (gc_futex _ _ _ I)|done..]); try done; try lia; try apply I.
  intros E. apply (empty_value (set_dsema _ g)) in E; [|simpl; apply I]. simpl in E. congruence.
Qed.

(** The compare-and-swap, and the exchange, on the number of waiters. *)
Lemma waiters_next p p' v :
  ths !! i = Some p → inert (gview p) = true → inert (gview p') = true → local_ok (gview p') → gpc_ok p' →
  gwaiting p' - gwaiting p ≤ v - dsema_group_waiters g + (gowed p' - gowed p) →
  0 ≤ v ≤ calls_log p h →
  (group_empty g = true → 0 < v → 0 < gabout p' ∨ gabout p ≤ gabout p' ∧ 0 < dsema_group_waiters g) →
  counts_next p p' (set_waiters v g).
Proof.
  intros Hi Hin Hin' Hlo Hp Hw Hv Hab. left. pose proof (gc_value _ _ _ I) as Hval.
  eapply (gcounts_update g h ths i _ I Hi); simpl; try done; try lia; try apply I.
  - eapply inv_inert; [by apply (gc_futex _ _ _ I)|done..].
  - destruct p; simpl; lia.
  - intros He Hpos. destruct (Hab He Hpos) as [|[]]; [by left|right]. done.
Qed.

Lemma wake_next c w p p' g' :
  ths !! i = Some (G_wake p w) → _dispatch_group_wake c w p g = Some (p', g') → p' ≠ bad_node →
  (p = K_release → 1 ≤ do_ref_cnt (dsema g) < INT_MAX) → counts_next (G_wake p w) p' g'.
Proof.
  intros Hi Hs Hb Hrel. pose proof (gc_local _ _ _ I i _ Hi) as Hok. pose proof (gc_range _ _ _ I) as Hr.
  destruct p as [|head|list|n q list|head tl|head tl|head tl|head tl|head next tl| |]; cbn [_dispatch_group_wake] in Hs.
  - apply some_pair in Hs as [-> ->]. destruct (dsema_notify_head g); local.
  - apply some_pair in Hs as [-> ->]. local.
  - apply some_pair in Hs as [-> ->]. case_decide as Hz.
    + apply waiters_next; simpl; try done; try lia.
    + apply waiters_next; destruct list as [[]|]; simpl; try done; lia.
  - destruct Hok as [Hn Hf]. destruct q as [|orig| | |f].
    1-3: destruct (_dispatch_futex_signal _ _ _) as [[q' x]|] eqn:E; [|done]; simpl in Hs;
      apply some_pair in Hs as [-> ->]; apply (gfutex_next _ _ (gkernel c)); try done;
      [cbn [gview futex_step]; by rewrite E| |simpl; lia];
      split; [done|]; cbn [_dispatch_futex_signal] in E; destruct q'; try done;
      repeat case_decide; try discriminate E; try (by injection E as <- _);
      destruct (gkernel c); try discriminate E; case_decide; discriminate E.
    + apply some_pair in Hs as [-> ->]. case_decide as Hz; [local|].
      destruct list as [[]|]; local.
    + apply some_pair in Hs as [-> ->]. right. eexists. split; [done|]. subst f. right. by left.
  - destruct (nodes g !! head); apply some_pair in Hs as [-> ->]; [local|done].
  - destruct (nodes g !! head); apply some_pair in Hs as [-> ->]; [local|done].
  - destruct (nodes g !! head); [|by apply some_pair in Hs as [-> ->]].
    apply some_pair in Hs as [-> ->]. case_decide; local.
  - destruct (nodes g !! head); [|by apply some_pair in Hs as [-> ->]].
    apply some_pair in Hs as [-> ->]. case_decide; local.
  - apply some_pair in Hs as [-> ->]. destruct (nodes g !! head); [|done]. destruct next; local.
  - specialize (Hrel eq_refl). unfold sema_release in Hs.
    rewrite wrapS_small in Hs by (consts; lia). rewrite decide_True in Hs by lia.
    apply some_pair in Hs as [-> ->]. local.
  - apply some_pair in Hs as [-> ->]. destruct w; local.
Qed.

Lemma done_or_more q : (∃ r, q = W_done r) ∨ ∀ r, q ≠ W_done r.
Proof. destruct q; try (right; congruence). left. by eexists. Qed.

Lemma gwait_slow_next c p p' g' :
  ths !! i = Some p → _dispatch_group_wait_slow c i p g = Some (p', g') →
  calls_log p h ≤ LONG_MAX → counts_next p p' g'.
Proof.
  intros Hi Hs Hc. pose proof (gc_local _ _ _ I i _ Hi) as Hok. pose proof (gc_range _ _ _ I) as Hr.
  destruct p as [| | | | | | |t|t|t|t|t rel q|t|t orig|t q| | | | | | | |]; cbn [_dispatch_group_wait_slow] in Hs; try done.
  - destruct (group_empty g) eqn:He; apply some_pair in Hs as [-> ->]; local.
  - simpl in Hc. apply some_pair in Hs as [-> ->]. rewrite wrapU_small by (consts; lia).
    apply waiters_next; simpl; try done; try lia.
  - destruct (group_empty g) eqn:He; apply some_pair in Hs as [-> ->]; local. by right; left.
  - case_decide; [apply some_pair in Hs as [-> ->]; local|]. case_decide; [apply some_pair in Hs as [-> ->]; local|].
    destruct c; try done. apply some_pair in Hs as [-> ->]. destruct (_dispatch_timeout _ _ _); [local|].
    right. eexists. split; [done|]. by right; right.
  - destruct (done_or_more q) as [[r ->]|Hd].
    + cbn [_dispatch_group_wait_slow] in Hs. apply some_pair in Hs as [-> ->].
      destruct r as [[]|]; [local|local|by destruct Hok|local].
    + assert (('(q', x) ← _dispatch_futex_wait (Some rel) (gkernel c) i q (dsema_futex (dsema g));
        Some (G_timed t rel q', set_gfutex x g)) = Some (p', g')) as Hs' by (destruct q; try exact Hs; by destruct (Hd ret)).
      destruct (_dispatch_futex_wait _ _ _ _ _) as [[q' x]|] eqn:E; [|done].
      apply some_pair in Hs' as [-> ->]. pose proof (futex_wait_results _ _ _ _ _ _ _ E) as [Hw _].
      apply (gfutex_next _ _ (gkernel c)); try done; [cbn [gview futex_step]; by rewrite E|..];
        simpl; clear Hi E Hs; destruct q as [| | | | | | | |r]; try (by destruct (Hd r)); by destruct q' as [| | | | | |[[]|]| |[[]|]].
  - apply some_pair in Hs as [-> ->]. case_decide; local.
  - case_decide as Ho; apply some_pair in Hs as [-> ->]; [|local]. simpl in Hok.
    apply waiters_next; simpl; try done; try lia.
  - destruct (done_or_more q) as [[r ->]|Hd].
    + cbn [_dispatch_group_wait_slow] in Hs. apply some_pair in Hs as [-> ->].
      destruct r as [[]|]; [local|by destruct Hok|by destruct Hok|local].
    + assert (('(q', x) ← _dispatch_futex_wait None (gkernel c) i q (dsema_futex (dsema g));
        Some (G_drain t q', set_gfutex x g)) = Some (p', g')) as Hs' by (destruct q; try exact Hs; by destruct (Hd ret)).
      destruct (_dispatch_futex_wait _ _ _ _ _) as [[q' x]|] eqn:E; [|done].
      apply some_pair in Hs' as [-> ->]. pose proof (futex_wait_results _ _ _ _ _ _ _ E) as [Hw Ht].
      destruct Ht as [Ht1 Ht2]; [done|intros ->; done|].
      apply (gfutex_next _ _ (gkernel c)); try done; [cbn [gview futex_step]; by rewrite E|..];
        simpl; clear Hi E Hs; destruct q as [| | | | | | | |r]; try (by destruct (Hd r)); by destruct q' as [| | | | | |[[]|]| |[[]|]].
Qed.

Lemma notify_next c p p' g' :
  ths !! i = Some p → dispatch_group_notify_f c p g = Some (p', g') → p' ≠ bad_node →
  0 ≤ do_ref_cnt (dsema g) < INT_MAX - 1 → counts_next p p' g'.
Proof.
  intros Hi Hs Hb Href.
  destruct p as [| | | | | | | | | | | | | | | |q ctxt func|n|n|prev n|n|n|]; cbn [dispatch_group_notify_f] in Hs; try done.
  - destruct c as [| | | |[]| |]; try done; apply some_pair in Hs as [-> ->]; local.
  - destruct (nodes g !! n); apply some_pair in Hs as [-> ->]; [local|done].
  - destruct (dsema_notify_tail g); apply some_pair in Hs as [-> ->]; local.
  - destruct (nodes g !! prev); apply some_pair in Hs as [-> ->]; [local|done].
  - rewrite wrapS_small in Hs by (consts; lia). rewrite decide_True in Hs by lia.
    apply some_pair in Hs as [-> ->]. local.
  - apply some_pair in Hs as [-> ->]. local.
  - apply some_pair in Hs as [-> ->]. destruct (group_empty g); local.
Qed.

(** Every step keeps the counts, given what the lists contribute. *)
Lemma counts_step c p p' g' :
  ths !! i = Some p → group_step c i p g = Some (p', g') → p' ≠ bad_node →
  calls_log p h ≤ LONG_MAX → 0 ≤ do_ref_cnt (dsema g) < INT_MAX - 1 →
  (∀ w, p = G_wake K_release w → 1 ≤ do_ref_cnt (dsema g)) → counts_next p p' g'.
Proof.
  intros Hi Hs Hb Hc Href Hrel. pose proof (gc_range _ _ _ I) as Hr.
  pose proof (gc_local _ _ _ I i _ Hi) as Hok.
  destruct p; cbn [group_step] in Hs; try done;
    try (by eapply notify_next); try (by eapply gwait_slow_next).
  - destruct c; try done; apply some_pair in Hs as [-> ->]; local.
  - apply (inj Some) in Hs. simpl in Hc. apply enter_next; [done|done|lia].
  - simpl in Hok. subst p. apply some_pair in Hs as [-> ->]. local.
  - apply (inj Some) in Hs. simpl in Hc. apply leave_next; [done|done|lia].
  - eapply wake_next; [done|done|done|]. intros ->. specialize (Hrel _ eq_refl). lia.
  - apply some_pair in Hs as [-> ->]. unfold dispatch_group_wait. destruct (group_empty g); [local|]. case_decide; local.
  - apply some_pair in Hs as [-> ->]. local.
Qed.
End Preservation.
