(* ===== verification/GroupList.v ===== *)
(** * Groups: the invariant of the list of notifications *)

From S2P Require Import Prelude Conc Mpsc Time Futex Semaphore Group GroupInv.

(** ** The lists *)

(** The pending list ([None]), and the one thread [k] took ([Some k]). *)
Definition lst (l : list_history) (o : option nat) : option (list nat) :=
  match o with None => Some (h_pending l) | Some k => h_taken l !! k end.

(** Its node will become, or is about to become, the head. *)
Definition opener (p : group_pc) : option nat :=
  match p with G_retain n | G_head n | G_wake (K_tail n) _ => Some n | _ => None end.
Definition gopen (p : group_pc) : Z := match opener p with Some _ => 1 | None => 0 end.

(** The node a thread of [dispatch_group_notify_f] made. *)
Definition mine (p : group_pc) : option nat :=
  match p with
  | G_retain_queue n | G_push n | G_link _ n | G_retain n | G_head n => Some n
  | _ => None
  end.

(** Submitted the first node of its list, and did not free it yet. *)
Definition sent (p : group_pc) : bool :=
  match p with G_wake (K_release_queue _ _ | K_next _ _ | K_spin _ _ | K_free _ _ _) _ => true | _ => false end.

(** Holds a reference for a list of notifications. *)
Definition gholding (p : group_pc) : Z :=
  match p with
  | G_head _ => 1
  | G_wake (K_tail _ | K_waiters (Some _) | K_post _ _ (Some _) | K_async _ _ | K_release_queue _ _
            | K_next _ _ | K_spin _ _ | K_free _ _ _ | K_release) _ => 1
  | _ => 0
  end.

(** Will look at the head, or at the value after it set the head. *)
Definition gabout_head (p : group_pc) : Z :=
  match p with G_wake K_head _ | G_notify_check => 1 | _ => 0 end.

(** What is left of the list that thread [j] took. *)
Definition took (l : list_history) (j head : nat) (tail : option nat) (rest : list nat) : Prop :=
  h_taken l !! j = Some (head :: rest) ∧ tail = last (head :: rest).

Definition list_local (nds : gmap nat dispatch_sema_notify_s) (l : list_history) (j : nat) (p : group_pc) : Prop :=
  match p with
  | G_retain_queue n | G_push n =>
      n ∉ h_pushed l ∧ (∃ d, nds !! n = Some d ∧ dsn_next d = None) ∧ h_taken l !! j = None
  | G_link a b =>
      (∃ d, nds !! a = Some d ∧ dsn_next d = None) ∧ (∃ o x, lst l o = Some x ∧ adj x a b) ∧ h_taken l !! j = None
  | G_retain n | G_head n | G_wake (K_tail n) _ => hd_error (h_pending l) = Some n ∧ h_taken l !! j = None
  | G_wake (K_waiters (Some (head, tail)) | K_post _ _ (Some (head, tail)) | K_async head tail) _ =>
      ∃ rest, took l j head tail rest
  | G_wake (K_release_queue head tail | K_next head tail | K_spin head tail) _ =>
      ∃ rest, took l j head tail rest ∧ head ∈ h_submitted l
  | G_wake (K_free head next tail) _ =>
      ∃ rest, took l j head tail rest ∧ head ∈ h_submitted l ∧ next = hd_error rest ∧
        ∃ d, nds !! head = Some d ∧ dsn_next d = next
  | G_wake K_release _ => h_taken l !! j = Some []
  | _ => h_taken l !! j = None
  end.

Definition async_calls (cs : list queue_call) : list (nat * Z * Z) :=
  omap (λ c, match c with Q_async q ctxt func => Some (q, ctxt, func) | _ => None end) cs.

(** The nodes and the lists they are in. *)
Record list_static (nds : gmap nat dispatch_sema_notify_s) (next : nat) (cs : list queue_call) (l : list_history) : Prop :=
  LStatic {
  s_nodup : ∀ o x, lst l o = Some x → NoDup x;
  s_disj : ∀ o o' x x' n, lst l o = Some x → lst l o' = Some x' → n ∈ x → n ∈ x' → o = o';
  s_live : ∀ o x n, lst l o = Some x → n ∈ x → is_Some (nds !! n);
  s_last : ∀ o x a d, lst l o = Some x → last x = Some a → nds !! a = Some d → dsn_next d = None;
  s_fresh : ∀ n, is_Some (nds !! n) ∨ n ∈ h_pushed l ∨ is_Some (h_content l !! n) → (n < next)%nat;
  s_content : ∀ n d, nds !! n = Some d → h_content l !! n = Some (dsn_queue d, dsn_ctxt d, dsn_func d);
  s_pushed_nodup : NoDup (h_pushed l);
  s_pushed : ∀ n, n ∈ h_pushed l ↔ n ∈ h_submitted l ∨ ∃ o x, lst l o = Some x ∧ n ∈ x;
  s_sub_nodup : NoDup (h_submitted l);
  s_calls : Some <$> async_calls cs = (λ n, h_content l !! n) <$> h_submitted l
}.

(** What the threads are doing to them. *)
Record list_threads (nds : gmap nat dispatch_sema_notify_s) (next : nat) (head tail : option nat) (l : list_history)
    (ths : gmap nat group_pc) : Prop := LThreads {
  t_tail : tail = last (h_pending l);
  t_open : gsum gopen ths + some1 head = some1 (hd_error (h_pending l));
  t_head : ∀ n, head = Some n → hd_error (h_pending l) = Some n;
  t_adj : ∀ o x a b d, lst l o = Some x → adj x a b → nds !! a = Some d →
    dsn_next d = Some b ∨ dsn_next d = None ∧ ∃ j, ths !! j = Some (G_link a b);
  t_local : ∀ j p, ths !! j = Some p → list_local nds l j p;
  t_mine : ∀ i j p q n, ths !! i = Some p → ths !! j = Some q → mine p = Some n → mine q = Some n → i = j;
  t_mine_fresh : ∀ i p n, ths !! i = Some p → mine p = Some n → (n < next)%nat;
  t_sub : ∀ n o x, n ∈ h_submitted l → lst l o = Some x → n ∈ x →
    ∃ k p, o = Some k ∧ hd_error x = Some n ∧ ths !! k = Some p ∧ sent p = true;
  t_dom : ∀ k, is_Some (h_taken l !! k) → is_Some (ths !! k)
}.

Record group_lists (g : dispatch_group_s) (l : list_history) (ths : gmap nat group_pc) : Prop := GLists {
  l_static : list_static (nodes g) (next_node g) (calls g) l;
  l_threads : list_threads (nodes g) (next_node g) (dsema_notify_head g) (dsema_notify_tail g) l ths;
  l_ref : do_ref_cnt (dsema g) = gsum gholding ths + some1 (dsema_notify_head g);
  l_size : Z.of_nat (size ths) < INT_MAX - 2;
  l_about : group_empty g = true → dsema_notify_head g ≠ None → 0 < gsum gabout_head ths
}.

Lemma gweights p : 0 ≤ gopen p ≤ 1 ∧ 0 ≤ gholding p ≤ 1 ∧ 0 ≤ gabout_head p ≤ 1.
Proof. destruct p as [| | | | |[| |[]|? ? []| | | | | | |]| | | | | | | | | | | | | | | | |]; unfold gopen; simpl; lia. Qed.

Lemma gsum_range (f : group_pc → Z) (ths : gmap nat group_pc) :
  (∀ p, 0 ≤ f p ≤ 1) → 0 ≤ gsum f ths ≤ Z.of_nat (size ths).
Proof.
  intros H. split; [apply tsum_nonneg; intros; apply H|].
  rewrite <- tsum_const. apply tsum_le. intros; apply H.
Qed.

Section Facts.
Context (g : dispatch_group_s) (l : list_history) (ths : gmap nat group_pc) (L : group_lists g l ths).

Lemma ref_bounds : 0 ≤ do_ref_cnt (dsema g) < INT_MAX - 1.
Proof.
  rewrite (l_ref _ _ _ L). pose proof (l_size _ _ _ L).
  pose proof (gsum_range gholding ths (λ p, proj1 (proj2 (gweights p)))).
  destruct (dsema_notify_head g); simpl; lia.
Qed.

Lemma holding_ref i p : ths !! i = Some p → gholding p = 1 → 1 ≤ do_ref_cnt (dsema g).
Proof.
  intros Hi Hp. rewrite (l_ref _ _ _ L).
  assert (gholding p ≤ gsum gholding ths).
  { apply (tsum_ge (λ _ p, gholding p) ths i p); [|done]. intros j q _. apply gweights. }
  destruct (dsema_notify_head g); simpl; lia.
Qed.
End Facts.

Section ThreadFacts.
Context (nds : gmap nat dispatch_sema_notify_s) (next : nat) (cs : list queue_call) (head tl : option nat).
Context (l : list_history) (ths : gmap nat group_pc).
Context (St : list_static nds next cs l) (T : list_threads nds next head tl l ths).

Lemma gopen_other i p j q : ths !! i = Some p → ths !! j = Some q → j ≠ i → gopen p + gopen q ≤ gsum gopen ths.
Proof.
  intros Hi Hj Hne.
  assert (gsum gopen (delete i ths) = gsum gopen ths - gopen p) as Hd.
  { rewrite <- (insert_delete_id ths i p Hi) at 2. rewrite tsum_insert_new by apply lookup_delete_eq. lia. }
  assert (gopen q ≤ gsum gopen (delete i ths)); [|lia].
  apply (tsum_ge (λ _ p, gopen p) _ j q); [|by rewrite lookup_delete_ne]. intros; apply gweights.
Qed.

(** At most one thread opens the list, and then the head is null. *)
Lemma open_unique i p : ths !! i = Some p → gopen p = 1 →
  head = None ∧ ∀ j q, ths !! j = Some q → j ≠ i → opener q = None.
Proof.
  intros Hi Hp. pose proof (t_open _ _ _ _ _ _ T) as Ho.
  assert (some1 (hd_error (h_pending l)) ≤ 1) as H1 by (by destruct (hd_error _)).
  assert (gopen p ≤ gsum gopen ths) as Hge by (apply (tsum_ge (λ _ p, gopen p) ths i p); [intros; apply gweights|done]).
  split; [destruct head; [simpl in Ho; lia|done]|]. intros j q Hj Hne.
  pose proof (gopen_other i p j q Hi Hj Hne) as H2. destruct (opener q) eqn:E; [|done].
  exfalso. assert (gopen q = 1) by (unfold gopen; by rewrite E). destruct head; simpl in Ho; lia.
Qed.

Lemma no_opener : h_pending l = [] → head = None ∧ ∀ j q, ths !! j = Some q → opener q = None.
Proof.
  intros Hp. pose proof (t_open _ _ _ _ _ _ T) as Ho. rewrite Hp in Ho. simpl in Ho.
  pose proof (gsum_range gopen ths (λ p, proj1 (gweights p))).
  destruct head; simpl in Ho; [lia|]. split; [done|]. intros j q Hj.
  destruct (opener q) eqn:E; [|done]. exfalso. assert (gopen q = 1) by (unfold gopen; by rewrite E).
  assert (gopen q ≤ gsum gopen ths); [|lia].
  apply (tsum_ge (λ _ p, gopen p) ths j q); [|done]. intros; apply gweights.
Qed.

(** A node with two lists is in one. *)
Lemma same_list o o' x x' n : lst l o = Some x → lst l o' = Some x' → n ∈ x → n ∈ x' → o = o' ∧ x = x'.
Proof. intros Hl Hl' Hx Hx'. assert (o = o') as -> by (by eapply (s_disj _ _ _ _ St)). split; [done|congruence]. Qed.

Lemma in_list_pushed o x n : lst l o = Some x → n ∈ x → n ∈ h_pushed l.
Proof. intros. apply (s_pushed _ _ _ _ St). right. eauto. Qed.
End ThreadFacts.
