(* ===== verification/GroupStep.v ===== *)
(** * Groups: the steps keep the lists of notifications *)

From S2P Require Import Prelude Conc Mpsc Time Futex Semaphore Group GroupInv GroupList.

Section Threads.
Context (nds : gmap nat dispatch_sema_notify_s) (next : nat) (cs : list queue_call) (head tl : option nat).
Context (l : list_history) (ths : gmap nat group_pc) (i : nat) (p : group_pc).
Context (St : list_static nds next cs l) (T : list_threads nds next head tl l ths) (Hi : ths !! i = Some p).

(** What a step of [i] has to show. *)
Lemma threads_update p' nds' next' head' tl' l' :
  tl' = last (h_pending l') →
  gopen p' - gopen p + some1 head' - some1 head = some1 (hd_error (h_pending l')) - some1 (hd_error (h_pending l)) →
  (∀ n, head' = Some n → hd_error (h_pending l') = Some n) →
  (∀ o x a b d, lst l' o = Some x → adj x a b → nds' !! a = Some d →
    dsn_next d = Some b ∨ dsn_next d = None ∧ ∃ j, <[i:=p']> ths !! j = Some (G_link a b)) →
  list_local nds' l' i p' →
  (∀ j q, j ≠ i → ths !! j = Some q → list_local nds l j q → list_local nds' l' j q) →
  (∀ n, mine p' = Some n →
    (n < next')%nat ∧ (mine p = Some n ∨ ∀ j q, ths !! j = Some q → mine q ≠ Some n)) →
  (next ≤ next')%nat →
  (∀ n o x, n ∈ h_submitted l' → lst l' o = Some x → n ∈ x →
    ∃ k q, o = Some k ∧ hd_error x = Some n ∧ <[i:=p']> ths !! k = Some q ∧ sent q = true) →
  (∀ k, is_Some (h_taken l' !! k) → k = i ∨ is_Some (h_taken l !! k)) →
  list_threads nds' next' head' tl' l' (<[i:=p']> ths).
Proof.
  intros Ht Ho Hh Ha Hp Hq Hm Hn Hs Hd. split; try done.
  - rewrite (tsum_step _ _ _ _ p' Hi). pose proof (t_open _ _ _ _ _ _ T). lia.
  - intros j q [[-> <-]|[Hne Hj]]%lookup_insert_Some; [done|]. apply Hq; [done|done|]. by apply (t_local _ _ _ _ _ _ T).
  - assert (∀ j q n, ths !! j = Some q → j ≠ i → mine q = Some n → mine p' ≠ Some n) as Hx.
    { intros j q n Hj Hne Hq1 Hp1. destruct (Hm n Hp1) as [_ [Hp2|Hno]]; [|by destruct (Hno j q Hj)].
      apply Hne. symmetry. by eapply (t_mine _ _ _ _ _ _ T i j). }
    intros k1 k2 q1 q2 n [[<- <-]|[Hk1 H1]]%lookup_insert_Some [[<- <-]|[Hk2 H2]]%lookup_insert_Some Hq1 Hq2.
    + done.
    + by destruct (Hx k2 q2 n).
    + by destruct (Hx k1 q1 n).
    + by eapply (t_mine _ _ _ _ _ _ T).
  - intros j q n [[<- <-]|[Hne Hj]]%lookup_insert_Some Hq1; [by apply Hm|].
    pose proof (t_mine_fresh _ _ _ _ _ _ T j q n Hj Hq1). lia.
  - intros k Hk. apply lookup_insert_is_Some'. destruct (Hd k Hk) as [->|Hk']; [by left|right].
    by apply (t_dom _ _ _ _ _ _ T).
Qed.

Lemma adj_keep p' o x a b d :
  (∀ a b, p ≠ G_link a b) → lst l o = Some x → adj x a b → nds !! a = Some d →
  dsn_next d = Some b ∨ dsn_next d = None ∧ ∃ j, <[i:=p']> ths !! j = Some (G_link a b).
Proof.
  intros Hp Hx Hab Hd. destruct (t_adj _ _ _ _ _ _ T o x a b d Hx Hab Hd) as [|(H & j & Hj)]; [by left|right].
  split; [done|]. exists j. rewrite lookup_insert_ne; [done|]. intros <-. rewrite Hi in Hj. injection Hj as Hj. by destruct (Hp a b).
Qed.

Lemma sub_keep p' n o x :
  (sent p = true → sent p' = true) → n ∈ h_submitted l → lst l o = Some x → n ∈ x →
  ∃ k q, o = Some k ∧ hd_error x = Some n ∧ <[i:=p']> ths !! k = Some q ∧ sent q = true.
Proof.
  intros Hp Hn Hx Hin. destruct (t_sub _ _ _ _ _ _ T n o x Hn Hx Hin) as (k & q & -> & Hh & Hk & Hq).
  exists k. destruct (decide (i = k)) as [<-|Hne].
  - exists p'. rewrite lookup_insert_eq. rewrite Hi in Hk. injection Hk as <-. eauto.
  - exists q. by rewrite lookup_insert_ne.
Qed.

(** A step that changes no list. *)
Lemma threads_neutral p' :
  gopen p' = gopen p → (∀ n, mine p' = Some n → mine p = Some n) → (∀ a b, p ≠ G_link a b) →
  (sent p = true → sent p' = true) → list_local nds l i p' →
  list_threads nds next head tl l (<[i:=p']> ths).
Proof.
  intros Ho Hm Hl Hs Hp. apply threads_update; try done; try (by intros; right).
  - apply (t_tail _ _ _ _ _ _ T).
  - lia.
  - apply (t_head _ _ _ _ _ _ T).
  - intros. by eapply adj_keep.
  - intros n Hn. split; [|left; by apply Hm]. by eapply (t_mine_fresh _ _ _ _ _ _ T), Hm.
  - intros. by eapply sub_keep.
Qed.
End Threads.

(** ** Preservation *)

(** The local condition, in other nodes and lists that agree on what it reads. *)
Lemma list_local_mono nds nds' l l' j q :
  list_local nds l j q →
  (∀ n d, q = G_retain_queue n ∨ q = G_push n → nds !! n = Some d → nds' !! n = Some d) →
  (∀ a b d, q = G_link a b → nds !! a = Some d → dsn_next d = None → nds' !! a = Some d) →
  (∀ head next tl w d, q = G_wake (K_free head next tl) w → nds !! head = Some d →
     nds' !! head = Some d) →
  h_taken l' !! j = h_taken l !! j →
  (∀ n, mine q = Some n → n ∉ h_pushed l → n ∉ h_pushed l') →
  (∀ n, opener q = Some n → hd_error (h_pending l) = Some n → hd_error (h_pending l') = Some n) →
  (∀ a b, q = G_link a b → (∃ o x, lst l o = Some x ∧ adj x a b) → ∃ o x, lst l' o = Some x ∧ adj x a b) →
  (∀ n, n ∈ h_submitted l → n ∈ h_submitted l') →
  list_local nds' l' j q.
Proof.
  intros Hl Hm Hk Hf Ht Hp Ho Ha Hs.
  destruct q as [| | | | |[|hd|[[]|]|? ? [[]|]|hd tl|hd tl|hd tl|hd tl|hd nx tl| |]| | | | | | | | | | | |n|n|a b|n|n|];
    cbn [list_local] in *; unfold took in *; rewrite ?Ht; try done.
  all: try (destruct Hl as [Hl1 Hl2]; split; [by apply Ho|done]).
  all: try (destruct Hl as (rest & H1 & H2); exists rest; split; [done|by apply Hs]).
  - destruct Hl as (rest & [H0 H1] & H2 & H3 & d & H4 & H5). exists rest. split_and!; eauto.
  - destruct Hl as (H1 & (d & Hd & He) & H3). split_and!; [by apply Hp|eauto|done].
  - destruct Hl as (H1 & (d & Hd & He) & H3). split_and!; [by apply Hp|eauto|done].
  - destruct Hl as ((d & Hd & He) & H2 & H3). split_and!; [eauto|by apply (Ha a b)|done].
Qed.

Section Steps.
Context (nds : gmap nat dispatch_sema_notify_s) (next : nat) (cs : list queue_call) (head tl : option nat).
Context (l : list_history) (ths : gmap nat group_pc) (i : nat).
Context (St : list_static nds next cs l) (T : list_threads nds next head tl l ths).

Definition lists_ok nds' next' cs' head' tl' l' p' : Prop :=
  list_static nds' next' cs' l' ∧ list_threads nds' next' head' tl' l' (<[i:=p']> ths).

Lemma fresh_node n d : nds !! n = Some d → n ≠ next.
Proof. intros Hn ->. pose proof (s_fresh _ _ _ _ St next (or_introl (mk_is_Some _ _ Hn))). lia. Qed.

Lemma fresh_pushed n : n ∈ h_pushed l → n ≠ next.
Proof. intros Hn ->. pose proof (s_fresh _ _ _ _ St next (or_intror (or_introl Hn))). lia. Qed.

Lemma in_pushed o x n : lst l o = Some x → n ∈ x → n ∈ h_pushed l.
Proof. intros. apply (s_pushed _ _ _ _ St). right. eauto. Qed.

Lemma calloc_lists q ctxt func :
  ths !! i = Some (G_notify q ctxt func) →
  lists_ok (<[next := Notify None q ctxt func]> nds) (S next) cs head tl
    (list_log i (G_notify q ctxt func) (G_retain_queue next) l) (G_retain_queue next).
Proof.
  intros Hi. simpl. split.
  - split; simpl; try apply St.
    + intros o x n Hx Hn. apply lookup_insert_is_Some'. right. by eapply (s_live _ _ _ _ St).
    + intros o x a d Hx Ha. rewrite lookup_insert_ne; [by apply (s_last _ _ _ _ St o x)|].
      intros <-. apply (fresh_pushed next); [|done]. eapply in_pushed; [done|]. by apply last_Some_elem_of.
    + intros n Hn. destruct (decide (n = next)) as [->|Hne]; [lia|].
      enough (n < next)%nat by lia. apply (s_fresh _ _ _ _ St).
      rewrite !lookup_insert_ne in Hn by done. done.
    + intros n d [[<- <-]|[Hne Hn]]%lookup_insert_Some; [by rewrite lookup_insert_eq|].
      rewrite lookup_insert_ne by done. by apply (s_content _ _ _ _ St).
    + rewrite (s_calls _ _ _ _ St). apply list_fmap_ext. intros k n Hk.
      rewrite lookup_insert_ne; [done|]. intros <-. apply (fresh_pushed next); [|done].
      apply (s_pushed _ _ _ _ St). left. by eapply list_elem_of_lookup_2.
  - assert (∀ n d, nds !! n = Some d → <[next:=Notify None q ctxt func]> nds !! n = Some d) as Hk.
    { intros n d Hn. rewrite lookup_insert_ne; [done|]. intros <-. by eapply fresh_node. }
    pose proof (t_local _ _ _ _ _ _ T i _ Hi) as Hl. simpl in Hl.
    eapply (threads_update _ _ _ _ _ _ _ _ T Hi); simpl; try done; try (by intros; right); try apply T; try (unfold gopen; simpl; lia).
    + intros o x a b d Hx Hab Hd. destruct (s_live _ _ _ _ St o x a Hx) as [d' Hd'].
      { by apply (adj_in x a b). }
      rewrite (Hk a d' Hd') in Hd. injection Hd as <-. eapply (adj_keep _ _ _ _ _ _ _ _ T Hi); try done; try (by intros; right).
    + split_and!; [intros Hn; by apply (fresh_pushed next)| |done]. rewrite lookup_insert_eq. eauto.
    + intros j r Hne Hj Hr. eapply list_local_mono; try done; eauto.
    + intros n [= <-]. split; [lia|]. right. intros j r Hj Hr.
      pose proof (t_mine_fresh _ _ _ _ _ _ T j r next Hj Hr). lia.
    + intros. by eapply (sub_keep _ _ _ _ _ _ _ _ T Hi).
Qed.
Lemma push_lists n :
  ths !! i = Some (G_push n) →
  lists_ok nds next cs head (Some n) (list_log i (G_push n) G_idle l)
    match tl with Some prev => G_link prev n | None => G_retain n end.
Proof.
  intros Hi. pose proof (t_local _ _ _ _ _ _ T i _ Hi) as (Hnew & (d & Hd & He) & Htk).
  assert (∀ o x, lst (list_log i (G_push n) G_idle l) o = Some x →
    ∃ y, lst l o = Some y ∧ (x = y ∨ o = None ∧ x = y ++ [n])) as Hlst.
  { intros [k|] x; simpl; [eauto|]. intros [= <-]. eauto. }
  assert (∀ o y, lst l o = Some y → ∃ x, lst (list_log i (G_push n) G_idle l) o = Some x ∧ ∀ m, m ∈ y → m ∈ x) as Hlst'.
  { intros [k|] x; simpl; [eauto|]. intros [= <-]. eexists. split; [done|]. set_solver. }
  assert (∀ o y, lst l o = Some y → n ∉ y) as Hno by (intros o y Hy Hin; by eapply Hnew, in_pushed).
  assert (lst l None = Some (h_pending l)) as Hpend by done.
  split.
  - split; try apply St.
    + intros o x Hx. destruct (Hlst o x Hx) as (y & Hy & [->|[-> ->]]); [by eapply (s_nodup _ _ _ _ St)|].
      apply NoDup_app. split_and!; [by eapply (s_nodup _ _ _ _ St)| |apply NoDup_singleton].
      intros m Hm ->%list_elem_of_singleton. by eapply Hno.
    + intros o o' x x' m Hx Hx' Hm Hm'.
      destruct (Hlst o x Hx) as (y & Hy & Cy), (Hlst o' x' Hx') as (y' & Hy' & Cy').
      pose proof (Hno o y Hy). pose proof (Hno o' y' Hy').
      destruct Cy as [->|[-> ->]], Cy' as [->|[-> ->]]; try done.
      * by eapply (s_disj _ _ _ _ St).
      * apply elem_of_app in Hm' as [Hm'| ->%list_elem_of_singleton]; [by eapply (s_disj _ _ _ _ St)|done].
      * apply elem_of_app in Hm as [Hm| ->%list_elem_of_singleton]; [by eapply (s_disj _ _ _ _ St)|done].
    + intros o x m Hx Hm. destruct (Hlst o x Hx) as (y & Hy & [->|[-> ->]]); [by eapply (s_live _ _ _ _ St)|].
      apply elem_of_app in Hm as [Hm| ->%list_elem_of_singleton]; [by eapply (s_live _ _ _ _ St)|by eexists].
    + intros o x a da Hx Ha Hda. destruct (Hlst o x Hx) as (y & Hy & [->|[-> ->]]); [by eapply (s_last _ _ _ _ St)|].
      rewrite last_snoc in Ha. congruence.
    + intros m. simpl. rewrite elem_of_app, list_elem_of_singleton. intros [?|[[?| ->]|?]]; apply (s_fresh _ _ _ _ St); eauto.
    + apply NoDup_app. split_and!; [apply St| |apply NoDup_singleton]. intros m Hm ->%list_elem_of_singleton. done.
    + intros m. simpl. rewrite elem_of_app, list_elem_of_singleton, (s_pushed _ _ _ _ St). split.
      * intros [[?|(o & y & Hy & Hm)]| ->]; [by left| |].
        -- right. destruct (Hlst' o y Hy) as (x & Hx & Hs). eauto.
        -- right. exists None. eexists. split; [done|]. set_solver.
      * intros [?|(o & x & Hx & Hm)]; [by left; left|]. destruct (Hlst o x Hx) as (y & Hy & [->|[-> ->]]); [left; eauto|].
        apply elem_of_app in Hm as [Hm| ->%list_elem_of_singleton]; [left; eauto|by right].
  - pose proof (t_tail _ _ _ _ _ _ T) as Ht. pose proof (t_open _ _ _ _ _ _ T) as Ho.
    apply (threads_update _ _ _ _ _ _ _ _ T Hi); try done; try (by intros; right); cbn [list_log h_pending].
    + by rewrite last_snoc.
    + rewrite Ht. destruct (h_pending l) as [|y ys] eqn:Ey; [unfold gopen; simpl; lia|].
      destruct (last (y :: ys)) eqn:El; [unfold gopen; simpl; lia|]. by apply last_None in El.
    + intros m Hm. apply (t_head _ _ _ _ _ _ T) in Hm. by destruct (h_pending l).
    + intros o x a b da Hx Hab Hda. destruct (Hlst o x Hx) as (y & Hy & [->|[-> ->]]).
      * eapply (adj_keep _ _ _ _ _ _ _ _ T Hi); done.
      * apply adj_snoc in Hab as [Hab|[Ha ->]]; [by eapply (adj_keep _ _ _ _ _ _ _ _ T Hi)|right].
        split; [by eapply (s_last _ _ _ _ St)|]. exists i. rewrite lookup_insert_eq.
        apply (inj Some) in Hy. subst y. by rewrite Ht, Ha.
    + rewrite Ht. destruct (last (h_pending l)) as [a|] eqn:El.
      * destruct (s_live _ _ _ _ St None _ a Hpend) as [da Hda]; [by apply last_Some_elem_of|].
        split_and!; [exists da; split; [done|by eapply (s_last _ _ _ _ St)]| |done].
        exists None. eexists. split; [done|]. apply adj_snoc. by right.
      * apply last_None in El. simpl. by rewrite El.
    + intros j q Hne Hj Hl. eapply list_local_mono; try done.
      * intros m Hm Hp. simpl. rewrite elem_of_app, list_elem_of_singleton. intros [?| ->]; [done|].
        apply Hne. by eapply (t_mine _ _ _ _ _ _ T j i).
      * intros m Hm Hp. simpl. by destruct (h_pending l).
      * intros a b -> (o & y & Hy & Hab). destruct o as [k|]; [by exists (Some k), y|].
        exists None. eexists. split; [done|]. apply (inj Some) in Hy. subst y. apply adj_snoc. by left.
    + assert (n < next)%nat as Hlt by by eapply (t_mine_fresh _ _ _ _ _ _ T i).
      destruct tl; simpl; intros m [= <-]; (split; [done|by left]).
    + intros m o x Hm Hx Hin. destruct (Hlst o x Hx) as (y & Hy & [->|[-> ->]]).
      * by eapply (sub_keep _ _ _ _ _ _ _ _ T Hi).
      * apply elem_of_app in Hin as [Hin| ->%list_elem_of_singleton].
        -- by destruct (t_sub _ _ _ _ _ _ T m None y Hm Hy Hin) as (k & q & ? & _).
        -- exfalso. apply Hnew, (s_pushed _ _ _ _ St). by left.
Qed.

Lemma link_lists prev n d :
  ths !! i = Some (G_link prev n) → nds !! prev = Some d →
  lists_ok (<[prev := set_next (Some n) d]> nds) next cs head tl l G_idle.
Proof.
  intros Hi Hd. pose proof (t_local _ _ _ _ _ _ T i _ Hi) as ((d' & Hd' & He) & (o & x & Hx & Hab) & Htk).
  rewrite Hd in Hd'. injection Hd' as <-.
  assert (∀ m, is_Some (<[prev := set_next (Some n) d]> nds !! m) → is_Some (nds !! m)) as Hdom.
  { intros m. destruct (decide (m = prev)) as [->|]; [by eexists|]. by rewrite lookup_insert_ne. }
  assert (∀ o' x' b, lst l o' = Some x' → adj x' prev b → b = n) as Hadj.
  { intros o' x' b Hx' Hb. destruct (same_list _ _ _ _ St o o' x x' prev Hx Hx') as [_ <-];
      [by apply (adj_in x prev n)|by apply (adj_in x' prev b)|].
    eapply adj_inj; [by eapply (s_nodup _ _ _ _ St)|done|done]. }
  split.
  - split; try apply St.
    + intros o' x' m Hx' Hm. apply lookup_insert_is_Some'. right. by eapply (s_live _ _ _ _ St).
    + intros o' x' a da Hx' Ha [[<- <-]|[Hne Hda]]%lookup_insert_Some; [|by eapply (s_last _ _ _ _ St)]. exfalso.
      destruct (same_list _ _ _ _ St o o' x x' prev Hx Hx') as [_ <-];
        [by apply (adj_in x prev n)|by apply last_Some_elem_of|].
      eapply adj_last; [by eapply (s_nodup _ _ _ _ St)|done|done].
    + intros m [H|H]; apply (s_fresh _ _ _ _ St); [left; by apply Hdom|by right].
    + intros m dm [[<- <-]|[Hne Hm]]%lookup_insert_Some; [by apply (s_content _ _ _ _ St _ d)|by apply (s_content _ _ _ _ St)].
  - apply (threads_update _ _ _ _ _ _ _ _ T Hi); try done; try (by intros; right); try apply T; try (unfold gopen; simpl; lia).
    + intros o' x' a b da Hx' Hab' [[<- <-]|[Hne Hda]]%lookup_insert_Some.
      * left. simpl. by rewrite (Hadj o' x' b).
      * destruct (t_adj _ _ _ _ _ _ T o' x' a b da Hx' Hab' Hda) as [|(H & j & Hj)]; [by left|right].
        split; [done|]. exists j. rewrite lookup_insert_ne; [done|]. intros <-. rewrite Hi in Hj. by injection Hj as <- <-.
    + intros j q Hne Hj Hl. eapply list_local_mono; try done.
      * intros m dm Hq Hm. rewrite lookup_insert_ne; [done|]. intros <-.
        assert (prev ∈ h_pushed l) as Hin by (eapply in_pushed; [done|by apply (adj_in x prev n)]).
        by destruct Hq as [-> | ->], Hl.
      * intros a b da -> Hda Hnx. rewrite lookup_insert_ne; [done|]. intros <-.
        destruct Hl as (_ & (o' & x' & Hx' & Hb) & _). rewrite (Hadj o' x' b Hx' Hb) in Hj.
        apply Hne. by eapply (t_mine _ _ _ _ _ _ T j i).
      * intros hd nx t w dh -> Hdh. rewrite lookup_insert_ne; [done|]. intros <-.
        destruct Hl as (rest & [Htk' ->] & _ & -> & dh' & Hdh' & Hnx). rewrite Hd in Hdh'. injection Hdh' as <-.
        destruct (same_list _ _ _ _ St o (Some j) x (prev :: rest) prev Hx Htk') as [_ ->];
          [by apply (adj_in x prev n)|by left|].
        apply adj_cons in Hab as [Hab|[_ Hab]]; [|by rewrite He, Hab in Hnx].
        apply adj_in in Hab as [Hab _]. pose proof (s_nodup _ _ _ _ St (Some j) _ Htk') as Hnd.
        by apply NoDup_cons in Hnd as [].
    + intros. by eapply (sub_keep _ _ _ _ _ _ _ _ T Hi).
Qed.
Lemma head_lists n : ths !! i = Some (G_head n) → lists_ok nds next cs (Some n) tl l G_notify_check.
Proof.
  intros Hi. pose proof (t_local _ _ _ _ _ _ T i _ Hi) as [Hh Htk].
  destruct (open_unique _ _ _ _ _ _ T i _ Hi) as [-> _]; [done|]. split; [done|].
  apply (threads_update _ _ _ _ _ _ _ _ T Hi); try done; try (by intros; right); try apply T; try (unfold gopen; simpl; lia).
  - by intros m [= <-].
  - intros. by eapply (adj_keep _ _ _ _ _ _ _ _ T Hi).
  - intros. by eapply (sub_keep _ _ _ _ _ _ _ _ T Hi).
Qed.

Lemma take_head_lists w h : ths !! i = Some (G_wake K_head w) → head = Some h →
  lists_ok nds next cs None tl l (G_wake (K_tail h) w).
Proof.
  intros Hi Hh. pose proof (t_local _ _ _ _ _ _ T i _ Hi) as Htk. split; [done|].
  apply (threads_update _ _ _ _ _ _ _ _ T Hi); try done; try (by intros; right); rewrite ?Hh; try (unfold gopen; simpl; lia).
  - apply T.
  - intros. by eapply (adj_keep _ _ _ _ _ _ _ _ T Hi).
  - split; [|done]. by apply (t_head _ _ _ _ _ _ T).
  - intros. by eapply (sub_keep _ _ _ _ _ _ _ _ T Hi).
Qed.

Lemma take_tail_lists w n : ths !! i = Some (G_wake (K_tail n) w) →
  lists_ok nds next cs head None (list_log i (G_wake (K_tail n) w) G_idle l) (G_wake (K_waiters (Some (n, tl))) w).
Proof.
  intros Hi. pose proof (t_local _ _ _ _ _ _ T i _ Hi) as [Hh Htk].
  destruct (open_unique _ _ _ _ _ _ T i _ Hi) as [Hnone Hopen]; [done|].
  set (l' := list_log i _ _ l).
  (* every list but the empty pending one was one before *)
  assert (∀ o x, lst l' o = Some x → o = None ∧ x = [] ∨
    lst l (if decide (o = Some i) then None else o) = Some x ∧ o ≠ None) as Hlst.
  { intros [k|] x; simpl; [|intros [= <-]; by left]. intros Hx. right. split; [|done]. case_decide as Hk.
    - injection Hk as ->. rewrite lookup_insert_eq in Hx. done.
    - rewrite lookup_insert_ne in Hx by congruence. done. }
  assert (∀ o x, lst l o = Some x → ∃ o', lst l' o' = Some x ∧ o ≠ Some i) as Hback.
  { intros [k|] x Hx; simpl in *.
    - assert (k ≠ i) by congruence. exists (Some k). split; [|congruence]. simpl. by rewrite lookup_insert_ne.
    - exists (Some i). simpl. by rewrite lookup_insert_eq. }
  split.
  - split; try apply St.
    + intros o x Hx. destruct (Hlst o x Hx) as [[_ ->]|[Hy _]]; [apply NoDup_nil_2|by eapply (s_nodup _ _ _ _ St)].
    + intros o o' x x' m Hx Hx' Hm Hm'.
      destruct (Hlst o x Hx) as [[_ ->]|[Hy Ho]]; [by apply not_elem_of_nil in Hm|].
      destruct (Hlst o' x' Hx') as [[_ ->]|[Hy' Ho']]; [by apply not_elem_of_nil in Hm'|].
      pose proof (s_disj _ _ _ _ St _ _ x x' m Hy Hy' Hm Hm') as E. repeat case_decide; congruence.
    + intros o x m Hx Hm. destruct (Hlst o x Hx) as [[_ ->]|[Hy _]]; [by apply not_elem_of_nil in Hm|].
      by eapply (s_live _ _ _ _ St).
    + intros o x a d Hx Ha. destruct (Hlst o x Hx) as [[_ ->]|[Hy _]]; [done|]. by eapply (s_last _ _ _ _ St).
    + intros m. simpl. rewrite (s_pushed _ _ _ _ St). split; (intros [?|(o & x & Hx & Hm)]; [by left|right]).
      * destruct (Hback o x Hx) as (o' & Hx' & _). eauto.
      * destruct (Hlst o x Hx) as [[_ ->]|[Hy _]]; [by apply not_elem_of_nil in Hm|]. eauto.
  - pose proof (t_open _ _ _ _ _ _ T) as Ho. pose proof (t_tail _ _ _ _ _ _ T) as Ht.
    apply (threads_update _ _ _ _ _ _ _ _ T Hi); try done; try (by intros; right).
    + simpl. rewrite Hh, Hnone. done.
    + by rewrite Hnone.
    + intros o x a b d Hx Hab Hd. destruct (Hlst o x Hx) as [[_ ->]|[Hy _]]; [by destruct (adj_in [] a b Hab) as [?%not_elem_of_nil _]|].
      by eapply (adj_keep _ _ _ _ _ _ _ _ T Hi).
    + destruct (h_pending l) as [|y rest] eqn:E; [done|]. injection Hh as ->. exists rest. split; [|done].
      simpl. by rewrite lookup_insert_eq, E.
    + intros j q Hne Hj Hl. eapply list_local_mono; try done.
      * simpl. by rewrite lookup_insert_ne.
      * intros m Hm. by rewrite (Hopen j q Hj Hne) in Hm.
      * intros a b -> (o & x & Hx & Hab). destruct (Hback o x Hx) as (o' & Hx' & _). eauto.
    + intros m o x Hm Hx Hin. simpl in Hm.
      destruct (Hlst o x Hx) as [[_ ->]|[Hy Hn]]; [by apply not_elem_of_nil in Hin|].
      destruct (t_sub _ _ _ _ _ _ T m _ x Hm Hy Hin) as (k & q & Hk & Hhd & Hq & Hs). exists k, q. case_decide; [done|].
      split_and!; try done. rewrite lookup_insert_ne; [done|]. intros <-. rewrite Hi in Hq. by injection Hq as <-.
    + intros k. destruct (decide (k = i)) as [->|Hne]; [by left|]. simpl. rewrite lookup_insert_ne by done. by right.
Qed.

Lemma async_lists w h t d : ths !! i = Some (G_wake (K_async h t) w) → nds !! h = Some d →
  lists_ok nds next (cs ++ [Q_async (dsn_queue d) (dsn_ctxt d) (dsn_func d)]) head tl
    (list_log i (G_wake (K_async h t) w) G_idle l) (G_wake (K_release_queue h t) w).
Proof.
  intros Hi Hd. pose proof (t_local _ _ _ _ _ _ T i _ Hi) as (rest & Htk & Et).
  assert (h ∈ h_pushed l) as Hpu by (eapply (in_pushed (Some i)); [done|by left]).
  assert (h ∉ h_submitted l) as Hno.
  { intros Hin. destruct (t_sub _ _ _ _ _ _ T h (Some i) _ Hin Htk) as (k & q & [= <-] & _ & Hk & Hq); [by left|].
    rewrite Hi in Hk. by injection Hk as <-. }
  split.
  - split; try apply St; simpl.
    + intros m. rewrite elem_of_app, list_elem_of_singleton, (s_pushed _ _ _ _ St). split; [naive_solver|].
      intros [[?| ->]|?]; [by left| |by right]. right. exists (Some i), (h :: rest). split; [done|by left].
    + apply NoDup_app. split_and!; [apply St| |apply NoDup_singleton]. by intros m Hm ->%list_elem_of_singleton.
    + unfold async_calls. rewrite omap_app, !fmap_app. simpl. f_equal; [apply St|]. f_equal. symmetry. by apply (s_content _ _ _ _ St).
  - apply (threads_update _ _ _ _ _ _ _ _ T Hi); try done; try (by intros; right); try apply T; try (unfold gopen; simpl; lia).
    + intros. by eapply (adj_keep _ _ _ _ _ _ _ _ T Hi).
    + exists rest. split; [done|]. simpl. set_solver.
    + intros j q Hne Hj Hl. eapply list_local_mono; try done. intros m Hm. simpl. set_solver.
    + intros m o x Hm Hx Hin. simpl in Hm. apply elem_of_app in Hm as [Hm| ->%list_elem_of_singleton].
      * by eapply (sub_keep _ _ _ _ _ _ _ _ T Hi).
      * destruct (same_list _ _ _ _ St o (Some i) x (h :: rest) h Hx Htk Hin) as [-> ->]; [by left|].
        exists i. eexists. by rewrite lookup_insert_eq.
Qed.

Lemma free_lists w h nx t : ths !! i = Some (G_wake (K_free h nx t) w) →
  lists_ok (delete h nds) next cs head tl (list_log i (G_wake (K_free h nx t) w) G_idle l)
    (G_wake match nx with Some nx => K_async nx t | None => K_release end w).
Proof.
  intros Hi. pose proof (t_local _ _ _ _ _ _ T i _ Hi) as (rest & [Htk Et] & Hsub & Enx & d & Hd & Ed).
  pose proof (s_nodup _ _ _ _ St (Some i) _ Htk) as [Hh Hnd]%NoDup_cons.
  set (l' := list_log i _ _ l).
  assert (lst l' (Some i) = Some rest) as Hown by (simpl; by rewrite lookup_alter_eq, Htk).
  assert (∀ o, o ≠ Some i → lst l' o = lst l o) as Hoth.
  { intros [k|] Hk; [|done]. simpl. apply lookup_alter_ne. congruence. }
  assert (∀ o x, lst l' o = Some x → ∃ y, lst l o = Some y ∧ h ∉ x ∧ (x = y ∨ o = Some i ∧ x = rest ∧ y = h :: rest)) as Hlst.
  { intros o x Hx. destruct (decide (o = Some i)) as [->|Ho].
    - rewrite Hown in Hx. injection Hx as <-. exists (h :: rest). split_and!; [done|done|by right].
    - rewrite Hoth in Hx by done. exists x. split_and!; [done| |by left]. intros Hin. apply Ho.
      eapply (s_disj _ _ _ _ St); [done|by exact Htk|done|by left]. }
  assert (∀ o x m, lst l' o = Some x → m ∈ x → m ≠ h ∧ ∃ y, lst l o = Some y ∧ m ∈ y) as Hin.
  { intros o x m Hx Hm. destruct (Hlst o x Hx) as (y & Hy & Hn & Hc). split; [by intros ->|]. exists y. split; [done|].
    destruct Hc as [<-|(-> & -> & ->)]; [done|by right]. }
  split.
  - split; try apply St.
    + intros o x Hx. destruct (Hlst o x Hx) as (y & Hy & _ & [->|(_ & -> & _)]); [by eapply (s_nodup _ _ _ _ St)|done].
    + intros o o' x x' m Hx Hx' Hm Hm'. destruct (Hin o x m Hx Hm) as (_ & y & Hy & Hmy).
      destruct (Hin o' x' m Hx' Hm') as (_ & y' & Hy' & Hmy'). by eapply (s_disj _ _ _ _ St o o' y y').
    + intros o x m Hx Hm. destruct (Hin o x m Hx Hm) as (Hne & y & Hy & Hmy). rewrite lookup_delete_ne by done.
      by eapply (s_live _ _ _ _ St).
    + intros o x a da Hx Ha [Hne Hda]%lookup_delete_Some.
      destruct (Hlst o x Hx) as (y & Hy & _ & [->|(_ & -> & ->)]); [by eapply (s_last _ _ _ _ St)|].
      eapply (s_last _ _ _ _ St); [exact Hy| |done]. destruct rest; [done|]. by rewrite last_cons_cons.
    + intros m Hm. apply (s_fresh _ _ _ _ St). destruct Hm as [[dm [_ Hm]%lookup_delete_Some]|Hm]; [left; by eexists|by right].
    + intros m dm [_ Hm]%lookup_delete_Some. by apply (s_content _ _ _ _ St).
    + intros m. simpl. rewrite (s_pushed _ _ _ _ St). split; (intros [?|(o & x & Hx & Hm)]; [by left|]).
      * destruct (decide (o = Some i)) as [->|Ho].
        -- simpl in Hx. rewrite Htk in Hx. injection Hx as <-. apply elem_of_cons in Hm as [->|Hm]; [by left|right; eauto].
        -- right. exists o, x. by rewrite Hoth.
      * right. destruct (Hin o x m Hx Hm) as (_ & y & Hy & Hmy). eauto.
  - apply (threads_update _ _ _ _ _ _ _ _ T Hi); try done; try (by intros; right); try apply T.
    + destruct nx; unfold gopen; simpl; lia.
    + intros o x a b da Hx Hab [Hne Hda]%lookup_delete_Some.
      destruct (Hlst o x Hx) as (y & Hy & _ & [->|(-> & -> & ->)]); [by eapply (adj_keep _ _ _ _ _ _ _ _ T Hi)|].
      eapply (adj_keep _ _ _ _ _ _ _ _ T Hi); [done|exact Hy| |done]. apply adj_cons. by left.
    + subst nx. destruct rest as [|n rest]; [done|]. exists rest. split; [done|]. by rewrite Et, last_cons_cons.
    + intros j q Hne Hj Hl. eapply list_local_mono; try done.
      * intros m dm Hq Hm. rewrite lookup_delete_ne; [done|]. intros <-.
        assert (h ∈ h_pushed l) by (apply (s_pushed _ _ _ _ St); by left). by destruct Hq as [-> | ->], Hl.
      * intros a b da -> Hda Hnx. rewrite lookup_delete_ne; [done|]. intros <-.
        destruct Hl as (_ & (o & x & Hx & Hab) & _).
        destruct (same_list _ _ _ _ St o (Some i) x (h :: rest) h Hx Htk) as [-> ->];
          [by apply (adj_in x h b)|by left|].
        apply adj_cons in Hab as [Hab|[_ Hab]]; [by apply adj_in in Hab as []|]. congruence.
      * intros hd nx' t' w' dh -> Hdh. rewrite lookup_delete_ne; [done|]. intros <-.
        destruct Hl as (rest' & [Htk' _] & _). apply Hne. symmetry.
        assert (Some i = Some j) as E by (eapply (s_disj _ _ _ _ St (Some i) (Some j)); [exact Htk|exact Htk'|by left|by left]). congruence.
      * simpl. by apply lookup_alter_ne.
      * intros a b -> (o & x & Hx & Hab). destruct (decide (o = Some i)) as [->|Ho]; [|exists o, x; by rewrite Hoth].
        exists (Some i), rest. split; [done|]. simpl in Hx. rewrite Htk in Hx. injection Hx as <-.
        apply adj_cons in Hab as [Hab|[-> Hab]]; [done|]. destruct Hl as ((da & Hda & Hna) & _). congruence.
    + intros m o x Hm Hx Hmx. destruct (Hlst o x Hx) as (y & Hy & Hn & [->|(-> & -> & ->)]).
      * destruct (t_sub _ _ _ _ _ _ T m o y Hm Hy Hmx) as (k & q & -> & Hhd & Hk & Hq). exists k, q.
        split_and!; try done. rewrite lookup_insert_ne; [done|]. intros <-.
        simpl in Hy. rewrite Htk in Hy. injection Hy as <-. simpl in Hhd. injection Hhd as ->. by destruct Hn; left.
      * destruct (t_sub _ _ _ _ _ _ T m (Some i) _ Hm Hy) as (k & q & _ & Hhd & _); [by right|].
        injection Hhd as ->. done.
    + intros k. destruct (decide (k = i)) as [->|Hne]; [by left|]. simpl. rewrite lookup_alter_ne by done. by right.
Qed.

Lemma release_lists w : ths !! i = Some (G_wake K_release w) →
  lists_ok nds next cs head tl (list_log i (G_wake K_release w) G_idle l) (G_wake K_done w).
Proof.
  intros Hi. pose proof (t_local _ _ _ _ _ _ T i _ Hi) as Htk. simpl in Htk. set (l' := list_log i _ _ l).
  assert (∀ o x, lst l' o = Some x → lst l o = Some x ∧ o ≠ Some i) as Hlst.
  { intros [k|] x; simpl; [|done]. intros [Hk Hx]%lookup_delete_Some. split; [done|congruence]. }
  assert (∀ o x m, lst l o = Some x → m ∈ x → lst l' o = Some x) as Hback.
  { intros [k|] x m Hx Hm; simpl; [|done]. rewrite lookup_delete_ne; [done|]. intros <-. simpl in Hx.
    rewrite Htk in Hx. injection Hx as <-. by apply not_elem_of_nil in Hm. }
  split.
  - split; try apply St.
    + intros o x [Hx _]%Hlst. by eapply (s_nodup _ _ _ _ St).
    + intros o o' x x' m [Hx _]%Hlst [Hx' _]%Hlst. by eapply (s_disj _ _ _ _ St).
    + intros o x m [Hx _]%Hlst. by eapply (s_live _ _ _ _ St).
    + intros o x a d [Hx _]%Hlst. by eapply (s_last _ _ _ _ St).
    + intros m. simpl. rewrite (s_pushed _ _ _ _ St). split; (intros [?|(o & x & Hx & Hm)]; [by left|right]).
      * exists o, x. by rewrite (Hback o x m).
      * apply Hlst in Hx as [Hx _]. eauto.
  - apply (threads_update _ _ _ _ _ _ _ _ T Hi); try done; try (by intros; right); try apply T; try (unfold gopen; simpl; lia).
    + intros o x a b d [Hx _]%Hlst. by eapply (adj_keep _ _ _ _ _ _ _ _ T Hi).
    + simpl. apply lookup_delete_eq.
    + intros j q Hne Hj Hl. eapply list_local_mono; try done.
      * simpl. by apply lookup_delete_ne.
      * intros a b -> (o & x & Hx & Hab). exists o, x. split; [|done]. eapply Hback; [done|]. by apply (adj_in x a b).
    + intros m o x Hm [Hx _]%Hlst Hin. by eapply (sub_keep _ _ _ _ _ _ _ _ T Hi).
    + intros k. destruct (decide (k = i)) as [->|Hne]; [by left|]. simpl. rewrite lookup_delete_ne by done. by right.
Qed.
End Steps.

(** ** A step of a thread *)

Section Group.
Context (g : dispatch_group_s) (l : list_history) (ths : gmap nat group_pc) (i : nat).
Context (L : group_lists g l ths).

Definition lists_next (p p' : group_pc) (g' : dispatch_group_s) : Prop :=
  p' ≠ bad_node ∧ (group_lists g' (list_log i p p' l) (<[i:=p']> ths) ∨ ∃ f, p' = G_crash f).

(** What a step shows, besides the lists themselves. *)
Lemma lists_of p p' g' :
  ths !! i = Some p → p' ≠ bad_node →
  lists_ok ths i (nodes g') (next_node g') (calls g') (dsema_notify_head g') (dsema_notify_tail g') (list_log i p p' l) p' →
  do_ref_cnt (dsema g') - do_ref_cnt (dsema g) =
    gholding p' - gholding p + some1 (dsema_notify_head g') - some1 (dsema_notify_head g) →
  (group_empty g' = true → dsema_notify_head g' ≠ None →
     0 < gabout_head p' ∨ gabout_head p ≤ gabout_head p' ∧ group_empty g = true ∧ dsema_notify_head g ≠ None) →
  lists_next p p' g'.
Proof.
  intros Hi Hb [Hs Ht] Hr Ha. split; [done|]. left. split; try done.
  - rewrite (tsum_step _ _ _ _ p' Hi). pose proof (l_ref _ _ _ L). lia.
  - rewrite map_size_insert_Some by by eexists. apply L.
  - intros He Hh. rewrite (tsum_step _ _ _ _ p' Hi).
    assert (gabout_head p ≤ gsum gabout_head ths) as Hle.
    { apply (tsum_ge (λ _ p, gabout_head p) ths i p); [|done]. intros; apply gweights. }
    pose proof (gweights p'). destruct (Ha He Hh) as [Hp|(H1 & H2 & H3)]; [lia|].
    pose proof (l_about _ _ _ L H2 H3). lia.
Qed.

(** A step that changes no list. *)
Lemma lists_neutral p p' g' :
  ths !! i = Some p → p' ≠ bad_node → list_log i p p' l = l →
  nodes g' = nodes g → next_node g' = next_node g → async_calls (calls g') = async_calls (calls g) →
  dsema_notify_head g' = dsema_notify_head g → dsema_notify_tail g' = dsema_notify_tail g →
  do_ref_cnt (dsema g') - do_ref_cnt (dsema g) = gholding p' - gholding p →
  gopen p' = gopen p → (∀ n, mine p' = Some n → mine p = Some n) → (∀ a b, p ≠ G_link a b) →
  (sent p = true → sent p' = true) →
  (list_local (nodes g) l i p → list_local (nodes g) l i p') →
  (group_empty g' = true → dsema_notify_head g ≠ None →
     0 < gabout_head p' ∨ gabout_head p ≤ gabout_head p' ∧ group_empty g = true) →
  lists_next p p' g'.
Proof.
  intros Hi Hb El En Ex Ec Eh Et Hr Ho Hm Hl Hs Hp Ha. apply lists_of; try done.
  - rewrite El, En, Ex, Eh, Et. split.
    + destruct (l_static _ _ _ L). split; try done. by rewrite Ec.
    + eapply threads_neutral; try done; [apply L|]. apply Hp. by eapply (t_local _ _ _ _ _ _ (l_threads _ _ _ L)).
  - rewrite Eh. lia.
  - rewrite Eh. intros He Hh. destruct (Ha He Hh) as [|[]]; [by left|by right].
Qed.

Lemma crash_next p f g' : G_crash f ≠ bad_node → lists_next p (G_crash f) g'.
Proof. split; [done|]. right. by eexists. Qed.

(** The value and the lists are where they were, and so is the program point
    as far as they are concerned. *)
Ltac neutral := apply lists_neutral; simpl; try done; try lia; try (intros; right; done); try (by intros; left).

Lemma async_calls_snoc c : match c with Q_async _ _ _ => False | _ => True end → async_calls (calls g ++ [c]) = async_calls (calls g).
Proof. unfold async_calls. rewrite omap_app. by destruct c; rewrite ?app_nil_r. Qed.

(** A thread of which nothing is in a list yet. *)
Definition outside (p : group_pc) : bool :=
  match p with
  | G_idle | G_enter | G_sema _ | G_leave | G_wait _ | G_again _ | G_inc _ | G_check _ | G_switch _ | G_timed _ _ _
  | G_undo _ | G_undo_cas _ _ | G_drain _ _ | G_wait_ret _ | G_notify _ _ _ | G_wake (K_head | K_done) _ => true
  | _ => false
  end.

Lemma outside_next p p' g' :
  ths !! i = Some p → p' ≠ bad_node → outside p = true → outside p' = true →
  match p with G_wake _ _ | G_notify _ _ _ => False | _ => True end →
  nodes g' = nodes g → next_node g' = next_node g → calls g' = calls g →
  dsema_notify_head g' = dsema_notify_head g → dsema_notify_tail g' = dsema_notify_tail g →
  do_ref_cnt (dsema g') = do_ref_cnt (dsema g) →
  (group_empty g' = true → group_empty g = true ∨ 0 < gabout_head p') →
  lists_next p p' g'.
Proof.
  intros Hi Hb Ho Ho' Hp En Ex Ec Eh Et Er He. apply lists_neutral; try done.
  - by destruct p as [| | | | |[]| | | | | | | | | | | | | | | | |].
  - by rewrite Ec.
  - assert (gholding p = 0 ∧ gholding p' = 0) as [-> ->]; [|lia].
    split; [destruct p as [| | | | |[]| | | | | | | | | | | | | | | | |]|destruct p' as [| | | | |[]| | | | | | | | | | | | | | | | |]]; done.
  - by destruct p as [| | | | |[]| | | | | | | | | | | | | | | | |], p' as [| | | | |[]| | | | | | | | | | | | | | | | |].
  - intros n. by destruct p' as [| | | | |[]| | | | | | | | | | | | | | | | |].
  - intros a b ->. done.
  - intros. by destruct p as [| | | | |[]| | | | | | | | | | | | | | | | |].
  - by destruct p as [| | | | |[]| | | | | | | | | | | | | | | | |], p' as [| | | | |[]| | | | | | | | | | | | | | | | |].
  - intros E _. destruct (He E) as [|]; [right|by left]. split; [|done].
    assert (gabout_head p = 0) as -> by (by destruct p as [| | | | |[]| | | | | | | | | | | | | | | | |]). pose proof (gweights p'). lia.
Qed.
Ltac away := apply outside_next; try done; try (by left).

Lemma lists_wait_slow c p p' g' :
  ths !! i = Some p → _dispatch_group_wait_slow c i p g = Some (p', g') → lists_next p p' g'.
Proof.
  intros Hi Hs.
  destruct p as [| | | | | | |t|t|t|t|t rel q|t|t orig|t q| | | | | | | |]; cbn [_dispatch_group_wait_slow] in Hs; try done.
  - destruct (group_empty g) eqn:He; apply some_pair in Hs as [-> ->]; away.
  - apply some_pair in Hs as [-> ->]; away.
  - destruct (group_empty g) eqn:He; apply some_pair in Hs as [-> ->]; away.
  - case_decide; [apply some_pair in Hs as [-> ->]; away|]. case_decide; [apply some_pair in Hs as [-> ->]; away|].
    destruct c; try done. apply some_pair in Hs as [-> ->]. destruct (_dispatch_timeout _ _ _); [away|by apply crash_next].
  - destruct (done_or_more q) as [[r ->]|Hd].
    + cbn [_dispatch_group_wait_slow] in Hs. apply some_pair in Hs as [-> ->].
      destruct r as [[]|]; [away|away|by apply crash_next|away].
    + assert (('(q', x) ← _dispatch_futex_wait (Some rel) (gkernel c) i q (dsema_futex (dsema g));
        Some (G_timed t rel q', set_gfutex x g)) = Some (p', g')) as Hs' by (destruct q; try exact Hs; by destruct (Hd ret)).
      destruct (_dispatch_futex_wait _ _ _ _ _) as [[q' x]|]; [|done]. apply some_pair in Hs' as [-> ->]. away.
  - apply some_pair in Hs as [-> ->]. case_decide; away.
  - case_decide; apply some_pair in Hs as [-> ->]; away.
  - destruct (done_or_more q) as [[r ->]|Hd].
    + cbn [_dispatch_group_wait_slow] in Hs. apply some_pair in Hs as [-> ->].
      destruct r as [[]|]; [away|by apply crash_next|by apply crash_next|away].
    + assert (('(q', x) ← _dispatch_futex_wait None (gkernel c) i q (dsema_futex (dsema g));
        Some (G_drain t q', set_gfutex x g)) = Some (p', g')) as Hs' by (destruct q; try exact Hs; by destruct (Hd ret)).
      destruct (_dispatch_futex_wait _ _ _ _ _) as [[q' x]|]; [|done]. apply some_pair in Hs' as [-> ->]. away.
Qed.

(** The first node of a list that is being walked is there; its [dsn_next] is
    the rest of the list, or null while another thread links the next one. *)
Lemma walked j head tail rest : took l j head tail rest →
  ∃ d, nodes g !! head = Some d ∧
    (dsn_next d = None → rest ≠ [] → Some head ≠ tail) ∧
    (dsn_next d ≠ None ∨ Some head = tail → dsn_next d = hd_error rest).
Proof.
  intros [Htk ->]. pose proof (l_static _ _ _ L) as St.
  destruct (s_live _ _ _ _ St (Some j) _ head Htk) as [d Hd]; [by left|]. exists d. split; [done|].
  pose proof (s_nodup _ _ _ _ St (Some j) _ Htk) as [Hh Hnd]%NoDup_cons.
  destruct rest as [|n rest].
  - assert (dsn_next d = None) as E by (by eapply (s_last _ _ _ _ St (Some j))). rewrite E. split; [done|]. by intros [|].
  - assert (Some head ≠ last (head :: n :: rest)) as Hl.
    { intros El. apply Hh. apply last_Some_elem_of. by rewrite last_cons_cons in El. }
    split; [done|]. intros [Hn|]; [|done].
    destruct (t_adj _ _ _ _ _ _ (l_threads _ _ _ L) (Some j) _ head n d Htk) as [->|[? _]]; [|done|done|done].
    apply adj_cons. by right.
Qed.

Lemma lists_wake c w p p' g' :
  ths !! i = Some (G_wake p w) → _dispatch_group_wake c w p g = Some (p', g') → gpc_ok (G_wake p w) →
  lists_next (G_wake p w) p' g'.
Proof.
  intros Hi Hs Hok. pose proof (l_static _ _ _ L) as St. pose proof (l_threads _ _ _ L) as T.
  pose proof (t_local _ _ _ _ _ _ T i _ Hi) as Hl.
  destruct p as [|h|list|n q list|h t|h t|h t|h t|h nx t| |]; cbn [_dispatch_group_wake] in Hs.
  - apply some_pair in Hs as [-> ->]. destruct (dsema_notify_head g) as [h|] eqn:Eh.
    + apply lists_of; try done; [exact (take_head_lists _ _ _ _ _ _ _ _ St T w h Hi eq_refl)|rewrite Eh; simpl; lia].
    + neutral.
  - apply some_pair in Hs as [-> ->]. apply lists_of; try done; [by apply take_tail_lists|simpl; lia|].
    intros He Hh. by right.
  - apply some_pair in Hs as [-> ->]. case_decide; destruct list as [[]|]; neutral.
  - destruct (match q with S_done | S_crash _ => true | _ => false end) eqn:Eq.
    + destruct q; try done; apply some_pair in Hs as [-> ->]; [|destruct Hok as [_ ->]; by apply crash_next].
      case_decide; destruct list as [[]|]; neutral.
    + assert (('(q', x) ← _dispatch_futex_signal (gkernel c) q (dsema_futex (dsema g));
        Some (G_wake (K_post n q' list) w, set_gfutex x g)) = Some (p', g')) as Hs' by (by destruct q).
      destruct (_dispatch_futex_signal _ _ _) as [[q' x]|]; [|done]. apply some_pair in Hs' as [-> ->].
      destruct list as [[]|]; neutral.
  - destruct Hl as (rest & Htk). destruct (walked i h t rest Htk) as (d & Hd & _). rewrite Hd in Hs.
    apply some_pair in Hs as [-> ->]. apply lists_of; try done; [by apply async_lists|simpl; lia|intros; by right].
  - destruct Hl as (rest & Htk & Hin). destruct (walked i h t rest Htk) as (d & Hd & _). rewrite Hd in Hs.
    apply some_pair in Hs as [-> ->]. neutral. by apply async_calls_snoc.
  - destruct Hl as (rest & Htk & Hin). destruct (walked i h t rest Htk) as (d & Hd & H1 & H2). rewrite Hd in Hs.
    apply some_pair in Hs as [-> ->]. case_decide as Hc; neutral. intros _. exists rest. split_and!; eauto.
    + apply H2. destruct (dsn_next d); [by left|right]. destruct (decide (Some h = t)); [done|]. by destruct Hc.
  - destruct Hl as (rest & Htk & Hin). destruct (walked i h t rest Htk) as (d & Hd & H1 & H2). rewrite Hd in Hs.
    apply some_pair in Hs as [-> ->]. case_decide as Hc; neutral. intros _. exists rest. split_and!; eauto.
  - destruct Hl as (rest & Htk & Hin & Enx & d & Hd & _). rewrite Hd in Hs. apply some_pair in Hs as [-> ->].
    pose proof (free_lists _ _ _ _ _ _ _ i St T w h nx t Hi) as Hf.
    destruct nx; apply lists_of; try done; try (intros; by right); simpl; lia.
  - pose proof (ref_bounds _ _ _ L). pose proof (holding_ref _ _ _ L i _ Hi eq_refl).
    unfold sema_release in Hs. rewrite wrapS_small in Hs by (consts; lia). rewrite decide_True in Hs by lia.
    apply some_pair in Hs as [-> ->]. apply lists_of; try done; [by apply release_lists|simpl; lia|intros; by right].
  - apply some_pair in Hs as [-> ->]. destruct w; neutral.
Qed.

Lemma lists_notify c p p' g' :
  ths !! i = Some p → dispatch_group_notify_f c p g = Some (p', g') → lists_next p p' g'.
Proof.
  intros Hi Hs. pose proof (l_static _ _ _ L) as St. pose proof (l_threads _ _ _ L) as T.
  pose proof (t_local _ _ _ _ _ _ T i _ Hi) as Hl.
  destruct p as [| | | | | | | | | | | | | | | |q ctxt func|n|n|prev n|n|n|]; cbn [dispatch_group_notify_f] in Hs; try done.
  - destruct c as [| | | |[]| |]; try done; apply some_pair in Hs as [-> ->]; [|neutral].
    apply lists_of; try done; [by apply calloc_lists|simpl; lia|intros; by right].
  - destruct Hl as (Hn & (d & Hd & He) & Htk). rewrite Hd in Hs. apply some_pair in Hs as [-> ->].
    neutral. by apply async_calls_snoc.
  - apply some_pair in Hs as [-> ->]. pose proof (push_lists _ _ _ _ _ _ _ i St T n Hi) as Hp.
    destruct (dsema_notify_tail g); apply lists_of; try done; try (intros; by right); simpl; lia.
  - destruct Hl as ((d & Hd & He) & _). rewrite Hd in Hs. apply some_pair in Hs as [-> ->].
    apply lists_of; try done; [by apply link_lists|simpl; lia|intros; by right].
  - pose proof (ref_bounds _ _ _ L). rewrite wrapS_small in Hs by (consts; lia). rewrite decide_True in Hs by lia.
    apply some_pair in Hs as [-> ->]. neutral.
  - apply some_pair in Hs as [-> ->]. apply lists_of; try done; [by eapply head_lists| |by left].
    destruct (open_unique _ _ _ _ _ _ T i _ Hi) as [-> _]; [done|]. simpl; lia.
  - apply some_pair in Hs as [-> ->]. destruct (group_empty g) eqn:He; neutral. congruence.
Qed.

(** Every step keeps the lists. *)
Lemma lists_step n c p p' g' :
  group_counts g n ths → calls_log p n ≤ LONG_MAX →
  ths !! i = Some p → group_step c i p g = Some (p', g') → lists_next p p' g'.
Proof.
  intros I Hn Hi Hs. pose proof (gc_local _ _ _ I i _ Hi) as Hok. pose proof (gc_value _ _ _ I) as Hv.
  destruct p as [| | |q| |q w| | | | | | | | | | | | | | | | |]; cbn [group_step] in Hs; try done;
    try (by eapply lists_notify); try (by eapply lists_wait_slow); try (by eapply lists_wake).
  - destruct c; try done; apply some_pair in Hs as [-> ->]; away.
  - apply (inj Some) in Hs. unfold dispatch_group_enter, dispatch_semaphore_wait in Hs. simpl in Hn.
    rewrite wrapS_small in Hs by (consts; lia). rewrite decide_True in Hs by lia. injection Hs as <- <-. away.
    intros E. apply empty_value in E; [|apply I]. simpl in E. lia.
  - simpl in Hok. subst q. apply some_pair in Hs as [-> ->]. away.
  - apply (inj Some) in Hs. unfold dispatch_group_leave in Hs. cbv zeta in Hs.
    case_decide; [injection Hs as <- <-; by apply crash_next|]. case_decide as He; injection Hs as <- <-; away.
    + by right.
    + intros E. exfalso. apply He. unfold group_empty in E. by apply Z.eqb_eq in E.
  - apply some_pair in Hs as [-> ->]. unfold dispatch_group_wait. destruct (group_empty g) eqn:E; [away|]. case_decide; away.
  - apply some_pair in Hs as [-> ->]. away.
Qed.
End Group.
