(* ===== verification/GroupTheorems.v ===== *)
(** * Groups: the properties

    Any number of threads below [INT_MAX - 2] enter and leave one group, wait
    for it and ask to be notified, in any interleaving of their atomic accesses,
    with any behaviour of the kernel. *)

From S2P Require Import Prelude Conc Time Futex Semaphore Group GroupInv GroupList GroupStep.

Abbreviation gconfig := (config (G := dispatch_group_s * group_history) (L := group_pc)).

(** A new group, and idle threads. *)
Definition group_init (s : gconfig) : Prop :=
  shared s = (dispatch_group_create, (0, LHistory [] ∅ [] [] ∅)) ∧
  (∀ i p, threads s !! i = Some p → p = G_idle) ∧ Z.of_nat (size (threads s)) < INT_MAX - 2.

(** The calls that count down, [dispatch_group_enter] and waiters, fit the value. *)
Definition few_calls (s : gconfig) : Prop := (shared s).2.1 ≤ LONG_MAX.

(** A client left too often, gave a deadline of [2^63], or the futex overflowed. *)
Definition group_faulted (s : gconfig) : Prop := ∃ i f, threads s !! i = Some (G_crash f) ∧ group_fault f.

Definition group_good (s : gconfig) : Prop :=
  group_counts (shared s).1 (shared s).2.1 (threads s) ∧ group_lists (shared s).1 (shared s).2.2 (threads s).

Definition group_inv (s : gconfig) : Prop := group_good s ∨ group_faulted s ∨ ¬ few_calls s.

Lemma group_inv_step s s' : group_inv s → cstep group_tstep s s' → group_inv s'.
Proof.
  intros Hinv Hs. destruct Hs as [i c p [g [n l]] ths p' [g' [n' l']] Hi Ht].
  unfold group_tstep in Ht. simpl in Ht. destruct (group_step c i p g) as [[q g1]|] eqn:E; [|done]. simpl in Ht.
  injection Ht as -> -> <- <-. destruct (decide (calls_log p n ≤ LONG_MAX)) as [Hn|Hn]; [|by right; right].
  destruct Hinv as [[I L]|[(j & f & Hj & Hf)|Hc]]; simpl in *.
  - destruct (lists_step g l ths i L n c p p' g' I Hn Hi E) as [Hb Hl].
    destruct (counts_step g n ths i I c p p' g' Hi E Hb Hn (ref_bounds _ _ _ L)) as [Hc|(f & -> & Hf)].
    + intros w ->. by eapply (holding_ref _ _ _ L).
    + destruct Hl as [Hl|[f ->]]; [by left|]. pose proof (gc_local _ _ _ Hc i (G_crash f)) as [].
      by rewrite lookup_insert_eq.
    + right; left. exists i, f. simpl. by rewrite lookup_insert_eq.
  - right; left. exists j, f. split; [|done]. simpl. rewrite lookup_insert_ne; [done|].
    intros <-. rewrite Hj in Hi. by injection Hi as <-.
  - destruct Hc. unfold few_calls. simpl. destruct p; simpl in Hn; lia.
Qed.

Lemma group_inv_init s : group_init s → group_inv s.
Proof.
  intros (Es & Ht & Hz). left. unfold group_good. rewrite Es. simpl.
  assert (∀ f : group_pc → Z, f G_idle = 0 → gsum f (threads s) = 0) as Hs.
  { intros f Hf. apply tsum_zero. intros i p Hp. by rewrite (Ht i p Hp). }
  split.
  - split; rewrite ?Hs by done.
    + apply futex_inv_init. intros i p Hp. by rewrite (Ht i p Hp).
    + by vm_compute.
    + by vm_compute.
    + by vm_compute.
    + done.
    + intros _ H. by vm_compute in H.
    + intros i p Hp. by rewrite (Ht i p Hp).
    + lia.
  - assert (∀ o x, lst (LHistory [] ∅ [] [] ∅) o = Some x → x = []) as Hl.
    { intros [k|] x; simpl; [by rewrite lookup_empty|congruence]. }
    split; rewrite ?Hs by done; try done; try lia.
    + split; simpl; try done; try apply NoDup_nil_2.
      * intros o x Hx. rewrite (Hl o x Hx). apply NoDup_nil_2.
      * intros o o' x x' n Hx _ Hn. rewrite (Hl o x Hx) in Hn. by apply not_elem_of_nil in Hn.
      * intros o x n Hx Hn. rewrite (Hl o x Hx) in Hn. by apply not_elem_of_nil in Hn.
      * intros n [[? H]|[Hn%not_elem_of_nil|[? H]]]; [by rewrite lookup_empty in H|done|by rewrite lookup_empty in H].
      * intros n. split; [by intros ?%not_elem_of_nil|]. intros [?%not_elem_of_nil|(o & x & Hx & Hn)]; [done|].
        rewrite (Hl o x Hx) in Hn. by apply not_elem_of_nil in Hn.
    + split; try done.
      * by rewrite Hs.
      * intros i p Hp. rewrite (Ht i p Hp). simpl. apply lookup_empty.
      * intros i j p q n Hp _ Hm. by rewrite (Ht i p Hp) in Hm.
      * intros i p n Hp Hm. by rewrite (Ht i p Hp) in Hm.
      * intros n o x Hn%not_elem_of_nil. done.
      * intros k [x Hx]. simpl in Hx. by rewrite lookup_empty in Hx.
Qed.

Lemma group_reachable s : reachable group_tstep group_init s → group_inv s.
Proof. apply (reachable_inv _ _ group_inv); [apply group_inv_init|apply group_inv_step]. Qed.

(** Nothing moves unless a client calls or the kernel interrupts a sleeper. *)
Definition group_quiescent (s : gconfig) : Prop :=
  ∀ i p, threads s !! i = Some p →
    p = G_idle ∨ i ∈ k_sleep (dsema_futex (dsema (shared s).1)) ∧
      ((∃ t, p = G_drain t W_kernel) ∨ ∃ t rel, p = G_timed t rel W_kernel).

Lemma quiescent_good s :
  reachable group_tstep group_init s → few_calls s → group_quiescent s → group_good s.
Proof.
  intros Hr Hc Hq. destruct (group_reachable s Hr) as [H|[(i & f & Hi & _)|H]]; [done| |done].
  destruct (Hq i _ Hi) as [|[_ [[]|(? & ? & ?)]]]; done.
Qed.

Lemma quiescent_sum s (f : group_pc → Z) :
  group_quiescent s → f G_idle = 0 → (∀ t, f (G_drain t W_kernel) = 0) → (∀ t rel, f (G_timed t rel W_kernel) = 0) →
  gsum f (threads s) = 0.
Proof.
  intros Hq H1 H2 H3. apply tsum_zero. intros i p Hp. destruct (Hq i p Hp) as [->|[_ [[? ->]|(? & ? & ->)]]]; auto.
Qed.

(** C32. No thread sleeps on an empty group: when every thread is idle or asleep
    in [dispatch_group_wait] and the group is empty, nobody is asleep, whatever
    the interleaving that led there and whatever the kernel did. *)
Theorem group_wakes_every_waiter s :
  reachable group_tstep group_init s → few_calls s → group_quiescent s → group_empty (shared s).1 = true →
  ∀ i p, threads s !! i = Some p → p = G_idle.
Proof.
  intros Hr Hc Hq He i p Hp. destruct (quiescent_good s Hr Hc Hq) as [I _].
  destruct (Hq i p Hp) as [|[Hi Hk]]; [done|exfalso].
  pose proof (gc_about _ _ _ I He) as Ha. rewrite (quiescent_sum s gabout) in Ha by done.
  pose proof (gc_range _ _ _ I). assert (dsema_group_waiters (shared s).1 = 0) as Hw by lia. clear Ha.
  assert (count (dsema_futex (dsema (shared s).1)) = 0) as Hz.
  { pose proof (f_count _ _ _ (gc_futex _ _ _ I)). assert (k_sleep (dsema_futex (dsema (shared s).1)) ≠ ∅) as Hne by set_solver.
    pose proof (f_wakers _ _ _ (gc_futex _ _ _ I) Hne).
    enough (wakers gview (dsema_futex (dsema (shared s).1)) (threads s) = 0) by lia.
    apply tsum_zero. intros j q Hj. destruct (Hq j q Hj) as [->|[Hj' [[? ->]|(? & ? & ->)]]]; simpl; rewrite ?decide_True by done; done. }
  pose proof (gc_waiters _ _ _ I) as Hwt. rewrite (quiescent_sum s gowed) in Hwt by done.
  assert (gwaiting p ≤ gsum gwaiting (threads s)) as Hle.
  { apply (tsum_ge (λ _ p, gwaiting p) (threads s) i p); [|done].
    intros j q Hj. destruct (Hq j q Hj) as [->|[_ [[? ->]|(? & ? & ->)]]]; simpl; lia. }
  destruct Hk as [[? ->]|(? & ? & ->)]; simpl in Hle; lia.
Qed.

(** C33. Every notification is submitted at most once, with the context and
    function it was made with, and only if it was put in the list; when the
    group is empty and no thread is in one of its functions, or all are asleep,
    every notification that was put in the list was submitted. *)
Theorem group_notifies_once s :
  reachable group_tstep group_init s → few_calls s → ¬ group_faulted s →
  let l := (shared s).2.2 in
  NoDup (h_submitted l) ∧ (∀ n, n ∈ h_submitted l → n ∈ h_pushed l) ∧
  Some <$> async_calls (calls (shared s).1) = (λ n, h_content l !! n) <$> h_submitted l ∧
  (group_quiescent s → group_empty (shared s).1 = true → ∀ n, n ∈ h_pushed l → n ∈ h_submitted l).
Proof.
  intros Hr Hc Hf l. destruct (group_reachable s Hr) as [[I L]|[|]]; [|done..].
  pose proof (l_static _ _ _ L) as St. pose proof (l_threads _ _ _ L) as T.
  split_and!; [apply St| |apply St|].
  - intros n Hn. apply (s_pushed _ _ _ _ St). by left.
  - intros Hq He n Hn. apply (s_pushed _ _ _ _ St) in Hn as [|([k|] & x & Hx & Hin)]; [done|exfalso..].
    + destruct (t_dom _ _ _ _ _ _ T k) as [p Hk]; [by eexists|]. pose proof (t_local _ _ _ _ _ _ T k p Hk) as Hl.
      simpl in Hx. destruct (Hq k p Hk) as [->|[_ [[? ->]|(? & ? & ->)]]]; simpl in Hl; congruence.
    + pose proof (t_open _ _ _ _ _ _ T) as Ho. rewrite (quiescent_sum s gopen) in Ho by done.
      pose proof (l_about _ _ _ L He) as Ha. rewrite (quiescent_sum s gabout_head) in Ha by done.
      apply (inj Some) in Hx. subst x. destruct (h_pending (shared s).2.2); [by apply not_elem_of_nil in Hin|].
      destruct (dsema_notify_head (shared s).1); simpl in Ho; [|lia].
      assert (0 < 0) by (by apply Ha). lia.
Qed.

(** Nothing but a fault of a client crashes: no null or freed notification
    is ever used, the references of the group balance, and no thread is in a
    crash of the library. *)
Theorem group_is_safe s :
  reachable group_tstep group_init s → few_calls s → ¬ group_faulted s →
  (∀ i f, threads s !! i ≠ Some (G_crash f)) ∧
  0 ≤ do_ref_cnt (dsema (shared s).1) ∧
  (group_quiescent s → group_empty (shared s).1 = true → do_ref_cnt (dsema (shared s).1) = 0).
Proof.
  intros Hr Hc Hf. destruct (group_reachable s Hr) as [[I L]|[|]]; [|done..]. split_and!.
  - intros i f Hi. by pose proof (gc_local _ _ _ I i _ Hi).
  - apply (ref_bounds _ _ _ L).
  - intros Hq He. rewrite (l_ref _ _ _ L), (quiescent_sum s gholding) by done.
    pose proof (l_about _ _ _ L He) as Ha. rewrite (quiescent_sum s gabout_head) in Ha by done.
    destruct (dsema_notify_head (shared s).1); simpl; [|done]. assert (0 < 0) by (by apply Ha). lia.
Qed.

(** ** Three threads *)

(** Thread 0 enters, thread 1 asks for a notification, thread 2 goes to sleep;
    then thread 0 leaves, wakes thread 2 and submits the notification. *)
Definition group_start : gconfig :=
  Config (dispatch_group_create, (0, LHistory [] ∅ [] [] ∅)) {[0%nat := G_idle; 1%nat := G_idle; 2%nat := G_idle]}.

Definition go (i n : nat) (k : kchoice) : list (nat * group_choice) := replicate n (i, GC_kernel k).

Definition group_schedule : list (nat * group_choice) :=
  (0%nat, GC_enter) :: go 0 3 K_go ++ (1%nat, GC_notify 7 5 9) :: (1%nat, GC_calloc true) :: go 1 6 K_go ++
  (2%nat, GC_wait DISPATCH_TIME_FOREVER) :: go 2 110 K_go ++
  (0%nat, GC_leave) :: go 0 20 (K_wake 2) ++ go 2 12 K_go.

Definition group_end : gconfig := play group_tstep group_schedule group_start.

Lemma group_end_reachable : reachable group_tstep group_init group_end.
Proof.
  apply play_reachable. exists group_start. split; [|done]. split_and!; [done| |by vm_compute].
  by apply (threads_forall _ _ _ eq_refl); vm_compute; repeat constructor.
Qed.

Lemma group_end_quiescent : group_quiescent group_end.
Proof. unfold group_quiescent. apply (threads_forall _ _ _ eq_refl). vm_compute. repeat constructor. Qed.

Lemma group_end_no_fault : ¬ group_faulted group_end.
Proof.
  intros (i & f & Hi & _). destruct (group_end_quiescent i _ Hi) as [|[_ [[]|(? & ? & ?)]]]; done.
Qed.

Lemma group_wakes_every_waiter_witness : threads group_end !! 2%nat = Some G_idle.
Proof.
  destruct (threads group_end !! 2%nat) as [p|] eqn:E; [|by vm_compute in E].
  rewrite (group_wakes_every_waiter group_end group_end_reachable ltac:(by vm_compute) group_end_quiescent
    ltac:(by vm_compute) 2%nat p E). done.
Defined.

Lemma group_notifies_once_witness : 0%nat ∈ h_submitted (shared group_end).2.2.
Proof.
  destruct (group_notifies_once group_end group_end_reachable ltac:(by vm_compute) group_end_no_fault)
    as (_ & _ & _ & H). apply (H group_end_quiescent); [by vm_compute|]. vm_compute. by left.
Defined.

Lemma group_is_safe_witness : do_ref_cnt (dsema (shared group_end).1) = 0.
Proof.
  destruct (group_is_safe group_end group_end_reachable ltac:(by vm_compute) group_end_no_fault) as (_ & _ & H).
  apply (H group_end_quiescent). by vm_compute.
Defined.
