(* ===== verification/Queue.v ===== *)
(** * Queue objects (src/queue.c, src/queue_internal.h, src/init.c)

    The static queues and their tables, the creation and disposal of queues,
    their width, target and queue-specific contexts.  What these operations ask
    of the scheduling of a queue is the interface of the last section but two:
    the items submitted as barriers run one at a time, in order. *)

From S2P Require Import Prelude Object.

(** ** Data *)

(** [struct dispatch_queue_specific_s]: its address, then its fields; 0 is the
    null pointer. *)
Record dispatch_queue_specific_s : Type := DQS {
  dqs_node : ptr;
  dqs_key : Z;
  dqs_ctxt : Z;
  dqs_destructor : Z
}.

(** What the library itself submits to a queue with [dispatch_barrier_async_f]:
    the function, with its context. *)
Inductive queue_item : Type :=
  | I_set_specific (dqsn : dispatch_queue_specific_s)
  | I_set_target (tq : nat)
  | I_set_width (width : Z).

#[global] Instance queue_item_eq : EqDecision queue_item.
Proof. assert (EqDecision dispatch_queue_specific_s) by solve_decision. solve_decision. Defined.

(** The vtables [queue], [queue_root], [queue_mgr] and [queue_specific_queue]. *)
Inductive queue_class : Type := VT_queue | VT_queue_root | VT_queue_mgr | VT_queue_specific_queue.

(** [dq_specific_q]: null, a queue, or the value stored by the disposal. *)
Inductive specific_ptr : Type := SQ_null | SQ (dqsq : nat) | SQ_trash.

#[global] Instance specific_ptr_eq : EqDecision specific_ptr.
Proof. solve_decision. Defined.

(** The fields of [DISPATCH_QUEUE_HEADER], with the list from [dq_items_head] to
    [dq_items_tail], the label, and [dqsq_contexts] of a queue of contexts. *)
Record dispatch_queue_s : Type := DQ {
  do_vtable : queue_class;
  dq_running : Z;
  dq_width : Z;
  dq_items : list queue_item;
  dq_serialnum : Z;
  dq_specific_q : specific_ptr;
  dq_label : string;
  dqsq_contexts : list dispatch_queue_specific_s
}.

(** Queues, and the objects of other components by their type. *)
Inductive queue_payload : Type :=
  | Queue (dq : dispatch_queue_s)
  | Other (type : Z).

Abbreviation QW := (M (world queue_payload)).
Abbreviation qobj := (dispatch_object_s queue_payload).

Definition set_running x q := DQ (do_vtable q) x (dq_width q) (dq_items q) (dq_serialnum q) (dq_specific_q q) (dq_label q) (dqsq_contexts q).
Definition set_width x q := DQ (do_vtable q) (dq_running q) x (dq_items q) (dq_serialnum q) (dq_specific_q q) (dq_label q) (dqsq_contexts q).
Definition set_items x q := DQ (do_vtable q) (dq_running q) (dq_width q) x (dq_serialnum q) (dq_specific_q q) (dq_label q) (dqsq_contexts q).
Definition set_serialnum x q := DQ (do_vtable q) (dq_running q) (dq_width q) (dq_items q) x (dq_specific_q q) (dq_label q) (dqsq_contexts q).
Definition set_specific_q x q := DQ (do_vtable q) (dq_running q) (dq_width q) (dq_items q) (dq_serialnum q) x (dq_label q) (dqsq_contexts q).
Definition set_label x q := DQ (do_vtable q) (dq_running q) (dq_width q) (dq_items q) (dq_serialnum q) (dq_specific_q q) x (dqsq_contexts q).
Definition set_contexts x q := DQ (do_vtable q) (dq_running q) (dq_width q) (dq_items q) (dq_serialnum q) (dq_specific_q q) (dq_label q) x.

(** [calloc]ed. *)
Definition zero_queue (c : queue_class) : dispatch_queue_s := DQ c 0 0 [] 0 SQ_null "" [].

Definition get_queue (o : nat) : QW dispatch_queue_s :=
  ob ← get_obj o;
  match do_payload ob with Queue q => mret q | Other _ => fail (UB "not a queue") end.
Definition modify_queue (o : nat) (f : dispatch_queue_s → dispatch_queue_s) : QW unit :=
  ob ← get_obj o;
  match do_payload ob with
  | Queue q => set_obj o (upd_payload (Queue (f q)) ob)
  | Other _ => fail (UB "not a queue")
  end.

(** ** The static queues *)

Definition DISPATCH_QUEUE_PRIORITY_HIGH : Z := 2.
Definition DISPATCH_QUEUE_PRIORITY_DEFAULT : Z := 0.
Definition DISPATCH_QUEUE_PRIORITY_LOW : Z := -2.
Definition DISPATCH_QUEUE_PRIORITY_BACKGROUND : Z := -32768.
Definition DISPATCH_QUEUE_OVERCOMMIT : Z := 2.
Definition DISPATCH_ROOT_QUEUE_COUNT : nat := 8.

Definition DISPATCH_ROOT_QUEUE_IDX_LOW_PRIORITY : nat := 0.
Definition DISPATCH_ROOT_QUEUE_IDX_LOW_OVERCOMMIT_PRIORITY : nat := 1.
Definition DISPATCH_ROOT_QUEUE_IDX_DEFAULT_PRIORITY : nat := 2.
Definition DISPATCH_ROOT_QUEUE_IDX_DEFAULT_OVERCOMMIT_PRIORITY : nat := 3.
Definition DISPATCH_ROOT_QUEUE_IDX_HIGH_PRIORITY : nat := 4.
Definition DISPATCH_ROOT_QUEUE_IDX_HIGH_OVERCOMMIT_PRIORITY : nat := 5.
Definition DISPATCH_ROOT_QUEUE_IDX_BACKGROUND_PRIORITY : nat := 6.
Definition DISPATCH_ROOT_QUEUE_IDX_BACKGROUND_OVERCOMMIT_PRIORITY : nat := 7.

(** The identifiers of the static queues: the root queues come first. *)
Definition mgr_q : nat := 8.
Definition main_q : nat := 9.

Definition global_object (targetq : option nat) (ctxt : Z) (q : dispatch_queue_s) : qobj :=
  DObj DISPATCH_OBJECT_GLOBAL_REFCNT DISPATCH_OBJECT_GLOBAL_REFCNT 0 targetq ctxt 0
    DISPATCH_OBJECT_SUSPEND_LOCK (Queue q).

(** [do_ctxt] is the address of the context of the same index. *)
Definition root_queue (i : nat) (label : string) (serialnum : Z) : qobj :=
  global_object None (Z.of_nat i) (DQ VT_queue_root 2 UINT32_MAX [] serialnum SQ_null label []).

Definition _dispatch_root_queues : list qobj := [
  root_queue DISPATCH_ROOT_QUEUE_IDX_LOW_PRIORITY "com.apple.root.low-priority" 4;
  root_queue DISPATCH_ROOT_QUEUE_IDX_LOW_OVERCOMMIT_PRIORITY "com.apple.root.low-overcommit-priority" 5;
  root_queue DISPATCH_ROOT_QUEUE_IDX_DEFAULT_PRIORITY "com.apple.root.default-priority" 6;
  root_queue DISPATCH_ROOT_QUEUE_IDX_DEFAULT_OVERCOMMIT_PRIORITY "com.apple.root.default-overcommit-priority" 7;
  root_queue DISPATCH_ROOT_QUEUE_IDX_HIGH_PRIORITY "com.apple.root.high-priority" 8;
  root_queue DISPATCH_ROOT_QUEUE_IDX_HIGH_OVERCOMMIT_PRIORITY "com.apple.root.high-overcommit-priority" 9;
  root_queue DISPATCH_ROOT_QUEUE_IDX_BACKGROUND_PRIORITY "com.apple.root.background-priority" 10;
  root_queue DISPATCH_ROOT_QUEUE_IDX_BACKGROUND_OVERCOMMIT_PRIORITY "com.apple.root.background-overcommit-priority" 11 ].

Definition _dispatch_mgr_q : qobj :=
  global_object (Some DISPATCH_ROOT_QUEUE_IDX_HIGH_OVERCOMMIT_PRIORITY) 0
    (DQ VT_queue_mgr 0 1 [] 2 SQ_null "com.apple.libdispatch-manager" []).

Definition _dispatch_main_q : qobj :=
  global_object (Some DISPATCH_ROOT_QUEUE_IDX_DEFAULT_OVERCOMMIT_PRIORITY) 0
    (DQ VT_queue 1 1 [] 1 SQ_null "com.apple.main-thread" []).

(** The objects of the image when the library is loaded. *)
Definition static_queues : gmap nat qobj :=
  list_to_map (imap (λ i q, (i, q)) (_dispatch_root_queues ++ [_dispatch_mgr_q; _dispatch_main_q])).

(** [_dispatch_queue_serial_numbers] *)
Definition first_serial_number : Z := 12.

(** The contexts of the root queues, in the configuration with the thread pool:
    the index of the mediator semaphore, and the size of the pool. *)
Record dispatch_root_queue_context_s : Type := RootContext {
  dgq_pending : Z;
  dgq_thread_mediator : nat;
  dgq_thread_pool_size : Z
}.

Definition MAX_THREAD_COUNT : Z := 255.

Definition _dispatch_root_queue_contexts : list dispatch_root_queue_context_s := [
  RootContext 0 DISPATCH_ROOT_QUEUE_IDX_LOW_PRIORITY MAX_THREAD_COUNT;
  RootContext 0 DISPATCH_ROOT_QUEUE_IDX_LOW_OVERCOMMIT_PRIORITY MAX_THREAD_COUNT;
  RootContext 0 DISPATCH_ROOT_QUEUE_IDX_DEFAULT_PRIORITY MAX_THREAD_COUNT;
  RootContext 0 DISPATCH_ROOT_QUEUE_IDX_DEFAULT_OVERCOMMIT_PRIORITY MAX_THREAD_COUNT;
  RootContext 0 DISPATCH_ROOT_QUEUE_IDX_HIGH_PRIORITY MAX_THREAD_COUNT;
  RootContext 0 DISPATCH_ROOT_QUEUE_IDX_HIGH_OVERCOMMIT_PRIORITY MAX_THREAD_COUNT;
  RootContext 0 DISPATCH_ROOT_QUEUE_IDX_BACKGROUND_PRIORITY MAX_THREAD_COUNT;
  RootContext 0 DISPATCH_ROOT_QUEUE_IDX_BACKGROUND_OVERCOMMIT_PRIORITY MAX_THREAD_COUNT ].

(** [None]: the null pointer.  The first [switch] falls through to the second
    for a priority it does not know, and the second returns null for it. *)
Definition _dispatch_get_root_queue (priority : Z) (overcommit : bool) : option nat :=
  if decide (priority = DISPATCH_QUEUE_PRIORITY_BACKGROUND) then
    Some (if overcommit then DISPATCH_ROOT_QUEUE_IDX_BACKGROUND_OVERCOMMIT_PRIORITY
          else DISPATCH_ROOT_QUEUE_IDX_BACKGROUND_PRIORITY)
  else if decide (priority = DISPATCH_QUEUE_PRIORITY_LOW) then
    Some (if overcommit then DISPATCH_ROOT_QUEUE_IDX_LOW_OVERCOMMIT_PRIORITY
          else DISPATCH_ROOT_QUEUE_IDX_LOW_PRIORITY)
  else if decide (priority = DISPATCH_QUEUE_PRIORITY_DEFAULT) then
    Some (if overcommit then DISPATCH_ROOT_QUEUE_IDX_DEFAULT_OVERCOMMIT_PRIORITY
          else DISPATCH_ROOT_QUEUE_IDX_DEFAULT_PRIORITY)
  else if decide (priority = DISPATCH_QUEUE_PRIORITY_HIGH) then
    Some (if overcommit then DISPATCH_ROOT_QUEUE_IDX_HIGH_OVERCOMMIT_PRIORITY
          else DISPATCH_ROOT_QUEUE_IDX_HIGH_PRIORITY)
  else None.

Definition dispatch_get_global_queue (priority flags : Z) : option nat :=
  if decide (Z.land flags (Z.lnot DISPATCH_QUEUE_OVERCOMMIT) ≠ 0) then None
  else _dispatch_get_root_queue priority (negb (Z.land flags DISPATCH_QUEUE_OVERCOMMIT =? 0)).

(** [cur] is the value of the thread for [dispatch_queue_key]. *)
Definition dispatch_get_current_queue (cur : option nat) : option nat :=
  match cur with Some dq => Some dq | None => _dispatch_get_root_queue 0 true end.

(** [_dispatch_hw_config]: what [sysconf] said, or 1 if it failed. *)
Record _dispatch_hw_config_s : Type := HwConfig { cc_max_active : Z; cc_max_logical : Z; cc_max_physical : Z }.

Definition _dispatch_get_activecpu (ret : Z) : Z := if decide (ret < 0) then 1 else u32 ret.
Definition _dispatch_get_logicalcpu_max (ret : Z) : Z := if decide (ret < 0) then 1 else u32 ret.
Definition _dispatch_get_physicalcpu_max (ret : Z) : Z := if decide (ret < 0) then 1 else u32 ret.

Definition _dispatch_hw_config_init (active logical physical : Z) : _dispatch_hw_config_s :=
  HwConfig (_dispatch_get_activecpu active) (_dispatch_get_logicalcpu_max logical)
    (_dispatch_get_physicalcpu_max physical).

(** ** Creation *)

Inductive dispatch_queue_attr_t : Type := DISPATCH_QUEUE_SERIAL | DISPATCH_QUEUE_CONCURRENT.

(** The counter is passed along: [serial] is its value, the result its new one. *)
Definition _dispatch_queue_init (dq : nat) (serial : Z) : QW Z :=
  modify_obj dq (upd_next DISPATCH_OBJECT_LISTLESS);;
  modify_obj dq (upd_targetq (_dispatch_get_root_queue 0 true));;
  modify_queue dq (set_running 0);;
  modify_queue dq (set_width 1);;
  modify_queue dq (set_serialnum serial);;
  mret (u64 (serial + 1)).

(** [None] for the label: the null pointer. *)
Definition dispatch_queue_create (label : option string) (attr : dispatch_queue_attr_t) (serial : Z)
  : QW (nat * Z) :=
  let label := default "" label in
  dq ← _dispatch_alloc (Queue (zero_queue VT_queue));
  serial ← _dispatch_queue_init dq serial;
  modify_queue dq (set_label label);;
  match attr with
  | DISPATCH_QUEUE_SERIAL => mret (dq, serial)
  | DISPATCH_QUEUE_CONCURRENT =>
      modify_queue dq (set_width UINT32_MAX);;
      modify_obj dq (upd_targetq (_dispatch_get_root_queue 0 false));;
      mret (dq, serial)
  end.

Definition dispatch_queue_get_label (dq : nat) : QW string := q ← get_queue dq; mret (dq_label q).

(** ** Disposal *)

Section Dispose.
(** The current queue of the thread. *)
Variable cur : option nat.
(** [_dispatch_release]. *)
Variable release : nat → QW unit.

Definition _dispatch_queue_dispose (dq : nat) : QW unit :=
  if decide (Some dq = cur) then fail (DISPATCH_CRASH "Release of a queue by itself")
  else
    q ← get_queue dq;
    if decide (dq_items q ≠ []) then fail (DISPATCH_CRASH "Release of a queue while items are enqueued")
    else
      modify_queue dq (set_specific_q SQ_trash);;
      match dq_specific_q q with
      | SQ dqsq => release dqsq
      | SQ_null => mret tt
      | SQ_trash => fail (UB "queue disposed twice")
      end.

(** The call of a destructor on the default global queue. *)
Definition submit_destructor (dqs : dispatch_queue_specific_s) : QW unit :=
  if decide (dqs_destructor dqs ≠ 0)
  then dispatch_async_f (AFinalize (_dispatch_get_root_queue DISPATCH_QUEUE_PRIORITY_DEFAULT false)
         (dqs_ctxt dqs) (dqs_destructor dqs))
  else mret tt.

Fixpoint dispose_contexts (l : list dispatch_queue_specific_s) : QW unit :=
  match l with
  | [] => mret tt
  | dqs :: l => submit_destructor dqs;; free (dqs_node dqs);; dispose_contexts l
  end.

Definition _dispatch_queue_specific_queue_dispose (dqsq : nat) : QW unit :=
  q ← get_queue dqsq;
  dispose_contexts (dqsq_contexts q);;
  _dispatch_queue_dispose dqsq.
End Dispose.

Definition queue_type (p : queue_payload) : Z :=
  match p with
  | Queue q =>
      match do_vtable q with
      | VT_queue => 0x10001
      | VT_queue_root => 0x10002
      | VT_queue_mgr => 0x10003
      | VT_queue_specific_queue => 0x10004
      end
  | Other t => t
  end.

(** The disposal of a queue gives up internal references.  *)
Fixpoint queue_dispose (fuel : nat) (cur : option nat) (o : nat) : QW unit :=
  match fuel with
  | O => fail OutOfFuel
  | S n =>
      ob ← get_obj o;
      if decide (do_next ob ≠ DISPATCH_OBJECT_LISTLESS)
      then fail (DISPATCH_CRASH "Release while enqueued")
      else
        let release := _os_object_release_internal (queue_dispose n cur) in
        match do_payload ob with
        | Queue q =>
            match do_vtable q with
            | VT_queue_specific_queue => _dispatch_queue_specific_queue_dispose cur release o
            | _ => _dispatch_queue_dispose cur release o
            end
        | Other _ => mret tt
        end;;
        _dispatch_dealloc (queue_dispose n cur) o
  end.

(** Deep enough for a queue with its queue of contexts, and a target queue of
    each: the chain of targets of the clients adds to it. *)
Definition QUEUE_DEPTH : nat := 64.

Definition queue_release (cur : option nat) (o : nat) : QW unit :=
  _os_object_release_internal (queue_dispose QUEUE_DEPTH cur) o.

(** ** What the operations below ask of the scheduler

    A queue that gets its first item is retained and put on its target queue;
    when it is invoked it runs its items in order, with itself as the current
    queue, and is released.  A barrier runs alone; [run_sync] runs its
    function after the items that are already there. *)

Definition submit_barrier (dq : nat) (it : queue_item) : QW unit :=
  q ← get_queue dq;
  modify_queue dq (set_items (dq_items q ++ [it]));;
  if decide (dq_items q = []) then _os_object_retain_internal dq else mret tt.

Section Items.
Variable config : _dispatch_hw_config_s.
Variable cur : option nat.

(** *** Width *)

Definition DISPATCH_QUEUE_WIDTH_ACTIVE_CPUS : Z := -1.
Definition DISPATCH_QUEUE_WIDTH_MAX_PHYSICAL_CPUS : Z := -2.
Definition DISPATCH_QUEUE_WIDTH_MAX_LOGICAL_CPUS : Z := -3.

(** The width that [w], truncated to [int], stands for. *)
Definition set_width2_value (ctxt : Z) : Z :=
  let w := i32 ctxt in
  if decide (w = 1 ∨ w = 0) then 1
  else
    let tmp :=
      if decide (0 < w) then w
      else if decide (w = DISPATCH_QUEUE_WIDTH_MAX_PHYSICAL_CPUS) then cc_max_physical config
      else if decide (w = DISPATCH_QUEUE_WIDTH_ACTIVE_CPUS) then cc_max_active config
      else cc_max_logical config in
    u32 (tmp * 2).

Definition _dispatch_queue_set_width2 (dq : nat) (ctxt : Z) : QW unit :=
  modify_queue dq (set_width (set_width2_value ctxt)).

(** *** Target *)

Definition _dispatch_set_target_queue2 (dq : nat) (tq : nat) : QW unit :=
  ob ← get_obj dq;
  set_obj dq (upd_targetq (Some tq) ob);;
  match do_targetq ob with
  | Some prev_dq => queue_release cur prev_dq
  | None => fail (UB "null target queue")
  end.

(** *** Queue-specific contexts *)

(** The loop of [_dispatch_queue_set_specific] over the list of contexts: the
    new list. *)
Fixpoint set_specific_loop (dqsn : dispatch_queue_specific_s) (l : list dispatch_queue_specific_s)
  : QW (list dispatch_queue_specific_s) :=
  match l with
  | [] => mret [dqsn]
  | dqs :: l =>
      if decide (dqs_key dqs = dqs_key dqsn) then
        submit_destructor dqs;;
        l' ← (if decide (dqs_ctxt dqsn ≠ 0)
              then mret (DQS (dqs_node dqs) (dqs_key dqs) (dqs_ctxt dqsn) (dqs_destructor dqsn) :: l)
              else free (dqs_node dqs);; mret l);
        free (dqs_node dqsn);;
        mret l'
      else l' ← set_specific_loop dqsn l; mret (dqs :: l')
  end.

Definition _dispatch_queue_set_specific (dqsq : nat) (dqsn : dispatch_queue_specific_s) : QW unit :=
  q ← get_queue dqsq;
  l ← set_specific_loop dqsn (dqsq_contexts q);
  modify_queue dqsq (set_contexts l).

Fixpoint find_context (key : Z) (l : list dispatch_queue_specific_s) : option Z :=
  match l with
  | [] => None
  | dqs :: l => if decide (dqs_key dqs = key) then Some (dqs_ctxt dqs) else find_context key l
  end.

Definition _dispatch_queue_get_specific (dqsq : nat) (key : Z) : QW Z :=
  q ← get_queue dqsq;
  mret (default 0 (find_context key (dqsq_contexts q))).

Definition run_item (dq : nat) (it : queue_item) : QW unit :=
  match it with
  | I_set_specific dqsn => _dispatch_queue_set_specific dq dqsn
  | I_set_target tq => _dispatch_set_target_queue2 dq tq
  | I_set_width w => _dispatch_queue_set_width2 dq w
  end.
End Items.

Fixpoint run_items (config : _dispatch_hw_config_s) (dq : nat) (items : list queue_item) : QW unit :=
  match items with
  | [] => mret tt
  | it :: items => run_item config (Some dq) dq it;; run_items config dq items
  end.

(** The queue runs what is enqueued, and gives up the reference it was put on
    its target with. *)
Definition queue_invoke (config : _dispatch_hw_config_s) (cur : option nat) (dq : nat) : QW unit :=
  q ← get_queue dq;
  if decide (dq_items q = []) then mret tt
  else
    modify_queue dq (set_items []);;
    run_items config dq (dq_items q);;
    queue_release cur dq.

Definition run_sync {A} (config : _dispatch_hw_config_s) (cur : option nat) (dq : nat) (func : QW A) : QW A :=
  queue_invoke config cur dq;; func.

(** ** The operations of the clients *)

Definition dispatch_queue_set_width (dq : nat) (width : Z) : QW unit :=
  ob ← get_obj dq;
  if decide (do_ref_cnt ob = DISPATCH_OBJECT_GLOBAL_REFCNT) then mret tt
  else submit_barrier dq (I_set_width width).

(** [_DISPATCH_META_TYPE_MASK] *)
Definition meta_type (p : queue_payload) : Z := Z.land (queue_type p) 0xfff0000.

Section Client.
Variable config : _dispatch_hw_config_s.
Variable cur : option nat.
(** [_dispatch_io_set_target_queue] (io.c). *)
Variable io_set_target_queue : nat → nat → QW unit.

Definition dispatch_set_target_queue (dou : nat) (dq : option nat) : QW unit :=
  ob ← get_obj dou;
  if decide (do_xref_cnt ob = DISPATCH_OBJECT_GLOBAL_REFCNT) then mret tt
  else
    let type := meta_type (do_payload ob) in
    let concurrent := match do_payload ob with Queue q => (type =? 0x10000) && (1 <? dq_width q) | Other _ => false end in
    match (match dq with None => _dispatch_get_root_queue 0 (negb concurrent) | dq => dq end) with
    | None => fail (UB "null target queue")
    | Some dq =>
        if decide (type = 0x10000 ∨ type = 0x20000) then
          _os_object_retain_internal dq;;
          submit_barrier dou (I_set_target dq)
        else if decide (type = 0x50000) then io_set_target_queue dou dq
        else
          _os_object_retain_internal dq;;
          ob ← get_obj dou;
          set_obj dou (upd_targetq (Some dq) ob);;
          match do_targetq ob with
          | Some prev_dq => queue_release cur prev_dq
          | None => mret tt
          end
    end.

Definition dispatch_set_current_target_queue (dq : option nat) : QW unit :=
  match cur with
  | None => fail (DISPATCH_CLIENT_CRASH "SPI not called from a queue")
  | Some queue =>
      ob ← get_obj queue;
      if decide (do_xref_cnt ob = DISPATCH_OBJECT_GLOBAL_REFCNT)
      then fail (DISPATCH_CLIENT_CRASH "SPI not supported on this queue")
      else
        q ← get_queue queue;
        if decide (dq_width q ≠ 1) then fail (DISPATCH_CLIENT_CRASH "SPI not called from a serial queue")
        else
          match (match dq with None => _dispatch_get_root_queue 0 true | dq => dq end) with
          | None => fail (UB "null target queue")
          | Some dq => _os_object_retain_internal dq;; _dispatch_set_target_queue2 cur queue dq
          end
  end.

(** [other] is what the word holds when the compare-and-swap is made: null, or
    the queue that another thread put there after it was read. *)
Definition _dispatch_queue_init_specific (other : specific_ptr) (dq : nat) (serial : Z) : QW Z :=
  dqsq ← _dispatch_alloc (Queue (zero_queue VT_queue_specific_queue));
  serial ← _dispatch_queue_init dqsq serial;
  modify_obj dqsq (upd_xref (λ _, -1));;
  modify_obj dqsq (upd_targetq (_dispatch_get_root_queue DISPATCH_QUEUE_PRIORITY_HIGH true));;
  modify_queue dqsq (set_width UINT32_MAX);;
  modify_queue dqsq (set_label "queue-specific");;
  modify_queue dqsq (set_contexts []);;
  (if decide (other = SQ_null) then modify_queue dq (set_specific_q (SQ dqsq))
   else modify_queue dq (set_specific_q other);; queue_release cur dqsq);;
  mret serial.

Definition specific_queue (dq : nat) : QW nat :=
  q ← get_queue dq;
  match dq_specific_q q with
  | SQ dqsq => mret dqsq
  | _ => fail (UB "no queue of contexts")
  end.

(** [calloc] of a [struct dispatch_queue_specific_s]; the result is used
    unchecked. *)
Definition calloc_specific : QW ptr :=
  node ← malloc 40;
  if decide (node = PNull) then fail (UB "null pointer")
  else store node (replicate (Z.to_nat 40) 0);; mret node.

Definition dispatch_queue_set_specific (other : specific_ptr) (dq : nat) (key ctxt destructor serial : Z) : QW Z :=
  if decide (key = 0) then mret serial
  else
    node ← calloc_specific;
    q ← get_queue dq;
    serial ← (if decide (dq_specific_q q = SQ_null) then _dispatch_queue_init_specific other dq serial
              else mret serial);
    dqsq ← specific_queue dq;
    submit_barrier dqsq (I_set_specific (DQS node key ctxt destructor));;
    mret serial.

Definition dispatch_queue_get_specific (dq : nat) (key : Z) : QW Z :=
  if decide (key = 0) then mret 0
  else
    q ← get_queue dq;
    match dq_specific_q q with
    | SQ_null => mret 0
    | _ =>
        dqsq ← specific_queue dq;
        run_sync config cur dqsq (_dispatch_queue_get_specific dqsq key)
    end.

(** Up the chain of targets: [fuel] is its length. *)
Fixpoint get_specific_loop (fuel : nat) (dq : option nat) (key ctxt : Z) : QW Z :=
  match fuel, dq with
  | _, None => mret ctxt
  | O, _ => fail OutOfFuel
  | S n, Some dq =>
      q ← get_queue dq;
      ctxt ←
        (match dq_specific_q q with
         | SQ_null => mret 0
         | _ =>
             dqsq ← specific_queue dq;
             run_sync config cur dqsq (_dispatch_queue_get_specific dqsq key)
         end);
      if decide (ctxt ≠ 0) then mret ctxt
      else ob ← get_obj dq; get_specific_loop n (do_targetq ob) key 0
  end.

Definition dispatch_get_specific (fuel : nat) (key : Z) : QW Z :=
  if decide (key = 0) then mret 0 else get_specific_loop fuel cur key 0.
End Client.
