(* ===== verification/QueueTheorems.v ===== *)
(** * Queue objects: the properties of queue.c *)

From S2P Require Import Prelude Object Queue.

(** ** Running the steps *)

Lemma wp_get_queue o ob q Q (w : world queue_payload) :
  w_objs w !! o = Some ob → do_payload ob = Queue q → Q q w → wp (get_queue o) Q w.
Proof. intros Ho Hp HQ. unfold get_queue. wp_step. eapply wp_get_obj; [done|]. by rewrite Hp. Qed.

Lemma wp_modify_queue o ob q f (Q : unit → world queue_payload → Prop) w :
  w_objs w !! o = Some ob → do_payload ob = Queue q →
  Q tt (put_obj o (upd_payload (Queue (f q)) ob) w) → wp (modify_queue o f) Q w.
Proof. intros Ho Hp HQ. unfold modify_queue. wp_step. eapply wp_get_obj; [done|]. rewrite Hp. by apply wp_set_obj. Qed.

Lemma wp_put_obj o f ob (Q : unit → world queue_payload → Prop) w :
  w_objs w !! o = Some ob → Q tt (put_obj o (f ob) w) → wp (modify_obj o f) Q w.
Proof. apply wp_modify_obj. Qed.

Lemma wp_run {A} (m m' : QW A) (Q : A → world queue_payload → Prop) w w' : m w = m' w' → wp m' Q w' → wp m Q w.
Proof. unfold wp. by intros ->. Qed.

(** ** Creation *)

(** The object [_dispatch_alloc] and [_dispatch_queue_init] make. *)
Definition initialized (c : queue_class) (serial : Z) : qobj :=
  DObj 0 0 DISPATCH_OBJECT_LISTLESS (Some DISPATCH_ROOT_QUEUE_IDX_DEFAULT_OVERCOMMIT_PRIORITY) 0 0 0
    (Queue (DQ c 0 1 [] serial SQ_null "" [])).

Lemma init_run c serial (w : world queue_payload) :
  w_objs w !! w_next w = None →
  (dq ← _dispatch_alloc (Queue (zero_queue c)); serial' ← _dispatch_queue_init dq serial; mret (dq, serial')) w
  = Ok (w_next w, u64 (serial + 1))
      (World (<[w_next w := initialized c serial]> (w_objs w)) (w_bufs w) (S (w_next w)) (w_oom w) (w_junk w) (w_async w)).
Proof.
  intros Hn. unfold mbind, M_bind, _dispatch_alloc, _dispatch_queue_init, modify_obj, modify_queue, get_obj, set_obj,
    modifyS, mbind, M_bind, set_objs.
  simpl. repeat (rewrite lookup_insert_eq; simpl). by rewrite !insert_insert_eq.
Qed.

Definition created (label : option string) (attr : dispatch_queue_attr_t) (serial : Z) : qobj :=
  match attr with
  | DISPATCH_QUEUE_SERIAL =>
      DObj 0 0 DISPATCH_OBJECT_LISTLESS (Some DISPATCH_ROOT_QUEUE_IDX_DEFAULT_OVERCOMMIT_PRIORITY) 0 0 0
        (Queue (DQ VT_queue 0 1 [] serial SQ_null (default "" label) []))
  | DISPATCH_QUEUE_CONCURRENT =>
      DObj 0 0 DISPATCH_OBJECT_LISTLESS (Some DISPATCH_ROOT_QUEUE_IDX_DEFAULT_PRIORITY) 0 0 0
        (Queue (DQ VT_queue 0 UINT32_MAX [] serial SQ_null (default "" label) []))
  end.

(** A new queue is a fresh object with one reference, nothing enqueued and
    the next serial number: serial, on the default overcommit root queue, or
    concurrent with the largest width, on the default root queue; the label is
    that given, or the empty string.  Nothing else changes. *)
Theorem dispatch_queue_create_correct label attr serial (w : world queue_payload) :
  w_objs w !! w_next w = None →
  dispatch_queue_create label attr serial w =
    Ok (w_next w, u64 (serial + 1))
      (World (<[w_next w := created label attr serial]> (w_objs w)) (w_bufs w) (S (w_next w)) (w_oom w) (w_junk w) (w_async w)).
Proof.
  intros Hn. unfold dispatch_queue_create, mbind, M_bind, _dispatch_alloc, _dispatch_queue_init, modify_obj, modify_queue,
    get_obj, set_obj, modifyS, mbind, M_bind, set_objs.
  simpl. repeat (rewrite lookup_insert_eq; simpl). rewrite !insert_insert_eq.
  destruct attr; simpl; [done|]. repeat (rewrite lookup_insert_eq; simpl). by rewrite !insert_insert_eq.
Qed.

(** The world when the library is loaded. *)
Definition start_world : world queue_payload := World static_queues ∅ 10 [] 0 [].

Lemma dispatch_queue_create_correct_witness :
  ∃ w', dispatch_queue_create (Some "com.example"%string) DISPATCH_QUEUE_CONCURRENT first_serial_number start_world
        = Ok (10%nat, 13) w' ∧
    w_objs w' !! 10%nat = Some (created (Some "com.example"%string) DISPATCH_QUEUE_CONCURRENT 12).
Proof.
  eexists. split.
  - apply (dispatch_queue_create_correct (Some "com.example"%string) DISPATCH_QUEUE_CONCURRENT 12 start_world).
    by vm_compute.
  - apply lookup_insert_eq.
Defined.

(** ** The global queues *)

(** The priorities, in the order of the table. *)
Definition priorities : list Z :=
  [DISPATCH_QUEUE_PRIORITY_LOW; DISPATCH_QUEUE_PRIORITY_DEFAULT; DISPATCH_QUEUE_PRIORITY_HIGH;
   DISPATCH_QUEUE_PRIORITY_BACKGROUND].

Definition overcommits (flags : Z) : bool := negb (flags =? 0).

Definition queue_of (ob : qobj) : option dispatch_queue_s :=
  match do_payload ob with Queue q => Some q | Other _ => None end.

Lemma overcommit_flags flags :
  0 ≤ flags → Z.land flags (Z.lnot DISPATCH_QUEUE_OVERCOMMIT) = 0 ↔ flags = 0 ∨ flags = DISPATCH_QUEUE_OVERCOMMIT.
Proof.
  intros Hf. unfold DISPATCH_QUEUE_OVERCOMMIT. split; [|by intros [->| ->]].
  intros H. rewrite <- Z.ldiff_land in H.
  assert (Z.land flags 2 = flags) as E.
  { apply Z.bits_inj'. intros n Hn.
    assert (Z.testbit (Z.ldiff flags 2) n = false) as Hb by by rewrite H, Z.bits_0.
    rewrite Z.ldiff_spec in Hb. rewrite Z.land_spec. destruct (Z.testbit flags n), (Z.testbit 2 n); done. }
  destruct (Z.testbit flags 1) eqn:Hb; [right|left]; rewrite <- E; apply Z.bits_inj'; intros n Hn; rewrite Z.land_spec.
  - destruct (decide (n = 1)) as [->|]; [by rewrite Hb|].
    assert (Z.testbit 2 n = false) as -> by (apply (Z.pow2_bits_false 1); lia). by rewrite andb_false_r.
  - destruct (decide (n = 1)) as [->|]; [by rewrite Hb|].
    assert (Z.testbit 2 n = false) as -> by (apply (Z.pow2_bits_false 1); lia). by rewrite andb_false_r, Z.bits_0.
Qed.

(** The global queue of a known priority, with the overcommit flag or none,
    is the root queue of the table that has that priority, of unlimited width
    and without a target; any other priority or flag gives null. *)
Theorem dispatch_get_global_queue_correct priority flags :
  0 ≤ flags →
  match dispatch_get_global_queue priority flags with
  | Some i =>
      (flags = 0 ∨ flags = DISPATCH_QUEUE_OVERCOMMIT) ∧
      ∃ k ob q, priorities !! k = Some priority ∧ i = (2 * k + if overcommits flags then 1 else 0)%nat ∧
        static_queues !! i = Some ob ∧ queue_of ob = Some q ∧ do_targetq ob = None ∧
        do_vtable q = VT_queue_root ∧ dq_width q = UINT32_MAX ∧ dq_serialnum q = 4 + Z.of_nat i
  | None => priority ∉ priorities ∨ flags ≠ 0 ∧ flags ≠ DISPATCH_QUEUE_OVERCOMMIT
  end.
Proof.
  intros Hf. unfold dispatch_get_global_queue. pose proof (overcommit_flags flags Hf) as Hfl.
  case_decide as Hd; [right; tauto|]. assert (flags = 0 ∨ flags = DISPATCH_QUEUE_OVERCOMMIT) as Hc by (apply Hfl; lia).
  assert (∀ (b : bool) k p, priorities !! k = Some p →
    _dispatch_get_root_queue p b = Some (2 * k + if b then 1 else 0)%nat ∧
    ∃ ob q, static_queues !! (2 * k + if b then 1 else 0)%nat = Some ob ∧ queue_of ob = Some q ∧ do_targetq ob = None ∧
      do_vtable q = VT_queue_root ∧ dq_width q = UINT32_MAX ∧
      dq_serialnum q = 4 + Z.of_nat (2 * k + if b then 1 else 0)) as Htab.
  { intros b k p Hk. do 4 (destruct k as [|k]; [injection Hk as <-; destruct b; (split; [done|]);
      eexists _, _; split_and!; [vm_compute; reflexivity|vm_compute; reflexivity|done..]|]). done. }
  assert (negb (Z.land flags DISPATCH_QUEUE_OVERCOMMIT =? 0) = overcommits flags) as Hoc by by destruct Hc as [->| ->].
  destruct (decide (priority ∈ priorities)) as [Hin|Hout].
  - apply list_elem_of_lookup in Hin as [k Hk].
    destruct (Htab (negb (Z.land flags DISPATCH_QUEUE_OVERCOMMIT =? 0)) k priority Hk) as [-> (ob & q & H)].
    split; [done|]. exists k, ob, q. rewrite Hoc in *. split; [done|]. split; [done|exact H].
  - enough (_dispatch_get_root_queue priority (negb (Z.land flags DISPATCH_QUEUE_OVERCOMMIT =? 0)) = None) as -> by by left.
    unfold priorities in Hout. rewrite !not_elem_of_cons in Hout. destruct Hout as (? & ? & ? & ? & _).
    unfold _dispatch_get_root_queue. by rewrite !decide_False by done.
Qed.

Lemma dispatch_get_global_queue_correct_witness :
  dispatch_get_global_queue DISPATCH_QUEUE_PRIORITY_HIGH 2 = Some 5%nat ∧
  (2 = 0 ∨ 2 = DISPATCH_QUEUE_OVERCOMMIT).
Proof.
  split; [done|]. pose proof (dispatch_get_global_queue_correct DISPATCH_QUEUE_PRIORITY_HIGH 2 ltac:(lia)) as H.
  apply H.
Defined.

(** ** Queue-specific contexts *)

(** What [_dispatch_queue_set_specific] does to the list. *)
Fixpoint set_ctx (n : dispatch_queue_specific_s) (l : list dispatch_queue_specific_s) : list dispatch_queue_specific_s :=
  match l with
  | [] => [n]
  | d :: l =>
      if decide (dqs_key d = dqs_key n) then
        if decide (dqs_ctxt n ≠ 0) then DQS (dqs_node d) (dqs_key d) (dqs_ctxt n) (dqs_destructor n) :: l else l
      else d :: set_ctx n l
  end.

(** The context of a key: null when there is none. *)
Definition context_in (l : list dispatch_queue_specific_s) (key : Z) : Z := default 0 (find_context key l).

Abbreviation keys l := (map dqs_key l).

Lemma set_ctx_keys n l : ∀ k, k ∈ keys (set_ctx n l) → k = dqs_key n ∨ k ∈ keys l.
Proof.
  induction l as [|d l IH]; intros k; simpl; [set_solver|].
  repeat case_decide; simpl; rewrite ?elem_of_cons; try tauto. intros [->|Hk]; [tauto|]. destruct (IH k Hk); tauto.
Qed.

Lemma set_ctx_nodup n l : NoDup (keys l) → NoDup (keys (set_ctx n l)).
Proof.
  induction l as [|d l IH]; simpl; intros Hl; [apply NoDup_singleton|].
  apply NoDup_cons in Hl as [Hd Hl]. repeat case_decide; simpl; try (by constructor); [done|].
  constructor; [|by apply IH]. intros [|]%set_ctx_keys; done.
Qed.

Lemma find_context_None key l : key ∉ keys l → find_context key l = None.
Proof.
  induction l as [|d l IH]; simpl; [done|]. rewrite not_elem_of_cons. intros [Hne Hl].
  rewrite decide_False by done. auto.
Qed.

Lemma context_set n l key :
  NoDup (keys l) →
  context_in (set_ctx n l) key = if decide (key = dqs_key n) then dqs_ctxt n else context_in l key.
Proof.
  unfold context_in. induction l as [|d l IH]; simpl; intros Hl.
  - destruct (decide (key = dqs_key n)) as [->|Hne]; [by rewrite decide_True|by rewrite !decide_False by congruence].
  - apply NoDup_cons in Hl as [Hd Hl]. destruct (decide (dqs_key d = dqs_key n)) as [He|Hne].
    + destruct (decide (dqs_ctxt n ≠ 0)) as [Hz|Hz]; simpl.
      * rewrite He. destruct (decide (key = dqs_key n)) as [->|]; [by rewrite decide_True|by rewrite !decide_False by congruence].
      * destruct (decide (key = dqs_key n)) as [->|].
        -- rewrite find_context_None by (by rewrite <- He). simpl. lia.
        -- rewrite He. by rewrite !decide_False by congruence.
    + simpl. destruct (decide (dqs_key d = key)) as [<-|]; [by rewrite !decide_False by congruence|]. by apply IH.
Qed.

(** The nodes are distinct live blocks. *)
Definition blocks_ok (ps : list ptr) (bufs : gmap nat (list Z)) : Prop :=
  NoDup ps ∧ Forall (λ p, ∃ b v, p = PBuf b 0 ∧ bufs !! b = Some v) ps.

Lemma blocks_perm ps ps' bufs : ps ≡ₚ ps' → blocks_ok ps bufs → blocks_ok ps' bufs.
Proof. intros Hp [H1 H2]. split; by rewrite <- Hp. Qed.

Lemma blocks_delete b ps bufs : blocks_ok (PBuf b 0 :: ps) bufs → blocks_ok ps (delete b bufs).
Proof.
  intros [H1 H2]. apply NoDup_cons in H1 as [Hb H1]. apply Forall_cons in H2 as [_ H2]. split; [done|].
  rewrite Forall_forall in H2 |- *. intros p Hp. destruct (H2 p Hp) as (b' & v & -> & Hv). exists b', v.
  split; [done|]. rewrite lookup_delete_ne; [done|]. intros ->. done.
Qed.

(** [w'] differs from [w] in the calls submitted and in blocks that were freed. *)
Definition freed (w w' : world queue_payload) : Prop :=
  w_objs w' = w_objs w ∧ w_next w' = w_next w ∧ w_oom w' = w_oom w ∧ w_bufs w' ⊆ w_bufs w.

Lemma freed_refl w : freed w w.
Proof. by split_and!. Qed.
Lemma freed_trans w1 w2 w3 : freed w1 w2 → freed w2 w3 → freed w1 w3.
Proof. intros (? & ? & ? & ?) (? & ? & ? & ?). split_and!; try congruence. by etrans. Qed.

Lemma free_spec p ps (w : world queue_payload) :
  blocks_ok (p :: ps) (w_bufs w) → wp (free p) (λ _ w', freed w w' ∧ blocks_ok ps (w_bufs w')) w.
Proof.
  intros Hb. pose proof (proj2 Hb) as Hf. apply Forall_cons in Hf as [(b & v & -> & Hv) _].
  unfold wp, free. rewrite Hv. split; [split_and!; [done..|]|by apply blocks_delete].
  simpl. apply delete_subseteq.
Qed.

Lemma submit_spec d (w : world queue_payload) :
  wp (submit_destructor d) (λ _ w', freed w w' ∧ w_bufs w' = w_bufs w) w.
Proof. unfold submit_destructor. case_decide; split; done || apply freed_refl. Qed.

Lemma set_loop_spec n l : ∀ rest (w : world queue_payload),
  blocks_ok (dqs_node n :: map dqs_node l ++ rest) (w_bufs w) →
  wp (set_specific_loop n l) (λ l' w', l' = set_ctx n l ∧ freed w w' ∧ blocks_ok (map dqs_node l' ++ rest) (w_bufs w')) w.
Proof.
  induction l as [|d l IH]; intros rest w Hb; cbn [set_specific_loop set_ctx].
  - apply wp_ret. split_and!; [done|apply freed_refl|done].
  - destruct (decide (dqs_key d = dqs_key n)) as [He|Hne].
    + wp_step. eapply wp_mono; [apply submit_spec|]. intros _ w1 (F1 & E1). cbv beta. rewrite <- E1 in Hb.
      wp_step. destruct (decide (dqs_ctxt n ≠ 0)) as [Hz|Hz].
      * apply wp_ret. wp_step. eapply wp_mono; [by apply free_spec|]. intros _ w2 (F2 & B2).
        apply wp_ret. split_and!; [done|by eapply freed_trans|done].
      * wp_step. eapply wp_mono; [apply (free_spec _ (dqs_node n :: map dqs_node l ++ rest))|].
        { eapply blocks_perm; [|done]. apply Permutation_swap. }
        intros _ w2 (F2 & B2). apply wp_ret. wp_step. eapply wp_mono; [by apply free_spec|].
        intros _ w3 (F3 & B3). apply wp_ret. split_and!; [done| |done]. by eapply freed_trans; [|eapply freed_trans].
    + wp_step. eapply wp_mono; [apply (IH (dqs_node d :: rest))|].
      { eapply blocks_perm; [|done]. simpl. by rewrite Permutation_middle. }
      intros l' w' (-> & F & B). apply wp_ret. split_and!; [done|done|].
      eapply blocks_perm; [|done]. simpl. by rewrite Permutation_middle.
Qed.

Section Contexts.
Variable config : _dispatch_hw_config_s.
Variable dq : nat.

(** Identifiers are used in order, and [malloc] will succeed. *)
Definition heap_ok (w : world queue_payload) : Prop :=
  w_oom w = [] ∧ (∀ b, is_Some (w_bufs w !! b) → (b < w_next w)%nat) ∧
  (∀ o, is_Some (w_objs w !! o) → (o < w_next w)%nat).

(** [dq] has the queue of contexts [dqsq], with [r] internal references, the
    contexts [l], the new contexts [ns] waiting to be set; [ps] are the blocks
    of the latter. *)
Record contexts_at (w : world queue_payload) (dqsq : nat) (r : Z) (l ns : list dispatch_queue_specific_s)
  (ps : list ptr) : Prop := ContextsAt {
  c_queue : ∃ ob q, w_objs w !! dq = Some ob ∧ do_payload ob = Queue q ∧ dq_specific_q q = SQ dqsq;
  c_ne : dq ≠ dqsq;
  c_dqsq : ∃ ob q, w_objs w !! dqsq = Some ob ∧ do_payload ob = Queue q ∧ do_ref_cnt ob = r ∧
    dqsq_contexts q = l ∧ dq_items q = map I_set_specific ns;
  c_blocks : blocks_ok (map dqs_node l ++ ps) (w_bufs w);
  c_keys : NoDup (keys l);
  c_heap : heap_ok w
}.

Abbreviation apply_sets l ns := (foldl (λ l n, set_ctx n l) l ns).

Lemma heap_freed w w' : freed w w' → heap_ok w → heap_ok w'.
Proof.
  intros (Eo & En & Eoom & Hb) (H1 & H2 & H3). split_and!; [congruence| |].
  - intros b [v Hv]. rewrite En. apply H2. exists v. by eapply lookup_weaken.
  - rewrite Eo, En. done.
Qed.

Lemma heap_put w o ob ob' : w_objs w !! o = Some ob → heap_ok w → heap_ok (put_obj o ob' w).
Proof.
  intros Ho (H1 & H2 & H3). split_and!; [done|done|]. simpl. intros o' [x Hx].
  apply lookup_insert_Some in Hx as [[<- _]|[_ Hx]]; [apply H3; by eexists|apply H3; by eexists].
Qed.

Definition points_to (w : world queue_payload) (dqsq : nat) : Prop :=
  ∃ ob q, w_objs w !! dq = Some ob ∧ do_payload ob = Queue q ∧ dq_specific_q q = SQ dqsq.

(** An update of the queue of contexts. *)
Lemma contexts_put w dqsq ob ob' q' ns' ps' :
  points_to w dqsq → dq ≠ dqsq → heap_ok w → w_objs w !! dqsq = Some ob →
  do_payload ob' = Queue q' → NoDup (keys (dqsq_contexts q')) → dq_items q' = map I_set_specific ns' →
  blocks_ok (map dqs_node (dqsq_contexts q') ++ ps') (w_bufs w) →
  contexts_at (put_obj dqsq ob' w) dqsq (do_ref_cnt ob') (dqsq_contexts q') ns' ps'.
Proof.
  intros (ob0 & q0 & H1 & H2 & H3) Hn Hh Ho Hp Hk Hi Hb. split; try done.
  - exists ob0, q0. simpl. by rewrite lookup_insert_ne.
  - exists ob', q'. simpl. by rewrite lookup_insert_eq.
  - by eapply heap_put.
Qed.

(** The items run in order. *)
Lemma run_items_spec dqsq r ps ns : ∀ l w,
  contexts_at w dqsq r l [] (map dqs_node ns ++ ps) →
  wp (run_items config dqsq (map I_set_specific ns)) (λ _ w', contexts_at w' dqsq r (apply_sets l ns) [] ps) w.
Proof.
  induction ns as [|n ns IH]; intros l w [Cq Cn Cd Cb Ck Ch]; simpl; [by apply wp_ret|].
  wp_step. unfold run_item, _dispatch_queue_set_specific. destruct Cd as (ob & q & Ho & Hp & Hr & Hl & Hi).
  wp_step. eapply wp_get_queue; [done|done|]. wp_step. rewrite Hl.
  eapply wp_mono; [apply (set_loop_spec n l (map dqs_node ns ++ ps))|].
  { eapply blocks_perm; [|exact Cb]. symmetry. apply Permutation_middle. }
  intros l' w1 (-> & F & B). cbv beta. pose proof F as (Eo & _).
  eapply wp_modify_queue; [by rewrite Eo|done|]. apply IH. rewrite <- Hr.
  apply (contexts_put w1 dqsq ob (upd_payload (Queue (set_contexts (set_ctx n l) q)) ob) (set_contexts (set_ctx n l) q) []); try done.
  - unfold points_to. by rewrite Eo.
  - by eapply heap_freed.
  - by rewrite Eo.
  - by apply set_ctx_nodup.
Qed.

Lemma release_alive cur dqsq r l ns ps w :
  contexts_at w dqsq r l ns ps → 1 ≤ r < INT_MAX →
  wp (queue_release cur dqsq) (λ _ w', contexts_at w' dqsq (r - 1) l ns ps) w.
Proof.
  intros [Cq Cn Cd Cb Ck Ch] Hr. destruct Cd as (ob & q & Ho & Hp & <- & <- & Hi).
  unfold wp, queue_release. rewrite (release_internal_run _ dqsq ob w Ho) by lia. rewrite decide_False by lia.
  unfold mret, M_ret.
  by apply (contexts_put w dqsq ob (upd_ref (λ c, c - 1) ob) q).
Qed.

(** The references while [ns] are enqueued. *)
Definition held (r : Z) (ns : list dispatch_queue_specific_s) : Z := if decide (ns = []) then r else r + 1.

Lemma invoke_spec cur dqsq r l ns w :
  contexts_at w dqsq (held r ns) l ns (map dqs_node ns) → 0 ≤ r < INT_MAX - 1 →
  wp (queue_invoke config cur dqsq) (λ _ w', contexts_at w' dqsq r (apply_sets l ns) [] []) w.
Proof.
  intros C Hr. pose proof C as [Cq Cn Cd Cb Ck Ch]. destruct Cd as (ob & q & Ho & Hp & Hrc & Hl & Hi).
  unfold queue_invoke. wp_step. eapply wp_get_queue; [done|done|]. rewrite Hi.
  destruct ns as [|n ns]; [by apply wp_ret|]. rewrite decide_False by done.
  wp_step. eapply wp_modify_queue; [done|done|]. wp_step.
  eapply wp_mono; [apply (run_items_spec dqsq (r + 1) [] (n :: ns) l)|].
  - rewrite app_nil_r, <- Hl. change (r + 1) with (held r (n :: ns)). rewrite <- Hrc.
    apply (contexts_put w dqsq ob (upd_payload (Queue (set_items [] q)) ob) (set_items [] q) []); try done; simpl; by rewrite Hl.
  - intros [] w1 C1. cbv beta in C1 |- *. eapply wp_mono; [apply (release_alive cur dqsq (r + 1)); [done|lia]|].
    intros [] w2 C2. cbv beta in C2. by replace (r + 1 - 1) with r in C2 by lia.
Qed.

(** ** Client sessions *)

(** [dispatch_queue_get_specific] reads what the pending sets will have put. *)
Lemma get_spec cur dqsq r l ns key w :
  contexts_at w dqsq (held r ns) l ns (map dqs_node ns) → 0 ≤ r < INT_MAX - 1 → key ≠ 0 →
  wp (dispatch_queue_get_specific config cur dq key)
    (λ x w', x = context_in (apply_sets l ns) key ∧ contexts_at w' dqsq (held r []) (apply_sets l ns) [] []) w.
Proof.
  intros C Hr Hk. destruct (c_queue _ _ _ _ _ _ C) as (ob & q & Ho & Hp & Hs).
  unfold dispatch_queue_get_specific. rewrite decide_False by done.
  wp_step. eapply wp_get_queue; [done|done|]. rewrite Hs. wp_step.
  unfold specific_queue. wp_step. eapply wp_get_queue; [done|done|]. rewrite Hs. apply wp_ret.
  unfold run_sync. wp_step. eapply wp_mono; [by eapply invoke_spec|]. intros [] w1 C1. cbv beta in C1 |- *.
  destruct (c_dqsq _ _ _ _ _ _ C1) as (ob1 & q1 & Ho1 & Hp1 & _ & Hl1 & _).
  unfold _dispatch_queue_get_specific. wp_step. eapply wp_get_queue; [done|done|]. apply wp_ret.
  split; [by rewrite Hl1|done].
Qed.

(** A new node. *)
Lemma calloc_spec ps (w : world queue_payload) :
  heap_ok w → blocks_ok ps (w_bufs w) →
  wp calloc_specific
    (λ node w', node ≠ PNull ∧ w_objs w' = w_objs w ∧ heap_ok w' ∧ blocks_ok (node :: ps) (w_bufs w')) w.
Proof.
  intros (H1 & H2 & H3) [Hb1 Hb2]. unfold calloc_specific, wp, mbind, M_bind, malloc. rewrite H1. cbv iota beta.
  rewrite decide_False by done. unfold store, mbind, M_bind. cbn [w_bufs]. rewrite lookup_insert_eq.
  rewrite decide_True by (rewrite !length_replicate; lia). cbv iota beta. unfold mret, M_ret.
  unfold set_bufs. cbn [w_bufs w_objs w_next w_oom w_junk w_async].
  split_and!; [done|done| |].
  - split_and!; [done| |]; simpl.
    + intros b [v Hv]. apply lookup_insert_Some in Hv as [[<- _]|[_ Hv]]; [lia|].
      apply lookup_insert_Some in Hv as [[<- _]|[_ Hv]]; [lia|]. specialize (H2 b (mk_is_Some _ _ Hv)). lia.
    + intros o Ho. specialize (H3 o Ho). lia.
  - rewrite insert_insert_eq. rewrite Forall_forall in Hb2. split.
    + constructor; [|done]. intros Hin. destruct (Hb2 _ Hin) as (b & v & [= <-] & Hv).
      specialize (H2 _ (mk_is_Some _ _ Hv)). lia.
    + constructor; [eexists _, _; split; [done|]; by rewrite lookup_insert_eq|].
      apply Forall_forall. intros p Hp. destruct (Hb2 p Hp) as (b & v & -> & Hv). exists b, v. split; [done|].
      rewrite lookup_insert_ne; [done|]. intros <-. specialize (H2 _ (mk_is_Some _ _ Hv)). lia.
Qed.

(** The queue of contexts as it is made. *)
Definition specific_object (serial : Z) : qobj :=
  DObj 0 (-1) DISPATCH_OBJECT_LISTLESS (Some DISPATCH_ROOT_QUEUE_IDX_HIGH_OVERCOMMIT_PRIORITY) 0 0 0
    (Queue (DQ VT_queue_specific_queue 0 UINT32_MAX [] serial SQ_null "queue-specific" [])).

Definition no_contexts (w : world queue_payload) : Prop :=
  heap_ok w ∧ ∃ ob q, w_objs w !! dq = Some ob ∧ do_payload ob = Queue q ∧ dq_specific_q q = SQ_null.

Lemma init_specific_spec cur serial ps w :
  no_contexts w → blocks_ok ps (w_bufs w) →
  wp (_dispatch_queue_init_specific cur SQ_null dq serial) (λ _ w', ∃ dqsq, contexts_at w' dqsq 0 [] [] ps) w.
Proof.
  intros [Hh (ob & q & Ho & Hp & Hs)] Hb. pose proof Hh as (H1 & H2 & H3).
  assert (dq < w_next w)%nat as Hlt by (apply H3; by eexists).
  assert (w_objs w !! w_next w = None) as Hn.
  { destruct (w_objs w !! w_next w) eqn:E; [|done]. specialize (H3 (w_next w) ltac:(by eexists)). lia. }
  set (w1 := World (<[w_next w := specific_object serial]> (w_objs w)) (w_bufs w) (S (w_next w)) (w_oom w) (w_junk w) (w_async w)).
  apply (wp_run _ (modify_queue dq (set_specific_q (SQ (w_next w)));; mret (u64 (serial + 1))) _ _ w1).
  { unfold _dispatch_queue_init_specific, mbind, M_bind, _dispatch_alloc, _dispatch_queue_init, modify_obj, modify_queue,
      get_obj, set_obj, modifyS, mbind, M_bind, set_objs.
    simpl. repeat (rewrite lookup_insert_eq; simpl). rewrite !insert_insert_eq. done. }
  assert (w_objs w1 !! dq = Some ob) as Ho1 by (simpl; rewrite lookup_insert_ne by lia; done).
  assert (heap_ok w1) as Hh1.
  { split_and!; [done| |]; simpl.
    - intros b Hx. specialize (H2 b Hx). lia.
    - intros o [x Hx]. apply lookup_insert_Some in Hx as [[<- _]|[_ Hx]]; [lia|].
      specialize (H3 o (mk_is_Some _ _ Hx)). lia. }
  wp_step. eapply wp_modify_queue; [done|done|]. apply wp_ret. exists (w_next w). split; try done.
  - eexists _, _. split_and!; [apply lookup_insert_eq|done|done].
  - lia.
  - eexists _, _. simpl. rewrite lookup_insert_ne by lia. rewrite lookup_insert_eq. split_and!; done.
  - apply NoDup_nil_2.
  - by eapply heap_put.
Qed.

Lemma barrier_async_spec dqsq r l ns n ps w :
  contexts_at w dqsq (held r ns) l ns ps → 0 ≤ r < INT_MAX - 1 →
  wp (submit_barrier dqsq (I_set_specific n)) (λ _ w', contexts_at w' dqsq (held r (ns ++ [n])) l (ns ++ [n]) ps) w.
Proof.
  intros [Cq Cn Cd Cb Ck Ch] Hr. destruct Cd as (ob & q & Ho & Hp & Hrc & Hl & Hi).
  unfold submit_barrier. wp_step. eapply wp_get_queue; [done|done|].
  wp_step. eapply wp_modify_queue; [done|done|].
  set (ob1 := upd_payload (Queue (set_items (dq_items q ++ [I_set_specific n]) q)) ob).
  assert (contexts_at (put_obj dqsq ob1 w) dqsq (held r ns) l (ns ++ [n]) ps) as C1.
  { rewrite <- Hrc, <- Hl. apply (contexts_put w dqsq ob ob1 (set_items (dq_items q ++ [I_set_specific n]) q)); try done;
      simpl; try (by rewrite Hl). by rewrite Hi, map_app. }
  rewrite Hi. destruct ns as [|n0 ns].
  - rewrite decide_True by done. destruct C1 as [Cq1 Cn1 _ Cb1 Ck1 Ch1].
    change (_os_object_retain_internal dqsq) with (_dispatch_retain (P := queue_payload) dqsq). unfold wp.
    change (held r []) with r in Hrc.
    rewrite (retain_internal_run dqsq ob1); [|apply lookup_insert_eq|simpl; lia].
    replace (held r ([] ++ [n])) with (do_ref_cnt (upd_ref (λ c, c + 1) ob1)) by (simpl; by rewrite Hrc).
    rewrite <- Hl. apply (contexts_put (put_obj dqsq ob1 w) dqsq ob1 (upd_ref (λ c, c + 1) ob1) (set_items (dq_items q ++ [I_set_specific n]) q));
      try done; simpl; try (by rewrite Hl); [apply lookup_insert_eq|by rewrite Hi].
  - rewrite decide_False by done. by apply wp_ret.
Qed.

(** [dq] has the contexts [m]. *)
Definition ctx_state (m : Z → Z) (w : world queue_payload) : Prop :=
  (no_contexts w ∧ ∀ k, m k = 0) ∨
  ∃ dqsq r l ns, contexts_at w dqsq (held r ns) l ns (map dqs_node ns) ∧ 0 ≤ r < INT_MAX - 1 ∧
    ∀ k, m k = context_in (apply_sets l ns) k.

Lemma apply_sets_nodup l ns : NoDup (keys l) → NoDup (keys (apply_sets l ns)).
Proof. revert l. induction ns as [|n ns IH]; intros l Hl; simpl; [done|]. by apply IH, set_ctx_nodup. Qed.

Lemma contexts_calloc dqsq r l ns ps node w w' :
  contexts_at w dqsq r l ns ps → w_objs w' = w_objs w → heap_ok w' →
  blocks_ok (node :: map dqs_node l ++ ps) (w_bufs w') → contexts_at w' dqsq r l ns (ps ++ [node]).
Proof.
  intros [Cq Cn Cd Cb Ck Ch] Eo Hh Hb. split; try done; rewrite ?Eo; try done.
  eapply blocks_perm; [|done]. rewrite Permutation_cons_append. by rewrite <- app_assoc.
Qed.

Lemma set_spec cur m key ctxt destructor serial w :
  key ≠ 0 → ctx_state m w →
  wp (dispatch_queue_set_specific cur SQ_null dq key ctxt destructor serial)
    (λ _ w', ctx_state (λ k, if decide (k = key) then ctxt else m k) w') w.
Proof.
  intros Hk HS. unfold dispatch_queue_set_specific. rewrite decide_False by done.
  assert (∀ dqsq r l ns node w1, contexts_at w1 dqsq (held r ns) l ns (map dqs_node ns ++ [node]) → 0 ≤ r < INT_MAX - 1 →
    (∀ k, m k = context_in (apply_sets l ns) k) → ∀ x : Z,
    wp (dqsq ← specific_queue dq; submit_barrier dqsq (I_set_specific (DQS node key ctxt destructor));; mret x)
      (λ _ w', ctx_state (λ k, if decide (k = key) then ctxt else m k) w') w1) as Htail.
  { intros dqsq r l ns node w1 C Hr Hm x. destruct (c_queue _ _ _ _ _ _ C) as (ob & q & Ho & Hp & Hs).
    wp_step. unfold specific_queue. wp_step. eapply wp_get_queue; [done|done|]. rewrite Hs. apply wp_ret.
    wp_step. eapply wp_mono; [by eapply (barrier_async_spec _ _ _ _ (DQS node key ctxt destructor))|]. intros [] w2 C2. apply wp_ret.
    right. exists dqsq, r, l, (ns ++ [DQS node key ctxt destructor]). rewrite map_app. split_and!; [done|lia..|].
    intros k. rewrite foldl_app. simpl. rewrite context_set by (apply apply_sets_nodup; apply (c_keys _ _ _ _ _ _ C)).
    by rewrite Hm. }
  destruct HS as [[Hn Hm]|(dqsq & r & l & ns & C & Hr & Hm)]; wp_step.
  - pose proof Hn as [Hh (ob & q & Ho & Hp & Hs)].
    eapply wp_mono; [apply (calloc_spec [] w Hh); by split; [apply NoDup_nil_2|]|]. intros node w1 (_ & Eo & Hh1 & Hb1).
    cbv beta. wp_step. eapply wp_get_queue; [by rewrite Eo|done|]. rewrite Hs. wp_step. rewrite decide_True by done.
    eapply wp_mono; [apply (init_specific_spec cur serial [node])|].
    { split; [done|]. rewrite Eo. eauto. } { done. }
    intros x w2 [dqsq C2]. apply (Htail dqsq 0 [] []); [done|done|]. intros k. by rewrite Hm.
  - pose proof C as [Cq Cn Cd Cb Ck Ch]. destruct Cq as (ob & q & Ho & Hp & Hs).
    eapply wp_mono; [by apply (calloc_spec _ w Ch Cb)|]. intros node w1 (_ & Eo & Hh1 & Hb1).
    cbv beta. wp_step. eapply wp_get_queue; [by rewrite Eo|done|]. rewrite Hs. wp_step. rewrite decide_False by done.
    apply wp_ret. apply (Htail dqsq r l ns); [|done|done]. by eapply contexts_calloc.
Qed.

Lemma get_state_spec cur m key w :
  key ≠ 0 → ctx_state m w →
  wp (dispatch_queue_get_specific config cur dq key) (λ x w', x = m key ∧ ctx_state m w') w.
Proof.
  intros Hk [[[Hh (ob & q & Ho & Hp & Hs)] Hm]|(dqsq & r & l & ns & C & Hr & Hm)].
  - unfold dispatch_queue_get_specific. rewrite decide_False by done. wp_step. eapply wp_get_queue; [done|done|].
    rewrite Hs. apply wp_ret. split; [by rewrite Hm|]. left. split; [|done]. split; [done|]. eauto.
  - eapply wp_mono; [by eapply get_spec|]. intros x w' [-> C']. split; [by rewrite Hm|].
    right. exists dqsq, r, (apply_sets l ns), []. split_and!; try done; lia.
Qed.

(** What a client does with the contexts of [dq]. *)
Inductive session_op : Type := Set_specific (key ctxt destructor : Z) | Get_specific (key : Z).

Fixpoint session (cur : option nat) (ops : list session_op) (serial : Z) : QW (list Z) :=
  match ops with
  | [] => mret []
  | Set_specific key ctxt destructor :: ops =>
      serial ← dispatch_queue_set_specific cur SQ_null dq key ctxt destructor serial;
      session cur ops serial
  | Get_specific key :: ops =>
      x ← dispatch_queue_get_specific config cur dq key;
      xs ← session cur ops serial;
      mret (x :: xs)
  end.

Fixpoint session_spec (m : Z → Z) (ops : list session_op) : list Z :=
  match ops with
  | [] => []
  | Set_specific key ctxt _ :: ops => session_spec (λ k, if decide (k = key ∧ key ≠ 0) then ctxt else m k) ops
  | Get_specific key :: ops => m key :: session_spec m ops
  end.

Lemma session_refines cur ops : ∀ m serial w,
  ctx_state m w → m 0 = 0 → wp (session cur ops serial) (λ xs _, xs = session_spec m ops) w.
Proof.
  induction ops as [|[key ctxt destructor|key] ops IH]; intros m serial w HS H0; simpl; [by apply wp_ret| |]; wp_step.
  - destruct (decide (key = 0)) as [->|Hk].
    + unfold dispatch_queue_set_specific. rewrite decide_True by done. apply wp_ret. apply IH.
      * destruct HS as [[Hn Hm]|(dqsq & r & l & ns & C & Hr & Hm)]; [left; split; [done|]|right; exists dqsq, r, l, ns; split_and!; try done; try lia];
          intros k; rewrite decide_False by tauto; apply Hm.
      * by rewrite decide_False by tauto.
    + eapply wp_mono; [by apply set_spec|]. intros x w' HS'. apply IH.
      * destruct HS' as [[Hn Hm]|(dqsq & r & l & ns & C & Hr & Hm)]; [left; split; [done|]|right; exists dqsq, r, l, ns; split_and!; try done; try lia];
          intros k; specialize (Hm k); destruct (decide (k = key)); [rewrite decide_True by done|rewrite decide_False by tauto|rewrite decide_True by done|rewrite decide_False by tauto]; done.
      * by rewrite decide_False by (intros [<- ?]; done).
  - destruct (decide (key = 0)) as [->|Hk].
    + unfold dispatch_queue_get_specific. rewrite decide_True by done. apply wp_ret. wp_step.
      eapply wp_mono; [by apply (IH m)|]. intros xs w' ->. apply wp_ret. by rewrite H0.
    + eapply wp_mono; [by apply get_state_spec|]. intros x w' [-> HS']. wp_step.
      eapply wp_mono; [by apply (IH m)|]. intros xs w2 ->. by apply wp_ret.
Qed.
End Contexts.

(** C40. The queue-specific contexts of a queue are a map from keys to contexts:
    in any sequence of sets and gets of clients, each get returns the context
    that was last set for its key, or null; the null key is ignored.  The sets
    go through the queue of contexts, which the first of them makes, and no call
    reaches freed memory. *)
Theorem queue_specific_is_a_map config cur dq ops serial (w : world queue_payload) :
  no_contexts dq w → wp (session config dq cur ops serial) (λ xs _, xs = session_spec (λ _, 0) ops) w.
Proof. intros Hn. apply session_refines; [by left|done]. Qed.

(** A queue [10] that was just created. *)
Definition one_queue : world queue_payload :=
  World (<[10%nat := created None DISPATCH_QUEUE_SERIAL 12]> static_queues) ∅ 11 [] 0 [].

Lemma one_queue_no_contexts : no_contexts 10 one_queue.
Proof.
  split; [split_and!; [done|by intros b [v Hv]|]|].
  - intros o Ho. assert (o ∈ dom (w_objs one_queue)) as Hd by by apply elem_of_dom.
    assert (set_Forall (λ o, (o < 11)%nat) (dom (w_objs one_queue))) as Hf by (apply (bool_decide_unpack _); by vm_compute).
    by apply Hf.
  - eexists _, _. split_and!; [apply lookup_insert_eq|done|done].
Qed.

Definition demo_session : list session_op :=
  [Get_specific 7; Set_specific 7 100 0; Set_specific 8 200 1; Get_specific 7; Set_specific 7 0 0; Get_specific 7; Get_specific 8].

Lemma queue_specific_is_a_map_witness :
  session_spec (λ _, 0) demo_session = [0; 100; 0; 200] ∧
  wp (session (HwConfig 4 4 4) 10 None demo_session 13) (λ xs _, xs = session_spec (λ _, 0) demo_session) one_queue.
Proof.
  split; [done|].
  exact (queue_specific_is_a_map (HwConfig 4 4 4) None 10 demo_session 13 one_queue one_queue_no_contexts).
Defined.

(** ** Disposal *)

Lemma wp_dealloc disp o ob t tb (Q : unit → world queue_payload → Prop) w :
  w_objs w !! o = Some ob → do_finalizer ob = 0 → do_targetq ob = Some t →
  w_objs w !! t = Some tb → do_ref_cnt tb = DISPATCH_OBJECT_GLOBAL_REFCNT → t ≠ o →
  Q tt (set_objs (delete o (w_objs w)) w) → wp (_dispatch_dealloc disp o) Q w.
Proof.
  intros Ho Hf Ht Htb Hg Hne HQ. unfold _dispatch_dealloc. wp_step. eapply wp_get_obj; [done|]. cbv zeta.
  wp_step. unfold _os_object_dealloc. apply wp_modify. wp_step. rewrite Hf. rewrite decide_False by tauto.
  apply wp_ret. rewrite Ht. unfold _os_object_release_internal. wp_step.
  eapply wp_get_obj; [simpl; by rewrite lookup_delete_ne|]. by rewrite decide_True by done.
Qed.

(** The destructor calls of a list of contexts, in order. *)
Definition destructor_calls (l : list dispatch_queue_specific_s) : list async_call :=
  omap (λ d, if decide (dqs_destructor d ≠ 0)
             then Some (AFinalize (Some DISPATCH_ROOT_QUEUE_IDX_DEFAULT_PRIORITY) (dqs_ctxt d) (dqs_destructor d)) else None) l.

Lemma dispose_contexts_spec l : ∀ ps (w : world queue_payload),
  blocks_ok (map dqs_node l ++ ps) (w_bufs w) →
  wp (dispose_contexts l) (λ _ w', w_objs w' = w_objs w ∧ w_async w' = rev (destructor_calls l) ++ w_async w ∧
    (∀ d b, d ∈ l → dqs_node d = PBuf b 0 → w_bufs w' !! b = None) ∧ w_bufs w' ⊆ w_bufs w) w.
Proof.
  induction l as [|d l IH]; intros ps w Hb; cbn [dispose_contexts].
  - apply wp_ret. split_and!; try done. intros ? ? H. by apply elem_of_nil in H.
  - pose proof (proj2 Hb) as Hf. apply Forall_cons in Hf as [(b & v & Hd & Hv) _].
    assert (submit_destructor d w = Ok tt (World (w_objs w) (w_bufs w) (w_next w) (w_oom w) (w_junk w)
      (rev (destructor_calls [d]) ++ w_async w))) as Hs.
    { unfold submit_destructor, destructor_calls. simpl. case_decide; [done|]. by destruct w. }
    wp_step. unfold wp at 1. rewrite Hs. wp_step. unfold wp at 1, free. rewrite Hd. cbn [w_bufs]. rewrite Hv.
    eapply wp_mono; [apply (IH ps)|].
    { cbn [w_bufs set_bufs]. apply blocks_delete. rewrite <- Hd. exact Hb. }
    cbn [w_bufs w_objs w_async set_bufs]. intros [] w' (E1 & E2 & E3 & E4). split_and!; [done| | |].
    + rewrite E2. change (destructor_calls (d :: l)) with (destructor_calls ([d] ++ l)).
      unfold destructor_calls. rewrite omap_app, rev_app_distr, <- app_assoc. done.
    + intros d' b' [->|Hin]%elem_of_cons Hn; [|by eapply E3].
      assert (b' = b) as -> by congruence. destruct (w_bufs w' !! b) as [x|] eqn:E; [|done].
      eapply lookup_weaken in E; [|exact E4]. by rewrite lookup_delete_eq in E.
    + etrans; [exact E4|]. apply delete_subseteq.
Qed.

(** An object about to be disposed of: not enqueued, no finalizer, on a queue
    that is never released. *)
Definition disposable (w : world queue_payload) (ob : qobj) : Prop :=
  do_ref_cnt ob = 0 ∧ do_next ob = DISPATCH_OBJECT_LISTLESS ∧ do_finalizer ob = 0 ∧
  ∃ t tb, do_targetq ob = Some t ∧ w_objs w !! t = Some tb ∧ do_ref_cnt tb = DISPATCH_OBJECT_GLOBAL_REFCNT.

Lemma wp_release_last disp o ob (Q : unit → world queue_payload → Prop) w :
  w_objs w !! o = Some ob → do_ref_cnt ob = 0 → wp (disp o) Q (put_obj o (upd_ref (λ c, c - 1) ob) w) →
  wp (_os_object_release_internal disp o) Q w.
Proof.
  intros Ho Hr HQ. unfold wp. rewrite (release_internal_run disp o ob w Ho) by (rewrite Hr; done).
  by rewrite decide_True by done.
Qed.

Lemma dispose_specific n cur dqsq ob q t tb (w : world queue_payload) :
  w_objs w !! dqsq = Some ob → do_payload ob = Queue q → do_vtable q = VT_queue_specific_queue →
  dq_items q = [] → dq_specific_q q = SQ_null → do_next ob = DISPATCH_OBJECT_LISTLESS → do_finalizer ob = 0 →
  do_targetq ob = Some t → w_objs w !! t = Some tb → do_ref_cnt tb = DISPATCH_OBJECT_GLOBAL_REFCNT → t ≠ dqsq →
  blocks_ok (map dqs_node (dqsq_contexts q)) (w_bufs w) → cur ≠ Some dqsq →
  wp (queue_dispose (S n) cur dqsq) (λ _ w', w_objs w' = delete dqsq (w_objs w) ∧
    w_async w' = rev (destructor_calls (dqsq_contexts q)) ++ w_async w ∧
    ∀ d b, d ∈ dqsq_contexts q → dqs_node d = PBuf b 0 → w_bufs w' !! b = None) w.
Proof.
  intros Ho Hp Hvt Hi Hs Hn Hf Ht Htb Hg Hne Hb Hc. cbn [queue_dispose].
  wp_step. eapply wp_get_obj; [done|]. rewrite decide_False by tauto. cbv zeta. rewrite Hp, Hvt. wp_step.
  unfold _dispatch_queue_specific_queue_dispose. wp_step. eapply wp_get_queue; [done|done|]. wp_step.
  eapply wp_mono; [apply (dispose_contexts_spec _ []); by rewrite app_nil_r|]. intros [] w1 (E1 & E2 & E3 & E4). cbv beta.
  assert (w_objs w1 !! dqsq = Some ob) as Ho1 by by rewrite E1.
  unfold _dispatch_queue_dispose. rewrite decide_False by congruence. wp_step. eapply wp_get_queue; [done|done|].
  rewrite Hi. rewrite decide_False by tauto. wp_step. eapply wp_modify_queue; [done|done|]. rewrite Hs. apply wp_ret.
  eapply (wp_dealloc _ dqsq _ t tb); [apply lookup_insert_eq|done|done| |done|done|].
  - simpl. rewrite lookup_insert_ne by done. by rewrite E1.
  - split_and!; [|done|done]. simpl. by rewrite delete_insert_eq, E1.
Qed.

(** When the last reference to a queue goes, its queue of contexts goes
    with it: every destructor that is not null is submitted exactly once, with
    its context, to the default global queue, in the order of the contexts; the
    nodes are freed, and no other object changes. *)
Theorem queue_disposal_runs_destructors cur dq dqsq ob q obs qs (w : world queue_payload) :
  w_objs w !! dq = Some ob → do_payload ob = Queue q → do_vtable q = VT_queue →
  dq_items q = [] → dq_specific_q q = SQ dqsq → disposable w ob →
  w_objs w !! dqsq = Some obs → do_payload obs = Queue qs → do_vtable qs = VT_queue_specific_queue →
  dq_items qs = [] → dq_specific_q qs = SQ_null → disposable w obs →
  blocks_ok (map dqs_node (dqsq_contexts qs)) (w_bufs w) →
  dq ≠ dqsq → cur ≠ Some dq → cur ≠ Some dqsq →
  wp (queue_release cur dq)
    (λ _ w', w_objs w' = delete dq (delete dqsq (w_objs w)) ∧
      w_async w' = rev (destructor_calls (dqsq_contexts qs)) ++ w_async w ∧
      ∀ d b, d ∈ dqsq_contexts qs → dqs_node d = PBuf b 0 → w_bufs w' !! b = None) w.
Proof.
  intros Ho Hp Hvt Hi Hs (Hr & Hn & Hf & t & tb & Ht & Htb & Hg) Hos Hps Hvts His Hss (Hrs & Hns & Hfs & ts & tbs & Hts & Htbs & Hgs).
  intros Hb Hne Hc Hcs.
  assert (∀ x xb (y : nat) yb, w_objs w !! x = Some xb → do_ref_cnt xb = 0 → w_objs w !! y = Some yb →
    do_ref_cnt yb = DISPATCH_OBJECT_GLOBAL_REFCNT → y ≠ x) as Hdiff.
  { intros x xb y yb Hx Hx0 Hy Hyg ->. rewrite Hx in Hy. injection Hy as <-. rewrite Hx0 in Hyg. done. }
  pose proof (Hdiff _ _ _ _ Ho Hr Htb Hg) as Htne. pose proof (Hdiff _ _ _ _ Hos Hrs Htb Hg) as Htne'.
  pose proof (Hdiff _ _ _ _ Ho Hr Htbs Hgs) as Htsne. pose proof (Hdiff _ _ _ _ Hos Hrs Htbs Hgs) as Htsne'.
  unfold queue_release, QUEUE_DEPTH. change 64%nat with (S (S 62)). generalize 62%nat. intros n.
  apply (wp_release_last _ dq ob); [done|done|].
  set (ob1 := upd_ref _ ob). set (w1 := put_obj dq ob1 w).
  assert (w_objs w1 !! dq = Some ob1) as Ho1 by apply lookup_insert_eq.
  remember (S n) as m eqn:Em. cbn [queue_dispose]. subst m. wp_step. eapply wp_get_obj; [done|]. rewrite decide_False by (intros Hx; by apply Hx).
  cbv zeta. change (do_payload ob1) with (do_payload ob). rewrite Hp, Hvt. wp_step.
  unfold _dispatch_queue_dispose at 1. rewrite decide_False by congruence. wp_step.
  eapply wp_get_queue; [done|done|]. rewrite Hi. rewrite decide_False by tauto. wp_step.
  eapply wp_modify_queue; [done|done|]. rewrite Hs.
  set (ob2 := upd_payload _ ob1). set (w2 := put_obj dq ob2 w1).
  apply (wp_release_last _ dqsq obs); [simpl; by rewrite !lookup_insert_ne by done|done|].
  eapply wp_mono; [eapply (dispose_specific _ cur dqsq (upd_ref (λ c, c - 1) obs) qs ts tbs)|];
    try done; [apply lookup_insert_eq|simpl; by rewrite !lookup_insert_ne by done|].
  intros [] w3 (E1 & E2 & E3). cbv beta.
  eapply (wp_dealloc _ dq ob2 t tb); [|done|done| |done|done|].
  - rewrite E1. simpl. rewrite lookup_delete_ne by done. rewrite lookup_insert_ne by done. apply lookup_insert_eq.
  - rewrite E1. simpl. rewrite lookup_delete_ne by done. by rewrite !lookup_insert_ne by done.
  - split_and!; [|done|done]. simpl. rewrite E1. simpl. apply map_eq. intros x.
    destruct (decide (x = dq)) as [->|]; [by rewrite !lookup_delete_eq|]. rewrite !(lookup_delete_ne _ dq) by done.
    destruct (decide (x = dqsq)) as [->|]; [by rewrite !lookup_delete_eq|]. rewrite !(lookup_delete_ne _ dqsq) by done.
    by rewrite !lookup_insert_ne by done.
Qed.

(** Queue [10] with the contexts of queue [11]. *)
Definition with_contexts : world queue_payload :=
  let q := DQ VT_queue 0 1 [] 12 (SQ 11) "" [] in
  let qs := DQ VT_queue_specific_queue 0 UINT32_MAX [] 13 SQ_null "queue-specific"
              [DQS (PBuf 12 0) 7 100 1; DQS (PBuf 13 0) 8 200 0; DQS (PBuf 14 0) 9 300 2] in
  World (<[10%nat := DObj 0 (-1) DISPATCH_OBJECT_LISTLESS (Some 3%nat) 0 0 0 (Queue q)]>
        (<[11%nat := DObj 0 (-1) DISPATCH_OBJECT_LISTLESS (Some 5%nat) 0 0 0 (Queue qs)]> static_queues))
    (<[12%nat := [0]]> (<[13%nat := [0]]> (<[14%nat := [0]]> ∅))) 15 [] 0 [].

Lemma queue_disposal_runs_destructors_witness :
  destructor_calls [DQS (PBuf 12 0) 7 100 1; DQS (PBuf 13 0) 8 200 0; DQS (PBuf 14 0) 9 300 2]
    = [AFinalize (Some 2%nat) 100 1; AFinalize (Some 2%nat) 300 2] ∧
  wp (queue_release None 10) (λ _ w', w_async w' = [AFinalize (Some 2%nat) 300 2; AFinalize (Some 2%nat) 100 1]) with_contexts.
Proof.
  split; [done|]. eapply wp_mono.
  - eapply (queue_disposal_runs_destructors None 10 11); try reflexivity; try done.
    + split_and!; [done..|]. eexists _, _. split_and!; [done|by vm_compute|done].
    + split_and!; [done..|]. eexists _, _. split_and!; [done|by vm_compute|done].
    + split; [apply (bool_decide_unpack _); by vm_compute|]. repeat constructor; eexists _, _; (split; [done|]; by vm_compute).
  - intros [] w' (_ & E & _). rewrite E. reflexivity.
Defined.

(** ** Width *)

(** The width of a queue: 1 for 0 and 1; twice the number for any other
    positive number of threads, and twice a number of processors for a negative
    one.  It never wraps around, and its low bit is free for the barrier unless
    the queue is serial.  The argument is truncated to an [int]: the greatest
    [long], an old way to say "no limit", means the active processors. *)
Theorem set_width_bounds config width :
  (1 ≤ cc_max_active config < 2 ^ 31) → (1 ≤ cc_max_logical config < 2 ^ 31) → (1 ≤ cc_max_physical config < 2 ^ 31) →
  let v := set_width2_value config width in
  1 ≤ v ≤ UINT32_MAX ∧ (v = 1 ∨ Z.even v = true) ∧
  (0 ≤ width ≤ 1 → v = 1) ∧ (1 < width ≤ INT_MAX → v = 2 * width) ∧
  (width = LONG_MAX → v = 2 * cc_max_active config).
Proof.
  intros Ha Hl Hp v. unfold v, set_width2_value, DISPATCH_QUEUE_WIDTH_MAX_PHYSICAL_CPUS, DISPATCH_QUEUE_WIDTH_ACTIVE_CPUS.
  assert (- 2 ^ 31 ≤ i32 width < 2 ^ 31) as Hi by (apply (wrapS_range 32 width); lia).
  assert (0 ≤ width ≤ INT_MAX → i32 width = width) as Hsmall by (intros; apply wrapS_small; consts; lia).
  assert (width = LONG_MAX → i32 width = -1) as Hlong by by intros ->.
  assert (INT_MAX < LONG_MAX) by done.
  assert (∀ x, 1 ≤ x < 2 ^ 31 → u32 (x * 2) = 2 * x) as Hu by (intros; rewrite wrapU_small by (consts; lia); lia).
  assert (∀ x, Z.even (2 * x) = true) as He by (intros; by rewrite Z.even_mul).
  clear v. change UINT32_MAX with 4294967295. change (2 ^ 31) with 2147483648 in *. change INT_MAX with 2147483647 in *.
  generalize dependent (i32 width). intros w Hi Hsmall Hlong.
  repeat case_decide; rewrite ?Hu by lia; split_and!; first [lia | by left | by right].
Qed.

Lemma set_width_bounds_witness :
  set_width2_value (HwConfig 8 16 4) LONG_MAX = 2 * cc_max_active (HwConfig 8 16 4).
Proof. apply (set_width_bounds (HwConfig 8 16 4) LONG_MAX); simpl; lia || reflexivity. Defined.
