(* ===== verification/RootQueue.v ===== *)
(** * Root queues and their threads (src/queue.c)

    The list of a root queue: threads push on it, and the threads of its pool take
    items off it, many at a time.  A thread that takes an item exchanges the head
    with a mediator value, which keeps the others out until it has written the
    head again.  A push on an empty list, and an item taken off with others behind
    it, wake a thread up: one that waits on the thread mediator, or a new one while
    the pool has room.  A step is one atomic access to shared memory, with the
    private work before it. *)

From S2P Require Import Prelude Conc Queue.

(** ** The queue *)

Definition DISPATCH_HEAD_CONTENTION_SPINS : Z := 10000.

(** [dq_items_head]; the mediator is [(void * )~0ul]. *)
Inductive root_head : Type := H_null | H_mediator | H_item (n : nat).

Definition head_item (h : root_head) : option nat := match h with H_item n => Some n | _ => None end.

#[export] Instance root_head_eq_dec : EqDecision root_head.
Proof. solve_decision. Defined.

(** [links]: the items that exist, with [do_next].  The thread mediator is a
    counting semaphore ([Semaphore]): its value, and the signals sent to threads
    that are asleep in it.  [starting]: the threads that [pthread_create] has
    made and that have not begun.  The last three are the history: the items in
    the order they were pushed and taken off, and those that were called. *)
Record rqueue : Type := RQ {
  rq_head : root_head;
  rq_tail : option nat;
  links : gmap nat (option nat);
  next_item : nat;
  dgq_thread_pool_size : Z;
  mediator_value : Z;
  mediator_wakes : Z;
  starting : Z;
  rq_pushed : list nat;
  rq_taken : list nat;
  rq_called : list nat
}.

Definition set_rq_head x g := RQ x (rq_tail g) (links g) (next_item g) (dgq_thread_pool_size g) (mediator_value g) (mediator_wakes g) (starting g) (rq_pushed g) (rq_taken g) (rq_called g).
Definition set_rq_tail x g := RQ (rq_head g) x (links g) (next_item g) (dgq_thread_pool_size g) (mediator_value g) (mediator_wakes g) (starting g) (rq_pushed g) (rq_taken g) (rq_called g).
Definition set_links x g := RQ (rq_head g) (rq_tail g) x (next_item g) (dgq_thread_pool_size g) (mediator_value g) (mediator_wakes g) (starting g) (rq_pushed g) (rq_taken g) (rq_called g).
Definition set_next_item x g := RQ (rq_head g) (rq_tail g) (links g) x (dgq_thread_pool_size g) (mediator_value g) (mediator_wakes g) (starting g) (rq_pushed g) (rq_taken g) (rq_called g).
Definition set_pool_size x g := RQ (rq_head g) (rq_tail g) (links g) (next_item g) x (mediator_value g) (mediator_wakes g) (starting g) (rq_pushed g) (rq_taken g) (rq_called g).
Definition set_value x g := RQ (rq_head g) (rq_tail g) (links g) (next_item g) (dgq_thread_pool_size g) x (mediator_wakes g) (starting g) (rq_pushed g) (rq_taken g) (rq_called g).
Definition set_wakes x g := RQ (rq_head g) (rq_tail g) (links g) (next_item g) (dgq_thread_pool_size g) (mediator_value g) x (starting g) (rq_pushed g) (rq_taken g) (rq_called g).
Definition set_starting x g := RQ (rq_head g) (rq_tail g) (links g) (next_item g) (dgq_thread_pool_size g) (mediator_value g) (mediator_wakes g) x (rq_pushed g) (rq_taken g) (rq_called g).
Definition log_rpushed x g := RQ (rq_head g) (rq_tail g) (links g) (next_item g) (dgq_thread_pool_size g) (mediator_value g) (mediator_wakes g) (starting g) (rq_pushed g ++ x) (rq_taken g) (rq_called g).
Definition log_taken x g := RQ (rq_head g) (rq_tail g) (links g) (next_item g) (dgq_thread_pool_size g) (mediator_value g) (mediator_wakes g) (starting g) (rq_pushed g) (rq_taken g ++ [x]) (rq_called g).
Definition log_called x g := RQ (rq_head g) (rq_tail g) (links g) (next_item g) (dgq_thread_pool_size g) (mediator_value g) (mediator_wakes g) (starting g) (rq_pushed g) (rq_taken g) (rq_called g ++ [x]).

(** ** Program points *)

(** Where a push or a wake-up returns to: a client; a worker that is in a client's
    function, that has an item to call, that found no item, or that ends. *)
Inductive rkont : Type := RK_client | RK_func | RK_item (n : nat) | RK_none | RK_exit.

Inductive root_pc : Type :=
  | R_idle
  | R_crash (f : fault)
  (* _dispatch_queue_push_list2, _dispatch_queue_push_list_slow *)
  | R_xchg (k : rkont) (head tail : nat)
  | R_link (k : rkont) (prev head : nat)
  | R_head (k : rkont) (head : nat)
  (* _dispatch_queue_wakeup_global2, _dispatch_queue_wakeup_global_slow *)
  | R_probe (k : rkont)
  | R_signal (k : rkont)
  | R_pool (k : rkont)
  | R_take (k : rkont) (t_count : Z)
  | R_create (k : rkont)
  (* _dispatch_queue_concurrent_drain_one *)
  | R_start
  | R_null
  | R_spin (i : Z)
  | R_next (head : nat)
  | R_clear (head : nat)
  | R_cas (head : nat)
  | R_spin_link (head : nat)
  | R_set (head next : nat)
  (* _dispatch_worker_thread4, _dispatch_worker_thread *)
  | R_unborn
  | R_pop (item : nat)
  | R_func
  | R_wait
  | R_asleep
  | R_exit
  | R_check.

Inductive root_choice : Type :=
  | RC_go
  | RC_push (more : nat)
  | RC_timeout
  | RC_create (ok : bool).

Definition bad_item : root_pc := R_crash (UB "dispatch_object_s").

Definition rresume (k : rkont) : root_pc :=
  match k with
  | RK_client => R_idle
  | RK_func => R_func
  | RK_item n => R_pop n
  | RK_none => R_wait
  | RK_exit => R_unborn
  end.

(** ** Pushing *)

(** [more + 1] items, each linked to the next one. *)
Fixpoint new_items (n more : nat) (m : gmap nat (option nat)) : gmap nat (option nat) :=
  match more with
  | O => <[n := None]> m
  | S more => <[n := Some (S n)]> (new_items (S n) more m)
  end.

Definition push_begin (k : rkont) (more : nat) (g : rqueue) : root_pc * rqueue :=
  let n := next_item g in
  (R_xchg k n (n + more), set_next_item (S (n + more)) (set_links (new_items n more (links g)) g)).

Definition _dispatch_queue_push_list2 (p : root_pc) (g : rqueue) : option (root_pc * rqueue) :=
  match p with
  | R_xchg k head tail =>
      Some (match rq_tail g with Some prev => R_link k prev head | None => R_head k head end,
            log_rpushed (seq head (S (tail - head))) (set_rq_tail (Some tail) g))
  | R_link k prev head =>
      Some (match links g !! prev with
            | Some _ => (rresume k, set_links (<[prev := Some head]> (links g)) g)
            | None => (bad_item, g)
            end)
  | _ => None
  end.

Definition _dispatch_queue_push_list_slow (p : root_pc) (g : rqueue) : option (root_pc * rqueue) :=
  match p with
  | R_head k head => Some (R_probe k, set_rq_head (H_item head) g)
  | _ => None
  end.

(** ** Waking up *)

(** [dispatch_semaphore_signal] of the mediator: whether a thread was woken. *)
Definition mediator_signal (g : rqueue) : bool * rqueue :=
  let value := mediator_value g + 1 in
  let g := set_value value g in
  if decide (0 < value) then (false, g) else (true, set_wakes (mediator_wakes g + 1) g).

Definition _dispatch_queue_wakeup_global2 (p : root_pc) (g : rqueue) : option (root_pc * rqueue) :=
  match p with
  | R_probe k => Some (match rq_tail g with Some _ => R_signal k | None => rresume k end, g)
  | _ => None
  end.

Definition _dispatch_queue_wakeup_global_slow (c : root_choice) (p : root_pc) (g : rqueue)
  : option (root_pc * rqueue) :=
  match p with
  | R_signal k => let '(woken, g) := mediator_signal g in Some (if woken then rresume k else R_pool k, g)
  | R_pool k =>
      let t_count := dgq_thread_pool_size g in
      Some (if decide (t_count = 0) then rresume k else R_take k t_count, g)
  | R_take k t_count =>
      Some (if decide (dgq_thread_pool_size g = t_count)
            then (R_create k, set_pool_size (u32 (t_count - 1)) g) else (R_pool k, g))
  | R_create k =>
      match c with
      | RC_create true => Some (rresume k, set_starting (starting g + 1) g)
      | RC_create false => Some (p, g)
      | _ => None
      end
  | _ => None
  end.

(** ** Taking an item *)

Definition _dispatch_queue_concurrent_drain_one (p : root_pc) (g : rqueue) : option (root_pc * rqueue) :=
  match p with
  | R_start =>
      Some (match rq_head g with
            | H_null => R_null
            | H_mediator => R_spin DISPATCH_HEAD_CONTENTION_SPINS
            | H_item n => R_next n
            end, set_rq_head H_mediator g)
  | R_null => Some (R_wait, if decide (rq_head g = H_mediator) then set_rq_head H_null g else g)
  | R_spin i =>
      Some (if decide (rq_head g = H_mediator) then if decide (i - 1 = 0) then R_probe RK_none else R_spin (i - 1)
            else R_start, g)
  | R_next head =>
      Some (match links g !! head with
            | Some (Some next) => R_set head next
            | Some None => R_clear head
            | None => bad_item
            end, g)
  | R_clear head => Some (R_cas head, set_rq_head H_null g)
  | R_cas head =>
      Some (if decide (rq_tail g = Some head) then (R_pop head, log_taken head (set_rq_tail None g))
            else (R_spin_link head, g))
  | R_spin_link head =>
      Some (match links g !! head with
            | Some (Some next) => R_set head next
            | Some None => p
            | None => bad_item
            end, g)
  | R_set head next => Some (R_probe (RK_item head), log_taken head (set_rq_head (H_item next) g))
  | _ => None
  end.

(** ** Threads *)

(** [_dispatch_continuation_pop]: the item is freed and its function is called;
    the function may push. *)
Definition _dispatch_worker_thread4 (c : root_choice) (p : root_pc) (g : rqueue) : option (root_pc * rqueue) :=
  match p with
  | R_pop n =>
      Some (match links g !! n with
            | Some _ => (R_func, log_called n (set_links (delete n (links g)) g))
            | None => (bad_item, g)
            end)
  | R_func =>
      match c with
      | RC_push more => Some (push_begin RK_func more g)
      | RC_go => Some (R_start, g)
      | _ => None
      end
  | _ => None
  end.

(** [dispatch_semaphore_wait] on the mediator: a thread that finds no permit
    sleeps until a signal is sent to it or the time is over; it may give up only
    while the value is negative, and gives its count back. *)
Definition _dispatch_worker_thread (c : root_choice) (p : root_pc) (g : rqueue) : option (root_pc * rqueue) :=
  match p with
  | R_unborn => if decide (0 < starting g) then Some (R_start, set_starting (starting g - 1) g) else None
  | R_wait =>
      let value := mediator_value g - 1 in
      Some (if decide (0 <= value) then R_start else R_asleep, set_value value g)
  | R_asleep =>
      match c with
      | RC_timeout => if decide (mediator_value g < 0) then Some (R_exit, set_value (mediator_value g + 1) g) else None
      | _ => if decide (0 < mediator_wakes g) then Some (R_start, set_wakes (mediator_wakes g - 1) g) else None
      end
  | R_exit => Some (R_check, set_pool_size (u32 (dgq_thread_pool_size g + 1)) g)
  | R_check => Some (match rq_tail g with Some _ => R_probe RK_exit | None => R_unborn end, g)
  | _ => None
  end.

Definition root_tstep (c : root_choice) (i : nat) (p : root_pc) (g : rqueue) : option (root_pc * rqueue) :=
  match p with
  | R_idle => match c with RC_push more => Some (push_begin RK_client more g) | _ => None end
  | R_crash _ => None
  | R_xchg _ _ _ | R_link _ _ _ => _dispatch_queue_push_list2 p g
  | R_head _ _ => _dispatch_queue_push_list_slow p g
  | R_probe _ => _dispatch_queue_wakeup_global2 p g
  | R_signal _ | R_pool _ | R_take _ _ | R_create _ => _dispatch_queue_wakeup_global_slow c p g
  | R_start | R_null | R_spin _ | R_next _ | R_clear _ | R_cas _ | R_spin_link _ | R_set _ _ =>
      _dispatch_queue_concurrent_drain_one p g
  | R_pop _ | R_func => _dispatch_worker_thread4 c p g
  | R_unborn | R_wait | R_asleep | R_exit | R_check => _dispatch_worker_thread c p g
  end.
