(* ===== verification/RootInv.v ===== *)
(** * Root queues: the invariant *)

From S2P Require Import Prelude Conc Mpsc Queue RootQueue.

(** ** What a program point stands for *)

(** For the list ([Mpsc]). *)
Definition ropener (p : root_pc) : option nat :=
  match p with R_head _ n | R_next n | R_clear n | R_cas n | R_spin_link n | R_set n _ => Some n | _ => None end.

Definition rlinking (p : root_pc) : option (nat * nat) := match p with R_link _ prev n => Some (prev, n) | _ => None end.

Definition rkont_of (p : root_pc) : option rkont :=
  match p with
  | R_xchg k _ _ | R_link k _ _ | R_head k _ | R_probe k | R_signal k | R_pool k | R_take k _ | R_create k => Some k
  | _ => None
  end.

(** The item that was taken off and is not called yet. *)
Definition holds_item (p : root_pc) : option nat :=
  match p with
  | R_pop n => Some n
  | _ => match rkont_of p with Some (RK_item n) => Some n | _ => None end
  end.

(** A thread of the pool. *)
Definition kworker (k : rkont) : Z := match k with RK_client | RK_exit => 0 | _ => 1 end.

Definition worker (p : root_pc) : Z :=
  match p with
  | R_idle | R_crash _ | R_unborn | R_check => 0
  | R_xchg k _ _ | R_link k _ _ | R_head k _ | R_probe k | R_signal k | R_pool k | R_take k _ | R_create k => kworker k
  | _ => 1
  end.

Definition asleep (p : root_pc) : Z := match p with R_asleep => 1 | _ => 0 end.
Definition creating (p : root_pc) : Z := match p with R_create _ => 1 | _ => 0 end.

(** It is going to look at the list, or to make another thread look. *)
Definition looks (p : root_pc) : Z :=
  match p with R_probe _ | R_signal _ | R_create _ | R_start | R_spin _ | R_exit | R_check => 1 | _ => 0 end.

(** It is going to look whether the pool has room. *)
Definition pooling (p : root_pc) : Z := match p with R_pool _ | R_take _ _ => 1 | _ => 0 end.

Abbreviation rsum f ths := (tsum (λ _ (p : root_pc), f p) ths).
Abbreviation rthreads := (gmap nat root_pc).

(** The chain of a push that is not on the list yet. *)
Definition push_range (p : root_pc) : option (nat * nat) := match p with R_xchg _ h t => Some (h, t) | _ => None end.

Definition set_link (p : root_pc) : option (nat * nat) := match p with R_set h r => Some (h, r) | _ => None end.

(** ** The invariant *)

Section Invariant.
Context (g : rqueue) (ths : rthreads).

(** What is on the list. *)
Definition ritems : list nat := drop (length (rq_taken g)) (rq_pushed g).

(** The items: on the list, about to be pushed, taken off, called. *)
Record root_items : Prop := RItems {
  ri_list : mpsc ropener rlinking (λ x, links g !! x) (head_item (rq_head g)) (rq_tail g) ritems ths;
  ri_order : rq_pushed g = rq_taken g ++ ritems;
  ri_nodup : NoDup (rq_pushed g);
  ri_fresh : ∀ x, (next_item g ≤ x)%nat → links g !! x = None ∧ x ∉ rq_pushed g;
  ri_range : ∀ j p h t, ths !! j = Some p → push_range p = Some (h, t) →
    (h ≤ t < next_item g)%nat ∧ (∀ x, (h ≤ x < t)%nat → links g !! x = Some (Some (S x))) ∧ links g !! t = Some None ∧
    ∀ x, (h ≤ x ≤ t)%nat → x ∉ rq_pushed g;
  ri_disjoint : ∀ j k p q h t h' t', j ≠ k → ths !! j = Some p → ths !! k = Some q →
    push_range p = Some (h, t) → push_range q = Some (h', t') → (t < h' ∨ t' < h)%nat;
  ri_called : ∀ x, x ∈ rq_called g → x ∈ rq_taken g;
  ri_called_nodup : NoDup (rq_called g);
  ri_held : ∀ j p x, ths !! j = Some p → holds_item p = Some x → x ∈ rq_taken g ∧ x ∉ rq_called g ∧ is_Some (links g !! x);
  ri_held_uniq : ∀ j k p q x, ths !! j = Some p → ths !! k = Some q → holds_item p = Some x → holds_item q = Some x → j = k;
  ri_taken : ∀ x, x ∈ rq_taken g → x ∈ rq_called g ∨ ∃ j p, ths !! j = Some p ∧ holds_item p = Some x;
  ri_set : ∀ j p h r, ths !! j = Some p → set_link p = Some (h, r) → links g !! h = Some (Some r)
}.

(** The pool, the mediator, and who will take the head. *)
Record root_pool : Prop := RPool {
  rp_size : 0 ≤ dgq_thread_pool_size g ∧ 0 ≤ starting g ∧
    dgq_thread_pool_size g + starting g + rsum worker ths + rsum creating ths = MAX_THREAD_COUNT;
  rp_sema : 0 ≤ mediator_wakes g ∧ rsum asleep ths = Z.max 0 (- mediator_value g) + mediator_wakes g;
  rp_take : ∀ j k t, ths !! j = Some (R_take k t) → 0 < t ≤ MAX_THREAD_COUNT;
  rp_crash : ∀ j f, ths !! j ≠ Some (R_crash f);
  rp_wake : head_item (rq_head g) ≠ None →
    0 < rsum looks ths ∨ 0 < mediator_wakes g ∨ 0 < starting g ∨
    (0 < mediator_value g ∧ rsum asleep ths < rsum worker ths) ∨ (0 < dgq_thread_pool_size g ∧ 0 < rsum pooling ths)
}.
End Invariant.

Definition root_inv (g : rqueue) (ths : rthreads) : Prop := root_items g ths ∧ root_pool g ths.

(** ** Steps that leave the list alone *)

Section Items.
Context (g : rqueue) (ths : rthreads) (i : nat) (p : root_pc) (I : root_items g ths) (Hi : ths !! i = Some p).

Lemma items_neutral p' g' :
  head_item (rq_head g') = head_item (rq_head g) → rq_tail g' = rq_tail g → links g' = links g → next_item g' = next_item g →
  rq_pushed g' = rq_pushed g → rq_taken g' = rq_taken g → rq_called g' = rq_called g →
  ropener p' = ropener p → rlinking p' = rlinking p → holds_item p' = holds_item p → push_range p' = push_range p →
  (∀ h r, set_link p' = Some (h, r) → links g !! h = Some (Some r)) →
  root_items g' (<[i:=p']> ths).
Proof.
  intros Eh Et El En Ep Ek Ec Eo Eli Ehl Er Es. unfold ritems in *.
  assert (∀ j q, <[i:=p']> ths !! j = Some q → ∃ q', ths !! j = Some q' ∧ holds_item q' = holds_item q ∧ push_range q' = push_range q) as Hold.
  { intros j q [[<- <-]|[Hne Hj]]%lookup_insert_Some; [by exists p|by exists q]. }
  split; unfold ritems in *; rewrite ?Eh, ?Et, ?El, ?En, ?Ep, ?Ek, ?Ec; try apply I.
  - by apply (mpsc_neutral ropener rlinking (λ x, links g !! x) _ _ _ ths i p); [apply I|..].
  - intros j q h t Hj Hr. destruct (Hold j q Hj) as (q' & Hj' & _ & Er'). apply (ri_range _ _ I j q'); congruence.
  - intros j k q r h t h' t' Hne Hj Hk Hq Hr. destruct (Hold j q Hj) as (q' & Hj' & _ & Eq). destruct (Hold k r Hk) as (r' & Hk' & _ & Er').
    apply (ri_disjoint _ _ I j k q' r'); congruence.
  - intros j q x Hj Hx. destruct (Hold j q Hj) as (q' & Hj' & Eq & _). apply (ri_held _ _ I j q'); congruence.
  - intros j k q r x Hj Hk Hq Hr. destruct (Hold j q Hj) as (q' & Hj' & Eq & _). destruct (Hold k r Hk) as (r' & Hk' & Er' & _).
    apply (ri_held_uniq _ _ I j k q' r' x); congruence.
  - intros x Hx. destruct (ri_taken _ _ I x Hx) as [|(j & q & Hj & Hq)]; [by left|right].
    destruct (decide (j = i)) as [->|Hne]; [exists i, p'; rewrite lookup_insert_eq; split; congruence|].
    exists j, q. by rewrite lookup_insert_ne.
  - intros j q h r [[<- <-]|[Hne Hj]]%lookup_insert_Some Hs; [by apply Es|]. by apply (ri_set _ _ I j q).
Qed.

(** The links of the other threads' items are kept. *)
Lemma items_live x : x ∈ ritems g → is_Some (links g !! x).
Proof. apply (q_live _ _ _ _ _ _ _ (ri_list _ _ I)). Qed.

Lemma ritems_pushed x : x ∈ ritems g → x ∈ rq_pushed g.
Proof. intros Hx. rewrite (ri_order _ _ I). apply elem_of_app. by right. Qed.

Lemma taken_pushed x : x ∈ rq_taken g → x ∈ rq_pushed g.
Proof. intros Hx. rewrite (ri_order _ _ I). apply elem_of_app. by left. Qed.

Lemma taken_not_item x : x ∈ rq_taken g → x ∉ ritems g.
Proof. pose proof (ri_nodup _ _ I) as H. rewrite (ri_order _ _ I) in H. apply NoDup_app in H as (_ & H & _). apply H. Qed.

Lemma live_old x o : links g !! x = Some o → (x < next_item g)%nat.
Proof. intros Hx. destruct (decide (next_item g ≤ x)%nat) as [Hle|]; [|lia]. destruct (ri_fresh _ _ I x Hle). congruence. Qed.

Lemma pushed_old x : x ∈ rq_pushed g → (x < next_item g)%nat.
Proof. intros Hx. destruct (decide (next_item g ≤ x)%nat) as [Hle|]; [|lia]. by destruct (ri_fresh _ _ I x Hle). Qed.

Lemma new_items_lookup n more m x :
  new_items n more m !! x = if decide (n ≤ x < n + more)%nat then Some (Some (S x)) else if decide (x = n + more)%nat then Some None else m !! x.
Proof.
  revert n. induction more as [|more IH]; intros n; simpl.
  - rewrite decide_False by lia. destruct (decide (x = n)) as [->|Hne].
    + rewrite lookup_insert_eq. by rewrite decide_True by lia.
    + rewrite lookup_insert_ne by done. by rewrite decide_False by lia.
  - destruct (decide (x = n)) as [->|Hne].
    + rewrite lookup_insert_eq. by rewrite decide_True by lia.
    + rewrite lookup_insert_ne by done. rewrite IH.
      destruct (decide (S n ≤ x < S n + more)%nat); [by rewrite decide_True by lia|]. rewrite (decide_False (P:=(n ≤ x < _)%nat)) by lia.
      destruct (decide (x = S n + more)%nat); [by rewrite decide_True by lia|by rewrite decide_False by lia].
Qed.

Lemma begin_items k more : ropener p = None → rlinking p = None → holds_item p = None → (∀ n, k ≠ RK_item n) →
  root_items (push_begin k more g).2 (<[i:=(push_begin k more g).1]> ths).
Proof.
  intros Eo El Eh Hk. unfold push_begin. cbn [fst snd].
  assert (∀ x, (x < next_item g)%nat → new_items (next_item g) more (links g) !! x = links g !! x) as Hold.
  { intros x Hx. rewrite new_items_lookup. by rewrite !decide_False by lia. }
  assert (holds_item (R_xchg k (next_item g) (next_item g + more)) = None) as Eh'.
  { unfold holds_item. simpl. destruct k; try done. by destruct (Hk n). }
  split; unfold ritems in *; cbn [rq_head rq_tail links next_item rq_pushed rq_taken rq_called set_next_item set_links]; try apply I.
  - apply (mpsc_neutral ropener rlinking (λ x, links g !! x) _ _ _ ths i p); [apply I|done| |done..].
    intros x Hx. apply Hold, pushed_old, ritems_pushed, Hx.
  - intros x Hx. destruct (ri_fresh _ _ I x) as [Hn ?]; [lia|]. rewrite new_items_lookup. by rewrite !decide_False by lia.
  - intros j q h t [[<- <-]|[Hne Hj]]%lookup_insert_Some Hr.
    + injection Hr as <- <-. split_and!; try lia.
      * intros x Hx. rewrite new_items_lookup. by rewrite decide_True by lia.
      * rewrite new_items_lookup. rewrite decide_False by lia. by rewrite decide_True by lia.
      * intros x Hx Hin. apply pushed_old in Hin. lia.
    + destruct (ri_range _ _ I j q h t Hj Hr) as (? & H1 & H2 & H3). split_and!; try lia; [|by rewrite Hold by lia|done].
      intros x Hx. rewrite Hold by lia. by apply H1.
  - intros j k' q r h t h' t' Hne [[<- <-]|[Hnj Hj]]%lookup_insert_Some [[<- <-]|[Hnk Hk']]%lookup_insert_Some Hq Hr; try done.
    + injection Hq as <- <-. destruct (ri_range _ _ I k' r h' t' Hk' Hr). lia.
    + injection Hr as <- <-. destruct (ri_range _ _ I j q h t Hj Hq). lia.
    + by eapply (ri_disjoint _ _ I j k' q r).
  - intros j q x [[<- <-]|[Hne Hj]]%lookup_insert_Some Hx; [congruence|].
    destruct (ri_held _ _ I j q x Hj Hx) as (? & ? & [o Ho]). split_and!; try done. rewrite Hold; [by exists o|by apply (live_old x o)].
  - intros j k' q r x [[<- <-]|[Hnj Hj]]%lookup_insert_Some [[<- <-]|[Hnk Hk']]%lookup_insert_Some Hq Hr; try congruence.
    by eapply (ri_held_uniq _ _ I j k' q r x).
  - intros x Hx. destruct (ri_taken _ _ I x Hx) as [|(j & q & Hj & Hq)]; [by left|right]. exists j, q. split; [|done].
    rewrite lookup_insert_ne; [done|]. intros ->. rewrite Hi in Hj. congruence.
  - intros j q h r [[<- <-]|[Hne Hj]]%lookup_insert_Some Hs; [done|]. pose proof (ri_set _ _ I j q h r Hj Hs) as Hl.
    rewrite Hold; [done|by apply (live_old h _ Hl)].
Qed.
End Items.
