(* ===== verification/RootStep.v ===== *)
(** * Root queues: every step keeps the items in order *)

From S2P Require Import Prelude Conc Mpsc Queue RootQueue RootInv.

Lemma adj_seq a b h k : adj (seq h k) a b → b = S a ∧ (h ≤ a)%nat ∧ (S a < h + k)%nat.
Proof. intros (m & [-> Ha]%lookup_seq & [-> Hb]%lookup_seq). lia. Qed.

Lemma last_seq h k : last (seq h (S k)) = Some (h + k)%nat.
Proof. rewrite seq_S. by rewrite last_snoc. Qed.

Section Step.
Context (g : rqueue) (ths : rthreads) (i : nat) (I : root_items g ths).

(** The holders of items, when the step of [i] holds what it held. *)
Lemma held_keep p p' : ths !! i = Some p → holds_item p' = holds_item p →
  (∀ j q x, <[i:=p']> ths !! j = Some q → holds_item q = Some x → ∃ q', ths !! j = Some q' ∧ holds_item q' = Some x) ∧
  (∀ j q x, ths !! j = Some q → holds_item q = Some x → ∃ q', <[i:=p']> ths !! j = Some q' ∧ holds_item q' = Some x).
Proof.
  intros Hi E. split.
  - intros j q x [[<- <-]|[Hne Hj]]%lookup_insert_Some Hq; [exists p; split; congruence|by exists q].
  - intros j q x Hj Hq. destruct (decide (j = i)) as [->|Hne].
    + exists p'. rewrite lookup_insert_eq. split; [done|]. congruence.
    + exists q. by rewrite lookup_insert_ne.
Qed.

Lemma xchg_items k h t p' g' : ths !! i = Some (R_xchg k h t) → _dispatch_queue_push_list2 (R_xchg k h t) g = Some (p', g') → root_items g' (<[i:=p']> ths).
Proof.
  intros Hi Hs. cbn [_dispatch_queue_push_list2] in Hs. apply some_pair in Hs as [-> ->].
  destruct (ri_range _ _ I i _ h t Hi eq_refl) as (Hle & Hch & Hlt & Hnp).
  assert (∀ x, x ∈ seq h (S (t - h)) → (h ≤ x ≤ t)%nat) as Hin by (intros x ?%elem_of_seq; lia).
  set (p' := match rq_tail g with Some prev => R_link k prev h | None => R_head k h end).
  assert (holds_item p' = holds_item (R_xchg k h t)) as Eh by (subst p'; by destruct (rq_tail g)).
  assert (push_range p' = None ∧ set_link p' = None) as [Er Es] by (subst p'; by destruct (rq_tail g)).
  destruct (held_keep _ p' Hi Eh) as [Hold Hold']. pose proof (ri_order _ _ I) as Ho.
  assert (drop (length (rq_taken g)) (rq_pushed g ++ seq h (S (t - h))) = ritems g ++ seq h (S (t - h))) as Ei.
  { rewrite Ho at 1. rewrite <- app_assoc. by rewrite drop_app_length. }
  split; unfold ritems; cbn [rq_head rq_tail links next_item rq_pushed rq_taken rq_called log_rpushed set_rq_tail]; rewrite ?Ei; try apply I.
  - apply (mpsc_push_list ropener rlinking (λ x, links g !! x) (head_item (rq_head g)) (rq_tail g) (ritems g) ths i (R_xchg k h t)
      (ri_list _ _ I) Hi p' (λ x, links g !! x) h t); try done.
    + rewrite last_seq. f_equal. lia.
    + apply NoDup_seq.
    + intros x Hx Hx'. apply (Hnp x); [by apply Hin|by apply (ritems_pushed g ths)].
    + intros a b (-> & ? & ?)%adj_seq. apply Hch. lia.
    + subst p'. by destruct (rq_tail g).
  - rewrite app_assoc, <- Ho. done.
  - apply NoDup_app. split_and!; [apply I| |apply NoDup_seq]. intros x Hx Hx'. by apply (Hnp x); [apply Hin|].
  - intros x Hx. destruct (ri_fresh _ _ I x Hx). split; [done|]. intros [?|?%Hin]%elem_of_app; [done|lia].
  - intros j q h' t' [[<- <-]|[Hne Hj]]%lookup_insert_Some Hr; [congruence|].
    destruct (ri_range _ _ I j q h' t' Hj Hr) as (? & ? & ? & Hn'). split_and!; try done; try lia.
    intros x Hx [?|?%Hin]%elem_of_app; [by apply (Hn' x)|].
    destruct (ri_disjoint _ _ I i j _ q h t h' t' Hne Hi Hj eq_refl Hr); lia.
  - intros j k' q r a b a' b' Hne [[<- <-]|[Hnj Hj]]%lookup_insert_Some [[<- <-]|[Hnk Hk']]%lookup_insert_Some Hq Hr; try congruence.
    by eapply (ri_disjoint _ _ I j k' q r).
  - intros j q x Hj Hx. destruct (Hold j q x Hj Hx) as (q' & Hj' & Hq'). by apply (ri_held _ _ I j q').
  - intros j k' q r x Hj Hk' Hq Hr. destruct (Hold j q x Hj Hq) as (q' & ? & ?). destruct (Hold k' r x Hk' Hr) as (r' & ? & ?).
    by apply (ri_held_uniq _ _ I j k' q' r' x).
  - intros x Hx. destruct (ri_taken _ _ I x Hx) as [|(j & q & Hj & Hq)]; [by left|right].
    destruct (Hold' j q x Hj Hq) as (q' & ? & ?). by exists j, q'.
  - intros j q a b [[<- <-]|[Hne Hj]]%lookup_insert_Some Hs; [congruence|]. by apply (ri_set _ _ I j q).
Qed.
(** A step that changes the head, or a link of an item on the list. *)
Lemma items_relink p p' g' : ths !! i = Some p →
  mpsc ropener rlinking (λ x, links g' !! x) (head_item (rq_head g')) (rq_tail g) (ritems g) (<[i:=p']> ths) →
  (∀ x, links g' !! x = links g !! x ∨ x ∈ ritems g ∧ links g !! x = Some None) →
  rq_tail g' = rq_tail g → next_item g' = next_item g → rq_pushed g' = rq_pushed g → rq_taken g' = rq_taken g → rq_called g' = rq_called g →
  holds_item p' = holds_item p → push_range p' = push_range p → set_link p' = None →
  root_items g' (<[i:=p']> ths).
Proof.
  intros Hi Hm Hl Et En Ep Ek Ec Eh Er Es. destruct (held_keep _ p' Hi Eh) as [Hold Hold'].
  assert (∀ x, x ∉ ritems g → links g' !! x = links g !! x) as Hl' by (intros x Hx; by destruct (Hl x) as [|[? _]]).
  assert (∀ j q h t, <[i:=p']> ths !! j = Some q → push_range q = Some (h, t) → ∃ q', ths !! j = Some q' ∧ push_range q' = Some (h, t)) as Hr.
  { intros j q h t [[<- <-]|[Hne Hj]]%lookup_insert_Some Hq; [exists p; split; congruence|by exists q]. }
  split; unfold ritems in *; rewrite ?Et, ?En, ?Ep, ?Ek, ?Ec; try apply I; try done.
  - intros x Hx. destruct (ri_fresh _ _ I x Hx) as [? Hn]. split; [|done]. rewrite Hl'; [done|].
    intros Hin. by apply Hn, (ritems_pushed g ths I).
  - intros j q h t Hj Hq. destruct (Hr j q h t Hj Hq) as (q' & Hj' & Hq'). destruct (ri_range _ _ I j q' h t Hj' Hq') as (? & H1 & H2 & H3).
    assert (∀ x, (h ≤ x ≤ t)%nat → links g' !! x = links g !! x) as He.
    { intros x Hx. apply Hl'. intros Hin. by apply (H3 x Hx), (ritems_pushed g ths I). }
    split_and!; try lia; [|by rewrite He by lia|done]. intros x Hx. rewrite He by lia. by apply H1.
  - intros j k q r h t h' t' Hne Hj Hk Hq Hq'. destruct (Hr j q h t Hj Hq) as (q' & ? & ?). destruct (Hr k r h' t' Hk Hq') as (r' & ? & ?).
    by eapply (ri_disjoint _ _ I j k q' r').
  - intros j q x Hj Hx. destruct (Hold j q x Hj Hx) as (q' & Hj' & Hq'). destruct (ri_held _ _ I j q' x Hj' Hq') as (Ht & ? & ?).
    split_and!; try done. rewrite Hl'; [done|]. by apply (taken_not_item g ths I).
  - intros j k q r x Hj Hk Hq Hq'. destruct (Hold j q x Hj Hq) as (q' & ? & ?). destruct (Hold k r x Hk Hq') as (r' & ? & ?).
    by apply (ri_held_uniq _ _ I j k q' r' x).
  - intros x Hx. destruct (ri_taken _ _ I x Hx) as [|(j & q & Hj & Hq)]; [by left|right].
    destruct (Hold' j q x Hj Hq) as (q' & ? & ?). by exists j, q'.
  - intros j q a b [[<- <-]|[Hne Hj]]%lookup_insert_Some Hs; [congruence|]. pose proof (ri_set _ _ I j q a b Hj Hs).
    destruct (Hl a) as [->|[_ ?]]; congruence.
Qed.

Lemma link_items k prev h p' g' : ths !! i = Some (R_link k prev h) → _dispatch_queue_push_list2 (R_link k prev h) g = Some (p', g') →
  root_items g' (<[i:=p']> ths).
Proof.
  intros Hi Hs. cbn [_dispatch_queue_push_list2] in Hs.
  destruct (q_link _ _ _ _ _ _ _ (ri_list _ _ I) i _ prev h Hi eq_refl) as [Hadj Hn]. cbv beta in Hn. rewrite Hn in Hs. apply some_pair in Hs as [-> ->].
  assert (ropener (rresume k) = None ∧ rlinking (rresume k) = None ∧ holds_item (rresume k) = holds_item (R_link k prev h) ∧
    push_range (rresume k) = None ∧ set_link (rresume k) = None) as (E1 & E2 & E3 & E4 & E5) by by destruct k.
  apply (items_relink (R_link k prev h)); try done; cbn [links set_links rq_head].
  - apply (mpsc_link ropener rlinking (λ x, links g !! x) _ _ _ ths i (R_link k prev h) (ri_list _ _ I) Hi _ _ prev h); try done.
    + by rewrite lookup_insert_eq.
    + intros x Hx _. by rewrite lookup_insert_ne.
  - intros x. destruct (decide (x = prev)) as [->|Hne]; [right|left; by rewrite lookup_insert_ne]. split; [by eapply adj_l|done].
Qed.

Lemma rhead_items k h p' g' : ths !! i = Some (R_head k h) → _dispatch_queue_push_list_slow (R_head k h) g = Some (p', g') →
  root_items g' (<[i:=p']> ths).
Proof.
  intros Hi Hs. cbn [_dispatch_queue_push_list_slow] in Hs. apply some_pair in Hs as [-> ->].
  apply (items_relink (R_head k h)); try done; [|by left].
  by apply (mpsc_set_head ropener rlinking (λ x, links g !! x) (head_item (rq_head g)) _ _ ths i (R_head k h) (ri_list _ _ I) Hi).
Qed.

(** The first item is taken off: by then the thread holds it. *)
Lemma taken_items p p' g' h : ths !! i = Some p → ropener p = Some h →
  mpsc ropener rlinking (λ x, links g !! x) (head_item (rq_head g')) (rq_tail g') (tail (ritems g)) (<[i:=p']> ths) →
  links g' = links g → next_item g' = next_item g → rq_pushed g' = rq_pushed g → rq_taken g' = rq_taken g ++ [h] → rq_called g' = rq_called g →
  holds_item p = None → holds_item p' = Some h → push_range p' = None → set_link p' = None →
  root_items g' (<[i:=p']> ths).
Proof.
  intros Hi Ho Hm El En Ep Ek Ec Eh Eh' Er Es. destruct (opener_alone ropener rlinking _ _ _ _ ths i p (ri_list _ _ I) Hi h Ho) as (_ & Hh & _).
  assert (ritems g = h :: tail (ritems g)) as Ei by (destruct (ritems g); [done|by injection Hh as ->]).
  pose proof (ri_order _ _ I) as Hor. rewrite Ei in Hor.
  assert (drop (length (rq_taken g ++ [h])) (rq_pushed g) = tail (ritems g)) as Ed.
  { rewrite Hor. replace (rq_taken g ++ h :: tail (ritems g)) with ((rq_taken g ++ [h]) ++ tail (ritems g)) by by rewrite <- app_assoc.
    by rewrite drop_app_length. }
  assert (h ∉ rq_taken g ∧ h ∈ ritems g) as [Hnt Hit].
  { split; [|rewrite Ei; by left]. intros Ht. apply (taken_not_item g ths I h Ht). rewrite Ei. by left. }
  split; unfold ritems; rewrite ?El, ?En, ?Ep, ?Ek, ?Ec, ?Ed; try apply I; try done.
  - rewrite <- app_assoc. done.
  - intros j q a t [[<- <-]|[Hne Hj]]%lookup_insert_Some Hr; [congruence|]. by apply (ri_range _ _ I j q).
  - intros j k q r a t a' t' Hne [[<- <-]|[Hnj Hj]]%lookup_insert_Some [[<- <-]|[Hnk Hk]]%lookup_insert_Some Hq Hr; try congruence.
    by eapply (ri_disjoint _ _ I j k q r).
  - intros x Hx. apply elem_of_app. left. by apply (ri_called _ _ I).
  - intros j q x [[<- <-]|[Hne Hj]]%lookup_insert_Some Hx.
    + rewrite Eh' in Hx. injection Hx as <-. split_and!; [apply elem_of_app; right; by left| |by apply (items_live g ths I)].
      intros Hc. by apply Hnt, (ri_called _ _ I).
    + destruct (ri_held _ _ I j q x Hj Hx) as (? & ? & ?). split_and!; try done. apply elem_of_app. by left.
  - intros j k q r x [[<- <-]|[Hnj Hj]]%lookup_insert_Some [[<- <-]|[Hnk Hk]]%lookup_insert_Some Hq Hr; try done.
    + rewrite Eh' in Hq. injection Hq as <-. by destruct (ri_held _ _ I k r h Hk Hr).
    + rewrite Eh' in Hr. injection Hr as <-. by destruct (ri_held _ _ I j q h Hj Hq).
    + by eapply (ri_held_uniq _ _ I j k q r x).
  - intros x [Hx| ->%list_elem_of_singleton]%elem_of_app.
    + destruct (ri_taken _ _ I x Hx) as [|(j & q & Hj & Hq)]; [by left|right]. exists j, q. rewrite lookup_insert_ne; [done|]. intros ->. congruence.
    + right. exists i, p'. by rewrite lookup_insert_eq.
  - intros j q a b [[<- <-]|[Hne Hj]]%lookup_insert_Some Hs; [congruence|]. by apply (ri_set _ _ I j q).
Qed.
Lemma start_items p' g' : ths !! i = Some R_start → _dispatch_queue_concurrent_drain_one R_start g = Some (p', g') →
  root_items g' (<[i:=p']> ths).
Proof.
  intros Hi Hs. cbn [_dispatch_queue_concurrent_drain_one] in Hs. apply some_pair in Hs as [-> ->].
  destruct (rq_head g) as [| |n] eqn:Eh; try (apply (items_neutral g ths i R_start I Hi); try done; by rewrite Eh).
  apply (items_relink R_start); try done; [|by left].
  apply (mpsc_take_head ropener rlinking (λ x, links g !! x) (head_item (rq_head g)) _ _ ths i R_start (ri_list _ _ I) Hi _ n); try done.
  by rewrite Eh.
Qed.

(** The thread that holds the first item finds the head null, or the mediator. *)
Lemma owner_head p h : ths !! i = Some p → ropener p = Some h → head_item (rq_head g) = None ∧ h ∈ ritems g ∧ is_Some (links g !! h).
Proof.
  intros Hi Ho. destruct (opener_alone ropener rlinking _ _ _ _ ths i p (ri_list _ _ I) Hi h Ho) as (? & Hh & _).
  assert (h ∈ ritems g) as Hin by (destruct (ritems g); [done|injection Hh as ->; by left]).
  split_and!; [done|done|by apply (items_live g ths I)].
Qed.

Lemma drain_items p h p' g' : ths !! i = Some p → ropener p = Some h → p ≠ R_start →
  _dispatch_queue_concurrent_drain_one p g = Some (p', g') → root_items g' (<[i:=p']> ths).
Proof.
  intros Hi Ho Hns Hs. destruct (owner_head p h Hi Ho) as (Eh & Hin & [o Hl]).
  destruct p as [|f|k a t|k prev a|k a|k|k|k|k t|k| | |s|a|a|a|a|a r| |n| | | | |]; try done; injection Ho as ->; cbn [_dispatch_queue_concurrent_drain_one] in Hs.
  - rewrite Hl in Hs. destruct o as [r|]; apply some_pair in Hs as [-> ->]; apply (items_neutral g ths i _ I Hi); try done.
    by intros h' r' [= <- <-].
  - apply some_pair in Hs as [-> ->]. by apply (items_neutral g ths i _ I Hi).
  - case_decide as Et; apply some_pair in Hs as [-> ->]; [|by apply (items_neutral g ths i _ I Hi)].
    destruct (mpsc_last ropener rlinking _ _ _ _ ths i _ (ri_list _ _ I) Hi (R_pop h) h Et eq_refl) as [Hm Ei]; try done.
    apply (taken_items (R_cas h) _ _ h); try done. cbn [rq_head rq_tail log_taken set_rq_tail]. rewrite Eh, Ei. exact Hm.
  - rewrite Hl in Hs. destruct o as [r|]; apply some_pair in Hs as [-> ->]; apply (items_neutral g ths i _ I Hi); try done.
    by intros h' r' [= <- <-].
  - apply some_pair in Hs as [-> ->]. pose proof (ri_set _ _ I i _ h r Hi eq_refl) as Hr.
    destruct (first_next ropener rlinking _ _ _ _ ths (ri_list _ _ I) h r) as [rest Ei]; [|done|].
    { by destruct (opener_alone ropener rlinking _ _ _ _ ths i _ (ri_list _ _ I) Hi h eq_refl) as (? & Hh & _). }
    apply (taken_items (R_set h r) _ _ h); try done. cbn [rq_head rq_tail log_taken set_rq_head head_item].
    assert (mpsc ropener rlinking (λ x, links g !! x) (head_item (rq_head g)) (rq_tail g) (r :: rest) (<[i:=R_spin_link r]> ths)) as Hm.
    { by apply (mpsc_advance ropener rlinking _ _ _ _ ths i _ (ri_list _ _ I) Hi (R_spin_link r) _ h r rest). }
    rewrite Ei. simpl. rewrite <- (insert_insert_eq ths i _ (R_spin_link r)).
    by apply (mpsc_set_head ropener rlinking _ _ _ _ _ i (R_spin_link r) Hm (lookup_insert_eq ths i _)).
Qed.

(** The item goes, and its function is called. *)
Lemma pop_items n c p' g' : ths !! i = Some (R_pop n) → _dispatch_worker_thread4 c (R_pop n) g = Some (p', g') →
  root_items g' (<[i:=p']> ths).
Proof.
  intros Hi Hs. destruct (ri_held _ _ I i _ n Hi eq_refl) as (Hnt & Hnc & [o Hl]). cbn [_dispatch_worker_thread4] in Hs.
  rewrite Hl in Hs. apply some_pair in Hs as [-> ->].
  pose proof (taken_not_item g ths I n Hnt) as Hni. pose proof (taken_pushed g ths I n Hnt) as Hnp.
  assert (∀ x, x ≠ n → links (log_called n (set_links (delete n (links g)) g)) !! x = links g !! x) as He.
  { intros x Hx. simpl. by rewrite lookup_delete_ne. }
  split; unfold ritems; cbn [rq_head rq_tail next_item rq_pushed rq_taken rq_called log_called set_links]; try apply I.
  - apply (mpsc_neutral ropener rlinking (λ x, links g !! x) _ _ _ ths i (R_pop n)); [apply I|done| |done..].
    intros x Hx. apply He. by intros ->.
  - intros x Hx. destruct (ri_fresh _ _ I x Hx). split; [|done]. rewrite He; [done|]. by intros ->.
  - intros j q h t [[<- <-]|[Hne Hj]]%lookup_insert_Some Hr; [done|]. destruct (ri_range _ _ I j q h t Hj Hr) as (? & H1 & H2 & H3).
    assert (∀ x, (h ≤ x ≤ t)%nat → x ≠ n) as Hx by (intros x Hx ->; by apply (H3 n)).
    split_and!; try lia; [|by rewrite He by (apply Hx; lia)|done]. intros x Hx'. rewrite He by (apply Hx; lia). by apply H1.
  - intros j k q r a t a' t' Hne [[<- <-]|[Hnj Hj]]%lookup_insert_Some [[<- <-]|[Hnk Hk]]%lookup_insert_Some Hq Hr; try done.
    by eapply (ri_disjoint _ _ I j k q r).
  - intros x [Hx| ->%list_elem_of_singleton]%elem_of_app; [by apply (ri_called _ _ I)|done].
  - apply NoDup_app. split_and!; [apply I| |apply NoDup_singleton]. by intros x Hx ->%list_elem_of_singleton.
  - intros j q x [[<- <-]|[Hne Hj]]%lookup_insert_Some Hx; [done|]. destruct (ri_held _ _ I j q x Hj Hx) as (? & ? & ?).
    assert (x ≠ n) as Hxn by (intros ->; apply Hne; by eapply (ri_held_uniq _ _ I i j _ q n)).
    split_and!; [done| |by rewrite He]. by intros [?|?%list_elem_of_singleton]%elem_of_app.
  - intros j k q r x [[<- <-]|[Hnj Hj]]%lookup_insert_Some [[<- <-]|[Hnk Hk]]%lookup_insert_Some Hq Hr; try done.
    by eapply (ri_held_uniq _ _ I j k q r x).
  - intros x Hx. destruct (ri_taken _ _ I x Hx) as [?|(j & q & Hj & Hq)]; [left; apply elem_of_app; by left|].
    destruct (decide (j = i)) as [->|Hne]; [left; apply elem_of_app; right; rewrite Hi in Hj; injection Hj as <-; injection Hq as <-; by left|].
    right. exists j, q. by rewrite lookup_insert_ne.
  - intros j q a b [[<- <-]|[Hne Hj]]%lookup_insert_Some Hs; [done|]. pose proof (ri_set _ _ I j q a b Hj Hs). rewrite He; [done|].
    intros ->. destruct q; try done. injection Hs as -> ->. apply Hni.
    by destruct (opener_alone ropener rlinking _ _ _ _ ths j _ (ri_list _ _ I) Hj n eq_refl) as (_ & Hh & _); destruct (ritems g); [|injection Hh as ->; left].
Qed.

(** A step that leaves the items alone. *)
Ltac neutral Hi := apply (items_neutral _ _ _ _ I Hi); try done.

(** Every step. *)
Lemma root_items_step c p p' g' : ths !! i = Some p → root_tstep c i p g = Some (p', g') → root_items g' (<[i:=p']> ths).
Proof.
  intros Hi Hs. destruct p as [|f|k a t|k prev a|k a|k|k|k|k t|k| | |s|a|a|a|a|a r| |n| | | | |]; cbn [root_tstep] in Hs; try done.
  - destruct c; try done. injection Hs as <- <-. by apply (begin_items g ths i R_idle I Hi RK_client).
  - by eapply xchg_items.
  - by eapply link_items.
  - by eapply rhead_items.
  - cbn [_dispatch_queue_wakeup_global2] in Hs. apply some_pair in Hs as [-> ->]. destruct (rq_tail g), k; neutral Hi.
  - cbn [_dispatch_queue_wakeup_global_slow] in Hs. unfold mediator_signal in Hs. case_decide; apply some_pair in Hs as [-> ->]; destruct k; neutral Hi.
  - cbn [_dispatch_queue_wakeup_global_slow] in Hs. apply some_pair in Hs as [-> ->]. case_decide; destruct k; neutral Hi.
  - cbn [_dispatch_queue_wakeup_global_slow] in Hs. case_decide; apply some_pair in Hs as [-> ->]; destruct k; neutral Hi.
  - cbn [_dispatch_queue_wakeup_global_slow] in Hs. destruct c as [| | |[]]; try done; apply some_pair in Hs as [-> ->]; destruct k; neutral Hi.
  - by apply start_items.
  - cbn [_dispatch_queue_concurrent_drain_one] in Hs. apply some_pair in Hs as [-> ->]. case_decide as E; neutral Hi. by rewrite E.
  - cbn [_dispatch_queue_concurrent_drain_one] in Hs. apply some_pair in Hs as [-> ->]. repeat case_decide; neutral Hi.
  - by eapply drain_items.
  - by eapply drain_items.
  - by eapply drain_items.
  - by eapply drain_items.
  - by eapply drain_items.
  - cbn [_dispatch_worker_thread] in Hs. case_decide; [|done]. apply some_pair in Hs as [-> ->]. neutral Hi.
  - by eapply pop_items.
  - destruct c; try done; cbn [_dispatch_worker_thread4] in Hs.
    + apply some_pair in Hs as [-> ->]. neutral Hi.
    + injection Hs as <- <-. by apply (begin_items g ths i R_func I Hi RK_func).
  - cbn [_dispatch_worker_thread] in Hs. apply some_pair in Hs as [-> ->]. case_decide; neutral Hi.
  - cbn [_dispatch_worker_thread] in Hs. destruct c; (case_decide; [|done]); apply some_pair in Hs as [-> ->]; neutral Hi.
  - cbn [_dispatch_worker_thread] in Hs. apply some_pair in Hs as [-> ->]. neutral Hi.
  - cbn [_dispatch_worker_thread] in Hs. apply some_pair in Hs as [-> ->]. destruct (rq_tail g); neutral Hi.
Qed.
End Step.
