(* ===== verification/RootPool.v ===== *)
(** * Root queues: every step keeps the pool, and someone to look at the head *)

From S2P Require Import Prelude Conc Mpsc Queue RootQueue RootInv RootStep.

(** ** Weights *)

Lemma root_weights p : 0 ≤ worker p ≤ 1 ∧ 0 ≤ asleep p ≤ worker p ∧ 0 ≤ creating p ≤ 1 ∧ 0 ≤ looks p ≤ 1 ∧ 0 ≤ pooling p ≤ 1.
Proof. destruct p as [| |[]|[]|[]|[]|[]|[]|[]|[]| | | | | | | | | | | | | | |]; simpl; lia. Qed.

Lemma rsum_ge (f : root_pc → Z) (ths : rthreads) i p : (∀ q, 0 ≤ f q) → ths !! i = Some p → 0 ≤ f p ≤ rsum f ths.
Proof. intros Hf Hi. split; [done|]. by apply (tsum_ge (λ _ p, f p) ths i p). Qed.

(** Who makes a thread looks. *)
Lemma creating_looks (ths : rthreads) : rsum creating ths ≤ rsum looks ths.
Proof. apply tsum_le. intros j q _. destruct q; simpl; lia. Qed.

Section Step.
Context (g : rqueue) (ths : rthreads) (i : nat) (I : root_items g ths) (P : root_pool g ths).

Lemma root_sums p : ths !! i = Some p →
  0 ≤ worker p ≤ rsum worker ths ∧ 0 ≤ asleep p ≤ rsum asleep ths ∧ 0 ≤ creating p ≤ rsum creating ths ∧
  0 ≤ looks p ≤ rsum looks ths ∧ 0 ≤ pooling p ≤ rsum pooling ths ∧ rsum asleep ths ≤ rsum worker ths.
Proof.
  intros Hi. split_and!; try (apply (rsum_ge _ ths i p); [|done]; intros q; pose proof (root_weights q); lia).
  apply tsum_le. intros j q _. pose proof (root_weights q). lia.
Qed.

(** While the head is there, the list is not empty. *)
Lemma head_tail : head_item (rq_head g) ≠ None → is_Some (rq_tail g).
Proof.
  intros Hh. destruct (head_item (rq_head g)) as [n|] eqn:E; [|done].
  pose proof (q_head _ _ _ _ _ _ _ (ri_list _ _ I) n E) as Hd. rewrite (q_tail _ _ _ _ _ _ _ (ri_list _ _ I)).
  destruct (last (ritems g)) eqn:El; [done|]. apply last_None in El. by rewrite El in Hd.
Qed.

(** No step uses an item that is gone. *)
Lemma root_step_ok c p p' g' f : ths !! i = Some p → root_tstep c i p g = Some (p', g') → p' ≠ R_crash f.
Proof.
  intros Hi Hs. pose proof (rp_crash _ _ P i) as Hc. destruct p as [|f'|k a t|k prev a|k a|k|k|k|k t|k| | |s|a|a|a|a|a r| |n| | | | |]; cbn [root_tstep] in Hs; try done.
  - by destruct c; try done; injection Hs as <- <-.
  - cbn [_dispatch_queue_push_list2] in Hs. apply some_pair in Hs as [-> _]. by destruct (rq_tail g).
  - cbn [_dispatch_queue_push_list2] in Hs. destruct (q_link _ _ _ _ _ _ _ (ri_list _ _ I) i _ prev a Hi eq_refl) as [_ Hn]. cbv beta in Hn.
    rewrite Hn in Hs. apply some_pair in Hs as [-> _]. by destruct k.
  - by apply some_pair in Hs as [-> _].
  - cbn [_dispatch_queue_wakeup_global2] in Hs. apply some_pair in Hs as [-> _]. by destruct (rq_tail g), k.
  - cbn [_dispatch_queue_wakeup_global_slow] in Hs. unfold mediator_signal in Hs. by case_decide; apply some_pair in Hs as [-> _]; destruct k.
  - cbn [_dispatch_queue_wakeup_global_slow] in Hs. apply some_pair in Hs as [-> _]. by case_decide; destruct k.
  - cbn [_dispatch_queue_wakeup_global_slow] in Hs. by case_decide; apply some_pair in Hs as [-> _].
  - cbn [_dispatch_queue_wakeup_global_slow] in Hs. by destruct c as [| | |[]]; try done; apply some_pair in Hs as [-> _]; destruct k.
  - cbn [_dispatch_queue_concurrent_drain_one] in Hs. apply some_pair in Hs as [-> _]. by destruct (rq_head g).
  - cbn [_dispatch_queue_concurrent_drain_one] in Hs. by apply some_pair in Hs as [-> _].
  - cbn [_dispatch_queue_concurrent_drain_one] in Hs. apply some_pair in Hs as [-> _]. by repeat case_decide.
  - destruct (owner_head g ths i I _ a Hi eq_refl) as (_ & _ & [o Hl]). cbn [_dispatch_queue_concurrent_drain_one] in Hs.
    rewrite Hl in Hs. by destruct o; apply some_pair in Hs as [-> _].
  - by apply some_pair in Hs as [-> _].
  - cbn [_dispatch_queue_concurrent_drain_one] in Hs. by case_decide; apply some_pair in Hs as [-> _].
  - destruct (owner_head g ths i I _ a Hi eq_refl) as (_ & _ & [o Hl]). cbn [_dispatch_queue_concurrent_drain_one] in Hs.
    rewrite Hl in Hs. by destruct o; apply some_pair in Hs as [-> _].
  - by apply some_pair in Hs as [-> _].
  - cbn [_dispatch_worker_thread] in Hs. case_decide; [|done]. by apply some_pair in Hs as [-> _].
  - destruct (ri_held _ _ I i _ n Hi eq_refl) as (_ & _ & [o Hl]). cbn [_dispatch_worker_thread4] in Hs. rewrite Hl in Hs. by apply some_pair in Hs as [-> _].
  - by destruct c; try done; cbn [_dispatch_worker_thread4] in Hs; apply some_pair in Hs as [-> _].
  - cbn [_dispatch_worker_thread] in Hs. apply some_pair in Hs as [-> _]. by case_decide.
  - cbn [_dispatch_worker_thread] in Hs. by destruct c; (case_decide; [|done]); apply some_pair in Hs as [-> _].
  - by apply some_pair in Hs as [-> _].
  - cbn [_dispatch_worker_thread] in Hs. apply some_pair in Hs as [-> _]. by destruct (rq_tail g).
Qed.

(** What a step of the pool has to show. *)
Lemma pool_update p p' g' : ths !! i = Some p → (∀ f, p' ≠ R_crash f) →
  (∀ k t, p' = R_take k t → 0 < t ≤ MAX_THREAD_COUNT) →
  0 ≤ dgq_thread_pool_size g' → 0 ≤ starting g' →
  dgq_thread_pool_size g' + starting g' + worker p' + creating p' = dgq_thread_pool_size g + starting g + worker p + creating p →
  0 ≤ mediator_wakes g' →
  asleep p' - asleep p = Z.max 0 (- mediator_value g') + mediator_wakes g' - Z.max 0 (- mediator_value g) - mediator_wakes g →
  (head_item (rq_head g') ≠ None →
    0 < rsum looks (<[i:=p']> ths) ∨ 0 < mediator_wakes g' ∨ 0 < starting g' ∨
    (0 < mediator_value g' ∧ rsum asleep (<[i:=p']> ths) < rsum worker (<[i:=p']> ths)) ∨
    (0 < dgq_thread_pool_size g' ∧ 0 < rsum pooling (<[i:=p']> ths))) →
  root_pool g' (<[i:=p']> ths).
Proof.
  intros Hi Hc Ht Hps Hst Hsize Hw Hsl Hwake. pose proof (rp_size _ _ P) as (? & ? & ?). pose proof (rp_sema _ _ P) as (? & ?).
  split.
  - rewrite !(tsum_step _ _ _ _ _ Hi). lia.
  - rewrite !(tsum_step _ _ _ _ _ Hi). lia.
  - intros j k t [[<- E]|[Hne Hj]]%lookup_insert_Some; [by apply (Ht k)|by apply (rp_take _ _ P j k)].
  - intros j f [[<- E]|[Hne Hj]]%lookup_insert_Some; [by apply (Hc f)|by apply (rp_crash _ _ P j f)].
  - exact Hwake.
Qed.

(** The counters of the step, by computation; [Hw]: who looks at the head. *)
Ltac pool_arith Hi := simpl in *; rewrite ?(tsum_step _ _ _ _ _ Hi); simpl in *; consts; lia.
Ltac pool_wake Hi Hw := let H := fresh in intros H; try (specialize (Hw H)); pool_arith Hi.
Ltac pool Hi Hw := apply (pool_update _ _ _ Hi); try done; solve [pool_wake Hi Hw|pool_arith Hi].

Lemma pool_step c p p' g' : ths !! i = Some p → root_tstep c i p g = Some (p', g') → root_pool g' (<[i:=p']> ths).
Proof.
  intros Hi Hs. pose proof (λ f, root_step_ok c p p' g' f Hi Hs) as Hok.
  pose proof (root_sums p Hi) as Hsum. pose proof (rp_size _ _ P) as (? & ? & Hsz). pose proof (rp_sema _ _ P) as (? & Hsem).
  pose proof (rp_wake _ _ P) as Hwake. pose proof (rp_take _ _ P i) as Htake. pose proof head_tail as Hht.
  destruct p as [|f'|k a t|k prev a|k a|k|k|k|k t|k| | |s|a|a|a|a|a r| |n| | | | |]; cbn [root_tstep] in Hs; try done.
  - destruct c; try done. injection Hs as <- <-. pool Hi Hwake.
  - cbn [_dispatch_queue_push_list2] in Hs. apply some_pair in Hs as [-> ->]. destruct (rq_tail g); pool Hi Hwake.
  - cbn [_dispatch_queue_push_list2] in Hs. destruct (q_link _ _ _ _ _ _ _ (ri_list _ _ I) i _ prev a Hi eq_refl) as [_ Hn]. cbv beta in Hn.
    rewrite Hn in Hs. apply some_pair in Hs as [-> ->]. destruct k; pool Hi Hwake.
  - cbn [_dispatch_queue_push_list_slow] in Hs. apply some_pair in Hs as [-> ->]. pool Hi Hwake.
  - cbn [_dispatch_queue_wakeup_global2] in Hs. apply some_pair in Hs as [-> ->]. destruct (rq_tail g); [pool Hi Hwake|].
    assert (head_item (rq_head g) = None) as Hh by (destruct (head_item (rq_head g)); [by destruct Hht|done]).
    destruct k; pool Hi Hwake.
  - cbn [_dispatch_queue_wakeup_global_slow] in Hs. unfold mediator_signal in Hs. case_decide; apply some_pair in Hs as [-> ->]; [|destruct k; pool Hi Hwake].
    pose proof (creating_looks (<[i:=R_pool k]> ths)) as Hcl. rewrite !(tsum_step _ _ _ _ _ Hi) in Hcl. unfold MAX_THREAD_COUNT in *.
    pool Hi Hwake.
  - cbn [_dispatch_queue_wakeup_global_slow] in Hs. apply some_pair in Hs as [-> ->]. case_decide as Hz; [destruct k; pool Hi Hwake|].
    apply (pool_update _ _ _ Hi); try done; [|simpl; lia|pool_wake Hi Hwake]. intros k' t [= <- <-]. pose proof (rsum_ge creating ths i _ (λ q, proj1 (proj1 (proj2 (proj2 (root_weights q))))) Hi).
    lia.
  - pose proof (Htake k t Hi). cbn [_dispatch_queue_wakeup_global_slow] in Hs. unfold MAX_THREAD_COUNT in *.
    case_decide as Ht; apply some_pair in Hs as [-> ->]; [|pool Hi Hwake]. rewrite wrapU_small by (consts; lia). pool Hi Hwake.
  - cbn [_dispatch_queue_wakeup_global_slow] in Hs. destruct c as [| | |[]]; try done; apply some_pair in Hs as [-> ->]; [destruct k; pool Hi Hwake|].
    pool Hi Hwake.
  - cbn [_dispatch_queue_concurrent_drain_one] in Hs. apply some_pair in Hs as [-> ->]. destruct (rq_head g); pool Hi Hwake.
  - cbn [_dispatch_queue_concurrent_drain_one] in Hs. apply some_pair in Hs as [-> ->]. case_decide; pool Hi Hwake.
  - cbn [_dispatch_queue_concurrent_drain_one] in Hs. apply some_pair in Hs as [-> ->]. case_decide as E; [|pool Hi Hwake].
    case_decide; pool Hi Hwake.
  - destruct (owner_head g ths i I _ a Hi eq_refl) as (E & _ & [o Hl]). cbn [_dispatch_queue_concurrent_drain_one] in Hs.
    rewrite Hl in Hs. destruct o; apply some_pair in Hs as [-> ->]; pool Hi Hwake.
  - cbn [_dispatch_queue_concurrent_drain_one] in Hs. apply some_pair in Hs as [-> ->]. pool Hi Hwake.
  - destruct (owner_head g ths i I _ a Hi eq_refl) as (E & _). cbn [_dispatch_queue_concurrent_drain_one] in Hs.
    case_decide; apply some_pair in Hs as [-> ->]; pool Hi Hwake.
  - destruct (owner_head g ths i I _ a Hi eq_refl) as (E & _ & [o Hl]). cbn [_dispatch_queue_concurrent_drain_one] in Hs.
    rewrite Hl in Hs. destruct o; apply some_pair in Hs as [-> ->]; pool Hi Hwake.
  - cbn [_dispatch_queue_concurrent_drain_one] in Hs. apply some_pair in Hs as [-> ->]. pool Hi Hwake.
  - cbn [_dispatch_worker_thread] in Hs. case_decide; [|done]. apply some_pair in Hs as [-> ->]. pool Hi Hwake.
  - destruct (ri_held _ _ I i _ n Hi eq_refl) as (_ & _ & [o Hl]). cbn [_dispatch_worker_thread4] in Hs. rewrite Hl in Hs.
    apply some_pair in Hs as [-> ->]. pool Hi Hwake.
  - destruct c; try done; cbn [_dispatch_worker_thread4] in Hs; apply some_pair in Hs as [-> ->]; pool Hi Hwake.
  - cbn [_dispatch_worker_thread] in Hs. apply some_pair in Hs as [-> ->]. case_decide; pool Hi Hwake.
  - cbn [_dispatch_worker_thread] in Hs. destruct c; (case_decide; [|done]); apply some_pair in Hs as [-> ->]; pool Hi Hwake.
  - cbn [_dispatch_worker_thread] in Hs. apply some_pair in Hs as [-> ->]. unfold MAX_THREAD_COUNT in *.
    assert (worker R_exit = 1) by done. rewrite wrapU_small by (consts; lia). pool Hi Hwake.
  - cbn [_dispatch_worker_thread] in Hs. apply some_pair in Hs as [-> ->]. destruct (rq_tail g); [pool Hi Hwake|].
    assert (head_item (rq_head g) = None) as Hh by (destruct (head_item (rq_head g)); [by destruct Hht|done]). pool Hi Hwake.
Qed.
End Step.
