(* ===== verification/RootTheorems.v ===== *)
(** * Root queues: theorems *)

From S2P Require Import Prelude Conc Mpsc Queue RootQueue RootInv RootStep RootPool.

Abbreviation root_config := (config (G := rqueue) (L := root_pc)).

(** An empty queue with its pool, clients, and threads that are not made yet. *)
Definition root_init (s : root_config) : Prop :=
  shared s = RQ H_null None ∅ 0 MAX_THREAD_COUNT 0 0 0 [] [] [] ∧
  ∀ i p, threads s !! i = Some p → p = R_idle ∨ p = R_unborn.

(** A thread that waits for the link of its item: others were pushed behind it. *)
Definition root_spin (g : rqueue) (ths : rthreads) : Prop :=
  ∀ j h, ths !! j = Some (R_spin_link h) → rq_tail g ≠ Some h.

Lemma root_init_inv s : root_init s → root_items (shared s) (threads s) ∧ root_pool (shared s) (threads s) ∧ root_spin (shared s) (threads s).
Proof.
  intros [-> Hp]. assert (∀ f : root_pc → Z, f R_idle = 0 → f R_unborn = 0 → rsum f (threads s) = 0) as Hz.
  { intros f H1 H2. apply tsum_zero. intros j p Hj. by destruct (Hp j p Hj) as [->| ->]. }
  assert (∀ j p, threads s !! j = Some p → ropener p = None ∧ rlinking p = None ∧ holds_item p = None ∧ push_range p = None ∧ set_link p = None) as Hn.
  { intros j p Hj. by destruct (Hp j p Hj) as [->| ->]. }
  split_and!.
  - split; try done; try apply NoDup_nil_2; unfold ritems; simpl.
    + split; try done; try apply NoDup_nil_2; simpl.
      * by rewrite Hz.
      * intros j p n Hj. by destruct (Hn j p Hj) as (-> & _).
      * by intros x ?%elem_of_nil.
      * by intros a b [?%elem_of_nil _]%adj_in.
      * intros j p a b Hj. by destruct (Hn j p Hj) as (_ & -> & _).
      * intros j k p q a b b' Hj _ H. destruct (Hn j p Hj) as (_ & E & _). congruence.
    + intros x _. split; [done|by intros ?%elem_of_nil].
    + intros j p h t Hj. by destruct (Hn j p Hj) as (_ & _ & _ & -> & _).
    + intros j k p q h t h' t' _ Hj _ H. destruct (Hn j p Hj) as (_ & _ & _ & E & _). congruence.
    + intros j p x Hj. by destruct (Hn j p Hj) as (_ & _ & -> & _).
    + intros j k p q x Hj _ H. destruct (Hn j p Hj) as (_ & _ & E & _). congruence.
    + by intros x ?%elem_of_nil.
    + intros j p h r Hj. by destruct (Hn j p Hj) as (_ & _ & _ & _ & ->).
  - split; simpl; rewrite ?Hz by done; try done.
    + intros j k t Hj. by destruct (Hp j _ Hj).
    + intros j f Hj. by destruct (Hp j _ Hj).
  - intros j h Hj. by destruct (Hp j _ Hj).
Qed.

Lemma root_spin_step g ths i c p p' g' : root_items g ths → root_spin g ths → ths !! i = Some p → root_tstep c i p g = Some (p', g') →
  root_spin g' (<[i:=p']> ths).
Proof.
  intros I S Hi Hs.
  assert ((rq_tail g' = rq_tail g ∨ (∃ k h t, p = R_xchg k h t ∧ rq_tail g' = Some t) ∨ ∃ h, p = R_cas h ∧ rq_tail g' = None) ∧
    ∀ h, p' = R_spin_link h → p = R_cas h ∧ rq_tail g ≠ Some h ∨ p = R_spin_link h) as [Ht Hp'].
  { clear S. destruct p as [|f|k a t|k prev a|k a|k|k|k|k t|k| | |s|a|a|a|a|a r| |n| | | | |]; cbn in Hs;
      unfold mediator_signal, push_begin in Hs; repeat case_match; simplify_eq/=; split;
      try first [by left|right; left; by eexists _, _, _|right; right; by eexists];
      intros h E; try done; try (destruct k; done); injection E as ->; auto. }
  intros j h [[<- ->]|[Hne Hj]]%lookup_insert_Some.
  - destruct (Hp' h eq_refl) as [[-> Hn]| ->].
    + destruct Ht as [->|[(k & a & t & ? & _)|(a & _ & ->)]]; done.
    + destruct Ht as [->|[(k & a & t & ? & _)|(a & ? & _)]]; [by apply (S i)|done..].
  - destruct Ht as [->|[(k & a & t & -> & ->)|(a & -> & ->)]]; [by apply (S j)| |done].
    intros [= ->]. destruct (ri_range _ _ I i _ a h Hi eq_refl) as (? & _ & _ & Hn). apply (Hn h); [lia|].
    destruct (owner_head g ths j I _ h Hj eq_refl) as (_ & Hin & _). by apply (ritems_pushed g ths I).
Qed.

Section Reachable.
Context (s : root_config) (R : reachable root_tstep root_init s).

Lemma root_reachable : root_items (shared s) (threads s) ∧ root_pool (shared s) (threads s) ∧ root_spin (shared s) (threads s).
Proof.
  revert s R. apply (reachable_inv root_tstep root_init (λ s, root_items (shared s) (threads s) ∧ root_pool (shared s) (threads s) ∧ root_spin (shared s) (threads s)));
    [apply root_init_inv|]. intros s1 s2 (I & P & S) Hs. destruct Hs as [i c p g ths p' g' Hi Hs]. cbn [shared threads] in *.
  split_and!; [by eapply root_items_step|by eapply pool_step|by eapply root_spin_step].
Qed.

(** C8. The items of a root queue are taken off in the order in which they were
    pushed, whole chains included; no item is called twice, only items that were
    taken off are called, no thread uses an item that is gone, and at most one
    thread at a time has the first item while the others see the mediator. *)
Theorem root_queue_fifo :
  (∃ items, rq_pushed (shared s) = rq_taken (shared s) ++ items) ∧ NoDup (rq_pushed (shared s)) ∧
  NoDup (rq_called (shared s)) ∧ (∀ x, x ∈ rq_called (shared s) → x ∈ rq_taken (shared s)) ∧
  (∀ i f, threads s !! i ≠ Some (R_crash f)) ∧
  ∀ i j p q, threads s !! i = Some p → threads s !! j = Some q → ropener p ≠ None → ropener q ≠ None → i = j.
Proof.
  destruct root_reachable as (I & P & _). split_and!; try apply I; try apply P; [by exists (ritems (shared s)); apply I|].
  intros i j p q Hi Hj Hp Hq. destruct (decide (j = i)) as [|Hne]; [done|]. destruct (ropener p) as [h|] eqn:E; [|done].
  destruct (opener_alone ropener rlinking _ _ _ _ _ i p (ri_list _ _ I) Hi h E) as (_ & _ & Ho). by destruct Hq; eapply Ho.
Qed.

(** C9. The pool never has more than [MAX_THREAD_COUNT] threads, running or being
    made, and its size, an unsigned counter, never wraps around. *)
Theorem thread_pool_bounded :
  0 ≤ dgq_thread_pool_size (shared s) ≤ MAX_THREAD_COUNT ∧ 0 ≤ rsum worker (threads s) ≤ MAX_THREAD_COUNT ∧
  dgq_thread_pool_size (shared s) + starting (shared s) + rsum worker (threads s) + rsum creating (threads s) = MAX_THREAD_COUNT.
Proof.
  destruct root_reachable as (_ & P & _). pose proof (rp_size _ _ P) as (? & ? & ?).
  assert (0 ≤ rsum worker (threads s)) by (apply tsum_nonneg; intros j q _; pose proof (root_weights q); lia).
  assert (0 ≤ rsum creating (threads s)) by (apply tsum_nonneg; intros j q _; pose proof (root_weights q); lia).
  lia.
Qed.

(** ** Rest *)

(** No thread can move: clients that do not push, and threads in the pool that
    sleep - only the end of their time can wake them. *)
Definition root_at_rest : Prop :=
  ∀ i p c, threads s !! i = Some p → c = RC_go ∨ c = RC_create true →
    root_tstep c i p (shared s) = None ∨ root_tstep c i p (shared s) = Some (p, shared s).

Lemma root_rest_points i p : root_at_rest → threads s !! i = Some p →
  p = R_idle ∨ (p = R_unborn ∧ starting (shared s) = 0) ∨ (p = R_asleep ∧ mediator_wakes (shared s) = 0) ∨
  ∃ h, p = R_spin_link h ∧ links (shared s) !! h = Some None.
Proof.
  intros Hr Hi. destruct root_reachable as (I & P & _). pose proof (Hr i p RC_go Hi (or_introl eq_refl)) as Hg.
  pose proof (Hr i p (RC_create true) Hi (or_intror eq_refl)) as Hc.
  pose proof (rp_size _ _ P) as (_ & ? & _). pose proof (rp_sema _ _ P) as (? & _).
  destruct p as [|f|k a t|k prev a|k a|k|k|k|k t|k| | |s'|a|a|a|a|a r| |n| | | | |]; try (by left);
    [by destruct (rp_crash _ _ P i f)|..]; clear P; cbn in Hg, Hc; unfold mediator_signal in *.
  all: try (destruct Hg as [?|E]; [repeat case_match; done|]; repeat case_match; simplify_eq; try (by destruct k); done).
  - destruct Hc as [?|E]; [done|]. by destruct k.
  - destruct Hg as [?|E]; [done|]. injection E as E. repeat case_decide; try done. injection E. lia.
  - destruct (owner_head _ _ i I _ a Hi eq_refl) as (_ & _ & [[r|] Hl]); rewrite Hl in Hg; [|by right; right; right; exists a].
    by destruct Hg as [?|[= ?]].
  - right; left. split; [done|]. case_decide; [by destruct Hg as [?|[= ?]]|lia].
  - right; right; left. split; [done|]. case_decide; [by destruct Hg as [?|[= ?]]|lia].
Qed.

(** C7. A root queue forgets no item: when no thread can move any more, and the
    system can still make threads, the list is empty and every item that was
    pushed was called exactly once. *)
Theorem root_queue_drains : root_at_rest → (∃ i, threads s !! i = Some R_unborn) →
  rq_tail (shared s) = None ∧ rq_called (shared s) ≡ₚ rq_pushed (shared s).
Proof.
  intros Hr [u Hu]. destruct root_reachable as (I & P & S). pose proof (ri_list _ _ I) as Q.
  assert (∀ j p, threads s !! j = Some p → rlinking p = None) as Hnl.
  { intros j p Hj. by destruct (root_rest_points j p Hr Hj) as [->|[[-> _]|[[-> _]|(h & -> & _)]]]. }
  assert (∀ j p, threads s !! j = Some p → p = R_idle ∨ p = R_unborn ∨ p = R_asleep) as Hp.
  { intros j p Hj. destruct (root_rest_points j p Hr Hj) as [->|[[-> _]|[[-> _]|(h & -> & Hl)]]]; auto. exfalso.
    destruct (opener_alone ropener rlinking _ _ _ _ _ j _ Q Hj h eq_refl) as (_ & Hh & _).
    pose proof (S j h Hj) as Ht. rewrite (q_tail _ _ _ _ _ _ _ Q) in Ht.
    destruct (ritems (shared s)) as [|x [|y rest]] eqn:Ei; [done|by injection Hh as ->|]. injection Hh as ->.
    destruct (q_chain _ _ _ _ _ _ _ Q h y) as [?|(_ & k & q & Hk & Hq)]; [by exists 0%nat|congruence|]. by rewrite (Hnl k q Hk) in Hq. }
  assert (∀ f : root_pc → Z, f R_idle = 0 → f R_unborn = 0 → f R_asleep = 0 → rsum f (threads s) = 0) as Hz.
  { intros f H1 H2 H3. apply tsum_zero. intros j p Hj. by destruct (Hp j p Hj) as [->|[->| ->]]. }
  assert (starting (shared s) = 0) as Hst.
  { destruct (root_rest_points u _ Hr Hu) as [?|[[_ ?]|[[? _]|(? & ? & _)]]]; done. }
  assert (rsum asleep (threads s) = rsum worker (threads s)) as Haw.
  { symmetry. apply tsum_ext. intros j p Hj. by destruct (Hp j p Hj) as [->|[->| ->]]. }
  assert (mediator_wakes (shared s) = 0) as Hw.
  { destruct (decide (rsum asleep (threads s) = 0)) as [E|Hne]; [pose proof (rp_sema _ _ P); lia|].
    destruct (tsum_pos (λ _ p, asleep p) (threads s)) as (j & p & Hj & Ha); [pose proof (rp_sema _ _ P); lia|].
    destruct (root_rest_points j p Hr Hj) as [->|[[-> _]|[[-> ?]|(? & -> & _)]]]; done. }
  assert (head_item (rq_head (shared s)) = None) as Hh.
  { destruct (head_item (rq_head (shared s))) eqn:E; [|done].
    pose proof (rp_wake _ _ P) as Hwk. rewrite E in Hwk. specialize (Hwk ltac:(done)). rewrite (Hz looks), (Hz pooling) in Hwk by done. lia. }
  assert (ritems (shared s) = []) as Ei.
  { pose proof (q_open _ _ _ _ _ _ _ Q) as Ho. rewrite Hh in Ho. change (rsum (opn ropener) (threads s) + 0 = some1 (hd_error (ritems (shared s)))) in Ho. rewrite Hz in Ho by done. by destruct (ritems (shared s)). }
  split; [by rewrite (q_tail _ _ _ _ _ _ _ Q), Ei|].
  pose proof (ri_order _ _ I) as Ho. rewrite Ei, app_nil_r in Ho. rewrite Ho. apply NoDup_Permutation; [apply I|rewrite <- Ho; apply I|].
  intros x. split; [apply I|]. intros Hx. destruct (ri_taken _ _ I x Hx) as [|(j & p & Hj & Hq)]; [done|].
  by destruct (Hp j p Hj) as [->|[->| ->]].
Qed.
End Reachable.

(** ** Witnesses *)

(** A client pushes three items in two pushes; three threads of the pool. *)
Definition root_start : root_config :=
  Config (RQ H_null None ∅ 0 MAX_THREAD_COUNT 0 0 0 [] [] []) {[0%nat := R_idle; 1%nat := R_unborn; 2%nat := R_unborn; 3%nat := R_unborn; 4%nat := R_unborn]}.

Definition root_schedule : list (nat * root_choice) :=
  [(0%nat, RC_push 1); (0%nat, RC_go); (0%nat, RC_go); (0%nat, RC_go); (0%nat, RC_go); (0%nat, RC_go); (0%nat, RC_go); (0%nat, RC_create true);
   (0%nat, RC_push 0); (0%nat, RC_go); (0%nat, RC_go)] ++
  concat (repeat [(1%nat, RC_go); (1%nat, RC_create true); (2%nat, RC_go); (2%nat, RC_create true)] 25) ++ repeat (3%nat, RC_go) 5.

Definition root_end : root_config := play root_tstep root_schedule root_start.

Lemma root_start_init : root_init root_start.
Proof.
  split; [done|]. intros i p. cbn [threads root_start].
  intros [[_ <-]|[_ [[_ <-]|[_ [[_ <-]|[_ [[_ <-]|[_ [_ <-]%lookup_singleton_Some]]%lookup_insert_Some]]%lookup_insert_Some]]%lookup_insert_Some]]%lookup_insert_Some; auto.
Qed.

Lemma root_end_reachable : reachable root_tstep root_init root_end.
Proof. apply play_reachable. exists root_start. split; [apply root_start_init|apply rtc_refl]. Qed.

Lemma root_end_threads :
  threads root_end = {[0%nat := R_idle; 1%nat := R_asleep; 2%nat := R_asleep; 3%nat := R_asleep; 4%nat := R_unborn]}.
Proof. vm_compute. reflexivity. Qed.

Lemma root_queue_fifo_witness : NoDup (rq_called (shared root_end)) ∧ rq_taken (shared root_end) = [0%nat; 1%nat; 2%nat].
Proof.
  split; [|vm_compute; reflexivity]. destruct (root_queue_fifo root_end root_end_reachable) as (_ & _ & H & _). exact H.
Defined.

Lemma thread_pool_bounded_witness : rsum worker (threads root_end) ≤ MAX_THREAD_COUNT ∧ dgq_thread_pool_size (shared root_end) = 252.
Proof.
  split; [|vm_compute; reflexivity]. destruct (thread_pool_bounded root_end root_end_reachable) as (_ & [_ H] & _). exact H.
Defined.

Lemma root_end_at_rest : root_at_rest root_end.
Proof.
  intros i p c. rewrite root_end_threads.
  intros [[_ <-]|[_ [[_ <-]|[_ [[_ <-]|[_ [[_ <-]|[_ [_ <-]%lookup_singleton_Some]]%lookup_insert_Some]]%lookup_insert_Some]]%lookup_insert_Some]]%lookup_insert_Some
    [->| ->]; left; vm_compute; reflexivity.
Qed.

Lemma root_queue_drains_witness : rq_called (shared root_end) ≡ₚ [0%nat; 1%nat; 2%nat] ∧ rq_tail (shared root_end) = None.
Proof.
  destruct (root_queue_drains root_end root_end_reachable root_end_at_rest) as [H1 H2]; [|split; [exact H2|exact H1]].
  exists 4%nat. rewrite root_end_threads. reflexivity.
Defined.
