(* ===== verification/Source.v ===== *)
(** * Event sources and timers (src/source.c, src/source_internal.h)

    The state of the manager queue: the kernel events that are registered, each
    with the sources that share it, the hash table they are found in, and the
    lists of timers, which are kernel events of their own.  One definition per
    function; each runs to its end before the next one.  (In the program a function
    on the manager queue and one on the target queue of the source can overlap;
    the words that both use, [ds_pending_data] and [ds_atomic_flags], are changed by
    single atomic operations.) *)

From S2P Require Import Prelude Time.

(** ** The kernel *)

Record kevent : Type := KE { ident : Z; filter : Z; flags : Z; fflags : Z; data : Z }.

(** [sys/event.h] (a [NOTE_] or [VQ_] constant that the header lacks, for which
    the source tests [HAVE_DECL_], is 0), and what [kevent] answers to an update, given the updates
    before it: an [errno] other than [EINTR] (which is retried), or the receipt,
    whose [udata] is that of the update. *)
Class KQueue : Type := {
  EV_ADD : Z;
  EV_DELETE : Z;
  EV_ENABLE : Z;
  EV_DISABLE : Z;
  EV_ONESHOT : Z;
  EV_CLEAR : Z;
  EV_DISPATCH : Z;
  EV_RECEIPT : Z;
  EV_ERROR : Z;
  EVFILT_READ : Z;
  EVFILT_WRITE : Z;
  EVFILT_PROC : Z;
  EVFILT_SIGNAL : Z;
  EVFILT_VNODE : Z;
  EVFILT_FS : Z;
  EVFILT_SYSCOUNT : Z;
  NOTE_EXIT : Z;
  NOTE_FORK : Z;
  NOTE_EXEC : Z;
  NOTE_SIGNAL : Z;
  NOTE_REAP : Z;
  NOTE_DELETE : Z;
  NOTE_WRITE : Z;
  NOTE_EXTEND : Z;
  NOTE_ATTRIB : Z;
  NOTE_LINK : Z;
  NOTE_RENAME : Z;
  NOTE_REVOKE : Z;
  NOTE_NONE : Z;
  VQ_NOTRESP : Z;
  VQ_NEEDAUTH : Z;
  VQ_LOWDISK : Z;
  VQ_MOUNT : Z;
  VQ_UNMOUNT : Z;
  VQ_DEAD : Z;
  VQ_ASSIST : Z;
  VQ_NOTRESPLOCK : Z;
  VQ_UPDATE : Z;
  VQ_VERYLOWDISK : Z;
  ESRCH : Z;
  EBADF : Z;
  NSIG : Z;
  FD_SETSIZE : Z;
  kevent_call : list kevent → kevent → Z + kevent
}.

(** Its filters are numbered from [-1] down, [EVFILT_SYSCOUNT] of them. *)
Class KQueueLaws {K : KQueue} : Prop :=
  filter_range f : f ∈ [EVFILT_READ; EVFILT_WRITE; EVFILT_PROC; EVFILT_SIGNAL; EVFILT_VNODE; EVFILT_FS] → - EVFILT_SYSCOUNT ≤ f < 0.

(** ** Sources *)

Definition DSF_CANCELED : Z := 1.
Definition DSF_ARMED : Z := 2.
Definition DISPATCH_TIMER_WALL_CLOCK : Z := 4.
Definition DISPATCH_TIMER_INDEX_WALL : Z := 0.
Definition DISPATCH_TIMER_INDEX_MACH : Z := 1.
Definition DISPATCH_TIMER_INDEX_DISARM : Z := 2.
Definition DISPATCH_TIMER_COUNT : Z := 2.
Definition DSL_HASH_SIZE : Z := 256.
Definition DSL_HASH (x : Z) : Z := Z.land x (DSL_HASH_SIZE - 1).

Record dispatch_kevent_s : Type := DK { dk_kevent : kevent; dk_sources : list nat }.

Record dispatch_timer_source_s : Type := TimerSource {
  target : Z;
  last_fire : Z;
  interval : Z;
  leeway : Z;
  tflags : Z;
  missed : Z
}.

(** The source with its [ds_refs]; 0 is the null pointer of a handler.
    [ds_xref_cnt] is [do_xref_cnt], -1 when the client gave its last reference
    up; [ds_targetq] is [do_targetq]. *)
Record dispatch_source_s : Type := Source {
  ds_dkev : option nat;
  ds_atomic_flags : Z;
  ds_is_level : bool;
  ds_is_adder : bool;
  ds_is_timer : bool;
  ds_is_installed : bool;
  ds_needs_rearm : bool;
  ds_cancel_is_block : bool;
  ds_handler_is_block : bool;
  ds_registration_is_block : bool;
  ds_data : Z;
  ds_pending_data : Z;
  ds_pending_data_mask : Z;
  ds_ident_hack : Z;
  ds_handler_func : Z;
  ds_handler_ctxt : Z;
  ds_cancel_handler : Z;
  ds_registration_handler : Z;
  ds_timer : dispatch_timer_source_s;
  ds_do_ctxt : Z;
  ds_targetq : nat;
  ds_suspend_cnt : Z;
  ds_xref_cnt : Z;
  ds_ref_cnt : Z
}.

(** The calls of the client's handlers, and the releases of its blocks. *)
Inductive source_callout : Type :=
  | CO_event (ds : nat) (func ctxt data : Z)
  | CO_cancel (ds : nat) (handler : Z)
  | CO_registration (ds : nat) (handler : Z)
  | CO_block_release (block : Z).

(** [selects]: the descriptors of the [select] workaround, by filter, with the
    [udata] they stand for; [kq_updates]: what the kernel was told; [wakeups]: the calls of
    [_dispatch_wakeup], which make the source be invoked on its queues. *)
Record mgr_state : Type := Mgr {
  sources : gmap nat dispatch_source_s;
  kevents : gmap nat dispatch_kevent_s;
  buckets : gmap Z (list nat);
  next_kevent : nat;
  selects : gmap (Z * Z) nat;
  select_workaround : Z;
  kq_updates : list kevent;
  wakeups : list nat;
  callouts : list source_callout
}.

Definition put_target x r := TimerSource x (last_fire r) (interval r) (leeway r) (tflags r) (missed r).
Definition put_last_fire x r := TimerSource (target r) x (interval r) (leeway r) (tflags r) (missed r).
Definition put_missed x r := TimerSource (target r) (last_fire r) (interval r) (leeway r) (tflags r) x.

Definition put_dkev x r := Source x (ds_atomic_flags r) (ds_is_level r) (ds_is_adder r) (ds_is_timer r) (ds_is_installed r) (ds_needs_rearm r) (ds_cancel_is_block r) (ds_handler_is_block r) (ds_registration_is_block r) (ds_data r) (ds_pending_data r) (ds_pending_data_mask r) (ds_ident_hack r) (ds_handler_func r) (ds_handler_ctxt r) (ds_cancel_handler r) (ds_registration_handler r) (ds_timer r) (ds_do_ctxt r) (ds_targetq r) (ds_suspend_cnt r) (ds_xref_cnt r) (ds_ref_cnt r).
Definition put_atomic_flags x r := Source (ds_dkev r) x (ds_is_level r) (ds_is_adder r) (ds_is_timer r) (ds_is_installed r) (ds_needs_rearm r) (ds_cancel_is_block r) (ds_handler_is_block r) (ds_registration_is_block r) (ds_data r) (ds_pending_data r) (ds_pending_data_mask r) (ds_ident_hack r) (ds_handler_func r) (ds_handler_ctxt r) (ds_cancel_handler r) (ds_registration_handler r) (ds_timer r) (ds_do_ctxt r) (ds_targetq r) (ds_suspend_cnt r) (ds_xref_cnt r) (ds_ref_cnt r).
Definition put_is_installed x r := Source (ds_dkev r) (ds_atomic_flags r) (ds_is_level r) (ds_is_adder r) (ds_is_timer r) x (ds_needs_rearm r) (ds_cancel_is_block r) (ds_handler_is_block r) (ds_registration_is_block r) (ds_data r) (ds_pending_data r) (ds_pending_data_mask r) (ds_ident_hack r) (ds_handler_func r) (ds_handler_ctxt r) (ds_cancel_handler r) (ds_registration_handler r) (ds_timer r) (ds_do_ctxt r) (ds_targetq r) (ds_suspend_cnt r) (ds_xref_cnt r) (ds_ref_cnt r).
Definition put_needs_rearm x r := Source (ds_dkev r) (ds_atomic_flags r) (ds_is_level r) (ds_is_adder r) (ds_is_timer r) (ds_is_installed r) x (ds_cancel_is_block r) (ds_handler_is_block r) (ds_registration_is_block r) (ds_data r) (ds_pending_data r) (ds_pending_data_mask r) (ds_ident_hack r) (ds_handler_func r) (ds_handler_ctxt r) (ds_cancel_handler r) (ds_registration_handler r) (ds_timer r) (ds_do_ctxt r) (ds_targetq r) (ds_suspend_cnt r) (ds_xref_cnt r) (ds_ref_cnt r).
Definition put_cancel_is_block x r := Source (ds_dkev r) (ds_atomic_flags r) (ds_is_level r) (ds_is_adder r) (ds_is_timer r) (ds_is_installed r) (ds_needs_rearm r) x (ds_handler_is_block r) (ds_registration_is_block r) (ds_data r) (ds_pending_data r) (ds_pending_data_mask r) (ds_ident_hack r) (ds_handler_func r) (ds_handler_ctxt r) (ds_cancel_handler r) (ds_registration_handler r) (ds_timer r) (ds_do_ctxt r) (ds_targetq r) (ds_suspend_cnt r) (ds_xref_cnt r) (ds_ref_cnt r).
Definition put_handler_is_block x r := Source (ds_dkev r) (ds_atomic_flags r) (ds_is_level r) (ds_is_adder r) (ds_is_timer r) (ds_is_installed r) (ds_needs_rearm r) (ds_cancel_is_block r) x (ds_registration_is_block r) (ds_data r) (ds_pending_data r) (ds_pending_data_mask r) (ds_ident_hack r) (ds_handler_func r) (ds_handler_ctxt r) (ds_cancel_handler r) (ds_registration_handler r) (ds_timer r) (ds_do_ctxt r) (ds_targetq r) (ds_suspend_cnt r) (ds_xref_cnt r) (ds_ref_cnt r).
Definition put_registration_is_block x r := Source (ds_dkev r) (ds_atomic_flags r) (ds_is_level r) (ds_is_adder r) (ds_is_timer r) (ds_is_installed r) (ds_needs_rearm r) (ds_cancel_is_block r) (ds_handler_is_block r) x (ds_data r) (ds_pending_data r) (ds_pending_data_mask r) (ds_ident_hack r) (ds_handler_func r) (ds_handler_ctxt r) (ds_cancel_handler r) (ds_registration_handler r) (ds_timer r) (ds_do_ctxt r) (ds_targetq r) (ds_suspend_cnt r) (ds_xref_cnt r) (ds_ref_cnt r).
Definition put_data x r := Source (ds_dkev r) (ds_atomic_flags r) (ds_is_level r) (ds_is_adder r) (ds_is_timer r) (ds_is_installed r) (ds_needs_rearm r) (ds_cancel_is_block r) (ds_handler_is_block r) (ds_registration_is_block r) x (ds_pending_data r) (ds_pending_data_mask r) (ds_ident_hack r) (ds_handler_func r) (ds_handler_ctxt r) (ds_cancel_handler r) (ds_registration_handler r) (ds_timer r) (ds_do_ctxt r) (ds_targetq r) (ds_suspend_cnt r) (ds_xref_cnt r) (ds_ref_cnt r).
Definition put_pending_data x r := Source (ds_dkev r) (ds_atomic_flags r) (ds_is_level r) (ds_is_adder r) (ds_is_timer r) (ds_is_installed r) (ds_needs_rearm r) (ds_cancel_is_block r) (ds_handler_is_block r) (ds_registration_is_block r) (ds_data r) x (ds_pending_data_mask r) (ds_ident_hack r) (ds_handler_func r) (ds_handler_ctxt r) (ds_cancel_handler r) (ds_registration_handler r) (ds_timer r) (ds_do_ctxt r) (ds_targetq r) (ds_suspend_cnt r) (ds_xref_cnt r) (ds_ref_cnt r).
Definition put_pending_data_mask x r := Source (ds_dkev r) (ds_atomic_flags r) (ds_is_level r) (ds_is_adder r) (ds_is_timer r) (ds_is_installed r) (ds_needs_rearm r) (ds_cancel_is_block r) (ds_handler_is_block r) (ds_registration_is_block r) (ds_data r) (ds_pending_data r) x (ds_ident_hack r) (ds_handler_func r) (ds_handler_ctxt r) (ds_cancel_handler r) (ds_registration_handler r) (ds_timer r) (ds_do_ctxt r) (ds_targetq r) (ds_suspend_cnt r) (ds_xref_cnt r) (ds_ref_cnt r).
Definition put_ident_hack x r := Source (ds_dkev r) (ds_atomic_flags r) (ds_is_level r) (ds_is_adder r) (ds_is_timer r) (ds_is_installed r) (ds_needs_rearm r) (ds_cancel_is_block r) (ds_handler_is_block r) (ds_registration_is_block r) (ds_data r) (ds_pending_data r) (ds_pending_data_mask r) x (ds_handler_func r) (ds_handler_ctxt r) (ds_cancel_handler r) (ds_registration_handler r) (ds_timer r) (ds_do_ctxt r) (ds_targetq r) (ds_suspend_cnt r) (ds_xref_cnt r) (ds_ref_cnt r).
Definition put_handler_func x r := Source (ds_dkev r) (ds_atomic_flags r) (ds_is_level r) (ds_is_adder r) (ds_is_timer r) (ds_is_installed r) (ds_needs_rearm r) (ds_cancel_is_block r) (ds_handler_is_block r) (ds_registration_is_block r) (ds_data r) (ds_pending_data r) (ds_pending_data_mask r) (ds_ident_hack r) x (ds_handler_ctxt r) (ds_cancel_handler r) (ds_registration_handler r) (ds_timer r) (ds_do_ctxt r) (ds_targetq r) (ds_suspend_cnt r) (ds_xref_cnt r) (ds_ref_cnt r).
Definition put_handler_ctxt x r := Source (ds_dkev r) (ds_atomic_flags r) (ds_is_level r) (ds_is_adder r) (ds_is_timer r) (ds_is_installed r) (ds_needs_rearm r) (ds_cancel_is_block r) (ds_handler_is_block r) (ds_registration_is_block r) (ds_data r) (ds_pending_data r) (ds_pending_data_mask r) (ds_ident_hack r) (ds_handler_func r) x (ds_cancel_handler r) (ds_registration_handler r) (ds_timer r) (ds_do_ctxt r) (ds_targetq r) (ds_suspend_cnt r) (ds_xref_cnt r) (ds_ref_cnt r).
Definition put_cancel_handler x r := Source (ds_dkev r) (ds_atomic_flags r) (ds_is_level r) (ds_is_adder r) (ds_is_timer r) (ds_is_installed r) (ds_needs_rearm r) (ds_cancel_is_block r) (ds_handler_is_block r) (ds_registration_is_block r) (ds_data r) (ds_pending_data r) (ds_pending_data_mask r) (ds_ident_hack r) (ds_handler_func r) (ds_handler_ctxt r) x (ds_registration_handler r) (ds_timer r) (ds_do_ctxt r) (ds_targetq r) (ds_suspend_cnt r) (ds_xref_cnt r) (ds_ref_cnt r).
Definition put_registration_handler x r := Source (ds_dkev r) (ds_atomic_flags r) (ds_is_level r) (ds_is_adder r) (ds_is_timer r) (ds_is_installed r) (ds_needs_rearm r) (ds_cancel_is_block r) (ds_handler_is_block r) (ds_registration_is_block r) (ds_data r) (ds_pending_data r) (ds_pending_data_mask r) (ds_ident_hack r) (ds_handler_func r) (ds_handler_ctxt r) (ds_cancel_handler r) x (ds_timer r) (ds_do_ctxt r) (ds_targetq r) (ds_suspend_cnt r) (ds_xref_cnt r) (ds_ref_cnt r).
Definition put_timer x r := Source (ds_dkev r) (ds_atomic_flags r) (ds_is_level r) (ds_is_adder r) (ds_is_timer r) (ds_is_installed r) (ds_needs_rearm r) (ds_cancel_is_block r) (ds_handler_is_block r) (ds_registration_is_block r) (ds_data r) (ds_pending_data r) (ds_pending_data_mask r) (ds_ident_hack r) (ds_handler_func r) (ds_handler_ctxt r) (ds_cancel_handler r) (ds_registration_handler r) x (ds_do_ctxt r) (ds_targetq r) (ds_suspend_cnt r) (ds_xref_cnt r) (ds_ref_cnt r).
Definition put_suspend_cnt x r := Source (ds_dkev r) (ds_atomic_flags r) (ds_is_level r) (ds_is_adder r) (ds_is_timer r) (ds_is_installed r) (ds_needs_rearm r) (ds_cancel_is_block r) (ds_handler_is_block r) (ds_registration_is_block r) (ds_data r) (ds_pending_data r) (ds_pending_data_mask r) (ds_ident_hack r) (ds_handler_func r) (ds_handler_ctxt r) (ds_cancel_handler r) (ds_registration_handler r) (ds_timer r) (ds_do_ctxt r) (ds_targetq r) x (ds_xref_cnt r) (ds_ref_cnt r).
Definition put_xref_cnt x r := Source (ds_dkev r) (ds_atomic_flags r) (ds_is_level r) (ds_is_adder r) (ds_is_timer r) (ds_is_installed r) (ds_needs_rearm r) (ds_cancel_is_block r) (ds_handler_is_block r) (ds_registration_is_block r) (ds_data r) (ds_pending_data r) (ds_pending_data_mask r) (ds_ident_hack r) (ds_handler_func r) (ds_handler_ctxt r) (ds_cancel_handler r) (ds_registration_handler r) (ds_timer r) (ds_do_ctxt r) (ds_targetq r) (ds_suspend_cnt r) x (ds_ref_cnt r).
Definition put_targetq x r := Source (ds_dkev r) (ds_atomic_flags r) (ds_is_level r) (ds_is_adder r) (ds_is_timer r) (ds_is_installed r) (ds_needs_rearm r) (ds_cancel_is_block r) (ds_handler_is_block r) (ds_registration_is_block r) (ds_data r) (ds_pending_data r) (ds_pending_data_mask r) (ds_ident_hack r) (ds_handler_func r) (ds_handler_ctxt r) (ds_cancel_handler r) (ds_registration_handler r) (ds_timer r) (ds_do_ctxt r) x (ds_suspend_cnt r) (ds_xref_cnt r) (ds_ref_cnt r).
Definition put_ref_cnt x r := Source (ds_dkev r) (ds_atomic_flags r) (ds_is_level r) (ds_is_adder r) (ds_is_timer r) (ds_is_installed r) (ds_needs_rearm r) (ds_cancel_is_block r) (ds_handler_is_block r) (ds_registration_is_block r) (ds_data r) (ds_pending_data r) (ds_pending_data_mask r) (ds_ident_hack r) (ds_handler_func r) (ds_handler_ctxt r) (ds_cancel_handler r) (ds_registration_handler r) (ds_timer r) (ds_do_ctxt r) (ds_targetq r) (ds_suspend_cnt r) (ds_xref_cnt r) x.

Definition set_sources x r := Mgr x (kevents r) (buckets r) (next_kevent r) (selects r) (select_workaround r) (kq_updates r) (wakeups r) (callouts r).
Definition set_kevents x r := Mgr (sources r) x (buckets r) (next_kevent r) (selects r) (select_workaround r) (kq_updates r) (wakeups r) (callouts r).
Definition set_buckets x r := Mgr (sources r) (kevents r) x (next_kevent r) (selects r) (select_workaround r) (kq_updates r) (wakeups r) (callouts r).
Definition set_next_kevent x r := Mgr (sources r) (kevents r) (buckets r) x (selects r) (select_workaround r) (kq_updates r) (wakeups r) (callouts r).
Definition set_selects x r := Mgr (sources r) (kevents r) (buckets r) (next_kevent r) x (select_workaround r) (kq_updates r) (wakeups r) (callouts r).
Definition set_select_workaround x r := Mgr (sources r) (kevents r) (buckets r) (next_kevent r) (selects r) x (kq_updates r) (wakeups r) (callouts r).
Definition set_kq_updates x r := Mgr (sources r) (kevents r) (buckets r) (next_kevent r) (selects r) (select_workaround r) x (wakeups r) (callouts r).
Definition set_wakeups x r := Mgr (sources r) (kevents r) (buckets r) (next_kevent r) (selects r) (select_workaround r) (kq_updates r) x (callouts r).
Definition set_callouts x r := Mgr (sources r) (kevents r) (buckets r) (next_kevent r) (selects r) (select_workaround r) (kq_updates r) (wakeups r) x.

(** ** The monad *)

Abbreviation SW := (M mgr_state).

Definition get_source (ds : nat) : SW dispatch_source_s := s ← getS; try_opt "dispatch_source_t" (sources s !! ds).
Definition modify_source (ds : nat) (f : dispatch_source_s → dispatch_source_s) : SW unit :=
  x ← get_source ds; modifyS (λ s, set_sources (<[ds := f x]> (sources s)) s).
Definition get_kevent (dk : nat) : SW dispatch_kevent_s := s ← getS; try_opt "dispatch_kevent_t" (kevents s !! dk).
Definition put_kevent (dk : nat) (x : dispatch_kevent_s) : SW unit := modifyS (λ s, set_kevents (<[dk := x]> (kevents s)) s).
Definition free_kevent (dk : nat) : SW unit := modifyS (λ s, set_kevents (delete dk (kevents s)) s).
Definition bucket (h : Z) (s : mgr_state) : list nat := default [] (buckets s !! h).
Definition put_bucket (h : Z) (l : list nat) : SW unit := modifyS (λ s, set_buckets (<[h := l]> (buckets s)) s).
Definition _dispatch_wakeup (ds : nat) : SW unit := modifyS (λ s, set_wakeups (wakeups s ++ [ds]) s).
Definition call_out (c : source_callout) : SW unit := modifyS (λ s, set_callouts (callouts s ++ [c]) s).
Definition whenM {A} (b : bool) (m : SW A) : SW unit := if b then m;; mret tt else mret tt.

(** [TAILQ_REMOVE]: of something that is not on the list, it writes elsewhere. *)
Definition tailq_remove (x : nat) (l : list nat) : SW (list nat) :=
  if decide (x ∈ l) then mret (List.filter (λ y, negb (y =? x)%nat) l) else fail (UB "TAILQ_REMOVE").

Definition has (x bits : Z) : bool := negb (Z.land x bits =? 0).

(** ** Reference and suspension counts *)

Definition DISPATCH_OBJECT_SUSPEND_INTERVAL : Z := 2.
Definition DISPATCH_OBJECT_SUSPENDED (ds : dispatch_source_s) : bool := DISPATCH_OBJECT_SUSPEND_INTERVAL <=? ds_suspend_cnt ds.

(** The disposal that the last release leads to is that of [Object]. *)
Definition _dispatch_retain (ds : nat) : SW unit := modify_source ds (λ x, put_ref_cnt (wrapS 32 (ds_ref_cnt x + 1)) x).
Definition _dispatch_release (ds : nat) : SW unit := modify_source ds (λ x, put_ref_cnt (wrapS 32 (ds_ref_cnt x - 1)) x).

Definition dispatch_suspend (ds : nat) : SW unit :=
  modify_source ds (λ x, put_suspend_cnt (u32 (ds_suspend_cnt x + DISPATCH_OBJECT_SUSPEND_INTERVAL)) x);;
  _dispatch_retain ds.

Definition dispatch_resume (ds : nat) : SW unit :=
  x ← get_source ds;
  let cnt := u32 (ds_suspend_cnt x - DISPATCH_OBJECT_SUSPEND_INTERVAL) in
  modify_source ds (put_suspend_cnt cnt);;
  let suspend_cnt := u32 (cnt + DISPATCH_OBJECT_SUSPEND_INTERVAL) in
  if decide (DISPATCH_OBJECT_SUSPEND_INTERVAL < suspend_cnt) then _dispatch_release ds
  else if decide (suspend_cnt = DISPATCH_OBJECT_SUSPEND_INTERVAL) then _dispatch_wakeup ds;; _dispatch_release ds
  else fail (DISPATCH_CLIENT_CRASH "Over-resume of an object").

(** The references of clients ([_os_object_retain], [_os_object_release] and
    [_dispatch_xref_dispose] of object.c). *)
Definition _OS_OBJECT_GLOBAL_REFCNT : Z := INT_MAX.

Definition _dispatch_source_xref_dispose (ds : nat) : SW unit := _dispatch_wakeup ds.

Definition dispatch_retain (ds : nat) : SW unit :=
  x ← get_source ds;
  if ds_xref_cnt x =? _OS_OBJECT_GLOBAL_REFCNT then mret tt
  else
    let xref_cnt := wrapS 32 (ds_xref_cnt x + 1) in
    modify_source ds (put_xref_cnt xref_cnt);;
    if decide (xref_cnt ≤ 0) then fail (DISPATCH_CLIENT_CRASH "Resurrection of an object") else mret tt.

Definition dispatch_release (ds : nat) : SW unit :=
  x ← get_source ds;
  if ds_xref_cnt x =? _OS_OBJECT_GLOBAL_REFCNT then mret tt
  else
    let xref_cnt := wrapS 32 (ds_xref_cnt x - 1) in
    modify_source ds (put_xref_cnt xref_cnt);;
    if decide (0 ≤ xref_cnt) then mret tt
    else if decide (xref_cnt < -1) then fail (DISPATCH_CLIENT_CRASH "Over-release of an object")
    else if DISPATCH_OBJECT_SUSPENDED x then fail (DISPATCH_CLIENT_CRASH "Release of a suspended object")
    else _dispatch_source_xref_dispose ds;; _dispatch_release ds.

(** Cancelled, or given up by its client. *)
Definition ds_over (x : dispatch_source_s) : bool := has (ds_atomic_flags x) DSF_CANCELED || (ds_xref_cnt x =? -1).

Section Kernel.
Context {K : KQueue}.

Definition DISPATCH_EVFILT_TIMER : Z := - EVFILT_SYSCOUNT - 1.
Definition DISPATCH_EVFILT_CUSTOM_ADD : Z := - EVFILT_SYSCOUNT - 2.
Definition DISPATCH_EVFILT_CUSTOM_OR : Z := - EVFILT_SYSCOUNT - 3.

(** ** Events *)

(** [EVFILT_PROC] with [ESRCH]: a process that is gone; simulate its exit. *)
Definition fake_exit (ke : kevent) : kevent := KE (ident ke) (filter ke) (Z.ldiff (flags ke) EV_ERROR) NOTE_EXIT 0.

(** What an event adds to the pending data. *)
Definition merged_data (x : dispatch_source_s) (ke : kevent) : Z :=
  if ds_is_level x then u64 (Z.lnot (data ke))
  else if ds_is_adder x then u64 (ds_pending_data x + data ke)
  else if has (fflags ke) (ds_pending_data_mask x)
  then Z.lor (ds_pending_data x) (Z.land (fflags ke) (ds_pending_data_mask x)) else ds_pending_data x.

Definition _dispatch_source_merge_kevent (ds : nat) (ke : kevent) : SW unit :=
  x ← get_source ds;
  if ds_over x then mret tt
  else
    let error := has (flags ke) EV_ERROR in
    if error && negb ((filter ke =? EVFILT_PROC) && (data ke =? ESRCH)) then mret tt
    else
      let ke := if error then fake_exit ke else ke in
      modify_source ds (put_pending_data (merged_data x ke));;
      whenM (ds_needs_rearm x) (modify_source ds (λ x, put_atomic_flags (Z.ldiff (ds_atomic_flags x) DSF_ARMED) x));;
      _dispatch_wakeup ds.

Fixpoint merge_all (l : list nat) (ke : kevent) : SW unit :=
  match l with
  | [] => mret tt
  | ds :: l => _dispatch_source_merge_kevent ds ke;; merge_all l ke
  end.

(** The filters that [select] can stand in for. *)
Definition select_filter (f : Z) : bool := (f =? EVFILT_READ) || (f =? EVFILT_WRITE).

(** [dk]: [ke->udata]. *)
Definition _dispatch_source_drain_kevent (dk : nat) (ke : kevent) : SW unit :=
  k ← get_kevent dk;
  let e := dk_kevent k in
  let e := if has (flags ke) EV_ONESHOT then KE (ident e) (filter e) (Z.lor (flags e) EV_ONESHOT) (fflags e) (data e) else e in
  put_kevent dk (DK e (dk_sources k));;
  merge_all (dk_sources k) ke.

(** [dk]: [kev->udata]. *)
Definition _dispatch_update_kq (dk : nat) (kev : kevent) : SW Z :=
  s ← getS;
  let kev_copy := KE (ident kev) (filter kev) (Z.lor (flags kev) EV_RECEIPT) (fflags kev) (data kev) in
  let key := (filter kev_copy, ident kev_copy) in
  if negb (select_workaround s =? 0) && has (flags kev_copy) EV_DELETE && select_filter (filter kev_copy) &&
     (ident kev_copy <? FD_SETSIZE) && bool_decide (is_Some (selects s !! key))
  then
    modifyS (λ s, set_select_workaround (select_workaround s - 1) (set_selects (delete key (selects s)) s));;
    mret 0
  else
    modifyS (set_kq_updates (kq_updates s ++ [kev_copy]));;
    match kevent_call (kq_updates s) kev_copy with
    | inl err => mret err
    | inr r =>
        if has (flags kev) (Z.lor EV_DISABLE EV_DELETE) || negb (has (flags kev) (Z.lor EV_ADD EV_ENABLE)) then mret 0
        else if decide (data r = 0) then mret 0
        else if decide (data r = EBADF) then mret (data r)
        else if select_filter (filter r) then
          if decide (ident r < FD_SETSIZE) then
            modifyS (λ s, set_select_workaround (select_workaround s + 1)
                            (set_selects (<[(filter r, ident r) := dk]> (selects s)) s));;
            mret 0
          else mret (data r)
        else _dispatch_source_drain_kevent dk r;; mret (data r)
    end.

(** [kev]: an event of the client's.  [dispatch_assert] does nothing when its
    condition is false ([DISPATCH_DEBUG] is off), but evaluates it: the kernel
    event of the source is read. *)
Definition dispatch_source_merge_data (ds : nat) (val : Z) : SW unit :=
  x ← get_source ds;
  dk ← try_opt "ds->ds_dkev" (ds_dkev x);
  get_kevent dk;;
  _dispatch_source_merge_kevent ds (KE 0 0 0 (u32 val) (wrapS 64 val)).

(** ** The kernel events *)

(** Those that are not registered with the kernel. *)
Definition custom_filter (f : Z) : bool :=
  (f =? DISPATCH_EVFILT_TIMER) || (f =? DISPATCH_EVFILT_CUSTOM_ADD) || (f =? DISPATCH_EVFILT_CUSTOM_OR).

(** [short] does not matter without Mach ports. *)
Definition _dispatch_kevent_hash (ident : Z) : Z := DSL_HASH ident.

Fixpoint find_kevent (l : list nat) (i f : Z) : SW (option nat) :=
  match l with
  | [] => mret None
  | dki :: l =>
      k ← get_kevent dki;
      if (ident (dk_kevent k) =? i) && (filter (dk_kevent k) =? f) then mret (Some dki) else find_kevent l i f
  end.

Definition _dispatch_kevent_find (i f : Z) : SW (option nat) :=
  s ← getS; find_kevent (bucket (_dispatch_kevent_hash i) s) i f.

Definition _dispatch_kevent_insert (dk : nat) : SW unit :=
  k ← get_kevent dk;
  s ← getS;
  let hash := _dispatch_kevent_hash (ident (dk_kevent k)) in
  put_bucket hash (bucket hash s ++ [dk]).

Definition set_flags (x : Z) (e : kevent) : kevent := KE (ident e) (filter e) x (fflags e) (data e).
Definition set_fflags (x : Z) (e : kevent) : kevent := KE (ident e) (filter e) (flags e) x (data e).

Definition modify_event (dk : nat) (f : kevent → kevent) : SW unit :=
  k ← get_kevent dk; put_kevent dk (DK (f (dk_kevent k)) (dk_sources k)).

(** The flags that are new, or that go, matter for Mach ports only. *)
Definition _dispatch_kevent_resume (dk : nat) : SW bool :=
  k ← get_kevent dk;
  let e := dk_kevent k in
  if custom_filter (filter e) then mret false
  else if (filter e =? EVFILT_PROC) && has (flags e) EV_ONESHOT then mret false
  else
    r ← _dispatch_update_kq dk e;
    k ← get_kevent dk;
    let e := dk_kevent k in
    whenM (has (flags e) EV_DISPATCH) (put_kevent dk (DK (set_flags (Z.ldiff (flags e) EV_ADD) e) (dk_sources k)));;
    mret (negb (r =? 0)).

Definition _dispatch_kevent_dispose (dk : nat) : SW unit :=
  k ← get_kevent dk;
  let e := dk_kevent k in
  if custom_filter (filter e) then mret tt
  else
    (if (filter e =? EVFILT_PROC) && has (flags e) EV_ONESHOT then mret tt
     else if has (Z.lnot (flags e)) EV_DELETE then
       let e := set_flags (Z.lor (flags e) EV_DELETE) e in
       put_kevent dk (DK e (dk_sources k));;
       _dispatch_update_kq dk e;; mret tt
     else mret tt);;
    s ← getS;
    let hash := _dispatch_kevent_hash (ident e) in
    l ← tailq_remove dk (bucket hash s);
    put_bucket hash l;;
    free_kevent dk.

(** The events that the sources of a list want. *)
Fixpoint wanted (l : list nat) : SW Z :=
  match l with
  | [] => mret 0
  | dri :: l => x ← get_source dri; w ← wanted l; mret (Z.lor (u32 (ds_pending_data_mask x)) w)
  end.

Definition _dispatch_kevent_unregister (ds : nat) : SW unit :=
  x ← get_source ds;
  dk ← try_opt "ds_dkev" (ds_dkev x);
  modify_source ds (put_dkev None);;
  k ← get_kevent dk;
  l ← tailq_remove ds (dk_sources k);
  put_kevent dk (DK (dk_kevent k) l);;
  match l with
  | [] => _dispatch_kevent_dispose dk
  | _ =>
      fflags ← wanted l;
      let del_flags := Z.ldiff (u32 (ds_pending_data_mask x)) fflags in
      whenM (negb (del_flags =? 0))
        (modify_event dk (λ e, set_fflags fflags (set_flags (Z.lor (flags e) EV_ADD) e));;
         _dispatch_kevent_resume dk)
  end;;
  modify_source ds (λ x, put_needs_rearm false (put_atomic_flags (Z.ldiff (ds_atomic_flags x) DSF_ARMED) x));;
  _dispatch_release ds.


(** ** Installation, and the lists of timers

    [_dispatch_kevent_register] and [_dispatch_timer_list_update] call each other
    through [_dispatch_source_kevent_resume]; the nested call finds the source
    installed and returns. *)

(** The kernel events that are static. *)
Definition _dispatch_kevent_data_or : nat := 0.
Definition _dispatch_kevent_data_add : nat := 1.
Definition _dispatch_kevent_timer (i : Z) : nat := Z.to_nat (2 + i).

Definition _dispatch_source_timer_idx (x : dispatch_source_s) : Z :=
  if has (tflags (ds_timer x)) DISPATCH_TIMER_WALL_CLOCK then DISPATCH_TIMER_INDEX_WALL else DISPATCH_TIMER_INDEX_MACH.

Definition _dispatch_source_kevent_resume_with (list_update : nat → SW unit) (ds : nat) : SW unit :=
  x ← get_source ds;
  dk ← try_opt "ds_dkev" (ds_dkev x);
  k ← get_kevent dk;
  if filter (dk_kevent k) =? DISPATCH_EVFILT_TIMER then list_update ds
  else r ← _dispatch_kevent_resume dk; whenM r (_dispatch_kevent_unregister ds).

(** The event that a source that is being installed will share, and whether it
    is new there. *)
Definition kevent_attach (ds dk0 : nat) : SW (nat * bool) :=
  k0 ← get_kevent dk0;
  let e0 := dk_kevent k0 in
  found ← _dispatch_kevent_find (ident e0) (filter e0);
  match found with
  | Some dk =>
      k ← get_kevent dk;
      let e := dk_kevent k in
      let new_flags := Z.land (Z.lnot (fflags e)) (fflags e0) in
      put_kevent dk (DK (set_fflags (Z.lor (fflags e) (fflags e0)) e) (dk_sources k));;
      free_kevent dk0;;
      modify_source ds (put_dkev (Some dk));;
      mret (dk, negb (new_flags =? 0))
  | None => _dispatch_kevent_insert dk0;; mret (dk0, true)
  end.

Definition kevent_register_with (list_update : nat → SW unit) (ds : nat) : SW unit :=
  x ← get_source ds;
  if ds_is_installed x then mret tt
  else
    modify_source ds (put_is_installed true);;
    dk0 ← try_opt "ds_dkev" (ds_dkev x);
    p ← kevent_attach ds dk0;
    let '(dk, do_resume) := p in
    k ← get_kevent dk;
    put_kevent dk (DK (dk_kevent k) (dk_sources k ++ [ds]));;
    whenM do_resume (modify_event dk (λ e, set_flags (Z.lor (flags e) EV_ADD) e));;
    whenM (do_resume || ds_needs_rearm x) (_dispatch_source_kevent_resume_with list_update ds);;
    modify_source ds (λ x, put_atomic_flags (Z.lor (ds_atomic_flags x) DSF_ARMED) x).

(** [TAILQ_INSERT_BEFORE] the first timer that is disabled or fires later. *)
Fixpoint insert_timer (ds : nat) (t : Z) (l : list nat) : SW (list nat) :=
  match l with
  | [] => mret [ds]
  | dri :: l' =>
      x ← get_source dri;
      if (target (ds_timer x) =? 0) || (t <? target (ds_timer x)) then mret (ds :: l)
      else r ← insert_timer ds t l'; mret (dri :: r)
  end.

(** Timers that do not wait for a date: disabled, suspended, or with data that
    has not been delivered. *)
Definition timer_disarmed (x : dispatch_source_s) : bool :=
  (target (ds_timer x) =? 0) || DISPATCH_OBJECT_SUSPENDED x || negb (ds_pending_data x =? 0).

Definition timer_list_update_with (register : nat → SW unit) (ds : nat) : SW unit :=
  x ← get_source ds;
  match ds_dkev x with
  | None => mret tt
  | Some _ =>
      register ds;;
      x ← get_source ds;
      dk ← try_opt "ds_dkev" (ds_dkev x);
      k ← get_kevent dk;
      l ← tailq_remove ds (dk_sources k);
      put_kevent dk (DK (dk_kevent k) l);;
      if timer_disarmed x then
        let dk := _dispatch_kevent_timer DISPATCH_TIMER_INDEX_DISARM in
        modify_source ds (λ x, put_dkev (Some dk) (put_atomic_flags (Z.ldiff (ds_atomic_flags x) DSF_ARMED) x));;
        k ← get_kevent dk;
        put_kevent dk (DK (dk_kevent k) (dk_sources k ++ [ds]))
      else
        let dk := _dispatch_kevent_timer (_dispatch_source_timer_idx x) in
        modify_source ds (put_dkev (Some dk));;
        k ← get_kevent dk;
        l ← insert_timer ds (target (ds_timer x)) (dk_sources k);
        put_kevent dk (DK (dk_kevent k) l)
  end.

Fixpoint register_upto (depth : nat) (ds : nat) : SW unit :=
  match depth with
  | O => fail OutOfFuel
  | S depth => kevent_register_with (timer_list_update_with (register_upto depth)) ds
  end.

Definition KEVENT_DEPTH : nat := 2.
Definition _dispatch_kevent_register : nat → SW unit := register_upto KEVENT_DEPTH.
Definition _dispatch_timer_list_update : nat → SW unit := timer_list_update_with _dispatch_kevent_register.
Definition _dispatch_source_kevent_resume : nat → SW unit := _dispatch_source_kevent_resume_with _dispatch_timer_list_update.

(** The state after [_dispatch_kevent_init], which [dispatch_once_f] runs
    before the first registration. *)
Definition _dispatch_kevent_init : mgr_state :=
  Mgr ∅
    (list_to_map
       [ (_dispatch_kevent_data_or, DK (KE 0 DISPATCH_EVFILT_CUSTOM_OR EV_CLEAR 0 0) []);
         (_dispatch_kevent_data_add, DK (KE 0 DISPATCH_EVFILT_CUSTOM_ADD 0 0 0) []);
         (_dispatch_kevent_timer DISPATCH_TIMER_INDEX_WALL, DK (KE DISPATCH_TIMER_INDEX_WALL DISPATCH_EVFILT_TIMER 0 0 0) []);
         (_dispatch_kevent_timer DISPATCH_TIMER_INDEX_MACH, DK (KE DISPATCH_TIMER_INDEX_MACH DISPATCH_EVFILT_TIMER 0 0 0) []);
         (_dispatch_kevent_timer DISPATCH_TIMER_INDEX_DISARM, DK (KE DISPATCH_TIMER_INDEX_DISARM DISPATCH_EVFILT_TIMER 0 0 0) []) ])
    (list_to_map
       [ (DSL_HASH 0, [_dispatch_kevent_data_or; _dispatch_kevent_data_add; _dispatch_kevent_timer DISPATCH_TIMER_INDEX_WALL]);
         (DSL_HASH DISPATCH_TIMER_INDEX_MACH, [_dispatch_kevent_timer DISPATCH_TIMER_INDEX_MACH]);
         (DSL_HASH DISPATCH_TIMER_INDEX_DISARM, [_dispatch_kevent_timer DISPATCH_TIMER_INDEX_DISARM]) ])
    5 ∅ 0 [] [] [].
End Kernel.
