(* ===== verification/SourceReg.v ===== *)
(** * The registry of event sources: its invariant

    What [Source] keeps of a source and of a kernel event that matters for who
    shares what ([reg_of]), the invariant of that registry ([reg_core]), and the
    order of the timer lists ([arm_ok]). *)

From Stdlib Require Import Sorted.
From S2P Require Import Prelude Time Source.

(** ** The registry *)

Record sview : Type := SV {
  v_dkev : option nat;
  v_timer : bool;
  v_installed : bool;
  v_rearm : bool;
  v_mask : Z;
  v_ident : Z;
  v_target : Z;
  v_interval : Z;
  v_idx : Z
}.

Record kview : Type := KV { k_ident : Z; k_filter : Z; k_fflags : Z; k_list : list nat }.

Record registry : Type := Reg {
  r_sources : gmap nat sview;
  r_kevents : gmap nat kview;
  r_buckets : gmap Z (list nat);
  r_next : nat
}.

Definition sview_of (x : dispatch_source_s) : sview :=
  SV (ds_dkev x) (ds_is_timer x) (ds_is_installed x) (ds_needs_rearm x) (u32 (ds_pending_data_mask x)) (ds_ident_hack x)
    (target (ds_timer x)) (interval (ds_timer x)) (_dispatch_source_timer_idx x).

Definition kview_of (k : dispatch_kevent_s) : kview :=
  KV (ident (dk_kevent k)) (filter (dk_kevent k)) (fflags (dk_kevent k)) (dk_sources k).

Definition reg_of (s : mgr_state) : registry :=
  Reg (sview_of <$> sources s) (kview_of <$> kevents s) (buckets s) (next_kevent s).

Definition up_src (ds : nat) (v : sview) (r : registry) : registry :=
  Reg (<[ds := v]> (r_sources r)) (r_kevents r) (r_buckets r) (r_next r).
Definition up_kev (dk : nat) (k : kview) (r : registry) : registry :=
  Reg (r_sources r) (<[dk := k]> (r_kevents r)) (r_buckets r) (r_next r).
Definition del_kev (dk : nat) (r : registry) : registry :=
  Reg (r_sources r) (delete dk (r_kevents r)) (r_buckets r) (r_next r).
Definition up_bkt (h : Z) (l : list nat) (r : registry) : registry :=
  Reg (r_sources r) (r_kevents r) (<[h := l]> (r_buckets r)) (r_next r).

Definition bkt (h : Z) (r : registry) : list nat := default [] (r_buckets r !! h).

(** A list without [x], and without the [x] of an option. *)
Definition tq_del (x : nat) (l : list nat) : list nat := List.filter (λ y, negb (y =? x)%nat) l.
Definition but (o : option nat) (l : list nat) : list nat := match o with None => l | Some x => tq_del x l end.

Definition tgt (r : registry) (ds : nat) : Z := default 0 (v_target <$> r_sources r !! ds).
Definition msk (r : registry) (ds : nat) : Z := default 0 (v_mask <$> r_sources r !! ds).
Definition union_mask (r : registry) (l : list nat) : Z := foldr (λ ds, Z.lor (msk r ds)) 0 l.

#[global] Arguments union_mask : simpl never.
#[global] Arguments tq_del : simpl never.

(** ** The invariant *)

Section Invariant.
Context {K : KQueue}.

Definition registered (r : registry) (dk : nat) (k : kview) : Prop := dk ∈ bkt (DSL_HASH (k_ident k)) r.

(** The event of a source that has not been installed is its own. *)
Definition private (r : registry) (ds : nat) (v : sview) (dk : nat) (k : kview) : Prop :=
  k_list k = [] ∧ k_fflags k = v_mask v ∧ (custom_filter (k_filter k) = true → k_ident k = 0) ∧
  (∀ h, dk ∉ bkt h r) ∧ (∀ ds' v', r_sources r !! ds' = Some v' → v_dkev v' = Some dk → ds' = ds).

(** A timer that has a date has a period, and is on the clock that its list
    says; a new one is armed when it is installed. *)
Definition timer_ok (v : sview) : Prop :=
  v_timer v = true →
  (v_target v ≠ 0 → 1 ≤ v_interval v ≤ INT64_MAX ∧ v_ident v = v_idx v ∧ 0 ≤ v_target v < 2 ^ 64) ∧
  (v_installed v = false → v_rearm v = true).

Definition src_ok (r : registry) (ds : nat) (v : sview) : Prop :=
  timer_ok v ∧
  match v_dkev v with
  | None => v_installed v = true ∧ v_rearm v = false
  | Some dk => ∃ k, r_kevents r !! dk = Some k ∧ v_timer v = (k_filter k =? DISPATCH_EVFILT_TIMER) ∧
      if v_installed v then ds ∈ k_list k ∧ registered r dk k else private r ds v dk k
  end.

(** The kernel event asks for what its sources want. *)
Definition kev_ok (r : registry) (dk : nat) (k : kview) : Prop :=
  NoDup (k_list k) ∧
  (∀ ds, ds ∈ k_list k → ∃ v, r_sources r !! ds = Some v ∧ v_dkev v = Some dk ∧ v_installed v = true) ∧
  (registered r dk k → custom_filter (k_filter k) = false → k_fflags k = union_mask r (k_list k)).

Definition statics : list (nat * (Z * Z)) :=
  [ (_dispatch_kevent_data_or, (0, DISPATCH_EVFILT_CUSTOM_OR));
    (_dispatch_kevent_data_add, (0, DISPATCH_EVFILT_CUSTOM_ADD));
    (_dispatch_kevent_timer DISPATCH_TIMER_INDEX_WALL, (DISPATCH_TIMER_INDEX_WALL, DISPATCH_EVFILT_TIMER));
    (_dispatch_kevent_timer DISPATCH_TIMER_INDEX_MACH, (DISPATCH_TIMER_INDEX_MACH, DISPATCH_EVFILT_TIMER));
    (_dispatch_kevent_timer DISPATCH_TIMER_INDEX_DISARM, (DISPATCH_TIMER_INDEX_DISARM, DISPATCH_EVFILT_TIMER)) ].

Record reg_core (r : registry) : Prop := {
  core_src : ∀ ds v, r_sources r !! ds = Some v → src_ok r ds v;
  core_kev : ∀ dk k, r_kevents r !! dk = Some k → kev_ok r dk k;
  core_bkt : ∀ h dk, dk ∈ bkt h r → ∃ k, r_kevents r !! dk = Some k ∧ DSL_HASH (k_ident k) = h;
  core_nodup : ∀ h, NoDup (bkt h r);
  core_key : ∀ dk k dk' k', r_kevents r !! dk = Some k → r_kevents r !! dk' = Some k' →
    registered r dk k → registered r dk' k' → k_ident k = k_ident k' → k_filter k = k_filter k' → dk = dk';
  core_static : ∀ dk i f, (dk, (i, f)) ∈ statics →
    ∃ k, r_kevents r !! dk = Some k ∧ k_ident k = i ∧ k_filter k = f ∧ registered r dk k;
  core_next : ∀ dk, is_Some (r_kevents r !! dk) → (dk < r_next r)%nat
}.

(** The lists of armed timers: each has a date, is on the clock of its list, and
    they are in the order of the dates, but for the source [o], whose dates have changed
    and which is about to be moved. *)
Definition armed (r : registry) (i : Z) (ds : nat) : Prop :=
  ∃ v, r_sources r !! ds = Some v ∧ v_timer v = true ∧ v_target v ≠ 0 ∧ v_idx v = i.

Definition arm_ok (o : option nat) (r : registry) : Prop :=
  ∀ i k, (i = DISPATCH_TIMER_INDEX_WALL ∨ i = DISPATCH_TIMER_INDEX_MACH) →
    r_kevents r !! _dispatch_kevent_timer i = Some k →
    Forall (armed r i) (but o (k_list k)) ∧ StronglySorted (λ a b, tgt r a ≤ tgt r b) (but o (k_list k)).

(** A kernel event without sources is gone. *)
Definition no_idle (r : registry) : Prop :=
  ∀ dk k, r_kevents r !! dk = Some k → registered r dk k → custom_filter (k_filter k) = false → k_list k ≠ [].

Definition reg_ok (o : option nat) (r : registry) : Prop := reg_core r ∧ arm_ok o r ∧ no_idle r.
Definition mgr_ok (s : mgr_state) : Prop := reg_ok None (reg_of s).
End Invariant.

(** ** Lists *)

Lemma elem_of_tq_del x y l : y ∈ tq_del x l ↔ y ≠ x ∧ y ∈ l.
Proof.
  unfold tq_del. rewrite !list_elem_of_In, List.filter_In, negb_true_iff, Nat.eqb_neq. tauto.
Qed.

Lemma tq_del_not_in x l : x ∉ l → tq_del x l = l.
Proof.
  induction l as [|y l IH]; [done|]. rewrite not_elem_of_cons. intros [Hne Hl].
  unfold tq_del. cbn. destruct (Nat.eqb_spec y x); [congruence|]. cbn. f_equal. by apply IH.
Qed.

Lemma NoDup_tq_del x l : NoDup l → NoDup (tq_del x l).
Proof.
  induction 1 as [|y l Hy Hl IH]; [constructor|]. unfold tq_del. cbn. destruct (y =? x)%nat; cbn; [done|].
  constructor; [|done]. intros [_ ?]%elem_of_tq_del. done.
Qed.

Lemma tq_del_app x l l' : tq_del x (l ++ l') = tq_del x l ++ tq_del x l'.
Proof. apply List.filter_app. Qed.

Lemma tq_del_self x l : x ∉ tq_del x l.
Proof. rewrite elem_of_tq_del. tauto. Qed.

Lemma tq_del_idem x l : tq_del x (tq_del x l) = tq_del x l.
Proof. apply tq_del_not_in, tq_del_self. Qed.

Lemma tq_del_snoc x l : x ∉ l → tq_del x (l ++ [x]) = l.
Proof.
  intros. rewrite tq_del_app, tq_del_not_in by done. unfold tq_del. cbn. rewrite Nat.eqb_refl. apply app_nil_r.
Qed.

Lemma Forall_tq_del {P : nat → Prop} x l : Forall P l → Forall P (tq_del x l).
Proof. rewrite !Forall_forall. intros H y [_ ?]%elem_of_tq_del. by apply H. Qed.

Lemma Sorted_tq_del {R : nat → nat → Prop} x l : StronglySorted R l → StronglySorted R (tq_del x l).
Proof.
  induction 1 as [|y l Hl IH Hy]; [constructor|]. unfold tq_del. cbn. destruct (y =? x)%nat; cbn; [done|].
  constructor; [done|]. by apply (Forall_tq_del x).
Qed.

Lemma Sorted_mono (R R' : nat → nat → Prop) l :
  (∀ a b, a ∈ l → b ∈ l → R a b → R' a b) → StronglySorted R l → StronglySorted R' l.
Proof.
  intros H Hs. induction Hs as [|y l Hl IH Hy]; [constructor|]. constructor.
  - apply IH. intros a b ? ?. apply H; by right.
  - apply Forall_forall. intros b Hb. apply H; [left|by right|]. by apply (proj1 (Forall_forall _ _) Hy).
Qed.

Lemma elem_of_but o x l : x ∈ but o l → x ∈ l ∧ o ≠ Some x.
Proof. destruct o as [y|]; cbn; [|done]. rewrite elem_of_tq_del. intros [? ?]. split; [done|congruence]. Qed.
