(* ===== verification/SourceCore.v ===== *)
(** * Changes of the registry that keep its invariant

    One lemma per change that the functions of [Source] make: an update of a
    source, installation with an event of its own or of others, uninstallation,
    and a move between the timer lists. *)

From Stdlib Require Import Sorted.
From S2P Require Import Prelude Time Source SourceReg.

(** ** Masks *)

Lemma union_mask_ext r r' l :
  (∀ ds, ds ∈ l → msk r' ds = msk r ds) → union_mask r' l = union_mask r l.
Proof.
  induction l as [|y l IH]; [done|]. intros H. change (Z.lor (msk r' y) (union_mask r' l) = Z.lor (msk r y) (union_mask r l)). rewrite (H y) by left. f_equal. apply IH. intros. apply H. by right.
Qed.

Lemma union_mask_app r l l' : union_mask r (l ++ l') = Z.lor (union_mask r l) (union_mask r l').
Proof. induction l as [|y l IH]; [done|]. change (Z.lor (msk r y) (union_mask r (l ++ l')) = Z.lor (Z.lor (msk r y) (union_mask r l)) (union_mask r l')). by rewrite IH, Z.lor_assoc. Qed.

(** The mask of a member, and the others'. *)
Lemma union_mask_del r ds l :
  ds ∈ l → union_mask r l = Z.lor (msk r ds) (union_mask r (tq_del ds l)).
Proof.
  induction l as [|y l IH]; [by intros ?%elem_of_nil|]. intros Hin.
  change (union_mask r (y :: l)) with (Z.lor (msk r y) (union_mask r l)).
  change (tq_del ds (y :: l)) with (if negb (y =? ds)%nat then y :: tq_del ds l else tq_del ds l).
  destruct (Nat.eqb_spec y ds) as [->|Hne]; cbn [negb].
  - destruct (decide (ds ∈ l)) as [Hl|Hl]; [|by rewrite tq_del_not_in].
    by rewrite (IH Hl), Z.lor_assoc, Z.lor_diag.
  - apply elem_of_cons in Hin as [->|Hin]; [done|].
    change (union_mask r (y :: tq_del ds l)) with (Z.lor (msk r y) (union_mask r (tq_del ds l))).
    rewrite (IH Hin), !Z.lor_assoc. f_equal. apply Z.lor_comm.
Qed.

(** No bit goes with a mask that the others cover. *)
Lemma ldiff_lor_absorb m u : Z.ldiff m u = 0 → Z.lor m u = u.
Proof.
  intros H. apply Z.bits_inj'. intros n Hn. pose proof (f_equal (λ z, Z.testbit z n) H) as Hb. cbv beta in Hb.
  rewrite Z.ldiff_spec, Z.bits_0 in Hb. rewrite Z.lor_spec.
  destruct (Z.testbit m n), (Z.testbit u n); cbn in *; congruence.
Qed.

Section Core.
Context {K : KQueue}.

Lemma msk_up_src r ds v d : msk (up_src ds v r) d = if decide (d = ds) then v_mask v else msk r d.
Proof. unfold msk, up_src. cbn. case_decide; subst; [by rewrite lookup_insert_eq|by rewrite lookup_insert_ne]. Qed.

(** *** Facts *)

Lemma core_listed r ds v dk k :
  reg_core r → r_sources r !! ds = Some v → v_installed v = true → v_dkev v = Some dk →
  r_kevents r !! dk = Some k →
  ds ∈ k_list k ∧ registered r dk k ∧ v_timer v = (k_filter k =? DISPATCH_EVFILT_TIMER).
Proof.
  intros C Hv Hi Hd Hk. destruct (core_src r C _ _ Hv) as [_ Hs]. rewrite Hd, Hi in Hs.
  destruct Hs as (k' & Hk' & Ht & Hin & Hr). rewrite Hk in Hk'. injection Hk' as <-. done.
Qed.

Lemma core_dkev r ds v dk : reg_core r → r_sources r !! ds = Some v → v_dkev v = Some dk → is_Some (r_kevents r !! dk).
Proof. intros C Hv Hd. destruct (core_src r C _ _ Hv) as [_ Hs]. rewrite Hd in Hs. destruct Hs as (k & -> & _). eauto. Qed.

Lemma core_member r dk k ds :
  reg_core r → r_kevents r !! dk = Some k → ds ∈ k_list k →
  ∃ v, r_sources r !! ds = Some v ∧ v_dkev v = Some dk ∧ v_installed v = true.
Proof. intros C Hk Hin. destruct (core_kev r C _ _ Hk) as (_ & H & _). auto. Qed.

(** A source is on the list of its event only. *)
Lemma core_only r dk k ds v :
  reg_core r → r_kevents r !! dk = Some k → ds ∈ k_list k → r_sources r !! ds = Some v → v_dkev v = Some dk.
Proof. intros C Hk Hin Hv. destruct (core_member r dk k ds C Hk Hin) as (v' & Hv' & Hd & _). congruence. Qed.

(** ** Updates of a source *)

Lemma core_up_src r ds v v' :
  reg_core r → r_sources r !! ds = Some v → timer_ok v' →
  v_dkev v' = v_dkev v → v_timer v' = v_timer v → v_installed v' = v_installed v →
  (v_dkev v = None → v_rearm v' = false) → (v_dkev v ≠ None → v_mask v' = v_mask v) →
  reg_core (up_src ds v' r).
Proof.
  intros C Hv Ht Hd Htm Hi Hr Hm.
  assert (Hu : ∀ dk k, r_kevents r !! dk = Some k → union_mask (up_src ds v' r) (k_list k) = union_mask r (k_list k)).
  { intros dk k Hk. apply union_mask_ext. intros d Hin. rewrite msk_up_src. case_decide; [|done]. subst d.
    pose proof (core_only r dk k ds v C Hk Hin Hv) as Hd'. unfold msk. rewrite Hv. cbn. apply Hm. congruence. }
  split; cbn.
  - intros d w. rewrite lookup_insert_Some. intros [[<- <-]|[Hne Hw]].
    + destruct (core_src r C _ _ Hv) as [_ Hs]. split; [done|]. rewrite Hd, Hi, Htm. destruct (v_dkev v) as [dk|] eqn:Ed.
      * destruct Hs as (k & Hk & Hf & Hs). exists k. split_and!; [done|done|]. destruct (v_installed v); [done|].
        destruct Hs as (? & ? & ? & ? & Hp). split_and!; [done|rewrite Hm; [done|congruence]|done|done|].
        cbn. intros d w. rewrite lookup_insert_Some. intros [[<- _]|[? ?]]; [done|]. eauto.
      * split; [apply Hs|by apply Hr].
    + destruct (core_src r C _ _ Hw) as [Hto Hs]. split; [done|]. destruct (v_dkev w) as [dk|] eqn:Ew; [|done].
      destruct Hs as (k & Hk & Hf & Hs). exists k. split_and!; [done|done|]. destruct (v_installed w); [done|].
      destruct Hs as (? & ? & ? & ? & Hp). split_and!; [done|done|done|done|].
      cbn. intros d' w'. rewrite lookup_insert_Some. intros [[<- <-]|[? ?]]; [|eauto]. rewrite Hd. intros. eauto.
  - intros dk k Hk. destruct (core_kev r C _ _ Hk) as (Hn & Hl & Hreg). split_and!; [done| |].
    + intros d Hin. destruct (Hl d Hin) as (w & Hw & ? & ?). cbn. destruct (decide (d = ds)) as [->|].
      * exists v'. rewrite lookup_insert_eq. split_and!; congruence.
      * exists w. by rewrite lookup_insert_ne.
    + intros Hg Hc. rewrite (Hu dk k Hk). by apply Hreg.
  - apply (core_bkt r C).
  - apply (core_nodup r C).
  - apply (core_key r C).
  - apply (core_static r C).
  - apply (core_next r C).
Qed.

(** ** Changes of the lists *)

(** A source changes its event, or the list it is on: what its new state and the
    new events must satisfy. *)
Record relink (r r' : registry) (ds : nat) (v v' : sview) : Prop := {
  rl_old : r_sources r !! ds = Some v;
  rl_sources : r_sources r' = <[ds := v']> (r_sources r);
  rl_mask : v_mask v' = v_mask v;
  rl_timer : timer_ok v';
  rl_dkev : match v_dkev v' with
            | None => v_rearm v' = false
            | Some dk => ∃ k, r_kevents r !! dk = Some k ∧ v_timer v' = (k_filter k =? DISPATCH_EVFILT_TIMER) ∧
                              registered r dk k
            end;
  rl_installed : v_installed v' = true;
  rl_buckets : r_buckets r' = r_buckets r;
  rl_next : r_next r' = r_next r;
  rl_new : ∀ dk k', r_kevents r' !! dk = Some k' → ∃ k, r_kevents r !! dk = Some k ∧
    k_ident k' = k_ident k ∧ k_filter k' = k_filter k ∧ NoDup (k_list k') ∧
    (∀ d, d ∈ k_list k' ↔ d ≠ ds ∧ d ∈ k_list k ∨ d = ds ∧ v_dkev v' = Some dk) ∧
    (registered r dk k → custom_filter (k_filter k) = false → k_fflags k' = union_mask r (k_list k')) ∧
    (¬ registered r dk k → k' = k);
  rl_keep : ∀ dk k, r_kevents r !! dk = Some k → registered r dk k ∨ v_dkev v ≠ Some dk → is_Some (r_kevents r' !! dk)
}.

Lemma bkt_relink r r' ds v v' h : relink r r' ds v v' → bkt h r' = bkt h r.
Proof. intros R. unfold bkt. by rewrite (rl_buckets _ _ _ _ _ R). Qed.

Lemma registered_relink r r' ds v v' dk k k' :
  relink r r' ds v v' → k_ident k' = k_ident k → registered r' dk k' ↔ registered r dk k.
Proof. intros R E. unfold registered. by rewrite E, (bkt_relink r r' ds v v' _ R). Qed.

Lemma msk_relink r r' ds v v' d : relink r r' ds v v' → msk r' d = msk r d.
Proof.
  intros R. unfold msk. rewrite (rl_sources _ _ _ _ _ R). destruct (decide (d = ds)) as [->|].
  - rewrite lookup_insert_eq, (rl_old _ _ _ _ _ R). cbn. apply R.
  - by rewrite lookup_insert_ne.
Qed.

(** The sources whose event is untouched. *)
Lemma src_ok_relink r r' ds v v' d w :
  reg_core r → relink r r' ds v v' → d ≠ ds → r_sources r !! d = Some w → src_ok r' d w.
Proof.
  intros C R Hne Hw. destruct (core_src r C _ _ Hw) as [Ht Hs]. split; [done|].
  destruct (v_dkev w) as [dk|] eqn:Ed; [|done]. destruct Hs as (k & Hk & Hf & Hs).
  assert (Hkeep : registered r dk k ∨ v_dkev v ≠ Some dk).
  { destruct (v_installed w); [left; apply Hs|right]. intros Hv. destruct Hs as (_ & _ & _ & _ & Hown).
    apply Hne. symmetry. apply (Hown ds v); [apply R|done]. }
  destruct (rl_keep _ _ _ _ _ R dk k Hk Hkeep) as [k' Hk']. exists k'.
  destruct (rl_new _ _ _ _ _ R dk k' Hk') as (k0 & Hk0 & Ei & Ef & _ & Hl & _ & Hsame). rewrite Hk in Hk0. injection Hk0 as <-.
  split_and!; [done|by rewrite Ef|]. destruct (v_installed w).
  - destruct Hs as [Hin Hr]. split; [apply Hl; left; done|]. by apply (registered_relink r r' ds v v' dk k k').
  - destruct Hs as (H1 & H2 & H3 & Hnb & Hown).
    assert (k' = k) as ->. { apply Hsame. intros Hr. by apply (Hnb (DSL_HASH (k_ident k))). }
    split_and!; [done|done|done|..].
    + intros h. rewrite (bkt_relink r r' ds v v' h R). apply Hnb.
    + intros d' w'. rewrite (rl_sources _ _ _ _ _ R), lookup_insert_Some. intros [[<- <-]|[_ ?]] Hd'; [|eauto].
      pose proof (rl_dkev _ _ _ _ _ R) as Hdk. rewrite Hd' in Hdk. destruct Hdk as (k0 & Hk0 & _ & Hr).
      rewrite Hk in Hk0. injection Hk0 as <-. exfalso. by apply (Hnb _ Hr).
Qed.

Lemma core_relink r r' ds v v' : reg_core r → relink r r' ds v v' → reg_core r'.
Proof.
  intros C R. pose proof (rl_new _ _ _ _ _ R) as Hnew. pose proof (rl_keep _ _ _ _ _ R) as Hkeep. split.
  - intros d w. rewrite (rl_sources _ _ _ _ _ R), lookup_insert_Some.
    intros [[<- <-]|[Hne Hw]]; [|by apply (src_ok_relink r r' ds v v')].
    split; [apply R|]. pose proof (rl_dkev _ _ _ _ _ R) as Hdk. rewrite (rl_installed _ _ _ _ _ R).
    destruct (v_dkev v') as [dk|] eqn:Ed; [|done]. destruct Hdk as (k & Hk & Hf & Hr).
    destruct (Hkeep dk k Hk (or_introl Hr)) as [k' Hk']. exists k'.
    destruct (Hnew dk k' Hk') as (k0 & Hk0 & Ei & Ef & _ & Hl & _). rewrite Hk in Hk0. injection Hk0 as <-.
    split_and!; [done|by rewrite Ef|apply Hl; by right|]. by apply (registered_relink r r' ds v v' dk k k').
  - intros dk k' Hk'. destruct (Hnew dk k' Hk') as (k & Hk & Ei & Ef & Hn & Hl & Hff & _). split_and!; [done|..].
    + intros d [[Hne Hin]|[-> Hd]]%Hl.
      * destruct (core_member r dk k d C Hk Hin) as (w & Hw & ? & ?). exists w.
        by rewrite (rl_sources _ _ _ _ _ R), lookup_insert_ne.
      * exists v'. rewrite (rl_sources _ _ _ _ _ R), lookup_insert_eq. split_and!; [done|done|apply R].
    + rewrite (registered_relink r r' ds v v' dk k k' R Ei), Ef. intros Hr Hc. rewrite (Hff Hr Hc). symmetry.
      apply union_mask_ext. intros d _. by apply (msk_relink r r' ds v v').
  - intros h dk. rewrite (bkt_relink r r' ds v v' h R). intros Hin. destruct (core_bkt r C h dk Hin) as (k & Hk & Hh).
    destruct (Hkeep dk k Hk) as [k' Hk']; [left; unfold registered; by rewrite Hh|]. exists k'.
    destruct (Hnew dk k' Hk') as (k0 & Hk0 & Ei & _). rewrite Hk in Hk0. injection Hk0 as <-. by rewrite Ei.
  - intros h. rewrite (bkt_relink r r' ds v v' h R). apply C.
  - intros dk k' dk2 k2' Hk' Hk2' Hr Hr2 E E2.
    destruct (Hnew dk k' Hk') as (k & Hk & Ei & Ef & _). destruct (Hnew dk2 k2' Hk2') as (k2 & Hk2 & Ei2 & Ef2 & _).
    apply (core_key r C dk k dk2 k2 Hk Hk2); [| |congruence|congruence].
    + by apply (registered_relink r r' ds v v' dk k k').
    + by apply (registered_relink r r' ds v v' dk2 k2 k2').
  - intros dk i f Hst. destruct (core_static r C dk i f Hst) as (k & Hk & Hi & Hf & Hr).
    destruct (Hkeep dk k Hk (or_introl Hr)) as [k' Hk']. exists k'.
    destruct (Hnew dk k' Hk') as (k0 & Hk0 & Ei & Ef & _). rewrite Hk in Hk0. injection Hk0 as <-.
    split_and!; [done|congruence|congruence|]. by apply (registered_relink r r' ds v v' dk k k').
  - intros dk [k' Hk']. rewrite (rl_next _ _ _ _ _ R). destruct (Hnew dk k' Hk') as (k & Hk & _).
    apply (core_next r C). eauto.
Qed.

(** ** Events that come and go *)

Lemma bkt_up h h' l r : bkt h (up_bkt h' l r) = if decide (h = h') then l else bkt h r.
Proof. unfold bkt, up_bkt. cbn. case_decide; subst; [by rewrite lookup_insert_eq|by rewrite lookup_insert_ne]. Qed.

Lemma statics_custom dk i f : (dk, (i, f)) ∈ statics → custom_filter f = true.
Proof.
  unfold statics, custom_filter.
  rewrite !elem_of_cons, elem_of_nil. intros [[= -> -> ->]|[[= -> -> ->]|[[= -> -> ->]|[[= -> -> ->]|[[= -> -> ->]|[]]]]]];
    rewrite !Z.eqb_refl; by rewrite ?orb_true_r.
Qed.

Lemma core_dispose r dk k :
  reg_core r → r_kevents r !! dk = Some k → k_list k = [] → custom_filter (k_filter k) = false → registered r dk k →
  reg_core (del_kev dk (up_bkt (DSL_HASH (k_ident k)) (tq_del dk (bkt (DSL_HASH (k_ident k)) r)) r)).
Proof.
  intros C Hk Hnil Hc Hr. set (h := DSL_HASH (k_ident k)) in *. set (r' := del_kev _ _).
  assert (Hb : ∀ h' d, d ∈ bkt h' r' ↔ d ≠ dk ∧ d ∈ bkt h' r).
  { intros h' d. change (bkt h' r') with (bkt h' (up_bkt h (tq_del dk (bkt h r)) r)). rewrite bkt_up. case_decide.
    - subst h'. by rewrite elem_of_tq_del.
    - split; [|tauto]. intros Hin. split; [|done]. intros ->. destruct (core_bkt r C h' dk Hin) as (k' & Hk' & ?).
      rewrite Hk in Hk'. injection Hk' as <-. unfold h in *; congruence. }
  assert (Hk' : ∀ d kd, r_kevents r' !! d = Some kd ↔ d ≠ dk ∧ r_kevents r !! d = Some kd).
  { intros d kd. cbn. rewrite lookup_delete_Some. naive_solver. }
  assert (Hg : ∀ d kd, registered r' d kd ↔ d ≠ dk ∧ registered r d kd) by (intros d kd; apply Hb).
  split.
  - intros d w Hw. destruct (core_src r C d w Hw) as [Ht Hs]. split; [done|]. destruct (v_dkev w) as [dd|] eqn:Ed; [|done].
    destruct Hs as (kd & Hkd & Hf & Hs). exists kd. assert (dd ≠ dk).
    { intros ->. rewrite Hk in Hkd. injection Hkd as <-. destruct (v_installed w).
      - rewrite Hnil in Hs. by destruct Hs as [?%elem_of_nil _].
      - destruct Hs as (_ & _ & _ & Hnb & _). by apply (Hnb h). }
    split_and!; [by apply Hk'|done|]. destruct (v_installed w); [destruct Hs as [? ?]; split; [done|by apply Hg]|].
    destruct Hs as (? & ? & ? & Hnb & ?). split_and!; [done|done|done| |done]. intros h'. rewrite Hb. intros [_ ?]. by apply (Hnb h').
  - intros d kd [Hne Hkd]%Hk'. destruct (core_kev r C d kd Hkd) as (? & ? & Hreg). split_and!; [done|done|].
    intros [_ ?]%Hg. auto.
  - intros h' d [Hne Hin]%Hb. destruct (core_bkt r C h' d Hin) as (kd & ? & ?). exists kd. by rewrite Hk'.
  - intros h'. change (bkt h' r') with (bkt h' (up_bkt h (tq_del dk (bkt h r)) r)). rewrite bkt_up.
    case_decide; [apply NoDup_tq_del|]; apply C.
  - intros d kd d' kd' [_ ?]%Hk' [_ ?]%Hk' [_ ?]%Hg [_ ?]%Hg. by apply (core_key r C).
  - intros d i f Hst. destruct (core_static r C d i f Hst) as (kd & Hkd & Hi & Hf & Hreg). exists kd.
    assert (d ≠ dk). { intros ->. rewrite Hk in Hkd. injection Hkd as <-. apply statics_custom in Hst. congruence. }
    split_and!; [by apply Hk'|done|done|by apply Hg].
  - intros d [kd [_ Hkd]%Hk']. apply (core_next r C). eauto.
Qed.

Lemma core_install_new r ds v v' dk k :
  reg_core r → r_sources r !! ds = Some v → v_installed v = false → v_dkev v = Some dk → r_kevents r !! dk = Some k →
  custom_filter (k_filter k) = false →
  (∀ d kd, r_kevents r !! d = Some kd → registered r d kd → k_ident kd = k_ident k → k_filter kd ≠ k_filter k) →
  timer_ok v' → v_dkev v' = Some dk → v_timer v' = v_timer v → v_installed v' = true → v_mask v' = v_mask v →
  reg_core (up_src ds v' (up_kev dk (KV (k_ident k) (k_filter k) (k_fflags k) [ds])
             (up_bkt (DSL_HASH (k_ident k)) (bkt (DSL_HASH (k_ident k)) r ++ [dk]) r))).
Proof.
  intros C Hv Hi Hd Hk Hc Hkey Ht Hd' Htm Hi' Hm. set (h := DSL_HASH (k_ident k)). set (r' := up_src _ _ _).
  destruct (core_src r C ds v Hv) as [_ Hs]. rewrite Hd, Hi in Hs. destruct Hs as (k0 & Hk0 & Hf & Hpriv).
  rewrite Hk in Hk0. injection Hk0 as <-. destruct Hpriv as (Hnil & Hff & _ & Hnb & Hown).
  assert (Hb : ∀ h' d, d ∈ bkt h' r' ↔ d ∈ bkt h' r ∨ h' = h ∧ d = dk).
  { intros h' d. change (bkt h' r') with (bkt h' (up_bkt h (bkt h r ++ [dk]) r)). rewrite bkt_up.
    case_decide; [subst; rewrite elem_of_app, list_elem_of_singleton; naive_solver|naive_solver]. }
  assert (Hks : ∀ d kd, r_kevents r' !! d = Some kd ↔
     d = dk ∧ kd = KV (k_ident k) (k_filter k) (k_fflags k) [ds] ∨ d ≠ dk ∧ r_kevents r !! d = Some kd).
  { intros d kd. cbn. rewrite lookup_insert_Some. naive_solver. }
  assert (Hg : ∀ d kd, d ≠ dk → registered r' d kd ↔ registered r d kd).
  { intros d kd ?. unfold registered. rewrite Hb. naive_solver. }
  assert (Hmsk : ∀ d, msk r' d = msk r d).
  { intros d. unfold r'. rewrite msk_up_src. case_decide; [|done]. subst. unfold msk. by rewrite Hv. }
  assert (Hlist : ∀ d kd, r_kevents r !! d = Some kd → ds ∉ k_list kd).
  { intros d kd Hkd Hin. destruct (core_member r d kd ds C Hkd Hin) as (w & Hw & _ & ?). congruence. }
  split.
  - intros d w. cbn. rewrite lookup_insert_Some. intros [[<- <-]|[Hne Hw]].
    + split; [done|]. rewrite Hd', Hi'. eexists. split_and!; [apply Hks; by left|cbn; by rewrite Htm|cbn; by left|].
      apply Hb. by right.
    + destruct (core_src r C d w Hw) as [Hto Hs]. split; [done|]. destruct (v_dkev w) as [dd|] eqn:Ed; [|done].
      destruct Hs as (kd & Hkd & Hfd & Hs). assert (dd ≠ dk) by (intros ->; apply Hne; symmetry; by apply (Hown d w)).
      exists kd. split_and!; [apply Hks; by right|done|]. destruct (v_installed w); [destruct Hs as [? ?]; split; [done|by apply Hg]|].
      destruct Hs as (? & ? & ? & Hnb' & Hown'). split_and!; [done|done|done|..].
      * intros h'. rewrite Hb. intros [?|[_ ?]]; [by apply (Hnb' h')|done].
      * intros d' w'. cbn. rewrite lookup_insert_Some. intros [[<- <-]|[_ ?]]; [congruence|eauto].
  - intros d kd [[-> ->]|[Hne Hkd]]%Hks.
    + split_and!; [apply NoDup_singleton| |].
      * intros d ->%list_elem_of_singleton. exists v'. cbn. by rewrite lookup_insert_eq.
      * intros _ _. change (k_fflags k = Z.lor (msk r' ds) 0). rewrite Hmsk. unfold msk. rewrite Hv. cbn. by rewrite Z.lor_0_r.
    + destruct (core_kev r C d kd Hkd) as (? & Hl & Hreg). split_and!; [done|..].
      * intros e Hin. destruct (Hl e Hin) as (w & Hw & ? & ?). exists w. cbn. rewrite lookup_insert_ne; [done|].
        intros <-. by apply (Hlist d kd).
      * rewrite Hg by done. intros. rewrite (union_mask_ext r r'); [by apply Hreg|]. intros. apply Hmsk.
  - intros h' d [Hin|[-> ->]]%Hb.
    + destruct (core_bkt r C h' d Hin) as (kd & Hkd & ?). exists kd. rewrite Hks. split; [right|done]. split; [|done].
      intros ->. by apply (Hnb h').
    + eexists. rewrite Hks. split; [by left|done].
  - intros h'. change (bkt h' r') with (bkt h' (up_bkt h (bkt h r ++ [dk]) r)). rewrite bkt_up.
    case_decide; [|apply C]. apply NoDup_app. split_and!; [apply C| |apply NoDup_singleton].
    intros d Hin ->%list_elem_of_singleton. by apply (Hnb h).
  - intros d kd d' kd' [[-> ->]|[Hne Hkd]]%Hks [[-> ->]|[Hne' Hkd']]%Hks Hr Hr' Ei Ef; cbn in *; [done|..].
    + apply Hg in Hr'; [|done]. exfalso. by apply (Hkey d' kd').
    + apply Hg in Hr; [|done]. exfalso. by apply (Hkey d kd).
    + apply (core_key r C d kd d' kd'); try done; by apply Hg.
  - intros d i f Hst. destruct (core_static r C d i f Hst) as (kd & Hkd & Hii & Hff' & Hreg). exists kd.
    assert (d ≠ dk). { intros ->. rewrite Hk in Hkd. injection Hkd as <-. apply statics_custom in Hst. congruence. }
    split_and!; [apply Hks; by right|done|done|by apply Hg].
  - intros d [kd [[-> _]|[_ Hkd]]%Hks]; apply (core_next r C); eauto.
Qed.

(** A source that is created. *)
Lemma core_create r ds v k :
  reg_core r → r_sources r !! ds = None → v_dkev v = Some (r_next r) → v_installed v = false → timer_ok v →
  v_timer v = (k_filter k =? DISPATCH_EVFILT_TIMER) → k_list k = [] → k_fflags k = v_mask v →
  (custom_filter (k_filter k) = true → k_ident k = 0) →
  reg_core (Reg (<[ds := v]> (r_sources r)) (<[r_next r := k]> (r_kevents r)) (r_buckets r) (S (r_next r))).
Proof.
  intros C Hn Hd Hi Ht Htm Hnil Hff Hc. set (dk := r_next r) in *. set (r' := Reg _ _ _ _).
  assert (Hnk : r_kevents r !! dk = None).
  { destruct (r_kevents r !! dk) eqn:E; [|done]. exfalso. pose proof (core_next r C dk (mk_is_Some _ _ E)). unfold dk in *. lia. }
  assert (Hks : ∀ d kd, r_kevents r' !! d = Some kd ↔ d = dk ∧ kd = k ∨ d ≠ dk ∧ r_kevents r !! d = Some kd).
  { intros d kd. cbn. rewrite lookup_insert_Some. naive_solver. }
  assert (Hnb : ∀ h, dk ∉ bkt h r).
  { intros h Hin. destruct (core_bkt r C h dk Hin) as (kd & ? & _). congruence. }
  assert (Hmsk : ∀ l, (∀ d, d ∈ l → d ≠ ds) → union_mask r' l = union_mask r l).
  { intros l Hl. apply union_mask_ext. intros d Hin. unfold msk. cbn. rewrite lookup_insert_ne; [done|]. symmetry. by apply Hl. }
  assert (Hne : ∀ d kd e, r_kevents r !! d = Some kd → e ∈ k_list kd → e ≠ ds).
  { intros d kd e Hkd Hin ->. destruct (core_member r d kd ds C Hkd Hin) as (w & ? & _). congruence. }
  split.
  - intros d w. cbn. rewrite lookup_insert_Some. intros [[<- <-]|[Hd' Hw]].
    + split; [done|]. rewrite Hd, Hi. exists k. split_and!; [apply Hks; by left|done|]. split_and!; [done..|].
      intros d w. cbn. rewrite lookup_insert_Some. intros [[<- _]|[_ Hw]]; [done|]. intros Hdw.
      destruct (core_dkev r d w dk C Hw Hdw) as [? ?]. congruence.
    + destruct (core_src r C d w Hw) as [Hto Hs]. split; [done|]. destruct (v_dkev w) as [dd|] eqn:Ed; [|done].
      destruct Hs as (kd & Hkd & Hf & Hs). exists kd. split_and!; [apply Hks; right; split; [congruence|done]|done|].
      destruct (v_installed w); [done|]. destruct Hs as (? & ? & ? & ? & Hown). split_and!; [done..|].
      intros e w'. cbn. rewrite lookup_insert_Some. intros [[<- <-]|[_ ?]]; [|eauto]. rewrite Hd. intros [= <-]. congruence.
  - intros d kd [[-> ->]|[Hdn Hkd]]%Hks.
    + split_and!; [rewrite Hnil; constructor|rewrite Hnil; by intros ? ?%elem_of_nil|]. intros Hr. exfalso. by apply (Hnb _ Hr).
    + destruct (core_kev r C d kd Hkd) as (? & Hl & Hreg). split_and!; [done|..].
      * intros e Hin. destruct (Hl e Hin) as (w & Hw & ? & ?). exists w. cbn. rewrite lookup_insert_ne; [done|].
        symmetry. by apply (Hne d kd).
      * intros. rewrite Hmsk; [by apply Hreg|]. intros e. by apply (Hne d kd).
  - intros h d Hin. destruct (core_bkt r C h d Hin) as (kd & Hkd & ?). exists kd. rewrite Hks. split; [|done]. right.
    split; [congruence|done].
  - apply (core_nodup r C).
  - intros d kd d' kd' [[-> ->]|[Hdn Hkd]]%Hks [[-> ->]|[Hdn' Hkd']]%Hks Hr Hr'; try (exfalso; by apply (Hnb _ Hr) || by apply (Hnb _ Hr')).
    by apply (core_key r C).
  - intros d i f Hst. destruct (core_static r C d i f Hst) as (kd & Hkd & ? & ? & ?). exists kd.
    split_and!; [apply Hks; right; split; [congruence|done]|done..].
  - intros d [kd [[-> _]|[_ Hkd]]%Hks]; cbn; [unfold dk; lia|]. pose proof (core_next r C d (mk_is_Some _ _ Hkd)). unfold dk in *. lia.
Qed.
End Core.
