(* ===== verification/SourceOps.v ===== *)
(** * What the functions of [Source] do to the registry

    [quiet l s s']: between the two states data arrived at the sources of [l], and nothing
    else happened to sources or to the registry. *)

From Stdlib Require Import Sorted.
From S2P Require Import Prelude Time Source SourceReg SourceCore.

(** ** Primitives *)

Lemma wp_get_source ds x Q s : sources s !! ds = Some x → Q x s → wp (get_source ds) Q s.
Proof. intros H HQ. unfold get_source. apply wp_bind, wp_get. by apply (wp_try_opt _ _ x). Qed.

Lemma wp_modify_source ds f x (Q : unit → mgr_state → Prop) s :
  sources s !! ds = Some x → Q tt (set_sources (<[ds := f x]> (sources s)) s) → wp (modify_source ds f) Q s.
Proof. intros H HQ. unfold modify_source. apply wp_bind. apply (wp_get_source ds x); [done|]. by apply wp_modify. Qed.

Lemma wp_get_kevent dk k Q s : kevents s !! dk = Some k → Q k s → wp (get_kevent dk) Q s.
Proof. intros H HQ. unfold get_kevent. apply wp_bind, wp_get. by apply (wp_try_opt _ _ k). Qed.

Lemma wp_modify_event dk f k (Q : unit → mgr_state → Prop) s :
  kevents s !! dk = Some k → Q tt (set_kevents (<[dk := DK (f (dk_kevent k)) (dk_sources k)]> (kevents s)) s) →
  wp (modify_event dk f) Q s.
Proof. intros H HQ. unfold modify_event. apply wp_bind. apply (wp_get_kevent dk k); [done|]. by apply wp_modify. Qed.

Lemma wp_whenM {A} b (m : SW A) (Q : unit → mgr_state → Prop) s :
  (b = true → wp m (λ _, Q tt) s) → (b = false → Q tt s) → wp (whenM b m) Q s.
Proof. unfold whenM. destruct b; intros H1 H2; [apply wp_bind; eapply wp_mono; [by apply H1|]; by intros; apply wp_ret|]. apply wp_ret. auto. Qed.

Lemma wp_tailq_remove x l Q (s : mgr_state) : x ∈ l → Q (tq_del x l) s → wp (tailq_remove x l) Q s.
Proof. intros H HQ. unfold tailq_remove. by rewrite decide_True. Qed.

(** ** The registry of a state *)

Lemma reg_src s ds v : r_sources (reg_of s) !! ds = Some v ↔ ∃ x, v = sview_of x ∧ sources s !! ds = Some x.
Proof. cbn. rewrite lookup_fmap_Some. naive_solver. Qed.

Lemma reg_kev s dk v : r_kevents (reg_of s) !! dk = Some v ↔ ∃ k, v = kview_of k ∧ kevents s !! dk = Some k.
Proof. cbn. rewrite lookup_fmap_Some. naive_solver. Qed.

Lemma reg_src_of s ds x : sources s !! ds = Some x → r_sources (reg_of s) !! ds = Some (sview_of x).
Proof. intros H. apply reg_src. eauto. Qed.

Lemma reg_kev_of s dk k : kevents s !! dk = Some k → r_kevents (reg_of s) !! dk = Some (kview_of k).
Proof. intros H. apply reg_kev. eauto. Qed.

Lemma reg_set_source s ds x : reg_of (set_sources (<[ds := x]> (sources s)) s) = up_src ds (sview_of x) (reg_of s).
Proof. unfold reg_of, up_src. cbn. by rewrite fmap_insert. Qed.

Lemma reg_set_kevent s dk k : reg_of (set_kevents (<[dk := k]> (kevents s)) s) = up_kev dk (kview_of k) (reg_of s).
Proof. unfold reg_of, up_kev. cbn. by rewrite fmap_insert. Qed.

Lemma reg_del_kevent s dk : reg_of (set_kevents (delete dk (kevents s)) s) = del_kev dk (reg_of s).
Proof. unfold reg_of, del_kev. cbn. by rewrite fmap_delete. Qed.

Lemma reg_put_bucket s h l : reg_of (set_buckets (<[h := l]> (buckets s)) s) = up_bkt h l (reg_of s).
Proof. done. Qed.

Lemma up_src_id r ds v : r_sources r !! ds = Some v → up_src ds v r = r.
Proof. intros H. unfold up_src. rewrite insert_id by done. by destruct r. Qed.

Lemma up_kev_id r dk k : r_kevents r !! dk = Some k → up_kev dk k r = r.
Proof. intros H. unfold up_kev. rewrite insert_id by done. by destruct r. Qed.

Lemma up_src_src r ds v v' : up_src ds v (up_src ds v' r) = up_src ds v r.
Proof. unfold up_src. cbn. by rewrite insert_insert_eq. Qed.

Lemma up_kev_kev r dk k k' : up_kev dk k (up_kev dk k' r) = up_kev dk k r.
Proof. unfold up_kev. cbn. by rewrite insert_insert_eq. Qed.

(** A change that the registry does not see. *)
Lemma reg_same_source s ds x x' :
  sources s !! ds = Some x → sview_of x' = sview_of x →
  reg_of (set_sources (<[ds := x']> (sources s)) s) = reg_of s.
Proof. intros H E. rewrite reg_set_source, E. apply up_src_id. by apply reg_src_of. Qed.

Lemma reg_same_kevent s dk k k' :
  kevents s !! dk = Some k → kview_of k' = kview_of k →
  reg_of (set_kevents (<[dk := k']> (kevents s)) s) = reg_of s.
Proof. intros H E. rewrite reg_set_kevent, E. apply up_kev_id. by apply reg_kev_of. Qed.

(** ** Arrival of data *)

Definition data_arrived (x x' : dispatch_source_s) : Prop :=
  ∃ p f, x' = put_pending_data p (put_atomic_flags f x) ∧
         (f = ds_atomic_flags x ∨ f = Z.ldiff (ds_atomic_flags x) DSF_ARMED).

Record quiet (l : list nat) (s s' : mgr_state) : Prop := {
  q_reg : reg_of s' = reg_of s;
  q_callouts : callouts s' = callouts s;
  q_out : ∀ d, d ∉ l → sources s' !! d = sources s !! d;
  q_in : ∀ d x, sources s !! d = Some x → ∃ x', sources s' !! d = Some x' ∧ data_arrived x x'
}.

Lemma data_arrived_refl x : data_arrived x x.
Proof. exists (ds_pending_data x), (ds_atomic_flags x). split; [by destruct x|by left]. Qed.

Lemma data_arrived_trans x y z : data_arrived x y → data_arrived y z → data_arrived x z.
Proof.
  intros (p & f & -> & Hf) (p' & f' & -> & Hf'). exists p', f'. split; [done|]. cbn in Hf'.
  destruct Hf as [->| ->], Hf' as [->| ->]; [by left|by right|by right|right].
  apply Z.bits_inj'. intros n Hn. rewrite !Z.ldiff_spec. by destruct (Z.testbit _ n), (Z.testbit _ n).
Qed.

Lemma quiet_refl l s : quiet l s s.
Proof. split; try done. intros d x H. exists x. split; [done|apply data_arrived_refl]. Qed.

Lemma quiet_trans l s s' s'' : quiet l s s' → quiet l s' s'' → quiet l s s''.
Proof.
  intros [H1 H2 H3 H4] [G1 G2 G3 G4]. split; [congruence|congruence|..].
  - intros d Hd. by rewrite (G3 d Hd), (H3 d Hd).
  - intros d x (x' & Hx' & A)%H4. destruct (G4 d x' Hx') as (x'' & Hx'' & A'). exists x''. split; [done|].
    by apply (data_arrived_trans x x').
Qed.

Lemma quiet_mono l l' s s' : (∀ d, d ∈ l → d ∈ l') → quiet l s s' → quiet l' s s'.
Proof. intros H [? ? Ho ?]. split; auto. Qed.

(** Changes elsewhere than at the sources. *)
Lemma quiet_same l s s' : reg_of s' = reg_of s → callouts s' = callouts s → sources s' = sources s → quiet l s s'.
Proof.
  intros H1 H2 H3. split; [done|done|by rewrite H3|]. intros d x Hx. rewrite H3. exists x. split; [done|apply data_arrived_refl].
Qed.

Lemma data_arrived_view x x' : data_arrived x x' → sview_of x' = sview_of x.
Proof. by intros (p & f & -> & _). Qed.

Lemma quiet_source l s s' ds x x' :
  quiet l s s' → ds ∈ l → sources s' !! ds = Some x → data_arrived x x' →
  quiet l s (set_sources (<[ds := x']> (sources s')) s').
Proof.
  intros Q Hin Hx A. apply (quiet_trans l s s'); [done|]. split.
  - by apply (reg_same_source s' ds x); [|apply data_arrived_view].
  - done.
  - intros d Hd. cbn. rewrite lookup_insert_ne; [done|]. intros <-. done.
  - intros d y Hy. cbn. destruct (decide (d = ds)) as [->|].
    + rewrite lookup_insert_eq. rewrite Hx in Hy. injection Hy as <-. eauto.
    + rewrite lookup_insert_ne by done. exists y. split; [done|apply data_arrived_refl].
Qed.

Section Ops.
Context {K : KQueue}.

Lemma merge_kevent_quiet ds ke s :
  is_Some (sources s !! ds) → wp (_dispatch_source_merge_kevent ds ke) (λ _ s', quiet [ds] s s') s.
Proof.
  intros [x Hx]. unfold _dispatch_source_merge_kevent. apply wp_bind, (wp_get_source ds x); [done|].
  destruct (ds_over x); [apply wp_ret, quiet_refl|].
  match goal with |- wp (if ?b then _ else _) _ _ => destruct b end; [apply wp_ret, quiet_refl|]. cbv zeta.
  apply wp_bind, (wp_modify_source ds _ x); [done|].
  set (ke' := if has _ _ then _ else _).
  set (s1 := set_sources _ s). assert (Hx1 : sources s1 !! ds = Some (put_pending_data (merged_data x ke') x)) by apply lookup_insert_eq.
  assert (Q1 : quiet [ds] s s1).
  { apply (quiet_source [ds] s s ds x); [apply quiet_refl|by apply list_elem_of_singleton|done|].
    exists (merged_data x ke'), (ds_atomic_flags x). split; [by destruct x|by left]. }
  apply wp_bind, wp_whenM.
  - intros _. eapply wp_modify_source; [exact Hx1|]. set (s2 := set_sources _ s1). apply wp_modify.
    apply (quiet_trans _ s s1); [done|]. apply (quiet_trans _ s1 s2); [|by apply quiet_same].
    eapply quiet_source; [apply quiet_refl|by apply list_elem_of_singleton|exact Hx1|].
    eexists _, _. split; [|right; reflexivity]. by destruct x.
  - intros _. apply wp_modify. eapply quiet_trans; [exact Q1|by apply quiet_same].
Qed.

Lemma merge_all_quiet l ke s :
  (∀ d, d ∈ l → is_Some (sources s !! d)) → wp (merge_all l ke) (λ _ s', quiet l s s') s.
Proof.
  revert s. induction l as [|ds l IH]; intros s H; cbn; [apply wp_ret, quiet_refl|].
  apply wp_bind. eapply wp_mono; [apply merge_kevent_quiet, H; by left|]. intros [] s1 Q1. cbv beta in Q1. cbn.
  eapply wp_mono; [apply IH|].
  - intros d Hd. destruct (H d) as [x Hx]; [by right|]. destruct (q_in _ _ _ Q1 d x Hx) as (x' & ? & _). eauto.
  - intros [] s2 Q2. cbv beta in Q2. apply (quiet_trans _ s s1).
    + apply (quiet_mono [ds]); [|done]. intros d ->%list_elem_of_singleton. by left.
    + apply (quiet_mono l); [|done]. intros d ?. by right.
Qed.

(** An event of the kernel; its kernel event gets at most a flag. *)
Lemma drain_kevent_quiet dk k ke s :
  kevents s !! dk = Some k → (∀ d, d ∈ dk_sources k → is_Some (sources s !! d)) →
  wp (_dispatch_source_drain_kevent dk ke) (λ _ s', quiet (dk_sources k) s s') s.
Proof.
  intros Hk Hl. unfold _dispatch_source_drain_kevent. apply wp_bind, (wp_get_kevent dk k); [done|]. cbv zeta.
  apply wp_bind, wp_modify. set (s1 := set_kevents _ s).
  assert (Q1 : quiet (dk_sources k) s s1).
  { apply quiet_same; [|done|done]. apply (reg_same_kevent s dk k); [done|]. by destruct k, (has _ _). }
  eapply wp_mono; [apply merge_all_quiet, Hl|]. intros [] s2 Q2. cbv beta in Q2. by apply (quiet_trans _ s s1).
Qed.

Lemma update_kq_quiet dk k e s :
  kevents s !! dk = Some k → (∀ d, d ∈ dk_sources k → is_Some (sources s !! d)) →
  wp (_dispatch_update_kq dk e) (λ _ s', quiet (dk_sources k) s s') s.
Proof.
  intros Hk Hl. unfold _dispatch_update_kq. apply wp_bind, wp_get. cbv zeta.
  match goal with |- wp (if ?b then _ else _) _ _ => destruct b end.
  { apply wp_bind, wp_modify, wp_ret. by apply quiet_same. }
  apply wp_bind, wp_modify. set (s1 := set_kq_updates _ s).
  assert (Q1 : quiet (dk_sources k) s s1) by (by apply quiet_same).
  destruct (kevent_call _ _) as [err|rc]; [by apply wp_ret|].
  match goal with |- wp (if ?b then _ else _) _ _ => destruct b end; [by apply wp_ret|].
  case_decide; [by apply wp_ret|]. case_decide; [by apply wp_ret|]. destruct (select_filter _).
  - case_decide; [|by apply wp_ret]. apply wp_bind, wp_modify, wp_ret. by apply quiet_same.
  - apply wp_bind. eapply wp_mono; [by apply (drain_kevent_quiet dk k)|]. intros [] s2 Q2. cbv beta in Q2. apply wp_ret.
    by apply (quiet_trans _ s s1).
Qed.

Lemma kevent_resume_quiet dk k s :
  kevents s !! dk = Some k → (∀ d, d ∈ dk_sources k → is_Some (sources s !! d)) →
  wp (_dispatch_kevent_resume dk) (λ _ s', quiet (dk_sources k) s s') s.
Proof.
  intros Hk Hl. unfold _dispatch_kevent_resume. apply wp_bind, (wp_get_kevent dk k); [done|]. cbv zeta.
  match goal with |- wp (if ?b then _ else _) _ _ => destruct b end; [apply wp_ret, quiet_refl|].
  match goal with |- wp (if ?b then _ else _) _ _ => destruct b end; [apply wp_ret, quiet_refl|].
  apply wp_bind. eapply wp_mono; [by apply (update_kq_quiet dk k)|]. intros res s1 Q1. cbn.
  destruct (proj1 (reg_kev s1 dk (kview_of k))) as (k1 & Ek & Hk1).
  { rewrite (q_reg _ _ _ Q1). by apply reg_kev_of. }
  apply wp_bind, (wp_get_kevent dk k1); [done|]. cbv zeta. apply wp_bind, wp_whenM; [intros _; apply wp_modify|intros _]; apply wp_ret.
  - eapply quiet_trans; [exact Q1|]. apply quiet_same; [|done|done]. apply (reg_same_kevent s1 dk k1); [done|].
    by destruct k1.
  - done.
Qed.
End Ops.
