(* ===== verification/SourceLink.v ===== *)
(** * Uninstalling a source, and the moves between timer lists *)

From Stdlib Require Import Sorted.
From S2P Require Import Prelude Time Source SourceReg SourceCore SourceOps.

(** ** The order of the timer lists *)

Section Order.
Context {K : KQueue}.

Definition timer_index (i : Z) : Prop := i = DISPATCH_TIMER_INDEX_WALL ∨ i = DISPATCH_TIMER_INDEX_MACH.

Lemma tgt_up_src r ds v d : tgt (up_src ds v r) d = if decide (d = ds) then v_target v else tgt r d.
Proof. unfold tgt, up_src. cbn. case_decide; subst; [by rewrite lookup_insert_eq|by rewrite lookup_insert_ne]. Qed.

Lemma but_some_of o ds l : (o = None ∨ o = Some ds) → tq_del ds (but o l) = tq_del ds l.
Proof. intros [->| ->]; cbn; [done|apply tq_del_idem]. Qed.

(** Only [ds] changes, and the lists but for it stay. *)
Lemma arm_change o r r' ds v' :
  (o = None ∨ o = Some ds) → arm_ok o r → r_sources r' = <[ds := v']> (r_sources r) →
  (∀ i k', timer_index i → r_kevents r' !! _dispatch_kevent_timer i = Some k' →
     ∃ k, r_kevents r !! _dispatch_kevent_timer i = Some k ∧ tq_del ds (k_list k') = tq_del ds (k_list k)) →
  arm_ok (Some ds) r'.
Proof.
  intros Ho A Hs Hl i k' Hi Hk'. destruct (Hl i k' Hi Hk') as (k & Hk & E). cbn [but]. rewrite E.
  destruct (A i k Hi Hk) as [Hf Hso]. apply (Forall_tq_del ds) in Hf. apply (Sorted_tq_del ds) in Hso.
  rewrite !(but_some_of o ds) in * by done. split.
  - rewrite Forall_forall in Hf |- *. intros d Hd. destruct (Hf d Hd) as (v & Hv & ?). exists v. rewrite Hs.
    apply elem_of_tq_del in Hd as [? _]. by rewrite lookup_insert_ne.
  - eapply Sorted_mono; [|exact Hso]. intros a b [? _]%elem_of_tq_del [? _]%elem_of_tq_del.
    unfold tgt. by rewrite Hs, !lookup_insert_ne.
Qed.

Lemma arm_drop r ds :
  arm_ok (Some ds) r →
  (∀ i k, timer_index i → r_kevents r !! _dispatch_kevent_timer i = Some k → ds ∉ k_list k) → arm_ok None r.
Proof.
  intros A H i k Hi Hk. destruct (A i k Hi Hk) as [Hf Hs]. cbn [but] in *. by rewrite tq_del_not_in in Hf, Hs by eauto.
Qed.

Lemma arm_but r ds : arm_ok None r → arm_ok (Some ds) r.
Proof.
  intros A i k Hi Hk. destruct (A i k Hi Hk) as [Hf Hs]. split; [by apply Forall_tq_del|by apply Sorted_tq_del].
Qed.

(** *** Insertion *)

Fixpoint insert_at (r : registry) (ds : nat) (t : Z) (l : list nat) : list nat :=
  match l with
  | [] => [ds]
  | d :: l' => if (tgt r d =? 0) || (t <? tgt r d) then ds :: l else d :: insert_at r ds t l'
  end.

Lemma insert_at_perm r ds t l : insert_at r ds t l ≡ₚ ds :: l.
Proof.
  induction l as [|d l IH]; [done|]. cbn. destruct (_ || _); [done|]. rewrite IH. constructor.
Qed.

Lemma insert_at_ext r r' ds t l : (∀ d, d ∈ l → tgt r' d = tgt r d) → insert_at r' ds t l = insert_at r ds t l.
Proof.
  induction l as [|d l IH]; [done|]. intros H. cbn. rewrite (H d) by left. destruct (_ || _); [done|]. f_equal.
  apply IH. intros. apply H. by right.
Qed.

Lemma insert_at_sorted r ds l :
  (∀ d, d ∈ l → tgt r d ≠ 0) →
  StronglySorted (λ a b, tgt r a ≤ tgt r b) l → StronglySorted (λ a b, tgt r a ≤ tgt r b) (insert_at r ds (tgt r ds) l).
Proof.
  intros Hnz Hs. induction Hs as [|d l Hl IH Hd]; cbn.
  - repeat constructor.
  - destruct (Z.eqb_spec (tgt r d) 0) as [E|_]; [exfalso; apply (Hnz d); [by left|done]|]. cbn.
    destruct (Z.ltb_spec (tgt r ds) (tgt r d)) as [Hlt|Hle].
    + constructor; [by constructor|]. constructor; [lia|]. eapply Forall_impl; [exact Hd|]. cbn. intros. lia.
    + constructor; [apply IH; intros; apply Hnz; by right|]. apply Forall_forall. intros x.
      rewrite insert_at_perm, elem_of_cons. intros [->|Hx]; [lia|]. by apply (proj1 (Forall_forall _ _) Hd).
Qed.

Lemma wp_insert_timer ds t l (Q : list nat → mgr_state → Prop) s :
  (∀ d, d ∈ l → is_Some (sources s !! d)) → Q (insert_at (reg_of s) ds t l) s → wp (insert_timer ds t l) Q s.
Proof.
  revert Q. induction l as [|d l IH]; intros Q Hl HQ; cbn in *; [by apply wp_ret|].
  destruct (Hl d) as [x Hx]; [by left|]. apply wp_bind, (wp_get_source d x); [done|].
  assert (E : tgt (reg_of s) d = target (ds_timer x)) by (unfold tgt; by rewrite (reg_src_of s d x)).
  rewrite E in HQ. destruct (_ || _); [by apply wp_ret|]. apply wp_bind, IH; [intros; apply Hl; by right|]. by apply wp_ret.
Qed.

(** ** The registry after a source is uninstalled *)

Lemma relink_unlink r ds v v' dk k ff :
  reg_core r → r_sources r !! ds = Some v → v_installed v = true → v_dkev v = Some dk → r_kevents r !! dk = Some k →
  v_dkev v' = None → v_rearm v' = false → v_installed v' = true → v_mask v' = v_mask v → timer_ok v' →
  (custom_filter (k_filter k) = false → ff = union_mask r (tq_del ds (k_list k))) →
  relink r (up_src ds v' (up_kev dk (KV (k_ident k) (k_filter k) ff (tq_del ds (k_list k))) r)) ds v v'.
Proof.
  intros C Hv Hi Hd Hk Hd' Hr' Hi' Hm Ht Hff.
  destruct (core_listed r ds v dk k C Hv Hi Hd Hk) as (Hin & Hreg & Htm).
  split; try done; [by rewrite Hd'|..].
  - intros d k'. cbn. rewrite lookup_insert_Some. intros [[<- <-]|[Hne Hk']].
    + exists k. destruct (core_kev r C dk k Hk) as (Hn & _ & _). split_and!; cbn; [done..|by apply NoDup_tq_del| |done|done].
      intros d. rewrite elem_of_tq_del, Hd'. naive_solver.
    + exists k'. destruct (core_kev r C d k' Hk') as (Hn & _ & Hf). split_and!; [done..| |done|done].
      intros e. split; [|by intros [[_ ?]|[_ ?]]; congruence]. intros He. left. split; [|done]. intros ->.
      pose proof (core_only r d k' ds v C Hk' He Hv). congruence.
  - intros d kd Hkd _. cbn. destruct (decide (d = dk)) as [->|]; [rewrite lookup_insert_eq|rewrite lookup_insert_ne by done]; eauto.
Qed.

Lemma no_idle_up r r' dk k' :
  no_idle r → r_kevents r' = <[dk := k']> (r_kevents r) → r_buckets r' = r_buckets r →
  (custom_filter (k_filter k') = false → k_list k' ≠ []) → no_idle r'.
Proof.
  intros N Hk Hb Hne d kd. rewrite Hk, lookup_insert_Some. intros [[<- <-]|[_ Hkd]] Hr Hc; [auto|].
  apply (N d kd); [done| |done]. unfold registered, bkt in *. by rewrite Hb in Hr.
Qed.

(** What remains of the registry when the source was not the last one of its
    event, and when it was. *)
Lemma reg_unlink o r ds v v' dk k ff :
  reg_ok o r → (o = None ∨ o = Some ds) →
  r_sources r !! ds = Some v → v_installed v = true → v_dkev v = Some dk → r_kevents r !! dk = Some k →
  v_dkev v' = None → v_rearm v' = false → v_installed v' = true → v_mask v' = v_mask v → timer_ok v' →
  (custom_filter (k_filter k) = false → ff = union_mask r (tq_del ds (k_list k))) →
  let r' := up_src ds v' (up_kev dk (KV (k_ident k) (k_filter k) ff (tq_del ds (k_list k))) r) in
  reg_core r' ∧ arm_ok None r' ∧
  (tq_del ds (k_list k) ≠ [] ∨ custom_filter (k_filter k) = true → no_idle r').
Proof.
  intros (C & A & N) Ho Hv Hi Hd Hk Hd' Hr' Hi' Hm Ht Hff r'.
  pose proof (relink_unlink r ds v v' dk k ff C Hv Hi Hd Hk Hd' Hr' Hi' Hm Ht Hff) as R. split_and!.
  - by apply (core_relink r _ ds v v').
  - apply (arm_drop _ ds).
    + apply (arm_change o r _ ds v'); [done|done|done|]. intros i k' _. cbn. rewrite lookup_insert_Some.
      intros [[<- <-]|[_ ?]]; [exists k; split; [done|apply tq_del_idem]|eauto].
    + intros i k' _ Hk' Hin. destruct (rl_new _ _ _ _ _ R _ k' Hk') as (k0 & _ & _ & _ & _ & Hl & _).
      destruct (proj1 (Hl ds) Hin) as [[Hne _]|[_ Hd2]]; [done|congruence].
  - intros Hne. eapply no_idle_up; [done|done|done|]. cbn. intros Hc. destruct Hne as [?|?]; [done|congruence].
Qed.

Lemma reg_unlink_last o r ds v v' dk k ff :
  reg_ok o r → (o = None ∨ o = Some ds) →
  r_sources r !! ds = Some v → v_installed v = true → v_dkev v = Some dk → r_kevents r !! dk = Some k →
  v_dkev v' = None → v_rearm v' = false → v_installed v' = true → v_mask v' = v_mask v → timer_ok v' →
  tq_del ds (k_list k) = [] → custom_filter (k_filter k) = false →
  let h := DSL_HASH (k_ident k) in
  reg_ok None (up_src ds v' (del_kev dk (up_bkt h (tq_del dk (bkt h r)) (up_kev dk (KV (k_ident k) (k_filter k) ff []) r)))).
Proof.
  intros Hok Ho Hv Hi Hd Hk Hd' Hr' Hi' Hm Ht Hnil Hc h. set (k1 := KV (k_ident k) (k_filter k) 0 []).
  destruct (reg_unlink o r ds v v' dk k 0 Hok Ho Hv Hi Hd Hk Hd' Hr' Hi' Hm Ht) as (C & A & _); [by rewrite Hnil|].
  rewrite Hnil in C, A. set (r1 := up_src ds v' (up_kev dk k1 r)) in *.
  assert (Hk1 : r_kevents r1 !! dk = Some k1) by apply lookup_insert_eq.
  assert (Hr1 : registered r1 dk k1).
  { destruct Hok as (C0 & _ & _). apply (core_listed r ds v dk k C0 Hv Hi Hd Hk). }
  assert (E : up_src ds v' (del_kev dk (up_bkt h (tq_del dk (bkt h r)) (up_kev dk (KV (k_ident k) (k_filter k) ff []) r)))
              = del_kev dk (up_bkt h (tq_del dk (bkt h r1)) r1)).
  { unfold r1, up_src, del_kev, up_bkt, up_kev. cbn. by rewrite !delete_insert_eq. }
  rewrite E. split_and!.
  - by apply (core_dispose r1 dk k1).
  - intros i k' Hi1. cbn. rewrite lookup_delete_Some. intros [_ Hk']. by apply (A i k').
  - intros d kd. cbn [del_kev up_bkt r_kevents]. rewrite lookup_delete_Some. intros [Hne Hkd] Hreg Hcd.
    destruct Hok as (_ & _ & N). apply (N d kd); [| |done].
    + revert Hkd. unfold r1. cbn. by rewrite lookup_insert_ne.
    + revert Hreg. unfold registered. change (bkt (DSL_HASH (k_ident kd)) (del_kev dk (up_bkt h (tq_del dk (bkt h r1)) r1)))
        with (bkt (DSL_HASH (k_ident kd)) (up_bkt h (tq_del dk (bkt h r1)) r1)). rewrite bkt_up.
      case_decide as Eh; [rewrite Eh, elem_of_tq_del; by intros [_ ?]|done].
Qed.
End Order.
