(* ===== verification/SourceCalls.v ===== *)
(** * Installation, uninstallation and the timer lists keep the invariant *)

From Stdlib Require Import Sorted.
From S2P Require Import Prelude Time Source SourceReg SourceCore SourceOps SourceLink.

(** Data may have arrived at other sources. *)
Definition others (ds : nat) (s s' : mgr_state) : Prop :=
  ∀ d, d ≠ ds → match sources s !! d with
                | Some y => ∃ y', sources s' !! d = Some y' ∧ data_arrived y y'
                | None => sources s' !! d = None
                end.

Lemma others_refl ds s s' : (∀ d, d ≠ ds → sources s' !! d = sources s !! d) → others ds s s'.
Proof.
  intros H d Hd. rewrite (H d Hd). destruct (sources s !! d) as [y|] eqn:E; [|done].
  exists y. split; [done|apply data_arrived_refl].
Qed.

Lemma others_of_trans ds s s' s'' : others ds s s' → others ds s' s'' → others ds s s''.
Proof.
  intros H G d Hd. specialize (H d Hd). specialize (G d Hd). destruct (sources s !! d) as [y|].
  - destruct H as (y' & E & A). rewrite E in G. destruct G as (y'' & E' & A'). exists y''. split; [done|].
    by apply (data_arrived_trans y y').
  - by rewrite H in G.
Qed.

Lemma others_quiet ds l s s' : quiet l s s' → ds ∉ l → others ds s s' ∧ sources s' !! ds = sources s !! ds.
Proof.
  intros Q Hl. split; [|by apply Q]. intros d Hd. destruct (sources s !! d) as [y|] eqn:E; [by apply Q|].
  destruct (decide (d ∈ l)) as [Hin|Hin]; [|by rewrite (q_out _ _ _ Q d Hin)].
  pose proof (f_equal (λ r, r_sources r !! d) (q_reg _ _ _ Q)) as Hr. cbn in Hr. rewrite !lookup_fmap, E in Hr. cbn in Hr.
  by destruct (sources s' !! d).
Qed.

Definition unregistered (x : dispatch_source_s) : dispatch_source_s :=
  put_ref_cnt (wrapS 32 (ds_ref_cnt x - 1))
    (put_needs_rearm false (put_atomic_flags (Z.ldiff (ds_atomic_flags x) DSF_ARMED) (put_dkev None x))).

Section Calls.
Context {K : KQueue}.

Lemma wp_wanted l (Q : Z → mgr_state → Prop) s :
  (∀ d, d ∈ l → is_Some (sources s !! d)) → Q (union_mask (reg_of s) l) s → wp (wanted l) Q s.
Proof.
  revert Q. induction l as [|d l IH]; intros Q Hl HQ; [by apply wp_ret|]. change (union_mask (reg_of s) (d :: l)) with (Z.lor (msk (reg_of s) d) (union_mask (reg_of s) l)) in HQ. cbn.
  destruct (Hl d) as [x Hx]; [by left|]. apply wp_bind, (wp_get_source d x); [done|].
  assert (E : msk (reg_of s) d = u32 (ds_pending_data_mask x)) by (unfold msk; by rewrite (reg_src_of s d x)).
  rewrite E in HQ. apply wp_bind, IH; [intros; apply Hl; by right|]. by apply wp_ret.
Qed.

(** The members of a list are live. *)
Lemma core_live s dk k : reg_core (reg_of s) → kevents s !! dk = Some k → ∀ d, d ∈ dk_sources k → is_Some (sources s !! d).
Proof.
  intros C Hk d Hd. destruct (core_member _ dk (kview_of k) d C) as (v & Hv & _); [by apply reg_kev_of|done|].
  apply reg_src in Hv as (x & _ & ?). eauto.
Qed.

(** *** Uninstallation *)

(** The last steps: the source is not armed, and is released. *)
Definition unregister_end (ds : nat) : SW unit :=
  modify_source ds (λ x, put_needs_rearm false (put_atomic_flags (Z.ldiff (ds_atomic_flags x) DSF_ARMED) x));;
  _dispatch_release ds.

Lemma wp_unregister_end ds x (Q : unit → mgr_state → Prop) s :
  sources s !! ds = Some (put_dkev None x) →
  (∀ s', reg_of s' = up_src ds (sview_of (unregistered x)) (reg_of s) → callouts s' = callouts s →
         sources s' = <[ds := unregistered x]> (sources s) → Q tt s') →
  wp (unregister_end ds) Q s.
Proof.
  intros Hx HQ. unfold unregister_end. apply wp_bind. eapply wp_modify_source; [exact Hx|]. set (s1 := set_sources _ s).
  unfold _dispatch_release. eapply wp_modify_source; [apply lookup_insert_eq|]. apply HQ.
  - rewrite reg_set_source. unfold s1. rewrite reg_set_source, up_src_src. done.
  - done.
  - cbn. by rewrite insert_insert_eq.
Qed.

(** The event of the sources that remain is updated, or disposed of. *)
Definition unregister_event (dk : nat) (l : list nat) (mask : Z) : SW unit :=
  match l with
  | [] => _dispatch_kevent_dispose dk
  | _ =>
      fflags ← wanted l;
      let del_flags := Z.ldiff mask fflags in
      whenM (negb (del_flags =? 0))
        (modify_event dk (λ e, set_fflags fflags (set_flags (Z.lor (flags e) EV_ADD) e));;
         _dispatch_kevent_resume dk)
  end.

Lemma unregister_eq ds :
  _dispatch_kevent_unregister ds =
  (x ← get_source ds;
   dk ← try_opt "ds_dkev" (ds_dkev x);
   modify_source ds (put_dkev None);;
   k ← get_kevent dk;
   l ← tailq_remove ds (dk_sources k);
   put_kevent dk (DK (dk_kevent k) l);;
   unregister_event dk l (u32 (ds_pending_data_mask x));;
   unregister_end ds).
Proof. reflexivity. Qed.

Lemma wp_dispose dk k (Q : unit → mgr_state → Prop) s :
  kevents s !! dk = Some k → dk_sources k = [] → dk ∈ bucket (DSL_HASH (ident (dk_kevent k))) s →
  (custom_filter (filter (dk_kevent k)) = true → Q tt s) →
  (∀ s', custom_filter (filter (dk_kevent k)) = false →
         reg_of s' = (let h := DSL_HASH (ident (dk_kevent k)) in
                      del_kev dk (up_bkt h (tq_del dk (bkt h (reg_of s))) (reg_of s))) →
         callouts s' = callouts s → sources s' = sources s → Q tt s') →
  wp (_dispatch_kevent_dispose dk) Q s.
Proof.
  intros Hk Hnil Hin H1 H2. unfold _dispatch_kevent_dispose. apply wp_bind, (wp_get_kevent dk k); [done|]. cbv zeta.
  destruct (custom_filter _) eqn:Ec; [by apply wp_ret, H1|]. set (h := DSL_HASH _) in *.
  assert (Hend : ∀ s1, quiet [] s s1 → wp (s0 ← getS; l ← tailq_remove dk (bucket h s0); put_bucket h l;; free_kevent dk) Q s1).
  { intros s1 Q1. apply wp_bind, wp_get.
    assert (Eb : bucket h s1 = bucket h s) by (pose proof (f_equal r_buckets (q_reg _ _ _ Q1)) as E; cbn in E; unfold bucket; by rewrite E).
    apply wp_bind, wp_tailq_remove; [by rewrite Eb|]. apply wp_bind, wp_modify, wp_modify. apply H2; [done|..].
    - rewrite reg_del_kevent, reg_put_bucket, Eb. cbv zeta. by rewrite (q_reg _ _ _ Q1).
    - apply Q1.
    - cbn. apply map_eq. intros d. apply Q1. apply not_elem_of_nil. }
  apply wp_bind. destruct (_ && _); [apply wp_ret, Hend, quiet_refl|]. destruct (has _ _); [|apply wp_ret, Hend, quiet_refl].
  apply wp_bind, wp_modify. set (s1 := set_kevents _ s).
  assert (Q1 : quiet [] s s1) by (apply quiet_same; [by apply (reg_same_kevent s dk k)|done|done]).
  apply wp_bind. eapply wp_mono; [eapply (update_kq_quiet dk)|].
  - apply lookup_insert_eq.
  - cbn. rewrite Hnil. intros d []%elem_of_nil.
  - cbn. rewrite Hnil. intros ? s2 Q2. apply wp_ret, Hend. by apply (quiet_trans [] s s1).
Qed.

(** The sources [l] that remain: the event asks for their masks, if it asked for
    them and for the one of the source that goes. *)
Lemma wp_unregister_rest s ds dk k x u :
  kevents s !! dk = Some k → dk_sources k ≠ [] → (∀ d, d ∈ dk_sources k → is_Some (sources s !! d)) →
  ds ∉ dk_sources k → sources s !! ds = Some (put_dkev None x) → union_mask (reg_of s) (dk_sources k) = u →
  wp (unregister_event dk (dk_sources k) (u32 (ds_pending_data_mask x)))
    (λ _ s', ∃ ff,
       reg_of s' = up_kev dk (KV (ident (dk_kevent k)) (filter (dk_kevent k)) ff (dk_sources k)) (reg_of s) ∧
       (fflags (dk_kevent k) = Z.lor (u32 (ds_pending_data_mask x)) u → ff = u) ∧
       callouts s' = callouts s ∧ sources s' !! ds = Some (put_dkev None x) ∧ others ds s s') s.
Proof.
  intros Hk Hne Hl Hds Hx Hu. unfold unregister_event. destruct (dk_sources k) as [|d0 l0] eqn:El; [done|].
  rewrite <- El in *. apply wp_bind, wp_wanted; [done|]. rewrite Hu. cbv zeta. apply wp_whenM.
  - intros _. apply wp_bind, (wp_modify_event dk _ k); [done|]. set (k1 := DK _ _). set (s1 := set_kevents _ s).
    eapply wp_mono; [apply (kevent_resume_quiet dk k1); [apply lookup_insert_eq|done]|].
    intros res s2 Q. cbv beta in Q. exists u. destruct (others_quiet ds (dk_sources k) s1 s2 Q Hds) as [Ho Hs].
    split_and!; [|done|by rewrite (q_callouts _ _ _ Q)|by rewrite Hs|done].
    rewrite (q_reg _ _ _ Q). apply reg_set_kevent.
  - intros Hz. apply negb_false_iff, Z.eqb_eq in Hz. exists (fflags (dk_kevent k)). split_and!; [|..].
    + symmetry. apply up_kev_id. rewrite (reg_kev_of s dk k Hk). done.
    + intros ->. by apply ldiff_lor_absorb.
    + done.
    + done.
    + by apply others_refl.
Qed.

Lemma unregister_spec o ds x dk s :
  reg_ok o (reg_of s) → (o = None ∨ o = Some ds) → sources s !! ds = Some x → ds_is_installed x = true →
  ds_dkev x = Some dk →
  wp (_dispatch_kevent_unregister ds)
    (λ _ s', mgr_ok s' ∧ callouts s' = callouts s ∧ sources s' !! ds = Some (unregistered x) ∧ others ds s s') s.
Proof.
  intros Hok Ho Hx Hi Hd. pose proof Hok as (C & _ & _). pose proof (reg_src_of s ds x Hx) as Hv.
  destruct (core_dkev _ ds _ dk C Hv Hd) as [kv Hkv]. destruct (proj1 (reg_kev s dk kv) Hkv) as (k & -> & Hk).
  destruct (core_listed _ ds _ dk _ C Hv Hi Hd Hkv) as (Hin & Hreg & _).
  set (r := reg_of s) in *. set (l := tq_del ds (dk_sources k)). set (x1 := put_dkev None x).
  assert (Ht : timer_ok (sview_of (unregistered x))).
  { intros Htm. destruct (core_src r C ds _ Hv) as [Hto _]. split; [apply (Hto Htm)|]. cbn. congruence. }
  rewrite unregister_eq. apply wp_bind, (wp_get_source ds x); [done|]. apply wp_bind, (wp_try_opt _ _ dk); [done|].
  apply wp_bind, (wp_modify_source ds _ x); [done|]. set (s1 := set_sources _ s).
  apply wp_bind, (wp_get_kevent dk k); [done|]. apply wp_bind, wp_tailq_remove; [done|]. fold l.
  apply wp_bind, wp_modify. set (s2 := set_kevents _ s1).
  assert (Hr2 : reg_of s2 = up_kev dk (KV (ident (dk_kevent k)) (filter (dk_kevent k)) (fflags (dk_kevent k)) l) (up_src ds (sview_of x1) r)).
  { unfold s2. rewrite reg_set_kevent. unfold s1. by rewrite reg_set_source. }
  assert (Hx2 : sources s2 !! ds = Some x1) by apply lookup_insert_eq.
  assert (Ho2 : others ds s s2) by (apply others_refl; intros d Hne; cbn; by rewrite lookup_insert_ne).
  assert (Hlive2 : ∀ d, d ∈ l → is_Some (sources s2 !! d)).
  { intros d [Hne Hd']%elem_of_tq_del. cbn. rewrite lookup_insert_ne by done. by apply (core_live s dk k). }
  assert (Hk2 : kevents s2 !! dk = Some (DK (dk_kevent k) l)) by apply lookup_insert_eq.
  apply wp_bind. destruct (decide (l = [])) as [El|Hne].
  - (* the last source *)
    rewrite El at 1. cbn [unregister_event]. apply (wp_dispose dk _ _ s2 Hk2); [done|exact Hreg|..].
    + intros Hc. cbn in Hc. apply (wp_unregister_end ds x); [done|]. intros s3 E1 E2 E3.
      assert (E : reg_of s3 = up_src ds (sview_of (unregistered x)) (up_kev dk (KV (ident (dk_kevent k)) (filter (dk_kevent k)) (fflags (dk_kevent k)) (tq_del ds (dk_sources k))) r)).
      { rewrite E1, Hr2. unfold up_src, up_kev. cbn. by rewrite insert_insert_eq. }
      destruct (reg_unlink o r ds (sview_of x) (sview_of (unregistered x)) dk (kview_of k) (fflags (dk_kevent k)) Hok Ho Hv Hi Hd Hkv) as (C' & A' & N'); try done; [cbn; congruence|].
      cbn in C', A', N'. split_and!.
      * unfold mgr_ok. rewrite E. split_and!; [done|done|]. apply N'. by right.
      * rewrite E2. done.
      * rewrite E3. apply lookup_insert_eq.
      * eapply others_of_trans; [exact Ho2|]. apply others_refl. intros d Hne. rewrite E3. by rewrite lookup_insert_ne.
    + intros s2' Hc E1' E2' E3'. cbn in Hc, E1'. apply (wp_unregister_end ds x); [by rewrite E3'|]. intros s3 E1 E2 E3. split_and!.
      * unfold mgr_ok. rewrite E1, E1', Hr2. change (bkt _ (up_kev _ _ _)) with (bkt (DSL_HASH (ident (dk_kevent k))) r).
        pose proof (reg_unlink_last o r ds (sview_of x) (sview_of (unregistered x)) dk (kview_of k) (fflags (dk_kevent k)) Hok Ho Hv Hi Hd Hkv) as HL.
        rewrite El. cbn in HL. unfold up_src, del_kev, up_bkt, up_kev in *. cbn in *. rewrite insert_insert_eq. by apply HL.
      * by rewrite E2, E2'.
      * rewrite E3. apply lookup_insert_eq.
      * eapply others_of_trans; [exact Ho2|]. apply others_refl. intros d Hne. by rewrite E3, lookup_insert_ne, E3'.
  - (* others remain *)
    eapply wp_mono; [apply (wp_unregister_rest s2 ds dk (DK (dk_kevent k) l) x (union_mask (reg_of s2) l)); try done; apply tq_del_self|].
    cbn. intros _ s3 (ff & E & Hff & E2 & Hx3 & Ho3). apply (wp_unregister_end ds x); [done|].
    intros s4 E4 E5 E6.
    assert (E7 : reg_of s4 = up_src ds (sview_of (unregistered x)) (up_kev dk (KV (ident (dk_kevent k)) (filter (dk_kevent k)) ff l) r)).
    { rewrite E4, E, Hr2. unfold up_src, up_kev. cbn. by rewrite !insert_insert_eq. }
    destruct (reg_unlink o r ds (sview_of x) (sview_of (unregistered x)) dk (kview_of k) ff Hok Ho Hv Hi Hd Hkv) as (C' & A' & N'); try done.
    { intros Hc. destruct (core_kev r C dk _ Hkv) as (_ & _ & Hu). specialize (Hu Hreg Hc).
      assert (Eu : union_mask (reg_of s2) l = union_mask r l).
      { rewrite Hr2. apply union_mask_ext. intros d [? _]%elem_of_tq_del. unfold msk. cbn. by rewrite lookup_insert_ne. }
      change (ff = union_mask r l). rewrite <- Eu. apply Hff. rewrite Eu. cbn in Hu. cbn. rewrite Hu, (union_mask_del r ds (dk_sources k) Hin). f_equal. unfold msk. by rewrite Hv. }
    split_and!.
    * unfold mgr_ok. rewrite E7. split_and!; [done|done|]. apply N'. by left.
    * by rewrite E5, E2.
    * rewrite E6. apply lookup_insert_eq.
    * eapply others_of_trans; [exact Ho2|]. eapply others_of_trans; [exact Ho3|]. apply others_refl. intros d Hd0. by rewrite E6, lookup_insert_ne.
Qed.
End Calls.
