(* ===== verification/SourceMove.v ===== *)
(** * [_dispatch_timer_list_update] *)

From Stdlib Require Import Sorted.
From S2P Require Import Prelude Time Source SourceReg SourceCore SourceOps SourceLink SourceCalls.

Section Move.
Context {K : KQueue}.

(** ** The registry *)

Lemma relink_move r ds v v' dk k dk' k' l' :
  reg_core r → r_sources r !! ds = Some v → v_installed v = true → v_dkev v = Some dk → r_kevents r !! dk = Some k →
  let r1 := up_kev dk (KV (k_ident k) (k_filter k) (k_fflags k) (tq_del ds (k_list k))) r in
  r_kevents r1 !! dk' = Some k' → registered r dk' k' → custom_filter (k_filter k) = true → custom_filter (k_filter k') = true →
  v_timer v' = (k_filter k' =? DISPATCH_EVFILT_TIMER) → l' ≡ₚ ds :: k_list k' →
  v_dkev v' = Some dk' → v_installed v' = true → v_mask v' = v_mask v → timer_ok v' →
  relink r (up_src ds v' (up_kev dk' (KV (k_ident k') (k_filter k') (k_fflags k') l') r1)) ds v v'.
Proof.
  intros C Hv Hi Hd Hk r1 Hk' Hreg' Hc Hc' Htm Hl' Hd' Hi' Hm Ht.
  destruct (core_listed r ds v dk k C Hv Hi Hd Hk) as (Hin & Hreg & _).
  assert (Hold : ∃ k0, r_kevents r !! dk' = Some k0 ∧ k_ident k' = k_ident k0 ∧ k_filter k' = k_filter k0 ∧
                       (∀ d, d ∈ k_list k' ↔ d ≠ ds ∧ d ∈ k_list k0) ∧ NoDup (k_list k')).
  { revert Hk'. unfold r1. cbn. rewrite lookup_insert_Some. intros [[<- <-]|[Hne Hk0]].
    - exists k. cbn. split_and!; [done..| |]; [intros d; apply elem_of_tq_del|]. apply NoDup_tq_del. apply (core_kev r C dk k Hk).
    - exists k'. split_and!; [done..| |]; [|apply (core_kev r C dk' k' Hk0)].
      intros d. split; [|tauto]. intros Hd0. split; [|done]. intros ->.
      pose proof (core_only r dk' k' ds v C Hk0 Hd0 Hv). congruence. }
  destruct Hold as (k0 & Hk0 & Ei & Ef & Hl & Hn).
  split; try done.
  - rewrite Hd'. exists k0. split_and!; [done|by rewrite <- Ef|]. unfold registered in *. by rewrite <- Ei.
  - intros d kd. cbn. rewrite lookup_insert_Some. intros [[<- <-]|[Hne Hkd]].
    + exists k0. cbn. split_and!; [done|done|done| | | |].
      * rewrite Hl'. constructor; [rewrite Hl; naive_solver|done].
      * intros d. rewrite Hl', elem_of_cons, Hl, Hd'. naive_solver.
      * rewrite <- Ef. congruence.
      * intros Hn'. exfalso. apply Hn'. unfold registered in *. by rewrite <- Ei.
    + revert Hkd. rewrite lookup_insert_Some. intros [[<- <-]|[Hne' Hkd]].
      * exists k. cbn. split_and!; [done|done|done|apply NoDup_tq_del, (core_kev r C dk k Hk)| |congruence|done].
        intros d. rewrite elem_of_tq_del, Hd'. naive_solver.
      * exists kd. destruct (core_kev r C d kd Hkd) as (? & _ & ?). split_and!; [done|done|done|done| |done|done].
        intros e. split; [|intros [[_ ?]|[_ ?]]; [done|congruence]]. intros He. left. split; [|done]. intros ->.
        pose proof (core_only r d kd ds v C Hkd He Hv). congruence.
  - intros d kd Hkd _. cbn. destruct (decide (d = dk')) as [->|]; [rewrite lookup_insert_eq; eauto|].
    rewrite lookup_insert_ne by done. destruct (decide (d = dk)) as [->|]; [rewrite lookup_insert_eq; eauto|].
    rewrite lookup_insert_ne by done. eauto.
Qed.

Lemma insert_at_del r ds t l : ds ∉ l → tq_del ds (insert_at r ds t l) = l.
Proof.
  induction l as [|d l IH]; intros Hl; cbn.
  - unfold tq_del. cbn. by rewrite Nat.eqb_refl.
  - pose proof Hl as [Hne Hl']%not_elem_of_cons. destruct (_ || _); unfold tq_del; cbn.
    + rewrite Nat.eqb_refl. cbn. by apply (tq_del_not_in ds (d :: l)).
    + destruct (Nat.eqb_spec d ds); [congruence|]. cbn. f_equal. by apply IH.
Qed.

(** The list that the source joins is in order again. *)
Lemma arm_move r ds v v' dk k dk' k' l' :
  reg_core r → arm_ok (Some ds) r → r_sources r !! ds = Some v → v_installed v = true → v_dkev v = Some dk →
  r_kevents r !! dk = Some k →
  let r1 := up_kev dk (KV (k_ident k) (k_filter k) (k_fflags k) (tq_del ds (k_list k))) r in
  r_kevents r1 !! dk' = Some k' →
  let r2 := up_src ds v' (up_kev dk' (KV (k_ident k') (k_filter k') (k_fflags k') l') r1) in
  l' ≡ₚ ds :: k_list k' → ds ∉ k_list k' →
  (∀ i, timer_index i → dk' = _dispatch_kevent_timer i →
     l' = insert_at r2 ds (v_target v') (k_list k') ∧ armed r2 i ds) →
  arm_ok None r2.
Proof.
  intros C A Hv Hi Hd Hk r1 Hk' r2 Hl' Hnin Hins.
  assert (Hold : ∃ k0, r_kevents r !! dk' = Some k0 ∧ tq_del ds (k_list k') = tq_del ds (k_list k0)).
  { revert Hk'. unfold r1. cbn. rewrite lookup_insert_Some. intros [[<- <-]|[_ ?]]; [|eauto].
    exists k. split; [done|apply tq_del_idem]. }
  destruct Hold as (k0 & Hk0 & E0).
  assert (Hdel : tq_del ds (k_list k') = k_list k') by (by apply tq_del_not_in).
  assert (A2 : arm_ok (Some ds) r2).
  { apply (arm_change (Some ds) r r2 ds v'); [by right|done|done|]. intros i kk Hi'. unfold r2, r1. cbn.
    rewrite lookup_insert_Some. intros [[Hdk <-]|[Hne Hkk]]; cbn.
    - exists k0. split; [by rewrite <- Hdk|]. destruct (Hins i Hi' Hdk) as [El _].
      by rewrite El, insert_at_del, <- E0, Hdel.
    - revert Hkk. rewrite lookup_insert_Some. intros [[<- <-]|[_ ?]]; [|eauto]. exists k. split; [done|apply tq_del_idem]. }
  intros i kk Hi' Hkk. destruct (A2 i kk Hi' Hkk) as [Hf Hs]. cbn [but] in *.
  revert Hkk. unfold r2, r1. cbn. rewrite lookup_insert_Some. intros [[Hdk <-]|[Hne Hkk]]; cbn in *.
  - destruct (Hins i Hi' Hdk) as [El Ha]. rewrite El, insert_at_del in Hf, Hs by done.
    change (Forall (armed r2 i) l' ∧ StronglySorted (λ a b, tgt r2 a ≤ tgt r2 b) l'). split.
    + rewrite Hl'. by constructor.
    + rewrite El. replace (v_target v') with (tgt r2 ds); [|unfold r2; rewrite tgt_up_src; by rewrite decide_True].
      apply insert_at_sorted; [|done]. intros d Hd'. destruct (proj1 (Forall_forall _ _) Hf d Hd') as (w & Hw & _ & ? & _).
      unfold tgt. by rewrite Hw.
  - assert (Hnk : ds ∉ k_list kk).
    { revert Hkk. rewrite lookup_insert_Some. intros [[_ <-]|[Hne' Hkk]]; [apply tq_del_self|]. intros Hin.
      pose proof (core_only r _ kk ds v C Hkk Hin Hv). congruence. }
    by rewrite tq_del_not_in in Hf, Hs.
Qed.

(** ** The function *)

(** The sources of a timer list. *)
Definition lst (s : mgr_state) (i : Z) : list nat := default [] (dk_sources <$> kevents s !! _dispatch_kevent_timer i).

Definition timer_dest (x : dispatch_source_s) : Z :=
  if timer_disarmed x then DISPATCH_TIMER_INDEX_DISARM else _dispatch_source_timer_idx x.

Definition moved (x : dispatch_source_s) : dispatch_source_s :=
  put_dkev (Some (_dispatch_kevent_timer (timer_dest x)))
    (if timer_disarmed x then put_atomic_flags (Z.ldiff (ds_atomic_flags x) DSF_ARMED) x else x).

Record timer_moved (ds : nat) (x : dispatch_source_s) (s s' : mgr_state) : Prop := {
  tm_sources : sources s' = <[ds := moved x]> (sources s);
  tm_callouts : callouts s' = callouts s;
  tm_wakeups : wakeups s' = wakeups s;
  tm_list : ∀ i, 0 ≤ i ≤ 2 →
    lst s' i ≡ₚ if decide (i = timer_dest x) then ds :: tq_del ds (lst s i) else tq_del ds (lst s i);
  tm_order : ∀ i, 0 ≤ i ≤ 2 → tq_del ds (lst s' i) = tq_del ds (lst s i)
}.

Lemma custom_timer : custom_filter DISPATCH_EVFILT_TIMER = true.
Proof. unfold custom_filter. by rewrite Z.eqb_refl. Qed.

Lemma timer_idx_cases x :
  _dispatch_source_timer_idx x = DISPATCH_TIMER_INDEX_WALL ∨ _dispatch_source_timer_idx x = DISPATCH_TIMER_INDEX_MACH.
Proof. unfold _dispatch_source_timer_idx. destruct (has _ _); auto. Qed.

Lemma timer_dest_range x : 0 ≤ timer_dest x ≤ 2.
Proof.
  unfold timer_dest. destruct (timer_disarmed x); [done|].
  destruct (timer_idx_cases x) as [->| ->]; done.
Qed.

Lemma kevent_timer_inj i j : 0 ≤ i → 0 ≤ j → _dispatch_kevent_timer i = _dispatch_kevent_timer j → i = j.
Proof. unfold _dispatch_kevent_timer. lia. Qed.

Lemma timer_static r i :
  reg_core r → 0 ≤ i ≤ 2 →
  ∃ k, r_kevents r !! _dispatch_kevent_timer i = Some k ∧ k_ident k = i ∧ k_filter k = DISPATCH_EVFILT_TIMER ∧
       registered r (_dispatch_kevent_timer i) k.
Proof.
  intros C Hi. apply (core_static r C). unfold statics.
  assert (i = 0 ∨ i = 1 ∨ i = 2) as [->|[->| ->]] by lia; do 2 right.
  - left.
  - right; left.
  - right; right; left.
Qed.

(** The state once the source is on its list [l']. *)
Lemma list_update_end ds x dk k k' l' s :
  reg_core (reg_of s) → arm_ok (Some ds) (reg_of s) → no_idle (reg_of s) →
  sources s !! ds = Some x → ds_is_timer x = true → ds_is_installed x = true → ds_dkev x = Some dk →
  kevents s !! dk = Some k →
  let dk' := _dispatch_kevent_timer (timer_dest x) in
  let s1 := set_kevents (<[dk := DK (dk_kevent k) (tq_del ds (dk_sources k))]> (kevents s)) s in
  let s2 := set_sources (<[ds := moved x]> (sources s1)) s1 in
  kevents s1 !! dk' = Some k' →
  l' = (if timer_disarmed x then dk_sources k' ++ [ds] else insert_at (reg_of s2) ds (target (ds_timer x)) (dk_sources k')) →
  let s3 := set_kevents (<[dk' := DK (dk_kevent k') l']> (kevents s2)) s2 in
  mgr_ok s3 ∧ timer_moved ds x s s3.
Proof.
  intros C A N Hx Htm Hi Hd Hk dk' s1 s2 Hk' Hl' s3. pose proof (timer_dest_range x) as Hrg.
  pose proof (reg_src_of s ds x Hx) as Hv. pose proof (reg_kev_of s dk k Hk) as Hkv.
  destruct (core_listed _ ds _ dk _ C Hv Hi Hd Hkv) as (Hin & Hreg & Hft). cbn in Hft. rewrite Htm in Hft.
  symmetry in Hft. apply Z.eqb_eq in Hft.
  destruct (timer_static _ _ C Hrg) as (kd & Hkd & Eid & Efd & Hregd). fold dk' in Hkd, Hregd.
  set (v' := sview_of (moved x)).
  assert (Ev : v' = SV (Some dk') (ds_is_timer x) (ds_is_installed x) (ds_needs_rearm x) (u32 (ds_pending_data_mask x))
                      (ds_ident_hack x) (target (ds_timer x)) (interval (ds_timer x)) (_dispatch_source_timer_idx x)).
  { unfold v', moved. fold dk'. by destruct (timer_disarmed x). }
  assert (Er : reg_of s3 = up_src ds v' (up_kev dk' (KV (k_ident (kview_of k')) (k_filter (kview_of k')) (k_fflags (kview_of k')) l')
            (up_kev dk (KV (k_ident (kview_of k)) (k_filter (kview_of k)) (k_fflags (kview_of k)) (tq_del ds (k_list (kview_of k)))) (reg_of s)))).
  { unfold s3. rewrite reg_set_kevent. unfold s2. rewrite reg_set_source. unfold s1. by rewrite reg_set_kevent. }
  assert (Hk1 : r_kevents (up_kev dk (KV (k_ident (kview_of k)) (k_filter (kview_of k)) (k_fflags (kview_of k)) (tq_del ds (k_list (kview_of k)))) (reg_of s)) !! dk' = Some (kview_of k')).
  { apply reg_kev_of in Hk'. unfold s1 in Hk'. by rewrite reg_set_kevent in Hk'. }
  assert (Hnin : ds ∉ dk_sources k').
  { revert Hk'. unfold s1. cbn. rewrite lookup_insert_Some. intros [[_ <-]|[Hne Hk0]]; [apply tq_del_self|]. intros Hin'.
    pose proof (core_only _ dk' (kview_of k') ds _ C (reg_kev_of _ _ _ Hk0) Hin' Hv) as E. cbn in E. congruence. }
  assert (Hp : l' ≡ₚ ds :: dk_sources k').
  { rewrite Hl'. destruct (timer_disarmed x); [|apply insert_at_perm]. by rewrite Permutation_app_comm. }
  assert (Hf' : k_filter (kview_of k') = DISPATCH_EVFILT_TIMER ∧ k_ident (kview_of k') = timer_dest x).
  { revert Hk1. cbn [up_kev r_kevents]. rewrite lookup_insert_Some. intros [[E <-]|[_ Hk1]]; [|by rewrite Hkd in Hk1; injection Hk1 as <-].
    cbn. rewrite E in Hkv. rewrite Hkd in Hkv. injection Hkv as ->. done. }
  destruct Hf' as [Ef' Ei'].
  assert (R : relink (reg_of s) (reg_of s3) ds (sview_of x) v').
  { rewrite Er. apply relink_move; rewrite ?Ev; try done.
    - unfold registered in *. by rewrite Ei', <- Eid.
    - cbn. rewrite Hft. apply custom_timer.
    - rewrite Ef'. apply custom_timer.
    - rewrite Ef'. cbn. by rewrite Htm, Z.eqb_refl.
    - apply (core_src _ C ds _ Hv). }
  split_and!; [split_and!|].
  - by apply (core_relink (reg_of s) _ ds (sview_of x) v').
  - rewrite Er. apply (arm_move (reg_of s) ds (sview_of x)); try done.
    intros i Hidx Edk. apply kevent_timer_inj in Edk; [|lia|destruct Hidx as [->| ->]; done].
    assert (Hnd : timer_disarmed x = false).
    { revert Edk. unfold timer_dest. destruct (timer_disarmed x); [|done]. intros <-. by destruct Hidx. }
    rewrite Hl', Hnd, Ev. split.
    { apply insert_at_ext. intros d _. unfold s2. rewrite reg_set_source. unfold s1. rewrite reg_set_kevent. fold v'. by rewrite Ev. }
    unfold armed. eexists. split; [by cbn; rewrite lookup_insert_eq|]. cbn. split_and!; [done| |].
    + intros E0. unfold timer_disarmed in Hnd. by rewrite E0 in Hnd.
    + revert Edk. unfold timer_dest. by rewrite Hnd.
  - rewrite Er. eapply (no_idle_up (up_kev dk _ (reg_of s)) _ dk'); [|done|done|].
    + eapply no_idle_up; [done|done|done|]. cbn. rewrite Hft, custom_timer. done.
    + cbn. cbn in Ef'. rewrite Ef', custom_timer. done.
  - assert (Hl2 : tq_del ds l' = dk_sources k').
    { rewrite Hl'. destruct (timer_disarmed x); [by apply tq_del_snoc|by apply insert_at_del]. }
    assert (Hlst : ∀ i, 0 ≤ i ≤ 2 → if decide (i = timer_dest x) then lst s3 i = l' ∧ dk_sources k' = tq_del ds (lst s i)
                                    else lst s3 i = tq_del ds (lst s i)).
    { intros i Hir. unfold lst. cbn. case_decide as Edi.
      - subst i. fold dk'. rewrite lookup_insert_eq. split; [done|]. revert Hk'. unfold s1. cbn.
        rewrite lookup_insert_Some. intros [[E <-]|[Hne Hk0]]; cbn; [by rewrite <- E, Hk|]. rewrite Hk0. cbn. by rewrite tq_del_not_in.
      - rewrite lookup_insert_ne. 2: { intros E. apply Edi. symmetry. apply kevent_timer_inj; [lia|lia|done]. }
        destruct (decide (dk = _dispatch_kevent_timer i)) as [E|Hne'].
        + rewrite <- E, lookup_insert_eq, Hk. done.
        + rewrite lookup_insert_ne by done. destruct (kevents s !! _dispatch_kevent_timer i) as [kk|] eqn:Ekk; [|done]. cbn.
          rewrite tq_del_not_in; [done|]. intros Hin'.
          pose proof (core_only _ _ (kview_of kk) ds _ C (reg_kev_of _ _ _ Ekk) Hin' Hv) as E. cbn in E. congruence. }
    split; [done|done|done|..]; intros i Hir; specialize (Hlst i Hir); case_decide.
    + destruct Hlst as [-> <-]. done.
    + by rewrite Hlst.
    + destruct Hlst as [-> <-]. done.
    + by rewrite Hlst, tq_del_idem.
Qed.

(** What follows the registration. *)
Definition timer_list_rest (ds : nat) : SW unit :=
  x ← get_source ds;
  dk ← try_opt "ds_dkev" (ds_dkev x);
  k ← get_kevent dk;
  l ← tailq_remove ds (dk_sources k);
  put_kevent dk (DK (dk_kevent k) l);;
  if timer_disarmed x then
    let dk := _dispatch_kevent_timer DISPATCH_TIMER_INDEX_DISARM in
    modify_source ds (λ x, put_dkev (Some dk) (put_atomic_flags (Z.ldiff (ds_atomic_flags x) DSF_ARMED) x));;
    k ← get_kevent dk;
    put_kevent dk (DK (dk_kevent k) (dk_sources k ++ [ds]))
  else
    let dk := _dispatch_kevent_timer (_dispatch_source_timer_idx x) in
    modify_source ds (put_dkev (Some dk));;
    k ← get_kevent dk;
    l ← insert_timer ds (target (ds_timer x)) (dk_sources k);
    put_kevent dk (DK (dk_kevent k) l).

Lemma list_update_eq register ds :
  timer_list_update_with register ds =
  (x ← get_source ds; match ds_dkev x with None => mret tt | Some _ => register ds;; timer_list_rest ds end).
Proof. reflexivity. Qed.

Lemma list_rest_spec ds x s :
  reg_core (reg_of s) → arm_ok (Some ds) (reg_of s) → no_idle (reg_of s) →
  sources s !! ds = Some x → ds_is_timer x = true → ds_is_installed x = true → is_Some (ds_dkev x) →
  wp (timer_list_rest ds) (λ _ s', mgr_ok s' ∧ timer_moved ds x s s') s.
Proof.
  intros C A N Hx Htm Hi [dk Hd]. unfold timer_list_rest.
  pose proof (reg_src_of s ds x Hx) as Hv. destruct (core_dkev _ ds _ dk C Hv Hd) as [kv Hkv].
  destruct (proj1 (reg_kev s dk kv) Hkv) as (k & -> & Hk).
  destruct (core_listed _ ds _ dk _ C Hv Hi Hd Hkv) as (Hin & _ & _).
  apply wp_bind, (wp_get_source ds x); [done|]. apply wp_bind, (wp_try_opt _ _ dk); [done|].
  apply wp_bind, (wp_get_kevent dk k); [done|]. apply wp_bind, wp_tailq_remove; [done|]. apply wp_bind, wp_modify.
  set (s1 := set_kevents _ s).
  assert (Hk1 : ∃ k', kevents s1 !! _dispatch_kevent_timer (timer_dest x) = Some k').
  { destruct (timer_static _ _ C (timer_dest_range x)) as (kd & Hkd & _). apply reg_kev in Hkd as (k0 & _ & Hk0).
    unfold s1. cbn. destruct (decide (dk = _dispatch_kevent_timer (timer_dest x))) as [->|]; [rewrite lookup_insert_eq; eauto|].
    rewrite lookup_insert_ne by done. eauto. }
  destruct Hk1 as [k' Hk'].
  pose proof (list_update_end ds x dk k k' _ s C A N Hx Htm Hi Hd Hk Hk' eq_refl) as HE. cbv zeta in HE. fold s1 in HE.
  revert Hk' HE. unfold timer_dest, moved. destruct (timer_disarmed x) eqn:Edis; intros Hk' HE; cbv zeta.
  - apply wp_bind, (wp_modify_source ds _ x); [done|]. apply wp_bind, (wp_get_kevent _ k'); [done|]. apply wp_modify.
    unfold timer_dest in HE. rewrite Edis in HE. exact HE.
  - apply wp_bind, (wp_modify_source ds _ x); [done|]. apply wp_bind, (wp_get_kevent _ k'); [done|].
    unfold timer_dest in HE. rewrite Edis in HE. apply wp_bind, wp_insert_timer; [|apply wp_modify; exact HE].
    intros d Hd'. cbn. destruct (decide (d = ds)) as [->|]; [rewrite lookup_insert_eq; eauto|]. rewrite lookup_insert_ne by done.
    revert Hk'. cbn. rewrite lookup_insert_Some. intros [[_ <-]|[_ Hk0]].
    + apply elem_of_tq_del in Hd' as [_ ?]. by apply (core_live s dk k).
    + by apply (core_live s (_dispatch_kevent_timer (_dispatch_source_timer_idx x)) k').
Qed.

Lemma list_update_spec register ds x s :
  reg_core (reg_of s) → arm_ok (Some ds) (reg_of s) → no_idle (reg_of s) →
  sources s !! ds = Some x → ds_is_timer x = true → ds_is_installed x = true → is_Some (ds_dkev x) →
  register ds s = Ok tt s →
  wp (timer_list_update_with register ds) (λ _ s', mgr_ok s' ∧ timer_moved ds x s s') s.
Proof.
  intros C A N Hx Htm Hi [dk Hd] Hreg. rewrite list_update_eq. apply wp_bind, (wp_get_source ds x); [done|]. rewrite Hd.
  apply wp_bind. unfold wp at 1. rewrite Hreg. by apply list_rest_spec.
Qed.

Lemma register_installed depth ds x s :
  sources s !! ds = Some x → ds_is_installed x = true → register_upto (S depth) ds s = Ok tt s.
Proof.
  intros Hx Hi. cbn [register_upto]. unfold kevent_register_with, get_source, mbind, M_bind, getS, try_opt. rewrite Hx. cbn.
  by rewrite Hi.
Qed.
End Move.
