(* ===== verification/SourceInstall.v ===== *)
(** * Installing a source *)

From Stdlib Require Import Sorted.
From S2P Require Import Prelude Time Source SourceReg SourceCore SourceOps SourceLink SourceCalls SourceMove.

(** The part of a source that the manager queue leaves alone. *)
Definition client_of (x : dispatch_source_s) :=
  (has (ds_atomic_flags x) DSF_CANCELED, (ds_is_level x, ds_is_adder x, ds_is_timer x, ds_cancel_is_block x,
   ds_handler_is_block x, ds_registration_is_block x), (ds_data x, ds_pending_data_mask x, ds_handler_func x,
   ds_handler_ctxt x, ds_cancel_handler x, ds_registration_handler x), (ds_do_ctxt x, ds_targetq x, ds_suspend_cnt x,
   ds_xref_cnt x)).

Lemma has_lor a b m : has (Z.lor a b) m = has a m || has b m.
Proof.
  unfold has. rewrite Z.land_lor_distr_l, <- negb_andb. f_equal. apply eq_true_iff_eq.
  rewrite andb_true_iff, !Z.eqb_eq. apply Z.lor_eq_0_iff.
Qed.

Lemma canceled_unarm f : has (Z.ldiff f DSF_ARMED) DSF_CANCELED = has f DSF_CANCELED.
Proof.
  unfold has. f_equal. f_equal. apply Z.bits_inj'. intros n Hn. rewrite !Z.land_spec, Z.ldiff_spec.
  destruct (decide (n = 0)) as [->|]; [cbn; by rewrite andb_true_r|].
  replace (Z.testbit DSF_CANCELED n) with false; [by rewrite !andb_false_r|].
  symmetry. unfold DSF_CANCELED. apply (Z.bits_above_log2 1); [lia|cbn; lia].
Qed.

Lemma canceled_arm f : has (Z.lor f DSF_ARMED) DSF_CANCELED = has f DSF_CANCELED.
Proof. rewrite has_lor. cbn. apply orb_false_r. Qed.

Lemma client_arrived x x' : data_arrived x x' → client_of x' = client_of x.
Proof. intros (p & f & -> & [->| ->]); [done|]. unfold client_of. cbn. by rewrite canceled_unarm. Qed.

Lemma client_unregistered x : client_of (unregistered x) = client_of x.
Proof. unfold client_of, unregistered. cbn. by rewrite canceled_unarm. Qed.

Lemma client_arm x : client_of (put_atomic_flags (Z.lor (ds_atomic_flags x) DSF_ARMED) x) = client_of x.
Proof. unfold client_of. cbn. by rewrite canceled_arm. Qed.

Section Install.
Context {K : KQueue}.

Lemma client_moved x : client_of (moved x) = client_of x.
Proof. unfold moved. destruct (timer_disarmed x); unfold client_of; cbn; [by rewrite canceled_unarm|done]. Qed.

(** What a call for the source [ds] leaves: the invariant, the handlers, the
    other sources, and [ds] as [P] says. *)
Definition leaves (ds : nat) (x : dispatch_source_s) (P : dispatch_source_s → Prop) (s s' : mgr_state) : Prop :=
  mgr_ok s' ∧ callouts s' = callouts s ∧ others ds s s' ∧
  ∃ x', sources s' !! ds = Some x' ∧ client_of x' = client_of x ∧ P x'.

(** Installed, timers with their list. *)
Definition settled (x x' : dispatch_source_s) : Prop :=
  ds_is_installed x' = true ∧ ds_is_timer x' = ds_is_timer x ∧ (ds_is_timer x = true → is_Some (ds_dkev x')).

(** A frame change of [ds] at the end. *)
Lemma leaves_modify ds x (P Q : dispatch_source_s → Prop) f s s0 :
  leaves ds x P s0 s → (∀ y, sview_of (f y) = sview_of y) → (∀ y, client_of (f y) = client_of y) → (∀ y, P y → Q (f y)) →
  wp (modify_source ds f) (λ _ s', leaves ds x Q s0 s') s.
Proof.
  intros (Hok & Hc & Ho & x' & Hx' & Ec & HP) Hv Hf HQ. apply (wp_modify_source ds f x'); [done|]. split_and!.
  - unfold mgr_ok. rewrite (reg_same_source s ds x'); [done|done|apply Hv].
  - done.
  - eapply others_of_trans; [exact Ho|]. apply others_refl. intros d Hd. cbn. by rewrite lookup_insert_ne.
  - exists (f x'). cbn. rewrite lookup_insert_eq. split_and!; [done|by rewrite Hf|auto].
Qed.

Lemma kevent_resume_spec register ds x s :
  reg_core (reg_of s) → arm_ok (Some ds) (reg_of s) → (ds_is_timer x = false → arm_ok None (reg_of s)) → no_idle (reg_of s) →
  sources s !! ds = Some x → ds_is_installed x = true → is_Some (ds_dkev x) → register ds s = Ok tt s →
  wp (_dispatch_source_kevent_resume_with (timer_list_update_with register) ds)
    (λ _ s', leaves ds x (settled x) s s') s.
Proof.
  intros C A A' N Hx Hi [dk Hd] Hreg. unfold _dispatch_source_kevent_resume_with.
  pose proof (reg_src_of s ds x Hx) as Hv. destruct (core_dkev _ ds _ dk C Hv Hd) as [kv Hkv].
  destruct (proj1 (reg_kev s dk kv) Hkv) as (k & -> & Hk).
  destruct (core_listed _ ds _ dk _ C Hv Hi Hd Hkv) as (Hin & _ & Htm). cbn in Htm.
  apply wp_bind, (wp_get_source ds x); [done|]. apply wp_bind, (wp_try_opt _ _ dk); [done|].
  apply wp_bind, (wp_get_kevent dk k); [done|]. rewrite <- Htm. destruct (ds_is_timer x) eqn:Et.
  - eapply wp_mono; [by apply (list_update_spec register ds x)|]. intros [] s' [Hok M]. split_and!; [done|apply M|..].
    + apply others_refl. intros d Hd'. rewrite (tm_sources _ _ _ _ M). by rewrite lookup_insert_ne.
    + exists (moved x). rewrite (tm_sources _ _ _ _ M), lookup_insert_eq. split_and!; [done|apply client_moved|].
      unfold settled, moved. destruct (timer_disarmed x); cbn; eauto.
  - assert (Hok : mgr_ok s) by (split_and!; auto).
    apply wp_bind. eapply wp_mono; [apply (kevent_resume_quiet dk k); [done|by apply (core_live s dk k)]|].
    intros res s1 Q. cbv beta in Q. destruct (q_in _ _ _ Q ds x Hx) as (x1 & Hx1 & Ar).
    assert (Hok1 : mgr_ok s1) by (unfold mgr_ok; by rewrite (q_reg _ _ _ Q)).
    assert (Ho1 : others ds s s1).
    { intros d Hd'. destruct (sources s !! d) as [y|] eqn:E; [by apply Q|].
      destruct (decide (d ∈ dk_sources k)) as [Hin'|Hn]; [|by rewrite (q_out _ _ _ Q d Hn)].
      destruct (core_live s dk k C Hk d Hin') as [? ?]. congruence. }
    pose proof (client_arrived x x1 Ar) as Ec. destruct Ar as (p & f & Ex1 & Hf).
    apply wp_whenM; intros _.
    + eapply wp_mono; [apply (unregister_spec None ds x1 dk); [done|by left|done|by rewrite Ex1|by rewrite Ex1]|].
      intros [] s2 (Hok2 & Hc & Hx2 & Ho2). split_and!; [done|by rewrite Hc, (q_callouts _ _ _ Q)|by apply (others_of_trans ds s s1)|].
      exists (unregistered x1). split_and!; [done|by rewrite client_unregistered|]. unfold settled. rewrite Ex1, Et. cbn. done.
    + split_and!; [done|apply Q|done|]. exists x1. split_and!; [done|done|]. unfold settled. rewrite Ex1, Et. cbn. done.
Qed.

(** ** Attaching to an event *)

Lemma relink_install r ds v v' dk0 k0 dk k :
  reg_core r → r_sources r !! ds = Some v → v_installed v = false → v_dkev v = Some dk0 → r_kevents r !! dk0 = Some k0 →
  r_kevents r !! dk = Some k → registered r dk k → k_filter k = k_filter k0 →
  v_dkev v' = Some dk → v_installed v' = true → v_mask v' = v_mask v → v_timer v' = v_timer v → timer_ok v' →
  relink r (up_src ds v' (up_kev dk (KV (k_ident k) (k_filter k) (Z.lor (k_fflags k) (k_fflags k0)) (k_list k ++ [ds])) (del_kev dk0 r)))
    ds v v'.
Proof.
  intros C Hv Hi Hd Hk0 Hk Hreg Ef Hd' Hi' Hm Htm Ht.
  destruct (core_src r C ds v Hv) as [_ Hs]. rewrite Hd, Hi in Hs. destruct Hs as (k0' & E & Hf & Hpriv).
  rewrite Hk0 in E. injection E as <-. destruct Hpriv as (_ & Hff & _ & Hnb & Hown).
  assert (Hlist : ∀ d kd, r_kevents r !! d = Some kd → ds ∉ k_list kd).
  { intros d kd Hkd Hin. destruct (core_member r d kd ds C Hkd Hin) as (w & Hw & _ & ?). congruence. }
  assert (Hne : dk ≠ dk0). { intros ->. rewrite Hk in Hk0. injection Hk0 as <-. by apply (Hnb _ Hreg). }
  destruct (core_kev r C dk k Hk) as (Hn & _ & Hu).
  split; try done.
  - rewrite Hd'. exists k. split_and!; [done|by rewrite Htm, Hf, Ef|done].
  - intros d kd. cbn. rewrite lookup_insert_Some. intros [[<- <-]|[Hnd Hkd]].
    + exists k. cbn. split_and!; [done..| | | |done].
      * apply NoDup_app. split_and!; [done| |apply NoDup_singleton]. intros e He ->%list_elem_of_singleton. by apply (Hlist dk k).
      * intros e. rewrite elem_of_app, list_elem_of_singleton, Hd'. pose proof (Hlist dk k Hk). naive_solver.
      * intros _ Hc. rewrite (Hu Hreg Hc), union_mask_app, Hff. f_equal. change (v_mask v = Z.lor (msk r ds) 0).
        unfold msk. rewrite Hv. cbn. by rewrite Z.lor_0_r.
    + revert Hkd. rewrite lookup_delete_Some. intros [Hn0 Hkd]. exists kd. destruct (core_kev r C d kd Hkd) as (? & _ & ?).
      split_and!; [done..| |done|done]. intros e. rewrite Hd'. pose proof (Hlist d kd Hkd). split; [|naive_solver].
      intros He. left. split; [|done]. intros ->. done.
  - intros d kd Hkd Hor. cbn. destruct (decide (d = dk)) as [->|]; [rewrite lookup_insert_eq; eauto|].
    rewrite lookup_insert_ne by done. rewrite lookup_delete_ne; [eauto|]. intros <-. destruct Hor as [Hr|?]; [|done].
    rewrite Hk0 in Hkd. injection Hkd as <-. by apply (Hnb _ Hr).
Qed.

(** The registry once the source is on the list of the event found. *)
Lemma reg_install r ds v v' dk0 k0 dk k :
  reg_ok None r → r_sources r !! ds = Some v → v_installed v = false → v_dkev v = Some dk0 → r_kevents r !! dk0 = Some k0 →
  r_kevents r !! dk = Some k → registered r dk k → k_filter k = k_filter k0 →
  v_dkev v' = Some dk → v_installed v' = true → v_mask v' = v_mask v → v_timer v' = v_timer v → timer_ok v' →
  let r' := up_src ds v' (up_kev dk (KV (k_ident k) (k_filter k) (Z.lor (k_fflags k) (k_fflags k0)) (k_list k ++ [ds])) (del_kev dk0 r)) in
  reg_core r' ∧ arm_ok (Some ds) r' ∧ (v_timer v = false → arm_ok None r') ∧ no_idle r'.
Proof.
  intros (C & A & N) Hv Hi Hd Hk0 Hk Hreg Ef Hd' Hi' Hm Htm Ht r'.
  pose proof (relink_install r ds v v' dk0 k0 dk k C Hv Hi Hd Hk0 Hk Hreg Ef Hd' Hi' Hm Htm Ht) as R. fold r' in R.
  assert (Hlist : ∀ d kd, r_kevents r !! d = Some kd → ds ∉ k_list kd).
  { intros d kd Hkd Hin. destruct (core_member r d kd ds C Hkd Hin) as (w & Hw & _ & ?). congruence. }
  assert (A2 : arm_ok (Some ds) r').
  { apply (arm_change None r r' ds v'); [by left|done|done|]. intros i kk _. cbn. rewrite lookup_insert_Some.
    intros [[<- <-]|[_ [_ ?]%lookup_delete_Some]]; [|eauto]. exists k. split; [done|]. cbn [k_list].
    rewrite tq_del_snoc, tq_del_not_in; [done|..]; by apply (Hlist dk k). }
  split_and!; [by apply (core_relink r r' ds v v')|done|..].
  - intros Hnt. apply (arm_drop r' ds); [done|]. intros i kk Hidx Hkk Hin.
    assert (C' : reg_core r') by (by apply (core_relink r r' ds v v')).
    pose proof (core_only r' _ kk ds v' C' Hkk Hin (lookup_insert_eq _ _ _)) as Edk.
    destruct (core_listed r' ds v' _ kk C' (lookup_insert_eq _ _ _) Hi' Edk Hkk) as (_ & _ & Et).
    rewrite Htm, Hnt in Et. symmetry in Et. apply Z.eqb_neq in Et. apply Et.
    destruct (timer_static r' i C') as (kt & Hkt & _ & Hft & _); [destruct Hidx as [->| ->]; done|].
    rewrite Hkk in Hkt. injection Hkt as ->. done.
  - intros d kd. unfold r'. cbn [up_src up_kev del_kev r_kevents]. rewrite lookup_insert_Some.
    intros [[<- <-]|[_ [_ Hkd]%lookup_delete_Some]] Hr Hc; cbn in *; [by destruct (k_list k)|].
    by apply (N d kd).
Qed.

(** The same, when there was no event to share. *)
Lemma reg_install_new r ds v v' dk k :
  reg_ok None r → r_sources r !! ds = Some v → v_installed v = false → v_dkev v = Some dk → r_kevents r !! dk = Some k →
  (∀ d kd, d ∈ bkt (DSL_HASH (k_ident k)) r → r_kevents r !! d = Some kd → k_ident kd = k_ident k → k_filter kd ≠ k_filter k) →
  timer_ok v' → v_dkev v' = Some dk → v_timer v' = v_timer v → v_installed v' = true → v_mask v' = v_mask v →
  let h := DSL_HASH (k_ident k) in
  let r' := up_src ds v' (up_kev dk (KV (k_ident k) (k_filter k) (k_fflags k) [ds]) (up_bkt h (bkt h r ++ [dk]) r)) in
  reg_core r' ∧ arm_ok (Some ds) r' ∧ (v_timer v = false → arm_ok None r') ∧ no_idle r'.
Proof.
  intros (C & A & N) Hv Hi Hd Hk Hfind Ht Hd' Htm Hi' Hm h r'.
  destruct (core_src r C ds v Hv) as [_ Hs]. rewrite Hd, Hi in Hs. destruct Hs as (k' & E & Hf & Hpriv).
  rewrite Hk in E. injection E as <-. destruct Hpriv as (_ & _ & Hz & Hnb & _).
  assert (Hc : custom_filter (k_filter k) = false).
  { apply not_true_iff_false. intros Hc. specialize (Hz Hc).
    assert (∃ d f, (d, (0, f)) ∈ statics ∧ f = k_filter k) as (d & f & Hst & Ef).
    { unfold custom_filter in Hc. rewrite !orb_true_iff, !Z.eqb_eq in Hc. destruct Hc as [[->| ->]| ->]; eexists _, _; (split; [|reflexivity]); unfold statics.
      - right; right; left.
      - right; left.
      - left. }
    destruct (core_static r C d 0 f Hst) as (kd & Hkd & Ei & Ef' & Hr).
    apply (Hfind d kd); [unfold registered in Hr; by rewrite Ei in Hr; rewrite Hz|done|congruence|congruence]. }
  assert (C' : reg_core r').
  { apply (core_install_new r ds v v' dk k); try done. intros d kd Hkd Hr Ei. apply (Hfind d kd); [|done|done].
    unfold registered in Hr. by rewrite Ei in Hr. }
  assert (Hst : ∀ i kk, timer_index i → r_kevents r' !! _dispatch_kevent_timer i = Some kk → r_kevents r !! _dispatch_kevent_timer i = Some kk).
  { intros i kk Hidx. cbn. rewrite lookup_insert_Some. intros [[Edk _]|[_ ?]]; [|done]. exfalso.
    destruct (timer_static r i C) as (kt & _ & _ & _ & Hr); [destruct Hidx as [->| ->]; done|]. rewrite <- Edk in Hr. by apply (Hnb _ Hr). }
  assert (A2 : arm_ok (Some ds) r').
  { apply (arm_change None r r' ds v'); [by left|done|done|]. intros i kk Hidx Hkk. exists kk. split; [by apply Hst|done]. }
  split_and!; [done|done|..].
  - intros _. apply (arm_drop r' ds); [done|]. intros i kk Hidx Hkk Hin.
    destruct (core_member r _ kk ds C (Hst i kk Hidx Hkk) Hin) as (w & Hw & _ & ?). congruence.
  - intros d kd. unfold r'. cbn [up_src up_kev up_bkt r_kevents]. rewrite lookup_insert_Some. intros [[<- <-]|[Hne Hkd]]; [done|].
    unfold registered. change (bkt ?a (up_src _ _ (up_kev _ _ ?b))) with (bkt a b). rewrite bkt_up. intros Hr Hcd.
    apply (N d kd); [done| |done]. unfold registered. case_decide as Eh; [|done]. rewrite Eh.
    apply elem_of_app in Hr as [?|Hin]; [done|]. apply list_elem_of_singleton in Hin. congruence.
Qed.

Lemma wp_find_kevent l i f (Q : option nat → mgr_state → Prop) s :
  (∀ d, d ∈ l → is_Some (kevents s !! d)) →
  (∀ dk k, dk ∈ l → kevents s !! dk = Some k → ident (dk_kevent k) = i → filter (dk_kevent k) = f → Q (Some dk) s) →
  ((∀ dk k, dk ∈ l → kevents s !! dk = Some k → ident (dk_kevent k) = i → filter (dk_kevent k) ≠ f) → Q None s) →
  wp (find_kevent l i f) Q s.
Proof.
  induction l as [|d l IH]; intros Hl HS HN; cbn.
  - apply wp_ret, HN. intros d k Hd. by apply elem_of_nil in Hd.
  - destruct (Hl d) as [k Hk]; [by left|]. apply wp_bind, (wp_get_kevent d k); [done|].
    destruct (_ && _) eqn:E.
    + apply andb_true_iff in E as [E1%Z.eqb_eq E2%Z.eqb_eq]. apply wp_ret. apply (HS d k); [left|done..].
    + apply IH; [intros; apply Hl; by right|intros dk' k' ?; apply HS; by right|]. intros HN'. apply HN.
      intros dk' k' [->|Hin]%elem_of_cons Hk'; [|by apply (HN' dk')]. rewrite Hk in Hk'. injection Hk' as <-.
      intros E1 E2. rewrite E1, E2, !Z.eqb_refl in E. done.
Qed.

Definition installed (x : dispatch_source_s) : dispatch_source_s := put_is_installed true x.

(** After the event is found, and once the source is put on its list. *)
Lemma attach_spec ds x dk0 s :
  mgr_ok s → sources s !! ds = Some x → ds_is_installed x = false → ds_dkev x = Some dk0 →
  let s1 := set_sources (<[ds := installed x]> (sources s)) s in
  wp (kevent_attach ds dk0)
    (λ p s2, sources s2 = <[ds := put_dkev (Some p.1) (installed x)]> (sources s) ∧ callouts s2 = callouts s ∧
       ∃ k2, kevents s2 !! p.1 = Some k2 ∧
       let r' := up_kev p.1 (KV (ident (dk_kevent k2)) (filter (dk_kevent k2)) (fflags (dk_kevent k2)) (dk_sources k2 ++ [ds])) (reg_of s2) in
       reg_core r' ∧ arm_ok (Some ds) r' ∧ (ds_is_timer x = false → arm_ok None r') ∧ no_idle r') s1.
Proof.
  intros Hok Hx Hi Hd s1. pose proof Hok as (C & A & N). pose proof (reg_src_of s ds x Hx) as Hv.
  destruct (core_dkev _ ds _ dk0 C Hv Hd) as [kv Hkv]. destruct (proj1 (reg_kev s dk0 kv) Hkv) as (k0 & -> & Hk0).
  pose proof (core_src _ C ds _ Hv) as [Hto Hs]. cbn in Hs. rewrite Hd, Hi in Hs. destruct Hs as (k & E & Hf & Hpriv).
  assert (Ek : k = kview_of k0). { change (r_kevents (reg_of s) !! dk0 = Some k) in E. congruence. } subst k. clear E. destruct Hpriv as (Hnil & Hff & Hz & Hnb & Hown).
  assert (Ht' : ∀ dk, timer_ok (sview_of (put_dkev (Some dk) (installed x)))).
  { intros dk Htm. split; [apply (Hto Htm)|done]. }
  unfold kevent_attach. apply wp_bind, (wp_get_kevent dk0 k0); [done|]. cbv zeta. apply wp_bind.
  unfold _dispatch_kevent_find. apply wp_bind, wp_get. set (h := _dispatch_kevent_hash _).
  assert (Hbk : ∀ d, d ∈ bucket h s1 → ∃ kd, kevents s !! d = Some kd ∧ registered (reg_of s) d (kview_of kd) ∧ DSL_HASH (ident (dk_kevent kd)) = h).
  { intros d Hin. destruct (core_bkt _ C h d Hin) as (kd & Hkd & Eh). apply reg_kev in Hkd as (kd' & -> & Hkd').
    exists kd'. split_and!; [done| |done]. unfold registered. by rewrite Eh. }
  apply wp_find_kevent.
  - intros d Hin. destruct (Hbk d Hin) as (kd & ? & _). exists kd. done.
  - intros dk k Hin Hk Ei Ef. destruct (Hbk dk Hin) as (k' & Hk' & Hreg & _). cbn in Hk. rewrite Hk in Hk'. injection Hk' as <-.
    assert (Hne : dk ≠ dk0). { intros ->. by apply (Hnb h). }
    apply wp_bind, (wp_get_kevent dk k); [done|]. cbv zeta. apply wp_bind, wp_modify. apply wp_bind, wp_modify.
    apply wp_bind. eapply (wp_modify_source ds _ (installed x)); [apply lookup_insert_eq|]. apply wp_ret. cbn [fst].
    split_and!; [cbn; by rewrite insert_insert_eq|done|].
    eexists. split; [cbn; rewrite lookup_delete_ne by done; apply lookup_insert_eq|].
    pose proof (reg_install (reg_of s) ds (sview_of x) (sview_of (put_dkev (Some dk) (installed x))) dk0 (kview_of k0) dk (kview_of k)
                  Hok Hv Hi Hd Hkv (reg_kev_of _ _ _ Hk) Hreg Ef eq_refl eq_refl eq_refl eq_refl (Ht' dk)) as HR.
    cbv zeta in HR. cbn [dk_kevent dk_sources set_fflags ident filter fflags].
    match goal with |- context [reg_core ?a] => match type of HR with reg_core ?b ∧ _ => replace a with b; [exact HR|] end end.
    unfold reg_of, up_src, up_kev, del_kev. cbn. rewrite !fmap_insert, fmap_delete, fmap_insert. cbn. rewrite insert_insert_eq.
    rewrite delete_insert_ne by done. by rewrite insert_insert_eq.
  - intros Hnone. unfold _dispatch_kevent_insert. apply wp_bind, wp_bind, (wp_get_kevent dk0 k0); [done|].
    apply wp_bind, wp_get. cbv zeta. apply wp_modify. apply wp_ret. cbn [fst].
    assert (Ex : put_dkev (Some dk0) (installed x) = installed x) by (unfold put_dkev, installed; cbn; by rewrite <- Hd).
    split_and!; [cbn; by rewrite Ex|done|]. exists k0. split; [done|].
    pose proof (reg_install_new (reg_of s) ds (sview_of x) (sview_of (installed x)) dk0 (kview_of k0) Hok Hv Hi Hd Hkv) as HR.
    cbv zeta in HR. cbn in Hnil. cbv zeta. rewrite Hnil, reg_put_bucket. unfold s1. rewrite reg_set_source.
    apply HR; try done; [|rewrite <- Ex; apply Ht'].
    intros d kd Hin Hkd. destruct (proj1 (reg_kev s d kd) Hkd) as (kd' & -> & Hkd'). by apply (Hnone d kd').
Qed.

Lemma register_upto_spec depth ds x s :
  mgr_ok s → sources s !! ds = Some x → ds_is_installed x = false →
  wp (register_upto (S (S depth)) ds)
    (λ _ s', leaves ds x (settled x) s s') s.
Proof.
  intros Hok Hx Hi. pose proof Hok as (C & _ & _). pose proof (reg_src_of s ds x Hx) as Hv.
  destruct (core_src _ C ds _ Hv) as [Hto Hs]. cbn in Hs.
  destruct (ds_dkev x) as [dk0|] eqn:Hd; [|destruct Hs; congruence]. clear Hs.
  cbn [register_upto]. unfold kevent_register_with at 1. apply wp_bind, (wp_get_source ds x); [done|]. rewrite Hi.
  apply wp_bind, (wp_modify_source ds _ x); [done|]. apply wp_bind, (wp_try_opt _ _ dk0); [done|].
  apply wp_bind. eapply wp_mono; [by apply (attach_spec ds x dk0 s)|].
  intros [dk b] s2 (Hs2 & Hc2 & k2 & Hk2 & HR). cbn [fst] in *. cbv zeta in HR. destruct HR as (C3 & A3 & A3' & N3).
  apply wp_bind, (wp_get_kevent dk k2); [done|]. apply wp_bind, wp_modify. set (s3 := set_kevents _ s2).
  set (x3 := put_dkev (Some dk) (installed x)).
  assert (Hgen : ∀ s4, reg_of s4 = reg_of s3 → sources s4 = sources s2 → callouts s4 = callouts s →
    wp (whenM (b || ds_needs_rearm x) (_dispatch_source_kevent_resume_with (timer_list_update_with (register_upto (S depth))) ds);;
        modify_source ds (λ x, put_atomic_flags (Z.lor (ds_atomic_flags x) DSF_ARMED) x))
      (λ _ s', leaves ds x (settled x) s s') s4).
  { intros s4 E4 Es4 Ec4.
    assert (E3 : reg_of s4 = up_kev dk (KV (ident (dk_kevent k2)) (filter (dk_kevent k2)) (fflags (dk_kevent k2)) (dk_sources k2 ++ [ds])) (reg_of s2)).
    { rewrite E4. unfold s3. by rewrite reg_set_kevent. }
    rewrite <- E3 in C3, A3, A3', N3.
    assert (Hx4 : sources s4 !! ds = Some x3) by (rewrite Es4, Hs2; apply lookup_insert_eq).
    assert (Ho4 : others ds s s4) by (apply others_refl; intros d Hne; by rewrite Es4, Hs2, lookup_insert_ne).
    apply wp_bind, wp_whenM; intros Hb.
    - eapply wp_mono; [apply (kevent_resume_spec (register_upto (S depth)) ds x3); try done; by apply (register_installed depth ds x3)|].
      intros [] s5 (Hok5 & Hc5 & Ho5 & x5 & Hx5 & Ec5 & St5).
      apply (leaves_modify ds x (settled x));
        [|done|intros; apply client_arm|done].
      split_and!; [done|congruence|by apply (others_of_trans ds s s4)|]. exists x5. split_and!; [done|by rewrite Ec5|exact St5].
    - apply (leaves_modify ds x (settled x));
        [|done|intros; apply client_arm|done].
      apply orb_false_iff in Hb as [_ Hr].
      assert (Hnt : ds_is_timer x = false).
      { apply not_true_iff_false. intros Htm. destruct (Hto Htm) as [_ Hre]. specialize (Hre Hi). cbn in Hre. congruence. }
      split_and!; [split_and!; auto|done|done|]. exists x3. split_and!; [done|done|]. unfold settled. cbn. eauto. }
  apply wp_bind, wp_whenM; intros Hb.
  - eapply wp_modify_event; [apply lookup_insert_eq|]. apply Hgen; [|done|done].
    eapply reg_same_kevent; [apply lookup_insert_eq|done].
  - by apply Hgen.
Qed.

Lemma register_spec ds x s :
  mgr_ok s → sources s !! ds = Some x → ds_is_installed x = false →
  wp (_dispatch_kevent_register ds)
    (λ _ s', leaves ds x (settled x) s s') s.
Proof. apply register_upto_spec. Qed.

Lemma moved_leaves ds x s (a : unit) s' :
  ds_is_timer x = true → mgr_ok s' ∧ timer_moved ds x s s' → leaves ds x (λ x', ds_is_timer x' = true) s s'.
Proof.
  intros Ht [Hok M]. split_and!; [done|apply M|..].
  - apply others_refl. intros d Hd'. rewrite (tm_sources _ _ _ _ M). by rewrite lookup_insert_ne.
  - exists (moved x). rewrite (tm_sources _ _ _ _ M), lookup_insert_eq. split_and!; [done|apply client_moved|].
    unfold moved. by destruct (timer_disarmed x).
Qed.

(** A timer whose dates changed, or that goes on. *)
Lemma timer_update_spec ds x s :
  reg_core (reg_of s) → arm_ok (Some ds) (reg_of s) → no_idle (reg_of s) →
  sources s !! ds = Some x → ds_is_timer x = true →
  wp (_dispatch_timer_list_update ds) (λ _ s', leaves ds x (λ x', ds_is_timer x' = true) s s') s.
Proof.
  intros C A N Hx Ht. pose proof (reg_src_of s ds x Hx) as Hv. pose proof (core_src _ C ds _ Hv) as [Hto Hs].
  assert (Hout : ds_dkev x = None ∨ ds_is_installed x = false → mgr_ok s).
  { intros Hor. split_and!; [done| |done]. apply (arm_drop _ ds); [done|]. intros i kk _ Hkk Hin.
    destruct (core_member _ _ kk ds C Hkk Hin) as (w & Hw & Hd & Hi). rewrite Hv in Hw. injection Hw as <-. cbn in Hd, Hi.
    destruct Hor; congruence. }
  destruct (ds_dkev x) as [dk|] eqn:Hd.
  2: { unfold _dispatch_timer_list_update, timer_list_update_with. apply wp_bind, (wp_get_source ds x); [done|]. rewrite Hd.
       apply wp_ret. split_and!; [apply Hout; by left|done|by apply others_refl|]. by exists x. }
  destruct (ds_is_installed x) eqn:Hi.
  - pose proof (list_update_spec _ ds x s C A N Hx Ht Hi (mk_is_Some _ _ Hd) (register_installed 1 ds x s Hx Hi)) as HL.
    eapply wp_mono; [exact HL|]. intros a s' HM. by apply (moved_leaves ds x s a s').
  - (* installed on the way *)
    pose proof (Hout (or_intror eq_refl)) as Hok. unfold _dispatch_timer_list_update. rewrite list_update_eq.
    apply wp_bind, (wp_get_source ds x); [done|]. rewrite Hd. apply wp_bind. eapply wp_mono; [by apply (register_spec ds x)|].
    intros [] s1 (Hok1 & Hc1 & Ho1 & x1 & Hx1 & Ec1 & Hi1 & Ht1 & Hd1). pose proof Hok1 as (C1 & A1 & N1).
    eapply wp_mono; [apply (list_rest_spec ds x1); try done; [by apply arm_but|by rewrite Ht1|by apply Hd1]|].
    intros [] s2 HM. destruct (moved_leaves ds x1 s1 tt s2) as (Hok2 & Hc2 & Ho2 & x2 & Hx2 & Ec2 & Ht2); [by rewrite Ht1|done|].
    split_and!; [done|congruence|by apply (others_of_trans ds s s1)|]. exists x2. split_and!; [done|congruence|done].
Qed.
End Install.
