(* ===== verification/Timer.v ===== *)
(** * Timers (src/source.c)

    The timers of the lists of [Source]: firing, the next date, and setting a
    timer.  The readings of the clocks are arguments. *)

From S2P Require Import Prelude Time Source.

(** [clock_gettime(CLOCK_MONOTONIC)] and [gettimeofday]. *)
Record clocks : Type := Clocks { ck_abs : timespec; ck_wall : Z * Z }.

Definition _dispatch_source_timer_now2 (ck : clocks) (timer : Z) : SW Z :=
  if decide (timer = DISPATCH_TIMER_INDEX_MACH) then mret (_dispatch_absolute_time (ck_abs ck))
  else if decide (timer = DISPATCH_TIMER_INDEX_WALL) then mret (_dispatch_get_nanoseconds (ck_wall ck).1 (ck_wall ck).2)
  else fail (DISPATCH_CRASH "Invalid timer").

Definition _dispatch_source_timer_now (ck : clocks) (x : dispatch_source_s) : SW Z :=
  _dispatch_source_timer_now2 ck (_dispatch_source_timer_idx x).

Definition modify_timer (ds : nat) (f : dispatch_timer_source_s → dispatch_timer_source_s) : SW unit :=
  modify_source ds (λ x, put_timer (f (ds_timer x)) x).

(** An unsigned division. *)
Definition div_u (a b : Z) : SW Z := if decide (b = 0) then fail (UB "division by zero") else mret (a / b).

Section Kernel.
Context {K : KQueue}.

(** A due timer: the intervals it missed, its next date, its data.  The sum
    wraps around. *)
Definition fire_timer (now : Z) (ds : nat) : SW unit :=
  x ← get_source ds;
  let t := ds_timer x in
  q ← div_u (u64 (now - target t)) (interval t);
  let missed := u64 (q + 1) in
  let missed := if decide (INT_MAX < missed) then INT_MAX else missed in
  modify_timer ds (put_target (u64 (target t + missed * interval t)));;
  _dispatch_timer_list_update ds;;
  modify_timer ds (put_last_fire now);;
  modify_source ds (λ x, put_pending_data (u64 (ds_pending_data x + wrapS 32 missed)) x);;
  _dispatch_wakeup ds.

Fixpoint run_timers2_loop (fuel : nat) (timer now : Z) : SW unit :=
  match fuel with
  | O => fail OutOfFuel
  | S fuel =>
      k ← get_kevent (_dispatch_kevent_timer timer);
      match dk_sources k with
      | [] => mret tt
      | ds :: _ =>
          x ← get_source ds;
          if negb (timer =? ds_ident_hack x) then _dispatch_timer_list_update ds;; run_timers2_loop fuel timer now
          else if target (ds_timer x) =? 0 then mret tt
          else if now <? target (ds_timer x) then mret tt
          else if DISPATCH_OBJECT_SUSPENDED x || negb (ds_pending_data x =? 0)
          then _dispatch_timer_list_update ds;; run_timers2_loop fuel timer now
          else fire_timer now ds;; run_timers2_loop fuel timer now
      end
  end.

(** Each timer of the list is met twice at most. *)
Definition timers_fuel (timer : Z) : SW nat :=
  k ← get_kevent (_dispatch_kevent_timer timer); mret (S (2 * length (dk_sources k))).

Definition _dispatch_run_timers2 (ck : clocks) (timer : Z) : SW unit :=
  now ← _dispatch_source_timer_now2 ck timer;
  fuel ← timers_fuel timer;
  run_timers2_loop fuel timer now.

Definition run_timers_of (ck : clocks) (timer : Z) : SW unit :=
  k ← get_kevent (_dispatch_kevent_timer timer);
  match dk_sources k with [] => mret tt | _ => _dispatch_run_timers2 ck timer end.

Definition _dispatch_run_timers (ck : clocks) : SW unit :=
  run_timers_of ck DISPATCH_TIMER_INDEX_WALL;; run_timers_of ck DISPATCH_TIMER_INDEX_MACH.

(** ** The data of a handler *)

(** The value, and the timer afterwards. *)
Definition _dispatch_source_timer_data (ck : clocks) (ds : nat) (prev : Z) : SW Z :=
  x ← get_source ds;
  now ← _dispatch_source_timer_now ck x;
  missed' ← div_u (u64 (now - last_fire (ds_timer x))) (interval (ds_timer x));
  modify_timer ds (put_missed missed');;
  mret (u64 (u64 (prev - missed (ds_timer x)) + missed')).

(** ** The next date *)

Definition FOREVER_NSEC : Z := 31536000000000000.

(** The delay of a list, if its first timer waits for a date: 0 if it is due. *)
Definition list_delay (ck : clocks) (timer : Z) : SW (option Z) :=
  k ← get_kevent (_dispatch_kevent_timer timer);
  match dk_sources k with
  | [] => mret None
  | dr :: _ =>
      x ← get_source dr;
      if target (ds_timer x) =? 0 then mret None
      else
        now ← _dispatch_source_timer_now ck x;
        if decide (target (ds_timer x) ≤ now) then mret (Some 0)
        else
          let delta := u64 (target (ds_timer x) - now) in
          mret (Some (if has (tflags (ds_timer x)) DISPATCH_TIMER_WALL_CLOCK then delta else _dispatch_time_mach2nano delta))
  end.

(** The loop over the lists: [None] when it returned at once. *)
Definition next_delta (ck : clocks) (timer : Z) (delta : option Z) : SW (option Z) :=
  match delta with
  | None => mret None
  | Some delta =>
      d ← list_delay ck timer;
      mret (match d with
            | None => Some delta
            | Some 0 => None
            | Some d => Some (if decide (d < delta) then d else delta)
            end)
  end.

Definition _dispatch_get_next_timer_fire (ck : clocks) : SW (option timespec) :=
  d ← next_delta ck DISPATCH_TIMER_INDEX_WALL (Some UINT64_MAX);
  d ← next_delta ck DISPATCH_TIMER_INDEX_MACH d;
  mret (match d with
        | None => Some (TS 0 0)
        | Some delta =>
            if decide (FOREVER_NSEC < delta) then None else Some (TS (delta / NSEC_PER_SEC) (delta mod NSEC_PER_SEC))
        end).

(** ** Setting a timer *)

Record dispatch_set_timer_params : Type := TimerParams {
  p_ds : nat;
  p_ident : Z;
  p_values : dispatch_timer_source_s
}.

(** Called on the manager queue. *)
Definition _dispatch_source_set_timer3 (p : dispatch_set_timer_params) : SW unit :=
  let ds := p_ds p in
  modify_source ds (put_ident_hack (p_ident p));;
  modify_source ds (put_timer (p_values p));;
  modify_source ds (put_pending_data 0);;
  _dispatch_timer_list_update ds;;
  dispatch_resume ds;;
  dispatch_release ds.

(** Called on the queue of the source; [_dispatch_source_set_timer3] is then
    pushed on the manager queue. *)
Definition _dispatch_source_set_timer2 (p : dispatch_set_timer_params) : SW unit := dispatch_suspend (p_ds p).

(** The parameters; the source is retained, and [_dispatch_source_set_timer2]
    pushed on its queue. *)
Definition dispatch_source_set_timer (ck : clocks) (ds : nat) (start ival leeway : Z) : SW dispatch_set_timer_params :=
  x ← get_source ds;
  if negb (ds_is_timer x) then fail (DISPATCH_CLIENT_CRASH "Attempt to set timer on a non-timer source")
  else
    let ival := if decide (ival = 0) then 1 else if decide (i64 ival < 0) then INT64_MAX else ival in
    let leeway := if decide (i64 leeway < 0) then INT64_MAX else leeway in
    let start :=
      if decide (start = DISPATCH_TIME_NOW) then _dispatch_absolute_time (ck_abs ck)
      else if decide (start = DISPATCH_TIME_FOREVER) then INT64_MAX else start in
    let fl := tflags (ds_timer x) in
    p ← (if decide (i64 start < 0) then
           if decide (i64 start = INT64_MIN) then fail (UB "the negation of INT64_MIN")
           else mret (TimerParams ds DISPATCH_TIMER_INDEX_WALL
                        (TimerSource (u64 (- i64 start)) 0 ival leeway (Z.lor fl DISPATCH_TIMER_WALL_CLOCK) 0))
         else
           let mival := _dispatch_time_nano2mach ival in
           mret (TimerParams ds DISPATCH_TIMER_INDEX_MACH
                   (TimerSource start 0 (if decide (mival < 1) then 1 else mival) (_dispatch_time_nano2mach leeway)
                      (Z.ldiff fl DISPATCH_TIMER_WALL_CLOCK) 0)));
    dispatch_retain ds;;
    mret p.
End Kernel.
