(* ===== verification/TimerRun.v ===== *)
(** * Running the timers of a list

    [run_result]: what a run at [now] makes of a timer; [ran] relates the state
    in the middle of a run to the one at its start. *)

From Stdlib Require Import Sorted.
From S2P Require Import Prelude Time Source SourceReg SourceCore SourceOps SourceLink SourceCalls SourceMove SourceInstall Timer.

(** ** What a run does to a timer *)

Definition due (now : Z) (x : dispatch_source_s) : bool := target (ds_timer x) <=? now.

(** A due timer that fires: neither suspended, nor with data not delivered. *)
Definition fires (now : Z) (x : dispatch_source_s) : bool :=
  due now x && negb (DISPATCH_OBJECT_SUSPENDED x || negb (ds_pending_data x =? 0)).

Definition missed_of (now : Z) (x : dispatch_source_s) : Z :=
  Z.min INT_MAX ((now - target (ds_timer x)) / interval (ds_timer x) + 1).

(** The dates of its grid that are past are counted, and its date is the next
    one, unless there are too many of them for an [int]. *)
Definition fired (now : Z) (x : dispatch_source_s) : dispatch_source_s :=
  let t := ds_timer x in
  put_pending_data (missed_of now x)
    (put_timer (TimerSource (target t + missed_of now x * interval t) now (interval t) (leeway t) (tflags t) (missed t)) x).

Definition run_result (now : Z) (x : dispatch_source_s) : dispatch_source_s :=
  if fires now x then if due now (fired now x) then moved (fired now x) else fired now x
  else if due now x then moved x else x.

Section Run.
Context {K : KQueue}.

(** The dates of [ds] change: its list is out of order until it is moved. *)
Lemma target_update ds x f s :
  mgr_ok s → sources s !! ds = Some x →
  ds_dkev (f x) = ds_dkev x → ds_is_timer (f x) = ds_is_timer x → ds_is_installed (f x) = ds_is_installed x →
  ds_needs_rearm (f x) = ds_needs_rearm x → ds_pending_data_mask (f x) = ds_pending_data_mask x →
  timer_ok (sview_of (f x)) →
  let s' := set_sources (<[ds := f x]> (sources s)) s in
  reg_core (reg_of s') ∧ arm_ok (Some ds) (reg_of s') ∧ no_idle (reg_of s').
Proof.
  intros (C & A & N) Hx E1 E2 E3 E4 E5 Ht s'. pose proof (reg_src_of s ds x Hx) as Hv.
  unfold s'. rewrite reg_set_source. split_and!.
  - apply (core_up_src _ ds (sview_of x)); cbn; try done; [|intros _; by rewrite E5].
    intros Hd. destruct (core_src _ C ds _ Hv) as [_ Hs]. cbn in Hs. rewrite Hd in Hs. rewrite E4. apply Hs.
  - apply (arm_change None (reg_of s) _ ds (sview_of (f x))); [by left|done|done|]. eauto.
  - done.
Qed.

(** What the invariant says of a timer of an armed list. *)
Lemma armed_source s i ds :
  mgr_ok s → timer_index i → ds ∈ lst s i →
  ∃ x, sources s !! ds = Some x ∧ ds_is_timer x = true ∧ ds_is_installed x = true ∧
       ds_dkev x = Some (_dispatch_kevent_timer i) ∧ _dispatch_source_timer_idx x = i ∧ ds_ident_hack x = i ∧
       target (ds_timer x) ≠ 0 ∧ 0 ≤ target (ds_timer x) < 2 ^ 64 ∧ 1 ≤ interval (ds_timer x) ≤ INT64_MAX.
Proof.
  intros (C & A & _) Hi. unfold lst. destruct (kevents s !! _dispatch_kevent_timer i) as [k|] eqn:Hk; [|by intros ?%elem_of_nil].
  cbn. intros Hin. apply reg_kev_of in Hk. destruct (A i _ Hi Hk) as [Hf _]. cbn [but] in Hf.
  destruct (proj1 (Forall_forall _ _) Hf ds Hin) as (v & Hv & Ht & Hnz & Hidx).
  destruct (core_member _ _ _ ds C Hk Hin) as (v' & Hv' & Hd & Hinst). rewrite Hv in Hv'. injection Hv' as <-.
  destruct (core_src _ C ds v Hv) as [Hto _]. apply reg_src in Hv as (x & -> & Hx).
  destruct (Hto Ht) as [H1 _]. destruct (H1 Hnz) as (? & Eid & ?). exists x. cbn in *. split_and!; try done; congruence || lia.
Qed.

Lemma lst_sorted s i :
  mgr_ok s → timer_index i → StronglySorted (λ a b, tgt (reg_of s) a ≤ tgt (reg_of s) b) (lst s i).
Proof.
  intros (C & A & _) Hi. unfold lst. destruct (kevents s !! _dispatch_kevent_timer i) as [k|] eqn:Hk; [|constructor].
  apply reg_kev_of in Hk. apply (A i _ Hi Hk).
Qed.

Lemma lst_NoDup s i : mgr_ok s → NoDup (lst s i).
Proof.
  intros (C & _ & _). unfold lst. destruct (kevents s !! _dispatch_kevent_timer i) as [k|] eqn:Hk; [|constructor].
  apply reg_kev_of in Hk. apply (core_kev _ C _ _ Hk).
Qed.

Lemma timer_index_range i : timer_index i → 0 ≤ i ≤ 2.
Proof. by intros [->| ->]. Qed.

Lemma missed_of_range now x :
  target (ds_timer x) ≤ now → 1 ≤ interval (ds_timer x) → 1 ≤ missed_of now x ≤ INT_MAX.
Proof.
  intros H1 H2. unfold missed_of. assert (0 ≤ (now - target (ds_timer x)) / interval (ds_timer x)) by (apply Z.div_pos; lia).
  unfold INT_MAX. lia.
Qed.

Lemma next_target_range now x :
  0 ≤ target (ds_timer x) ≤ now → now < 2 ^ 63 → 1 ≤ interval (ds_timer x) ≤ INT64_MAX →
  target (ds_timer x) < target (ds_timer x) + missed_of now x * interval (ds_timer x) < 2 ^ 64.
Proof.
  intros H1 H2 H3. set (t := target (ds_timer x)) in *. set (p := interval (ds_timer x)) in *.
  pose proof (missed_of_range now x ltac:(fold t; lia) ltac:(fold p; lia)) as Hm.
  assert (missed_of now x ≤ (now - t) / p + 1) by (unfold missed_of; fold t p; lia).
  pose proof (Z.mul_div_le (now - t) p ltac:(lia)). unfold INT64_MAX in *. nia.
Qed.

Lemma tq_del_perm d l : d ∈ l → NoDup l → d :: tq_del d l ≡ₚ l.
Proof.
  induction l as [|e l IH]; intros Hin Hn; [by apply elem_of_nil in Hin|]. apply NoDup_cons in Hn as [He Hn].
  unfold tq_del. cbn. destruct (Nat.eqb_spec e d) as [->|Hne]; cbn.
  - constructor. fold (tq_del d l). by rewrite tq_del_not_in.
  - apply elem_of_cons in Hin as [->|Hin]; [done|]. rewrite Permutation_swap. constructor. by apply IH.
Qed.

(** Firing. *)
Lemma fire_timer_spec now i ds x s :
  mgr_ok s → timer_index i → ds ∈ lst s i → sources s !! ds = Some x → fires now x = true → 0 ≤ now < 2 ^ 63 →
  wp (fire_timer now ds)
    (λ _ s', mgr_ok s' ∧ sources s' = <[ds := fired now x]> (sources s) ∧ callouts s' = callouts s ∧
             wakeups s' = wakeups s ++ [ds] ∧ lst s' i ≡ₚ lst s i ∧
             tq_del ds (lst s' i) = tq_del ds (lst s i)) s.
Proof.
  intros Hok Hi Hin Hx Hf Hnow. destruct (armed_source s i ds Hok Hi Hin) as (y & Hy & Ht & Hinst & Hd & Hidx & Hid & Hnz & Hrt & Hri).
  rewrite Hx in Hy. injection Hy as <-. apply andb_true_iff in Hf as [Hdue%Z.leb_le Hns].
  rewrite negb_orb, negb_involutive in Hns. apply andb_true_iff in Hns as [Hsusp Hpend]. apply negb_true_iff in Hsusp.
  apply Z.eqb_eq in Hpend. set (t := ds_timer x) in *.
  pose proof (missed_of_range now x Hdue (proj1 Hri)) as Hm.
  pose proof (next_target_range now x (conj (proj1 Hrt) Hdue) (proj2 Hnow) Hri) as Hnt. fold t in Hnt.
  unfold fire_timer. apply wp_bind, (wp_get_source ds x); [done|]. cbv zeta. fold t. apply wp_bind.
  unfold div_u. rewrite decide_False by lia. apply wp_ret.
  rewrite (wrapU_small 64 (now - target t)) by lia.
  assert (Hq : 0 ≤ (now - target t) / interval t < 2 ^ 63).
  { split; [apply Z.div_pos; lia|]. apply Z.div_lt_upper_bound; [lia|]. nia. }
  rewrite (wrapU_small 64 (_ / _ + 1)) by lia.
  assert (Em : (if decide (INT_MAX < (now - target t) / interval t + 1) then INT_MAX else (now - target t) / interval t + 1) = missed_of now x).
  { unfold missed_of. fold t. case_decide; lia. }
  rewrite Em. rewrite (wrapU_small 64 (target t + _)) by lia. set (t' := target t + missed_of now x * interval t) in *.
  apply wp_bind. unfold modify_timer at 1. eapply wp_modify_source; [exact Hx|]. set (s1 := set_sources _ s).
  set (x1 := put_timer (put_target t' (ds_timer x)) x).
  assert (Hx1 : sources s1 !! ds = Some x1) by apply lookup_insert_eq.
  destruct (target_update ds x (λ y, put_timer (put_target t' (ds_timer y)) y) s) as (C1 & A1 & N1); try done.
  { destruct Hok as (C & _ & _). destruct (core_src _ C ds _ (reg_src_of s ds x Hx)) as [Hto _].
    intros _. destruct (Hto Ht) as [H1 H2]. destruct (H1 Hnz) as (_ & Eid & _). split; [|exact H2]. intros _. split; [exact Hri|split; [exact Eid|]]. cbn. lia. }
  fold x1 in C1, A1, N1. change (set_sources (<[ds:=x1]> (sources s)) s) with s1 in C1, A1, N1.
  pose proof (list_update_spec _ ds x1 s1 C1 A1 N1 Hx1 Ht Hinst (mk_is_Some _ _ Hd) (register_installed 1 ds x1 s1 Hx1 Hinst)) as HL.
  apply wp_bind. eapply wp_mono; [exact HL|].
  intros [] s2 [Hok2 M].
  assert (Hnd : timer_disarmed x1 = false).
  { unfold timer_disarmed. cbn. change (DISPATCH_OBJECT_SUSPENDED x1) with (DISPATCH_OBJECT_SUSPENDED x). rewrite Hsusp, Hpend. cbn.
    rewrite orb_false_r, orb_false_r. apply Z.eqb_neq. fold t in Hrt. lia. }
  assert (Hdest : timer_dest x1 = i) by (unfold timer_dest; rewrite Hnd; exact Hidx).
  assert (Hmv : moved x1 = x1).
  { unfold moved. rewrite Hnd, Hdest. unfold x1. rewrite <- Hd. by destruct x. }
  assert (Hx2 : sources s2 !! ds = Some x1) by (rewrite (tm_sources _ _ _ _ M), Hmv; apply lookup_insert_eq).
  unfold modify_timer. apply wp_bind. eapply wp_modify_source; [exact Hx2|]. set (s3 := set_sources _ s2).
  apply wp_bind. eapply wp_modify_source; [apply lookup_insert_eq|]. set (s4 := set_sources _ s3). apply wp_modify.
  pose proof (timer_index_range i Hi) as Hr. split_and!.
  - unfold mgr_ok. change (reg_of (set_wakeups (wakeups s4 ++ [ds]) s4)) with (reg_of s4).
    unfold s4. erewrite (reg_same_source s3 ds); [|apply lookup_insert_eq|done].
    unfold s3. by rewrite (reg_same_source s2 ds x1).
  - cbn. rewrite insert_insert_eq, (tm_sources _ _ _ _ M). unfold s1. cbn. rewrite !insert_insert_eq. f_equal.
    unfold fired. fold t t'. unfold x1. cbn. rewrite Hpend, (wrapS_small 32), Z.add_0_l, (wrapU_small 64); [done|..]; unfold INT_MAX in *; lia.
  - cbn. by rewrite (tm_callouts _ _ _ _ M).
  - cbn. by rewrite (tm_wakeups _ _ _ _ M).
  - change (lst (set_wakeups (wakeups s4 ++ [ds]) s4) i) with (lst s2 i). rewrite (tm_list _ _ _ _ M i Hr), Hdest.
    rewrite decide_True by done. change (lst s1 i) with (lst s i).
    apply tq_del_perm; [done|by apply lst_NoDup].
  - change (lst (set_wakeups (wakeups s4 ++ [ds]) s4) i) with (lst s2 i). apply (tm_order _ _ _ _ M i Hr).
Qed.

(** Disarming. *)
Lemma disarm_spec i ds x s :
  mgr_ok s → timer_index i → ds ∈ lst s i → sources s !! ds = Some x → timer_disarmed x = true →
  wp (_dispatch_timer_list_update ds)
    (λ _ s', mgr_ok s' ∧ sources s' = <[ds := moved x]> (sources s) ∧ callouts s' = callouts s ∧
             wakeups s' = wakeups s ∧ lst s' i = tq_del ds (lst s i)) s.
Proof.
  intros Hok Hi Hin Hx Hdis. destruct (armed_source s i ds Hok Hi Hin) as (y & Hy & Ht & Hinst & Hd & _).
  rewrite Hx in Hy. injection Hy as <-. pose proof Hok as (C & A & N).
  pose proof (list_update_spec _ ds x s C (arm_but _ ds A) N Hx Ht Hinst (mk_is_Some _ _ Hd) (register_installed 1 ds x s Hx Hinst)) as HL.
  eapply wp_mono; [exact HL|]. intros [] s' [Hok' M]. pose proof (timer_index_range i Hi) as Hr.
  split_and!; [done|apply M|apply M|apply M|]. pose proof (tm_list _ _ _ _ M i Hr) as Hp.
  rewrite decide_False in Hp by (unfold timer_dest; rewrite Hdis; by destruct Hi as [->| ->]).
  rewrite <- (tm_order _ _ _ _ M i Hr). symmetry. apply tq_del_not_in. rewrite Hp. apply tq_del_self.
Qed.

(** ** The loop *)

(** A list without the timers that are done. *)
Definition without (done l : list nat) : list nat := List.filter (λ d, bool_decide (d ∉ done)) l.

Lemma elem_of_without done l d : d ∈ without done l ↔ d ∉ done ∧ d ∈ l.
Proof. unfold without. rewrite !list_elem_of_In, List.filter_In, bool_decide_eq_true, list_elem_of_In. tauto. Qed.

Lemma without_snoc done d l : without (done ++ [d]) l = without done (tq_del d l).
Proof.
  induction l as [|e l IH]; [done|]. unfold without, tq_del in *. cbn. destruct (Nat.eqb_spec e d) as [->|Hne]; cbn.
  - rewrite bool_decide_eq_false_2; [done|]. rewrite elem_of_app, list_elem_of_singleton. tauto.
  - rewrite IH. destruct (decide (e ∈ done)) as [He|He].
    + rewrite !bool_decide_eq_false_2; [done|tauto|]. rewrite elem_of_app. tauto.
    + rewrite !bool_decide_eq_true_2; [done|done|]. rewrite elem_of_app, list_elem_of_singleton. tauto.
Qed.

Lemma without_tq_del done d l : d ∈ done → without done (tq_del d l) = without done l.
Proof.
  intros Hd. induction l as [|e l IH]; [done|]. unfold without, tq_del in *. cbn. destruct (Nat.eqb_spec e d) as [->|Hne]; cbn.
  - rewrite bool_decide_eq_false_2; [done|tauto].
  - by rewrite IH.
Qed.

Lemma without_cons done d l : d ∉ done → without done (d :: l) = d :: without done l.
Proof. intros H. unfold without. cbn. by rewrite bool_decide_eq_true_2. Qed.

Lemma tq_del_without done d l : d ∉ l → without (done ++ [d]) l = without done l.
Proof. intros H. by rewrite without_snoc, tq_del_not_in. Qed.

Definition fires_in (now : Z) (s : mgr_state) (d : nat) : bool :=
  match sources s !! d with Some x => fires now x | None => false end.

Record ran (i now : Z) (s0 : mgr_state) (done rest : list nat) (s : mgr_state) : Prop := {
  ra_ok : mgr_ok s;
  ra_split : lst s0 i = done ++ rest;
  ra_order : without done (lst s i) = rest;
  ra_rest : ∀ d, d ∉ done → sources s !! d = sources s0 !! d;
  ra_done : ∀ d, d ∈ done → ∃ x, sources s0 !! d = Some x ∧ due now x = true ∧
    (d ∈ lst s i ∧ fires now x = true ∧ sources s !! d = Some (fired now x) ∨
     d ∉ lst s i ∧ sources s !! d = Some (run_result now x));
  ra_wake : wakeups s = wakeups s0 ++ List.filter (fires_in now s0) done;
  ra_call : callouts s = callouts s0
}.

Lemma ran_head_rest i now s0 done rest s ds l :
  mgr_ok s0 → ran i now s0 done rest s → lst s i = ds :: l → ds ∉ done → ∃ rest', rest = ds :: rest' ∧ without done l = rest'.
Proof. intros _ R El Hn. rewrite <- (ra_order _ _ _ _ _ _ R), El, without_cons by done. eauto. Qed.

(** The next timer of the list fires, or is disarmed. *)
Lemma ran_fire i now s0 done rest s ds l x s' :
  mgr_ok s0 → ran i now s0 done rest s → lst s i = ds :: l → ds ∉ done → sources s !! ds = Some x → fires now x = true →
  mgr_ok s' → sources s' = <[ds := fired now x]> (sources s) → callouts s' = callouts s →
  wakeups s' = wakeups s ++ [ds] → lst s' i ≡ₚ lst s i → tq_del ds (lst s' i) = tq_del ds (lst s i) →
  ran i now s0 (done ++ [ds]) (without done l) s'.
Proof.
  intros Hok0 R El Hn Hx Hf Hok' Es Ec Ew Hp Ho. destruct (ran_head_rest i now s0 done rest s ds l Hok0 R El Hn) as (rest' & Er & Er').
  assert (Hx0 : sources s0 !! ds = Some x) by (by rewrite <- (ra_rest _ _ _ _ _ _ R ds Hn)).
  assert (Hnl : ds ∉ l). { pose proof (lst_NoDup s i (ra_ok _ _ _ _ _ _ R)) as H. rewrite El in H. by apply NoDup_cons in H as [? _]. }
  split; [done|..].
  - rewrite (ra_split _ _ _ _ _ _ R), Er, Er', <- app_assoc. done.
  - rewrite without_snoc, Ho, El. unfold tq_del. cbn. rewrite Nat.eqb_refl. cbn. fold (tq_del ds l). by rewrite tq_del_not_in.
  - intros d [Hd Hd']%not_elem_of_app. rewrite Es, lookup_insert_ne; [by apply R|]. intros <-. apply Hd'. by apply list_elem_of_singleton.
  - intros d [Hd| ->%list_elem_of_singleton]%elem_of_app.
    + destruct (ra_done _ _ _ _ _ _ R d Hd) as (y & Hy & Hdue & Hor). exists y. split_and!; [done|done|].
      rewrite Hp, Es, lookup_insert_ne; [done|]. intros <-. done.
    + exists x. split_and!; [done|by apply andb_true_iff in Hf as [? _]|]. left. rewrite Hp, El, Es, lookup_insert_eq. split_and!; [left|done|done].
  - rewrite Ew, (ra_wake _ _ _ _ _ _ R), List.filter_app. cbn. unfold fires_in at 3. rewrite Hx0, Hf. by rewrite app_assoc.
  - by rewrite Ec, (ra_call _ _ _ _ _ _ R).
Qed.

Lemma ran_disarm i now s0 done rest s ds l x s' :
  mgr_ok s0 → ran i now s0 done rest s → lst s i = ds :: l → sources s !! ds = Some x → timer_disarmed x = true → due now x = true →
  target (ds_timer x) ≠ 0 →
  mgr_ok s' → sources s' = <[ds := moved x]> (sources s) → callouts s' = callouts s →
  wakeups s' = wakeups s → lst s' i = tq_del ds (lst s i) →
  ∃ done' rest', ran i now s0 done' rest' s' ∧ (length rest' ≤ length rest)%nat ∧ length (lst s i) = S (length (lst s' i)).
Proof.
  intros Hok0 R El Hx Hdis Hdue Hnz Hok' Es Ec Ew Ho.
  assert (Hnl : ds ∉ l). { pose proof (lst_NoDup s i (ra_ok _ _ _ _ _ _ R)) as H. rewrite El in H. by apply NoDup_cons in H as [? _]. }
  assert (El' : lst s' i = l).
  { rewrite Ho, El. unfold tq_del. cbn. rewrite Nat.eqb_refl. cbn. fold (tq_del ds l). by rewrite tq_del_not_in. }
  assert (Hnf : fires now x = false).
  { unfold fires. rewrite Hdue. unfold timer_disarmed in Hdis. rewrite (proj2 (Z.eqb_neq _ _) Hnz) in Hdis. cbn in Hdis. by rewrite Hdis. }
  destruct (decide (ds ∈ done)) as [Hin|Hn].
  - (* it fired, but its next date is past too *)
    exists done, rest. split; [|split; [lia|by rewrite El, El']].
    destruct (ra_done _ _ _ _ _ _ R ds Hin) as (x0 & Hx0 & Hdue0 & [(_ & Hf0 & Hs0)|(Hno & _)]); [|exfalso; apply Hno; rewrite El; left].
    rewrite Hx in Hs0. injection Hs0 as ->. split; [done|apply R|..].
    + rewrite Ho, without_tq_del by done. apply R.
    + intros d Hd. rewrite Es, lookup_insert_ne; [by apply R|]. intros <-. done.
    + intros d Hd. destruct (decide (d = ds)) as [->|Hne].
      * exists x0. split_and!; [done|done|]. right. rewrite El', Es, lookup_insert_eq. split; [done|]. unfold run_result. by rewrite Hf0, Hdue.
      * destruct (ra_done _ _ _ _ _ _ R d Hd) as (y & Hy & Hdy & Hor). exists y. split_and!; [done|done|].
        rewrite Ho, elem_of_tq_del, Es, lookup_insert_ne by done. naive_solver.
    + by rewrite Ew, (ra_wake _ _ _ _ _ _ R).
    + by rewrite Ec, (ra_call _ _ _ _ _ _ R).
  - destruct (ran_head_rest i now s0 done rest s ds l Hok0 R El Hn) as (rest' & Er & Er').
    exists (done ++ [ds]), rest'. split; [|split; [rewrite Er; cbn; lia|by rewrite El, El']].
    assert (Hx0 : sources s0 !! ds = Some x) by (by rewrite <- (ra_rest _ _ _ _ _ _ R ds Hn)).
    split; [done|..].
    + rewrite (ra_split _ _ _ _ _ _ R), Er, <- app_assoc. done.
    + by rewrite El', tq_del_without.
    + intros d [Hd Hd']%not_elem_of_app. rewrite Es, lookup_insert_ne; [by apply R|]. intros <-. apply Hd'. by apply list_elem_of_singleton.
    + intros d [Hd| ->%list_elem_of_singleton]%elem_of_app.
      * destruct (ra_done _ _ _ _ _ _ R d Hd) as (y & Hy & Hdy & Hor). exists y. split_and!; [done|done|].
        assert (d ≠ ds) by (intros ->; done). rewrite Ho, elem_of_tq_del, Es, lookup_insert_ne by done. naive_solver.
      * exists x. split_and!; [done|done|]. right. rewrite El', Es, lookup_insert_eq. split; [done|]. unfold run_result. by rewrite Hnf, Hdue.
    + rewrite Ew, (ra_wake _ _ _ _ _ _ R), List.filter_app. cbn. unfold fires_in at 3. rewrite Hx0, Hnf. by rewrite app_nil_r.
    + by rewrite Ec, (ra_call _ _ _ _ _ _ R).
Qed.

Lemma lst_kevent s i : mgr_ok s → timer_index i → ∃ k, kevents s !! _dispatch_kevent_timer i = Some k ∧ lst s i = dk_sources k.
Proof.
  intros (C & _ & _) Hi. destruct (timer_static _ i C (timer_index_range i Hi)) as (kv & Hkv & _).
  apply reg_kev in Hkv as (k & _ & Hk). exists k. split; [done|]. unfold lst. by rewrite Hk.
Qed.

Lemma run_loop fuel i now s0 done rest s :
  timer_index i → 0 ≤ now < 2 ^ 63 → mgr_ok s0 → ran i now s0 done rest s → (length rest + length (lst s i) < fuel)%nat →
  wp (run_timers2_loop fuel i now)
    (λ _ s', ∃ done' rest', ran i now s0 done' rest' s' ∧ ∀ d x, d ∈ lst s' i → sources s' !! d = Some x → due now x = false) s.
Proof.
  intros Hi Hnow Hok0. revert done rest s. induction fuel as [|fuel IH]; intros done rest s R Hfuel; [lia|].
  pose proof (ra_ok _ _ _ _ _ _ R) as Hok. destruct (lst_kevent s i Hok Hi) as (k & Hk & Elst). cbn [run_timers2_loop].
  apply wp_bind, (wp_get_kevent _ k); [done|]. rewrite Elst in Hfuel. destruct (dk_sources k) as [|ds l] eqn:El.
  { apply wp_ret. exists done, rest. split; [done|]. intros d x. rewrite Elst. by intros ?%elem_of_nil. }
  assert (Hin : ds ∈ lst s i) by (rewrite Elst; left).
  destruct (armed_source s i ds Hok Hi Hin) as (x & Hx & Ht & Hinst & Hd & Hidx & Hid & Hnz & Hrt & Hri).
  apply wp_bind, (wp_get_source ds x); [done|]. rewrite Hid, Z.eqb_refl. cbn [negb]. rewrite (proj2 (Z.eqb_neq _ _) Hnz).
  destruct (Z.ltb_spec now (target (ds_timer x))) as [Hlt|Hge].
  { apply wp_ret. exists done, rest. split; [done|]. intros d y Hd' Hy. apply Z.leb_gt.
    pose proof (lst_sorted s i Hok Hi) as Hs. rewrite Elst in Hs, Hd'. apply StronglySorted_inv in Hs as [_ Hall].
    apply elem_of_cons in Hd' as [->|Hd']; [congruence|]. pose proof (proj1 (Forall_forall _ _) Hall d Hd') as Hle. cbv beta in Hle.
    unfold tgt in Hle. rewrite (reg_src_of s ds x Hx), (reg_src_of s d y Hy) in Hle. cbn in Hle. lia. }
  assert (Hdue : due now x = true) by (apply Z.leb_le; lia).
  destruct (DISPATCH_OBJECT_SUSPENDED x || negb (ds_pending_data x =? 0)) eqn:Eb.
  - assert (Hdis : timer_disarmed x = true).
    { unfold timer_disarmed. rewrite <- orb_assoc, Eb. apply orb_true_r. }
    apply wp_bind. eapply wp_mono; [by apply (disarm_spec i ds x)|]. intros [] s' (Hok' & Es & Ec & Ew & Ho).
    destruct (ran_disarm i now s0 done rest s ds l x s') as (done' & rest' & R' & Hlen & Hlen'); try done.
    apply (IH done' rest' s' R'). rewrite Elst in Hlen'. cbn in *. lia.
  - assert (Hf : fires now x = true) by (unfold fires; by rewrite Hdue, Eb).
    assert (Hn : ds ∉ done).
    { intros Hdn. destruct (ra_done _ _ _ _ _ _ R ds Hdn) as (x0 & Hx0 & Hdue0 & [(_ & Hf0 & Hs0)|(Hno & _)]); [|done].
      rewrite Hx in Hs0. injection Hs0 as ->. apply orb_false_iff in Eb as [_ Ep]. apply negb_false_iff, Z.eqb_eq in Ep. cbn in Ep.
      apply andb_true_iff in Hf0 as [Hle%Z.leb_le _]. cbn in Hri. pose proof (missed_of_range now x0 Hle (proj1 Hri)). lia. }
    apply wp_bind. eapply wp_mono; [by apply (fire_timer_spec now i ds x)|]. intros [] s' (Hok' & Es & Ec & Ew & Hp & Ho).
    assert (Elst' : lst s i = ds :: l) by done.
    pose proof (ran_fire i now s0 done rest s ds l x s' Hok0 R Elst' Hn Hx Hf Hok' Es Ec Ew Hp Ho) as R'.
    destruct (ran_head_rest i now s0 done rest s ds l Hok0 R Elst' Hn) as (rest' & Er & Er').
    apply (IH _ _ s' R'). rewrite Hp, Elst', Er'. rewrite Er in Hfuel. cbn in *. lia.
Qed.

Lemma run_timers2_spec i now s :
  mgr_ok s → timer_index i → 0 ≤ now < 2 ^ 63 →
  wp (run_timers2_loop (S (2 * length (lst s i))) i now)
    (λ _ s', mgr_ok s' ∧
       (∀ d x, sources s !! d = Some x → sources s' !! d = Some (if decide (d ∈ lst s i) then run_result now x else x)) ∧
       (∀ d, sources s !! d = None → sources s' !! d = None) ∧
       wakeups s' = wakeups s ++ List.filter (fires_in now s) (lst s i) ∧ callouts s' = callouts s) s.
Proof.
  intros Hok Hi Hnow. eapply wp_mono.
  { apply (run_loop _ i now s [] (lst s i)); [done|done|done| |lia].
    split; try done.
    - clear. induction (lst s i) as [|d l IH]; [done|]. rewrite without_cons by apply not_elem_of_nil. by rewrite IH.
    - intros d Hd. by apply elem_of_nil in Hd.
    - cbn. by rewrite app_nil_r. }
  intros [] s' (done' & rest' & R & Hend). cbv beta in Hend.
  assert (Hrest : ∀ d, d ∈ rest' → d ∉ done' ∧ d ∈ lst s' i).
  { intros d Hd. rewrite <- (ra_order _ _ _ _ _ _ R) in Hd. by apply elem_of_without in Hd. }
  assert (Hnodue : ∀ d x, d ∈ rest' → sources s !! d = Some x → due now x = false).
  { intros d x Hd Hx. destruct (Hrest d Hd) as [Hn Hin]. apply (Hend d x Hin). by rewrite (ra_rest _ _ _ _ _ _ R d Hn). }
  split_and!.
  - apply R.
  - intros d x Hx. case_decide as Hin.
    + rewrite (ra_split _ _ _ _ _ _ R) in Hin. apply elem_of_app in Hin as [Hdn|Hrs].
      * destruct (ra_done _ _ _ _ _ _ R d Hdn) as (x0 & Hx0 & Hdue0 & [(Hl & Hf & Hs)|(_ & Hs)]);
          rewrite Hx in Hx0; injection Hx0 as <-; [|done].
        rewrite Hs. f_equal. unfold run_result. by rewrite Hf, (Hend d _ Hl Hs).
      * destruct (Hrest d Hrs) as [Hn _]. rewrite (ra_rest _ _ _ _ _ _ R d Hn), Hx. f_equal.
        unfold run_result, fires. by rewrite (Hnodue d x Hrs Hx).
    + rewrite (ra_rest _ _ _ _ _ _ R d); [done|]. intros Hdn. apply Hin. rewrite (ra_split _ _ _ _ _ _ R), elem_of_app. by left.
  - intros d Hd. rewrite (ra_rest _ _ _ _ _ _ R d); [done|]. intros Hdn.
    destruct (ra_done _ _ _ _ _ _ R d Hdn) as (x0 & Hx0 & _). congruence.
  - rewrite (ra_wake _ _ _ _ _ _ R), (ra_split _ _ _ _ _ _ R), List.filter_app. f_equal.
    assert (E : List.filter (fires_in now s) rest' = []); [|by rewrite E, app_nil_r].
    clear -Hnodue. induction rest' as [|d l IH]; [done|]. cbn. unfold fires_in at 1.
    destruct (sources s !! d) as [x|] eqn:Hx.
    + unfold fires. rewrite (Hnodue d x); [|left|done]. cbn. apply IH. intros e y He. apply Hnodue. by right.
    + apply IH. intros e y He. apply Hnodue. by right.
  - apply R.
Qed.
End Run.
