(* ===== verification/SourceInvoke.v ===== *)
(** * The life of a source (src/source.c, src/init.c)

    Creation, the handlers, invocation and cancellation.  [_dispatch_source_invoke]
    runs on one queue at a time and names the queue it must go on with; a call of
    the client's handlers is recorded in [callouts]. *)

From S2P Require Import Prelude Time Source Timer.

Definition _dispatch_mgr_q : nat := 0.

Section Kernel.
Context {K : KQueue}.

(** ** Creation *)

(** [type_init]: what [init] does to the source, given the mask. *)
Record dispatch_source_type_s : Type := SourceType {
  type_ke : kevent;
  type_mask : Z;
  type_init : option (Z → dispatch_source_s → dispatch_source_s)
}.

Definition put_is_timer (b : bool) (x : dispatch_source_s) : dispatch_source_s :=
  Source (ds_dkev x) (ds_atomic_flags x) (ds_is_level x) (ds_is_adder x) b (ds_is_installed x) (ds_needs_rearm x)
    (ds_cancel_is_block x) (ds_handler_is_block x) (ds_registration_is_block x) (ds_data x) (ds_pending_data x)
    (ds_pending_data_mask x) (ds_ident_hack x) (ds_handler_func x) (ds_handler_ctxt x) (ds_cancel_handler x)
    (ds_registration_handler x) (ds_timer x) (ds_do_ctxt x) (ds_targetq x) (ds_suspend_cnt x) (ds_xref_cnt x)
    (ds_ref_cnt x).

Definition dispatch_source_type_timer_init (mask : Z) (x : dispatch_source_s) : dispatch_source_s :=
  put_timer (TimerSource 0 0 0 0 mask 0) (put_is_timer true (put_needs_rearm true x)).

Definition _dispatch_source_type_timer : dispatch_source_type_s :=
  SourceType (KE 0 DISPATCH_EVFILT_TIMER 0 0 0) DISPATCH_TIMER_WALL_CLOCK (Some dispatch_source_type_timer_init).
Definition _dispatch_source_type_read : dispatch_source_type_s := SourceType (KE 0 EVFILT_READ EV_DISPATCH 0 0) 0 None.
Definition _dispatch_source_type_write : dispatch_source_type_s := SourceType (KE 0 EVFILT_WRITE EV_DISPATCH 0 0) 0 None.
Definition _dispatch_source_type_proc : dispatch_source_type_s :=
  SourceType (KE 0 EVFILT_PROC EV_CLEAR 0 0)
    (Z.lor NOTE_EXIT (Z.lor NOTE_FORK (Z.lor NOTE_EXEC (Z.lor NOTE_SIGNAL NOTE_REAP)))) None.
Definition _dispatch_source_type_signal : dispatch_source_type_s := SourceType (KE 0 EVFILT_SIGNAL 0 0 0) 0 None.
Definition _dispatch_source_type_vnode : dispatch_source_type_s :=
  SourceType (KE 0 EVFILT_VNODE EV_CLEAR 0 0)
    (Z.lor NOTE_DELETE (Z.lor NOTE_WRITE (Z.lor NOTE_EXTEND (Z.lor NOTE_ATTRIB (Z.lor NOTE_LINK
      (Z.lor NOTE_RENAME (Z.lor NOTE_REVOKE NOTE_NONE))))))) None.
Definition _dispatch_source_type_vfs : dispatch_source_type_s :=
  SourceType (KE 0 EVFILT_FS EV_CLEAR 0 0)
    (Z.lor VQ_NOTRESP (Z.lor VQ_NEEDAUTH (Z.lor VQ_LOWDISK (Z.lor VQ_MOUNT (Z.lor VQ_UNMOUNT (Z.lor VQ_DEAD
      (Z.lor VQ_ASSIST (Z.lor VQ_NOTRESPLOCK (Z.lor VQ_UPDATE VQ_VERYLOWDISK))))))))) None.
Definition _dispatch_source_type_data_add : dispatch_source_type_s :=
  SourceType (KE 0 DISPATCH_EVFILT_CUSTOM_ADD 0 0 0) 0 None.
Definition _dispatch_source_type_data_or : dispatch_source_type_s :=
  SourceType (KE 0 DISPATCH_EVFILT_CUSTOM_OR EV_CLEAR UINT32_MAX 0) 0 None.

Definition valid_handle (type : dispatch_source_type_s) (handle : Z) : bool :=
  let f := filter (type_ke type) in
  if f =? EVFILT_SIGNAL then handle <? NSIG
  else if (f =? EVFILT_FS) || custom_filter f then handle =? 0
  else true.

(** The source of a valid call, with its kernel event [dk] at [handle].
    [_dispatch_alloc] zeroes it, with one reference of each kind. *)
Definition new_source (type : dispatch_source_type_s) (handle : Z) (dk : nat) (fflags : Z) : dispatch_source_s :=
  let fl := flags (type_ke type) in
  let level := has (Z.lor EV_DISPATCH EV_ONESHOT) fl in
  Source (Some dk) 0 level (negb level && negb (has EV_CLEAR fl)) false false level false false false 0 0 fflags handle
    0 0 0 0 (TimerSource 0 0 0 0 0 0) 0 _dispatch_mgr_q DISPATCH_OBJECT_SUSPEND_INTERVAL 0 2.

(** [ds]: the memory that the allocator gives.  The target [q] is set by the
    first item on the queue of the source, [_dispatch_set_target_queue2].  The
    allocations of the event and of the references succeed. *)
Definition dispatch_source_create (type : option dispatch_source_type_s) (handle mask : Z) (ds : nat) : SW (option nat) :=
  match type with
  | None => mret None
  | Some type =>
      if has mask (Z.lnot (type_mask type)) then mret None
      else if negb (valid_handle type handle) then mret None
      else
        s ← getS;
        let dk := next_kevent s in
        let ke := type_ke type in
        let e := KE handle (filter ke) (Z.lor (flags ke) (Z.lor EV_ADD EV_ENABLE)) (Z.lor (fflags ke) (u32 mask)) (data ke) in
        modifyS (set_next_kevent (S dk));;
        put_kevent dk (DK e []);;
        let x := new_source type handle dk (fflags e) in
        let x := match type_init type with Some init => init mask x | None => x end in
        modifyS (λ s, set_sources (<[ds := x]> (sources s)) s);;
        mret (Some ds)
  end.

(** The prior target is released ([Queue]). *)
Definition _dispatch_set_target_queue2 (ds q : nat) : SW unit := modify_source ds (put_targetq q).

(** ** The handlers

    The functions that run on the queue of the source; a block is its
    descriptor, [invoke] its function. *)

Definition _dispatch_source_set_event_handler2 (ds : nat) (bl invoke : Z) : SW unit :=
  x ← get_source ds;
  whenM (ds_handler_is_block x && negb (ds_handler_ctxt x =? 0)) (call_out (CO_block_release (ds_handler_ctxt x)));;
  modify_source ds (λ x, put_handler_is_block true (put_handler_ctxt bl
                           (put_handler_func (if decide (bl = 0) then 0 else invoke) x))).

Definition _dispatch_source_set_event_handler_f (ds : nat) (func : Z) : SW unit :=
  x ← get_source ds;
  whenM (ds_handler_is_block x && negb (ds_handler_ctxt x =? 0)) (call_out (CO_block_release (ds_handler_ctxt x)));;
  modify_source ds (λ x, put_handler_is_block false (put_handler_ctxt (ds_do_ctxt x) (put_handler_func func x))).

Definition set_cancel_handler (is_block : bool) (ds : nat) (handler : Z) : SW unit :=
  x ← get_source ds;
  whenM (ds_cancel_is_block x && negb (ds_cancel_handler x =? 0)) (call_out (CO_block_release (ds_cancel_handler x)));;
  modify_source ds (λ x, put_cancel_is_block is_block (put_cancel_handler handler x)).
Definition _dispatch_source_set_cancel_handler2 : nat → Z → SW unit := set_cancel_handler true.
Definition _dispatch_source_set_cancel_handler_f : nat → Z → SW unit := set_cancel_handler false.

Definition set_registration_handler (is_block : bool) (ds : nat) (handler : Z) : SW unit :=
  x ← get_source ds;
  whenM (ds_registration_is_block x && negb (ds_registration_handler x =? 0))
    (call_out (CO_block_release (ds_registration_handler x)));;
  modify_source ds (λ x, put_registration_is_block is_block (put_registration_handler handler x)).
Definition _dispatch_source_set_registration_handler2 : nat → Z → SW unit := set_registration_handler true.
Definition _dispatch_source_set_registration_handler_f : nat → Z → SW unit := set_registration_handler false.

(** ** The calls of the handlers *)

Definition _dispatch_source_registration_callout (ds : nat) : SW unit :=
  x ← get_source ds;
  (if ds_over x then
     whenM (ds_registration_is_block x) (call_out (CO_block_release (ds_registration_handler x)))
   else if ds_registration_is_block x then
     call_out (CO_registration ds (ds_registration_handler x));;
     call_out (CO_block_release (ds_registration_handler x))
   else call_out (CO_registration ds (ds_registration_handler x)));;
  modify_source ds (λ x, put_registration_handler 0 (put_registration_is_block false x)).

Definition _dispatch_source_cancel_callout (ds : nat) : SW unit :=
  modify_source ds (λ x, put_data 0 (put_pending_data 0 (put_pending_data_mask 0 x)));;
  x ← get_source ds;
  whenM (ds_handler_is_block x)
    (call_out (CO_block_release (ds_handler_ctxt x));;
     modify_source ds (λ x, put_handler_ctxt 0 (put_handler_func 0 (put_handler_is_block false x))));;
  whenM (ds_registration_is_block x)
    (call_out (CO_block_release (ds_registration_handler x));;
     modify_source ds (λ x, put_registration_handler 0 (put_registration_is_block false x)));;
  if ds_cancel_handler x =? 0 then mret tt
  else
    whenM (has (ds_atomic_flags x) DSF_CANCELED) (call_out (CO_cancel ds (ds_cancel_handler x)));;
    whenM (ds_cancel_is_block x)
      (call_out (CO_block_release (ds_cancel_handler x));; modify_source ds (put_cancel_is_block false));;
    modify_source ds (put_cancel_handler 0).

Definition _dispatch_source_latch_and_call (ck : clocks) (ds : nat) : SW unit :=
  x ← get_source ds;
  if ds_over x then mret tt
  else
    let prev := ds_pending_data x in
    modify_source ds (put_pending_data 0);;
    d ← (if ds_is_level x then mret (u64 (Z.lnot prev))
         else if ds_is_timer x && negb (target (ds_timer x) =? 0) && negb (prev =? 0)
         then _dispatch_source_timer_data ck ds prev
         else mret prev);
    modify_source ds (put_data d);;
    whenM (negb (prev =? 0) && negb (ds_handler_func x =? 0))
      (call_out (CO_event ds (ds_handler_func x) (ds_handler_ctxt x) d)).

(** ** Invocation *)

(** [dq]: the current queue; the result is the queue to go on with. *)
Definition _dispatch_source_invoke (ck : clocks) (dq ds : nat) : SW (option nat) :=
  x ← get_source ds;
  if negb (ds_is_installed x) then
    if decide (dq ≠ _dispatch_mgr_q) then mret (Some _dispatch_mgr_q)
    else
      _dispatch_kevent_register ds;;
      x ← get_source ds;
      mret (if negb (ds_registration_handler x =? 0) then Some (ds_targetq x)
            else if ds_xref_cnt x =? -1 then Some _dispatch_mgr_q else None)
  else if DISPATCH_OBJECT_SUSPENDED x then mret None
  else if negb (ds_registration_handler x =? 0) then
    if decide (dq ≠ ds_targetq x) then mret (Some (ds_targetq x))
    else
      _dispatch_source_registration_callout ds;;
      x ← get_source ds;
      mret (if ds_xref_cnt x =? -1 then Some _dispatch_mgr_q else None)
  else if ds_over x then
    if bool_decide (is_Some (ds_dkev x)) && bool_decide (dq ≠ _dispatch_mgr_q) then mret (Some _dispatch_mgr_q)
    else
      whenM (bool_decide (is_Some (ds_dkev x))) (_dispatch_kevent_unregister ds);;
      x ← get_source ds;
      if (negb (ds_cancel_handler x =? 0) || ds_handler_is_block x || ds_registration_is_block x) &&
         bool_decide (dq ≠ ds_targetq x)
      then mret (Some (ds_targetq x))
      else _dispatch_source_cancel_callout ds;; mret None
  else if negb (ds_pending_data x =? 0) then
    if decide (dq ≠ ds_targetq x) then mret (Some (ds_targetq x))
    else
      _dispatch_source_latch_and_call ck ds;;
      x ← get_source ds;
      mret (if ds_needs_rearm x then Some _dispatch_mgr_q else None)
  else if ds_needs_rearm x && negb (has (ds_atomic_flags x) DSF_ARMED) then
    if decide (dq ≠ _dispatch_mgr_q) then mret (Some _dispatch_mgr_q)
    else
      _dispatch_source_kevent_resume ds;;
      modify_source ds (λ x, put_atomic_flags (Z.lor (ds_atomic_flags x) DSF_ARMED) x);;
      mret None
  else mret None.

Definition _dispatch_source_probe (x : dispatch_source_s) : bool :=
  if negb (ds_is_installed x) then true
  else if negb (ds_registration_handler x =? 0) then true
  else if ds_over x then
    bool_decide (is_Some (ds_dkev x)) || negb (ds_cancel_handler x =? 0) || ds_handler_is_block x ||
    ds_registration_is_block x
  else if negb (ds_pending_data x =? 0) then true
  else ds_needs_rearm x && negb (has (ds_atomic_flags x) DSF_ARMED).

(** ** The calls of clients *)

Definition dispatch_source_cancel (ds : nat) : SW unit :=
  _dispatch_retain ds;;
  modify_source ds (λ x, put_atomic_flags (Z.lor (ds_atomic_flags x) DSF_CANCELED) x);;
  _dispatch_wakeup ds;;
  _dispatch_release ds.

Definition dispatch_source_testcancel (x : dispatch_source_s) : bool := has (ds_atomic_flags x) DSF_CANCELED.
Definition dispatch_source_get_mask (x : dispatch_source_s) : Z := ds_pending_data_mask x.
Definition dispatch_source_get_handle (x : dispatch_source_s) : Z := u64 (wrapS 32 (ds_ident_hack x)).
Definition dispatch_source_get_data (x : dispatch_source_s) : Z := ds_data x.

(** The queue machinery pushes the source on the queue that
    [_dispatch_source_invoke] returns ([_dispatch_queue_invoke]), where it is
    invoked again; when there is none, [_dispatch_queue_invoke] drops the
    suspension lock and calls [_dispatch_wakeup], which pushes the source on its
    target queue unless it is suspended or has nothing to do.  (No item waits on
    the queue of the source itself.) *)
Fixpoint drive (fuel : nat) (ck : clocks) (dq ds : nat) : SW unit :=
  match fuel with
  | O => fail OutOfFuel
  | S fuel =>
      r ← _dispatch_source_invoke ck dq ds;
      match r with
      | Some dq => drive fuel ck dq ds
      | None =>
          x ← get_source ds;
          if DISPATCH_OBJECT_SUSPENDED x || negb (_dispatch_source_probe x) then mret tt
          else drive fuel ck (ds_targetq x) ds
      end
  end.
End Kernel.
