(* ===== verification/SourceSafe.v ===== *)
(** * Every call keeps the registry, and none goes wrong

    [source_call]: the entry points of the library for sources, with the blocks
    that run on their queues and on the manager queue.  [exec] runs one. *)

From Stdlib Require Import Sorted.
From S2P Require Import Prelude Time Source SourceReg SourceCore SourceOps SourceLink SourceCalls SourceMove SourceInstall Timer TimerRun SourceInvoke.

(** ** Calls that may report an error of the client *)

Definition safe {S A} (m : M S A) (Q : A → S → Prop) (s : S) : Prop :=
  match m s with Ok a s' => Q a s' | Fault (DISPATCH_CLIENT_CRASH _) => True | Fault _ => False end.

Section Safe.
Context {S : Type}.

Lemma safe_wp {A} (m : M S A) Q s : wp m Q s → safe m Q s.
Proof. unfold wp, safe. by destruct (m s). Qed.

Lemma safe_bind {A B} (m : M S A) (k : A → M S B) Q s : safe m (λ a s', safe (k a) Q s') s → safe (m ≫= k) Q s.
Proof. unfold safe, mbind, M_bind. by destruct (m s) as [|[]]. Qed.

Lemma safe_crash {A} msg (Q : A → S → Prop) s : safe (fail (DISPATCH_CLIENT_CRASH msg)) Q s.
Proof. done. Qed.

Lemma safe_mono {A} (m : M S A) (Q Q' : A → S → Prop) s : safe m Q s → (∀ a s', Q a s' → Q' a s') → safe m Q' s.
Proof. unfold safe. destruct (m s) as [|[]]; auto. Qed.
End Safe.

(** ** The calls *)

Section Calls.
Context {K : KQueue}.

Inductive source_call : Type :=
  | C_create (type : option dispatch_source_type_s) (handle mask : Z) (ds : nat)
  | C_set_target (ds q : nat)
  | C_event_handler (ds : nat) (bl invoke : Z)
  | C_event_handler_f (ds : nat) (func : Z)
  | C_cancel_handler (block : bool) (ds : nat) (handler : Z)
  | C_registration_handler (block : bool) (ds : nat) (handler : Z)
  | C_set_timer (ck : clocks) (ds : nat) (start ival leeway : Z)
  | C_set_timer2 (p : dispatch_set_timer_params)
  | C_set_timer3 (p : dispatch_set_timer_params)
  | C_merge_data (ds : nat) (val : Z)
  | C_kevent (dk : nat) (ke : kevent)
  | C_run_timers (ck : clocks)
  | C_invoke (ck : clocks) (dq ds : nat)
  | C_cancel (ds : nat)
  | C_suspend (ds : nat)
  | C_resume (ds : nat)
  | C_retain (ds : nat)
  | C_release (ds : nat).

Definition ignore {A} (m : SW A) : SW unit := m;; mret tt.

Definition exec (c : source_call) : SW unit :=
  match c with
  | C_create type handle mask ds => ignore (dispatch_source_create type handle mask ds)
  | C_set_target ds q => _dispatch_set_target_queue2 ds q
  | C_event_handler ds bl invoke => _dispatch_source_set_event_handler2 ds bl invoke
  | C_event_handler_f ds func => _dispatch_source_set_event_handler_f ds func
  | C_cancel_handler block ds h => set_cancel_handler block ds h
  | C_registration_handler block ds h => set_registration_handler block ds h
  | C_set_timer ck ds start ival leeway => ignore (dispatch_source_set_timer ck ds start ival leeway)
  | C_set_timer2 p => _dispatch_source_set_timer2 p
  | C_set_timer3 p => _dispatch_source_set_timer3 p
  | C_merge_data ds val => dispatch_source_merge_data ds val
  | C_kevent dk ke => _dispatch_source_drain_kevent dk ke
  | C_run_timers ck => _dispatch_run_timers ck
  | C_invoke ck dq ds => ignore (_dispatch_source_invoke ck dq ds)
  | C_cancel ds => dispatch_source_cancel ds
  | C_suspend ds => dispatch_suspend ds
  | C_resume ds => dispatch_resume ds
  | C_retain ds => dispatch_retain ds
  | C_release ds => dispatch_release ds
  end.

(** *** What a caller may pass *)

(** All the types of init.c without Mach. *)
Definition source_types : list dispatch_source_type_s :=
  [_dispatch_source_type_timer; _dispatch_source_type_read; _dispatch_source_type_write; _dispatch_source_type_signal;
   _dispatch_source_type_proc; _dispatch_source_type_vnode; _dispatch_source_type_vfs;
   _dispatch_source_type_data_add; _dispatch_source_type_data_or].

Definition clocks_ok (ck : clocks) : Prop :=
  0 ≤ _dispatch_absolute_time (ck_abs ck) < 2 ^ 63 ∧ 0 ≤ _dispatch_get_nanoseconds (ck_wall ck).1 (ck_wall ck).2 < 2 ^ 63.

(** The parameters that [dispatch_source_set_timer] makes. *)
Definition params_ok (p : dispatch_set_timer_params) : Prop :=
  target (p_values p) ≠ 0 →
  1 ≤ interval (p_values p) ≤ INT64_MAX ∧ 0 ≤ target (p_values p) < 2 ^ 64 ∧
  p_ident p = (if has (tflags (p_values p)) DISPATCH_TIMER_WALL_CLOCK then DISPATCH_TIMER_INDEX_WALL else DISPATCH_TIMER_INDEX_MACH).

Definition live (s : mgr_state) (ds : nat) : Prop := is_Some (sources s !! ds).

(** [dispatch_source_merge_data] reads the kernel event of its source, which must
    not have been uninstalled after its cancellation ([merge_after_cancel_faults]). *)
Definition callable (s : mgr_state) (c : source_call) : Prop :=
  match c with
  | C_create type _ _ ds => sources s !! ds = None ∧ match type with Some t => t ∈ source_types | None => True end
  | C_set_timer ck ds start ival leeway => live s ds ∧ clocks_ok ck ∧ fits 64 start ∧ start ≠ 2 ^ 63 ∧ fits 64 ival
  | C_set_timer3 p => (∃ x, sources s !! p_ds p = Some x ∧ ds_is_timer x = true) ∧ params_ok p
  | C_set_timer2 p => live s (p_ds p)
  | C_kevent dk _ => is_Some (kevents s !! dk)
  | C_run_timers ck => clocks_ok ck
  | C_merge_data ds _ => ∃ x, sources s !! ds = Some x ∧ is_Some (ds_dkev x)
  | C_invoke ck _ ds => clocks_ok ck ∧ live s ds
  | C_set_target ds _ | C_event_handler ds _ _ | C_event_handler_f ds _ | C_cancel_handler _ ds _
  | C_registration_handler _ ds _ | C_cancel ds | C_suspend ds | C_resume ds | C_retain ds
  | C_release ds => live s ds
  end.

(** ** Frames *)

(** The invariant, and a source that exists. *)
Definition okds (ds : nat) (s : mgr_state) : Prop := mgr_ok s ∧ live s ds.

Lemma okds_mgr ds s : okds ds s → mgr_ok s.
Proof. by intros [? _]. Qed.

Lemma get_source_ok {A} ds (k : dispatch_source_s → SW A) Q s :
  okds ds s → (∀ x, sources s !! ds = Some x → safe (k x) Q s) → safe (get_source ds ≫= k) Q s.
Proof. intros [_ [x Hx]] H. apply safe_bind, safe_wp, (wp_get_source ds x); auto. Qed.

Lemma modify_ok ds f (Q : unit → mgr_state → Prop) s :
  okds ds s → (∀ x, sview_of (f x) = sview_of x) → (∀ s', okds ds s' → Q tt s') → safe (modify_source ds f) Q s.
Proof.
  intros [Hok [x Hx]] Hf HQ. apply safe_wp, (wp_modify_source ds f x); [done|]. apply HQ. split.
  - unfold mgr_ok. rewrite (reg_same_source s ds x); [done|done|apply Hf].
  - unfold live. cbn. rewrite lookup_insert_eq. eauto.
Qed.

Lemma modifyS_ok ds f (Q : unit → mgr_state → Prop) s :
  okds ds s → (∀ s, reg_of (f s) = reg_of s) → (∀ s, sources (f s) = sources s) → (∀ s', okds ds s' → Q tt s') → safe (modifyS f) Q s.
Proof.
  intros [Hok Hl] Hf Hs HQ. apply safe_wp, wp_modify, HQ. split; [unfold mgr_ok; by rewrite Hf|unfold live; by rewrite Hs].
Qed.

Lemma whenM_ok {A} ds b (m : SW A) (Q : unit → mgr_state → Prop) s :
  okds ds s → (b = true → safe m (λ _, Q tt) s) → (b = false → Q tt s) → safe (whenM b m) Q s.
Proof.
  intros Hok H1 H2. unfold whenM. destruct b; [|by apply safe_wp, wp_ret, H2]. apply safe_bind.
  eapply safe_mono; [by apply H1|]. intros. by apply safe_wp, wp_ret.
Qed.

Lemma quiet_okds ds l s s' : okds ds s → quiet l s s' → okds ds s'.
Proof.
  intros [Hok [x Hx]] Q. split; [unfold mgr_ok; by rewrite (q_reg _ _ _ Q)|].
  destruct (q_in _ _ _ Q ds x Hx) as (x' & ? & _). by exists x'.
Qed.

Lemma leaves_okds ds x P s s' : leaves ds x P s s' → okds ds s'.
Proof. intros (Hok & _ & _ & x' & Hx' & _). split; [done|by exists x']. Qed.
End Calls.

(** Steps of a call on one source that the registry does not see. *)
Ltac ok_step :=
  lazymatch goal with
  | |- safe (get_source _ ≫= _) _ _ => eapply get_source_ok; [eassumption|intros ? ?]
  | |- safe (mbind _ _) _ _ => apply safe_bind
  | |- safe (mret _) _ _ => apply safe_wp, wp_ret
  | |- safe (modify_source _ _) _ _ => eapply modify_ok; [eassumption|done|intros ? ?]
  | |- safe (call_out _) _ _ => eapply modifyS_ok; [eassumption|done|done|intros ? ?]
  | |- safe (_dispatch_wakeup _) _ _ => eapply modifyS_ok; [eassumption|done|done|intros ? ?]
  | |- safe (fail (DISPATCH_CLIENT_CRASH _)) _ _ => apply safe_crash
  | |- safe (whenM _ _) _ _ => eapply whenM_ok; [eassumption|intros ?|intros ?]
  | |- safe (if ?b then _ else _) _ _ => destruct b
  | |- safe (let _ := _ in _) _ _ => cbv zeta
  end.
Ltac ok_steps := repeat (ok_step; cbv beta); try (by eapply okds_mgr; eassumption).
