(* ===== verification/SourceType.v ===== *)
(** * The calls, one by one *)

From Stdlib Require Import Sorted.
From S2P Require Import Prelude Time Source SourceReg SourceCore SourceOps SourceLink SourceCalls SourceMove SourceInstall Timer TimerRun SourceInvoke SourceSafe.

Section Calls.
Context {K : KQueue}.

(** ** Handlers, counts, cancellation *)

Lemma event_handler_ok ds bl invoke s :
  okds ds s → safe (_dispatch_source_set_event_handler2 ds bl invoke) (λ _ s', okds ds s') s.
Proof. intros H. unfold _dispatch_source_set_event_handler2. ok_steps; done. Qed.

Lemma event_handler_f_ok ds func s :
  okds ds s → safe (_dispatch_source_set_event_handler_f ds func) (λ _ s', okds ds s') s.
Proof. intros H. unfold _dispatch_source_set_event_handler_f. ok_steps; done. Qed.

Lemma cancel_handler_ok b ds h s : okds ds s → safe (set_cancel_handler b ds h) (λ _ s', okds ds s') s.
Proof. intros H. unfold set_cancel_handler. ok_steps; done. Qed.

Lemma registration_handler_ok b ds h s : okds ds s → safe (set_registration_handler b ds h) (λ _ s', okds ds s') s.
Proof. intros H. unfold set_registration_handler. ok_steps; done. Qed.

Lemma retain_ok ds s : okds ds s → safe (_dispatch_retain ds) (λ _ s', okds ds s') s.
Proof. intros H. unfold _dispatch_retain. ok_steps; done. Qed.

Lemma release_ok ds s : okds ds s → safe (_dispatch_release ds) (λ _ s', okds ds s') s.
Proof. intros H. unfold _dispatch_release. ok_steps; done. Qed.

Lemma suspend_ok ds s : okds ds s → safe (dispatch_suspend ds) (λ _ s', okds ds s') s.
Proof. intros H. unfold dispatch_suspend, _dispatch_retain. ok_steps; done. Qed.

Lemma resume_ok ds s : okds ds s → safe (dispatch_resume ds) (λ _ s', okds ds s') s.
Proof. intros H. unfold dispatch_resume, _dispatch_release. ok_steps; done. Qed.

Lemma xref_retain_ok ds s : okds ds s → safe (dispatch_retain ds) (λ _ s', okds ds s') s.
Proof. intros H. unfold dispatch_retain. ok_steps; done. Qed.

Lemma xref_release_ok ds s : okds ds s → safe (dispatch_release ds) (λ _ s', okds ds s') s.
Proof. intros H. unfold dispatch_release, _dispatch_source_xref_dispose, _dispatch_release. ok_steps; done. Qed.

Lemma cancel_ok ds s : okds ds s → safe (dispatch_source_cancel ds) (λ _ s', okds ds s') s.
Proof. intros H. unfold dispatch_source_cancel, _dispatch_retain, _dispatch_release. ok_steps; done. Qed.

(** ** Events *)

(** The kernel event that a source names exists. *)
Lemma dkev_live ds x s : mgr_ok s → sources s !! ds = Some x → is_Some (ds_dkev x) → ∃ dk k, ds_dkev x = Some dk ∧ kevents s !! dk = Some k.
Proof.
  intros (C & _ & _) Hx [dk Hd]. destruct (core_dkev _ ds _ dk C (reg_src_of s ds x Hx) Hd) as [kv Hkv].
  destruct (proj1 (reg_kev s dk kv) Hkv) as (k & _ & Hk). eauto.
Qed.

Lemma merge_data_ok ds val x s :
  okds ds s → sources s !! ds = Some x → is_Some (ds_dkev x) → safe (dispatch_source_merge_data ds val) (λ _ s', okds ds s') s.
Proof.
  intros H Hx Hd. destruct (dkev_live ds x s (okds_mgr ds s H) Hx Hd) as (dk & k & Hdk & Hk). apply safe_wp.
  apply wp_bind, (wp_get_source ds x); [done|]. apply wp_bind, (wp_try_opt _ _ dk); [done|]. apply wp_bind, (wp_get_kevent dk k); [done|].
  eapply wp_mono; [apply merge_kevent_quiet, H|]. intros [] s' Q. by apply (quiet_okds ds [ds] s).
Qed.

Lemma kevent_ok dk ke s :
  mgr_ok s → is_Some (kevents s !! dk) → wp (_dispatch_source_drain_kevent dk ke) (λ _ s', mgr_ok s') s.
Proof.
  intros Hok [k Hk]. pose proof Hok as (C & _ & _).
  eapply wp_mono; [apply (drain_kevent_quiet dk k); [done|by apply (core_live s dk k)]|].
  intros [] s' Q. unfold mgr_ok. by rewrite (q_reg _ _ _ Q).
Qed.

(** ** Timers *)

Lemma now2_ok ck i s : timer_index i → clocks_ok ck → wp (_dispatch_source_timer_now2 ck i) (λ now s', s' = s ∧ 0 ≤ now < 2 ^ 63) s.
Proof. intros [->| ->] [? ?]; by apply wp_ret. Qed.

Lemma run_timers_of_ok ck i s :
  mgr_ok s → timer_index i → clocks_ok ck → wp (run_timers_of ck i) (λ _ s', mgr_ok s') s.
Proof.
  intros Hok Hi Hck. destruct (lst_kevent s i Hok Hi) as (k & Hk & Elst). unfold run_timers_of.
  apply wp_bind, (wp_get_kevent _ k); [done|]. destruct (dk_sources k) as [|d l] eqn:El; [by apply wp_ret|].
  unfold _dispatch_run_timers2. apply wp_bind. eapply wp_mono; [by apply now2_ok|]. intros now s' [-> Hnow].
  unfold timers_fuel. apply wp_bind, wp_bind, (wp_get_kevent _ k); [done|]. apply wp_ret. rewrite El, <- Elst.
  eapply wp_mono; [by apply run_timers2_spec|]. by intros [] s' [? _].
Qed.

Lemma run_timers_ok ck s : mgr_ok s → clocks_ok ck → wp (_dispatch_run_timers ck) (λ _ s', mgr_ok s') s.
Proof.
  intros Hok Hck. apply wp_bind. eapply wp_mono; [apply run_timers_of_ok; [done|by left|done]|].
  intros [] s' Hok'. apply run_timers_of_ok; [done|by right|done].
Qed.

Lemma set_timer3_ok p x s :
  mgr_ok s → sources s !! p_ds p = Some x → ds_is_timer x = true → params_ok p →
  safe (_dispatch_source_set_timer3 p) (λ _ s', okds (p_ds p) s') s.
Proof.
  intros Hok Hx Ht Hp. unfold _dispatch_source_set_timer3. set (ds := p_ds p) in *. cbv zeta.
  set (x' := put_pending_data 0 (put_timer (p_values p) (put_ident_hack (p_ident p) x))).
  assert (Hto : timer_ok (sview_of x')).
  { destruct Hok as (C & _ & _). destruct (core_src _ C ds _ (reg_src_of s ds x Hx)) as [Hto _]. intros _. split; [|by apply Hto].
    cbn. intros Hnz. destruct (Hp Hnz) as (? & ? & Eid). split_and!; lia || done. }
  destruct (target_update ds x (λ _, x') s) as (C1 & A1 & N1); try done. cbv beta in C1, A1, N1.
  apply safe_bind, safe_wp, (wp_modify_source ds _ x); [done|].
  apply safe_bind, safe_wp. eapply wp_modify_source; [apply lookup_insert_eq|].
  apply safe_bind, safe_wp. eapply wp_modify_source; [apply lookup_insert_eq|].
  match goal with |- safe _ _ ?s3 => set (s4 := s3) end.
  assert (E : s4 = set_sources (<[ds := x']> (sources s)) s).
  { unfold s4, set_sources. cbn. by rewrite !insert_insert_eq. }
  rewrite <- E in C1, A1, N1. apply safe_bind, safe_wp. eapply wp_mono.
  { apply (timer_update_spec ds x' s4); try done. rewrite E. apply lookup_insert_eq. }
  intros [] s5 L. apply leaves_okds in L. apply safe_bind. eapply safe_mono; [by apply resume_ok|]. intros [] s6 H6.
  by apply xref_release_ok.
Qed.

Lemma tflags_set f : has (Z.lor f DISPATCH_TIMER_WALL_CLOCK) DISPATCH_TIMER_WALL_CLOCK = true.
Proof. rewrite has_lor. cbn. apply orb_true_r. Qed.

Lemma tflags_clear f : has (Z.ldiff f DISPATCH_TIMER_WALL_CLOCK) DISPATCH_TIMER_WALL_CLOCK = false.
Proof.
  unfold has. apply negb_false_iff, Z.eqb_eq. apply Z.bits_inj'. intros n Hn.
  rewrite Z.land_spec, Z.ldiff_spec, Z.bits_0. by destruct (Z.testbit f n), (Z.testbit DISPATCH_TIMER_WALL_CLOCK n).
Qed.

(** What [dispatch_source_set_timer] makes can be set. *)
Lemma set_timer_ok ck ds start ival leeway s :
  okds ds s → clocks_ok ck → fits 64 start → start ≠ 2 ^ 63 → fits 64 ival →
  safe (dispatch_source_set_timer ck ds start ival leeway) (λ p s', okds ds s' ∧ p_ds p = ds ∧ params_ok p) s.
Proof.
  intros Hok [Hck _] Hs Hmin Hi. unfold dispatch_source_set_timer. eapply get_source_ok; [done|]. intros x Hx.
  destruct (negb (ds_is_timer x)); [apply safe_crash|]. cbv zeta.
  set (iv := if decide (ival = 0) then 1 else _). set (st := if decide (start = _) then _ else _).
  assert (Hiv : 1 ≤ iv ≤ INT64_MAX).
  { unfold iv. case_decide as E1; [done|]. case_decide as E2; [done|]. revert E2. consts. Z.div_mod_to_equations. lia. }
  assert (Hst : fits 64 st ∧ st ≠ 2 ^ 63).
  { unfold st. case_decide; [unfold fits; lia|]. case_decide; [by vm_compute|done]. }
  destruct Hst as [Hst Hst']. clearbody iv st.
  assert (Hret : ∀ p, p_ds p = ds → params_ok p →
    safe (dispatch_retain ds;; mret p) (λ p s', okds ds s' ∧ p_ds p = ds ∧ params_ok p) s).
  { intros p Ep Hp. apply safe_bind. eapply safe_mono; [by apply xref_retain_ok|]. intros [] s' H'. by apply safe_wp, wp_ret. }
  apply safe_bind. case_decide as Eneg.
  - assert (i64 st ≠ INT64_MIN ∧ 0 ≤ u64 (- i64 st) < 2 ^ 64).
    { split; [|apply wrapU_range; lia]. revert Eneg. consts. Z.div_mod_to_equations. lia. }
    rewrite decide_False by tauto. apply safe_wp, wp_ret, Hret; [done|]. intros _. cbn. split_and!; try lia. by rewrite tflags_set.
  - apply safe_wp, wp_ret, Hret; [done|]. intros _. cbn. unfold _dispatch_time_nano2mach. rewrite decide_False by lia.
    unfold fits in Hst. split_and!; try lia. by rewrite tflags_clear.
Qed.

(** ** Creation *)

Lemma lor_range n a b : 0 ≤ n → 0 ≤ a < 2 ^ n → 0 ≤ b < 2 ^ n → 0 ≤ Z.lor a b < 2 ^ n.
Proof.
  intros Hn Ha Hb. assert (E : Z.lor a b = Z.lor a b mod 2 ^ n).
  { rewrite <- Z.land_ones, Z.land_lor_distr_l, !Z.land_ones, !Z.mod_small by lia. done. }
  rewrite E. apply Z.mod_pos_bound. lia.
Qed.

Lemma source_type_facts `{KL : !KQueueLaws} t :
  t ∈ source_types →
  0 ≤ fflags (type_ke t) < 2 ^ 32 ∧
  (∀ handle, valid_handle t handle = true → custom_filter (filter (type_ke t)) = true → handle = 0) ∧
  (∀ mask x, let y := match type_init t with Some init => init mask x | None => x end in
     ds_dkev y = ds_dkev x ∧ ds_is_installed y = ds_is_installed x ∧ ds_pending_data_mask y = ds_pending_data_mask x ∧
     (type_init t = None → y = x) ∧ (type_init t ≠ None → ds_is_timer y = true ∧ ds_needs_rearm y = true ∧ target (ds_timer y) = 0)) ∧
  (type_init t ≠ None ↔ filter (type_ke t) = DISPATCH_EVFILT_TIMER).
Proof.
  intros Ht. pose proof (filter_range EVFILT_READ ltac:(left)) as Fr. pose proof (filter_range EVFILT_WRITE ltac:(right; left)) as Fw.
  pose proof (filter_range EVFILT_PROC ltac:(do 2 right; left)) as Fp. pose proof (filter_range EVFILT_SIGNAL ltac:(do 3 right; left)) as Fs.
  pose proof (filter_range EVFILT_VNODE ltac:(do 4 right; left)) as Fv. pose proof (filter_range EVFILT_FS ltac:(do 5 right; left)) as Ff.
  assert (Hh : ∀ handle, valid_handle t handle = true → custom_filter (filter (type_ke t)) = true → handle = 0).
  { intros handle Hv Hc. unfold valid_handle in Hv. rewrite Hc in Hv.
    destruct (Z.eqb_spec (filter (type_ke t)) EVFILT_SIGNAL) as [E|_].
    - rewrite E in Hc. unfold custom_filter, DISPATCH_EVFILT_TIMER, DISPATCH_EVFILT_CUSTOM_ADD, DISPATCH_EVFILT_CUSTOM_OR in Hc. lia.
    - rewrite orb_true_r in Hv. by apply Z.eqb_eq. }
  unfold DISPATCH_EVFILT_TIMER. unfold source_types in Ht.
  repeat (apply elem_of_cons in Ht as [->|Ht]); [..|by apply elem_of_nil in Ht];
    (split; [cbn; unfold UINT32_MAX; lia|]); (split; [exact Hh|]); cbn -[Z.sub Z.opp]; split; try (intros; split_and!; done); split;
    try done; unfold DISPATCH_EVFILT_TIMER, DISPATCH_EVFILT_CUSTOM_ADD, DISPATCH_EVFILT_CUSTOM_OR; intros; try lia; done.
Qed.

Lemma create_ok `{KL : !KQueueLaws} type handle mask ds s :
  mgr_ok s → sources s !! ds = None → match type with Some t => t ∈ source_types | None => True end →
  wp (dispatch_source_create type handle mask ds) (λ _ s', mgr_ok s') s.
Proof.
  intros Hok Hn Ht. unfold dispatch_source_create. destruct type as [t|]; [|by apply wp_ret].
  destruct (has _ _); [by apply wp_ret|]. destruct (valid_handle t handle) eqn:Evh; cbn [negb]; [|by apply wp_ret].
  destruct (source_type_facts t Ht) as (Hff & Hh & Hinit & Htm).
  apply wp_bind, wp_get. cbv zeta. set (e := KE _ _ _ _ _). apply wp_bind, wp_modify, wp_bind, wp_modify, wp_bind, wp_modify, wp_ret.
  set (x0 := new_source t handle (next_kevent s) (fflags e)). destruct (Hinit mask x0) as (Ed & Ei & Em & Hno & Hyes).
  set (y := match type_init t with Some init => init mask x0 | None => x0 end) in *.
  destruct Hok as (C & A & N). unfold mgr_ok.
  match goal with |- reg_ok None ?r => replace r with (Reg (<[ds := sview_of y]> (r_sources (reg_of s)))
     (<[r_next (reg_of s) := kview_of (DK e [])]> (r_kevents (reg_of s))) (r_buckets (reg_of s)) (S (r_next (reg_of s)))) end.
  2: { unfold reg_of. cbn. by rewrite !fmap_insert. }
  assert (Hnk : r_kevents (reg_of s) !! r_next (reg_of s) = None).
  { destruct (r_kevents (reg_of s) !! r_next (reg_of s)) eqn:E; [|done]. pose proof (core_next _ C _ (mk_is_Some _ _ E)). lia. }
  assert (Hti : ds_is_timer y = (filter (type_ke t) =? DISPATCH_EVFILT_TIMER)).
  { destruct (type_init t) as [i|] eqn:Eti.
    - destruct (Hyes ltac:(done)) as (-> & _ & _). symmetry. apply Z.eqb_eq, Htm. done.
    - symmetry. unfold y. apply Z.eqb_neq. intros Hf. by apply Htm in Hf. }
  split_and!.
  - apply core_create; try done.
    + cbn. rewrite lookup_fmap, Hn. done.
    + intros Hty. change (ds_is_timer y = true) in Hty. rewrite Hti in Hty. apply Z.eqb_eq, Htm in Hty. destruct (Hyes Hty) as (_ & Hr & Hz). done.
    + cbn. rewrite Em. cbn. symmetry. apply wrapU_small. apply lor_range; [lia|done|apply wrapU_range; lia].
    + cbn. intros Hc. by apply (Hh handle).
  - intros i k Hi. cbn [r_kevents]. rewrite lookup_insert_Some. intros [[_ <-]|[_ Hk]]; [by repeat constructor|].
    destruct (A i k Hi Hk) as [Hf Hs]. cbn [but] in *.
    assert (Hne : ∀ d, d ∈ k_list k → d ≠ ds).
    { intros d Hd ->. destruct (core_member _ _ k ds C Hk Hd) as (v & Hv & _). cbn in Hv. rewrite lookup_fmap, Hn in Hv. done. }
    split.
    + rewrite Forall_forall in Hf |- *. intros d Hd. destruct (Hf d Hd) as (v & Hv & ?). exists v. cbn [r_sources].
      rewrite lookup_insert_ne; [done|]. symmetry. by apply Hne.
    + eapply Sorted_mono; [|exact Hs]. intros a b Ha Hb. unfold tgt. cbn [r_sources].
      rewrite !lookup_insert_ne; [done|symmetry; by apply Hne..].
  - intros d k. cbn [r_kevents]. rewrite lookup_insert_Some. intros [[<- <-]|[_ Hk]] Hr Hc; [|by apply (N d k)].
    exfalso. destruct (core_bkt _ C _ _ Hr) as (k' & Hk' & _). congruence.
Qed.

(** ** Invocation *)

Lemma registration_callout_ok ds s : okds ds s → safe (_dispatch_source_registration_callout ds) (λ _ s', okds ds s') s.
Proof. intros H. unfold _dispatch_source_registration_callout. ok_steps; done. Qed.

(** Uninstalled, the source has no mask to keep. *)
Lemma cancel_callout_ok ds x s :
  okds ds s → sources s !! ds = Some x → ds_dkev x = None →
  safe (_dispatch_source_cancel_callout ds) (λ _ s', okds ds s') s.
Proof.
  intros [Hok _] Hx Hd. unfold _dispatch_source_cancel_callout.
  apply safe_bind, safe_wp, (wp_modify_source ds _ x); [done|]. set (s1 := set_sources _ s).
  assert (H1 : okds ds s1).
  { split; [|unfold live, s1; cbn; rewrite lookup_insert_eq; eauto]. destruct Hok as (C & A & N). unfold mgr_ok, s1. rewrite reg_set_source.
    pose proof (reg_src_of s ds x Hx) as Hv. split_and!.
    - apply (core_up_src _ ds (sview_of x)); cbn; try done; [apply (core_src _ C ds _ Hv)|]. intros _.
      destruct (core_src _ C ds _ Hv) as [_ Hs]. cbn in Hs. rewrite Hd in Hs. apply Hs.
    - apply (arm_drop _ ds).
      + apply (arm_change None (reg_of s) _ ds (sview_of (put_data 0 (put_pending_data 0 (put_pending_data_mask 0 x))))); [by left|done|done|]. eauto.
      + intros i k _ Hk Hin. pose proof (core_only _ _ k ds _ C Hk Hin Hv) as E. cbn in E. congruence.
    - done. }
  ok_steps; done.
Qed.

Lemma latch_ok ck ds s : okds ds s → safe (_dispatch_source_latch_and_call ck ds) (λ _ s', okds ds s') s.
Proof.
  intros H. unfold _dispatch_source_latch_and_call. eapply get_source_ok; [done|]. intros x Hx.
  destruct (ds_over x); [by apply safe_wp, wp_ret|]. cbv zeta. apply safe_bind.
  apply safe_wp, (wp_modify_source ds _ x); [done|]. set (s1 := set_sources _ s).
  assert (H1 : okds ds s1).
  { split; [|unfold live, s1; cbn; rewrite lookup_insert_eq; eauto]. unfold mgr_ok, s1. rewrite (reg_same_source s ds x); [apply H|done|done]. }
  assert (Hend : ∀ d s2, okds ds s2 → safe (modify_source ds (put_data d);;
     whenM (negb (ds_pending_data x =? 0) && negb (ds_handler_func x =? 0)) (call_out (CO_event ds (ds_handler_func x) (ds_handler_ctxt x) d)))
     (λ _ s', okds ds s') s2) by (intros d s2 H2; ok_steps; done).
  apply safe_bind. destruct (ds_is_level x); [by apply safe_wp, wp_ret, Hend|].
  destruct (ds_is_timer x && _ && _) eqn:Eb; [|by apply safe_wp, wp_ret, Hend].
  apply andb_true_iff in Eb as [[Ht Hnz]%andb_true_iff _]. apply negb_true_iff, Z.eqb_neq in Hnz.
  unfold _dispatch_source_timer_data. eapply get_source_ok; [done|]. intros y Hy.
  unfold s1 in Hy. cbn in Hy. rewrite lookup_insert_eq in Hy. injection Hy as <-.
  assert (Hi : 1 ≤ interval (ds_timer x)).
  { destruct H as [(C & _ & _) _]. destruct (core_src _ C ds _ (reg_src_of s ds x Hx)) as [Hto _]. destruct (Hto Ht) as [H2 _]. by apply H2. }
  apply safe_bind. unfold _dispatch_source_timer_now, _dispatch_source_timer_now2.
  assert (Hnow : ∀ now, safe (missed' ← div_u (u64 (now - last_fire (ds_timer x))) (interval (ds_timer x));
      modify_timer ds (put_missed missed');; mret (u64 (u64 (ds_pending_data x - missed (ds_timer x)) + missed')))
      (λ d s2, safe (modify_source ds (put_data d);;
        whenM (negb (ds_pending_data x =? 0) && negb (ds_handler_func x =? 0)) (call_out (CO_event ds (ds_handler_func x) (ds_handler_ctxt x) d)))
        (λ _ s', okds ds s') s2) s1).
  { intros now. apply safe_bind. unfold div_u. rewrite decide_False by lia. apply safe_wp, wp_ret. unfold modify_timer.
    apply safe_bind. eapply modify_ok; [done|done|]. intros s2 H2. by apply safe_wp, wp_ret, Hend. }
  destruct (timer_idx_cases (put_pending_data 0 x)) as [->| ->]; cbn [decide]; apply safe_wp, wp_ret, Hnow.
Qed.

Lemma kevent_resume_ok ds x s :
  mgr_ok s → sources s !! ds = Some x → ds_is_installed x = true → is_Some (ds_dkev x) →
  safe (_dispatch_source_kevent_resume ds) (λ _ s', okds ds s') s.
Proof.
  intros Hok Hx Hi Hd. pose proof Hok as (C & A & N). apply safe_wp.
  unfold _dispatch_source_kevent_resume, _dispatch_timer_list_update, _dispatch_kevent_register, KEVENT_DEPTH.
  eapply wp_mono.
  - apply (kevent_resume_spec (register_upto 2) ds x s); try done; [by apply arm_but|by apply (register_installed 1 ds x)].
  - intros [] s' L. by apply leaves_okds in L.
Qed.

Lemma unregister_ok ds x s :
  mgr_ok s → sources s !! ds = Some x → ds_is_installed x = true → is_Some (ds_dkev x) →
  safe (_dispatch_kevent_unregister ds) (λ _ s', okds ds s' ∧ sources s' !! ds = Some (unregistered x)) s.
Proof.
  intros Hok Hx Hi [dk Hd]. apply safe_wp. eapply wp_mono; [by apply (unregister_spec None ds x dk); [|left| | |]|].
  intros [] s' (Hok' & _ & Hx' & _). split; [|done]. split; [done|by exists (unregistered x)].
Qed.

Lemma invoke_ok ck dq ds s : okds ds s → safe (_dispatch_source_invoke ck dq ds) (λ _ s', okds ds s') s.
Proof.
  intros H. unfold _dispatch_source_invoke. eapply get_source_ok; [done|]. intros x Hx. pose proof H as [Hok _].
  destruct (ds_is_installed x) eqn:Hi; cbn [negb].
  2: { case_decide; [by apply safe_wp, wp_ret|]. apply safe_bind, safe_wp. eapply wp_mono; [by apply (register_spec ds x)|].
       intros [] s' L. apply leaves_okds in L. ok_steps; done. }
  destruct (DISPATCH_OBJECT_SUSPENDED x); [by apply safe_wp, wp_ret|].
  destruct (negb (ds_registration_handler x =? 0)).
  { case_decide; [by apply safe_wp, wp_ret|]. apply safe_bind. eapply safe_mono; [by apply registration_callout_ok|].
    intros [] s' H'. ok_steps; done. }
  destruct (ds_over x).
  { destruct (_ && bool_decide (dq ≠ _dispatch_mgr_q)); [by apply safe_wp, wp_ret|].
    assert (Hend : ∀ y s', okds ds s' → sources s' !! ds = Some y → ds_dkev y = None →
      safe (x ← get_source ds;
            if (negb (ds_cancel_handler x =? 0) || ds_handler_is_block x || ds_registration_is_block x) && bool_decide (dq ≠ ds_targetq x)
            then mret (Some (ds_targetq x)) else _dispatch_source_cancel_callout ds;; mret None) (λ _ s', okds ds s') s').
    { intros y s' H' Hy Hdy. eapply get_source_ok; [done|]. intros z _. destruct (_ && _); [by apply safe_wp, wp_ret|].
      apply safe_bind. eapply safe_mono; [by apply (cancel_callout_ok ds y)|]. intros [] s2 H2. by apply safe_wp, wp_ret. }
    apply safe_bind. unfold whenM. case_bool_decide as Hd.
    - apply safe_bind. eapply safe_mono; [by apply (unregister_ok ds x)|]. intros [] s' [H' Hx'].
      apply safe_wp, wp_ret. by apply (Hend (unregistered x)).
    - apply safe_wp, wp_ret, (Hend x); [done|done|]. by apply eq_None_not_Some. }
  destruct (negb (ds_pending_data x =? 0)).
  { case_decide; [by apply safe_wp, wp_ret|]. apply safe_bind. eapply safe_mono; [by apply latch_ok|].
    intros [] s' H'. ok_steps; done. }
  destruct (ds_needs_rearm x && _) eqn:Er; [|by apply safe_wp, wp_ret].
  case_decide; [by apply safe_wp, wp_ret|].
  assert (Hd : is_Some (ds_dkev x)).
  { apply andb_true_iff in Er as [Er _]. destruct (ds_dkev x) eqn:Hd; [eauto|]. destruct Hok as (C & _ & _).
    destruct (core_src _ C ds _ (reg_src_of s ds x Hx)) as [_ Hs]. cbn in Hs. rewrite Hd in Hs. destruct Hs. congruence. }
  apply safe_bind. eapply safe_mono; [by apply (kevent_resume_ok ds x)|]. intros [] s' H'. ok_steps; done.
Qed.
End Calls.
