(* ===== verification/SourceTheorems.v ===== *)
(** * Event sources: the theorems *)

From Stdlib Require Import Sorted.
From S2P Require Import Prelude Time Source SourceReg SourceCore SourceOps SourceLink SourceCalls SourceMove SourceInstall Timer TimerRun SourceInvoke SourceSafe SourceType.

(** ** Reachable states *)

Section Reached.
Context {K : KQueue}.

Inductive reached : mgr_state → Prop :=
  | reached_init : reached _dispatch_kevent_init
  | reached_call s c s' : reached s → callable s c → exec c s = Ok tt s' → reached s'.

Fixpoint exec_all (cs : list source_call) : SW unit :=
  match cs with [] => mret tt | c :: cs => exec c;; exec_all cs end.

Fixpoint all_callable (cs : list source_call) (s : mgr_state) : Prop :=
  match cs with
  | [] => True
  | c :: cs => callable s c ∧ match exec c s with Ok _ s' => all_callable cs s' | Fault _ => False end
  end.

Lemma reached_all cs s s' : reached s → all_callable cs s → exec_all cs s = Ok tt s' → reached s'.
Proof.
  revert s. induction cs as [|c cs IH]; intros s Hr Hc; cbn; [by intros [= <-]|]. destruct Hc as [Hc Hcs].
  unfold mbind, M_bind. destruct (exec c s) as [[] s1|] eqn:E; [|done]. apply IH; [by apply (reached_call s c)|done].
Qed.

Lemma statics_inj dk dk' i f : (dk, (i, f)) ∈ statics → (dk', (i, f)) ∈ statics → dk = dk'.
Proof.
  unfold statics, DISPATCH_EVFILT_TIMER, DISPATCH_EVFILT_CUSTOM_ADD, DISPATCH_EVFILT_CUSTOM_OR.
  rewrite !elem_of_cons, !elem_of_nil.
  intros H1 H2. destruct_or!; simplify_eq; try done; lia.
Qed.

Lemma reg_init : mgr_ok _dispatch_kevent_init.
Proof.
  assert (Hks : ∀ dk k, r_kevents (reg_of _dispatch_kevent_init) !! dk = Some k →
     ∃ i f, (dk, (i, f)) ∈ statics ∧ k_ident k = i ∧ k_filter k = f ∧ k_list k = []).
  { intros dk k (d & -> & Hd)%reg_kev. unfold _dispatch_kevent_init in Hd. cbn in Hd.
    unfold statics. repeat (apply lookup_insert_Some in Hd as [[<- <-]|[_ Hd]]); [..|by rewrite lookup_empty in Hd];
      eexists _, _; (split; [|split; [reflexivity|split; reflexivity]]); cbn; set_solver. }
  assert (Hst : ∀ dk i f, (dk, (i, f)) ∈ statics → ∃ k, r_kevents (reg_of _dispatch_kevent_init) !! dk = Some k ∧
     k_ident k = i ∧ k_filter k = f ∧ registered (reg_of _dispatch_kevent_init) dk k).
  { intros dk i f. unfold statics. rewrite !elem_of_cons, elem_of_nil.
    intros [[= -> -> ->]|[[= -> -> ->]|[[= -> -> ->]|[[= -> -> ->]|[[= -> -> ->]|[]]]]]]; eexists; (split; [reflexivity|]); (split; [reflexivity|]); (split; [reflexivity|]);
      unfold registered, bkt; cbn; set_solver. }
  assert (Hb : ∀ h, bkt h (reg_of _dispatch_kevent_init) = [] ∨ h ∈ [0; 1; 2]).
  { intros h. unfold bkt, _dispatch_kevent_init. cbn [r_buckets reg_of buckets].
    destruct (list_to_map _ !! h) as [l|] eqn:E; [right|by left]. cbn in E.
    repeat (apply lookup_insert_Some in E as [[<- _]|[_ E]]); [..|by rewrite lookup_empty in E]; vm_compute; set_solver. }
  assert (Hbs : ∀ h dk, dk ∈ bkt h (reg_of _dispatch_kevent_init) → ∃ i f, (dk, (i, f)) ∈ statics ∧ DSL_HASH i = h).
  { intros h dk Hin. destruct (Hb h) as [E|Hh]; [rewrite E in Hin; by apply elem_of_nil in Hin|].
    unfold statics. rewrite !elem_of_cons, elem_of_nil in Hh. destruct Hh as [->|[->|[->|[]]]].
    - change (dk ∈ [0%nat; 1%nat; 2%nat]) in Hin. rewrite !elem_of_cons, elem_of_nil in Hin.
      destruct Hin as [->|[->|[->|[]]]]; exists 0; eexists; (split; [|reflexivity]); [left|right; left|right; right; left].
    - change (dk ∈ [3%nat]) in Hin. rewrite !elem_of_cons, elem_of_nil in Hin.
      destruct Hin as [->|[]]; exists 1; eexists; (split; [|reflexivity]). do 3 right. left.
    - change (dk ∈ [4%nat]) in Hin. rewrite !elem_of_cons, elem_of_nil in Hin.
      destruct Hin as [->|[]]; exists 2; eexists; (split; [|reflexivity]). do 4 right. left. }
  split_and!; [split|..].
  - intros ds v. cbn. rewrite fmap_empty, lookup_empty. done.
  - intros dk k Hk. destruct (Hks dk k Hk) as (i & f & Hs & _ & Ef & El). rewrite <- Ef in Hs. split_and!; rewrite ?El.
    + constructor.
    + by intros ds ?%elem_of_nil.
    + intros _ Hc. apply statics_custom in Hs. congruence.
  - intros h dk Hin. destruct (Hbs h dk Hin) as (i & f & Hs & Eh). destruct (Hst dk i f Hs) as (k & Hk & Ei & _). exists k.
    by rewrite Ei.
  - intros h. destruct (Hb h) as [->|Hh]; [constructor|].
    rewrite !elem_of_cons, elem_of_nil in Hh. destruct Hh as [->|[->|[->|[]]]]; vm_compute; repeat constructor; set_solver.
  - intros dk k dk' k' Hk Hk' _ _ Ei Ef. destruct (Hks dk k Hk) as (i & f & Hs & <- & <- & _).
    destruct (Hks dk' k' Hk') as (i' & f' & Hs' & <- & <- & _). rewrite <- Ei, <- Ef in Hs'. by apply (statics_inj _ _ _ _ Hs Hs').
  - intros dk i f Hs. by apply Hst.
  - intros dk [k Hk]. destruct (Hks dk k Hk) as (i & f & Hs & _). unfold statics in Hs.
    rewrite !elem_of_cons, elem_of_nil in Hs. cbn. naive_solver (vm_compute; lia).
  - intros i k Hi Hk. destruct (Hks _ k Hk) as (? & ? & _ & _ & _ & ->). by repeat constructor.
  - intros dk k Hk _ Hc. destruct (Hks dk k Hk) as (i & f & Hs & _ & Ef & _). rewrite <- Ef in Hs. apply statics_custom in Hs. congruence.
Qed.

(** One call, in a good state. *)
Lemma exec_ok `{KL : !KQueueLaws} c s : mgr_ok s → callable s c → safe (exec c) (λ _ s', mgr_ok s') s.
Proof.
  assert (Hw : ∀ ds (m : SW unit) s, safe m (λ _ s', okds ds s') s → safe m (λ _ s', mgr_ok s') s).
  { intros ds m s0 H. eapply safe_mono; [exact H|]. by intros ? ? [? _]. }
  assert (Hi : ∀ A (m : SW A) s, safe m (λ _ s', mgr_ok s') s → safe (ignore m) (λ _ s', mgr_ok s') s).
  { intros A m s0 H. apply safe_bind. eapply safe_mono; [exact H|]. intros. by apply safe_wp, wp_ret. }
  intros Hok Hc. destruct c; cbn [exec]; cbn [callable] in Hc.
  - destruct Hc. apply Hi, safe_wp. by apply create_ok.
  - apply (Hw ds). eapply modify_ok; [by split|done|done].
  - apply (Hw ds). by apply event_handler_ok.
  - apply (Hw ds). by apply event_handler_f_ok.
  - apply (Hw ds). by apply cancel_handler_ok.
  - apply (Hw ds). by apply registration_handler_ok.
  - destruct Hc as (Hl & Hck & Hs & Hne & Hiv). apply Hi. eapply safe_mono; [by apply set_timer_ok|]. by intros p s' ([? _] & _).
  - apply (Hw (p_ds p)). by apply suspend_ok.
  - destruct Hc as ((x & Hx & Ht) & Hp). apply (Hw (p_ds p)). by apply (set_timer3_ok p x).
  - destruct Hc as (x & Hx & Hd). apply (Hw ds). apply (merge_data_ok ds val x); [split; [done|by exists x]|done..].
  - apply safe_wp. by apply kevent_ok.
  - apply safe_wp. by apply run_timers_ok.
  - destruct Hc as [Hck Hl]. apply Hi. eapply safe_mono; [by apply invoke_ok|]. by intros ? ? [? _].
  - apply (Hw ds). by apply cancel_ok.
  - apply (Hw ds). by apply suspend_ok.
  - apply (Hw ds). by apply resume_ok.
  - apply (Hw ds). by apply xref_retain_ok.
  - apply (Hw ds). by apply xref_release_ok.
Qed.

Lemma reached_ok `{KL : !KQueueLaws} s : reached s → mgr_ok s.
Proof.
  induction 1 as [|s c s' Hr IH Hc He]; [apply reg_init|]. pose proof (exec_ok c s IH Hc) as H. unfold safe in H. by rewrite He in H.
Qed.


(** C11. The registry of sources: an installed source is on the list of exactly
    one kernel event, which can be found in the hash table; two events that
    are there differ in their filter or their descriptor; an event that
    the kernel knows has a source, and asks for what its sources want and for
    nothing else. *)
Theorem source_registry_invariant `{KL : !KQueueLaws} s :
  reached s →
  (∀ ds x dk, sources s !! ds = Some x → ds_is_installed x = true → ds_dkev x = Some dk →
     ∃ k, kevents s !! dk = Some k ∧ ds ∈ dk_sources k ∧ dk ∈ bucket (_dispatch_kevent_hash (ident (dk_kevent k))) s) ∧
  (∀ dk k, kevents s !! dk = Some k → NoDup (dk_sources k) ∧
     ∀ ds, ds ∈ dk_sources k → ∃ x, sources s !! ds = Some x ∧ ds_dkev x = Some dk ∧ ds_is_installed x = true) ∧
  (∀ h h' dk dk' k k', dk ∈ bucket h s → dk' ∈ bucket h' s → kevents s !! dk = Some k → kevents s !! dk' = Some k' →
     ident (dk_kevent k) = ident (dk_kevent k') → filter (dk_kevent k) = filter (dk_kevent k') → dk = dk') ∧
  (∀ h dk k, dk ∈ bucket h s → kevents s !! dk = Some k → custom_filter (filter (dk_kevent k)) = false →
     dk_sources k ≠ [] ∧ wanted (dk_sources k) s = Ok (fflags (dk_kevent k)) s).
Proof.
  intros Hr. pose proof (reached_ok s Hr) as (C & _ & N).
  assert (Hreg : ∀ h dk k, dk ∈ bucket h s → kevents s !! dk = Some k → registered (reg_of s) dk (kview_of k)).
  { intros h dk k Hin Hk. destruct (core_bkt _ C h dk Hin) as (kv & Hkv & Eh). apply reg_kev_of in Hk.
    rewrite Hk in Hkv. injection Hkv as <-. unfold registered. by rewrite Eh. }
  split_and!.
  - intros ds x dk Hx Hi Hd. pose proof (reg_src_of s ds x Hx) as Hv. destruct (core_dkev _ ds _ dk C Hv Hd) as [kv Hkv].
    destruct (core_listed _ ds _ dk kv C Hv Hi Hd Hkv) as (Hin & Hrg & _). apply reg_kev in Hkv as (k & -> & Hk). by exists k.
  - intros dk k Hk. pose proof (core_kev _ C _ _ (reg_kev_of _ _ _ Hk)) as (Hn & Hl & _). split; [done|].
    intros ds Hin. destruct (Hl ds Hin) as (v & Hv & ? & ?). apply reg_src in Hv as (x & -> & Hx). by exists x.
  - intros h h' dk dk' k k' Hin Hin' Hk Hk' Ei Ef.
    by apply (core_key _ C dk (kview_of k) dk' (kview_of k') (reg_kev_of _ _ _ Hk) (reg_kev_of _ _ _ Hk') (Hreg h dk k Hin Hk) (Hreg h' dk' k' Hin' Hk')).
  - intros h dk k Hin Hk Hc. pose proof (Hreg h dk k Hin Hk) as Hrg. split; [by apply (N dk (kview_of k) (reg_kev_of _ _ _ Hk))|].
    pose proof (core_kev _ C _ _ (reg_kev_of _ _ _ Hk)) as (_ & _ & Hu). pose proof (Hu Hrg Hc) as Hu'. cbn in Hu'. rewrite Hu'.
    assert (H : wp (wanted (dk_sources k)) (λ w s', w = union_mask (reg_of s) (dk_sources k) ∧ s' = s) s)
      by (apply wp_wanted; [by apply (core_live s dk k)|done]).
    apply wp_ok in H as (w & s' & E & -> & ->). done.
Qed.

(** C12. The lists of timers are in the order of their dates, and hold the timers
    of their clock that have one. *)
Theorem timer_lists_sorted `{KL : !KQueueLaws} s i k :
  reached s → i = DISPATCH_TIMER_INDEX_WALL ∨ i = DISPATCH_TIMER_INDEX_MACH →
  kevents s !! _dispatch_kevent_timer i = Some k →
  (∀ ds, ds ∈ dk_sources k → ∃ x, sources s !! ds = Some x ∧ target (ds_timer x) ≠ 0 ∧ _dispatch_source_timer_idx x = i) ∧
  (∀ n m ds ds' x x', (n < m)%nat → dk_sources k !! n = Some ds → dk_sources k !! m = Some ds' →
     sources s !! ds = Some x → sources s !! ds' = Some x' → target (ds_timer x) ≤ target (ds_timer x')).
Proof.
  intros Hr Hi Hk. pose proof (reached_ok s Hr) as Hok. assert (El : lst s i = dk_sources k) by (unfold lst; by rewrite Hk). split.
  - intros ds Hin. rewrite <- El in Hin. destruct (armed_source s i ds Hok Hi Hin) as (x & Hx & _ & _ & _ & ? & _ & ? & _). eauto.
  - pose proof (lst_sorted s i Hok Hi) as Hs. rewrite El in Hs. clear El. intros n m ds ds' x x' Hlt Hn Hm Hx Hx'.
    assert (Hle : tgt (reg_of s) ds ≤ tgt (reg_of s) ds').
    { revert n m Hlt Hn Hm. induction Hs as [|d l Hl IH Hd]; intros n m Hlt Hn Hm; [by rewrite lookup_nil in Hn|].
      destruct m as [|m]; [lia|]. cbn in Hm. destruct n as [|n]; [|apply (IH n m); [lia|done|done]].
      cbn in Hn. injection Hn as ->. by apply (proj1 (Forall_forall _ _) Hd), (list_elem_of_lookup_2 _ m). }
    unfold tgt in Hle. by rewrite (reg_src_of s ds x Hx), (reg_src_of s ds' x' Hx') in Hle.
Qed.

(** C13. A run of the timers of a clock ends.  Every timer of the list whose date
    has come fires once, with the number of dates of its grid that have passed (or [INT_MAX]) and
    the next one as its date, unless it is suspended or has data that was not delivered: such timers
    leave the list until they are rearmed.  Nothing else changes, and the sources
    that fired are woken up, in the order of their dates. *)
Theorem run_timers_fires_due_timers `{KL : !KQueueLaws} ck i now s :
  reached s → clocks_ok ck → i = DISPATCH_TIMER_INDEX_WALL ∨ i = DISPATCH_TIMER_INDEX_MACH →
  _dispatch_source_timer_now2 ck i s = Ok now s →
  ∃ s', _dispatch_run_timers2 ck i s = Ok tt s' ∧
    (∀ d x, sources s !! d = Some x → sources s' !! d = Some (if decide (d ∈ lst s i) then run_result now x else x)) ∧
    (∀ d, sources s !! d = None → sources s' !! d = None) ∧
    wakeups s' = wakeups s ++ List.filter (fires_in now s) (lst s i) ∧ callouts s' = callouts s.
Proof.
  intros Hr Hck Hi Hnow. pose proof (reached_ok s Hr) as Hok. destruct (lst_kevent s i Hok Hi) as (k & Hk & Elst).
  assert (H : wp (_dispatch_run_timers2 ck i) (λ _ s',
    (∀ d x, sources s !! d = Some x → sources s' !! d = Some (if decide (d ∈ lst s i) then run_result now x else x)) ∧
    (∀ d, sources s !! d = None → sources s' !! d = None) ∧
    wakeups s' = wakeups s ++ List.filter (fires_in now s) (lst s i) ∧ callouts s' = callouts s) s).
  { unfold _dispatch_run_timers2. apply wp_bind. unfold wp at 1. rewrite Hnow.
    pose proof (now2_ok ck i s Hi Hck) as Hn. unfold wp in Hn. rewrite Hnow in Hn. destruct Hn as [_ Hrange].
    unfold timers_fuel. apply wp_bind, wp_bind, (wp_get_kevent _ k); [done|]. apply wp_ret. rewrite <- Elst.
    eapply wp_mono; [by apply run_timers2_spec|]. intros [] s' (_ & H). exact H. }
  apply wp_ok in H as ([] & s' & E & H). eauto.
Qed.

(** *** The next date *)

(** How long until a timer's date. *)
Definition delay_of (now : Z) (s : mgr_state) (d : nat) : Z :=
  match sources s !! d with Some x => Z.max 0 (target (ds_timer x) - now) | None => 0 end.

Definition least (l : list Z) : Z := foldr Z.min UINT64_MAX l.

Lemma least_sorted now s i :
  mgr_ok s → timer_index i → 0 ≤ now →
  least (delay_of now s <$> lst s i) = match lst s i with [] => UINT64_MAX | d :: _ => delay_of now s d end.
Proof.
  intros Hok Hi Hnow. pose proof (lst_sorted s i Hok Hi) as Hs.
  assert (Hsrc : ∀ d, d ∈ lst s i → ∃ x, sources s !! d = Some x ∧ 0 ≤ target (ds_timer x) < 2 ^ 64).
  { intros d Hd. destruct (armed_source s i d Hok Hi Hd) as (x & ? & _ & _ & _ & _ & _ & _ & ? & _). eauto. }
  destruct (lst s i) as [|d l] eqn:E; [done|]. apply StronglySorted_inv in Hs as [_ Hall].
  assert (Hl : ∀ l', (∀ e, e ∈ l' → e ∈ l) → delay_of now s d ≤ least (delay_of now s <$> l')).
  { destruct (Hsrc d) as (x & Hx & Hrx); [left|]. induction l' as [|e l' IH]; intros Hin.
    - unfold least, delay_of. cbn. rewrite Hx. unfold UINT64_MAX. lia.
    - assert (delay_of now s d ≤ delay_of now s e).
      { destruct (Hsrc e) as (y & Hy & _); [right; apply Hin; left|]. unfold delay_of. rewrite Hx, Hy.
        pose proof (proj1 (Forall_forall _ _) Hall e (Hin e ltac:(left))) as Hle. cbv beta in Hle. unfold tgt in Hle.
        rewrite (reg_src_of s d x Hx), (reg_src_of s e y Hy) in Hle. cbn in Hle. lia. }
      change (delay_of now s d ≤ Z.min (delay_of now s e) (least (delay_of now s <$> l'))).
      apply Z.min_glb; [done|]. apply IH. intros. apply Hin. by right. }
  change (Z.min (delay_of now s d) (least (delay_of now s <$> l)) = delay_of now s d). apply Z.min_l. by apply Hl.
Qed.

(** The delay that the function finds for a list. *)
Lemma list_delay_spec ck i now s :
  mgr_ok s → timer_index i → _dispatch_source_timer_now2 ck i s = Ok now s → 0 ≤ now < 2 ^ 63 →
  wp (list_delay ck i)
    (λ r s', s' = s ∧ r = match lst s i with [] => None | d :: _ => Some (delay_of now s d) end) s.
Proof.
  intros Hok Hi Hnow Hr. destruct (lst_kevent s i Hok Hi) as (k & Hk & Elst). unfold list_delay.
  apply wp_bind, (wp_get_kevent _ k); [done|]. rewrite <- Elst. destruct (lst s i) as [|d l] eqn:El; [by apply wp_ret|].
  destruct (armed_source s i d Hok Hi) as (x & Hx & _ & _ & _ & Hidx & _ & Hnz & Hrt & _); [rewrite El; left|].
  apply wp_bind, (wp_get_source d x); [done|]. rewrite (proj2 (Z.eqb_neq _ _) Hnz). apply wp_bind.
  unfold _dispatch_source_timer_now. rewrite Hidx. unfold wp at 1. rewrite Hnow. unfold delay_of. rewrite Hx.
  case_decide; apply wp_ret; (split; [done|]); f_equal; [lia|].
  unfold _dispatch_time_mach2nano. rewrite wrapU_small by lia. destruct (has _ _); lia.
Qed.

(** One turn of the loop over the clocks. *)
Lemma next_delta_spec ck i now delta s :
  mgr_ok s → timer_index i → _dispatch_source_timer_now2 ck i s = Ok now s → 0 ≤ now < 2 ^ 63 → 0 ≤ delta ≤ UINT64_MAX →
  let d := least (delay_of now s <$> lst s i) in
  0 ≤ d ≤ UINT64_MAX ∧ next_delta ck i (Some delta) s = Ok (if decide (d = 0) then None else Some (Z.min delta d)) s.
Proof.
  intros Hok Hi Hnow Hr Hdelta. cbv zeta. rewrite least_sorted by (done || lia).
  pose proof (list_delay_spec ck i now s Hok Hi Hnow Hr) as D. apply wp_ok in D as (r & s1 & E & -> & Hd).
  unfold next_delta, mbind, M_bind. rewrite E, Hd. destruct (lst s i) as [|d l] eqn:El.
  { split; [done|]. rewrite decide_False by done. by rewrite Z.min_l by lia. }
  destruct (armed_source s i d Hok Hi) as (x & Hx & _ & _ & _ & _ & _ & _ & Hrt & _); [rewrite El; left|].
  assert (Hb : 0 ≤ delay_of now s d ≤ UINT64_MAX) by (unfold delay_of; rewrite Hx; unfold UINT64_MAX; lia).
  split; [done|]. revert Hb. destruct (delay_of now s d) as [|p|p]; intros Hb; [done| |lia]. rewrite (decide_False (P := Z.pos p = 0)) by lia.
  unfold mret, M_ret. do 2 f_equal. case_decide; lia.
Qed.

(** C14. The manager sleeps exactly until the earliest date of all the armed
    timers of both clocks, not at all if one is past, and without a bound when
    there is none within a year. *)
Theorem next_timer_fire_is_earliest `{KL : !KQueueLaws} ck wall mach s :
  reached s → clocks_ok ck →
  _dispatch_source_timer_now2 ck DISPATCH_TIMER_INDEX_WALL s = Ok wall s →
  _dispatch_source_timer_now2 ck DISPATCH_TIMER_INDEX_MACH s = Ok mach s →
  _dispatch_get_next_timer_fire ck s =
    Ok (let delta := Z.min (least (delay_of wall s <$> lst s DISPATCH_TIMER_INDEX_WALL))
                           (least (delay_of mach s <$> lst s DISPATCH_TIMER_INDEX_MACH)) in
        if decide (FOREVER_NSEC < delta) then None else Some (TS (delta / NSEC_PER_SEC) (delta mod NSEC_PER_SEC))) s.
Proof.
  intros Hr Hck Hw Hm. pose proof (reached_ok s Hr) as Hok.
  assert (Hiw : timer_index DISPATCH_TIMER_INDEX_WALL) by (by left). assert (Him : timer_index DISPATCH_TIMER_INDEX_MACH) by (by right).
  pose proof (now2_ok ck _ s Hiw Hck) as Hrw. unfold wp in Hrw. rewrite Hw in Hrw. destruct Hrw as [_ Hrw].
  pose proof (now2_ok ck _ s Him Hck) as Hrm. unfold wp in Hrm. rewrite Hm in Hrm. destruct Hrm as [_ Hrm].
  pose proof (next_delta_spec ck _ wall UINT64_MAX s Hok Hiw Hw Hrw ltac:(done)) as Hd. cbv zeta in Hd. destruct Hd as [Hbw Ew].
  unfold _dispatch_get_next_timer_fire. set (dw := least (delay_of wall s <$> _)) in *. unfold mbind, M_bind. rewrite Ew.
  pose proof (next_delta_spec ck _ mach (Z.min UINT64_MAX dw) s Hok Him Hm Hrm ltac:(lia)) as Hd. cbv zeta in Hd. destruct Hd as [Hbm Em].
  set (dm := least (delay_of mach s <$> _)) in *.
  destruct (decide (dw = 0)) as [E0|Hne].
  - rewrite E0, Z.min_l by lia. done.
  - rewrite Em. destruct (decide (dm = 0)) as [E0|Hne'].
    + rewrite E0, Z.min_r by lia. done.
    + rewrite (Z.min_r UINT64_MAX dw) by lia. unfold mret, M_ret. done.
Qed.
End Reached.
