(* ===== verification/SourceLife.v ===== *)
(** * The life of a source: the theorems

    Invocation and probing, cancellation, and the data of handlers. *)

From Stdlib Require Import Sorted.
From S2P Require Import Prelude Time Source SourceReg SourceCore SourceOps SourceLink SourceCalls SourceMove SourceInstall Timer TimerRun SourceInvoke SourceSafe SourceType SourceTheorems.

Section Life.
Context {K : KQueue}.

(** ** Probing *)

(** The queue that the source must be invoked on next, if there is anything to do. *)
Definition needs (x : dispatch_source_s) : option nat :=
  if negb (ds_is_installed x) then Some _dispatch_mgr_q
  else if negb (ds_registration_handler x =? 0) then Some (ds_targetq x)
  else if ds_over x then
    match ds_dkev x with
    | Some _ => Some _dispatch_mgr_q
    | None =>
        if negb (ds_cancel_handler x =? 0) || ds_handler_is_block x || ds_registration_is_block x
        then Some (ds_targetq x) else None
    end
  else if negb (ds_pending_data x =? 0) then Some (ds_targetq x)
  else if ds_needs_rearm x && negb (has (ds_atomic_flags x) DSF_ARMED) then Some _dispatch_mgr_q
  else None.

Lemma get_source_run {A} ds x (k : dispatch_source_s → SW A) s : sources s !! ds = Some x → (get_source ds ≫= k) s = k x s.
Proof. intros H. unfold get_source, mbind, M_bind, getS, try_opt. by rewrite H. Qed.

(** C15. The tests of [_dispatch_source_probe] and of [_dispatch_source_invoke]
    agree: the probe is true exactly when the source must go to some queue; on
    every other queue the invocation names that queue and does nothing else; and when the probe is
    false it calls no handler, tells the kernel nothing and asks for no queue.  (A suspended
    source may be probed, but is not served.) *)
Theorem probe_agrees_with_invoke ck dq ds x s :
  sources s !! ds = Some x → ds_is_installed x && DISPATCH_OBJECT_SUSPENDED x = false →
  match needs x with
  | Some q => _dispatch_source_probe x = true ∧ (dq ≠ q → _dispatch_source_invoke ck dq ds s = Ok (Some q) s)
  | None => _dispatch_source_probe x = false ∧
      ∃ s', _dispatch_source_invoke ck dq ds s = Ok None s' ∧ callouts s' = callouts s ∧ kq_updates s' = kq_updates s ∧
            wakeups s' = wakeups s
  end.
Proof.
  intros Hx Hs. unfold needs, _dispatch_source_probe, _dispatch_source_invoke. rewrite (get_source_run ds x) by done.
  destruct (ds_is_installed x); cbn [negb andb] in *; [|split; [done|intros; by rewrite decide_True]]. rewrite Hs.
  destruct (ds_registration_handler x =? 0); cbn [negb]; [|split; [done|intros; by rewrite decide_True]].
  destruct (ds_over x).
  - destruct (ds_dkev x) as [dk|] eqn:Hd.
    + rewrite bool_decide_eq_true_2 by eauto. cbn [orb andb]. split; [done|]. intros. by rewrite bool_decide_eq_true_2.
    + rewrite bool_decide_eq_false_2 by (intros []; congruence). cbn [orb andb whenM].
      assert (E : ∀ (k : unit → SW (option nat)), (mret tt ≫= k) s = k tt s) by done. rewrite E, (get_source_run ds x) by done.
      destruct (_ || _ || _) eqn:Eb.
      * split; [done|]. intros. cbn [andb]. by rewrite bool_decide_eq_true_2.
      * split; [done|]. cbn [andb]. apply orb_false_iff in Eb as [[Ec Eh]%orb_false_iff Er]. apply negb_false_iff in Ec.
        unfold _dispatch_source_cancel_callout, modify_source, get_source, mbind, M_bind, getS, try_opt, modifyS. rewrite Hx.
        cbn. rewrite lookup_insert_eq. cbn. rewrite Eh, Er, Ec. cbn. eexists. split; [reflexivity|done].
  - destruct (ds_pending_data x =? 0); cbn [negb]; [|split; [done|intros; by rewrite decide_True]].
    destruct (ds_needs_rearm x && _); [split; [done|intros; by rewrite decide_True]|]. split; [done|]. by exists s.
Qed.

(** ** Cancellation *)

(** The calls when a source is over: its blocks are released, and its cancellation
    handler called if it was cancelled. *)
Definition cancel_calls (ds : nat) (x : dispatch_source_s) : list source_callout :=
  (if ds_handler_is_block x then [CO_block_release (ds_handler_ctxt x)] else []) ++
  (if ds_registration_is_block x then [CO_block_release (ds_registration_handler x)] else []) ++
  (if ds_cancel_handler x =? 0 then []
   else (if has (ds_atomic_flags x) DSF_CANCELED then [CO_cancel ds (ds_cancel_handler x)] else []) ++
        (if ds_cancel_is_block x then [CO_block_release (ds_cancel_handler x)] else [])).

(** What [_dispatch_source_cancel_callout] leaves. *)
Definition cancelled (x : dispatch_source_s) : dispatch_source_s :=
  let x := put_data 0 (put_pending_data 0 (put_pending_data_mask 0 x)) in
  let x := if ds_handler_is_block x then put_handler_ctxt 0 (put_handler_func 0 (put_handler_is_block false x)) else x in
  let x := if ds_registration_is_block x then put_registration_handler 0 (put_registration_is_block false x) else x in
  if ds_cancel_handler x =? 0 then x
  else put_cancel_handler 0 (if ds_cancel_is_block x then put_cancel_is_block false x else x).

Ltac run_step :=
  lazymatch goal with
  | |- wp (mbind _ _) _ _ => apply wp_bind; cbv beta
  | |- wp (modify_source _ _) _ _ => eapply wp_modify_source; [apply lookup_insert_eq|]
  | |- wp (modifyS _) _ _ => apply wp_modify
  | |- wp (mret _) _ _ => apply wp_ret
  | |- wp (whenM _ _) _ _ => cbn [whenM]
  end.

Lemma cancel_callout_run ds x s :
  sources s !! ds = Some x →
  ∃ s', _dispatch_source_cancel_callout ds s = Ok tt s' ∧ callouts s' = callouts s ++ cancel_calls ds x ∧
        sources s' = <[ds := cancelled x]> (sources s) ∧ kevents s' = kevents s.
Proof.
  intros Hx. unfold _dispatch_source_cancel_callout, cancel_calls, cancelled.
  destruct x as [dk fl lv ad tm inst rearm cb hb rb dat pd pm ih hf hc ch rh ti cx tq sc xr rf].
  match type of Hx with _ = Some ?y => set (x := y) in * end.
  enough (H : wp (_dispatch_source_cancel_callout ds) (λ _ s', callouts s' = callouts s ++ cancel_calls ds x ∧
        sources s' = <[ds := cancelled x]> (sources s) ∧ kevents s' = kevents s) s).
  { apply wp_ok in H as ([] & s' & E & H). eauto. }
  unfold _dispatch_source_cancel_callout. apply wp_bind, (wp_modify_source ds _ x); [done|].
  apply wp_bind. eapply wp_get_source; [apply lookup_insert_eq|]. unfold cancel_calls, cancelled.
  unfold x. cbn -[has Z.eqb]. unfold call_out.
  destruct hb, rb; destruct (ch =? 0) eqn:Ec; try destruct cb, (has fl DSF_CANCELED); repeat run_step;
    cbn; rewrite ?Ec, ?insert_insert_eq, <- ?app_assoc, ?app_nil_r; done.
Qed.

Lemma ret_bind {A B} (a : A) (k : A → SW B) s : (mret a ≫= k) s = k a s.
Proof. done. Qed.

(** A source that is over, and uninstalled. *)
Definition gone (x : dispatch_source_s) : Prop :=
  ds_is_installed x = true ∧ ds_registration_handler x = 0 ∧ DISPATCH_OBJECT_SUSPENDED x = false ∧ ds_over x = true ∧ ds_dkev x = None.

Lemma invoke_gone ck dq ds x s :
  sources s !! ds = Some x → gone x →
  _dispatch_source_invoke ck dq ds s =
  (if (negb (ds_cancel_handler x =? 0) || ds_handler_is_block x || ds_registration_is_block x) && bool_decide (dq ≠ ds_targetq x)
   then Ok (Some (ds_targetq x)) s else (_dispatch_source_cancel_callout ds;; mret None) s).
Proof.
  intros Hx (Hi & Hr & Hs & Ho & Hd). unfold _dispatch_source_invoke. rewrite (get_source_run ds x) by done.
  rewrite Hi, Hs, Hr, Ho, Hd. cbn [negb andb]. rewrite Z.eqb_refl. cbn [negb]. rewrite bool_decide_eq_false_2 by (intros []; done).
  cbn [andb whenM]. rewrite ret_bind, (get_source_run ds x) by done. by destruct (_ && _).
Qed.

(** The calls for any source that is over: the block of a registration handler
    that was not called yet is released before. *)
Definition over_calls (ds : nat) (x : dispatch_source_s) : list source_callout :=
  if ds_registration_handler x =? 0 then cancel_calls ds x
  else (if ds_registration_is_block x then [CO_block_release (ds_registration_handler x)] else []) ++
       cancel_calls ds (put_registration_handler 0 (put_registration_is_block false x)).

(** The calls of handlers, without the releases of blocks. *)
Definition handler_calls (l : list source_callout) : list source_callout :=
  List.filter (λ c, match c with CO_block_release _ => false | _ => true end) l.

Lemma over_calls_handlers ds x :
  handler_calls (over_calls ds x) =
  if has (ds_atomic_flags x) DSF_CANCELED && negb (ds_cancel_handler x =? 0) then [CO_cancel ds (ds_cancel_handler x)] else [].
Proof.
  unfold over_calls, cancel_calls. cbn -[has].
  destruct (ds_registration_handler x =? 0), (ds_registration_is_block x), (ds_handler_is_block x), (ds_cancel_handler x =? 0),
    (has (ds_atomic_flags x) DSF_CANCELED), (ds_cancel_is_block x); done.
Qed.

Lemma client_over x y : client_of x = client_of y → ds_over x = ds_over y ∧ DISPATCH_OBJECT_SUSPENDED x = DISPATCH_OBJECT_SUSPENDED y.
Proof. unfold client_of, ds_over, DISPATCH_OBJECT_SUSPENDED. intros [=]. split; congruence. Qed.

Lemma client_over_calls ds x y : client_of x = client_of y → over_calls ds x = over_calls ds y.
Proof.
  unfold client_of, over_calls, cancel_calls. cbn -[has]. intros [=].
  repeat match goal with E : _ x = _ y |- _ => rewrite ?E; clear E | E : has _ _ = has _ _ |- _ => rewrite ?E; clear E end. done.
Qed.

(** ** Serving a source that is over *)

Lemma drive_next n ck dq q ds s s1 :
  _dispatch_source_invoke ck dq ds s = Ok (Some q) s1 → drive (S n) ck dq ds s = drive n ck q ds s1.
Proof. intros E. cbn [drive]. unfold mbind at 1, M_bind at 1. by rewrite E. Qed.

Lemma drive_none n ck dq ds x s s1 :
  _dispatch_source_invoke ck dq ds s = Ok None s1 → sources s1 !! ds = Some x →
  drive (S n) ck dq ds s =
  if DISPATCH_OBJECT_SUSPENDED x || negb (_dispatch_source_probe x) then Ok tt s1 else drive n ck (ds_targetq x) ds s1.
Proof.
  intros E Hx. cbn [drive]. unfold mbind at 1, M_bind at 1. rewrite E, (get_source_run ds x) by done. by destruct (_ || _).
Qed.

Lemma drive_mono n m ck dq ds s s' : (n ≤ m)%nat → drive n ck dq ds s = Ok tt s' → drive m ck dq ds s = Ok tt s'.
Proof.
  revert m dq s. induction n as [|n IH]; intros [|m] dq s Hle; try done; [lia|]. cbn [drive]. unfold mbind, M_bind.
  destruct (_dispatch_source_invoke ck dq ds s) as [[q|] s2|f]; [apply IH; lia| |done].
  destruct (get_source ds s2) as [x s3|f]; [|done]. destruct (_ || _); [done|apply IH; lia].
Qed.

Definition unlisted (ds : nat) (s : mgr_state) : Prop := ∀ dk k, kevents s !! dk = Some k → ds ∉ dk_sources k.

Lemma unlisted_no_dkev ds x s : mgr_ok s → sources s !! ds = Some x → ds_dkev x = None → unlisted ds s.
Proof.
  intros (C & _ & _) Hx Hd dk k Hk Hin.
  pose proof (core_only _ dk _ ds _ C (reg_kev_of _ _ _ Hk) Hin (reg_src_of _ _ _ Hx)) as E. cbn in E. congruence.
Qed.

(** [n] invocations, the first on [dq], are enough. *)
Definition settles (n : nat) (ck : clocks) (dq ds : nat) (x : dispatch_source_s) (s : mgr_state) : Prop :=
  ∃ s' x', drive n ck dq ds s = Ok tt s' ∧ callouts s' = callouts s ++ over_calls ds x ∧
    sources s' !! ds = Some x' ∧ ds_dkev x' = None ∧ _dispatch_source_probe x' = false ∧ unlisted ds s'.

Lemma settles_mono n m ck dq ds x s : (n ≤ m)%nat → settles n ck dq ds x s → settles m ck dq ds x s.
Proof. intros Hle (s' & x' & E & H). exists s', x'. split; [by apply (drive_mono n)|done]. Qed.

Lemma settles_via n m ck dq q ds x x1 pre s s1 :
  drive m ck dq ds s = drive n ck q ds s1 → callouts s1 = callouts s ++ pre → over_calls ds x = pre ++ over_calls ds x1 →
  settles n ck q ds x1 s1 → settles m ck dq ds x s.
Proof.
  intros E Hc Ho (s' & x' & E' & Hc' & H). exists s', x'. split; [by rewrite E|]. split; [|done]. by rewrite Hc', Hc, Ho, app_assoc.
Qed.

(** Installed, past its registration handler, and over. *)
Definition ending (x : dispatch_source_s) : Prop :=
  ds_is_installed x = true ∧ ds_registration_handler x = 0 ∧ DISPATCH_OBJECT_SUSPENDED x = false ∧ ds_over x = true.

Lemma ending_calls ds x : ending x → over_calls ds x = cancel_calls ds x.
Proof. intros (_ & Hr & _). unfold over_calls. by rewrite Hr. Qed.

Lemma ending_idle ds x : ending x → _dispatch_source_probe x = false → ds_dkev x = None ∧ over_calls ds x = [].
Proof.
  intros E. rewrite (ending_calls ds x E). destruct E as (Hi & Hr & _ & Ho). unfold _dispatch_source_probe, cancel_calls. rewrite Hi, Hr, Ho. cbn [negb].
  rewrite Z.eqb_refl. cbn [negb]. intros [[[Hd Hc]%orb_false_iff Hh]%orb_false_iff Hb]%orb_false_iff.
  rewrite Hh, Hb. apply negb_false_iff in Hc. rewrite Hc. split; [|done]. destruct (ds_dkev x); [|done]. by rewrite bool_decide_eq_true_2 in Hd by eauto.
Qed.

Lemma cancelled_idle x : ending x → ds_dkev x = None →
  ds_dkev (cancelled x) = None ∧ _dispatch_source_probe (cancelled x) = false ∧ DISPATCH_OBJECT_SUSPENDED (cancelled x) = false.
Proof.
  intros (Hi & Hr & Hs & Ho) Hd. destruct x as [dk fl lv ad tm inst rearm cb hb rb dat pd pm ih hf hc ch rh ti cx tq sc xr rf].
  cbn -[DISPATCH_OBJECT_SUSPEND_INTERVAL] in *. subst. unfold _dispatch_source_probe, cancelled, ds_over, DISPATCH_OBJECT_SUSPENDED in *. cbn -[has Z.eqb] in *.
  destruct hb, rb, (ch =? 0) eqn:Ec; try destruct cb; repeat (cbn -[has Z.eqb]; rewrite ?Z.eqb_refl, ?Ho, ?Ec, ?Hs); done.
Qed.

(** The invocation that calls the cancellation handler is the last one. *)
Lemma settles_callout n ck dq ds x s :
  mgr_ok s → sources s !! ds = Some x → gone x →
  _dispatch_source_invoke ck dq ds s = (_dispatch_source_cancel_callout ds;; mret None) s → settles (S n) ck dq ds x s.
Proof.
  intros Hok Hx (Hi & Hr & Hs & Ho & Hd) E. destruct (cancel_callout_run ds x s Hx) as (s' & Ec & Hc & Hsrc & Hk).
  assert (En : _dispatch_source_invoke ck dq ds s = Ok None s') by (rewrite E; unfold mbind, M_bind; by rewrite Ec).
  assert (Hx' : sources s' !! ds = Some (cancelled x)) by (rewrite Hsrc; apply lookup_insert_eq).
  destruct (cancelled_idle x) as (H1 & H2 & H3); [by split_and!|done|]. exists s', (cancelled x).
  rewrite (drive_none n ck dq ds _ s s' En Hx'), H2, orb_true_r, ending_calls by by split_and!.
  split_and!; [done..|]. unfold unlisted. rewrite Hk. by apply (unlisted_no_dkev ds x).
Qed.

Lemma settles_gone ck dq ds x s : mgr_ok s → sources s !! ds = Some x → gone x → settles 2 ck dq ds x s.
Proof.
  intros Hok Hx G. pose proof (invoke_gone ck dq ds x s Hx G) as E. destruct (_ && _) eqn:Eb; [|by apply settles_callout].
  eapply (settles_via 1 2 _ _ _ _ _ x [] s s); [by apply drive_next|by rewrite app_nil_r|done|]. apply settles_callout; [done..|].
  rewrite (invoke_gone ck _ ds x s Hx G), bool_decide_eq_false_2 by tauto. by rewrite andb_false_r.
Qed.

(** On the manager queue the source is uninstalled first. *)
Lemma invoke_uninstalls ck ds x dk s :
  mgr_ok s → sources s !! ds = Some x → ending x → ds_dkev x = Some dk →
  ∃ s1, mgr_ok s1 ∧ callouts s1 = callouts s ∧ sources s1 !! ds = Some (unregistered x) ∧ gone (unregistered x) ∧
    _dispatch_source_invoke ck _dispatch_mgr_q ds s = _dispatch_source_invoke ck _dispatch_mgr_q ds s1.
Proof.
  intros Hok Hx (Hi & Hr & Hs & Ho) Hd. pose proof (unregister_spec None ds x dk s Hok (or_introl eq_refl) Hx Hi Hd) as H.
  apply wp_ok in H as ([] & s1 & E & Hok1 & Hc1 & Hx1 & _).
  assert (G : gone (unregistered x)).
  { split_and!; try done. unfold ds_over, unregistered. cbn. by rewrite canceled_unarm. }
  exists s1. split_and!; [done..|]. rewrite (invoke_gone ck _ ds _ s1 Hx1 G). unfold _dispatch_source_invoke. rewrite (get_source_run ds x) by done.
  rewrite Hi, Hs, Hr, Ho, Hd. cbn [negb andb]. rewrite Z.eqb_refl. cbn [negb]. rewrite bool_decide_eq_true_2 by eauto.
  rewrite bool_decide_eq_false_2 by tauto. cbn [andb whenM]. unfold mbind at 1, M_bind at 1. unfold mbind at 1, M_bind at 1. rewrite E.
  unfold mret at 1, M_ret at 1. cbv iota. rewrite (get_source_run ds _) by done. by destruct (_ && _).
Qed.

Lemma settles_ending ck dq ds x s : mgr_ok s → sources s !! ds = Some x → ending x → settles 3 ck dq ds x s.
Proof.
  intros Hok Hx End. destruct (ds_dkev x) as [dk|] eqn:Hd.
  - assert (Hmgr : settles 2 ck _dispatch_mgr_q ds x s).
    { destruct (invoke_uninstalls ck ds x dk s Hok Hx End Hd) as (s1 & Hok1 & Hc1 & Hx1 & G & E).
      eapply (settles_via 2 2 _ _ _dispatch_mgr_q _ _ (unregistered x) [] s s1); [|by rewrite app_nil_r| |by apply settles_gone].
      - cbn [drive]. unfold mbind at 1 4, M_bind at 1 4. by rewrite E.
      - apply client_over_calls. by rewrite client_unregistered. }
    destruct (decide (dq = _dispatch_mgr_q)) as [->|Hne]; [by apply (settles_mono 2 3); [lia|]|].
    eapply (settles_via 2 3 _ _ _ _ _ x [] s s); [|by rewrite app_nil_r|done|exact Hmgr]. apply drive_next. destruct End as (Hi & Hr & Hs & Ho).
    unfold _dispatch_source_invoke. rewrite (get_source_run ds x) by done. rewrite Hi, Hs, Hr, Ho, Hd. cbn [negb andb]. rewrite Z.eqb_refl. cbn [negb].
    by rewrite !bool_decide_eq_true_2 by eauto.
  - apply (settles_mono 2 3); [lia|]. apply settles_gone; [done..|]. destruct End as (? & ? & ? & ?). by split_and!.
Qed.

(** An invocation that names no queue: [_dispatch_wakeup] looks again. *)
Lemma settles_none ck dq ds x1 pre x s s1 :
  _dispatch_source_invoke ck dq ds s = Ok None s1 → mgr_ok s1 → sources s1 !! ds = Some x1 → ending x1 →
  callouts s1 = callouts s ++ pre → over_calls ds x = pre ++ over_calls ds x1 → settles 4 ck dq ds x s.
Proof.
  intros E Hok1 Hx1 End Hc Ho. pose proof (drive_none 3 ck dq ds x1 s s1 E Hx1) as Ed.
  assert (Hs : DISPATCH_OBJECT_SUSPENDED x1 = false) by apply End. rewrite Hs in Ed. cbn [orb] in Ed.
  destruct (_dispatch_source_probe x1) eqn:Ep; cbn [negb] in Ed; [by apply (settles_via 3 4 _ _ (ds_targetq x1) _ _ x1 pre s s1); [..|apply settles_ending]|].
  destruct (ending_idle ds x1 End Ep) as [Hd Ho1]. rewrite Ho1, app_nil_r in Ho. exists s1, x1. rewrite Ho.
  split_and!; [done..|]. by apply (unlisted_no_dkev ds x1).
Qed.

(** The registration handler of a source that is over is not called. *)
Lemma registration_over_run ds x s :
  mgr_ok s → sources s !! ds = Some x → ds_over x = true →
  ∃ s1, _dispatch_source_registration_callout ds s = Ok tt s1 ∧ mgr_ok s1 ∧
    callouts s1 = callouts s ++ (if ds_registration_is_block x then [CO_block_release (ds_registration_handler x)] else []) ∧
    sources s1 !! ds = Some (put_registration_handler 0 (put_registration_is_block false x)).
Proof.
  intros Hok Hx Ho. set (l := if ds_registration_is_block x then [CO_block_release (ds_registration_handler x)] else []).
  set (s1 := set_sources (<[ds := put_registration_handler 0 (put_registration_is_block false x)]> (sources s)) (set_callouts (callouts s ++ l) s)).
  exists s1. split_and!; [|unfold mgr_ok; replace (reg_of s1) with (reg_of s); [done|symmetry; by apply (reg_same_source (set_callouts (callouts s ++ l) s) ds x)]|done|apply lookup_insert_eq].
  enough (H : wp (_dispatch_source_registration_callout ds) (λ _ s', s' = s1) s) by (apply wp_ok in H as ([] & ? & E & ->); done).
  apply wp_bind, (wp_get_source ds x); [done|]. rewrite Ho. apply wp_bind, wp_whenM; intros Eb.
  - apply wp_modify, (wp_modify_source ds _ x); [done|]. unfold s1, l. by rewrite Eb.
  - apply (wp_modify_source ds _ x); [done|]. unfold s1, l. rewrite Eb, app_nil_r. by destruct s.
Qed.

(** On the target queue of the source. *)
Lemma settles_registration ck ds x s :
  mgr_ok s → sources s !! ds = Some x → ds_is_installed x = true → ds_registration_handler x ≠ 0 →
  DISPATCH_OBJECT_SUSPENDED x = false → ds_over x = true → settles 4 ck (ds_targetq x) ds x s.
Proof.
  intros Hok Hx Hi Hr Hs Ho. destruct (registration_over_run ds x s Hok Hx Ho) as (s1 & E & Hok1 & Hc & Hx1).
  set (x1 := put_registration_handler 0 _) in Hx1. set (pre := if ds_registration_is_block x then [CO_block_release (ds_registration_handler x)] else []) in Hc. assert (End : ending x1) by by split_and!.
  assert (Hcalls : over_calls ds x = pre ++ over_calls ds x1).
  { rewrite (ending_calls ds x1 End). unfold over_calls. by rewrite (proj2 (Z.eqb_neq _ _) Hr). }
  assert (Ei : _dispatch_source_invoke ck (ds_targetq x) ds s = Ok (if ds_xref_cnt x1 =? -1 then Some _dispatch_mgr_q else None) s1).
  { unfold _dispatch_source_invoke. rewrite (get_source_run ds x) by done. rewrite Hi, Hs, (proj2 (Z.eqb_neq _ _) Hr). cbn [negb].
    rewrite decide_False by tauto. unfold mbind at 1, M_bind at 1. rewrite E. by rewrite (get_source_run ds x1). }
  destruct (ds_xref_cnt x1 =? -1); [|by eapply settles_none].
  eapply (settles_via 3 4 _ _ _ _ _ x1 pre s s1); [by apply drive_next|done|done|by apply settles_ending].
Qed.

(** On the manager queue the source is installed first. *)
Lemma settles_uninstalled ck ds x s :
  mgr_ok s → sources s !! ds = Some x → ds_is_installed x = false → DISPATCH_OBJECT_SUSPENDED x = false → ds_over x = true →
  settles 5 ck _dispatch_mgr_q ds x s.
Proof.
  intros Hok Hx Hi Hs Ho. pose proof (register_spec ds x s Hok Hx Hi) as H. apply wp_ok in H as ([] & s1 & E & Hok1 & Hc & _ & x1 & Hx1 & Ecl & Hi1 & _).
  destruct (client_over x1 x Ecl) as [Ho1 Hs1]. rewrite Ho in Ho1. rewrite Hs in Hs1.
  assert (Hcalls : over_calls ds x = [] ++ over_calls ds x1) by (by apply client_over_calls). rewrite <- (app_nil_r (callouts s)) in Hc.
  assert (Ei : _dispatch_source_invoke ck _dispatch_mgr_q ds s =
     Ok (if negb (ds_registration_handler x1 =? 0) then Some (ds_targetq x1) else if ds_xref_cnt x1 =? -1 then Some _dispatch_mgr_q else None) s1).
  { unfold _dispatch_source_invoke. rewrite (get_source_run ds x) by done. rewrite Hi. cbn [negb]. rewrite decide_False by tauto.
    unfold mbind at 1, M_bind at 1. rewrite E. by rewrite (get_source_run ds x1). }
  destruct (ds_registration_handler x1 =? 0) eqn:Er; cbn [negb] in Ei.
  - apply Z.eqb_eq in Er. assert (End : ending x1) by by split_and!. apply (settles_mono 4 5); [lia|].
    destruct (ds_xref_cnt x1 =? -1); [|by eapply settles_none].
    eapply (settles_via 3 4 _ _ _ _ _ x1 [] s s1); [by apply drive_next|done|done|by apply settles_ending].
  - apply Z.eqb_neq in Er. eapply (settles_via 4 5 _ _ _ _ _ x1 [] s s1); [by apply drive_next|done|done|by apply settles_registration].
Qed.

(** C16. A source that was cancelled, or given up by its client, and is not
    suspended, is served in six invocations at most, from whatever queue the first one is
    on, whether it was installed or not: it leaves the manager queue
    and every list; its blocks are released; its cancellation handler is
    called, once, exactly if it was cancelled, and no other handler is; and then
    there is nothing left to do for it. *)
Theorem cancelled_source_settles `{KL : !KQueueLaws} ck dq ds x s :
  reached s → sources s !! ds = Some x → DISPATCH_OBJECT_SUSPENDED x = false → ds_over x = true →
  ∃ s' x', drive 6 ck dq ds s = Ok tt s' ∧ callouts s' = callouts s ++ over_calls ds x ∧
    handler_calls (over_calls ds x) =
      (if has (ds_atomic_flags x) DSF_CANCELED && negb (ds_cancel_handler x =? 0) then [CO_cancel ds (ds_cancel_handler x)] else []) ∧
    sources s' !! ds = Some x' ∧ ds_dkev x' = None ∧ _dispatch_source_probe x' = false ∧
    ∀ dk k, kevents s' !! dk = Some k → ds ∉ dk_sources k.
Proof.
  intros Hreach Hx Hs Ho. pose proof (reached_ok s Hreach) as Hok. enough (H : settles 6 ck dq ds x s).
  { destruct H as (s' & x' & E & Hc & H). exists s', x'. split_and!; [done|done|apply over_calls_handlers|apply H..]. }
  destruct (ds_is_installed x) eqn:Hi.
  - destruct (decide (ds_registration_handler x = 0)) as [Hr|Hr]; [apply (settles_mono 3 6); [lia|]; by apply settles_ending; [..|split_and!]|].
    apply (settles_mono 5 6); [lia|]. destruct (decide (dq = ds_targetq x)) as [->|Hne]; [apply (settles_mono 4 5); [lia|]; by apply settles_registration|].
    eapply (settles_via 4 5 _ _ _ _ _ x [] s s); [apply drive_next|by rewrite app_nil_r|done|by apply settles_registration].
    unfold _dispatch_source_invoke. rewrite (get_source_run ds x) by done. rewrite Hi, Hs, (proj2 (Z.eqb_neq _ _) Hr). cbn [negb]. by rewrite decide_True.
  - destruct (decide (dq = _dispatch_mgr_q)) as [->|Hne]; [apply (settles_mono 5 6); [lia|]; by apply settles_uninstalled|].
    eapply (settles_via 5 6 _ _ _ _ _ x [] s s); [apply drive_next|by rewrite app_nil_r|done|by apply settles_uninstalled].
    unfold _dispatch_source_invoke. rewrite (get_source_run ds x) by done. rewrite Hi. cbn [negb]. by rewrite decide_True.
Qed.

(** ** The data of a source that adds

    [dispatch_source_merge_data] on any threads, each with one atomic addition,
    and [_dispatch_source_latch_and_call], in any order. *)

Inductive data_op : Type := Merge (val : Z) | Latch (ck : clocks).

Definition data_exec (ds : nat) (o : data_op) : SW unit :=
  match o with Merge val => dispatch_source_merge_data ds val | Latch ck => _dispatch_source_latch_and_call ck ds end.

Fixpoint data_exec_all (ds : nat) (l : list data_op) : SW unit :=
  match l with [] => mret tt | o :: l => data_exec ds o;; data_exec_all ds l end.

Definition merged (l : list data_op) : Z := foldr (λ o n, match o with Merge val => val + n | Latch _ => n end) 0 l.

(** The sum of the data that the event handler was called with. *)
Definition delivered (l : list source_callout) : Z := foldr (λ c n, match c with CO_event _ _ _ d => d + n | _ => n end) 0 l.

Lemma delivered_app l l' : delivered (l ++ l') = delivered l + delivered l'.
Proof.
  induction l as [|c l IH]; [done|]. change (delivered ((c :: l) ++ l')) with (match c with CO_event _ _ _ d => d + delivered (l ++ l') | _ => delivered (l ++ l') end).
  change (delivered (c :: l)) with (match c with CO_event _ _ _ d => d + delivered l | _ => delivered l end). rewrite IH. destruct c; lia.
Qed.

Definition adder (x : dispatch_source_s) : Prop :=
  ds_is_level x = false ∧ ds_is_adder x = true ∧ ds_is_timer x = false ∧ ds_over x = false ∧ ds_handler_func x ≠ 0 ∧
  fits 64 (ds_pending_data x).

(** Its kernel event, which [dispatch_source_merge_data] reads, is there: the
    source was not uninstalled. *)
Definition has_kevent (s : mgr_state) (x : dispatch_source_s) : Prop := ∃ dk, ds_dkev x = Some dk ∧ is_Some (kevents s !! dk).

Lemma over_unarm x : ds_over (put_atomic_flags (Z.ldiff (ds_atomic_flags x) DSF_ARMED) x) = ds_over x.
Proof. unfold ds_over. cbn. by rewrite canceled_unarm. Qed.

Lemma merge_step ds val x s :
  sources s !! ds = Some x → adder x → has_kevent s x →
  wp (dispatch_source_merge_data ds val)
    (λ _ s', callouts s' = callouts s ∧ ∃ x', sources s' !! ds = Some x' ∧ adder x' ∧ has_kevent s' x' ∧
       u64 (ds_pending_data x') = u64 (ds_pending_data x + val)) s.
Proof.
  intros Hx (Hl & Ha & Ht & Ho & Hh & Hf) (dk & Hd & k & Hk). unfold dispatch_source_merge_data, _dispatch_source_merge_kevent.
  apply wp_bind, (wp_get_source ds x); [done|]. apply wp_bind, (wp_try_opt _ _ dk); [done|]. apply wp_bind, (wp_get_kevent dk k); [done|].
  apply wp_bind, (wp_get_source ds x); [done|]. rewrite Ho. cbn [flags].
  replace (has 0 EV_ERROR) with false by (unfold has; by rewrite Z.land_0_l). cbn [andb]. cbv zeta.
  apply wp_bind, (wp_modify_source ds _ x); [done|]. set (s1 := set_sources _ s).
  set (x1 := put_pending_data (merged_data x (KE 0 0 0 (u32 val) (wrapS 64 val))) x).
  assert (Hp : ds_pending_data x1 = u64 (ds_pending_data x + wrapS 64 val)) by (unfold x1, merged_data; cbn; by rewrite Hl, Ha).
  assert (Hu : u64 (u64 (ds_pending_data x + wrapS 64 val)) = u64 (ds_pending_data x + val)).
  { unfold wrapU, wrapS. rewrite Zmod_mod, <- Zplus_mod_idemp_r. rewrite Zminus_mod_idemp_l, Zplus_mod_idemp_r. f_equal. lia. }
  assert (Hr : fits 64 (ds_pending_data x1)) by (rewrite Hp; apply wrapU_range; lia).
  assert (Hend : ∀ x2, sources s1 !! ds = Some x1 → x2 = x1 ∨ x2 = put_atomic_flags (Z.ldiff (ds_atomic_flags x1) DSF_ARMED) x1 →
     adder x2 ∧ ds_dkev x2 = Some dk ∧ u64 (ds_pending_data x2) = u64 (ds_pending_data x + val)).
  { intros x2 _ [->| ->]; (split; [split_and!; try done|split; [done|by cbn [put_atomic_flags ds_pending_data]; rewrite Hp]]). by rewrite over_unarm. }
  assert (Hev : ∀ x2 s2, kevents s2 = kevents s → ds_dkev x2 = Some dk → has_kevent s2 x2) by (intros x2 s2 E ?; exists dk; rewrite E; eauto).
  assert (Hx1 : sources s1 !! ds = Some x1) by apply lookup_insert_eq.
  apply wp_bind, wp_whenM; intros _.
  - eapply wp_modify_source; [exact Hx1|]. apply wp_modify. split; [done|]. eexists. split; [apply lookup_insert_eq|].
    destruct (Hend _ Hx1 (or_intror eq_refl)) as (? & ? & ?). split_and!; [done|by apply Hev|done].
  - apply wp_modify. split; [done|]. exists x1. destruct (Hend _ Hx1 (or_introl eq_refl)) as (? & ? & ?). split_and!; [done..|by apply Hev|done].
Qed.

Lemma latch_step ck ds x s :
  sources s !! ds = Some x → adder x →
  wp (_dispatch_source_latch_and_call ck ds)
    (λ _ s', ∃ x', callouts s' = callouts s ++ (if ds_pending_data x =? 0 then [] else [CO_event ds (ds_handler_func x) (ds_handler_ctxt x) (ds_pending_data x)]) ∧
       sources s' !! ds = Some x' ∧ adder x' ∧ (has_kevent s x → has_kevent s' x') ∧ ds_pending_data x' = 0) s.
Proof.
  intros Hx (Hl & Ha & Ht & Ho & Hh & Hf). unfold _dispatch_source_latch_and_call.
  apply wp_bind, (wp_get_source ds x); [done|]. rewrite Ho. cbv zeta.
  apply wp_bind, (wp_modify_source ds _ x); [done|]. rewrite Hl, Ht. cbn [andb]. apply wp_bind, wp_ret.
  apply wp_bind. eapply wp_modify_source; [apply lookup_insert_eq|]. rewrite (proj2 (Z.eqb_neq _ _) Hh).
  set (s2 := set_sources _ _). set (x2 := put_data (ds_pending_data x) (put_pending_data 0 x)).
  assert (Hx2 : sources s2 !! ds = Some x2) by apply lookup_insert_eq.
  assert (A2 : adder x2) by (split_and!; done).
  destruct (ds_pending_data x =? 0); cbn [negb andb whenM].
  - apply wp_ret. exists x2. rewrite app_nil_r. done.
  - apply wp_bind, wp_modify, wp_ret. by exists x2.
Qed.

(** ** Creation with a mask

    The type that merges with a logical or has no mask of its own, so that every
    mask but 0 is refused. *)
Theorem data_or_mask_refused handle mask ds s :
  mask ≠ 0 → dispatch_source_create (Some _dispatch_source_type_data_or) handle mask ds s = Ok None s.
Proof.
  intros Hm. unfold dispatch_source_create. cbn [type_mask _dispatch_source_type_data_or]. change (Z.lnot 0) with (-1). unfold has.
  by rewrite Z.land_m1_r, (proj2 (Z.eqb_neq _ _) Hm).
Qed.
End Life.
