(* ===== verification/TimerCount.v ===== *)
(** * What the handler of a timer is told

    The counts that a timer's handler gets, added up, against the dates of its
    grid.  [SourceExamples] shows two ways in which a single count is wrong. *)

From Stdlib Require Import Sorted.
From S2P Require Import Prelude Time Source SourceReg SourceCore SourceOps SourceLink SourceCalls SourceMove SourceInstall Timer TimerRun SourceInvoke SourceSafe SourceType SourceTheorems SourceLife.

(** ** Accounts *)

(** A timer with a date and a handler, that is being served. *)
Definition ticking (x : dispatch_source_s) : Prop :=
  ds_is_timer x = true ∧ ds_is_level x = false ∧ ds_is_installed x = true ∧ is_Some (ds_dkev x) ∧
  target (ds_timer x) ≠ 0 ∧ ds_over x = false ∧ ds_registration_handler x = 0 ∧ ds_handler_func x ≠ 0.

(** Between [x] and [x'] the handler was told of [d] dates in all. *)
Definition account (d : Z) (x x' : dispatch_source_s) : Prop :=
  interval (ds_timer x') = interval (ds_timer x) ∧
  u64 ((d + ds_pending_data x' - missed (ds_timer x')) * interval (ds_timer x)) =
  u64 ((ds_pending_data x - missed (ds_timer x)) * interval (ds_timer x) + (target (ds_timer x') - target (ds_timer x))).

Lemma u64_eq a b : u64 a = u64 b ↔ ∃ q, a = b + 2 ^ 64 * q.
Proof.
  unfold wrapU. split.
  - intros H. exists (a / 2 ^ 64 - b / 2 ^ 64). pose proof (Z.div_mod a (2 ^ 64) ltac:(lia)). pose proof (Z.div_mod b (2 ^ 64) ltac:(lia)). lia.
  - intros [q ->]. rewrite Z.mul_comm. apply Z_mod_plus_full.
Qed.

Lemma account_refl x : account 0 x x.
Proof. split; [done|]. f_equal. lia. Qed.

Lemma account_trans d d' x y z : account d x y → account d' y z → account (d + d') x z.
Proof.
  intros [E1 H1] [E2 H2]. rewrite E1 in E2, H2. split; [done|]. apply u64_eq in H1 as [q1 H1]. apply u64_eq in H2 as [q2 H2].
  apply u64_eq. exists (q1 + q2). lia.
Qed.

(** Steps that change neither dates nor counts. *)
Lemma account_same x x' :
  ds_timer x' = ds_timer x → ds_pending_data x' = ds_pending_data x → account 0 x x'.
Proof. intros E1 E2. unfold account. rewrite E1, E2. split; [done|]. f_equal. lia. Qed.

Section Count.
Context {K : KQueue}.

Lemma ticking_moved x : ticking x → ticking (moved x) ∧ account 0 x (moved x).
Proof.
  intros (H1 & H2 & H3 & H4 & H5 & H6 & H7 & H8). unfold moved. destruct (timer_disarmed x).
  - split; [|by apply account_same]. split_and!; try done. unfold ds_over. cbn. by rewrite canceled_unarm.
  - split; [|by apply account_same]. split_and!; done.
Qed.

Lemma ticking_run now x : ticking x → 0 ≤ now → 1 ≤ interval (ds_timer x) → 0 ≤ target (ds_timer x) →
  ticking (run_result now x) ∧ account 0 x (run_result now x).
Proof.
  intros T Hn Hi Htg. unfold run_result.
  assert (Hf : fires now x = true → ticking (fired now x) ∧ account 0 x (fired now x)).
  { intros Hf. apply andb_true_iff in Hf as [Hdue%Z.leb_le Hp]. rewrite negb_orb, negb_involutive in Hp.
    apply andb_true_iff in Hp as [_ Hp%Z.eqb_eq]. pose proof (missed_of_range now x Hdue Hi) as Hm.
    destruct T as (H1 & H2 & H3 & H4 & H5 & H6 & H7 & H8). split.
    - split_and!; try done. cbn. nia.
    - split; [done|]. cbn. rewrite Hp. f_equal. lia. }
  destruct (fires now x); [|destruct (due now x); [by apply ticking_moved|by split; [|apply account_refl]]].
  destruct (Hf eq_refl) as [T1 A1]. destruct (due now (fired now x)); [|done].
  destruct (ticking_moved _ T1) as [T2 A2]. split; [done|]. by apply (account_trans 0 0 x (fired now x)).
Qed.

(** A run of the timers of a clock. *)
Lemma run_of_account `{KL : !KQueueLaws} ck i ds x s :
  mgr_ok s → timer_index i → clocks_ok ck → sources s !! ds = Some x → ticking x →
  wp (run_timers_of ck i)
    (λ _ s', mgr_ok s' ∧ callouts s' = callouts s ∧ ∃ x', sources s' !! ds = Some x' ∧ ticking x' ∧ account 0 x x') s.
Proof.
  intros Hok Hi Hck Hx T. destruct (lst_kevent s i Hok Hi) as (k & Hk & Elst). unfold run_timers_of.
  apply wp_bind, (wp_get_kevent _ k); [done|]. destruct (dk_sources k) as [|d l] eqn:El.
  { apply wp_ret. split_and!; [done|done|]. exists x. split_and!; [done|done|apply account_refl]. }
  unfold _dispatch_run_timers2. apply wp_bind. eapply wp_mono; [by apply now2_ok|]. intros now s' [-> Hnow].
  unfold timers_fuel. apply wp_bind, wp_bind, (wp_get_kevent _ k); [done|]. apply wp_ret. rewrite El, <- Elst.
  eapply wp_mono; [by apply run_timers2_spec|]. intros [] s' (Hok' & Hs & _ & _ & Hc). split_and!; [done|done|].
  eexists. split; [by apply Hs|]. case_decide as Hin; [|by split; [|apply account_refl]].
  destruct (armed_source s i ds Hok Hi Hin) as (y & Hy & _ & _ & _ & _ & _ & _ & Ht & Hp). rewrite Hx in Hy. injection Hy as <-.
  apply ticking_run; [done|lia|lia|lia].
Qed.

(** A delivery. *)
Lemma latch_account ck ds x s :
  mgr_ok s → sources s !! ds = Some x → ticking x → ds_pending_data x ≠ 0 →
  wp (_dispatch_source_latch_and_call ck ds)
    (λ _ s', ∃ d x', callouts s' = callouts s ++ [CO_event ds (ds_handler_func x) (ds_handler_ctxt x) d] ∧
       sources s' !! ds = Some x' ∧ ticking x' ∧ account d x x' ∧ ds_needs_rearm x' = ds_needs_rearm x) s.
Proof.
  intros Hok Hx (H1 & H2 & H3 & H4 & H5 & H6 & H7 & H8) Hp. unfold _dispatch_source_latch_and_call.
  apply wp_bind, (wp_get_source ds x); [done|]. rewrite H6. cbv zeta.
  apply wp_bind, (wp_modify_source ds _ x); [done|]. set (s1 := set_sources _ s).
  rewrite H2, H1, (proj2 (Z.eqb_neq _ _) H5), (proj2 (Z.eqb_neq _ _) Hp), (proj2 (Z.eqb_neq _ _) H8). cbn [negb andb].
  assert (Hi : 1 ≤ interval (ds_timer x)).
  { destruct Hok as (C & _ & _). destruct (core_src _ C ds _ (reg_src_of s ds x Hx)) as [Hto _]. destruct (Hto H1) as [Ht _]. by apply Ht. }
  apply wp_bind. unfold _dispatch_source_timer_data.
  apply wp_bind. eapply wp_get_source; [apply lookup_insert_eq|].
  assert (Hnow : ∃ now, _dispatch_source_timer_now ck (put_pending_data 0 x) s1 = Ok now s1).
  { unfold _dispatch_source_timer_now, _dispatch_source_timer_now2. destruct (timer_idx_cases (put_pending_data 0 x)) as [->| ->]; by eexists. }
  destruct Hnow as [now Hnow]. apply wp_bind. unfold wp at 1. rewrite Hnow. cbn [put_pending_data ds_timer].
  apply wp_bind. unfold div_u. rewrite decide_False by lia. apply wp_ret. set (m := u64 (now - last_fire (ds_timer x)) / interval (ds_timer x)).
  unfold modify_timer. apply wp_bind. eapply wp_modify_source; [apply lookup_insert_eq|]. apply wp_ret.
  set (d := u64 (u64 (ds_pending_data x - missed (ds_timer x)) + m)).
  apply wp_bind. eapply wp_modify_source; [apply lookup_insert_eq|]. cbn [whenM]. apply wp_bind, wp_modify, wp_ret.
  exists d. eexists. split; [done|]. split; [apply lookup_insert_eq|]. split_and!; try done.
  unfold account. cbn. fold m. split; [done|]. apply u64_eq. unfold d.
  destruct (proj1 (u64_eq (u64 (u64 (ds_pending_data x - missed (ds_timer x)) + m)) (ds_pending_data x - missed (ds_timer x) + m))) as [q Hq].
  { unfold wrapU. rewrite Zmod_mod. by rewrite Zplus_mod_idemp_l. }
  exists (q * interval (ds_timer x)). rewrite Hq. lia.
Qed.

(** An invocation. *)
Lemma invoke_account ck dq ds x s :
  mgr_ok s → sources s !! ds = Some x → ticking x →
  wp (_dispatch_source_invoke ck dq ds)
    (λ _ s', ∃ evs x', callouts s' = callouts s ++ evs ∧ sources s' !! ds = Some x' ∧ ticking x' ∧ account (delivered evs) x x') s.
Proof.
  intros Hok Hx T. pose proof T as (H1 & H2 & H3 & H4 & H5 & H6 & H7 & H8).
  assert (Hret : ∀ r, wp (mret r : SW (option nat)) (λ _ s', ∃ evs x', callouts s' = callouts s ++ evs ∧ sources s' !! ds = Some x' ∧ ticking x' ∧ account (delivered evs) x x') s).
  { intros r. apply wp_ret. exists [], x. rewrite app_nil_r. split_and!; [done|done|done|apply account_refl]. }
  unfold _dispatch_source_invoke. apply wp_bind, (wp_get_source ds x); [done|]. rewrite H3, H7, H6. cbn [negb]. rewrite Z.eqb_refl. cbn [negb].
  destruct (DISPATCH_OBJECT_SUSPENDED x); [apply Hret|].
  destruct (Z.eqb_spec (ds_pending_data x) 0) as [Hz|Hp]; cbn [negb].
  - destruct (ds_needs_rearm x && _); [|apply Hret]. case_decide; [apply Hret|].
    pose proof Hok as (C & A & N). apply wp_bind.
    eapply (wp_mono _ (λ (_ : unit) s1, callouts s1 = callouts s ∧ sources s1 !! ds = Some (moved x))).
    { destruct H4 as [dk Hd]. pose proof (reg_src_of s ds x Hx) as Hv. destruct (core_dkev _ ds _ dk C Hv Hd) as [kv Hkv].
      destruct (proj1 (reg_kev s dk kv) Hkv) as (k & -> & Hk). destruct (core_listed _ ds _ dk _ C Hv H3 Hd Hkv) as (_ & _ & Htm). cbn in Htm.
      unfold _dispatch_source_kevent_resume, _dispatch_source_kevent_resume_with.
      apply wp_bind, (wp_get_source ds x); [done|]. apply wp_bind, (wp_try_opt _ _ dk); [done|]. apply wp_bind, (wp_get_kevent dk k); [done|].
      rewrite <- Htm, H1. pose proof (list_update_spec _ ds x s C (arm_but _ ds A) N Hx H1 H3 (mk_is_Some _ _ Hd) (register_installed 1 ds x s Hx H3)) as HL.
      eapply wp_mono; [exact HL|]. intros [] s1 [_ M]. split; [apply M|]. rewrite (tm_sources _ _ _ _ M). apply lookup_insert_eq. }
    intros [] s1 [Hc1 Hx1]. apply wp_bind, (wp_modify_source ds _ (moved x)); [done|]. apply wp_ret.
    destruct (ticking_moved x T) as [(G1 & G2 & G3 & G4 & G5 & G6 & G7 & G8) Am]. exists []. eexists. rewrite app_nil_r.
    split; [done|]. split; [apply lookup_insert_eq|]. split.
    + split_and!; try done. revert G6. unfold ds_over. cbn. by rewrite canceled_arm.
    + apply (account_trans 0 0 x (moved x)); [done|by apply account_same].
  - case_decide; [apply Hret|]. apply wp_bind. eapply wp_mono; [by apply (latch_account ck ds x)|].
    intros [] s1 (d & x1 & Hc1 & Hx1 & T1 & A1 & _). apply wp_bind, (wp_get_source ds x1); [done|]. apply wp_ret.
    eexists _, x1. split; [exact Hc1|]. split_and!; [done|done|]. cbn. by rewrite Z.add_0_r.
Qed.

(** The calls that serve timers. *)
Definition serves (ds : nat) (c : source_call) : Prop :=
  match c with C_run_timers ck => clocks_ok ck | C_invoke ck _ d => clocks_ok ck ∧ d = ds | _ => False end.

(** C18. Every date of a timer's grid is counted once: over any runs of the
    timers and invocations of the source, in any order and at any readings of the
    clocks, what the handler was told adds up to the number of periods by
    which the timer's date advanced, up to what is still pending and to what was
    told in advance ([missed]). *)
Theorem timer_dates_accounted `{KL : !KQueueLaws} ds cs x s :
  reached s → sources s !! ds = Some x → ticking x → Forall (serves ds) cs →
  ∃ s' x' evs, exec_all cs s = Ok tt s' ∧ sources s' !! ds = Some x' ∧ callouts s' = callouts s ++ evs ∧
    account (delivered evs) x x'.
Proof.
  intros Hr Hx T Hcs. apply reached_ok in Hr as Hok. clear Hr. revert x s Hok Hx T.
  induction Hcs as [|c cs Hc Hcs IH]; intros x s Hok Hx T.
  { exists s, x, []. rewrite app_nil_r. split_and!; [done|done|done|apply account_refl]. }
  assert (Hstep : wp (exec c) (λ _ s', mgr_ok s' ∧ ∃ evs x', callouts s' = callouts s ++ evs ∧ sources s' !! ds = Some x' ∧ ticking x' ∧ account (delivered evs) x x') s).
  { destruct c; try done; cbn [exec serves] in *.
    - unfold _dispatch_run_timers. apply wp_bind. eapply wp_mono; [apply (run_of_account ck _ ds x); [done|by left|done..]|].
      intros [] s1 (Hok1 & Hc1 & x1 & Hx1 & T1 & A1). eapply wp_mono; [apply (run_of_account ck _ ds x1); [done|by right|done..]|].
      intros [] s2 (Hok2 & Hc2 & x2 & Hx2 & T2 & A2). split; [done|]. exists [], x2. rewrite app_nil_r.
      split_and!; [congruence|done|done|by apply (account_trans 0 0 x x1)].
    - destruct Hc as [Hck ->]. apply wp_bind. eapply wp_mono.
      { eapply wp_frame; [|by apply (invoke_account ck dq ds x)]. intros a s' E.
        pose proof (invoke_ok ck dq ds s (conj Hok (mk_is_Some _ _ Hx))) as Hs. unfold safe in Hs. rewrite E in Hs. exact (proj1 Hs). }
      intros a s' [H Hok']. by apply wp_ret. }
  apply wp_ok in Hstep as ([] & s1 & E & Hok1 & evs & x1 & Hc1 & Hx1 & T1 & A1).
  destruct (IH x1 s1 Hok1 Hx1 T1) as (s' & x' & evs' & E' & Hx' & Hc' & A'). exists s', x', (evs ++ evs').
  split_and!; [cbn [exec_all]; unfold mbind, M_bind; by rewrite E|done|by rewrite Hc', Hc1, app_assoc|].
  rewrite delivered_app. by apply (account_trans _ _ x x1).
Qed.
End Count.
