(* ===== verification/SourceExamples.v ===== *)
(** * Event sources: examples

    Concrete runs: witnesses of the theorems, and the counterexamples. *)

From S2P Require Import Prelude Time Source SourceReg SourceMove Timer TimerRun SourceInvoke SourceSafe SourceTheorems SourceLife TimerCount.

(** ** A kernel for the examples

    The constants of a [sys/event.h]; every update succeeds. *)
Definition example_kqueue : KQueue := {|
  EV_ADD := 1; EV_DELETE := 2; EV_ENABLE := 4; EV_DISABLE := 8; EV_ONESHOT := 16; EV_CLEAR := 32; EV_RECEIPT := 64;
  EV_DISPATCH := 128; EV_ERROR := 16384; EVFILT_READ := -1; EVFILT_WRITE := -2; EVFILT_PROC := -5; EVFILT_SIGNAL := -6; EVFILT_VNODE := -4;
  EVFILT_FS := -10; EVFILT_SYSCOUNT := 12; NOTE_EXIT := 2147483648; NOTE_FORK := 1073741824; NOTE_EXEC := 536870912; NOTE_SIGNAL := 0; NOTE_REAP := 0;
  NOTE_DELETE := 1; NOTE_WRITE := 2; NOTE_EXTEND := 4; NOTE_ATTRIB := 8; NOTE_LINK := 16; NOTE_RENAME := 32; NOTE_REVOKE := 64; NOTE_NONE := 0;
  VQ_NOTRESP := 1; VQ_NEEDAUTH := 2; VQ_LOWDISK := 4; VQ_MOUNT := 8; VQ_UNMOUNT := 16; VQ_DEAD := 32; VQ_ASSIST := 64; VQ_NOTRESPLOCK := 128;
  VQ_UPDATE := 0; VQ_VERYLOWDISK := 0; ESRCH := 3; EBADF := 9; NSIG := 65; FD_SETSIZE := 1024;
  kevent_call := λ _ e, inr (KE (ident e) (filter e) (Z.lor (flags e) 16384) (fflags e) 0)
|}.

Lemma example_laws : @KQueueLaws example_kqueue.
Proof.
  intros f. cbn. rewrite !elem_of_cons, elem_of_nil. intros [->|[->|[->|[->|[->|[->|[]]]]]]]; lia.
Qed.

#[local] Existing Instance example_kqueue.

(** ** Calls

    A timer of period 100 us; [wall] is in microseconds. *)

Definition example_clocks (abs wall : Z) : clocks := Clocks (TS 0 abs) (0, wall).

Definition example_timer (start : Z) : dispatch_set_timer_params :=
  if decide (i64 start < 0) then TimerParams 7 0 (TimerSource (u64 (- i64 start)) 0 100000 0 4 0)
  else TimerParams 7 1 (TimerSource start 0 100000 0 0 0).

Definition example_setup (start : Z) (ck : clocks) : list source_call :=
  [ C_create (Some _dispatch_source_type_timer) 0 0 7; C_set_target 7 3; C_event_handler_f 7 99; C_set_timer ck 7 start 100000 0;
    C_resume 7; C_invoke ck 0 7; C_set_timer2 (example_timer start); C_set_timer3 (example_timer start); C_invoke ck 0 7 ].

Definition timer_calls : list source_call := example_setup 10000000 (example_clocks 5000000 0).

Definition late_calls : list source_call :=
  timer_calls ++
  [ C_run_timers (example_clocks 10050000 0); C_invoke (example_clocks 10155000 0) 3 7; C_invoke (example_clocks 10155000 0) 0 7;
    C_run_timers (example_clocks 10156000 0); C_invoke (example_clocks 10157000 0) 3 7 ].

(** The wall clock is set back by a millisecond before the handler runs. *)
Definition clock_step_calls : list source_call :=
  example_setup (2 ^ 64 - 10000000) (example_clocks 0 5000) ++ [ C_run_timers (example_clocks 0 10050); C_invoke (example_clocks 0 9050) 3 7 ].

(** Two sources on a descriptor, and one that adds. *)
Definition fd_calls : list source_call :=
  [ C_create (Some _dispatch_source_type_read) 5 0 1; C_create (Some _dispatch_source_type_read) 5 0 2;
    C_create (Some _dispatch_source_type_data_add) 0 0 3; C_set_target 1 3; C_event_handler_f 3 99; C_cancel_handler false 1 42;
    C_resume 1; C_resume 2; C_resume 3; C_invoke (example_clocks 0 0) 0 1; C_invoke (example_clocks 0 0) 0 2;
    C_invoke (example_clocks 0 0) 0 3 ].

Definition cancel_fd_calls : list source_call := fd_calls ++ [ C_cancel 1 ].

(** The source that adds is cancelled, and uninstalled on the manager queue. *)
Definition merge_late_calls : list source_call := fd_calls ++ [ C_cancel 3; C_invoke (example_clocks 0 0) 0 3 ].

(** A source is cancelled before it was installed; its registration handler is a block. *)
Definition cancel_early_calls : list source_call :=
  [ C_create (Some _dispatch_source_type_proc) 77 NOTE_EXIT 1; C_set_target 1 3; C_cancel_handler false 1 42;
    C_registration_handler true 1 43; C_resume 1; C_cancel 1 ].

Definition state_of (cs : list source_call) : mgr_state :=
  match exec_all cs _dispatch_kevent_init with Ok _ s => s | Fault _ => _dispatch_kevent_init end.

Definition source_of (s : mgr_state) (ds : nat) : dispatch_source_s :=
  default (new_source _dispatch_source_type_timer 0 0 0) (sources s !! ds).

Ltac callable_calls :=
  vm_compute; repeat split; try done; try (by eexists); try (by repeat eexists);
  try (by repeat (apply list_elem_of_here || apply list_elem_of_further)).
Ltac reached_calls cs :=
  apply (reached_all cs _dispatch_kevent_init); [apply reached_init|callable_calls|vm_compute; reflexivity].

Lemma timer_state_reached : reached (state_of timer_calls).
Proof. reached_calls timer_calls. Qed.

Lemma fd_state_reached : reached (state_of fd_calls).
Proof. reached_calls fd_calls. Qed.

Lemma cancel_state_reached : reached (state_of cancel_fd_calls).
Proof. reached_calls cancel_fd_calls. Qed.

Lemma cancel_early_reached : reached (state_of cancel_early_calls).
Proof. reached_calls cancel_early_calls. Qed.

(** ** Cancellation *)

(** [dispatch_source_merge_data] on a source that was cancelled uses a null
    pointer once the manager queue has uninstalled the source: the condition of its
    assertion is evaluated before [_dispatch_source_merge_kevent] looks at the
    cancellation. *)
Theorem merge_after_cancel_faults :
  ∃ s x, reached s ∧ sources s !! 3%nat = Some x ∧ dispatch_source_testcancel x = true ∧
    dispatch_source_merge_data 3 5 s = Fault (UB "ds->ds_dkev").
Proof.
  exists (state_of merge_late_calls), (source_of (state_of merge_late_calls) 3).
  split; [reached_calls merge_late_calls|]. split_and!; vm_compute; reflexivity.
Qed.

(** Of the six invocations of [cancelled_source_settles] all can be needed. *)
Example cancel_early_takes_six :
  drive 5 (example_clocks 0 0) 3 1 (state_of cancel_early_calls) = Fault OutOfFuel.
Proof. vm_compute. reflexivity. Qed.

(** ** Counts that are wrong *)

(** An event handler may be told that its timer fired no times at all: a
    handler that runs late counts the date that passed in the meantime, which
    then calls it again. *)
Theorem timer_handler_told_zero :
  ∃ s, reached s ∧ callouts s = [CO_event 7 99 0 2; CO_event 7 99 0 0].
Proof. exists (state_of late_calls). split; [reached_calls late_calls|vm_compute; reflexivity]. Qed.

(** When the wall clock is set back between the run of a timer and the call of
    its handler, the time since the timer fired wraps around: the handler is told of
    more than [2^47] dates. *)
Theorem timer_count_after_clock_step :
  ∃ s, reached s ∧ callouts s = [CO_event 7 99 0 184467440737086] ∧ 2 ^ 47 < 184467440737086.
Proof. exists (state_of clock_step_calls). split; [reached_calls clock_step_calls|by split; [vm_compute|]]. Qed.

(** ** Witnesses *)


Lemma source_registry_invariant_witness :
  ∃ k, kevents (state_of fd_calls) !! 5%nat = Some k ∧ dk_sources k = [1%nat; 2%nat] ∧
       wanted (dk_sources k) (state_of fd_calls) = Ok (fflags (dk_kevent k)) (state_of fd_calls).
Proof.
  eexists. split; [vm_compute; reflexivity|]. split; [reflexivity|].
  eapply (source_registry_invariant (KL := example_laws) _ fd_state_reached) with (dk := 5%nat) (h := 5).
  - vm_compute. apply list_elem_of_here.
  - vm_compute. reflexivity.
  - reflexivity.
Defined.

Lemma timer_lists_sorted_witness :
  ∃ k, kevents (state_of timer_calls) !! 3%nat = Some k ∧
    ∃ x, sources (state_of timer_calls) !! 7%nat = Some x ∧ target (ds_timer x) ≠ 0 ∧ _dispatch_source_timer_idx x = 1.
Proof.
  eexists. split; [vm_compute; reflexivity|].
  eapply (timer_lists_sorted (KL := example_laws) _ 1); [apply timer_state_reached|by right|vm_compute; reflexivity|apply list_elem_of_here].
Defined.

Lemma run_timers_fires_due_timers_witness :
  ∃ s', _dispatch_run_timers2 (example_clocks 10050000 0) 1 (state_of timer_calls) = Ok tt s' ∧ wakeups s' = wakeups (state_of timer_calls) ++ [7%nat].
Proof.
  destruct (run_timers_fires_due_timers (KL := example_laws) (example_clocks 10050000 0) 1 10050000 (state_of timer_calls)) as (s' & E & _ & _ & Hw & _);
    [apply timer_state_reached|by vm_compute|by right|by vm_compute|].
  exists s'. split; [done|]. rewrite Hw. vm_compute. reflexivity.
Defined.

Lemma next_timer_fire_is_earliest_witness :
  _dispatch_get_next_timer_fire (example_clocks 5000000 0) (state_of timer_calls) = Ok (Some (TS 0 5000000)) (state_of timer_calls).
Proof.
  rewrite (next_timer_fire_is_earliest (KL := example_laws) (example_clocks 5000000 0) 0 5000000);
    [vm_compute; reflexivity|apply timer_state_reached|by vm_compute|by vm_compute|by vm_compute].
Defined.

Lemma probe_agrees_with_invoke_witness :
  _dispatch_source_probe (source_of (state_of cancel_fd_calls) 1) = true ∧
  (4%nat ≠ 0%nat → _dispatch_source_invoke (example_clocks 0 0) 4 1 (state_of cancel_fd_calls) = Ok (Some 0%nat) (state_of cancel_fd_calls)).
Proof.
  apply (probe_agrees_with_invoke (example_clocks 0 0) 4 1 (source_of (state_of cancel_fd_calls) 1) (state_of cancel_fd_calls));
    vm_compute; reflexivity.
Defined.

Lemma cancelled_source_settles_witness :
  ∃ s' x', drive 6 (example_clocks 0 0) 3 1 (state_of cancel_early_calls) = Ok tt s' ∧ callouts s' = [CO_block_release 43; CO_cancel 1 42] ∧
    handler_calls [CO_block_release 43; CO_cancel 1 42] = [CO_cancel 1 42] ∧
    sources s' !! 1%nat = Some x' ∧ ds_dkev x' = None ∧ _dispatch_source_probe x' = false ∧
    ∀ dk k, kevents s' !! dk = Some k → 1%nat ∉ dk_sources k.
Proof.
  apply (cancelled_source_settles (KL := example_laws) (example_clocks 0 0) 3 1 (source_of (state_of cancel_early_calls) 1));
    [apply cancel_early_reached|vm_compute; reflexivity..].
Defined.


Lemma timer_dates_accounted_witness :
  ∃ s' x' evs, exec_all [C_run_timers (example_clocks 10550000 0); C_invoke (example_clocks 10560000 0) 3 7] (state_of timer_calls) = Ok tt s' ∧
    sources s' !! 7%nat = Some x' ∧ callouts s' = callouts (state_of timer_calls) ++ evs ∧
    account (delivered evs) (source_of (state_of timer_calls) 7) x'.
Proof.
  apply (timer_dates_accounted (KL := example_laws) 7); [apply timer_state_reached|vm_compute; reflexivity| |].
  - vm_compute. repeat split; try done. by eexists.
  - by repeat constructor; vm_compute.
Defined.
