(* ===== verification/Io.v ===== *)
(** * Operations of dispatch I/O (src/io.c, src/io_internal.h)

    A channel, the entry of its descriptor with its barrier queue, and the
    operations: reading and writing in chunks, and the delivery of data to the
    handlers.  A queue is the list of the blocks that wait on it, and one
    definition runs one block to its end; what other threads do in the meantime
    is that they stop a channel ([io_stops]) or open the descriptor of a path
    first ([io_opened]).  The lifetime of an entry (its close queue) is left
    out: an entry outlives its operations. *)

From S2P Require Import Prelude.

(** ** Data objects

    What this file relies on: [Data] has the objects, and [DataTheorems] these
    laws of their operations on the heap. *)

Class DataApi : Type := {
  data : Type;
  d_regions : data → list (list Z);
  d_empty : data;
  d_create : list Z → data;
  d_concat : data → data → data;
  d_subrange : data → Z → Z → data
}.

Definition d_bytes `{DataApi} (d : data) : list Z := concat (d_regions d).
(** The length of a list, as a [size_t]. *)
Definition zlen {A} (l : list A) : Z := Z.of_nat (length l).
Definition d_size `{DataApi} (d : data) : Z := zlen (d_bytes d).
Definition sub_bytes (off len : Z) (l : list Z) : list Z := take (Z.to_nat len) (drop (Z.to_nat off) l).

Class DataApiLaws `{D : DataApi} : Prop := {
  d_regions_nonempty d r : r ∈ d_regions d → r ≠ [];
  d_bytes_empty : d_bytes d_empty = [];
  d_bytes_create l : d_bytes (d_create l) = l;
  d_bytes_concat d1 d2 : d_bytes (d_concat d1 d2) = d_bytes d1 ++ d_bytes d2;
  d_bytes_subrange d off len :
    0 ≤ off → 0 ≤ len → off + len < 2 ^ 64 → d_bytes (d_subrange d off len) = sub_bytes off len (d_bytes d)
}.

(** ** The kernel *)

(** The system calls of an operation; [fd] is the descriptor. *)
Inductive io_syscall : Type :=
  | Sys_open (entry : nat)
  | Sys_close (fd : Z)
  | Sys_read (fd len : Z)
  | Sys_pread (fd len off : Z)
  | Sys_write (fd : Z) (bytes : list Z)
  | Sys_pwrite (fd : Z) (bytes : list Z) (off : Z).

(** [-1] with an [errno] other than [EINTR] (which is retried), the bytes that
    were read, or a number. *)
Inductive io_result : Type := IoError (err : Z) | IoBytes (l : list Z) | IoCount (n : Z).

(** A call with its result, and the operation that made it. *)
Record io_event : Type := IoEvent { ev_op : option nat; ev_call : io_syscall; ev_result : io_result }.

(** [io_answer]: what a call returns, given the calls before it; [io_stops]:
    whether other threads have stopped a channel by the time of a read of its
    flags; [io_opened]: the descriptor that another thread has put in an entry in
    the meantime. *)
Class IoKernel : Type := {
  PAGE_SIZE : Z;
  EAGAIN : Z;
  EBADF : Z;
  ECANCELED : Z;
  io_answer : list io_event → io_syscall → io_result;
  io_stops : nat → nat → bool;
  io_opened : list io_event → option Z
}.

Class IoKernelLaws {K : IoKernel} : Prop := {
  page_size_range : 0 < PAGE_SIZE < 2 ^ 32;
  errnos : EAGAIN ≠ 0 ∧ EBADF ≠ 0 ∧ ECANCELED ≠ 0 ∧ EAGAIN ≠ EBADF ∧ EAGAIN ≠ ECANCELED ∧ EBADF ≠ ECANCELED;
  answer_error cs c e : io_answer cs c = IoError e → e ≠ 0;
  answer_read cs c l : io_answer cs c = IoBytes l →
    ∃ fd len off, (c = Sys_read fd len ∨ c = Sys_pread fd len off) ∧ (0 ≤ len → zlen l ≤ len);
  answer_write cs c n : io_answer cs c = IoCount n →
    match c with Sys_write _ l | Sys_pwrite _ l _ => 0 ≤ n ≤ zlen l | Sys_read _ _ | Sys_pread _ _ _ => False | _ => True end
}.

(** ** Constants *)

Definition DIO_MAX_CHUNK_PAGES : Z := 256.
Definition DIO_DEFAULT_LOW_WATER_CHUNKS : Z := 1.
Definition DIO_MAX_PENDING_IO_REQS : Z := 6.
Definition DIO_CLOSED : Z := 1.
Definition DIO_STOPPED : Z := 2.
Definition DOP_DEFAULT : Z := 0.
Definition DOP_DELIVER : Z := 1.
Definition DOP_DONE : Z := 2.
Definition DOP_NO_EMPTY : Z := 8.
Definition DISPATCH_IO_STRICT_INTERVAL : Z := 1.
Definition DISPATCH_IO_STOP : Z := 1.

Inductive dispatch_io_type_t : Type := DISPATCH_IO_STREAM | DISPATCH_IO_RANDOM.
Inductive dispatch_op_direction_t : Type := DOP_DIR_READ | DOP_DIR_WRITE.

#[global] Instance io_type_eq : EqDecision dispatch_io_type_t.
Proof. solve_decision. Defined.
#[global] Instance direction_eq : EqDecision dispatch_op_direction_t.
Proof. solve_decision. Defined.

(** What [_dispatch_operation_perform] asks its caller to do. *)
Inductive op_result : Type :=
  | DISPATCH_OP_COMPLETE
  | DISPATCH_OP_DELIVER
  | DISPATCH_OP_DELIVER_AND_COMPLETE
  | DISPATCH_OP_COMPLETE_RESUME
  | DISPATCH_OP_RESUME
  | DISPATCH_OP_ERR
  | DISPATCH_OP_FD_ERR.

(** ** Data *)

Record dispatch_io_defaults_s : Type := IoDefaults {
  chunk_pages : Z;
  low_water_chunks : Z;
  max_pending_io_reqs : Z;
  initial_delivery : bool
}.

Definition dispatch_io_defaults : dispatch_io_defaults_s :=
  IoDefaults DIO_MAX_CHUNK_PAGES DIO_DEFAULT_LOW_WATER_CHUNKS DIO_MAX_PENDING_IO_REQS false.

Record dispatch_io_param_s : Type := IoParams {
  io_type : dispatch_io_type_t;
  low : Z;
  high : Z;
  interval : Z;
  interval_flags : Z
}.

(** [io_barrier], [io_group]: the barrier queue of the channel, which is that of
    its entry, and the entry whose barrier group it has. *)
Record dispatch_io_s : Type := Channel {
  io_params : dispatch_io_param_s;
  io_fd_entry : option nat;
  io_barrier : nat;
  io_group : nat;
  atomic_flags : Z;
  io_fd : Z;
  io_fd_actual : Z;
  f_ptr : Z;
  io_err : Z
}.

(** [path_data]: the entry was made for a path; [barrier_group]: how often the
    group was entered. *)
Record dispatch_fd_entry_s : Type := FdEntry {
  fd : Z;
  path_data : bool;
  fd_err : Z;
  disk : option nat;
  read_stream : nat;
  write_stream : nat;
  convenience_channel : option nat;
  fd_barrier : nat;
  barrier_group : Z;
  stream_ops : list nat
}.

Section Records.
Context {D : DataApi}.

(** [buf]: the bytes of the buffer that were read, or those that were mapped to
    be written; [timer]: the timer, and whether it was cancelled. *)
Record dispatch_operation_s : Type := Operation {
  direction : dispatch_op_direction_t;
  params : dispatch_io_param_s;
  offset : Z;
  op_length : Z;
  err : Z;
  channel : nat;
  fd_entry : option nat;
  timer : option bool;
  active : bool;
  op_flags : Z;
  buf : option (list Z);
  buf_siz : Z;
  buf_len : Z;
  undelivered : Z;
  total : Z;
  buf_data : option data;
  op_data : data;
  ref_cnt : Z
}.

(** The blocks of a stream queue, of a barrier queue and of a pick queue. *)
Inductive stream_block : Type :=
  | SB_enqueue (op : nat) (d : data)
  | SB_handler
  | SB_cleanup (channel : option nat).
Inductive barrier_block : Type :=
  | BB_enqueue (op : nat) (d : data)
  | BB_handler (err : Z) (d : option data)
  | BB_stop (channel : nat)
  | BB_close (channel : nat)
  | BB_cleanup (entry : nat)
  | BB_barrier (entry barrier : nat).
Inductive disk_block : Type :=
  | DB_enqueue (op : nat) (d : data)
  | DB_cleanup (channel : option nat)
  | DB_performed (op : nat) (result : op_result).

(** [dq]: what waits on the queue of the stream; [st_turn]: the handler is running
    on it, and its operation was performed; [source]: the source with its
    suspensions. *)
Record dispatch_stream_s : Type := Stream {
  dq : list stream_block;
  st_turn : option (nat * op_result);
  source : option Z;
  st_op : option nat;
  source_running : bool;
  stream_list : list nat;
  random_list : list nat
}.

(** [perform_q]: the calls of [_dispatch_disk_perform] that wait on the queues of
    the operations; [dk_turn]: one is running, and its operation was performed. *)
Record dispatch_disk_s : Type := Disk {
  pick_q : list disk_block;
  disk_ops : list nat;
  cur_rq : option nat;
  free_idx : Z;
  req_idx : Z;
  advise_idx : Z;
  io_active : bool;
  advise_list : list (option nat);
  perform_q : nat;
  dk_turn : option (nat * op_result)
}.

(** A call of a handler: that of an operation, or of one that was not made. *)
Record handler_call : Type := HC { hc_op : option nat; hc_done : bool; hc_data : option data; hc_err : Z }.

(** [io_clock]: the reads of the flags of channels so far; [barrier_waits]: the
    barrier queues that a barrier suspends, with the entry whose group it waits
    for and the barrier; [barrier_calls]: the barriers that were called. *)
Record io_state : Type := IO {
  operations : gmap nat dispatch_operation_s;
  channels : gmap nat dispatch_io_s;
  fd_entries : gmap nat dispatch_fd_entry_s;
  streams : gmap nat dispatch_stream_s;
  disks : gmap nat dispatch_disk_s;
  barriers : gmap nat (list barrier_block);
  defaults : dispatch_io_defaults_s;
  syscalls : list io_event;
  io_clock : nat;
  handler_calls : list handler_call;
  barrier_waits : gmap nat (nat * nat);
  barrier_calls : list nat
}.

Definition put_err x r := Operation (direction r) (params r) (offset r) (op_length r) x (channel r) (fd_entry r) (timer r) (active r) (op_flags r) (buf r) (buf_siz r) (buf_len r) (undelivered r) (total r) (buf_data r) (op_data r) (ref_cnt r).
Definition put_fd_entry x r := Operation (direction r) (params r) (offset r) (op_length r) (err r) (channel r) x (timer r) (active r) (op_flags r) (buf r) (buf_siz r) (buf_len r) (undelivered r) (total r) (buf_data r) (op_data r) (ref_cnt r).
Definition put_timer x r := Operation (direction r) (params r) (offset r) (op_length r) (err r) (channel r) (fd_entry r) x (active r) (op_flags r) (buf r) (buf_siz r) (buf_len r) (undelivered r) (total r) (buf_data r) (op_data r) (ref_cnt r).
Definition put_active x r := Operation (direction r) (params r) (offset r) (op_length r) (err r) (channel r) (fd_entry r) (timer r) x (op_flags r) (buf r) (buf_siz r) (buf_len r) (undelivered r) (total r) (buf_data r) (op_data r) (ref_cnt r).
Definition put_op_flags x r := Operation (direction r) (params r) (offset r) (op_length r) (err r) (channel r) (fd_entry r) (timer r) (active r) x (buf r) (buf_siz r) (buf_len r) (undelivered r) (total r) (buf_data r) (op_data r) (ref_cnt r).
Definition put_buf x r := Operation (direction r) (params r) (offset r) (op_length r) (err r) (channel r) (fd_entry r) (timer r) (active r) (op_flags r) x (buf_siz r) (buf_len r) (undelivered r) (total r) (buf_data r) (op_data r) (ref_cnt r).
Definition put_buf_siz x r := Operation (direction r) (params r) (offset r) (op_length r) (err r) (channel r) (fd_entry r) (timer r) (active r) (op_flags r) (buf r) x (buf_len r) (undelivered r) (total r) (buf_data r) (op_data r) (ref_cnt r).
Definition put_buf_len x r := Operation (direction r) (params r) (offset r) (op_length r) (err r) (channel r) (fd_entry r) (timer r) (active r) (op_flags r) (buf r) (buf_siz r) x (undelivered r) (total r) (buf_data r) (op_data r) (ref_cnt r).
Definition put_undelivered x r := Operation (direction r) (params r) (offset r) (op_length r) (err r) (channel r) (fd_entry r) (timer r) (active r) (op_flags r) (buf r) (buf_siz r) (buf_len r) x (total r) (buf_data r) (op_data r) (ref_cnt r).
Definition put_total x r := Operation (direction r) (params r) (offset r) (op_length r) (err r) (channel r) (fd_entry r) (timer r) (active r) (op_flags r) (buf r) (buf_siz r) (buf_len r) (undelivered r) x (buf_data r) (op_data r) (ref_cnt r).
Definition put_buf_data x r := Operation (direction r) (params r) (offset r) (op_length r) (err r) (channel r) (fd_entry r) (timer r) (active r) (op_flags r) (buf r) (buf_siz r) (buf_len r) (undelivered r) (total r) x (op_data r) (ref_cnt r).
Definition put_op_data x r := Operation (direction r) (params r) (offset r) (op_length r) (err r) (channel r) (fd_entry r) (timer r) (active r) (op_flags r) (buf r) (buf_siz r) (buf_len r) (undelivered r) (total r) (buf_data r) x (ref_cnt r).
Definition put_ref_cnt x r := Operation (direction r) (params r) (offset r) (op_length r) (err r) (channel r) (fd_entry r) (timer r) (active r) (op_flags r) (buf r) (buf_siz r) (buf_len r) (undelivered r) (total r) (buf_data r) (op_data r) x.

Definition put_io_params x r := Channel x (io_fd_entry r) (io_barrier r) (io_group r) (atomic_flags r) (io_fd r) (io_fd_actual r) (f_ptr r) (io_err r).
Definition put_io_fd_entry x r := Channel (io_params r) x (io_barrier r) (io_group r) (atomic_flags r) (io_fd r) (io_fd_actual r) (f_ptr r) (io_err r).
Definition put_atomic_flags x r := Channel (io_params r) (io_fd_entry r) (io_barrier r) (io_group r) x (io_fd r) (io_fd_actual r) (f_ptr r) (io_err r).
Definition put_io_fd_actual x r := Channel (io_params r) (io_fd_entry r) (io_barrier r) (io_group r) (atomic_flags r) (io_fd r) x (f_ptr r) (io_err r).

Definition put_fd x r := FdEntry x (path_data r) (fd_err r) (disk r) (read_stream r) (write_stream r) (convenience_channel r) (fd_barrier r) (barrier_group r) (stream_ops r).
Definition put_fd_err x r := FdEntry (fd r) (path_data r) x (disk r) (read_stream r) (write_stream r) (convenience_channel r) (fd_barrier r) (barrier_group r) (stream_ops r).
Definition put_barrier_group x r := FdEntry (fd r) (path_data r) (fd_err r) (disk r) (read_stream r) (write_stream r) (convenience_channel r) (fd_barrier r) x (stream_ops r).
Definition put_stream_ops x r := FdEntry (fd r) (path_data r) (fd_err r) (disk r) (read_stream r) (write_stream r) (convenience_channel r) (fd_barrier r) (barrier_group r) x.

Definition put_dq x r := Stream x (st_turn r) (source r) (st_op r) (source_running r) (stream_list r) (random_list r).
Definition put_st_turn x r := Stream (dq r) x (source r) (st_op r) (source_running r) (stream_list r) (random_list r).
Definition put_source x r := Stream (dq r) (st_turn r) x (st_op r) (source_running r) (stream_list r) (random_list r).
Definition put_st_op x r := Stream (dq r) (st_turn r) (source r) x (source_running r) (stream_list r) (random_list r).
Definition put_source_running x r := Stream (dq r) (st_turn r) (source r) (st_op r) x (stream_list r) (random_list r).
Definition put_stream_list x r := Stream (dq r) (st_turn r) (source r) (st_op r) (source_running r) x (random_list r).
Definition put_random_list x r := Stream (dq r) (st_turn r) (source r) (st_op r) (source_running r) (stream_list r) x.

Definition put_pick_q x r := Disk x (disk_ops r) (cur_rq r) (free_idx r) (req_idx r) (advise_idx r) (io_active r) (advise_list r) (perform_q r) (dk_turn r).
Definition put_disk_ops x r := Disk (pick_q r) x (cur_rq r) (free_idx r) (req_idx r) (advise_idx r) (io_active r) (advise_list r) (perform_q r) (dk_turn r).
Definition put_cur_rq x r := Disk (pick_q r) (disk_ops r) x (free_idx r) (req_idx r) (advise_idx r) (io_active r) (advise_list r) (perform_q r) (dk_turn r).
Definition put_free_idx x r := Disk (pick_q r) (disk_ops r) (cur_rq r) x (req_idx r) (advise_idx r) (io_active r) (advise_list r) (perform_q r) (dk_turn r).
Definition put_req_idx x r := Disk (pick_q r) (disk_ops r) (cur_rq r) (free_idx r) x (advise_idx r) (io_active r) (advise_list r) (perform_q r) (dk_turn r).
Definition put_advise_idx x r := Disk (pick_q r) (disk_ops r) (cur_rq r) (free_idx r) (req_idx r) x (io_active r) (advise_list r) (perform_q r) (dk_turn r).
Definition put_io_active x r := Disk (pick_q r) (disk_ops r) (cur_rq r) (free_idx r) (req_idx r) (advise_idx r) x (advise_list r) (perform_q r) (dk_turn r).
Definition put_advise_list x r := Disk (pick_q r) (disk_ops r) (cur_rq r) (free_idx r) (req_idx r) (advise_idx r) (io_active r) x (perform_q r) (dk_turn r).
Definition put_perform_q x r := Disk (pick_q r) (disk_ops r) (cur_rq r) (free_idx r) (req_idx r) (advise_idx r) (io_active r) (advise_list r) x (dk_turn r).
Definition put_dk_turn x r := Disk (pick_q r) (disk_ops r) (cur_rq r) (free_idx r) (req_idx r) (advise_idx r) (io_active r) (advise_list r) (perform_q r) x.

Definition set_operations x r := IO x (channels r) (fd_entries r) (streams r) (disks r) (barriers r) (defaults r) (syscalls r) (io_clock r) (handler_calls r) (barrier_waits r) (barrier_calls r).
Definition set_channels x r := IO (operations r) x (fd_entries r) (streams r) (disks r) (barriers r) (defaults r) (syscalls r) (io_clock r) (handler_calls r) (barrier_waits r) (barrier_calls r).
Definition set_fd_entries x r := IO (operations r) (channels r) x (streams r) (disks r) (barriers r) (defaults r) (syscalls r) (io_clock r) (handler_calls r) (barrier_waits r) (barrier_calls r).
Definition set_streams x r := IO (operations r) (channels r) (fd_entries r) x (disks r) (barriers r) (defaults r) (syscalls r) (io_clock r) (handler_calls r) (barrier_waits r) (barrier_calls r).
Definition set_disks x r := IO (operations r) (channels r) (fd_entries r) (streams r) x (barriers r) (defaults r) (syscalls r) (io_clock r) (handler_calls r) (barrier_waits r) (barrier_calls r).
Definition set_barriers x r := IO (operations r) (channels r) (fd_entries r) (streams r) (disks r) x (defaults r) (syscalls r) (io_clock r) (handler_calls r) (barrier_waits r) (barrier_calls r).
Definition set_defaults x r := IO (operations r) (channels r) (fd_entries r) (streams r) (disks r) (barriers r) x (syscalls r) (io_clock r) (handler_calls r) (barrier_waits r) (barrier_calls r).
Definition set_syscalls x r := IO (operations r) (channels r) (fd_entries r) (streams r) (disks r) (barriers r) (defaults r) x (io_clock r) (handler_calls r) (barrier_waits r) (barrier_calls r).
Definition set_io_clock x r := IO (operations r) (channels r) (fd_entries r) (streams r) (disks r) (barriers r) (defaults r) (syscalls r) x (handler_calls r) (barrier_waits r) (barrier_calls r).
Definition set_handler_calls x r := IO (operations r) (channels r) (fd_entries r) (streams r) (disks r) (barriers r) (defaults r) (syscalls r) (io_clock r) x (barrier_waits r) (barrier_calls r).
Definition set_barrier_waits x r := IO (operations r) (channels r) (fd_entries r) (streams r) (disks r) (barriers r) (defaults r) (syscalls r) (io_clock r) (handler_calls r) x (barrier_calls r).
Definition set_barrier_calls x r := IO (operations r) (channels r) (fd_entries r) (streams r) (disks r) (barriers r) (defaults r) (syscalls r) (io_clock r) (handler_calls r) (barrier_waits r) x.

End Records.

(** ** The monad *)

Abbreviation IOM := (M io_state).

Section Io.
Context {D : DataApi} {K : IoKernel}.

Definition get_op (o : nat) : IOM dispatch_operation_s := s ← getS; try_opt "dispatch_operation_t" (operations s !! o).
Definition modify_op (o : nat) (f : dispatch_operation_s → dispatch_operation_s) : IOM unit :=
  x ← get_op o; modifyS (λ s, set_operations (<[o := f x]> (operations s)) s).
Definition get_channel (c : nat) : IOM dispatch_io_s := s ← getS; try_opt "dispatch_io_t" (channels s !! c).
Definition modify_channel (c : nat) (f : dispatch_io_s → dispatch_io_s) : IOM unit :=
  x ← get_channel c; modifyS (λ s, set_channels (<[c := f x]> (channels s)) s).
Definition get_entry (e : nat) : IOM dispatch_fd_entry_s := s ← getS; try_opt "dispatch_fd_entry_t" (fd_entries s !! e).
Definition modify_entry (e : nat) (f : dispatch_fd_entry_s → dispatch_fd_entry_s) : IOM unit :=
  x ← get_entry e; modifyS (λ s, set_fd_entries (<[e := f x]> (fd_entries s)) s).
Definition get_stream (i : nat) : IOM dispatch_stream_s := s ← getS; try_opt "dispatch_stream_t" (streams s !! i).
Definition modify_stream (i : nat) (f : dispatch_stream_s → dispatch_stream_s) : IOM unit :=
  x ← get_stream i; modifyS (λ s, set_streams (<[i := f x]> (streams s)) s).
Definition get_disk (i : nat) : IOM dispatch_disk_s := s ← getS; try_opt "dispatch_disk_t" (disks s !! i).
Definition modify_disk (i : nat) (f : dispatch_disk_s → dispatch_disk_s) : IOM unit :=
  x ← get_disk i; modifyS (λ s, set_disks (<[i := f x]> (disks s)) s).
Definition get_barrier (q : nat) : IOM (list barrier_block) := s ← getS; try_opt "barrier_queue" (barriers s !! q).

(** [dispatch_async] on a barrier queue, the queue of a stream, a pick queue. *)
Definition async_barrier (q : nat) (b : barrier_block) : IOM unit :=
  l ← get_barrier q; modifyS (λ s, set_barriers (<[q := l ++ [b]]> (barriers s)) s).
Definition async_stream (i : nat) (b : stream_block) : IOM unit := modify_stream i (λ x, put_dq (dq x ++ [b]) x).
Definition async_pick (i : nat) (b : disk_block) : IOM unit := modify_disk i (λ x, put_pick_q (pick_q x ++ [b]) x).

Definition call_handler (o : option nat) (done : bool) (d : option data) (e : Z) : IOM unit :=
  modifyS (λ s, set_handler_calls (handler_calls s ++ [HC o done d e]) s).
Definition whenM (b : bool) (m : IOM unit) : IOM unit := if b then m else mret tt.
Definition has (x bits : Z) : bool := negb (Z.land x bits =? 0).

(** [TAILQ_REMOVE]: of something that is not on the list, it writes elsewhere. *)
Definition tailq_remove (x : nat) (l : list nat) : IOM (list nat) :=
  if decide (x ∈ l) then mret (List.filter (λ y, negb (y =? x)%nat) l) else fail (UB "TAILQ_REMOVE").
(** [TAILQ_INSERT_TAIL]: of something that is on the list already, it breaks the
    links. *)
Definition tailq_insert_tail (x : nat) (l : list nat) : IOM (list nat) :=
  if decide (x ∈ l) then fail (UB "TAILQ_INSERT_TAIL") else mret (l ++ [x]).

Definition syscall (o : option nat) (c : io_syscall) : IOM io_result :=
  s ← getS;
  let r := io_answer (syscalls s) c in
  modifyS (set_syscalls (syscalls s ++ [IoEvent o c r]));;
  mret r.

(** A read of [atomic_flags], which other threads write. *)
Definition read_flags (c : nat) : IOM Z :=
  s ← getS;
  modifyS (set_io_clock (S (io_clock s)));;
  whenM (io_stops (io_clock s) c) (modify_channel c (λ x, put_atomic_flags (Z.lor (atomic_flags x) DIO_STOPPED) x));;
  x ← get_channel c;
  mret (atomic_flags x).

(** ** Parameters *)

(** [DISPATCH_IOCNTL_...]: from 1 up. *)
Definition _dispatch_iocntl (param value : Z) : IOM unit :=
  modifyS (λ s,
    let d := defaults s in
    set_defaults
      (if param =? 1 then IoDefaults value (low_water_chunks d) (max_pending_io_reqs d) (initial_delivery d)
       else if param =? 2 then IoDefaults (chunk_pages d) value (max_pending_io_reqs d) (initial_delivery d)
       else if param =? 3 then IoDefaults (chunk_pages d) (low_water_chunks d) value (negb (value =? 0))
       else if param =? 4 then IoDefaults (chunk_pages d) (low_water_chunks d) value (initial_delivery d)
       else d) s).

(** The parameters of a new channel. *)
Definition _dispatch_io_create (t : dispatch_io_type_t) : IOM dispatch_io_param_s :=
  s ← getS; mret (IoParams t (u64 (low_water_chunks (defaults s) * chunk_pages (defaults s) * PAGE_SIZE)) SIZE_MAX 0 0).

(** The blocks of the setters, on the channel queue. *)
Definition dispatch_io_set_high_water (c : nat) (high_water : Z) : IOM unit :=
  modify_channel c (λ x,
    let p := io_params x in
    let l := if high_water <? low p then high_water else low p in
    put_io_params (IoParams (io_type p) l (if high_water =? 0 then 1 else high_water) (interval p) (interval_flags p)) x).

Definition dispatch_io_set_low_water (c : nat) (low_water : Z) : IOM unit :=
  modify_channel c (λ x,
    let p := io_params x in
    let h := if high p <? low_water then (if low_water =? 0 then 1 else low_water) else high p in
    put_io_params (IoParams (io_type p) low_water h (interval p) (interval_flags p)) x).

Definition dispatch_io_set_interval (c : nat) (ival fl : Z) : IOM unit :=
  modify_channel c (λ x, let p := io_params x in put_io_params (IoParams (io_type p) (low p) (high p) ival fl) x).

(** ** Errors *)

Definition _dispatch_io_get_error (op : option nat) (c : nat) (ignore_closed : bool) : IOM Z :=
  c ← match op with Some o => x ← get_op o; mret (channel x) | None => mret c end;
  fl ← read_flags c;
  if has fl (Z.lor DIO_CLOSED DIO_STOPPED) then
    if negb ignore_closed then mret ECANCELED
    else fl ← read_flags c; mret (if has fl DIO_STOPPED then ECANCELED else 0)
  else
    match op with
    | Some o => x ← get_op o; e ← try_opt "fd_entry" (fd_entry x); f ← get_entry e; mret (fd_err f)
    | None => x ← get_channel c; mret (io_err x)
    end.

(** The error of an operation. *)
Definition op_error (o : nat) : IOM Z := x ← get_op o; _dispatch_io_get_error (Some o) (channel x) true.

(** A lost race with another open closes the descriptor again. *)
Definition _dispatch_fd_entry_open (e c : nat) : IOM Z :=
  f ← get_entry e;
  if negb ((fd f =? -1) && path_data f) then mret 0
  else if negb (fd_err f =? 0) then mret (fd_err f)
  else
    s ← getS;
    r ← syscall None (Sys_open e);
    match r with
    | IoError er => modify_entry e (λ f, put_fd_err (if fd_err f =? 0 then er else fd_err f) f);; mret er
    | IoCount n =>
        (match io_opened (syscalls s) with
         | Some m => modify_entry e (put_fd m);; syscall None (Sys_close n);; mret tt
         | None => modify_entry e (put_fd n);; modify_channel c (put_io_fd_actual n)
         end);;
        mret 0
    | IoBytes _ => fail (UB "open")
    end.

Definition _dispatch_operation_handle_error (o : nat) (e : Z) : IOM op_result :=
  x ← get_op o;
  fe ← try_opt "fd_entry" (fd_entry x);
  f ← get_entry fe;
  if e =? EAGAIN then
    mret (if bool_decide (direction x = DOP_DIR_READ) && negb (total x =? 0) &&
             bool_decide (convenience_channel f = Some (channel x))
          then DISPATCH_OP_COMPLETE_RESUME else DISPATCH_OP_RESUME)
  else
    modify_op o (put_err e);;
    if e =? ECANCELED then mret DISPATCH_OP_ERR
    else if e =? EBADF then
      modify_entry fe (λ f, put_fd_err (if fd_err f =? 0 then e else fd_err f) f);; mret DISPATCH_OP_FD_ERR
    else mret DISPATCH_OP_COMPLETE.

(** ** Performing an operation *)

(** The size of a buffer to read into. *)
Definition read_buf_siz (d : dispatch_io_defaults_s) (x : dispatch_operation_s) : Z :=
  let chunk_siz := u64 (chunk_pages d * PAGE_SIZE) in
  let data_siz := d_size (op_data x) in
  let max_buf_siz := if data_siz =? 0 then high (params x) else u64 (high (params x) - data_siz) in
  let max_buf_siz := if chunk_siz <? max_buf_siz then chunk_siz else max_buf_siz in
  if op_length x <? SIZE_MAX then
    let siz := u64 (op_length x - total x) in if max_buf_siz <? siz then max_buf_siz else siz
  else max_buf_siz.

(** The regions to write at once: the first one, and more until a chunk is full. *)
Fixpoint write_regions (chunk_siz siz : Z) (l : list (list Z)) : Z :=
  match l with
  | [] => siz
  | r :: l =>
      let siz' := u64 (siz + zlen r) in
      let siz := if (siz =? 0) || (siz' <=? chunk_siz) then siz' else siz in
      if siz' <? chunk_siz then write_regions chunk_siz siz l else siz
  end.

Definition write_buf_siz (d : dispatch_io_defaults_s) (x : dispatch_operation_s) : Z :=
  let max_buf_siz := high (params x) in
  let chunk_siz := u64 (chunk_pages d * PAGE_SIZE) in
  let chunk_siz := if max_buf_siz <? chunk_siz then max_buf_siz else chunk_siz in
  let siz := write_regions chunk_siz 0 (d_regions (op_data x)) in
  if max_buf_siz <? siz then max_buf_siz else siz.

(** The buffer of an operation that has none; [valloc] is tried until it
    succeeds, with the same size each time ([valloc_never_shrinks]). *)
Definition make_buffer (o : nat) : IOM unit :=
  s ← getS;
  x ← get_op o;
  match buf x with
  | Some _ => mret tt
  | None =>
      match direction x with
      | DOP_DIR_READ => modify_op o (λ x, put_buf (Some []) (put_buf_siz (read_buf_siz (defaults s) x) x))
      | DOP_DIR_WRITE =>
          let siz := write_buf_siz (defaults s) x in
          let d := d_subrange (op_data x) 0 siz in
          modify_op o (λ x, put_buf (Some (d_bytes d)) (put_buf_data (Some d) (put_buf_siz siz x)))
      end
  end.

(** The system call of an operation: [len] bytes at [buf + buf_len]. *)
Definition op_syscall (x : dispatch_operation_s) (fd : Z) (b : list Z) : io_syscall :=
  let len := u64 (buf_siz x - buf_len x) in
  let off := wrapS 64 (offset x + total x) in
  match direction x, io_type (params x) with
  | DOP_DIR_READ, DISPATCH_IO_STREAM => Sys_read fd len
  | DOP_DIR_READ, DISPATCH_IO_RANDOM => Sys_pread fd len off
  | DOP_DIR_WRITE, DISPATCH_IO_STREAM => Sys_write fd (sub_bytes (buf_len x) len b)
  | DOP_DIR_WRITE, DISPATCH_IO_RANDOM => Sys_pwrite fd (sub_bytes (buf_len x) len b) off
  end.

(** [processed] bytes: [b] is the buffer afterwards. *)
Definition op_processed (o : nat) (processed : Z) (b : list Z) : IOM op_result :=
  if processed =? 0 then mret DISPATCH_OP_DELIVER_AND_COMPLETE
  else
    modify_op o (λ x, put_buf (Some b) (put_buf_len (u64 (buf_len x + processed)) (put_total (u64 (total x + processed)) x)));;
    x ← get_op o;
    mret (if total x =? op_length x then DISPATCH_OP_COMPLETE else DISPATCH_OP_DELIVER).

Definition _dispatch_operation_perform (o : nat) : IOM op_result :=
  e ← op_error o;
  if negb (e =? 0) then _dispatch_operation_handle_error o e
  else
    make_buffer o;;
    x ← get_op o;
    fe ← try_opt "fd_entry" (fd_entry x);
    f ← get_entry fe;
    e ← (if fd f =? -1 then _dispatch_fd_entry_open fe (channel x) else mret 0);
    if negb (e =? 0) then _dispatch_operation_handle_error o e
    else
      x ← get_op o;
      f ← get_entry fe;
      b ← try_opt "op->buf" (buf x);
      r ← syscall (Some o) (op_syscall x (fd f) b);
      match r with
      | IoError e => _dispatch_operation_handle_error o e
      | IoBytes l => op_processed o (zlen l) (b ++ l)
      | IoCount n => op_processed o n b
      end.

(** ** Delivery *)

(** The block that runs on [op_q]. *)
Definition deliver_block (o : nat) (dir : dispatch_op_direction_t) (done : bool) (d : data) (e : Z) : IOM unit :=
  if done then
    match dir with
    | DOP_DIR_READ =>
        if negb (e =? 0) then
          whenM (negb (d_size d =? 0)) (call_handler (Some o) false (Some d) 0);; call_handler (Some o) true None e
        else call_handler (Some o) true (Some d) e
    | DOP_DIR_WRITE => call_handler (Some o) true (if e =? 0 then None else Some d) e
    end
  else call_handler (Some o) false (Some d) e.

(** The data to deliver, with the operation afterwards. *)
Definition deliver_read (deliver : bool) (x : dispatch_operation_s) : data * dispatch_operation_s :=
  let '(d, x) :=
    if negb (buf_len x =? 0)
    then (d_concat (op_data x) (d_create (take (Z.to_nat (buf_len x)) (default [] (buf x)))), put_buf None (put_buf_len 0 x))
    else (op_data x, x) in
  (d, put_op_data (if deliver then d_empty else d) x).

Definition deliver_write (deliver : bool) (x : dispatch_operation_s) : option data * dispatch_operation_s :=
  let d := if deliver then Some (d_subrange (op_data x) (buf_len x) (op_length x)) else None in
  if bool_decide (is_Some (buf_data x)) && (buf_len x =? buf_siz x) then
    let rest := default (d_subrange (op_data x) (buf_siz x) (op_length x)) d in
    (d, put_op_data rest (put_buf_data None (put_buf None (put_buf_len 0 x))))
  else (d, x).

Definition _dispatch_operation_deliver_data (o : nat) (fl : Z) : IOM unit :=
  x ← get_op o;
  let und := u64 (undelivered x + buf_len x) in
  let forced := has fl (Z.lor DOP_DELIVER DOP_DONE) || has (op_flags x) DOP_DELIVER in
  modify_op o (put_op_flags DOP_DEFAULT);;
  if negb forced && negb (low (params x) <=? und) && (buf_len x <? buf_siz x) then mret tt
  else
    let deliver := forced || (low (params x) <=? und) in
    e ← (if forced then
           if err x =? 0 then
             cf ← read_flags (channel x);
             if has cf DIO_STOPPED then modify_op o (put_err ECANCELED);; mret ECANCELED else mret 0
           else mret (err x)
         else mret 0);
    x ← get_op o;
    let '(d, x') :=
      match direction x with
      | DOP_DIR_READ => let '(d, x') := deliver_read deliver x in (Some d, x')
      | DOP_DIR_WRITE => deliver_write deliver x
      end in
    modify_op o (λ _, x');;
    if negb deliver || (has fl DOP_NO_EMPTY && (default 0 (d_size <$> d) =? 0)) then modify_op o (put_undelivered und)
    else
      modify_op o (put_undelivered 0);;
      d ← try_opt "data" d;
      deliver_block o (direction x) (has fl DOP_DONE) d e.

(** ** The life of an operation *)

Definition _dispatch_operation_dispose (o : nat) : IOM unit :=
  x ← get_op o;
  match fd_entry x with
  | Some e =>
      _dispatch_operation_deliver_data o DOP_DONE;;
      modify_entry e (λ f, put_barrier_group (barrier_group f - 1) f)
  | None => mret tt
  end;;
  modifyS (λ s, set_operations (delete o (operations s)) s).

Definition _dispatch_retain (o : nat) : IOM unit := modify_op o (λ x, put_ref_cnt (ref_cnt x + 1) x).
Definition _dispatch_release (o : nat) : IOM unit :=
  x ← get_op o;
  modify_op o (put_ref_cnt (ref_cnt x - 1));;
  if 0 <=? ref_cnt x - 1 then mret tt else _dispatch_operation_dispose o.

(** What a handler is called with when its operation cannot start. *)
Definition refused (dir : dispatch_op_direction_t) (e : Z) (d : data) : option data :=
  match dir with
  | DOP_DIR_READ => if e =? 0 then Some d else None
  | DOP_DIR_WRITE => if e =? 0 then None else Some d
  end.

(** On the channel queue; [o]: the memory that the allocator gives. *)
Definition _dispatch_operation_create (dir : dispatch_op_direction_t) (c : nat) (off len : Z) (d : data) (o : nat) : IOM bool :=
  e ← _dispatch_io_get_error None c false;
  x ← get_channel c;
  if negb (e =? 0) || (len =? 0) then async_barrier (io_barrier x) (BB_handler e (refused dir e d));; mret false
  else
    modifyS (λ s, set_operations (<[o := Operation dir (io_params x) (off + f_ptr x) len 0 c None None false DOP_DEFAULT
                                          None 0 0 0 0 None d_empty 0]> (operations s)) s);;
    mret true.

(** The rest of the block of [dispatch_io_read] and [dispatch_io_write]. *)
Definition submit (dir : dispatch_op_direction_t) (c : nat) (off len : Z) (d : data) (o : nat) : IOM unit :=
  op ← _dispatch_operation_create dir c off len d o;
  x ← get_channel c;
  whenM op (async_barrier (io_barrier x) (BB_enqueue o d)).

Definition dispatch_io_read (c : nat) (off len : Z) (o : nat) : IOM unit := submit DOP_DIR_READ c off len d_empty o.
Definition dispatch_io_write (c : nat) (off : Z) (d : data) (o : nat) : IOM unit := submit DOP_DIR_WRITE c off (d_size d) d o.

(** Called from the barrier queue. *)
Definition _dispatch_operation_enqueue (o : nat) (d : data) : IOM unit :=
  x ← get_op o;
  e ← _dispatch_io_get_error None (channel x) false;
  if negb (e =? 0) then call_handler (Some o) true (refused (direction x) e d) e;; _dispatch_release o
  else
    c ← get_channel (channel x);
    fe ← try_opt "channel->fd_entry" (io_fd_entry c);
    modify_op o (put_fd_entry (Some fe));;
    modify_entry fe (λ f, put_barrier_group (barrier_group f + 1) f);;
    f ← get_entry fe;
    match disk f with
    | None => async_stream (match direction x with DOP_DIR_READ => read_stream f | DOP_DIR_WRITE => write_stream f end) (SB_enqueue o d)
    | Some dk => async_pick dk (DB_enqueue o d)
    end.

(** The timer is created and resumed. *)
Definition _dispatch_operation_should_enqueue (o : nat) (d : data) : IOM bool :=
  modify_op o (put_op_data d);;
  e ← op_error o;
  if negb (e =? 0) then modify_op o (put_err e);; _dispatch_release o;; mret false
  else
    x ← get_op o;
    whenM (negb (interval (params x) =? 0))
      (modify_op o (λ x, put_timer (Some (default false (timer x))) x));;
    mret true.

(** The event handler of the timer, which has none before it exists. *)
Definition _dispatch_operation_timer (o : nat) : IOM unit :=
  x ← get_op o;
  if bool_decide (timer x ≠ Some false) then mret tt
  else
    let strict := has (interval_flags (params x)) DISPATCH_IO_STRICT_INTERVAL in
    let fl := if strict then DOP_DELIVER else DOP_DEFAULT in
    if active x && strict then modify_op o (put_op_flags fl) else _dispatch_operation_deliver_data o fl.
End Io.
