(* ===== verification/IoStream.v ===== *)
(** * Streams of dispatch I/O (src/io.c)

    The operations on a descriptor that is not a file of a disk: the lists of a
    stream, the choice of the next operation, the handler and its source, and the
    blocks of the stream queue and of the barrier queue.  The source is its
    suspensions; it calls the handler when it has none ([dispatch_resume] of a
    source that is not suspended is a crash of the client of libdispatch). *)

From S2P Require Import Prelude Io.

Section Stream.
Context {D : DataApi} {K : IoKernel}.

(** ** The lists *)

Definition op_list (t : dispatch_io_type_t) (x : dispatch_stream_s) : list nat :=
  match t with DISPATCH_IO_STREAM => stream_list x | DISPATCH_IO_RANDOM => random_list x end.
Definition put_op_list (t : dispatch_io_type_t) (l : list nat) : dispatch_stream_s → dispatch_stream_s :=
  match t with DISPATCH_IO_STREAM => put_stream_list l | DISPATCH_IO_RANDOM => put_random_list l end.

(** [TAILQ_NEXT] and [TAILQ_FIRST]. *)
Fixpoint tailq_next (x : nat) (l : list nat) : option nat :=
  match l with
  | [] => None
  | y :: l => if (y =? x)%nat then head l else tailq_next x l
  end.

Definition _dispatch_stream_operation_avail (x : dispatch_stream_s) : bool :=
  bool_decide (random_list x ≠ []) || bool_decide (stream_list x ≠ []).

Definition _dispatch_stream_enqueue_operation (i o : nat) (d : data) : IOM unit :=
  ok ← _dispatch_operation_should_enqueue o d;
  if negb ok then mret tt
  else
    x ← get_stream i;
    op ← get_op o;
    let t := io_type (params op) in
    l ← tailq_insert_tail o (op_list t x);
    modify_stream i (put_op_list t l);;
    whenM (negb (_dispatch_stream_operation_avail x)) (async_stream i SB_handler).

(** [dispatch_source_cancel] of the timer. *)
Definition cancel_timer (o : nat) : IOM unit := modify_op o (λ x, put_timer (const true <$> timer x) x).

Definition _dispatch_stream_complete_operation (i o : nat) : IOM unit :=
  op ← get_op o;
  x ← get_stream i;
  let t := io_type (params op) in
  l ← tailq_remove o (op_list t x);
  modify_stream i (put_op_list t l);;
  whenM (bool_decide (st_op x = Some o)) (modify_stream i (put_st_op None));;
  cancel_timer o;;
  _dispatch_release o.

Definition _dispatch_stream_pick_next_operation (i : nat) (op : option nat) : IOM (option nat) :=
  x ← get_stream i;
  match op with
  | None =>
      if negb (_dispatch_stream_operation_avail x) then mret None
      else mret (match stream_list x with o :: _ => Some o | [] => head (random_list x) end)
  | Some o =>
      y ← get_op o;
      match io_type (params y) with
      | DISPATCH_IO_STREAM => mret (Some o)
      | DISPATCH_IO_RANDOM =>
          mret (match tailq_next o (random_list x) with Some n => Some n | None => head (random_list x) end)
      end
  end.

(** [TAILQ_FOREACH_SAFE]: only the operation of the turn leaves the list. *)
Fixpoint stream_cleanup_list (i : nat) (c : option nat) (l : list nat) : IOM unit :=
  match l with
  | [] => mret tt
  | o :: l =>
      op ← get_op o;
      whenM (match c with None => true | Some c => (channel op =? c)%nat end) (_dispatch_stream_complete_operation i o);;
      stream_cleanup_list i c l
  end.

(** ** The source *)

Definition source_suspend (i : nat) : IOM unit :=
  x ← get_stream i; n ← try_opt "stream->source" (source x); modify_stream i (put_source (Some (n + 1))).
Definition source_resume (i : nat) : IOM unit :=
  x ← get_stream i;
  n ← try_opt "stream->source" (source x);
  if decide (n ≤ 0) then fail (DISPATCH_CLIENT_CRASH "Over-resume of an object") else modify_stream i (put_source (Some (n - 1))).

(** A source is created suspended, for the descriptor of the operation. *)
Definition _dispatch_stream_source (i o : nat) : IOM unit :=
  x ← get_stream i;
  match source x with
  | Some _ => mret tt
  | None =>
      op ← get_op o;
      fe ← try_opt "fd_entry" (fd_entry op);
      f ← get_entry fe;
      modify_stream i (put_source (Some 1))
  end.

Definition _dispatch_stream_cleanup_operations (i : nat) (c : option nat) : IOM unit :=
  x ← get_stream i;
  stream_cleanup_list i c (random_list x);;
  x ← get_stream i;
  stream_cleanup_list i c (stream_list x);;
  x ← get_stream i;
  whenM (source_running x && negb (_dispatch_stream_operation_avail x))
    (source_suspend i;; modify_stream i (put_source_running false)).

(** ** The handler *)

(** The [pick] loop: an operation without an error, if there is one. *)
Fixpoint stream_pick (fuel : nat) (i : nat) : IOM (option nat) :=
  match fuel with
  | O => fail OutOfFuel
  | S fuel =>
      x ← get_stream i;
      op ← _dispatch_stream_pick_next_operation i (st_op x);
      match op with
      | None => mret None
      | Some o =>
          e ← op_error o;
          if negb (e =? 0) then
            modify_op o (put_err e);; _dispatch_stream_complete_operation i o;; stream_pick fuel i
          else modify_stream i (put_st_op (Some o));; mret (Some o)
      end
  end.

(** Each turn completes an operation. *)
Definition pick_fuel (i : nat) : IOM nat :=
  x ← get_stream i; mret (S (length (stream_list x) + length (random_list x))).

Definition stream_avail (i : nat) : IOM bool := x ← get_stream i; mret (_dispatch_stream_operation_avail x).

(** After [_dispatch_operation_perform]. *)
Definition stream_result (i o : nat) (result : op_result) : IOM unit :=
  op ← get_op o;
  let again := b ← stream_avail i; whenM b (async_stream i SB_handler) in
  let resume :=
    b ← stream_avail i;
    whenM b (modify_stream i (put_source_running true);; _dispatch_stream_source i o;; source_resume i) in
  match result with
  | DISPATCH_OP_DELIVER => _dispatch_operation_deliver_data o DOP_DEFAULT;; again
  | DISPATCH_OP_DELIVER_AND_COMPLETE =>
      _dispatch_operation_deliver_data o (Z.lor DOP_DELIVER DOP_NO_EMPTY);; _dispatch_stream_complete_operation i o;; again
  | DISPATCH_OP_COMPLETE => _dispatch_stream_complete_operation i o;; again
  | DISPATCH_OP_COMPLETE_RESUME => _dispatch_stream_complete_operation i o;; resume
  | DISPATCH_OP_RESUME => resume
  | DISPATCH_OP_ERR => _dispatch_stream_cleanup_operations i (Some (channel op))
  | DISPATCH_OP_FD_ERR =>
      fe ← try_opt "fd_entry" (fd_entry op);
      f ← get_entry fe;
      async_barrier (fd_barrier f) (BB_cleanup fe)
  end.

(** Up to the end of the system call: the blocks that other threads push in the
    meantime come before those that the rest of it pushes. *)
Definition _dispatch_stream_handler (i : nat) : IOM unit :=
  n ← pick_fuel i;
  op ← stream_pick n i;
  match op with
  | None => mret tt
  | Some o =>
      s ← getS;
      x ← get_op o;
      whenM ((total x =? 0) && initial_delivery (defaults s)) (_dispatch_operation_deliver_data o DOP_DELIVER);;
      result ← _dispatch_operation_perform o;
      modify_stream i (put_st_turn (Some (o, result)))
  end.

(** The second half of the handler. *)
Definition stream_end (i : nat) : IOM unit :=
  x ← get_stream i;
  match st_turn x with
  | None => mret tt
  | Some (o, result) => modify_stream i (put_st_turn None);; stream_result i o result
  end.

Definition _dispatch_stream_source_handler (i : nat) : IOM unit :=
  source_suspend i;; modify_stream i (put_source_running false);; _dispatch_stream_handler i.

(** ** The queues *)

Definition run_stream_block (i : nat) (b : stream_block) : IOM unit :=
  match b with
  | SB_enqueue o d => _dispatch_stream_enqueue_operation i o d
  | SB_handler => _dispatch_stream_handler i
  | SB_cleanup c => _dispatch_stream_cleanup_operations i c
  end.

(** The queue goes on: the end of the handler that is running, or the first
    block. *)
Definition stream_turn (i : nat) : IOM unit :=
  x ← get_stream i;
  match st_turn x, dq x with
  | Some _, _ => stream_end i
  | None, [] => mret tt
  | None, b :: l => modify_stream i (put_dq l);; run_stream_block i b
  end.

(** The event of the source of a stream, when it is not suspended. *)
Definition source_event (i : nat) : IOM unit :=
  x ← get_stream i;
  if bool_decide (st_turn x = None) && bool_decide (source x = Some 0) then _dispatch_stream_source_handler i else mret tt.

Definition _dispatch_fd_entry_cleanup_operations (e : nat) (c : option nat) : IOM unit :=
  f ← get_entry e;
  match disk f with
  | Some dk => async_pick dk (DB_cleanup c)
  | None => async_stream (read_stream f) (SB_cleanup c);; async_stream (write_stream f) (SB_cleanup c)
  end.

(** ** Channels *)

(** The flag; the block of [_dispatch_io_stop] is then pushed, by way of the
    channel queue, on the barrier queue. *)
Definition io_stop_push (c : nat) : IOM unit := x ← get_channel c; async_barrier (io_barrier x) (BB_stop c).
Definition _dispatch_io_stop (c : nat) : IOM unit :=
  modify_channel c (λ x, put_atomic_flags (Z.lor (atomic_flags x) DIO_STOPPED) x);;
  io_stop_push c.

(** The rest of a call of it by another thread, whose flag was seen. *)
Definition io_stopped (c : nat) : IOM unit := x ← get_channel c; whenM (has (atomic_flags x) DIO_STOPPED) (io_stop_push c).

(** The entry that a descriptor has in the table. *)
Definition find_entry (n : Z) : IOM (option nat) :=
  s ← getS; mret (fst <$> head (List.filter (λ p, (fd p.2 =? n) && negb (path_data p.2)) (map_to_list (fd_entries s)))).

Definition io_stop_block (c : nat) : IOM unit :=
  x ← get_channel c;
  match io_fd_entry x with
  | Some e =>
      _dispatch_fd_entry_cleanup_operations e (Some c);;
      x ← get_channel c;
      whenM (negb (has (atomic_flags x) DIO_CLOSED)) (modify_channel c (put_io_fd_entry None))
  | None =>
      if io_fd x =? -1 then mret tt
      else e ← find_entry (io_fd x); match e with Some e => _dispatch_fd_entry_cleanup_operations e (Some c) | None => mret tt end
  end.

Definition io_close_block (c : nat) : IOM unit :=
  fl ← read_flags c;
  if has fl (Z.lor DIO_CLOSED DIO_STOPPED) then mret tt
  else
    modify_channel c (λ x, put_atomic_flags (Z.lor (atomic_flags x) DIO_CLOSED) x);;
    x ← get_channel c;
    e ← try_opt "channel->fd_entry" (io_fd_entry x);
    f ← get_entry e;
    whenM (negb (path_data f)) (modify_channel c (put_io_fd_entry None)).

Definition dispatch_io_close (c : nat) (fl : Z) : IOM unit :=
  cf ← read_flags c;
  if has fl DISPATCH_IO_STOP then if has cf DIO_STOPPED then mret tt else _dispatch_io_stop c
  else if has cf (Z.lor DIO_CLOSED DIO_STOPPED) then mret tt
  else x ← get_channel c; async_barrier (io_barrier x) (BB_close c).

(** On the channel queue. *)
Definition dispatch_io_barrier (c b : nat) : IOM unit :=
  x ← get_channel c; async_barrier (io_barrier x) (BB_barrier (io_group x) b).

Definition run_barrier_block (q : nat) (b : barrier_block) : IOM unit :=
  match b with
  | BB_enqueue o d => _dispatch_operation_enqueue o d
  | BB_handler e d => call_handler None true d e
  | BB_stop c => io_stop_block c
  | BB_close c => io_close_block c
  | BB_cleanup e => _dispatch_fd_entry_cleanup_operations e None
  | BB_barrier e b => modifyS (λ s, set_barrier_waits (<[q := (e, b)]> (barrier_waits s)) s)
  end.

(** The first block, when the queue is not suspended. *)
Definition barrier_turn (q : nat) : IOM unit :=
  l ← get_barrier q;
  s ← getS;
  match l, barrier_waits s !! q with
  | b :: l, None => modifyS (λ s, set_barriers (<[q := l]> (barriers s)) s);; run_barrier_block q b
  | _, _ => mret tt
  end.

(** The group of the entry is empty: the barrier is called, and the queue
    resumed. *)
Definition barrier_notify (q : nat) : IOM unit :=
  s ← getS;
  match barrier_waits s !! q with
  | None => mret tt
  | Some (e, b) =>
      f ← get_entry e;
      whenM (barrier_group f =? 0)
        (modifyS (λ s, set_barrier_calls (barrier_calls s ++ [b]) s);; modifyS (λ s, set_barrier_waits (delete q (barrier_waits s)) s))
  end.
End Stream.
