(* ===== verification/IoDisk.v ===== *)
(** * Disks of dispatch I/O (src/io.c)

    The operations on the files of a disk: one list for the disk, with the first
    of the stream operations of each entry, the ring of the operations that were
    advised, and the performance of one operation at a time on its target
    queue.  [perform_q] counts the calls of [_dispatch_disk_perform] that were
    submitted there; the pick queue runs its blocks in order.  On Linux
    [_dispatch_operation_advise] does nothing. *)

From S2P Require Import Prelude Io IoStream.

Section Disk.
Context {D : DataApi} {K : IoKernel}.

(** [TAILQ_PREV]. *)
Fixpoint tailq_prev (x : nat) (l : list nat) : option nat :=
  match l with
  | y :: ((z :: _) as l') => if (z =? x)%nat then Some y else tailq_prev x l'
  | _ => None
  end.

Definition disk_insert (i o : nat) : IOM unit :=
  x ← get_disk i; l ← tailq_insert_tail o (disk_ops x); modify_disk i (put_disk_ops l).

Definition _dispatch_disk_complete_operation (i o : nat) : IOM unit :=
  op ← get_op o;
  x ← get_disk i;
  whenM (bool_decide (cur_rq x = Some o)) (modify_disk i (put_cur_rq (tailq_prev o (disk_ops x))));;
  whenM (bool_decide (io_type (params op) = DISPATCH_IO_STREAM))
    (fe ← try_opt "fd_entry" (fd_entry op);
     f ← get_entry fe;
     let op_next := tailq_next o (stream_ops f) in
     l ← tailq_remove o (stream_ops f);
     modify_entry fe (put_stream_ops l);;
     match op_next with Some n => disk_insert i n | None => mret tt end);;
  x ← get_disk i;
  l ← tailq_remove o (disk_ops x);
  modify_disk i (put_disk_ops l);;
  cancel_timer o;;
  _dispatch_release o.

(** What waits: the operations of the disk, and those of the entries. *)
Definition disk_work (i : nat) (s : io_state) : Z :=
  match disks s !! i with Some x => zlen (disk_ops x) | None => 0 end + msum zlen (stream_ops <$> fd_entries s).

(** [TAILQ_FOREACH_SAFE]: the next operation is taken before the turn, which may
    insert one at the end. *)
Fixpoint disk_cleanup_from (fuel : nat) (i : nat) (c : option nat) (o : option nat) : IOM unit :=
  match fuel, o with
  | _, None => mret tt
  | O, _ => fail OutOfFuel
  | S fuel, Some o =>
      x ← get_disk i;
      let tmp := tailq_next o (disk_ops x) in
      op ← get_op o;
      whenM (match c with None => true | Some c => (channel op =? c)%nat end) (_dispatch_disk_complete_operation i o);;
      disk_cleanup_from fuel i c tmp
  end.

Definition _dispatch_disk_cleanup_operations (i : nat) (c : option nat) : IOM unit :=
  s ← getS;
  x ← get_disk i;
  disk_cleanup_from (S (Z.to_nat (zlen (disk_ops x) + disk_work i s))) i c (head (disk_ops x)).

(** ** The choice of an operation *)

(** Those after [x]. *)
Fixpoint tailq_after (x : nat) (l : list nat) : list nat :=
  match l with
  | [] => []
  | y :: l => if (y =? x)%nat then l else tailq_after x l
  end.

(** The loop from the one after [cur] on, around the list, to [cur] itself. *)
Fixpoint pick_inactive (cur : nat) (l : list nat) : IOM nat :=
  match l with
  | [] => fail (UB "TAILQ_NEXT")
  | n :: l => x ← get_op n; if active x && negb (n =? cur)%nat then pick_inactive cur l else mret n
  end.

Definition _dispatch_disk_pick_next_operation (i : nat) : IOM (option nat) :=
  x ← get_disk i;
  match disk_ops x with
  | [] => mret None
  | first :: _ =>
      o ← (match cur_rq x with None => mret first | Some cur => pick_inactive cur (tailq_after cur (disk_ops x) ++ disk_ops x) end);
      y ← get_op o;
      if active y then mret None else modify_disk i (put_cur_rq (Some o));; mret (Some o)
  end.

(** ** The handler *)

Definition depth (x : dispatch_disk_s) : Z := zlen (advise_list x).
(** The remainder of an unsigned division. *)
Definition ring (i : Z) (x : dispatch_disk_s) : IOM nat :=
  if decide (depth x = 0) then fail (UB "division by zero") else mret (Z.to_nat (i mod depth x)).

(** Fill the free places of the ring, up to [j]; the result is where it stopped. *)
Fixpoint fill_ring (fuel : nat) (i : nat) (k j : Z) : IOM Z :=
  match fuel with
  | O => fail OutOfFuel
  | S fuel =>
      if j <? k then mret k
      else
        x ← get_disk i;
        n ← ring k x;
        a ← try_opt "advise_list" (advise_list x !! n);
        match a with
        | Some _ => mret k
        | None =>
            op ← _dispatch_disk_pick_next_operation i;
            match op with
            | None => mret k
            | Some o =>
                e ← op_error o;
                if negb (e =? 0) then
                  modify_op o (put_err e);; _dispatch_disk_complete_operation i o;; fill_ring fuel i k j
                else
                  _dispatch_retain o;;
                  modify_disk i (λ x, put_advise_list (<[n := Some o]> (advise_list x)) x);;
                  modify_op o (put_active true);;
                  fill_ring fuel i (k + 1) j
            end
        end
  end.

Definition _dispatch_disk_handler (i : nat) : IOM unit :=
  x ← get_disk i;
  if io_active x then mret tt
  else
    s ← getS;
    let k := free_idx x in
    let j := if req_idx x <=? k then req_idx x + depth x else req_idx x in
    k ← fill_ring (S (Z.to_nat (j - k + 1) + Z.to_nat (disk_work i s))) i k j;
    x ← get_disk i;
    n ← ring k x;
    modify_disk i (put_free_idx (Z.of_nat n));;
    x ← get_disk i;
    a ← try_opt "advise_list" (advise_list x !! Z.to_nat (req_idx x));
    whenM (bool_decide (is_Some a)) (modify_disk i (λ x, put_perform_q (S (perform_q x)) (put_io_active true x))).

Definition _dispatch_disk_enqueue_operation (i o : nat) (d : data) : IOM unit :=
  ok ← _dispatch_operation_should_enqueue o d;
  if negb ok then mret tt
  else
    op ← get_op o;
    (match io_type (params op) with
     | DISPATCH_IO_STREAM =>
         fe ← try_opt "fd_entry" (fd_entry op);
         f ← get_entry fe;
         whenM (bool_decide (stream_ops f = [])) (disk_insert i o);;
         l ← tailq_insert_tail o (stream_ops f);
         modify_entry fe (put_stream_ops l)
     | DISPATCH_IO_RANDOM => disk_insert i o
     end);;
    _dispatch_disk_handler i.

(** ** The performance of an operation *)

(** The loop that advises the operations of the ring from [k] to [j]: it opens
    their descriptors and announces them. *)
Fixpoint advise_ring (fuel : nat) (i : nat) (k j : Z) : IOM Z :=
  match fuel with
  | O => fail OutOfFuel
  | S fuel =>
      x ← get_disk i;
      n ← ring k x;
      a ← try_opt "advise_list" (advise_list x !! n);
      match a with
      | None => mret k
      | Some o =>
          op ← get_op o;
          whenM (bool_decide (direction op = DOP_DIR_READ))
            (fe ← try_opt "fd_entry" (fd_entry op);
             f ← get_entry fe;
             e ← (if fd f =? -1 then _dispatch_fd_entry_open fe (channel op) else mret 0);
             s ← getS;
             whenM ((e =? 0) && (total op =? 0) && initial_delivery (defaults s)) (_dispatch_operation_deliver_data o DOP_DELIVER));;
          if k + 1 <? j then advise_ring fuel i (k + 1) j else mret (k + 1)
      end
  end.

(** Up to the end of the system call: the pick queue goes on in the meantime. *)
Definition _dispatch_disk_perform (i : nat) : IOM unit :=
  x ← get_disk i;
  let k := advise_idx x in
  let j := if free_idx x <=? k then free_idx x + depth x else free_idx x in
  k ← advise_ring (S (Z.to_nat (j - k))) i k j;
  x ← get_disk i;
  n ← ring k x;
  modify_disk i (put_advise_idx (Z.of_nat n));;
  x ← get_disk i;
  let r := Z.to_nat (req_idx x) in
  a ← try_opt "advise_list" (advise_list x !! r);
  o ← try_opt "op" a;
  result ← _dispatch_operation_perform o;
  modify_disk i (put_dk_turn (Some (o, result))).

(** The rest of [_dispatch_disk_perform]. *)
Definition disk_end (i o : nat) (result : op_result) : IOM unit :=
  x ← get_disk i;
  let r := Z.to_nat (req_idx x) in
  modify_disk i (λ x, put_advise_list (<[r := None]> (advise_list x)) (put_dk_turn None x));;
  n ← ring (req_idx x + 1) x;
  modify_disk i (put_req_idx (Z.of_nat n));;
  async_pick i (DB_performed o result).

(** The block after it, on the pick queue. *)
Definition disk_performed (i o : nat) (result : op_result) : IOM unit :=
  op ← get_op o;
  (match result with
   | DISPATCH_OP_DELIVER => _dispatch_operation_deliver_data o DOP_DEFAULT
   | DISPATCH_OP_COMPLETE => _dispatch_disk_complete_operation i o
   | DISPATCH_OP_DELIVER_AND_COMPLETE =>
       _dispatch_operation_deliver_data o (Z.lor DOP_DELIVER DOP_NO_EMPTY);; _dispatch_disk_complete_operation i o
   | DISPATCH_OP_ERR => _dispatch_disk_cleanup_operations i (Some (channel op))
   | DISPATCH_OP_FD_ERR => _dispatch_disk_cleanup_operations i None
   | DISPATCH_OP_COMPLETE_RESUME | DISPATCH_OP_RESUME => mret tt
   end);;
  modify_op o (put_active false);;
  modify_disk i (put_io_active false);;
  _dispatch_disk_handler i;;
  _dispatch_release o.

(** ** The queues *)

Definition run_disk_block (i : nat) (b : disk_block) : IOM unit :=
  match b with
  | DB_enqueue o d => _dispatch_disk_enqueue_operation i o d
  | DB_cleanup c => _dispatch_disk_cleanup_operations i c
  | DB_performed o r => disk_performed i o r
  end.

(** The first block of the pick queue; the queue of the operations goes on. *)
Definition pick_turn (i : nat) : IOM unit :=
  x ← get_disk i;
  match pick_q x with
  | [] => mret tt
  | b :: l => modify_disk i (put_pick_q l);; run_disk_block i b
  end.

Definition perform_turn (i : nat) : IOM unit :=
  x ← get_disk i;
  match dk_turn x, perform_q x with
  | Some (o, result), _ => disk_end i o result
  | None, O => mret tt
  | None, S n => modify_disk i (put_perform_q n);; _dispatch_disk_perform i
  end.

(** [_dispatch_disk_init], for a new disk. *)
Definition _dispatch_disk_init (d : dispatch_io_defaults_s) : dispatch_disk_s :=
  Disk [] [] None 0 0 0 false (replicate (Z.to_nat (max_pending_io_reqs d)) None) 0 None.
End Disk.

(** ** Runs

    [io_call]: the entry points, with the turns of the queues; [io_exec] runs
    one, and [io_exec_all] a sequence of them, in any order. *)

Section Run.
Context {D : DataApi} {K : IoKernel}.

Inductive io_call : Type :=
  | A_iocntl (param value : Z)
  | A_high_water (c : nat) (n : Z)
  | A_low_water (c : nat) (n : Z)
  | A_interval (c : nat) (ival fl : Z)
  | A_read (c : nat) (off len : Z) (o : nat)
  | A_write (c : nat) (off : Z) (d : data) (o : nat)
  | A_close (c : nat) (fl : Z)
  | A_stopped (c : nat)
  | A_io_barrier (c b : nat)
  | A_notify (q : nat)
  | A_barrier (q : nat)
  | A_stream (i : nat)
  | A_source (i : nat)
  | A_timer (o : nat)
  | A_pick (i : nat)
  | A_perform (i : nat).

Definition io_exec (c : io_call) : IOM unit :=
  match c with
  | A_iocntl p v => _dispatch_iocntl p v
  | A_high_water c n => dispatch_io_set_high_water c n
  | A_low_water c n => dispatch_io_set_low_water c n
  | A_interval c i f => dispatch_io_set_interval c i f
  | A_read c off len o => dispatch_io_read c off len o
  | A_write c off d o => dispatch_io_write c off d o
  | A_close c fl => dispatch_io_close c fl
  | A_stopped c => io_stopped c
  | A_io_barrier c b => dispatch_io_barrier c b
  | A_notify q => barrier_notify q
  | A_barrier q => barrier_turn q
  | A_stream i => stream_turn i
  | A_source i => source_event i
  | A_timer o => _dispatch_operation_timer o
  | A_pick i => pick_turn i
  | A_perform i => perform_turn i
  end.

(** The call makes the operation [o]. *)
Definition makes (o : nat) (c : io_call) : bool :=
  match c with A_read _ _ _ o' | A_write _ _ _ o' => bool_decide (o = o') | _ => false end.

Fixpoint io_exec_all (cs : list io_call) : IOM unit :=
  match cs with [] => mret tt | c :: cs => io_exec c;; io_exec_all cs end.
End Run.
