(* ===== verification/IoTrack.v ===== *)
(** * The bytes of one operation

    [life]: what the state says of an operation [o] from its submission to the
    call of its handler that completes it.  The steps are partial: a call that
    faults has no end ([wlp]). *)

From S2P Require Import Prelude Io IoStream IoDisk.

(** ** Partial correctness *)

Definition wlp {S A} (m : M S A) (Q : A → S → Prop) (s : S) : Prop := ∀ a s', m s = Ok a s' → Q a s'.

Section Wlp.
Context {S : Type}.

Lemma wlp_bind {A B} (m : M S A) (k : A → M S B) Q s : wlp m (λ a s', wlp (k a) Q s') s → wlp (m ≫= k) Q s.
Proof. unfold wlp, mbind, M_bind. intros H b s'. destruct (m s) eqn:E; [|done]. by apply H. Qed.

Lemma wlp_ret {A} (a : A) (Q : A → S → Prop) s : Q a s → wlp (mret a) Q s.
Proof. by intros ? ? ? [= <- <-]. Qed.

Lemma wlp_get (Q : S → S → Prop) s : Q s s → wlp getS Q s.
Proof. by intros ? ? ? [= <- <-]. Qed.

Lemma wlp_modify f (Q : unit → S → Prop) s : Q tt (f s) → wlp (modifyS f) Q s.
Proof. by intros ? ? ? [= <- <-]. Qed.

Lemma wlp_fail {A} f (Q : A → S → Prop) s : wlp (fail f) Q s.
Proof. by intros ? ?. Qed.

Lemma wlp_try_opt {A} what (x : option A) (Q : A → S → Prop) s : (∀ a, x = Some a → Q a s) → wlp (try_opt what x) Q s.
Proof. destruct x; [|by intros _ ? ?]. intros H ? ? [= <- <-]. by apply H. Qed.

Lemma wlp_mono {A} (m : M S A) (Q Q' : A → S → Prop) s : wlp m Q s → (∀ a s', Q a s' → Q' a s') → wlp m Q' s.
Proof. unfold wlp. eauto. Qed.
End Wlp.

(** ** What happened to an operation *)

Section Track.
Context {D : DataApi} {K : IoKernel}.

(** The bytes that a system call moved. *)
Definition ev_moved (e : io_event) : list Z :=
  match ev_call e, ev_result e with
  | Sys_read _ _, IoBytes l | Sys_pread _ _ _, IoBytes l => l
  | Sys_write _ b, IoCount n | Sys_pwrite _ b _, IoCount n => take (Z.to_nat n) b
  | _, _ => []
  end.

Definition is_of (o : nat) (x : option nat) : bool := bool_decide (x = Some o).
Definition moved (o : nat) (s : io_state) : list Z :=
  concat (ev_moved <$> List.filter (λ e, is_of o (ev_op e)) (syscalls s)).
Definition calls_of (o : nat) (s : io_state) : list handler_call := List.filter (λ h, is_of o (hc_op h)) (handler_calls s).
Definition hc_bytes (h : handler_call) : list Z := default [] (d_bytes <$> hc_data h).
Definition delivered (o : nat) (s : io_state) : list Z := concat (hc_bytes <$> calls_of o s).

(** No block waits to start it (again). *)
Definition no_start (o : nat) (s : io_state) : Prop :=
  (∀ q l d, barriers s !! q = Some l → BB_enqueue o d ∉ l) ∧
  (∀ i l d, (dq <$> streams s) !! i = Some l → SB_enqueue o d ∉ l) ∧
  (∀ i l d, (pick_q <$> disks s) !! i = Some l → DB_enqueue o d ∉ l).

(** ** The operation *)

(** The bytes that were read but not delivered; those still to write. *)
Definition undelivered_bytes (x : dispatch_operation_s) : list Z := d_bytes (op_data x) ++ default [] (buf x).
Definition unwritten (x : dispatch_operation_s) : list Z := drop (Z.to_nat (buf_len x)) (d_bytes (op_data x)).

Definition buffer_ok (x : dispatch_operation_s) : Prop :=
  match buf x with
  | None => buf_len x = 0 ∧ (direction x = DOP_DIR_WRITE → buf_data x = None)
  | Some b =>
      0 ≤ buf_len x ≤ buf_siz x ∧ buf_siz x ≤ SIZE_MAX ∧
      match direction x with
      | DOP_DIR_READ => zlen b = buf_len x
      | DOP_DIR_WRITE => is_Some (buf_data x) ∧ b = take (Z.to_nat (buf_siz x)) (d_bytes (op_data x)) ∧ zlen b = buf_siz x
      end
  end.

(** What the buffer may still take. *)
Definition room (x : dispatch_operation_s) : Z := match buf x with Some _ => buf_siz x - buf_len x | None => 0 end.

(** [mv]: what was moved; [W]: the bytes to write. *)
Record op_wf (W mv : list Z) (x : dispatch_operation_s) : Prop := {
  wf_high : 1 ≤ high (params x) ≤ SIZE_MAX;
  wf_length : 0 ≤ op_length x ≤ SIZE_MAX;
  wf_buffer : buffer_ok x;
  wf_total : total x = u64 (zlen mv);
  wf_read : direction x = DOP_DIR_READ →
    zlen (d_bytes (op_data x)) + (match buf x with Some _ => buf_siz x | None => 0 end) ≤ high (params x) ∧
    (op_length x < SIZE_MAX → zlen mv + room x ≤ op_length x);
  wf_write : direction x = DOP_DIR_WRITE →
    op_length x = zlen W ∧ op_length x < 2 ^ 63 ∧ zlen (d_bytes (op_data x)) ≤ op_length x
}.

(** What was moved is accounted for. *)
Definition balanced (W : list Z) (x : dispatch_operation_s) (mv dl : list Z) : Prop :=
  match direction x with
  | DOP_DIR_READ => mv = dl ++ undelivered_bytes x
  | DOP_DIR_WRITE => mv ++ unwritten x = W
  end.

Section Life.
Variables (o : nat) (dir : dispatch_op_direction_t) (P : dispatch_io_param_s) (W : list Z).

(** The calls of the handler: those before the last one, and the last one. *)
Definition within (h : handler_call) : Prop := dir = DOP_DIR_READ → zlen (hc_bytes h) ≤ high P.
Definition partial_call (h : handler_call) : Prop := hc_done h = false ∧ within h.
Definition final_call (mv dl : list Z) (h : handler_call) : Prop :=
  hc_done h = true ∧ within h ∧
  match dir with
  | DOP_DIR_READ => mv = dl ∧ (hc_data h = None ↔ hc_err h ≠ 0)
  | DOP_DIR_WRITE => match hc_data h with
                     | None => hc_err h = 0
                     | Some d => hc_err h ≠ 0 ∧ mv ++ d_bytes d = W
                     end
  end.

Definition live (x : dispatch_operation_s) (s : io_state) : Prop :=
  params x = P ∧ direction x = dir ∧ is_Some (fd_entry x) ∧ op_wf W (moved o s) x ∧ Forall partial_call (calls_of o s) ∧
  balanced W x (moved o s) (delivered o s).
Definition gone (s : io_state) : Prop :=
  ∃ l h, calls_of o s = l ++ [h] ∧ Forall partial_call l ∧ final_call (moved o s) (delivered o s) h.

Definition life (s : io_state) : Prop :=
  no_start o s ∧ match operations s !! o with Some x => live x s | None => gone s end.

(** ** What [life] looks at *)

Definition acct_of (x : dispatch_operation_s) :=
  (params x, direction x, op_length x, buf x, buf_siz x, buf_len x, total x, buf_data x, op_data x, fd_entry x).
Definition view (s : io_state) :=
  (acct_of <$> operations s !! o, moved o s, calls_of o s, (barriers s, dq <$> streams s, pick_q <$> disks s)).

Lemma op_wf_acct mv x x' : acct_of x' = acct_of x → op_wf W mv x → op_wf W mv x'.
Proof.
  intros E [H1 H2 H3 H4 H5 H6]. injection E as E1 E2 E3 E4 E5 E6 E7 E8 E9 _.
  split; unfold buffer_ok, room in *; rewrite ?E1, ?E2, ?E3, ?E4, ?E5, ?E6, ?E7, ?E8, ?E9; done.
Qed.

Lemma balanced_acct mv dl x x' : acct_of x' = acct_of x → balanced W x mv dl → balanced W x' mv dl.
Proof.
  intros E H. injection E as E1 E2 E3 E4 E5 E6 E7 E8 E9 _.
  unfold balanced, undelivered_bytes, unwritten in *. rewrite ?E2, ?E4, ?E6, ?E9. done.
Qed.

Lemma life_view s s' : view s' = view s → life s → life s'.
Proof.
  intros E. injection E as E1 E2 E3 E4 E5 E6. unfold life, gone, live, delivered, no_start.
  rewrite E2, E3, E4, E5, E6. intros [Hn H]. split; [done|]. revert H.
  destruct (operations s !! o) as [x|], (operations s' !! o) as [x'|]; try done.
  apply (inj Some) in E1 as E. pose proof E as E'. injection E' as F1 F2 F3 F4 F5 F6 F7 F8 F9 F10.
  intros (HP & Hd & Hf & Hw & Hc & B). rewrite <- F10 in Hf.
  refine (conj (eq_trans F1 HP) (conj (eq_trans F2 Hd) (conj Hf (conj (op_wf_acct _ x x' E Hw) (conj Hc _))))).
  by apply (balanced_acct _ _ x).
Qed.

(** [m] keeps it. *)
Definition pres {A} (m : IOM A) : Prop := ∀ s, life s → wlp m (λ _, life) s.
(** [m] does not touch it. *)
Definition quietly {A} (m : IOM A) : Prop := ∀ s a s', m s = Ok a s' → view s' = view s.

Lemma quietly_pres {A} (m : IOM A) : quietly m → pres m.
Proof. intros H s Hl a s' E. apply (life_view s); [by apply (H s a)|done]. Qed.

Lemma pres_bind {A B} (m : IOM A) (k : A → IOM B) : pres m → (∀ a, pres (k a)) → pres (m ≫= k).
Proof. intros Hm Hk s Hl. apply wlp_bind. intros a s' E. by apply (Hk a), (Hm s Hl a s' E). Qed.

Lemma quietly_bind {A B} (m : IOM A) (k : A → IOM B) : quietly m → (∀ a, quietly (k a)) → quietly (m ≫= k).
Proof.
  intros Hm Hk s b s'. unfold mbind, M_bind. destruct (m s) as [a s1|] eqn:E; [|done]. intros E'.
  rewrite (Hk a s1 b s' E'). by apply (Hm s a).
Qed.

Lemma quietly_ret {A} (a : A) : quietly (mret a).
Proof. by intros ? ? ? [= <- <-]. Qed.
Lemma quietly_get : quietly getS.
Proof. by intros ? ? ? [= <- <-]. Qed.
Lemma quietly_fail {A} f : quietly (fail (A := A) f).
Proof. by intros ? ? ?. Qed.
Lemma quietly_try_opt {A} w (x : option A) : quietly (try_opt w x).
Proof. destruct x; [apply quietly_ret|apply quietly_fail]. Qed.
Lemma quietly_modify f : (∀ s, view (f s) = view s) → quietly (modifyS f).
Proof. intros H ? ? ? [= <- <-]. apply H. Qed.
Lemma quietly_when b m : quietly m → quietly (whenM b m).
Proof. destruct b; [done|intros _; apply quietly_ret]. Qed.
Lemma pres_when b m : pres m → pres (whenM b m).
Proof. destruct b; [done|intros _; apply quietly_pres, quietly_ret]. Qed.

(** ** Primitives *)

Lemma fmap_insert_same {A B} (f : A → B) (m : gmap nat A) i x y :
  m !! i = Some x → f y = f x → f <$> <[i := y]> m = f <$> m.
Proof. intros Hx E. rewrite fmap_insert, E. apply insert_id. by rewrite lookup_fmap, Hx. Qed.

Lemma quietly_get_op i : quietly (get_op i).
Proof. apply quietly_bind; [apply quietly_get|intros; apply quietly_try_opt]. Qed.
Lemma quietly_get_channel i : quietly (get_channel i).
Proof. apply quietly_bind; [apply quietly_get|intros; apply quietly_try_opt]. Qed.
Lemma quietly_get_entry i : quietly (get_entry i).
Proof. apply quietly_bind; [apply quietly_get|intros; apply quietly_try_opt]. Qed.
Lemma quietly_get_stream i : quietly (get_stream i).
Proof. apply quietly_bind; [apply quietly_get|intros; apply quietly_try_opt]. Qed.
Lemma quietly_get_disk i : quietly (get_disk i).
Proof. apply quietly_bind; [apply quietly_get|intros; apply quietly_try_opt]. Qed.
Lemma quietly_get_barrier i : quietly (get_barrier i).
Proof. apply quietly_bind; [apply quietly_get|intros; apply quietly_try_opt]. Qed.

Lemma quietly_modify_channel i f : quietly (modify_channel i f).
Proof. apply quietly_bind; [apply quietly_get_channel|intros x]. by apply quietly_modify. Qed.
Lemma quietly_modify_entry i f : quietly (modify_entry i f).
Proof. apply quietly_bind; [apply quietly_get_entry|intros x]. by apply quietly_modify. Qed.

(** The state in which a record was read. *)
Lemma get_at {A} w (p : io_state → gmap nat A) i s a s' :
  (s ← getS; try_opt w (p s !! i)) s = Ok a s' → s' = s ∧ p s !! i = Some a.
Proof. unfold mbind, M_bind, getS, try_opt. destruct (p s !! i); [|done]. by intros [= <- <-]. Qed.

Lemma quietly_modify_stream i f : (∀ x, dq (f x) = dq x) → quietly (modify_stream i f).
Proof.
  intros Hf s a s'. unfold modify_stream, mbind at 1, M_bind at 1. destruct (get_stream i s) as [x s1|] eqn:E; [|done].
  apply (get_at _ streams) in E as [-> E]. intros [= <- <-]. unfold view. cbn [barriers disks operations streams set_streams].
  by rewrite (fmap_insert_same dq _ _ x).
Qed.

Lemma quietly_modify_disk i f : (∀ x, pick_q (f x) = pick_q x) → quietly (modify_disk i f).
Proof.
  intros Hf s a s'. unfold modify_disk, mbind at 1, M_bind at 1. destruct (get_disk i s) as [x s1|] eqn:E; [|done].
  apply (get_at _ disks) in E as [-> E]. intros [= <- <-]. unfold view. cbn [barriers disks operations streams set_disks].
  by rewrite (fmap_insert_same pick_q _ _ x).
Qed.

Lemma quietly_modify_op i f : i ≠ o ∨ (∀ x, acct_of (f x) = acct_of x) → quietly (modify_op i f).
Proof.
  intros Hf s a s'. unfold modify_op, mbind at 1, M_bind at 1. destruct (get_op i s) as [x s1|] eqn:E; [|done].
  apply (get_at _ operations) in E as [-> E]. intros [= <- <-]. unfold view. cbn [barriers disks operations streams set_operations].
  destruct (decide (i = o)) as [->|Hne]; [|by rewrite lookup_insert_ne].
  destruct Hf as [?|Hf]; [done|]. rewrite lookup_insert_eq, E. cbn. by rewrite Hf.
Qed.

Lemma filter_snoc_out {A} (f : A → bool) l x : f x = false → List.filter f (l ++ [x]) = List.filter f l.
Proof. intros H. rewrite List.filter_app. cbn. rewrite H. apply app_nil_r. Qed.
Lemma filter_snoc_in {A} (f : A → bool) l x : f x = true → List.filter f (l ++ [x]) = List.filter f l ++ [x].
Proof. intros H. rewrite List.filter_app. cbn. by rewrite H. Qed.

Lemma quietly_call_handler w done d e : w ≠ Some o → quietly (call_handler w done d e).
Proof.
  intros Hw. apply quietly_modify. intros s. unfold view, calls_of. cbn [handler_calls set_handler_calls].
  rewrite filter_snoc_out; [done|]. unfold is_of. cbn. by apply bool_decide_eq_false_2.
Qed.

Lemma quietly_syscall w c : w ≠ Some o → quietly (syscall w c).
Proof.
  intros Hw s a s' [= <- <-]. unfold view, moved. cbn [syscalls set_syscalls].
  rewrite filter_snoc_out; [done|]. unfold is_of. cbn. by apply bool_decide_eq_false_2.
Qed.
End Life.
End Track.

(** The steps that an operation does not see. *)
Create HintDb io_quiet.
#[export] Hint Resolve quietly_ret quietly_get quietly_fail quietly_try_opt quietly_get_op quietly_get_channel quietly_get_entry
  quietly_get_stream quietly_get_disk quietly_get_barrier quietly_modify_channel quietly_modify_entry : io_quiet.
Ltac quiet_step :=
  lazymatch goal with
  | |- quietly _ (mbind _ _) => apply quietly_bind; [|intros ?]
  | |- quietly _ (whenM _ _) => apply quietly_when
  | |- quietly _ (if ?b then _ else _) => destruct b
  | |- quietly _ (match ?b with _ => _ end) => destruct b
  | |- quietly _ (let _ := _ in _) => cbv zeta
  | |- quietly _ (modify_op _ _) => apply quietly_modify_op; first [by left|by right]
  | |- quietly _ (modify_stream _ _) => first [by apply quietly_modify_stream | by auto with io_quiet]
  | |- quietly _ (modify_disk _ _) => by apply quietly_modify_disk
  | |- quietly _ (modifyS _) => by apply quietly_modify
  | |- quietly _ (syscall None _) => by apply quietly_syscall
  | |- quietly _ _ => by auto with io_quiet
  end.
Ltac quiet_steps := repeat (quiet_step; cbv beta).

Section Quiet.
Context {D : DataApi} {K : IoKernel}.
Variable o : nat.

Lemma quietly_read_flags c : quietly o (read_flags c).
Proof. unfold read_flags. quiet_steps. Qed.
Hint Resolve quietly_read_flags : io_quiet.

Lemma quietly_get_error op c b : quietly o (_dispatch_io_get_error op c b).
Proof. unfold _dispatch_io_get_error. quiet_steps. Qed.
Hint Resolve quietly_get_error : io_quiet.

Lemma quietly_op_error i : quietly o (op_error i).
Proof. unfold op_error. quiet_steps. Qed.

Lemma quietly_open e c : quietly o (_dispatch_fd_entry_open e c).
Proof. unfold _dispatch_fd_entry_open. quiet_steps. Qed.

Lemma quietly_handle_error i e : quietly o (_dispatch_operation_handle_error i e).
Proof. unfold _dispatch_operation_handle_error. quiet_steps. Qed.
End Quiet.
#[export] Hint Resolve quietly_read_flags quietly_get_error quietly_op_error quietly_open quietly_handle_error : io_quiet.
