(* ===== verification/IoOp.v ===== *)
(** * Performing and delivering, for one operation

    Every step on the operation [o] keeps [life]: a buffer has room for what is
    asked of the kernel, what is moved is accounted for, and what is
    delivered leaves the operation. *)

From S2P Require Import Prelude Io IoStream IoDisk IoTrack.

(** ** Lists with a length in [Z] *)

Section Lists.
Context {A : Type}.
Implicit Types (l : list A).

Lemma zlen_nonneg l : 0 ≤ zlen l.
Proof. unfold zlen. lia. Qed.
Lemma zlen_app l l' : zlen (l ++ l') = zlen l + zlen l'.
Proof. unfold zlen. rewrite length_app. lia. Qed.
Lemma zlen_zero l : zlen l = 0 → l = [].
Proof. unfold zlen. destruct l; cbn; [done|lia]. Qed.
Lemma zlen_take n l : 0 ≤ n ≤ zlen l → zlen (take (Z.to_nat n) l) = n.
Proof. unfold zlen. rewrite length_take. lia. Qed.
Lemma zlen_drop n l : 0 ≤ n ≤ zlen l → zlen (drop (Z.to_nat n) l) = zlen l - n.
Proof. unfold zlen. rewrite length_drop. lia. Qed.
Lemma take_all n l : zlen l ≤ n → take (Z.to_nat n) l = l.
Proof. unfold zlen. intros. apply take_ge. lia. Qed.

End Lists.

(** Writing [n] bytes of a buffer, the first [siz] bytes of [l], from [k] on. *)
Lemma write_split k n siz (l : list Z) :
  0 ≤ k → 0 ≤ n → k + n ≤ siz → siz ≤ zlen l →
  take (Z.to_nat n) (sub_bytes k (siz - k) (take (Z.to_nat siz) l)) ++ drop (Z.to_nat (k + n)) l = drop (Z.to_nat k) l.
Proof.
  intros. unfold sub_bytes. rewrite take_take, Nat.min_l by lia. rewrite skipn_firstn_comm, take_take, Nat.min_l by lia.
  replace (Z.to_nat (k + n)) with (Z.to_nat k + Z.to_nat n)%nat by lia. rewrite <- drop_drop. apply take_drop.
Qed.
Section Op.
Context {D : DataApi} {DL : DataApiLaws} {K : IoKernel} {KL : IoKernelLaws}.

(** ** Buffers *)

Lemma u64_small x : 0 ≤ x ≤ SIZE_MAX → u64 x = x.
Proof. intros. apply wrapU_small. consts. lia. Qed.

Lemma read_buf_siz_ok d W mv x :
  direction x = DOP_DIR_READ → op_wf W mv x → buf x = None →
  0 ≤ read_buf_siz d x ≤ high (params x) - zlen (d_bytes (op_data x)) ∧
  (op_length x < SIZE_MAX → zlen mv + read_buf_siz d x ≤ op_length x).
Proof.
  intros Hd [Hh Hl _ Ht Hr _] Hb. destruct (Hr Hd) as [Hr1 Hr2]. rewrite Hb in Hr1. unfold room in Hr2. rewrite Hb in Hr2.
  pose proof (zlen_nonneg (d_bytes (op_data x))). pose proof (zlen_nonneg mv). unfold read_buf_siz. cbv zeta.
  set (max0 := if d_size (op_data x) =? 0 then _ else _).
  assert (Hmax : max0 = high (params x) - zlen (d_bytes (op_data x))).
  { unfold max0, d_size. destruct (Z.eqb_spec (zlen (d_bytes (op_data x))) 0); [lia|]. apply u64_small. lia. }
  pose proof (wrapU_range 64 (chunk_pages d * PAGE_SIZE) ltac:(lia)). set (chunk := u64 (chunk_pages d * PAGE_SIZE)) in *.
  destruct (Z.ltb_spec chunk max0); (destruct (Z.ltb_spec (op_length x) SIZE_MAX); cbv iota; [|split; [lia|intros; lia]]);
    specialize (Hr2 ltac:(done)); rewrite Ht, (u64_small (zlen mv)), u64_small by lia;
    match goal with |- context [?a <? ?b] => destruct (Z.ltb_spec a b) end; lia.
Qed.

Lemma write_regions_ok chunk siz l :
  0 ≤ siz → siz + zlen (concat l) ≤ SIZE_MAX → siz ≤ write_regions chunk siz l ≤ siz + zlen (concat l).
Proof.
  revert siz. induction l as [|r l IH]; intros siz H0 Hs; cbn [write_regions concat] in *; [unfold zlen in *; cbn; lia|].
  rewrite zlen_app in *. pose proof (zlen_nonneg r). pose proof (zlen_nonneg (concat l)). rewrite u64_small by lia.
  set (siz' := if (siz =? 0) || (siz + zlen r <=? chunk) then siz + zlen r else siz).
  assert (siz ≤ siz' ≤ siz + zlen r) by (unfold siz'; destruct (_ || _); lia).
  destruct (_ <? chunk); [|lia]. specialize (IH siz'). lia.
Qed.

Lemma write_buf_siz_ok d W mv x :
  direction x = DOP_DIR_WRITE → op_wf W mv x → 0 ≤ write_buf_siz d x ≤ zlen (d_bytes (op_data x)).
Proof.
  intros Hd [Hh _ _ _ _ Hw]. destruct (Hw Hd) as (_ & ? & ?). unfold write_buf_siz. cbv zeta.
  pose proof (zlen_nonneg (d_bytes (op_data x))).
  match goal with |- context [write_regions ?c 0 ?l] =>
    pose proof (write_regions_ok c 0 l) as Hrg; set (siz := write_regions c 0 l) in * end.
  change (concat (d_regions (op_data x))) with (d_bytes (op_data x)) in Hrg.
  assert (2 ^ 63 ≤ SIZE_MAX) by (consts; lia). specialize (Hrg ltac:(lia) ltac:(lia)).
  destruct (Z.ltb_spec (high (params x)) siz); lia.
Qed.

(** ** One operation *)

Section Own.
Variables (o : nat) (dir : dispatch_op_direction_t) (P : dispatch_io_param_s) (W : list Z).
Local Abbreviation life := (life o dir P W).
Local Abbreviation live := (live o dir P W).

(** The operation is replaced. *)
Lemma life_put s x x' :
  life s → operations s !! o = Some x →
  (live x s → params x' = params x ∧ direction x' = direction x ∧ fd_entry x' = fd_entry x ∧ op_wf W (moved o s) x' ∧
              balanced W x' (moved o s) (delivered o s)) →
  life (set_operations (<[o := x']> (operations s)) s).
Proof.
  intros [Hn H] Hx Hx'. split; [exact Hn|]. cbn [operations set_operations]. rewrite lookup_insert_eq.
  rewrite Hx in H. destruct (Hx' H) as (E1 & E2 & E3 & Hw & B). destruct H as (HP & Hd & Hf & _ & Hc & _).
  split_and!; [congruence|congruence|congruence|done|done|done].
Qed.

Lemma wlp_get_op (Q : dispatch_operation_s → io_state → Prop) s :
  (∀ x, operations s !! o = Some x → Q x s) → wlp (get_op o) Q s.
Proof. intros H a s' E. apply (get_at _ operations) in E as [-> E]. by apply H. Qed.

Lemma wlp_modify_op f (Q : unit → io_state → Prop) s :
  (∀ x, operations s !! o = Some x → Q tt (set_operations (<[o := f x]> (operations s)) s)) → wlp (modify_op o f) Q s.
Proof. intros H. apply wlp_bind, wlp_get_op. intros x Hx. by apply wlp_modify, H. Qed.

(** The size that the code asks [valloc] for again is not smaller: the buffer is
    below one and a half times the larger of itself and a page. *)
Lemma valloc_never_shrinks siz :
  4 ≤ PAGE_SIZE → 0 ≤ siz ≤ 2 ^ 63 → siz < u64 (Z.max siz PAGE_SIZE / 2 * 3).
Proof.
  intros Hp Hs. pose proof page_size_range. rewrite u64_small by (consts; Z.div_mod_to_equations; lia).
  Z.div_mod_to_equations. lia.
Qed.

Lemma make_buffer_own : pres o dir P W (make_buffer o).
Proof.
  intros s Hl. unfold make_buffer. apply wlp_bind, wlp_get, wlp_bind, wlp_get_op. intros x Hx.
  destruct (buf x) as [b|] eqn:Hb; [by apply wlp_ret|].
  destruct (direction x) eqn:Hd; apply wlp_modify_op; intros y Hy; rewrite Hx in Hy; injection Hy as <-;
    apply (life_put s x); try done; intros (_ & _ & _ & Hw & _ & B); (split_and!; [done|done|done| |]).
  - destruct (read_buf_siz_ok (defaults s) W (moved o s) x Hd Hw Hb) as [H1 H2]. destruct Hw as [Hh Hlen Hbuf Ht Hr Hwr].
    unfold buffer_ok in Hbuf. rewrite Hb in Hbuf. destruct Hbuf as [Hz _].
    pose proof (zlen_nonneg (d_bytes (op_data x))).
    split; cbn; try done.
    + unfold buffer_ok. cbn. rewrite Hd, Hz. split_and!; try done; lia.
    + intros _. split; [lia|]. unfold room. cbn. rewrite Hz. intros. rewrite Z.sub_0_r. by apply H2.
  - unfold balanced, undelivered_bytes in *. cbn. rewrite Hd in *. by rewrite Hb in B.
  - pose proof (write_buf_siz_ok (defaults s) W (moved o s) x Hd Hw) as H1. destruct Hw as [Hh Hlen Hbuf Ht Hr Hwr].
    destruct (Hwr Hd) as (HW & Hl1 & Hl2). unfold buffer_ok in Hbuf. rewrite Hb in Hbuf. destruct Hbuf as [Hz _].
    assert (Hsub : d_bytes (d_subrange (op_data x) 0 (write_buf_siz (defaults s) x)) =
                   take (Z.to_nat (write_buf_siz (defaults s) x)) (d_bytes (op_data x))).
    { rewrite d_bytes_subrange by lia. done. }
    split; cbn; try done.
    + unfold buffer_ok. cbn. rewrite Hd, Hz, Hsub. split_and!; try done; try (consts; lia). apply zlen_take. lia.
    + intros. congruence.
  - unfold balanced, unwritten in *. cbn. by rewrite Hd in *.
Qed.

(** A system call of the operation, and what is done with its result. *)
Lemma moved_syscall s c r :
  moved o (set_syscalls (syscalls s ++ [IoEvent (Some o) c r]) s) = moved o s ++ ev_moved (IoEvent (Some o) c r).
Proof.
  unfold moved. cbn [syscalls set_syscalls]. rewrite filter_snoc_in by (unfold is_of; cbn; by apply bool_decide_eq_true_2).
  rewrite fmap_app, concat_app. cbn. by rewrite app_nil_r.
Qed.

Lemma life_syscall s c r :
  life s → ev_moved (IoEvent (Some o) c r) = [] → life (set_syscalls (syscalls s ++ [IoEvent (Some o) c r]) s).
Proof.
  intros Hl E. apply (life_view o dir P W s); [|done]. unfold view. rewrite moved_syscall, E, app_nil_r. done.
Qed.

End Own.

(** [n] bytes were moved, and the buffer holds [b] afterwards. *)
Definition processed (n : Z) (b : list Z) (x : dispatch_operation_s) : dispatch_operation_s :=
  put_buf (Some b) (put_buf_len (u64 (buf_len x + n)) (put_total (u64 (total x + n)) x)).

Lemma total_more mv n : u64 (u64 mv + n) = u64 (mv + n).
Proof. unfold wrapU. by rewrite Zplus_mod_idemp_l. Qed.

Lemma wf_read_more W x b l mv dl :
  direction x = DOP_DIR_READ → buf x = Some b → op_wf W mv x → balanced W x mv dl → zlen l ≤ buf_siz x - buf_len x →
  op_wf W (mv ++ l) (processed (zlen l) (b ++ l) x) ∧ balanced W (processed (zlen l) (b ++ l) x) (mv ++ l) dl.
Proof.
  intros Hd Hb [Hh Hlen Hbuf Ht Hr Hw] B Hl. pose proof (zlen_nonneg l).
  unfold buffer_ok in Hbuf. rewrite Hb, Hd in Hbuf. destruct Hbuf as (H1 & H2 & H3).
  destruct (Hr Hd) as [H4 H5]. rewrite Hb in H4. unfold room in H5. rewrite Hb in H5.
  split.
  - split; cbn; try done.
    + unfold buffer_ok. cbn. rewrite Hd, zlen_app, u64_small by lia. split_and!; lia.
    + by rewrite Ht, total_more, zlen_app.
    + intros _. split; [lia|]. unfold room. cbn. intros Hs. specialize (H5 Hs). rewrite zlen_app, u64_small by lia. lia.
  - unfold balanced, undelivered_bytes in *. cbn. rewrite Hd in *. rewrite Hb in B. cbn in B. by rewrite B, !app_assoc.
Qed.

Lemma wf_write_more W x b n mv dl :
  direction x = DOP_DIR_WRITE → buf x = Some b → op_wf W mv x → balanced W x mv dl → 0 ≤ n ≤ buf_siz x - buf_len x →
  let l := take (Z.to_nat n) (sub_bytes (buf_len x) (buf_siz x - buf_len x) b) in
  op_wf W (mv ++ l) (processed n b x) ∧ balanced W (processed n b x) (mv ++ l) dl.
Proof.
  intros Hd Hb [Hh Hlen Hbuf Ht Hr Hw] B Hn l.
  unfold buffer_ok in Hbuf. rewrite Hb, Hd in Hbuf. destruct Hbuf as (H1 & H2 & H3 & H4 & H5).
  destruct (Hw Hd) as (H6 & H7 & H8).
  assert (Hsiz : buf_siz x ≤ zlen (d_bytes (op_data x))).
  { rewrite H4 in H5. unfold zlen in *. rewrite length_take in H5. lia. }
  assert (Hl : zlen l = n).
  { unfold l, sub_bytes, zlen in *. rewrite !length_take, length_drop. lia. }
  split.
  - split; cbn; try done.
    + unfold buffer_ok. cbn. rewrite Hd, u64_small by lia. split_and!; try done; lia.
    + by rewrite Ht, total_more, zlen_app, Hl.
    + intros. congruence.
  - unfold balanced, unwritten in *. cbn. rewrite Hd in *. rewrite u64_small by lia. rewrite <- B, <- app_assoc. f_equal.
    unfold l. rewrite H4. apply write_split; lia.
Qed.

Section Own.
Variables (o : nat) (dir : dispatch_op_direction_t) (P : dispatch_io_param_s) (W : list Z).
Local Abbreviation life := (life o dir P W).
Local Abbreviation live := (live o dir P W).

(** The state after a system call that moved [l], once the operation knows. *)
Lemma life_processed s x x' c r l :
  life s → operations s !! o = Some x → ev_moved (IoEvent (Some o) c r) = l →
  params x' = params x → direction x' = direction x → fd_entry x' = fd_entry x →
  (op_wf W (moved o s) x → balanced W x (moved o s) (delivered o s) →
   op_wf W (moved o s ++ l) x' ∧ balanced W x' (moved o s ++ l) (delivered o s)) →
  let s1 := set_syscalls (syscalls s ++ [IoEvent (Some o) c r]) s in
  life (set_operations (<[o := x']> (operations s1)) s1).
Proof.
  intros [Hn H] Hx El Ep Ed Ef Hx' s1. split; [exact Hn|]. cbn [operations set_operations]. rewrite lookup_insert_eq.
  rewrite Hx in H. destruct H as (HP & Hd & Hf & Hw & Hc & B). destruct (Hx' Hw B) as [Hw' B'].
  assert (Em : moved o s1 = moved o s ++ l) by (unfold s1; by rewrite moved_syscall, El).
  split_and!; [congruence|congruence|congruence| |done|].
  - change (op_wf W (moved o s1) x'). by rewrite Em.
  - change (balanced W x' (moved o s1) (delivered o s)). by rewrite Em.
Qed.

Lemma op_processed_own s n b Q :
  (n = 0 → wlp (A := op_result) (mret DISPATCH_OP_DELIVER_AND_COMPLETE) (λ _, life) s) →
  (∀ x, n ≠ 0 → operations s !! o = Some x → life (set_operations (<[o := processed n b x]> (operations s)) s)) →
  (∀ s', life s' → Q s') → wlp (op_processed o n b) (λ _, Q) s.
Proof.
  intros H0 H1 HQ. unfold op_processed. destruct (Z.eqb_spec n 0) as [->|Hn].
  - intros a s' E. by apply HQ, (H0 eq_refl a).
  - apply wlp_bind, wlp_modify_op. intros x Hx. apply wlp_bind, wlp_get_op. intros y Hy. apply wlp_ret, HQ. by apply H1.
Qed.

Definition transfer (fe : nat) : IOM op_result :=
  x ← get_op o;
  f ← get_entry fe;
  b ← try_opt "op->buf" (buf x);
  r ← syscall (Some o) (op_syscall x (fd f) b);
  match r with
  | IoError e => _dispatch_operation_handle_error o e
  | IoBytes l => op_processed o (zlen l) (b ++ l)
  | IoCount n => op_processed o n b
  end.

Lemma transfer_own fe : pres o dir P W (transfer fe).
Proof.
  intros s Hl. unfold transfer. apply wlp_bind, wlp_get_op. intros x Hx. apply wlp_bind.
  intros f s0 E. apply (get_at _ fd_entries) in E as [-> _]. apply wlp_bind, wlp_try_opt. intros b Hb. apply wlp_bind.
  intros r s1 [= <- <-]. set (c := op_syscall x (fd f) b). set (r := io_answer (syscalls s) c).
  pose proof Hl as [_ Hlive]. rewrite Hx in Hlive. destruct Hlive as (_ & Hd & _ & Hw & _ & _).
  pose proof (wf_buffer _ _ _ Hw) as Hbuf. unfold buffer_ok in Hbuf. rewrite Hb in Hbuf. destruct Hbuf as (H1 & H2 & _).
  assert (Hlen : u64 (buf_siz x - buf_len x) = buf_siz x - buf_len x) by (apply u64_small; lia).
  assert (Hc : match direction x with
               | DOP_DIR_READ => ∃ off, c = Sys_read (fd f) (buf_siz x - buf_len x) ∨ c = Sys_pread (fd f) (buf_siz x - buf_len x) off
               | DOP_DIR_WRITE => ∃ off, c = Sys_write (fd f) (sub_bytes (buf_len x) (buf_siz x - buf_len x) b) ∨
                                         c = Sys_pwrite (fd f) (sub_bytes (buf_len x) (buf_siz x - buf_len x) b) off
               end).
  { unfold c, op_syscall. rewrite Hlen. destruct (direction x), (io_type (params x)); exists (wrapS 64 (offset x + total x)); eauto. }
  destruct r as [e|l|n] eqn:Er.
  - apply (quietly_pres o dir P W (_dispatch_operation_handle_error o e)); [auto with io_quiet|]. apply life_syscall; [done|].
    unfold ev_moved. cbn. by destruct c.
  - destruct (answer_read _ _ _ Er) as (fd' & len & off & Hread & Hlen').
    destruct (direction x) eqn:Ed; [|destruct Hc as (off' & [E|E]); destruct Hread; congruence].
    assert (Hmv : ev_moved (IoEvent (Some o) c (IoBytes l)) = l) by (unfold ev_moved; cbn; by destruct Hread as [-> | ->]).
    assert (Hfit : zlen l ≤ buf_siz x - buf_len x) by (assert (len = buf_siz x - buf_len x) by (destruct Hc as (off' & [E|E]), Hread as [E'|E']; congruence); lia).
    apply (op_processed_own _ _ _ life); [|intros y Hnz Hy|done].
    + intros Hz. apply wlp_ret, life_syscall; [done|]. rewrite Hmv. by apply zlen_zero.
    + change (operations s !! o = Some y) in Hy. rewrite Hx in Hy. injection Hy as <-.
      apply (life_processed s x _ c _ l); [done..|]. intros Hw' B. by apply wf_read_more.
  - pose proof (answer_write _ _ _ Er) as Hn. destruct (direction x) eqn:Ed.
    { by destruct Hc as (off & [E|E]); rewrite E in Hn. }
    assert (Hfit : 0 ≤ n ≤ buf_siz x - buf_len x).
    { assert (Hz : zlen (sub_bytes (buf_len x) (buf_siz x - buf_len x) b) ≤ buf_siz x - buf_len x).
      { unfold sub_bytes, zlen. rewrite length_take. lia. }
      destruct Hc as (off & [E|E]); rewrite E in Hn; lia. }
    assert (Hmv : ev_moved (IoEvent (Some o) c (IoCount n)) =
                  take (Z.to_nat n) (sub_bytes (buf_len x) (buf_siz x - buf_len x) b)).
    { unfold ev_moved. cbn. by destruct Hc as (off & [-> | ->]). }
    apply (op_processed_own _ _ _ life); [|intros y Hnz Hy|done].
    + intros ->. apply wlp_ret, life_syscall; [done|]. by rewrite Hmv.
    + change (operations s !! o = Some y) in Hy. rewrite Hx in Hy. injection Hy as <-.
      apply (life_processed s x _ c _ (take (Z.to_nat n) (sub_bytes (buf_len x) (buf_siz x - buf_len x) b))); [done|done|exact Hmv|done|done|done|]. intros Hw' B. by apply wf_write_more.
Qed.

Lemma perform_own : pres o dir P W (_dispatch_operation_perform o).
Proof.
  unfold _dispatch_operation_perform. apply pres_bind; [apply quietly_pres; auto with io_quiet|intros e].
  destruct (negb (e =? 0)); [apply quietly_pres; auto with io_quiet|].
  apply pres_bind; [apply make_buffer_own|intros []]. apply pres_bind; [apply quietly_pres; auto with io_quiet|intros x].
  apply pres_bind; [apply quietly_pres; auto with io_quiet|intros fe].
  apply pres_bind; [apply quietly_pres; auto with io_quiet|intros f].
  apply pres_bind; [apply quietly_pres; destruct (_ =? _); auto with io_quiet|intros e'].
  destruct (negb (e' =? 0)); [apply quietly_pres; auto with io_quiet|]. exact (transfer_own fe).
Qed.
End Own.
End Op.

(** ** The delivery of data *)

Section Deliver.
Context {D : DataApi} {DL : DataApiLaws} {K : IoKernel} {KL : IoKernelLaws}.

Lemma sub_bytes_rest k n l : 0 ≤ k → zlen l ≤ n → sub_bytes k n l = drop (Z.to_nat k) l.
Proof. intros. unfold sub_bytes. apply take_ge. unfold zlen in *. rewrite length_drop. lia. Qed.

Lemma deliver_read_spec W mv x deliver d x' :
  direction x = DOP_DIR_READ → op_wf W mv x → deliver_read deliver x = (d, x') →
  d_bytes d = undelivered_bytes x ∧ zlen (d_bytes d) ≤ high (params x) ∧ params x' = params x ∧ direction x' = direction x ∧ fd_entry x' = fd_entry x ∧
  op_wf W mv x' ∧ undelivered_bytes x' = (if deliver then [] else undelivered_bytes x).
Proof.
  intros Hd [Hh Hlen Hbuf Ht Hr Hw]. destruct (Hr Hd) as [H4 H5]. unfold deliver_read.
  unfold buffer_ok in Hbuf. unfold undelivered_bytes, room in *. pose proof (zlen_nonneg (d_bytes (op_data x))).
  destruct (Z.eqb_spec (buf_len x) 0) as [E0|E0]; cbn [negb].
  - intros [= <- <-]. assert (Eb : default [] (buf x) = []).
    { destruct (buf x) as [b|] eqn:Hb; [|done]. rewrite ?Hb, Hd in Hbuf. destruct Hbuf as (? & ? & ?). cbn. apply zlen_zero. lia. }
    assert (zlen (d_bytes (op_data x)) ≤ high (params x)).
    { clear Hr H5. destruct (buf x) as [b|]; cbv iota in *; [rewrite Hd in Hbuf; destruct Hbuf as (? & ? & ?)|]; lia. }
    cbn. rewrite Eb, app_nil_r. split_and!; try done.
    + split; cbn; try done.
      * unfold buffer_ok. cbn. by rewrite Hd in *.
      * intros _. split; [|exact H5]. destruct deliver; [|done]. rewrite d_bytes_empty. change (zlen []) with 0. lia.
      * intros. congruence.
    + destruct deliver; rewrite ?Eb, ?app_nil_r; [apply d_bytes_empty|done].
  - destruct (buf x) as [b|] eqn:Hb; [|lia]. rewrite Hd in Hbuf. destruct Hbuf as (H1 & H2 & H3). intros [= <- <-].
    cbn [default]. rewrite d_bytes_concat, d_bytes_create, take_all by lia. cbn in H4.
    assert (Hlen' : zlen (d_bytes (op_data x) ++ b) ≤ high (params x)) by (rewrite zlen_app; lia).
    cbn. split_and!; try done.
    + split; cbn; try done.
      * unfold buffer_ok. cbn. by rewrite Hd.
      * intros _. split; [|unfold room; cbn; intros Hs; specialize (H5 Hs); lia].
        destruct deliver; [rewrite d_bytes_empty; change (zlen []) with 0; lia|].
        rewrite d_bytes_concat, d_bytes_create, zlen_app. rewrite zlen_app in Hlen'. lia.
      * intros. congruence.
    + rewrite app_nil_r. destruct deliver; [apply d_bytes_empty|]. by rewrite d_bytes_concat, d_bytes_create.
Qed.

Lemma deliver_write_spec W mv x deliver d x' :
  direction x = DOP_DIR_WRITE → op_wf W mv x → deliver_write deliver x = (d, x') →
  (deliver = true → ∃ d0, d = Some d0 ∧ d_bytes d0 = unwritten x) ∧ params x' = params x ∧ direction x' = direction x ∧ fd_entry x' = fd_entry x ∧
  op_wf W mv x' ∧ unwritten x' = unwritten x.
Proof.
  intros Hd [Hh Hlen Hbuf Ht Hr Hw]. destruct (Hw Hd) as (H6 & H7 & H8). unfold deliver_write, unwritten.
  unfold buffer_ok in Hbuf. pose proof (zlen_nonneg (d_bytes (op_data x))).
  assert (Hk : 0 ≤ buf_len x ≤ zlen (d_bytes (op_data x))).
  { destruct (buf x) as [b|]; [|lia]. rewrite Hd in Hbuf. destruct Hbuf as (H1 & H2 & _ & H4 & H5).
    rewrite H4 in H5. unfold zlen in *. rewrite length_take in H5. lia. }
  assert (Hrest : d_bytes (d_subrange (op_data x) (buf_len x) (op_length x)) = drop (Z.to_nat (buf_len x)) (d_bytes (op_data x))).
  { rewrite d_bytes_subrange by (consts; lia). apply sub_bytes_rest; lia. }
  set (d1 := if deliver then Some _ else None).
  assert (Hd1 : deliver = true → ∃ d0, d1 = Some d0 ∧ d_bytes d0 = drop (Z.to_nat (buf_len x)) (d_bytes (op_data x))).
  { intros ->. unfold d1. eauto. }
  destruct (_ && _) eqn:E; intros [= <- <-].
  - apply andb_true_iff in E as [_ E%Z.eqb_eq]. set (rest := default _ d1).
    assert (Er : d_bytes rest = drop (Z.to_nat (buf_len x)) (d_bytes (op_data x))).
    { unfold rest, d1. destruct deliver; cbn; [done|]. by rewrite <- E. }
    cbn. split_and!; try done.
    split; cbn; try done.
    + intros ?; congruence.
    + intros _. rewrite Er. unfold zlen in *. rewrite length_drop. lia.
  - split_and!; done.
Qed.

(** ** One operation *)

Section Own.
Variables (o : nat) (dir : dispatch_op_direction_t) (P : dispatch_io_param_s) (W : list Z).
Local Abbreviation life := (life o dir P W).

(** A call of the handler is added. *)
Definition called (done : bool) (d : option data) (e : Z) (s : io_state) : io_state :=
  set_handler_calls (handler_calls s ++ [HC (Some o) done d e]) s.

Lemma calls_of_called done d e s : calls_of o (called done d e s) = calls_of o s ++ [HC (Some o) done d e].
Proof. unfold calls_of, called. cbn [handler_calls set_handler_calls]. apply filter_snoc_in. unfold is_of. cbn. by apply bool_decide_eq_true_2. Qed.

Lemma delivered_called done d e s : delivered o (called done d e s) = delivered o s ++ default [] (d_bytes <$> d).
Proof. unfold delivered. rewrite calls_of_called, fmap_app, concat_app. cbn. by rewrite app_nil_r. Qed.

(** The operation after the data was taken: [d] leaves it, if it is delivered. *)
Record taken (deliver : bool) (d : option data) (s : io_state) : Prop := {
  tk_start : no_start o s;
  tk_calls : Forall (partial_call dir P) (calls_of o s);
  tk_op : ∃ x, operations s !! o = Some x ∧ params x = P ∧ direction x = dir ∧ is_Some (fd_entry x) ∧ op_wf W (moved o s) x ∧
    (deliver = false → balanced W x (moved o s) (delivered o s)) ∧
    (deliver = true → ∃ d0, d = Some d0 ∧ within dir P (HC (Some o) false d 0) ∧
       match dir with
       | DOP_DIR_READ => moved o s = delivered o s ++ d_bytes d0 ∧ undelivered_bytes x = []
       | DOP_DIR_WRITE => moved o s ++ d_bytes d0 = W ∧ balanced W x (moved o s) (delivered o s)
       end)
}.

Lemma take_spec deliver s x :
  life s → operations s !! o = Some x →
  let '(d, x') :=
    match direction x with
    | DOP_DIR_READ => let '(d, x') := deliver_read deliver x in (Some d, x')
    | DOP_DIR_WRITE => deliver_write deliver x
    end in
  taken deliver d (set_operations (<[o := x']> (operations s)) s).
Proof.
  intros [Hn H] Hx. rewrite Hx in H. destruct H as (HP & Hd & Hf & Hw & Hc & B). unfold balanced in B.
  destruct (direction x) eqn:Ed.
  - destruct (deliver_read deliver x) as [d x'] eqn:E.
    destruct (deliver_read_spec W _ x deliver d x' Ed Hw E) as (E1 & E2 & E3 & E4 & Ef & Hw' & E5).
    split; [done|done|]. exists x'. cbn [operations set_operations]. rewrite lookup_insert_eq.
    split_and!; [done|congruence|congruence|congruence|done| |].
    + intros ->. unfold balanced. rewrite E4, Ed, E5. exact B.
    + intros ->. exists d. split; [done|]. split; [intros _; unfold hc_bytes; cbn; congruence|]. rewrite <- Hd.
      split; [rewrite E1; exact B|done].
  - destruct (deliver_write deliver x) as [d x'] eqn:E.
    destruct (deliver_write_spec W _ x deliver d x' Ed Hw E) as (E1 & E3 & E4 & Ef & Hw' & E5).
    assert (B' : balanced W x' (moved o s) (delivered o s)) by (unfold balanced; rewrite E4, Ed, E5; exact B).
    split; [done|done|]. exists x'. cbn [operations set_operations]. rewrite lookup_insert_eq.
    split_and!; [done|congruence|congruence|congruence|done| |].
    + done.
    + intros ->. destruct (E1 eq_refl) as (d0 & -> & Ed0). exists d0. split; [done|]. split; [intros ?; congruence|]. rewrite <- Hd.
      split; [rewrite Ed0; exact B|done].
Qed.
Lemma taken_view deliver d s s' : view o s' = view o s → taken deliver d s → taken deliver d s'.
Proof.
  intros E [Hs Hc Ho]. injection E as E1 E2 E3 E4 E5 E6. split.
  - unfold no_start in *. by rewrite E4, E5, E6.
  - by rewrite E3.
  - destruct Ho as (x & Hx & HP & Hd & Hf & Hw & Hb & Ht). rewrite Hx in E1. cbn [fmap option_fmap option_map] in E1.
    destruct (operations s' !! o) as [x'|]; [|done]. apply (inj Some) in E1 as E. pose proof E as E'.
    injection E' as F1 F2 F3 F4 F5 F6 F7 F8 F9 F10. exists x'. unfold delivered. rewrite E2, E3. split; [done|].
    refine (conj (eq_trans F1 HP) (conj (eq_trans F2 Hd) _)). rewrite F10.
    split_and!; [done|by apply (op_wf_acct _ _ x)|intros; by apply (balanced_acct _ _ _ x), Hb|].
    intros Hdl. destruct (Ht Hdl) as (d0 & E0 & Hin & Hrest). exists d0. split_and!; [done..|]. revert Hrest.
    destruct dir; [unfold undelivered_bytes; by rewrite F4, F9|]. intros [? ?]. split; [done|]. by apply (balanced_acct _ _ _ x).
Qed.

(** It is finished: its handler was told. *)
Definition finished (s : io_state) : Prop := no_start o s ∧ gone o dir P W s.

Lemma call_partial d e s : taken true (Some d) s → life (called false (Some d) e s).
Proof.
  intros [Hs Hc (x & Hx & HP & Hd & Hf & Hw & _ & Ht)]. destruct (Ht eq_refl) as (d0 & Ed & Hin & Hrest). injection Ed as <-.
  split; [done|]. change (operations (called false (Some d) e s)) with (operations s). rewrite Hx. split_and!; try done.
  - rewrite calls_of_called. apply Forall_app. split; [done|]. apply Forall_singleton. by split.
  - change (moved o (called false (Some d) e s)) with (moved o s). rewrite delivered_called.
    unfold balanced. rewrite Hd. destruct dir; destruct Hrest as [E1 E2]; [by rewrite E2, E1, app_nil_r|].
    unfold balanced in E2. by rewrite Hd in E2.
Qed.

Lemma call_final d e s :
  no_start o s → Forall (partial_call dir P) (calls_of o s) →
  final_call dir P W (moved o s) (delivered o s ++ default [] (d_bytes <$> d)) (HC (Some o) true d e) → finished (called true d e s).
Proof.
  intros Hs Hc Hf. split; [done|]. exists (calls_of o s), (HC (Some o) true d e). rewrite calls_of_called, delivered_called. done.
Qed.

Lemma deliver_block_done dir' d e s :
  dir' = dir → taken true (Some d) s → wlp (deliver_block o dir' true d e) (λ _, finished) s.
Proof.
  intros Edir Htk. pose proof (call_partial d 0 s Htk) as Hl. destruct Htk as [Hs Hc (x & Hx & HP & Hd & Hf & Hw & _ & Ht)].
  destruct (Ht eq_refl) as (d0 & Ed & Hin & Hrest). injection Ed as <-.
  assert (Hnil : within dir P (HC (Some o) true None e)).
  { intros _. pose proof (wf_high _ _ _ Hw) as Hh. rewrite HP in Hh. change (0 ≤ high P). lia. }
  destruct dir'; rewrite <- Edir in Hrest; destruct Hrest as [E _]; unfold deliver_block;
    destruct (Z.eqb_spec e 0) as [->|He]; cbn [negb].
  - apply wlp_modify, call_final; [done..|]. split_and!; [done|exact Hin|]. rewrite <- Edir. by rewrite E.
  - assert (Hfin : ∀ s', no_start o s' → Forall (partial_call dir P) (calls_of o s') → moved o s' = delivered o s' →
                   wlp (call_handler (Some o) true None e) (λ _, finished) s').
    { intros s' Hs' Hc' E'. apply wlp_modify, call_final; [done..|]. split_and!; [done|exact Hnil|]. rewrite <- Edir.
      rewrite app_nil_r. split; [done|]. split; [by intros _|done]. }
    apply wlp_bind. destruct (Z.eqb_spec (d_size d) 0) as [Hz|Hz]; cbn [negb whenM].
    + apply wlp_ret, Hfin; [done..|]. apply zlen_zero in Hz. by rewrite E, Hz, app_nil_r.
    + apply wlp_modify, Hfin; [done| |].
      * destruct Hl as [_ Hl]. change (operations (called false (Some d) 0 s)) with (operations s) in Hl. rewrite Hx in Hl.
        by destruct Hl as (_ & _ & _ & _ & Hc' & _).
      * change (moved o (called false (Some d) 0 s) = delivered o (called false (Some d) 0 s)). by rewrite delivered_called.
  - apply wlp_modify, call_final; [done..|]. split_and!; [done|exact Hnil|]. by rewrite <- Edir.
  - apply wlp_modify, call_final; [done..|]. split_and!; [done|exact Hin|]. by rewrite <- Edir.
Qed.

Lemma flags_lor x a b : has x (Z.lor a b) = has x a || has x b.
Proof.
  unfold has. rewrite Z.land_lor_distr_r. destruct (Z.eqb_spec (Z.lor (Z.land x a) (Z.land x b)) 0) as [E|E].
  - apply Z.lor_eq_0_iff in E as [-> ->]. done.
  - destruct (Z.eqb_spec (Z.land x a) 0) as [Ea|], (Z.eqb_spec (Z.land x b) 0) as [Eb|]; try done. by rewrite Ea, Eb in E.
Qed.

(** What the operation does not see keeps each of them. *)
Lemma quietly_wlp {A} (m : IOM A) (Q : io_state → Prop) s :
  (∀ s s', view o s' = view o s → Q s → Q s') → quietly o m → Q s → wlp m (λ _, Q) s.
Proof. intros Hv Hm HQ a s' E. apply (Hv s); [by apply (Hm s a)|done]. Qed.

Lemma taken_life d s : taken true (Some d) s → d_bytes d = [] → life s.
Proof.
  intros [Hs Hc (x & Hx & HP & Hd & Hf & Hw & _ & Ht)] E. destruct (Ht eq_refl) as (d0 & Ed & Hin & Hrest). injection Ed as <-.
  split; [done|]. rewrite Hx. split_and!; try done. destruct dir; destruct Hrest as [E1 E2]; [|done].
  unfold balanced. rewrite Hd, E2, E1, E. done.
Qed.

(** The last part of [_dispatch_operation_deliver_data]. *)
Definition deliver_end (dir' : dispatch_op_direction_t) (fl : Z) (deliver : bool) (d : option data) (und e : Z) : IOM unit :=
  if negb deliver || (has fl DOP_NO_EMPTY && (default 0 (d_size <$> d) =? 0)) then modify_op o (put_undelivered und)
  else
    modify_op o (put_undelivered 0);;
    d ← try_opt "data" d;
    deliver_block o dir' (has fl DOP_DONE) d e.

Definition outcome_of (fl : Z) : io_state → Prop := if has fl DOP_DONE then finished else life.

Lemma deliver_end_own fl deliver d und e s :
  (has fl DOP_DONE = true → deliver = true ∧ has fl DOP_NO_EMPTY = false) → taken deliver d s →
  wlp (deliver_end dir fl deliver d und e) (λ _, outcome_of fl) s.
Proof.
  intros Hfl Htk. unfold deliver_end. destruct deliver; cbn [negb orb].
  - destruct (tk_op _ _ _ Htk) as (x & _ & _ & _ & _ & _ & _ & Ht). destruct (Ht eq_refl) as (d0 & -> & _). clear Ht x.
    cbn [default fmap option_fmap option_map].
    destruct (has fl DOP_NO_EMPTY && _) eqn:Ene.
    + apply andb_true_iff in Ene as [Hne Hz%Z.eqb_eq]. unfold outcome_of.
      destruct (has fl DOP_DONE) eqn:Ed; [destruct (Hfl eq_refl); congruence|].
      apply quietly_wlp; [intros ? ?; apply life_view|quiet_steps|]. apply (taken_life d0); [done|by apply zlen_zero].
    + apply wlp_bind. eapply wlp_mono; [apply (quietly_wlp _ (taken true (Some d0))); [apply taken_view|quiet_steps|done]|].
      intros [] s1 Htk1. apply wlp_bind, wlp_try_opt. intros d1 Ed1. injection Ed1 as <-. unfold outcome_of.
      destruct (has fl DOP_DONE); [by apply deliver_block_done|]. cbn [deliver_block].
      apply wlp_modify. by apply call_partial.
  - unfold outcome_of. destruct (has fl DOP_DONE) eqn:Ed; [by destruct (Hfl eq_refl)|].
    apply quietly_wlp; [intros ? ?; apply life_view|quiet_steps|].
    destruct Htk as [Hs Hc (x & Hx & HP & Hd & Hf & Hw & B & _)]. split; [done|]. rewrite Hx. split_and!; try done. by apply B.
Qed.

Lemma deliver_own_gen fl s :
  (has fl DOP_DONE = true → has fl DOP_NO_EMPTY = false) → life s →
  wlp (_dispatch_operation_deliver_data o fl) (λ _, outcome_of fl) s.
Proof.
  intros Hfl Hl. unfold _dispatch_operation_deliver_data. apply wlp_bind, wlp_get_op. intros x0 _. cbv zeta.
  set (forced := has fl (Z.lor DOP_DELIVER DOP_DONE) || has (op_flags x0) DOP_DELIVER). set (und := u64 _).
  set (deliver := forced || (low (params x0) <=? und)).
  assert (Hdone : has fl DOP_DONE = true → deliver = true).
  { intros E. unfold deliver, forced. by rewrite flags_lor, E, orb_true_r. }
  apply wlp_bind. eapply wlp_mono; [apply (quietly_wlp _ life); [intros ? ?; apply life_view|quiet_steps|done]|].
  intros [] s1 Hl1. destruct (negb forced && negb (low (params x0) <=? und) && _) eqn:Eret.
  { apply wlp_ret. unfold outcome_of. destruct (has fl DOP_DONE) eqn:Ed; [|done].
    specialize (Hdone eq_refl). unfold deliver in Hdone. destruct forced, (low (params x0) <=? und); done. }
  apply wlp_bind. eapply wlp_mono; [apply (quietly_wlp _ life); [intros ? ?; apply life_view|destruct forced; quiet_steps|done]|].
  intros e s2 Hl2. apply wlp_bind, wlp_get_op. intros x Hx. pose proof (take_spec deliver s2 x Hl2 Hx) as Htk.
  assert (Hd : direction x = dir) by (destruct Hl2 as [_ Hl2]; rewrite Hx in Hl2; by destruct Hl2 as (_ & ? & _)).
  destruct (match direction x with DOP_DIR_READ => _ | DOP_DIR_WRITE => _ end) as [d x'].
  apply wlp_bind, wlp_modify_op. intros y Hy. rewrite Hx in Hy. injection Hy as <-. rewrite Hd.
  apply (deliver_end_own fl deliver d und e); [|done]. intros E. split; auto.
Qed.

Lemma deliver_own fl : has fl DOP_DONE = false → pres o dir P W (_dispatch_operation_deliver_data o fl).
Proof.
  intros E s Hl. pose proof (deliver_own_gen fl s ltac:(congruence) Hl) as H. unfold outcome_of in H. by rewrite E in H.
Qed.

(** The last reference. *)
Lemma dispose_own : pres o dir P W (_dispatch_operation_dispose o).
Proof.
  intros s Hl. unfold _dispatch_operation_dispose. apply wlp_bind, wlp_get_op. intros x Hx.
  assert (Hf : is_Some (fd_entry x)) by (destruct Hl as [_ Hl]; rewrite Hx in Hl; by destruct Hl as (_ & _ & ? & _)).
  destruct Hf as [e ->]. apply wlp_bind, wlp_bind.
  eapply wlp_mono; [apply (deliver_own_gen DOP_DONE); [done|done]|]. intros [] s1 Hfin.
  change (outcome_of DOP_DONE s1) with (finished s1) in Hfin.
  eapply wlp_mono; [apply (quietly_wlp _ finished); [|apply quietly_modify_entry|done]|].
  { intros s2 s3 E. injection E as E1 E2 E3 E4 E5 E6. unfold finished, no_start, gone, delivered. by rewrite E2, E3, E4, E5, E6. }
  intros [] s2 [Hn Hg]. apply wlp_modify. split; [done|]. cbn [operations set_operations]. by rewrite lookup_delete_eq.
Qed.

Lemma release_own : pres o dir P W (_dispatch_release o).
Proof.
  unfold _dispatch_release. apply pres_bind; [apply quietly_pres; auto with io_quiet|intros x].
  apply pres_bind; [apply quietly_pres; quiet_steps|intros []].
  destruct (0 <=? ref_cnt x - 1); [apply quietly_pres; auto with io_quiet|apply dispose_own].
Qed.
End Own.
End Deliver.
