(* ===== verification/IoLife.v ===== *)
(** * The steps of dispatch I/O and one operation

    Every entry point and every block keeps [life], if it is not the block that
    starts the operation: the operation keeps its own steps ([IoOp]), and
    does not see those of the others. *)

From S2P Require Import Prelude Io IoStream IoDisk IoTrack IoOp.

(** ** Another operation *)

Section Other.
Context {D : DataApi} {K : IoKernel}.
Variables (o i : nat).
Hypothesis Hne : i ≠ o.

Lemma other_modify f : quietly o (modify_op i f).
Proof. apply quietly_modify_op. by left. Qed.
Lemma other_handler done d e : quietly o (call_handler (Some i) done d e).
Proof. apply quietly_call_handler. congruence. Qed.
Lemma other_syscall c : quietly o (syscall (Some i) c).
Proof. apply quietly_syscall. congruence. Qed.
Hint Resolve other_modify other_handler other_syscall : io_quiet.

Lemma other_deliver_block dir done d e : quietly o (deliver_block i dir done d e).
Proof. unfold deliver_block. quiet_steps. Qed.
Hint Resolve other_deliver_block : io_quiet.

Lemma other_deliver fl : quietly o (_dispatch_operation_deliver_data i fl).
Proof. unfold _dispatch_operation_deliver_data. quiet_steps. Qed.
Hint Resolve other_deliver : io_quiet.

Lemma other_dispose : quietly o (_dispatch_operation_dispose i).
Proof.
  unfold _dispatch_operation_dispose. quiet_steps. apply quietly_modify. intros s. unfold view.
  cbn [operations set_operations barriers streams disks]. by rewrite lookup_delete_ne.
Qed.
Hint Resolve other_dispose : io_quiet.

Lemma other_release : quietly o (_dispatch_release i).
Proof. unfold _dispatch_release. quiet_steps. Qed.

Lemma other_perform : quietly o (_dispatch_operation_perform i).
Proof. unfold _dispatch_operation_perform, make_buffer, op_processed. quiet_steps. Qed.
End Other.

Section Life.
Context {D : DataApi} {DL : DataApiLaws} {K : IoKernel} {KL : IoKernelLaws}.
Variables (o : nat) (dir : dispatch_op_direction_t) (P : dispatch_io_param_s) (W : list Z).
Local Abbreviation pres := (pres o dir P W).

(** ** Any operation *)

Lemma pres_perform i : pres (_dispatch_operation_perform i).
Proof. destruct (decide (i = o)) as [->|]; [apply perform_own|by apply quietly_pres, other_perform]. Qed.
Lemma pres_deliver i fl : has fl DOP_DONE = false → pres (_dispatch_operation_deliver_data i fl).
Proof. intros. destruct (decide (i = o)) as [->|]; [by apply deliver_own|by apply quietly_pres, other_deliver]. Qed.
Lemma pres_release i : pres (_dispatch_release i).
Proof. destruct (decide (i = o)) as [->|]; [apply release_own|by apply quietly_pres, other_release]. Qed.

(** ** Blocks that wait *)

Lemma pres_async_barrier q b : (∀ d, b ≠ BB_enqueue o d) → pres (async_barrier q b).
Proof.
  intros Hb s [[H1 H23] Hl] a s'. unfold async_barrier, mbind at 1, M_bind at 1.
  destruct (get_barrier q s) as [l s1|] eqn:E; [|done]. apply (get_at _ barriers) in E as [-> E]. intros [= <- <-].
  split; [|exact Hl]. split; [|exact H23]. intros q' l' d. cbn [barriers set_barriers].
  destruct (decide (q' = q)) as [->|]; [|by rewrite lookup_insert_ne by done; apply H1].
  rewrite lookup_insert_eq. intros [= <-]. rewrite elem_of_app, list_elem_of_singleton. intros [Hin|<-]; [by apply (H1 q l d)|by destruct (Hb d)].
Qed.

Lemma no_start_stream s i x x' :
  no_start o s → streams s !! i = Some x → (∀ d, SB_enqueue o d ∈ dq x' → SB_enqueue o d ∈ dq x) →
  no_start o (set_streams (<[i := x']> (streams s)) s).
Proof.
  intros (H1 & H2 & H3) Hx Hi. split_and!; [exact H1| |exact H3]. intros j l d. cbn [streams set_streams]. rewrite fmap_insert.
  destruct (decide (j = i)) as [->|]; [|by rewrite lookup_insert_ne by done; apply H2].
  rewrite lookup_insert_eq. intros [= <-] Hin. apply (H2 i (dq x) d); [by rewrite lookup_fmap, Hx|by apply Hi].
Qed.

Lemma no_start_disk s i x x' :
  no_start o s → disks s !! i = Some x → (∀ d, DB_enqueue o d ∈ pick_q x' → DB_enqueue o d ∈ pick_q x) →
  no_start o (set_disks (<[i := x']> (disks s)) s).
Proof.
  intros (H1 & H2 & H3) Hx Hi. split_and!; [exact H1|exact H2|]. intros j l d. cbn [disks set_disks]. rewrite fmap_insert.
  destruct (decide (j = i)) as [->|]; [|by rewrite lookup_insert_ne by done; apply H3].
  rewrite lookup_insert_eq. intros [= <-] Hin. apply (H3 i (pick_q x) d); [by rewrite lookup_fmap, Hx|by apply Hi].
Qed.

Lemma pres_modify_stream i f :
  (∀ x d, SB_enqueue o d ∈ dq (f x) → SB_enqueue o d ∈ dq x) → pres (modify_stream i f).
Proof.
  intros Hf s [Hn Hl] a s'. unfold modify_stream, mbind at 1, M_bind at 1.
  destruct (get_stream i s) as [x s1|] eqn:E; [|done]. apply (get_at _ streams) in E as [-> E]. intros [= <- <-].
  split; [|exact Hl]. apply (no_start_stream s i x); [done..|apply Hf].
Qed.

Lemma pres_modify_disk i f :
  (∀ x d, DB_enqueue o d ∈ pick_q (f x) → DB_enqueue o d ∈ pick_q x) → pres (modify_disk i f).
Proof.
  intros Hf s [Hn Hl] a s'. unfold modify_disk, mbind at 1, M_bind at 1.
  destruct (get_disk i s) as [x s1|] eqn:E; [|done]. apply (get_at _ disks) in E as [-> E]. intros [= <- <-].
  split; [|exact Hl]. apply (no_start_disk s i x); [done..|apply Hf].
Qed.

Lemma pres_async_stream i b : (∀ d, b ≠ SB_enqueue o d) → pres (async_stream i b).
Proof.
  intros Hb. apply pres_modify_stream. intros x d. cbn. rewrite elem_of_app, list_elem_of_singleton.
  intros [?|<-]; [done|by destruct (Hb d)].
Qed.
Lemma pres_async_pick i b : (∀ d, b ≠ DB_enqueue o d) → pres (async_pick i b).
Proof.
  intros Hb. apply pres_modify_disk. intros x d. cbn. rewrite elem_of_app, list_elem_of_singleton.
  intros [?|<-]; [done|by destruct (Hb d)].
Qed.
End Life.

(** The steps that keep it. *)
Create HintDb io_pres.
#[export] Hint Resolve pres_perform pres_release : io_pres.
Ltac pres_step :=
  lazymatch goal with
  | |- pres _ _ _ _ (mbind _ _) => apply pres_bind; [|intros ?]
  | |- pres _ _ _ _ (whenM _ _) => apply pres_when
  | |- pres _ _ _ _ (if ?b then _ else _) => destruct b
  | |- pres _ _ _ _ (match ?b with _ => _ end) => destruct b
  | |- pres _ _ _ _ (let _ := _ in _) => cbv zeta
  | |- pres _ _ _ _ (_dispatch_operation_deliver_data _ _) => by apply pres_deliver
  | |- pres _ _ _ _ (async_barrier _ _) => apply pres_async_barrier; congruence
  | |- pres _ _ _ _ (async_stream _ _) => apply pres_async_stream; congruence
  | |- pres _ _ _ _ (async_pick _ _) => apply pres_async_pick; congruence
  | |- pres _ _ _ _ _ => first [by auto with io_pres | apply quietly_pres; by quiet_steps]
  end.
Ltac pres_steps := repeat (pres_step; cbv beta).

Section Functions.
Context {D : DataApi} {DL : DataApiLaws} {K : IoKernel} {KL : IoKernelLaws}.
Variables (o : nat) (dir : dispatch_op_direction_t) (P : dispatch_io_param_s) (W : list Z).
Local Abbreviation pres := (pres o dir P W).

(** ** Streams *)

Lemma dq_put_op_list t l x : dq (put_op_list t l x) = dq x.
Proof. by destruct t. Qed.

Lemma quietly_put_op_list i t f : quietly o (modify_stream i (λ x, put_op_list t (f x) x)).
Proof. apply quietly_modify_stream. intros x. apply dq_put_op_list. Qed.
Lemma quietly_set_op_list i t l : quietly o (modify_stream i (put_op_list t l)).
Proof. apply (quietly_put_op_list i t (λ _, l)). Qed.
Lemma quietly_tailq_remove x l : quietly o (tailq_remove x l).
Proof. unfold tailq_remove. quiet_steps. Qed.
Lemma quietly_insert_tail x l : quietly o (tailq_insert_tail x l).
Proof. unfold tailq_insert_tail. quiet_steps. Qed.
Hint Resolve quietly_put_op_list quietly_set_op_list quietly_tailq_remove quietly_insert_tail : io_quiet.

Lemma quietly_pick_next i op : quietly o (_dispatch_stream_pick_next_operation i op).
Proof. unfold _dispatch_stream_pick_next_operation. quiet_steps. Qed.
Lemma quietly_suspend i : quietly o (source_suspend i).
Proof. unfold source_suspend. quiet_steps. Qed.
Lemma quietly_resume i : quietly o (source_resume i).
Proof. unfold source_resume. quiet_steps. Qed.
Lemma quietly_source i n : quietly o (_dispatch_stream_source i n).
Proof. unfold _dispatch_stream_source. quiet_steps. Qed.
Lemma quietly_cancel_timer i : quietly o (cancel_timer i).
Proof. unfold cancel_timer. quiet_steps. Qed.
Lemma quietly_avail i : quietly o (stream_avail i).
Proof. unfold stream_avail. quiet_steps. Qed.
Lemma quietly_pick_fuel i : quietly o (pick_fuel i).
Proof. unfold pick_fuel. quiet_steps. Qed.
Hint Resolve quietly_pick_next quietly_suspend quietly_resume quietly_source quietly_cancel_timer quietly_avail quietly_pick_fuel : io_quiet.

Lemma pres_stream_complete i n : pres (_dispatch_stream_complete_operation i n).
Proof. unfold _dispatch_stream_complete_operation. pres_steps. Qed.
Hint Resolve pres_stream_complete : io_pres.

Lemma pres_stream_cleanup_list i c l : pres (stream_cleanup_list i c l).
Proof. induction l; cbn [stream_cleanup_list]; pres_steps. Qed.
Hint Resolve pres_stream_cleanup_list : io_pres.

Lemma pres_stream_cleanup i c : pres (_dispatch_stream_cleanup_operations i c).
Proof. unfold _dispatch_stream_cleanup_operations. pres_steps. Qed.
Hint Resolve pres_stream_cleanup : io_pres.

Lemma pres_stream_pick n i : pres (stream_pick n i).
Proof. induction n; cbn [stream_pick]; pres_steps. Qed.
Hint Resolve pres_stream_pick : io_pres.

Lemma pres_stream_handler i : pres (_dispatch_stream_handler i).
Proof. unfold _dispatch_stream_handler. pres_steps. Qed.
Hint Resolve pres_stream_handler : io_pres.

Lemma pres_stream_result i n r : pres (stream_result i n r).
Proof. unfold stream_result. pres_steps. Qed.
Hint Resolve pres_stream_result : io_pres.

Lemma pres_stream_end i : pres (stream_end i).
Proof. unfold stream_end. pres_steps. Qed.
Hint Resolve pres_stream_end : io_pres.

Lemma pres_source_event i : pres (source_event i).
Proof. unfold source_event, _dispatch_stream_source_handler. pres_steps. Qed.

Lemma pres_should_enqueue i d : i ≠ o → pres (_dispatch_operation_should_enqueue i d).
Proof. intros. unfold _dispatch_operation_should_enqueue. pres_steps. Qed.
Hint Resolve pres_should_enqueue : io_pres.

Lemma pres_stream_enqueue i n d : n ≠ o → pres (_dispatch_stream_enqueue_operation i n d).
Proof. intros. unfold _dispatch_stream_enqueue_operation. pres_steps. Qed.
Hint Resolve pres_stream_enqueue : io_pres.

(** ** Disks *)

Lemma quietly_disk_insert i n : quietly o (disk_insert i n).
Proof. unfold disk_insert. quiet_steps. Qed.
Hint Resolve quietly_disk_insert : io_quiet.

Lemma quietly_pick_inactive a l : quietly o (pick_inactive a l).
Proof. induction l; cbn [pick_inactive]; quiet_steps. Qed.
Hint Resolve quietly_pick_inactive : io_quiet.
Lemma quietly_disk_pick i : quietly o (_dispatch_disk_pick_next_operation i).
Proof. unfold _dispatch_disk_pick_next_operation. quiet_steps. Qed.
Lemma quietly_ring k x : quietly o (ring k x).
Proof. unfold ring. quiet_steps. Qed.
Lemma quietly_retain i : quietly o (_dispatch_retain i).
Proof. unfold _dispatch_retain. quiet_steps. Qed.
Hint Resolve quietly_disk_pick quietly_ring quietly_retain : io_quiet.

Lemma pres_disk_complete i n : pres (_dispatch_disk_complete_operation i n).
Proof. unfold _dispatch_disk_complete_operation. pres_steps. Qed.
Hint Resolve pres_disk_complete : io_pres.

Lemma pres_disk_cleanup_from n i c x : pres (disk_cleanup_from n i c x).
Proof. revert x. induction n; intros [x|]; cbn [disk_cleanup_from]; pres_steps. Qed.
Hint Resolve pres_disk_cleanup_from : io_pres.

Lemma pres_disk_cleanup i c : pres (_dispatch_disk_cleanup_operations i c).
Proof. unfold _dispatch_disk_cleanup_operations. pres_steps. Qed.
Hint Resolve pres_disk_cleanup : io_pres.

Lemma pres_fill_ring n i k j : pres (fill_ring n i k j).
Proof. revert k. induction n; intros k; cbn [fill_ring]; pres_steps. Qed.
Hint Resolve pres_fill_ring : io_pres.

Lemma pres_disk_handler i : pres (_dispatch_disk_handler i).
Proof. unfold _dispatch_disk_handler. pres_steps. Qed.
Hint Resolve pres_disk_handler : io_pres.

Lemma pres_disk_enqueue i n d : n ≠ o → pres (_dispatch_disk_enqueue_operation i n d).
Proof. intros. unfold _dispatch_disk_enqueue_operation. pres_steps. Qed.
Hint Resolve pres_disk_enqueue : io_pres.

Lemma pres_advise_ring n i k j : pres (advise_ring n i k j).
Proof. revert k. induction n; intros k; cbn [advise_ring]; pres_steps. Qed.
Hint Resolve pres_advise_ring : io_pres.

Lemma pres_perform_turn i : pres (perform_turn i).
Proof. unfold perform_turn, disk_end, _dispatch_disk_perform. pres_steps. Qed.

Lemma pres_disk_performed i n r : pres (disk_performed i n r).
Proof. unfold disk_performed. pres_steps. Qed.
Hint Resolve pres_disk_performed : io_pres.
End Functions.
#[export] Hint Resolve pres_stream_handler pres_stream_cleanup pres_stream_end pres_disk_cleanup pres_disk_performed pres_stream_enqueue
  pres_disk_enqueue pres_source_event pres_perform_turn : io_pres.

(** ** Channels and queues *)

Section Turns.
Context {D : DataApi} {DL : DataApiLaws} {K : IoKernel} {KL : IoKernelLaws}.
Variables (o : nat) (dir : dispatch_op_direction_t) (P : dispatch_io_param_s) (W : list Z).
Local Abbreviation life := (life o dir P W).
Local Abbreviation pres := (pres o dir P W).

Lemma pres_timer i : pres (_dispatch_operation_timer i).
Proof.
  unfold _dispatch_operation_timer. pres_step; [pres_step|]. destruct (bool_decide _); [pres_step|]. cbv zeta.
  destruct (has (interval_flags _) _); pres_steps.
Qed.

Lemma pres_entry_cleanup e c : pres (_dispatch_fd_entry_cleanup_operations e c).
Proof. unfold _dispatch_fd_entry_cleanup_operations. pres_steps. Qed.
Hint Resolve pres_entry_cleanup : io_pres.

Lemma quietly_find_entry n : quietly o (find_entry n).
Proof. unfold find_entry. quiet_steps. Qed.
Hint Resolve quietly_find_entry : io_quiet.

Lemma pres_stop_block c : pres (io_stop_block c).
Proof. unfold io_stop_block. pres_steps. Qed.
Lemma pres_close_block c : pres (io_close_block c).
Proof. unfold io_close_block. pres_steps. Qed.
Lemma pres_close c fl : pres (dispatch_io_close c fl).
Proof. unfold dispatch_io_close, _dispatch_io_stop, io_stop_push. pres_steps. Qed.
Lemma pres_stopped c : pres (io_stopped c).
Proof. unfold io_stopped, io_stop_push. pres_steps. Qed.
Hint Resolve pres_stop_block pres_close_block : io_pres.

Lemma pres_op_enqueue i d : i ≠ o → pres (_dispatch_operation_enqueue i d).
Proof.
  intros. unfold _dispatch_operation_enqueue. repeat (pres_step || (apply quietly_pres, quietly_call_handler; congruence)).
Qed.

Lemma pres_submit d c off len x i : i ≠ o → pres (submit d c off len x i).
Proof.
  intros. unfold submit, _dispatch_operation_create. pres_steps. apply quietly_pres, quietly_modify. intros s. unfold view.
  cbn [operations set_operations barriers streams disks]. by rewrite lookup_insert_ne.
Qed.

Lemma pres_barrier_block q b : (∀ d, b ≠ BB_enqueue o d) → pres (run_barrier_block q b).
Proof.
  intros Hb. destruct b as [i d|e d| | | |]; cbn [run_barrier_block].
  - apply pres_op_enqueue. intros ->. by apply (Hb d).
  - by apply quietly_pres, quietly_call_handler.
  - auto with io_pres.
  - auto with io_pres.
  - auto with io_pres.
  - by apply quietly_pres, quietly_modify.
Qed.

Lemma pres_io_barrier c b : pres (dispatch_io_barrier c b).
Proof. unfold dispatch_io_barrier. pres_steps. Qed.
Lemma pres_notify q : pres (barrier_notify q).
Proof. unfold barrier_notify. pres_steps. Qed.

Lemma pres_stream_block i b : (∀ d, b ≠ SB_enqueue o d) → pres (run_stream_block i b).
Proof.
  intros Hb. destruct b as [n d| |]; cbn [run_stream_block]; [|auto with io_pres..].
  apply pres_stream_enqueue. intros ->. by apply (Hb d).
Qed.

Lemma pres_disk_block i b : (∀ d, b ≠ DB_enqueue o d) → pres (run_disk_block i b).
Proof.
  intros Hb. destruct b as [n d| |]; cbn [run_disk_block]; [|auto with io_pres..].
  apply pres_disk_enqueue. intros ->. by apply (Hb d).
Qed.

Lemma pres_barrier_turn q : pres (barrier_turn q).
Proof.
  intros s Hl. unfold barrier_turn. apply wlp_bind. intros l s1 E. apply (get_at _ barriers) in E as [-> E].
  apply wlp_bind, wlp_get. destruct l as [|b l]; [by apply wlp_ret|]. destruct (barrier_waits s !! q); [by apply wlp_ret|].
  apply wlp_bind, wlp_modify. destruct Hl as [(H1 & H2 & H3) Hl].
  apply pres_barrier_block; [intros d ->; apply (H1 q _ d E); by left|]. split; [|exact Hl]. split_and!; [|exact H2|exact H3].
  intros q' l' d. cbn [barriers set_barriers].
  destruct (decide (q' = q)) as [->|]; [|by rewrite lookup_insert_ne by done; apply H1].
  rewrite lookup_insert_eq. intros [= <-] Hin. apply (H1 q _ d E). by right.
Qed.

Lemma pres_stream_turn i : pres (stream_turn i).
Proof.
  intros s Hl. unfold stream_turn. apply wlp_bind. intros x s1 E. apply (get_at _ streams) in E as [-> E].
  destruct (st_turn x); [by apply pres_stream_end|]. destruct (dq x) as [|b l] eqn:Eq; [by apply wlp_ret|].
  apply wlp_bind. intros [] s1 E1. unfold modify_stream, mbind, M_bind in E1.
  destruct (get_stream i s) as [y s2|] eqn:E2; [|done]. apply (get_at _ streams) in E2 as [-> E2]. injection E1 as <-.
  rewrite E in E2. injection E2 as <-. destruct Hl as [Hn Hl]. apply pres_stream_block.
  - intros d ->. destruct Hn as (_ & H2 & _). apply (H2 i (dq x) d); [by rewrite lookup_fmap, E|]. rewrite Eq. by left.
  - split; [|exact Hl]. apply (no_start_stream o s i x); [done..|]. intros d. cbn. rewrite Eq. by right.
Qed.

Lemma pres_pick_turn i : pres (pick_turn i).
Proof.
  intros s Hl. unfold pick_turn. apply wlp_bind. intros x s1 E. apply (get_at _ disks) in E as [-> E].
  destruct (pick_q x) as [|b l] eqn:Eq; [by apply wlp_ret|].
  apply wlp_bind. intros [] s1 E1. unfold modify_disk, mbind, M_bind in E1.
  destruct (get_disk i s) as [y s2|] eqn:E2; [|done]. apply (get_at _ disks) in E2 as [-> E2]. injection E1 as <-.
  rewrite E in E2. injection E2 as <-. destruct Hl as [Hn Hl]. apply pres_disk_block.
  - intros d ->. destruct Hn as (_ & _ & H3). apply (H3 i (pick_q x) d); [by rewrite lookup_fmap, E|]. rewrite Eq. by left.
  - split; [|exact Hl]. apply (no_start_disk o s i x); [done..|]. intros d. cbn. rewrite Eq. by right.
Qed.

Lemma pres_exec c : makes o c = false → pres (io_exec c).
Proof.
  destruct c; cbn [makes io_exec]; intros Hm; 
    unfold _dispatch_iocntl, dispatch_io_set_high_water, dispatch_io_set_low_water, dispatch_io_set_interval;
    try (apply quietly_pres; solve [quiet_steps]).
  - apply pres_submit. apply bool_decide_eq_false in Hm. congruence.
  - apply pres_submit. apply bool_decide_eq_false in Hm. congruence.
  - apply pres_close.
  - apply pres_stopped.
  - apply pres_io_barrier.
  - apply pres_notify.
  - apply pres_barrier_turn.
  - apply pres_stream_turn.
  - apply pres_source_event.
  - apply pres_timer.
  - apply pres_pick_turn.
  - apply pres_perform_turn.
Qed.

Lemma pres_exec_all cs : Forall (λ c, makes o c = false) cs → pres (io_exec_all cs).
Proof.
  induction 1 as [|c cs Hc _ IH]; cbn [io_exec_all]; [apply quietly_pres, quietly_ret|].
  apply pres_bind; [by apply pres_exec|by intros []].
Qed.
End Turns.
