(* ===== verification/IoModel.v ===== *)
(** * A kernel and data objects, to run dispatch I/O

    Data objects as lists of regions; a file of a few bytes, of which a write
    takes at most three bytes; and the state in which two stream channels share
    a descriptor; and runs in which the code does something else than the comments
    or the callers expect. *)

From S2P Require Import Prelude Io IoStream IoDisk IoTrack.

Definition list_data : DataApi := {|
  data := list (list Z);
  d_regions := List.filter (λ r, negb (zlen r =? 0));
  d_empty := [];
  d_create := λ l, [l];
  d_concat := app;
  d_subrange := λ d off len, [sub_bytes off len (concat d)]
|}.
#[export] Existing Instance list_data.

Lemma list_data_bytes (d : data) : d_bytes d = concat d.
Proof.
  unfold d_bytes. induction d as [|r d IH]; [done|]. cbn. destruct r as [|x r]; [exact IH|].
  change (zlen (x :: r) =? 0) with false. cbn. f_equal. f_equal. exact IH.
Qed.

#[export] Instance list_data_laws : DataApiLaws.
Proof.
  split.
  - intros d r Hr. apply list_elem_of_In, filter_In in Hr as [_ Hr]. by destruct r.
  - done.
  - intros l. rewrite list_data_bytes. apply app_nil_r.
  - intros d1 d2. rewrite !list_data_bytes. apply concat_app.
  - intros d off len _ _ _. rewrite !list_data_bytes. apply app_nil_r.
Qed.

(** The bytes that were read so far. *)
Definition position (cs : list io_event) : nat :=
  list_sum ((λ e, match ev_result e with IoBytes l => length l | _ => O end) <$> cs).

Definition count_of (c : io_syscall) (most : Z) : io_result :=
  match c with Sys_write _ l | Sys_pwrite _ l _ => IoCount (Z.min most (zlen l)) | _ => IoCount 7 end.
Definition read_from (c : io_syscall) (l : list Z) : option io_result :=
  match c with Sys_read _ n | Sys_pread _ n _ => Some (IoBytes (take (Z.to_nat n) l)) | _ => None end.

(** A file of the bytes [l]; other threads stop a channel as [stops] says. *)
Definition file_kernel (l : list Z) (stops : nat → nat → bool) : IoKernel := {|
  PAGE_SIZE := 4;
  EAGAIN := 11;
  EBADF := 9;
  ECANCELED := 125;
  io_answer := λ cs c, default (count_of c 3) (read_from c (drop (position cs) l));
  io_stops := stops;
  io_opened := λ _, None
|}.

(** One byte, and then the descriptor would block. *)
Definition pipe_kernel : IoKernel := {|
  PAGE_SIZE := 4;
  EAGAIN := 11;
  EBADF := 9;
  ECANCELED := 125;
  io_answer := λ cs c,
    match cs with [] => default (count_of c 1) (read_from c [7]) | _ => IoError 11 end;
  io_stops := λ _ _, false;
  io_opened := λ _, None
|}.

(** Every call fails: the descriptor is not open. *)
Definition closed_kernel : IoKernel := {|
  PAGE_SIZE := 4;
  EAGAIN := 11;
  EBADF := 9;
  ECANCELED := 125;
  io_answer := λ _ _, IoError 9;
  io_stops := λ _ _, false;
  io_opened := λ _, None
|}.

Lemma read_from_spec c l r :
  read_from c l = Some r →
  ∃ b fd len off, r = IoBytes b ∧ (c = Sys_read fd len ∨ c = Sys_pread fd len off) ∧ (0 ≤ len → zlen b ≤ len).
Proof.
  assert (Hfit : ∀ n, 0 ≤ n → zlen (take (Z.to_nat n) l) ≤ n) by (intros; unfold zlen; rewrite length_take; lia).
  destruct c as [| |fd n|fd n off| |]; try done; intros [= <-]; [exists (take (Z.to_nat n) l), fd, n, 0|exists (take (Z.to_nat n) l), fd, n, off]; auto 6.
Qed.

Lemma count_of_spec c most n :
  0 ≤ most → read_from c [] = None → count_of c most = IoCount n →
  match c with Sys_write _ l | Sys_pwrite _ l _ => 0 ≤ n ≤ zlen l | Sys_read _ _ | Sys_pread _ _ _ => False | _ => True end.
Proof.
  intros Hm Hr. destruct c as [| | | |fd b|fd b off]; try done; intros [= <-]; unfold zlen; lia.
Qed.

Lemma answer_laws c l most (r : io_result) :
  0 ≤ most → r = default (count_of c most) (read_from c l) →
  (∀ e, r ≠ IoError e) ∧
  (∀ b, r = IoBytes b → ∃ fd len off, (c = Sys_read fd len ∨ c = Sys_pread fd len off) ∧ (0 ≤ len → zlen b ≤ len)) ∧
  (∀ n, r = IoCount n → match c with Sys_write _ l | Sys_pwrite _ l _ => 0 ≤ n ≤ zlen l | Sys_read _ _ | Sys_pread _ _ _ => False | _ => True end).
Proof.
  intros Hm. destruct (read_from c l) as [r'|] eqn:E; cbn [default]; intros ->.
  - apply read_from_spec in E as (b & fd & len & off & -> & Hc & Hb). split_and!; [done| |done].
    intros ? [= <-]. by exists fd, len, off.
  - split_and!; [by destruct c|by destruct c|]. intros n. apply count_of_spec; [done|by destruct c].
Qed.

#[export] Instance file_kernel_laws l stops : IoKernelLaws (K := file_kernel l stops).
Proof.
  split; [done|done| | |]; intros cs c r E; destruct (answer_laws c (drop (position cs) l) 3 _ ltac:(done) eq_refl) as (H1 & H2 & H3).
  - by apply H1 in E.
  - by apply H2.
  - by apply H3.
Qed.

#[export] Instance pipe_kernel_laws : IoKernelLaws (K := pipe_kernel).
Proof.
  split; [done|done| | |]; intros [|? ?] c r E; try (injection E as <-; done); try discriminate E;
    destruct (answer_laws c [7] 1 _ ltac:(done) eq_refl) as (H1 & H2 & H3); [by apply H1 in E|by apply H2|by apply H3].
Qed.

#[export] Instance closed_kernel_laws : IoKernelLaws (K := closed_kernel).
Proof. split; [done|done| | |]; intros cs c r E; try discriminate E. by injection E as <-. Qed.

(** ** The state *)

(** Two stream channels on the descriptor 5. *)
Definition two_channels (dk : option nat) : io_state :=
  let c := Channel (IoParams DISPATCH_IO_STREAM 2 3 0 0) (Some 1%nat) 1 1 0 5 5 0 0 in
  IO ∅ (list_to_map [(1%nat, c); (2%nat, c)])
     (list_to_map [(1%nat, FdEntry 5 false 0 dk 1 2 None 1 0 [])])
     (list_to_map [(1%nat, Stream [] None None None false [] []); (2%nat, Stream [] None None None false [] [])])
     (list_to_map [(1%nat, _dispatch_disk_init dispatch_io_defaults)])
     (list_to_map [(1%nat, [])]) dispatch_io_defaults [] 0 [] ∅ [].

(** ** [DISPATCH_IOCNTL_INITIAL_DELIVERY] *)

(** It falls through to the next case, and sets the length of the rings as
    well. *)
Lemma initial_delivery_sets_requests `{DataApi} `{IoKernel} v s :
  _dispatch_iocntl 3 v s =
  Ok tt (set_defaults (IoDefaults (chunk_pages (defaults s)) (low_water_chunks (defaults s)) v (negb (v =? 0))) s).
Proof. reflexivity. Qed.

(** To switch the initial delivery off makes the disks that are created later
    divide by zero. *)
Definition off_disk {D : DataApi} {K : IoKernel} : IOM unit :=
  _dispatch_iocntl 3 0;;
  s ← getS;
  modifyS (set_disks (<[1%nat := _dispatch_disk_init (defaults s)]> (disks s)));;
  _dispatch_disk_handler 1.

Lemma initial_delivery_off_faults : off_disk (K := pipe_kernel) (two_channels None) = Fault (UB "division by zero").
Proof. vm_compute. reflexivity. Qed.

(** ** A stop during a system call of a stream *)

(** The channel is stopped while its operation reads, and an operation of another
    channel comes: after the read, a block of the handler waits behind the cleanup
    and the new operation.  The cleanup empties the stream, so that the operation
    pushes a second block.  Each of them finds that the descriptor would block and
    resumes the source, which is suspended only once. *)
Definition over_calls : list io_call :=
  [A_read 1 0 10 1; A_barrier 1; A_stream 1; A_stream 1; A_close 1 DISPATCH_IO_STOP; A_barrier 1; A_read 2 0 10 2; A_barrier 1;
   A_stream 1; A_stream 1; A_stream 1; A_stream 1; A_stream 1; A_stream 1; A_stream 1; A_stream 1].

Lemma stop_over_resumes :
  io_exec_all (K := pipe_kernel) over_calls (two_channels None) = Fault (DISPATCH_CLIENT_CRASH "Over-resume of an object").
Proof. vm_compute. reflexivity. Qed.

(** ** A stop during a system call of a disk *)

(** The channel is stopped while its operation reads its last bytes: the cleanup
    completes the operation, and so does the block after the call. *)
Definition twice_calls : list io_call :=
  [A_read 1 0 3 1; A_barrier 1; A_pick 1; A_perform 1; A_close 1 DISPATCH_IO_STOP; A_barrier 1; A_pick 1; A_perform 1; A_pick 1].

Lemma stop_completes_twice :
  io_exec_all (K := file_kernel [1; 2; 3] (λ _ _, false)) twice_calls (two_channels (Some 1%nat)) = Fault (UB "TAILQ_REMOVE").
Proof. vm_compute. reflexivity. Qed.

(** ** A descriptor that is not open *)

(** Two writes wait on it.  The first one fails and has its data back; the
    handler of the second one is told that it is done, without an error and
    without data, which stands for success: nothing was written. *)
Definition closed_calls : list io_call :=
  [A_write 1 0 [[1; 2; 3]] 1; A_write 1 0 [[4; 5]] 2; A_barrier 1; A_barrier 1; A_stream 2; A_stream 2; A_stream 2; A_stream 2;
   A_barrier 1; A_stream 2; A_stream 2].

Lemma closed_descriptor_succeeds :
  match io_exec_all (K := closed_kernel) closed_calls (two_channels None) with
  | Ok _ s => calls_of 1 s = [HC (Some 1%nat) true (Some [[1; 2; 3]]) 9] ∧ calls_of 2 s = [HC (Some 2%nat) true None 0] ∧ moved 2 s = []
  | Fault _ => False
  end.
Proof. vm_compute. done. Qed.

(** ** A stop between the choice of an operation and its system call *)

(** Another thread stops the first channel there ([stop_at]).  The operations of
    this channel are completed, and nothing goes on with those of the other one
    on the same stream: no block waits, no source is running, and new operations
    do not start the handler either, since the stream is not empty. *)
Definition stop_at (n c : nat) : bool := (n =? 7)%nat && (c =? 1)%nat.
Definition stall_calls : list io_call :=
  [A_read 1 0 10 1; A_read 2 0 10 2; A_barrier 1; A_barrier 1; A_stream 1; A_stream 1; A_stream 1; A_stream 1;
   A_stopped 1; A_barrier 1; A_stream 1; A_read 2 0 10 3; A_barrier 1; A_stream 1].

Lemma stop_stalls_other_channel :
  match io_exec_all (K := file_kernel [1; 2; 3] stop_at) stall_calls (two_channels None) with
  | Ok _ s => calls_of 1 s = [HC (Some 1%nat) true None 125] ∧ streams s !! 1%nat = Some (Stream [] None None None false [2%nat; 3%nat] []) ∧
      barriers s !! 1%nat = Some []
  | Fault _ => False
  end.
Proof. vm_compute. done. Qed.

(** ** A convenience read with data *)

(** Two reads of the channel of the convenience functions wait.  The first one
    has read a byte when the descriptor would block, and is complete; the source,
    which does not exist yet, is then made for the descriptor of this operation,
    whose last reference is gone. *)
Definition convenience_state : io_state :=
  set_fd_entries (list_to_map [(1%nat, FdEntry 5 false 0 None 1 2 (Some 1%nat) 1 0 [])]) (two_channels None).
Definition freed_calls : list io_call :=
  [A_read 1 0 10 1; A_read 1 0 10 2; A_barrier 1; A_barrier 1; A_stream 1; A_stream 1; A_stream 1; A_stream 1; A_stream 1; A_stream 1].

Lemma resume_uses_freed_operation :
  io_exec_all (K := pipe_kernel) freed_calls convenience_state = Fault (UB "dispatch_operation_t").
Proof. vm_compute. reflexivity. Qed.
