(* ===== verification/IoTheorems.v ===== *)
(** * Properties of dispatch I/O

    What happens to the bytes of an operation and to its handler, from the block
    of the stream queue or of the pick queue that starts it, whatever the queues,
    the other operations, the other threads and the kernel do. *)

From S2P Require Import Prelude Io IoStream IoDisk IoTrack IoOp IoLife IoModel.

(** ** Water marks *)

Definition marks_ok (p : dispatch_io_param_s) : Prop := 0 ≤ low p ≤ high p ∧ 1 ≤ high p ≤ SIZE_MAX.

Section Marks.
Context {D : DataApi} {K : IoKernel}.

Definition sets_marks (c : io_call) : Prop :=
  match c with A_high_water _ n | A_low_water _ n => 0 ≤ n ≤ SIZE_MAX | A_interval _ _ _ => True | _ => False end.
Definition all_marks (s : io_state) : Prop := map_Forall (λ _ x, marks_ok (io_params x)) (channels s).

Lemma marks_modify c f s s' :
  (∀ x, marks_ok (io_params x) → marks_ok (io_params (f x))) → all_marks s → modify_channel c f s = Ok tt s' → all_marks s'.
Proof.
  intros Hf Hs. unfold modify_channel, mbind at 1, M_bind at 1. destruct (get_channel c s) as [x s1|] eqn:E; [|done].
  apply (get_at _ channels) in E as [-> E]. intros [= <-]. apply map_Forall_insert_2; [|exact Hs]. by apply Hf, (Hs c).
Qed.

Lemma marks_exec c s s' : sets_marks c → all_marks s → io_exec c s = Ok tt s' → all_marks s'.
Proof.
  intros Hc. destruct c as [|c n|c n|c iv fl| | | | | | | | | | | |]; try done; cbn [sets_marks io_exec] in *; apply marks_modify; intros x [H1 H2];
    unfold marks_ok; cbn; [| |done].
  - destruct (Z.ltb_spec n (low (io_params x))), (Z.eqb_spec n 0); lia.
  - destruct (Z.ltb_spec (high (io_params x)) n), (Z.eqb_spec n 0); lia.
Qed.

(** The water marks of a new channel are ordered, whatever the defaults are, and
    stay so through any calls of the functions that set them: the low one is at
    most the high one, which is at least one byte. *)
Theorem water_marks_ordered cs s s' :
  (∀ t, ∃ p, _dispatch_io_create t s = Ok p s ∧ marks_ok p) ∧
  (Forall sets_marks cs → all_marks s → io_exec_all cs s = Ok tt s' → all_marks s').
Proof.
  split.
  - intros t. eexists. split; [reflexivity|]. unfold marks_ok. cbn -[SIZE_MAX].
    match goal with |- context [u64 ?x] => pose proof (wrapU_range 64 x ltac:(lia)) end. consts. lia.
  - intros Hcs. revert s. induction Hcs as [|c cs Hc _ IH]; intros s Hs; cbn [io_exec_all]; [by intros [= <-]|].
    unfold mbind, M_bind. destruct (io_exec c s) as [[] s1|] eqn:E; [|done]. apply IH. by apply (marks_exec c s).
Qed.
End Marks.

Section Start.
Context {D : DataApi} {K : IoKernel}.

(** Where an operation is started. *)
Inductive io_queue : Type := On_stream (i : nat) | On_disk (i : nat).

Definition start_on (w : io_queue) (o : nat) (d : data) : IOM unit :=
  match w with
  | On_stream i => run_stream_block i (SB_enqueue o d)
  | On_disk i => run_disk_block i (DB_enqueue o d)
  end.

(** As [submit] and [_dispatch_operation_enqueue] leave it: nothing was read or
    written for it, its handler was not called, and the block that runs now is
    the only one that waited to start it. *)
Record submitted (o : nat) (dir : dispatch_op_direction_t) (P : dispatch_io_param_s) (d : data) (s : io_state) : Prop := {
  sb_start : no_start o s;
  sb_moved : moved o s = [];
  sb_calls : calls_of o s = [];
  sb_high : 1 ≤ high P ≤ SIZE_MAX;
  sb_data : dir = DOP_DIR_READ → d_bytes d = [];
  sb_op : ∃ off len c fe, operations s !! o =
    Some (Operation dir P off len 0 c (Some fe) None false DOP_DEFAULT None 0 0 0 0 None d_empty 0) ∧
    0 ≤ len ≤ SIZE_MAX ∧ (dir = DOP_DIR_WRITE → len = d_size d ∧ len < 2 ^ 63)
}.
End Start.

Section Theorems.
Context {D : DataApi} {DL : DataApiLaws} {K : IoKernel} {KL : IoKernelLaws}.

Lemma submitted_life o dir P d s x :
  submitted o dir P d s → operations s !! o = Some x →
  life o dir P (d_bytes d) (set_operations (<[o := put_op_data d x]> (operations s)) s).
Proof.
  intros [Hn Hm Hc Hh Hd (off & len & c & fe & Ho & Hlen & Hw)] Hx. rewrite Hx in Ho. injection Ho as ->.
  split; [done|]. cbn [operations set_operations]. rewrite lookup_insert_eq.
  unfold live. set (s' := set_operations _ s). change (moved o s') with (moved o s). change (calls_of o s') with (calls_of o s).
  change (delivered o s') with (delivered o s). assert (Hdel : delivered o s = []) by (unfold delivered; by rewrite Hc).
  rewrite Hm, Hc, Hdel. split_and!; [done|done|by eexists| |constructor|].
  - split; cbn; try done.
    + intros ->. rewrite Hd by done. change (zlen []) with 0. split; [lia|]. intros _. change (zlen []) with 0. unfold room. cbn. lia.
    + intros E. destruct (Hw E) as [-> ?]. split_and!; [done..|]. unfold d_size. lia.
  - unfold balanced, undelivered_bytes, unwritten. cbn. destruct dir; [by rewrite Hd|done].
Qed.

Lemma start_life w o dir P d s : submitted o dir P d s → wlp (start_on w o d) (λ _, life o dir P (d_bytes d)) s.
Proof.
  intros Hs. assert (Hok : wlp (_dispatch_operation_should_enqueue o d) (λ _, life o dir P (d_bytes d)) s).
  { unfold _dispatch_operation_should_enqueue. apply wlp_bind, wlp_modify_op. intros x Hx.
    pose proof (submitted_life o dir P d s x Hs Hx) as Hl. revert Hl. generalize (set_operations (<[o:=put_op_data d x]> (operations s)) s).
    match goal with |- ∀ s1, _ → wlp ?m _ s1 => change (pres o dir P (d_bytes d) m) end. pres_steps. }
  destruct w as [i|i]; cbn [start_on run_stream_block run_disk_block].
  - unfold _dispatch_stream_enqueue_operation. apply wlp_bind. eapply wlp_mono; [exact Hok|]. intros ok.
    match goal with |- ∀ s1, _ → wlp ?m _ s1 => change (pres o dir P (d_bytes d) m) end.
    repeat (pres_step || (apply quietly_pres; first [apply quietly_set_op_list|apply quietly_insert_tail])).
  - unfold _dispatch_disk_enqueue_operation. apply wlp_bind. eapply wlp_mono; [exact Hok|]. intros ok.
    match goal with |- ∀ s1, _ → wlp ?m _ s1 => change (pres o dir P (d_bytes d) m) end.
    pose proof (pres_disk_handler o dir P (d_bytes d)).
    repeat (pres_step || (apply quietly_pres; first [apply quietly_disk_insert|apply quietly_insert_tail])).
Qed.

(** From the start on, through any calls. *)
Lemma run_life w o dir P d cs s s' :
  submitted o dir P d s → Forall (λ c, makes o c = false) cs → (start_on w o d;; io_exec_all cs) s = Ok tt s' →
  life o dir P (d_bytes d) s'.
Proof.
  intros Hs Hcs E. refine (wlp_bind (start_on w o d) (λ _, io_exec_all cs) (λ _, life o dir P (d_bytes d)) s _ tt s' E).
  eapply wlp_mono; [by apply start_life|]. intros [] s1 Hl. by apply pres_exec_all.
Qed.

(** C19. The bytes that were read for a read operation are those that its handler was
    given, in this order and once, and then those that the operation still
    holds: its undelivered data and its buffer.  When the operation is gone, its
    handler was given all of them. *)
Theorem read_bytes_conserved w o P d cs s s' :
  submitted o DOP_DIR_READ P d s → Forall (λ c, makes o c = false) cs → (start_on w o d;; io_exec_all cs) s = Ok tt s' →
  moved o s' = delivered o s' ++ default [] (undelivered_bytes <$> operations s' !! o).
Proof.
  intros Hs Hcs E. destruct (run_life _ _ _ _ _ _ _ _ Hs Hcs E) as [_ H].
  destruct (operations s' !! o) as [x|]; cbn [default fmap option_fmap option_map].
  - destruct H as (_ & Hd & _ & _ & _ & B). unfold balanced in B. by rewrite Hd in B.
  - destruct H as (l & h & _ & _ & _ & _ & ? & _). by rewrite app_nil_r.
Qed.

(** C20. The bytes that were written for a write operation, followed by those that
    it still has to write, are the data that was submitted.  When it is gone,
    the last call of its handler has an error and the bytes that were not
    written, or no error and no data. *)
Theorem write_bytes_conserved w o P d cs s s' :
  submitted o DOP_DIR_WRITE P d s → Forall (λ c, makes o c = false) cs → (start_on w o d;; io_exec_all cs) s = Ok tt s' →
  match operations s' !! o with
  | Some x => moved o s' ++ unwritten x = d_bytes d
  | None => ∃ h, last (calls_of o s') = Some h ∧
      match hc_data h with
      | Some r => hc_err h ≠ 0 ∧ moved o s' ++ d_bytes r = d_bytes d
      | None => hc_err h = 0
      end
  end.
Proof.
  intros Hs Hcs E. destruct (run_life _ _ _ _ _ _ _ _ Hs Hcs E) as [_ H].
  destruct (operations s' !! o) as [x|].
  - destruct H as (_ & Hd & _ & _ & _ & B). unfold balanced in B. by rewrite Hd in B.
  - destruct H as (l & h & El & _ & _ & _ & Hf). exists h. by rewrite El, last_snoc.
Qed.

(** C21. The handler of an operation is told that it is done exactly once, by its last
    call, and then the operation is gone; a read that ends with an error has no
    data in this call. *)
Theorem handler_done_once w o dir P d cs s s' :
  submitted o dir P d s → Forall (λ c, makes o c = false) cs → (start_on w o d;; io_exec_all cs) s = Ok tt s' →
  match operations s' !! o with
  | Some _ => Forall (λ h, hc_done h = false) (calls_of o s')
  | None => ∃ l h, calls_of o s' = l ++ [h] ∧ Forall (λ h, hc_done h = false) l ∧ hc_done h = true ∧
      (dir = DOP_DIR_READ → hc_data h = None ↔ hc_err h ≠ 0)
  end.
Proof.
  intros Hs Hcs E. destruct (run_life _ _ _ _ _ _ _ _ Hs Hcs E) as [_ H].
  assert (Hp : ∀ l, Forall (partial_call dir P) l → Forall (λ h, hc_done h = false) l).
  { intros l Hl. by eapply Forall_impl; [exact Hl|intros h [? _]]. }
  destruct (operations s' !! o) as [x|].
  - destruct H as (_ & _ & _ & _ & Hc & _). auto.
  - destruct H as (l & h & El & Hl & Hdone & _ & Hf). exists l, h. split_and!; [done|auto|done|]. intros Ed. rewrite Ed in Hf. by destruct Hf.
Qed.

(** C23. Whatever the kernel has, the handler of a read operation is never given more
    than the high water mark at once, and an operation that has a length has
    read, and asks for, no more than that. *)
Theorem read_bounds w o P d cs s s' :
  submitted o DOP_DIR_READ P d s → Forall (λ c, makes o c = false) cs → (start_on w o d;; io_exec_all cs) s = Ok tt s' →
  Forall (λ h, zlen (hc_bytes h) ≤ high P) (calls_of o s') ∧
  (∀ x, operations s' !! o = Some x → op_length x < SIZE_MAX → zlen (moved o s') + room x ≤ op_length x).
Proof.
  intros Hs Hcs E. destruct (run_life _ _ _ _ _ _ _ _ Hs Hcs E) as [_ H].
  assert (Hp : ∀ l, Forall (partial_call DOP_DIR_READ P) l → Forall (λ h, zlen (hc_bytes h) ≤ high P) l).
  { intros l Hl. eapply Forall_impl; [exact Hl|]. intros h [_ Hh]. by apply Hh. }
  destruct (operations s' !! o) as [x|].
  - destruct H as (_ & Hd & _ & Hw & Hc & _). split; [auto|]. intros y [= <-] Hlen. by apply (wf_read _ _ _ Hw Hd).
  - destruct H as (l & h & El & Hl & _ & Hh & _). split; [|done]. rewrite El. apply Forall_app. split; [auto|].
    apply Forall_singleton. by apply Hh.
Qed.
End Theorems.

(** ** Concrete runs *)

(** Nothing waits on a queue. *)
Definition idle `{DataApi} (s : io_state) : bool :=
  bool_decide (map_Forall (λ _ l, length l = O) (barriers s)) &&
  bool_decide (map_Forall (λ _ x, length (dq x) = O) (streams s)) &&
  bool_decide (map_Forall (λ _ x, length (pick_q x) = O) (disks s)).

Lemma idle_no_start `{DataApi} o s : idle s = true → no_start o s.
Proof.
  unfold idle. intros [[H1%bool_decide_eq_true H2%bool_decide_eq_true]%andb_true_iff H3%bool_decide_eq_true]%andb_true_iff.
  split_and!.
  - intros q l d Hq. apply H1, nil_length_inv in Hq as ->. set_solver.
  - intros i l d Hi. rewrite lookup_fmap in Hi. destruct (streams s !! i) as [x|] eqn:E; [|done]. injection Hi as <-.
    apply H2, nil_length_inv in E as ->. set_solver.
  - intros i l d Hi. rewrite lookup_fmap in Hi. destruct (disks s !! i) as [x|] eqn:E; [|done]. injection Hi as <-.
    apply H3, nil_length_inv in E as ->. set_solver.
Qed.

(** The state in which the first block of the queue is the one that starts the
    operation, without this block. *)
Definition sent {K : IoKernel} (c : io_call) (dk : option nat) : io_state :=
  match io_exec_all [c; A_barrier 1] (two_channels dk) with
  | Ok _ s => set_streams (put_dq [] <$> streams s) (set_disks (put_pick_q [] <$> disks s) s)
  | Fault _ => two_channels dk
  end.

Ltac solve_submitted :=
  split; [apply idle_no_start; vm_compute; reflexivity|vm_compute; reflexivity|vm_compute; reflexivity|cbn; consts; lia|done|];
  eexists _, _, _, _; split; [vm_compute; reflexivity|split; [consts; lia|vm_compute; done]].

Definition pair_params : dispatch_io_param_s := IoParams DISPATCH_IO_STREAM 2 3 0 0.
Definition seven_bytes : IoKernel := file_kernel [1; 2; 3; 4; 5; 6; 7] (λ _ _, false).
#[local] Existing Instance seven_bytes.
#[local] Instance seven_bytes_laws : IoKernelLaws := file_kernel_laws _ _.

Definition read_run : IOM unit := start_on (On_stream 1) 1 [];; io_exec_all (replicate 8 (A_stream 1)).
Definition sent_read : io_state := sent (A_read 1 0 10 1) None.
Definition write_data : data := [[1; 2; 3; 4]; [5; 6]].
Definition write_calls : list io_call :=
  [A_stream 2; A_stream 2; A_close 1 DISPATCH_IO_STOP; A_stream 2; A_stream 2; A_barrier 1; A_stream 2].
Definition write_run : IOM unit := start_on (On_stream 2) 1 write_data;; io_exec_all write_calls.
Definition sent_write : io_state := sent (A_write 1 0 write_data 1) None.

Definition end_of (m : outcome io_state unit) : option io_state := match m with Ok _ s => Some s | Fault _ => None end.

Lemma sent_read_submitted : submitted 1 DOP_DIR_READ pair_params [] sent_read.
Proof. solve_submitted. Qed.
Lemma sent_write_submitted : submitted 1 DOP_DIR_WRITE pair_params write_data sent_write.
Proof. solve_submitted. Qed.

(** The seven bytes are read three at a time, and delivered. *)
Lemma read_bytes_conserved_witness :
  match read_run sent_read with
  | Ok _ s' => moved 1 s' = delivered 1 s' ++ default [] (undelivered_bytes <$> operations s' !! 1%nat) ∧
      delivered 1 s' = [1; 2; 3; 4; 5; 6; 7]
  | Fault _ => False
  end.
Proof.
  assert (F : delivered 1 <$> end_of (read_run sent_read) = Some [1; 2; 3; 4; 5; 6; 7]) by (vm_compute; reflexivity).
  destruct (read_run sent_read) as [[] s'|] eqn:E; [|discriminate F]. injection F as F. split; [|exact F].
  apply (read_bytes_conserved (On_stream 1) 1 pair_params d_empty (replicate 8 (A_stream 1)) sent_read s'); [exact sent_read_submitted|by repeat constructor|exact E].
Defined.

(** The channel is stopped after three of the six bytes. *)
Lemma write_bytes_conserved_witness :
  match write_run sent_write with
  | Ok _ s' => moved 1 s' = [1; 2; 3] ∧
      match operations s' !! 1%nat with
      | Some x => moved 1 s' ++ unwritten x = d_bytes write_data
      | None => ∃ h, last (calls_of 1 s') = Some h ∧
          match hc_data h with
          | Some r => hc_err h ≠ 0 ∧ moved 1 s' ++ d_bytes r = d_bytes write_data
          | None => hc_err h = 0
          end
      end
  | Fault _ => False
  end.
Proof.
  assert (F : moved 1 <$> end_of (write_run sent_write) = Some [1; 2; 3]) by (vm_compute; reflexivity).
  destruct (write_run sent_write) as [[] s'|] eqn:E; [|discriminate F]. injection F as F. split; [exact F|].
  apply (write_bytes_conserved (On_stream 2) 1 pair_params write_data write_calls sent_write s'); [exact sent_write_submitted| |exact E].
  by repeat constructor.
Defined.

Lemma handler_done_once_witness :
  match write_run sent_write with
  | Ok _ s' => hc_done <$> calls_of 1 s' = [false; true] ∧
      match operations s' !! 1%nat with
      | Some _ => Forall (λ h, hc_done h = false) (calls_of 1 s')
      | None => ∃ l h, calls_of 1 s' = l ++ [h] ∧ Forall (λ h, hc_done h = false) l ∧ hc_done h = true ∧
          (DOP_DIR_WRITE = DOP_DIR_READ → hc_data h = None ↔ hc_err h ≠ 0)
      end
  | Fault _ => False
  end.
Proof.
  assert (F : (λ s, hc_done <$> calls_of 1 s) <$> end_of (write_run sent_write) = Some [false; true]) by (vm_compute; reflexivity).
  destruct (write_run sent_write) as [[] s'|] eqn:E; [|discriminate F]. injection F as F. split; [exact F|].
  apply (handler_done_once (On_stream 2) 1 DOP_DIR_WRITE pair_params write_data write_calls sent_write s'); [exact sent_write_submitted| |exact E].
  by repeat constructor.
Defined.

Lemma read_bounds_witness :
  match read_run sent_read with
  | Ok _ s' => zlen (moved 1 s') = 7 ∧ Forall (λ h, zlen (hc_bytes h) ≤ high pair_params) (calls_of 1 s') ∧
      (∀ x, operations s' !! 1%nat = Some x → op_length x < SIZE_MAX → zlen (moved 1 s') + room x ≤ op_length x)
  | Fault _ => False
  end.
Proof.
  assert (F : (λ s, zlen (moved 1 s)) <$> end_of (read_run sent_read) = Some 7) by (vm_compute; reflexivity).
  destruct (read_run sent_read) as [[] s'|] eqn:E; [|discriminate F]. injection F as F. split; [exact F|].
  apply (read_bounds (On_stream 1) 1 pair_params d_empty (replicate 8 (A_stream 1)) sent_read s'); [exact sent_read_submitted|by repeat constructor|exact E].
Defined.

Lemma water_marks_ordered_witness :
  let cs := [A_high_water 1 0; A_low_water 1 5; A_high_water 1 2] in
  match io_exec_all cs (two_channels None) with
  | Ok _ s' => all_marks s' ∧ ((λ x, (low (io_params x), high (io_params x))) <$> channels s' !! 1%nat) = Some (2, 2)
  | Fault _ => False
  end.
Proof.
  assert (F : (λ s, (λ x, (low (io_params x), high (io_params x))) <$> channels s !! 1%nat) <$>
              end_of (io_exec_all [A_high_water 1 0; A_low_water 1 5; A_high_water 1 2] (two_channels None)) = Some (Some (2, 2)))
    by (vm_compute; reflexivity).
  cbv zeta. destruct (io_exec_all _ _) as [[] s'|] eqn:E; [|discriminate F]. injection F as F. split; [|exact F].
  apply (water_marks_ordered [A_high_water 1 0; A_low_water 1 5; A_high_water 1 2] (two_channels None) s'); [|
    |exact E].
  - repeat constructor; consts; lia.
  - intros c x Hx. revert Hx. unfold two_channels. cbn [channels]. intros [Hx|Hx]%elem_of_list_to_map_2%elem_of_cons.
    + injection Hx as _ ->. unfold marks_ok. cbn. consts. lia.
    + apply list_elem_of_singleton in Hx. injection Hx as _ ->. unfold marks_ok. cbn. consts. lia.
Defined.
