(* ===== verification/IoTotal.v ===== *)
(** * Every call of dispatch I/O ends

    The loops have fuel: that of the stream handler, which completes an operation
    in each turn that does not find one; those of a disk, which go through its
    ring and its list.  [safe]: a function does not run out of fuel and, if asked
    to ([b]), keeps the lists of the disks free of repetitions. *)

From S2P Require Import Prelude Io IoStream IoDisk IoTrack IoOp IoModel.

(** ** Rules *)

Section Rules.
Context {D : DataApi} (b : bool).

Definition lists_ok (s : io_state) : Prop := if b then map_Forall (λ _ x, NoDup (disk_ops x)) (disks s) else True.

(** The end of a call. *)
Definition ended {A} (Q : A → io_state → Prop) (r : outcome io_state A) : Prop :=
  match r with Ok a s' => lists_ok s' ∧ Q a s' | Fault f => f ≠ OutOfFuel end.
Definition safe {A} (m : IOM A) : Prop := ∀ s, lists_ok s → ended (λ _ _, True) (m s).

(** What the loops are measured by. *)
Definition lists_of (s : io_state) := (streams s, disks s, stream_ops <$> fd_entries s).
Definition keeps {A} (m : IOM A) : Prop := ∀ s a s', m s = Ok a s' → lists_of s' = lists_of s.

Lemma keeps_bind {A B} (m : IOM A) (k : A → IOM B) : keeps m → (∀ a, keeps (k a)) → keeps (m ≫= k).
Proof.
  intros Hm Hk s y s'. unfold mbind, M_bind. destruct (m s) as [a s1|] eqn:E; [|done]. intros E'.
  rewrite (Hk a s1 y s' E'). by apply (Hm s a).
Qed.
Lemma keeps_ret {A} (a : A) : keeps (mret a).
Proof. by intros ? ? ? [= <- <-]. Qed.
Lemma keeps_get : keeps getS.
Proof. by intros ? ? ? [= <- <-]. Qed.
Lemma keeps_fail {A} f : keeps (fail (A := A) f).
Proof. by intros ? ? ?. Qed.
Lemma keeps_try_opt {A} w (x : option A) : keeps (try_opt w x).
Proof. destruct x; [apply keeps_ret|apply keeps_fail]. Qed.
Lemma keeps_modify f : (∀ s, lists_of (f s) = lists_of s) → keeps (modifyS f).
Proof. intros H ? ? ? [= <- <-]. apply H. Qed.

(** A call with what is known at its end, and what follows it. *)
Lemma ended_bind {A B} (m : IOM A) (k : A → IOM B) (Q : A → io_state → Prop) R s :
  ended Q (m s) → (∀ a s', lists_ok s' → Q a s' → ended R (k a s')) → ended R ((m ≫= k) s).
Proof. unfold mbind, M_bind. destruct (m s) as [a s1|f]; [intros [H HQ] Hk; by apply Hk|done]. Qed.

Lemma ended_wlp {A} (m : IOM A) Q s : safe m → lists_ok s → wlp m Q s → ended Q (m s).
Proof.
  intros Hm Hs HQ. specialize (Hm s Hs). unfold wlp in HQ. destruct (m s) as [a s1|f]; [|done]. destruct Hm as [H _]. split; auto.
Qed.

Lemma ended_safe {A} (m : IOM A) Q s : ended Q (m s) → ended (λ _ _, True) (m s).
Proof. destruct (m s); [|done]. by intros [? _]. Qed.

Lemma io_safe_bind {A B} (m : IOM A) (k : A → IOM B) : safe m → (∀ a, safe (k a)) → safe (m ≫= k).
Proof. intros Hm Hk s Hs. apply (ended_bind _ _ (λ _ _, True)); [by apply Hm|]. intros a s' Hs' _. by apply Hk. Qed.
Lemma safe_ret {A} (a : A) : safe (mret a).
Proof. by intros ? ?. Qed.
Lemma safe_get : safe getS.
Proof. by intros ? ?. Qed.
Lemma safe_ub {A} w : safe (fail (A := A) (UB w)).
Proof. by intros ? ?. Qed.
Lemma io_safe_crash {A} w : safe (fail (A := A) (DISPATCH_CLIENT_CRASH w)).
Proof. by intros ? ?. Qed.
Lemma safe_try_opt {A} w (x : option A) : safe (try_opt w x).
Proof. destruct x; [apply safe_ret|apply safe_ub]. Qed.
Lemma safe_modify f : (∀ s, disks (f s) = disks s) → safe (modifyS f).
Proof. intros H s Hs. split; [|done]. unfold lists_ok. by rewrite H. Qed.
End Rules.

Create HintDb io_total.
#[export] Hint Resolve keeps_ret keeps_get keeps_fail keeps_try_opt safe_ret safe_get safe_ub io_safe_crash safe_try_opt : io_total.
Ltac total_step :=
  lazymatch goal with
  | |- keeps (mbind _ _) => apply keeps_bind; [|intros ?]
  | |- safe _ (mbind _ _) => apply io_safe_bind; [|intros ?]
  | |- keeps (modifyS _) => by apply keeps_modify
  | |- safe _ (modifyS _) => by apply safe_modify
  | |- safe _ (if ?c then _ else _) => destruct c
  | |- safe _ (match ?c with _ => _ end) => destruct c
  | |- safe _ (let _ := _ in _) => cbv zeta
  | |- safe _ (whenM ?c _) => destruct c; cbn [whenM]
  | |- keeps (if ?b then _ else _) => destruct b
  | |- keeps (match ?b with _ => _ end) => destruct b
  | |- keeps (let _ := _ in _) => cbv zeta
  | |- keeps (whenM ?b _) => destruct b; cbn [whenM]
  | |- _ => by auto with io_total
  end.
Ltac total_steps := repeat (total_step; cbv beta).

(** ** Primitives *)

Section Primitives.
Context {D : DataApi} {K : IoKernel} (b : bool).
Local Abbreviation safe := (safe b).
Local Abbreviation lists_ok := (lists_ok b).

Lemma keeps_get_op o : keeps (get_op o).
Proof. unfold get_op. total_steps. Qed.
Lemma keeps_get_disk i : keeps (get_disk i).
Proof. unfold get_disk. total_steps. Qed.
Lemma keeps_get_entry e : keeps (get_entry e).
Proof. unfold get_entry. total_steps. Qed.
Lemma keeps_get_channel c : keeps (get_channel c).
Proof. unfold get_channel. total_steps. Qed.
Lemma safe_get_op o : safe (get_op o).
Proof. unfold get_op. total_steps. Qed.
Lemma safe_get_stream i : safe (get_stream i).
Proof. unfold get_stream. total_steps. Qed.
Lemma safe_get_disk i : safe (get_disk i).
Proof. unfold get_disk. total_steps. Qed.
Lemma safe_get_entry e : safe (get_entry e).
Proof. unfold get_entry. total_steps. Qed.
Lemma safe_get_channel c : safe (get_channel c).
Proof. unfold get_channel. total_steps. Qed.
Lemma safe_get_barrier q : safe (get_barrier q).
Proof. unfold get_barrier. total_steps. Qed.
Hint Resolve keeps_get_op keeps_get_disk keeps_get_entry keeps_get_channel safe_get_op safe_get_stream safe_get_disk safe_get_entry safe_get_channel
  safe_get_barrier : io_total.

Lemma keeps_modify_op o f : keeps (modify_op o f).
Proof. unfold modify_op. total_steps. Qed.
Lemma keeps_modify_channel c f : keeps (modify_channel c f).
Proof. unfold modify_channel. total_steps. Qed.
Lemma keeps_call_handler o d x e : keeps (call_handler o d x e).
Proof. unfold call_handler. total_steps. Qed.
Lemma keeps_modify_entry e f : (∀ x, stream_ops (f x) = stream_ops x) → keeps (modify_entry e f).
Proof.
  intros Hf s a s'. unfold modify_entry, mbind at 1, M_bind at 1. destruct (get_entry e s) as [x s1|] eqn:E; [|done].
  apply (get_at _ fd_entries) in E as [-> E]. intros [= <- <-]. unfold lists_of. cbn [streams disks fd_entries set_fd_entries].
  by rewrite (fmap_insert_same stream_ops _ _ x).
Qed.
Lemma safe_modify_op o f : safe (modify_op o f).
Proof. unfold modify_op. total_steps. Qed.
Lemma safe_modify_stream i f : safe (modify_stream i f).
Proof. unfold modify_stream. total_steps. Qed.
Lemma safe_modify_entry e f : safe (modify_entry e f).
Proof. unfold modify_entry. total_steps. Qed.
Lemma safe_modify_channel c f : safe (modify_channel c f).
Proof. unfold modify_channel. total_steps. Qed.
Lemma safe_call_handler o d x e : safe (call_handler o d x e).
Proof. unfold call_handler. total_steps. Qed.
Lemma safe_syscall o c : safe (syscall o c).
Proof. unfold syscall. total_steps. Qed.

Lemma safe_modify_disk i f : (b = true → ∀ x, NoDup (disk_ops x) → NoDup (disk_ops (f x))) → safe (modify_disk i f).
Proof.
  intros Hf s Hs. unfold modify_disk, mbind at 1, M_bind at 1. pose proof (safe_get_disk i s Hs) as Hg.
  destruct (get_disk i s) as [x s1|] eqn:E; [|done]. apply (get_at _ disks) in E as [-> E]. split; [|done].
  revert Hs Hf. unfold lists_ok. destruct b; [|done]. intros Hs Hf.
  apply map_Forall_insert_2; [|exact Hs]. by apply Hf, (Hs i).
Qed.
Lemma safe_tailq_remove o l : safe (tailq_remove o l).
Proof. unfold tailq_remove. total_steps. Qed.
Lemma safe_insert_tail o l : safe (tailq_insert_tail o l).
Proof. unfold tailq_insert_tail. total_steps. Qed.
End Primitives.
#[export] Hint Resolve keeps_get_op keeps_get_disk keeps_get_entry keeps_get_channel keeps_modify_op keeps_modify_channel keeps_call_handler safe_get_op
  safe_get_stream safe_get_disk safe_get_entry safe_get_channel safe_get_barrier safe_modify_op safe_modify_stream safe_modify_entry safe_modify_channel
  safe_call_handler safe_syscall safe_tailq_remove safe_insert_tail : io_total.
#[export] Hint Extern 1 (safe _ (modify_disk _ _)) => by apply safe_modify_disk : io_total.
#[export] Hint Extern 1 (keeps (modify_entry _ _)) => by apply keeps_modify_entry : io_total.

(** ** Functions without a loop *)

Section Functions.
Context {D : DataApi} {K : IoKernel} (b : bool).
Local Abbreviation safe := (safe b).
Local Abbreviation lists_ok := (lists_ok b).

Lemma keeps_read_flags c : keeps (read_flags c).
Proof. unfold read_flags. total_steps. Qed.
Hint Resolve keeps_read_flags : io_total.
Lemma keeps_op_error o : keeps (op_error o).
Proof. unfold op_error, _dispatch_io_get_error. total_steps. Qed.
Lemma keeps_deliver o fl : keeps (_dispatch_operation_deliver_data o fl).
Proof. unfold _dispatch_operation_deliver_data, deliver_block. total_steps. Qed.
Hint Resolve keeps_deliver : io_total.
Lemma keeps_release o : keeps (_dispatch_release o).
Proof. unfold _dispatch_release, _dispatch_operation_dispose. total_steps. Qed.
Lemma keeps_cancel_timer o : keeps (cancel_timer o).
Proof. unfold cancel_timer. total_steps. Qed.

Lemma safe_read_flags c : safe (read_flags c).
Proof. unfold read_flags. total_steps. Qed.
Hint Resolve safe_read_flags : io_total.
Lemma safe_get_error op c ic : safe (_dispatch_io_get_error op c ic).
Proof. unfold _dispatch_io_get_error. total_steps. Qed.
Hint Resolve safe_get_error : io_total.
Lemma safe_op_error o : safe (op_error o).
Proof. unfold op_error. total_steps. Qed.
Lemma safe_deliver o fl : safe (_dispatch_operation_deliver_data o fl).
Proof. unfold _dispatch_operation_deliver_data, deliver_block. total_steps. Qed.
Hint Resolve safe_op_error safe_deliver : io_total.
Lemma safe_release o : safe (_dispatch_release o).
Proof. unfold _dispatch_release, _dispatch_operation_dispose. total_steps. Qed.
Lemma safe_cancel_timer o : safe (cancel_timer o).
Proof. unfold cancel_timer. total_steps. Qed.
Lemma safe_open e c : safe (_dispatch_fd_entry_open e c).
Proof. unfold _dispatch_fd_entry_open. total_steps. Qed.
Hint Resolve safe_release safe_cancel_timer safe_open : io_total.
Lemma safe_perform o : safe (_dispatch_operation_perform o).
Proof. unfold _dispatch_operation_perform, _dispatch_operation_handle_error, make_buffer, op_processed. total_steps. Qed.
Lemma safe_async_barrier q x : safe (async_barrier q x).
Proof. unfold async_barrier. total_steps. Qed.
Lemma safe_async_stream i x : safe (async_stream i x).
Proof. unfold async_stream. total_steps. Qed.
Lemma safe_async_pick i x : safe (async_pick i x).
Proof. unfold async_pick. total_steps. Qed.
Lemma safe_ring k x : safe (ring k x).
Proof. unfold ring. total_steps. Qed.
Lemma safe_should_enqueue o d : safe (_dispatch_operation_should_enqueue o d).
Proof. unfold _dispatch_operation_should_enqueue. total_steps. Qed.
Lemma safe_stream_pick_next i x : safe (_dispatch_stream_pick_next_operation i x).
Proof. unfold _dispatch_stream_pick_next_operation. total_steps. Qed.
Lemma safe_stream_complete i o : safe (_dispatch_stream_complete_operation i o).
Proof. unfold _dispatch_stream_complete_operation. total_steps. Qed.
Lemma safe_pick_inactive cur l : safe (pick_inactive cur l).
Proof. induction l; cbn [pick_inactive]; total_steps. Qed.
Hint Resolve safe_pick_inactive : io_total.
Lemma safe_disk_pick i : safe (_dispatch_disk_pick_next_operation i).
Proof. unfold _dispatch_disk_pick_next_operation. total_steps. Qed.
Hint Resolve safe_stream_complete : io_total.
Lemma safe_stream_cleanup_list i c l : safe (stream_cleanup_list i c l).
Proof. induction l; cbn [stream_cleanup_list]; total_steps. Qed.
Hint Resolve safe_stream_cleanup_list : io_total.
Lemma safe_stream_cleanup i c : safe (_dispatch_stream_cleanup_operations i c).
Proof. unfold _dispatch_stream_cleanup_operations, source_suspend. total_steps. Qed.
End Functions.
#[export] Hint Resolve keeps_read_flags keeps_op_error keeps_deliver keeps_release keeps_cancel_timer safe_read_flags safe_get_error safe_op_error safe_deliver
  safe_release safe_cancel_timer safe_open safe_perform safe_async_barrier safe_async_stream safe_async_pick safe_ring safe_should_enqueue
  safe_stream_pick_next safe_stream_complete safe_disk_pick safe_stream_cleanup : io_total.

(** ** The completion of an operation *)

Section Complete.
Context {D : DataApi} {K : IoKernel}.
Local Abbreviation lists_ok := (lists_ok true).

Lemma filter_out_shorter (o : nat) l : o ∈ l → (length (List.filter (λ y, negb (y =? o)%nat) l) < length l)%nat.
Proof.
  induction l as [|y l IH]; [by intros ?%elem_of_nil|]. rewrite elem_of_cons. cbn. pose proof (List.filter_length_le (λ y, negb (y =? o)%nat) l).
  destruct (Nat.eqb_spec y o) as [->|Hy]; cbn; [lia|]. intros [->|Hin]; [done|]. specialize (IH Hin). lia.
Qed.

Lemma filter_out_nodup (o : nat) l : NoDup l → NoDup (List.filter (λ y, negb (y =? o)%nat) l).
Proof. intros H. apply NoDup_ListNoDup, List.NoDup_filter, NoDup_ListNoDup, H. Qed.

(** What waits behind the operations of the disks. *)
Definition behind (s : io_state) : Z := msum zlen (stream_ops <$> fd_entries s).

Lemma modify_disk_at i f s s' x :
  disks s !! i = Some x → modify_disk i f s = Ok tt s' → s' = set_disks (<[i := f x]> (disks s)) s.
Proof.
  intros Hx. unfold modify_disk, mbind, M_bind. destruct (get_disk i s) as [y s1|] eqn:E; [|done].
  apply (get_at _ disks) in E as [-> E]. rewrite Hx in E. injection E as <-. by intros [= <-].
Qed.

Lemma modify_entry_at e f s s' x :
  fd_entries s !! e = Some x → modify_entry e f s = Ok tt s' → s' = set_fd_entries (<[e := f x]> (fd_entries s)) s.
Proof.
  intros Hx. unfold modify_entry, mbind, M_bind. destruct (get_entry e s) as [y s1|] eqn:E; [|done].
  apply (get_at _ fd_entries) in E as [-> E]. rewrite Hx in E. injection E as <-. by intros [= <-].
Qed.

Lemma tailq_remove_at o l s l' s' :
  tailq_remove o l s = Ok l' s' → s' = s ∧ o ∈ l ∧ l' = List.filter (λ y, negb (y =? o)%nat) l.
Proof. unfold tailq_remove. destruct (decide (o ∈ l)); [|done]. by intros [= <- <-]. Qed.

Lemma insert_tail_at o l s l' s' : tailq_insert_tail o l s = Ok l' s' → s' = s ∧ o ∉ l ∧ l' = l ++ [o].
Proof. unfold tailq_insert_tail. destruct (decide (o ∈ l)); [done|]. by intros [= <- <-]. Qed.

(** The list of the disk has grown by [ins]. *)
Record grown (i : nat) (x : dispatch_disk_s) (w : Z) (ins : list nat) (s : io_state) : Prop := {
  gr_ok : lists_ok s;
  gr_disk : ∃ x', disks s !! i = Some x' ∧ disk_ops x' = disk_ops x ++ ins;
  gr_work : zlen ins + behind s ≤ w
}.

Lemma grown_insert i x w s n : grown i x w [] s → wlp (disk_insert i n) (λ _, grown i x (w + 1) [n]) s.
Proof.
  intros [Hs (y & Hy & Ey) Hw]. rewrite app_nil_r in Ey. unfold disk_insert. apply wlp_bind. intros z s1 E.
  apply (get_at _ disks) in E as [-> E]. rewrite Hy in E. injection E as <-. apply wlp_bind. intros l s1 E.
  apply insert_tail_at in E as (-> & Hn & ->). intros [] s2 E. apply (modify_disk_at i _ s s2 y Hy) in E as ->. split.
  - apply map_Forall_insert_2; [|exact Hs]. cbn. apply NoDup_app. split; [by apply (Hs i)|]. split; [|apply NoDup_singleton].
    intros m Hm ->%list_elem_of_singleton. done.
  - exists (put_disk_ops (disk_ops y ++ [n]) y). cbn. by rewrite lookup_insert_eq, Ey.
  - change (zlen [n]) with 1. change (zlen []) with 0 in Hw. change (behind (set_disks (<[i:=put_disk_ops (disk_ops y ++ [n]) y]> (disks s)) s)) with (behind s). lia.
Qed.

Lemma grown_entry i x w s fe f l :
  fd_entries s !! fe = Some f → (length l < length (stream_ops f))%nat → grown i x w [] s →
  wlp (modify_entry fe (put_stream_ops l)) (λ _, grown i x (w - 1) []) s.
Proof.
  intros Hf Hl [Hs Hd Hw] [] s' E. apply (modify_entry_at fe _ s s' f Hf) in E as ->. split; [exact Hs|exact Hd|].
  unfold behind in *. cbn [fd_entries set_fd_entries]. rewrite fmap_insert. cbn [stream_ops put_stream_ops].
  rewrite (msum_update _ _ _ (stream_ops f)) by (by rewrite lookup_fmap, Hf). unfold zlen in *. cbn in *. lia.
Qed.

(** The operation leaves the list of its disk, and the next one of its entry may
    come; less waits. *)
Record completed (i o : nat) (x : dispatch_disk_s) (w : Z) (ins : list nat) (s : io_state) : Prop := {
  co_ok : lists_ok s;
  co_in : o ∈ disk_ops x ++ ins;
  co_nodup : NoDup (disk_ops x ++ ins);
  co_disk : ∃ x', disks s !! i = Some x' ∧ disk_ops x' = List.filter (λ y, negb (y =? o)%nat) (disk_ops x ++ ins);
  co_few : (length ins ≤ 1)%nat;
  co_work : disk_work i s < w
}.

Lemma keeps_lists {A} (m : IOM A) (Q : io_state → Prop) s :
  keeps m → (∀ s', lists_of s' = lists_of s → Q s') → wlp m (λ _, Q) s.
Proof. intros Hm HQ a s' E. apply HQ. by apply (Hm s a). Qed.

Lemma completed_lists i o x w ins s s' : lists_of s' = lists_of s → completed i o x w ins s → completed i o x w ins s'.
Proof.
  unfold lists_of. intros E. assert (Ed : disks s' = disks s) by congruence.
  assert (Ee : stream_ops <$> fd_entries s' = stream_ops <$> fd_entries s) by congruence.
  intros [H1 H2 H3 H4 H5 H6]. split; unfold lists_ok, disk_work in *; rewrite ?Ed, ?Ee; done.
Qed.

Lemma completed_end i o x s ins w :
  grown i x w ins s → (length ins ≤ 1)%nat →
  wlp (x ← get_disk i; l ← tailq_remove o (disk_ops x); modify_disk i (put_disk_ops l);; cancel_timer o;; _dispatch_release o)
    (λ _, completed i o x (zlen (disk_ops x) + w) ins) s.
Proof.
  intros [Hs (y & Hy & Ey) Hw] Hfew. apply wlp_bind. intros z s1 E. apply (get_at _ disks) in E as [-> E].
  rewrite Hy in E. injection E as <-. apply wlp_bind. intros l s1 E. apply tailq_remove_at in E as (-> & Hin & El).
  apply wlp_bind. intros [] s1 E. apply (modify_disk_at i _ s s1 y Hy) in E.
  assert (Hc : completed i o x (zlen (disk_ops x) + w) ins s1).
  { subst s1. pose proof (Hs i y Hy) as Hnd. cbn in Hnd. split; cbn [disks set_disks].
    - apply map_Forall_insert_2; [|exact Hs]. cbn. rewrite El. by apply filter_out_nodup.
    - by rewrite <- Ey.
    - by rewrite <- Ey.
    - exists (put_disk_ops l y). rewrite lookup_insert_eq. cbn. by rewrite El, Ey.
    - done.
    - unfold disk_work. cbn [disks set_disks fd_entries]. rewrite lookup_insert_eq. cbn [disk_ops put_disk_ops].
      change (msum zlen (stream_ops <$> fd_entries s)) with (behind s). pose proof (filter_out_shorter o _ Hin) as Hl. rewrite <- El, Ey, length_app in Hl.
      unfold zlen in *. lia. }
  apply wlp_bind, keeps_lists; [auto with io_total|]. intros s2 E2. apply keeps_lists; [auto with io_total|]. intros s3 E3.
  apply (completed_lists _ _ _ _ _ s1); [congruence|done].
Qed.

Lemma disk_complete_spec i o x s :
  lists_ok s → disks s !! i = Some x →
  wlp (_dispatch_disk_complete_operation i o) (λ _ s', ∃ ins, completed i o x (disk_work i s) ins s') s.
Proof.
  intros Hs Hx. unfold _dispatch_disk_complete_operation, disk_work. rewrite Hx. fold (behind s).
  apply wlp_bind. intros op s0 E. apply (get_at _ operations) in E as [-> _].
  apply wlp_bind. intros y s0 E. apply (get_at _ disks) in E as [-> E]. rewrite Hx in E. injection E as <-.
  apply wlp_bind. apply (wlp_mono _ (λ _, grown i x (behind s) [])).
  { destruct (bool_decide (cur_rq x = Some o)); cbn [whenM].
    - intros [] s1 E. apply (modify_disk_at i _ s s1 x Hx) in E as ->. split; [|eexists|].
      + apply map_Forall_insert_2; [|exact Hs]. exact (Hs i x Hx).
      + cbn. rewrite lookup_insert_eq. split; [done|]. cbn. by rewrite app_nil_r.
      + change (zlen []) with 0. by cbn.
    - apply wlp_ret. split; [done| |by cbn]. exists x. by rewrite app_nil_r. }
  intros [] s1 H1. apply wlp_bind. apply (wlp_mono _ (λ _ s2, ∃ ins, grown i x (behind s) ins s2 ∧ (length ins ≤ 1)%nat)).
  - destruct (bool_decide _); cbn [whenM]; [|apply wlp_ret; exists []; split; [done|cbn; lia]].
    apply wlp_bind, wlp_try_opt. intros fe _. apply wlp_bind. intros f s2 E. apply (get_at _ fd_entries) in E as [-> Hf]. cbv zeta.
    apply wlp_bind. intros l s2 E. apply tailq_remove_at in E as (-> & Hin & ->).
    apply wlp_bind. eapply wlp_mono; [apply (grown_entry i x (behind s) s1 fe f); [done|by apply filter_out_shorter|done]|].
    intros [] s2 H2. destruct (tailq_next o (stream_ops f)) as [n|].
    + eapply wlp_mono; [by apply grown_insert|]. intros [] s3 H3. exists [n]. replace (behind s - 1 + 1) with (behind s) in H3 by lia. split; [done|cbn; lia].
    + apply wlp_ret. exists []. split; [|cbn; lia]. destruct H2 as [? ? ?]. split; [done..|lia].
  - intros [] s2 (ins & H2 & Hfew). eapply wlp_mono; [by apply completed_end|]. intros [] s3 H3. by exists ins.
Qed.
End Complete.

(** ** The loops of a disk *)

Lemma tailq_after_split o l t r : tailq_after o l = t :: r → ∃ pre, l = pre ++ o :: t :: r.
Proof.
  induction l as [|y l IH]; cbn; [done|]. destruct (Nat.eqb_spec y o) as [->|]; [intros ->; by exists []|].
  intros E. destruct (IH E) as [pre ->]. by exists (y :: pre).
Qed.
Lemma tailq_after_out p t q : t ∉ p → tailq_after t (p ++ t :: q) = q.
Proof.
  induction p as [|y p IH]; cbn; [by rewrite Nat.eqb_refl|]. rewrite not_elem_of_cons. intros [Hy Hp].
  destruct (Nat.eqb_spec y t); [congruence|by apply IH].
Qed.
Lemma tailq_next_after o l : tailq_next o l = head (tailq_after o l).
Proof. induction l as [|y l IH]; cbn; [done|]. by destruct (y =? o)%nat. Qed.

Lemma next_after o l t r : NoDup l → tailq_after o l = t :: r → tailq_after t l = r.
Proof.
  intros Hn E. destruct (tailq_after_split _ _ _ _ E) as [pre ->]. rewrite cons_middle, app_assoc. apply tailq_after_out.
  apply NoDup_app in Hn as (_ & Hd & Hn). rewrite elem_of_app, list_elem_of_singleton. intros [Hin| ->].
  - apply (Hd t Hin). right. by left.
  - apply NoDup_cons in Hn as [Hn _]. apply Hn. by left.
Qed.

(** Without the operation, with what came. *)
Lemma next_after_completed o l ins t r :
  NoDup (l ++ ins) → tailq_after o l = t :: r →
  (length (tailq_after t (List.filter (λ y, negb (y =? o)%nat) (l ++ ins))) ≤ length r + length ins)%nat.
Proof.
  intros Hn E. destruct (tailq_after_split _ _ _ _ E) as [pre ->]. clear E. rewrite <- app_assoc in *. cbn [app] in *.
  apply NoDup_app in Hn as (_ & Hd & Hn). apply NoDup_cons in Hn as [Hto Hn].
  rewrite List.filter_app. cbn [List.filter]. rewrite Nat.eqb_refl. cbn [negb].
  destruct (Nat.eqb_spec t o) as [->|_]; [exfalso; apply Hto; by left|]. cbn [negb]. rewrite tailq_after_out.
  - pose proof (List.filter_length_le (λ y, negb (y =? o)%nat) (r ++ ins)) as H. rewrite length_app in H. exact H.
  - intros Hin%list_elem_of_In%filter_In%proj1%list_elem_of_In. apply (Hd t Hin). right. by left.
Qed.

Section Loops.
Context {D : DataApi} {K : IoKernel}.
Local Abbreviation lists_ok := (lists_ok true).

Lemma ended_intro {A} (m : IOM A) (Q : A → io_state → Prop) s :
  safe false m → wlp m (λ a s', lists_ok s' ∧ Q a s') s → ended true Q (m s).
Proof. intros Hm HQ. specialize (Hm s I). unfold wlp in HQ. destruct (m s) as [a s1|f]; [by apply HQ|done]. Qed.

Lemma nofuel_disk_complete i o : safe false (_dispatch_disk_complete_operation i o).
Proof. unfold _dispatch_disk_complete_operation, disk_insert. total_steps. Qed.

Lemma disk_complete_ended i o x s :
  lists_ok s → disks s !! i = Some x →
  ended true (λ _ s', ∃ ins, completed i o x (disk_work i s) ins s') (_dispatch_disk_complete_operation i o s).
Proof.
  intros Hs Hx. apply ended_intro; [apply nofuel_disk_complete|]. eapply wlp_mono; [by apply disk_complete_spec|].
  intros [] s' (ins & H). split; [by destruct H|by exists ins].
Qed.

(** A call that reads, and goes on. *)
Lemma ended_get {B X} w (p : io_state → gmap nat X) i (k : X → IOM B) R s :
  lists_ok s → (∀ x, p s !! i = Some x → ended true R (k x s)) → ended true R ((x ← (s ← getS; try_opt w (p s !! i)); k x) s).
Proof. intros Hs Hk. unfold mbind, M_bind, getS, try_opt. destruct (p s !! i) as [x|] eqn:E; [by apply Hk|done]. Qed.

(** The turns that are left. *)
Definition turns_left (i : nat) (o : option nat) (s : io_state) : Z :=
  match o, disks s !! i with Some o, Some x => zlen (tailq_after o (disk_ops x)) + disk_work i s + 1 | _, _ => 0 end.

Lemma turns_left_completed i o x ins s s' :
  disks s !! i = Some x → completed i o x (disk_work i s) ins s' →
  turns_left i (tailq_next o (disk_ops x)) s' < turns_left i (Some o) s.
Proof.
  intros Hx [_ _ Hn (x' & Hx' & Ex') Hfew Hw]. unfold turns_left. rewrite tailq_next_after, Hx, Hx'.
  assert (0 ≤ disk_work i s').
  { unfold disk_work. rewrite Hx'. pose proof (msum_nonneg zlen (stream_ops <$> fd_entries s')) as Hp.
    pose proof (zlen_nonneg (disk_ops x')). specialize (Hp ltac:(intros; apply zlen_nonneg)). lia. }
  destruct (tailq_after o (disk_ops x)) as [|t r] eqn:E; cbn [head]; [change (zlen []) with 0; lia|].
  rewrite Ex'. pose proof (next_after_completed o _ ins t r Hn E) as Hl. unfold zlen. cbn [length]. lia.
Qed.

Lemma turns_left_next i o x s :
  NoDup (disk_ops x) → disks s !! i = Some x → turns_left i (tailq_next o (disk_ops x)) s < turns_left i (Some o) s.
Proof.
  intros Hn Hx. unfold turns_left. rewrite tailq_next_after, Hx.
  assert (0 ≤ disk_work i s).
  { unfold disk_work. rewrite Hx. pose proof (msum_nonneg zlen (stream_ops <$> fd_entries s)) as Hp.
    pose proof (zlen_nonneg (disk_ops x)). specialize (Hp ltac:(intros; apply zlen_nonneg)). lia. }
  destruct (tailq_after o (disk_ops x)) as [|t r] eqn:E; cbn [head]; [change (zlen []) with 0; lia|].
  rewrite (next_after _ _ _ _ Hn E). unfold zlen. cbn [length]. lia.
Qed.

Lemma disk_cleanup_from_ended n i c o s :
  lists_ok s → turns_left i o s < Z.of_nat n → ended true (λ _ _, True) (disk_cleanup_from n i c o s).
Proof.
  revert o s. induction n as [|n IH]; intros [o|] s Hs Hn; cbn [disk_cleanup_from]; try done.
  - exfalso. unfold turns_left in Hn. destruct (disks s !! i) as [x|] eqn:Hx; [|lia]. unfold disk_work in Hn. rewrite Hx in Hn.
    pose proof (msum_nonneg zlen (stream_ops <$> fd_entries s) ltac:(intros; apply zlen_nonneg)).
    pose proof (zlen_nonneg (disk_ops x)). pose proof (zlen_nonneg (tailq_after o (disk_ops x))). lia.
  - unfold get_disk, get_op. apply (ended_get _ disks); [done|]. intros x Hx. cbv zeta. apply (ended_get _ operations); [done|]. intros op _.
    destruct (match c with Some c => _ | None => _ end); cbn [whenM].
    + eapply ended_bind; [by apply disk_complete_ended|]. intros [] s1 Hs1 (ins & Hc). apply IH; [done|].
      pose proof (turns_left_completed i o x ins s s1 Hx Hc). lia.
    + change (mret tt ≫= ?k) with (k tt). unfold mbind, M_bind, mret, M_ret. apply IH; [done|].
      pose proof (turns_left_next i o x s (Hs i x Hx) Hx). lia.
Qed.

Lemma safe_disk_cleanup i c : safe true (_dispatch_disk_cleanup_operations i c).
Proof.
  intros s Hs. unfold _dispatch_disk_cleanup_operations. unfold mbind at 1, M_bind at 1, getS. unfold get_disk.
  apply (ended_get _ disks); [done|]. intros x Hx. apply disk_cleanup_from_ended; [done|]. unfold turns_left.
  destruct (disk_ops x) as [|o l] eqn:E; cbn [head]; [lia|]. rewrite Hx, E. cbn [tailq_after]. rewrite Nat.eqb_refl.
  pose proof (msum_nonneg zlen (stream_ops <$> fd_entries s) ltac:(intros; apply zlen_nonneg)).
  unfold disk_work. rewrite Hx, E. unfold zlen. cbn [length]. lia.
Qed.

(** ** The ring *)

Lemma keeps_work {A} (m : IOM A) i s : keeps m → wlp m (λ _ s', disk_work i s' = disk_work i s) s.
Proof.
  intros Hm a s' E. pose proof (Hm s a s' E) as El. unfold lists_of in El. unfold disk_work.
  assert (Ed : disks s' = disks s) by congruence. assert (Ee : stream_ops <$> fd_entries s' = stream_ops <$> fd_entries s) by congruence.
  by rewrite Ed, Ee.
Qed.

Lemma modify_disk_work i f s :
  (∀ x, disk_ops (f x) = disk_ops x) → wlp (modify_disk i f) (λ _ s', disk_work i s' = disk_work i s) s.
Proof.
  intros Hf. unfold modify_disk. apply wlp_bind. intros x s1 E. apply (get_at _ disks) in E as [-> E]. apply wlp_modify.
  unfold disk_work. cbn [disks set_disks fd_entries]. by rewrite lookup_insert_eq, E, Hf.
Qed.

Lemma keeps_pick_inactive cur l : keeps (pick_inactive cur l).
Proof. induction l; cbn [pick_inactive]; total_steps. Qed.

Lemma pick_work i s : wlp (_dispatch_disk_pick_next_operation i) (λ _ s', disk_work i s' = disk_work i s) s.
Proof.
  unfold _dispatch_disk_pick_next_operation. apply wlp_bind. intros x s1 E. apply (get_at _ disks) in E as [-> E].
  destruct (disk_ops x) as [|o l]; [by apply wlp_ret|]. apply wlp_bind.
  apply (wlp_mono _ (λ _ s', disk_work i s' = disk_work i s)).
  { apply keeps_work. pose proof keeps_pick_inactive. total_steps. }
  intros n s1 E1. apply wlp_bind. intros y s2 E2. apply (get_at _ operations) in E2 as [-> _].
  destruct (active y); [by apply wlp_ret|]. apply wlp_bind. eapply wlp_mono; [by apply modify_disk_work|].
  intros [] s2 E2. apply wlp_ret. congruence.
Qed.

Lemma disk_complete_less i o s :
  lists_ok s → ended true (λ _ s', 0 ≤ disk_work i s' < disk_work i s) (_dispatch_disk_complete_operation i o s).
Proof.
  intros Hs. destruct (disks s !! i) as [x|] eqn:Hx.
  - apply ended_intro; [apply nofuel_disk_complete|]. eapply wlp_mono; [by apply disk_complete_spec|].
    intros [] s' (ins & [H1 _ _ (x' & Hx' & _) _ Hw]). split; [done|]. split; [|done]. unfold disk_work. rewrite Hx'.
    pose proof (msum_nonneg zlen (stream_ops <$> fd_entries s') ltac:(intros; apply zlen_nonneg)).
    pose proof (zlen_nonneg (disk_ops x')). lia.
  - unfold _dispatch_disk_complete_operation, get_op, get_disk. apply (ended_get _ operations); [done|]. intros op _.
    apply (ended_get _ disks); [done|]. congruence.
Qed.

Lemma fill_ring_ended n i k j s :
  lists_ok s → (Z.to_nat (j - k + 1) + Z.to_nat (disk_work i s) < n)%nat → ended true (λ _ _, True) (fill_ring n i k j s).
Proof.
  revert k s. induction n as [|n IH]; intros k s Hs Hn; [lia|]. cbn [fill_ring]. destruct (Z.ltb_spec j k); [done|].
  unfold get_disk. apply (ended_get _ disks); [done|]. intros x Hx.
  apply (ended_bind _ _ _ (λ _ s', s' = s)); [|intros m s1 _ ->].
  { unfold ring. destruct (decide _); [done|by split]. }
  apply (ended_bind _ _ _ (λ _ s', s' = s)); [|intros [a|] s1 _ ->; [done|]].
  { destruct (advise_list x !! m); [by split|done]. }
  apply (ended_bind _ _ _ (λ _ s', disk_work i s' = disk_work i s)); [apply ended_wlp; [auto with io_total|done|apply pick_work]|].
  intros [o|] s1 Hs1 E1; [|done].
  apply (ended_bind _ _ _ (λ _ s', disk_work i s' = disk_work i s)).
  { apply ended_wlp; [auto with io_total|done|]. rewrite <- E1. apply keeps_work. auto with io_total. }
  intros e s2 Hs2 E2. destruct (negb (e =? 0)).
  - apply (ended_bind _ _ _ (λ _ s', disk_work i s' = disk_work i s)).
    { apply ended_wlp; [auto with io_total|done|]. rewrite <- E2. apply keeps_work. auto with io_total. }
    intros [] s3 Hs3 E3. eapply ended_bind; [by apply disk_complete_less|]. intros [] s4 Hs4 E4. apply IH; [done|lia].
  - apply (ended_bind _ _ _ (λ _ s', disk_work i s' = disk_work i s)).
    { apply ended_wlp; [apply safe_modify_op|done|]. rewrite <- E2. apply keeps_work, keeps_modify_op. }
    intros [] s3 Hs3 E3. apply (ended_bind _ _ _ (λ _ s', disk_work i s' = disk_work i s)).
    { apply ended_wlp; [auto with io_total|done|]. rewrite <- E3. by apply modify_disk_work. }
    intros [] s4 Hs4 E4. apply (ended_bind _ _ _ (λ _ s', disk_work i s' = disk_work i s)).
    { apply ended_wlp; [auto with io_total|done|]. rewrite <- E4. apply keeps_work. auto with io_total. }
    intros [] s5 Hs5 E5. apply IH; [done|lia].
Qed.

Lemma safe_disk_handler i : safe true (_dispatch_disk_handler i).
Proof.
  intros s Hs. unfold _dispatch_disk_handler, get_disk. apply (ended_get _ disks); [done|]. intros x Hx.
  destruct (io_active x); [done|]. unfold mbind at 1, M_bind at 1, getS. cbv zeta.
  eapply ended_bind; [apply fill_ring_ended; [done|lia]|]. intros k s1 Hs1 _. revert s1 Hs1.
  match goal with |- ∀ s1, _ → ended true _ (?m s1) => change (safe true m) end.
  fold (get_disk i). total_steps.
Qed.

Lemma safe_advise_ring n i k j : (Z.to_nat (j - k) < n)%nat → safe true (advise_ring n i k j).
Proof.
  revert k. induction n as [|n IH]; intros k Hn; [lia|]. cbn [advise_ring].
  repeat (lazymatch goal with
          | |- safe _ (if ?k + 1 <? j then _ else _) => destruct (Z.ltb_spec (k + 1) j); [apply IH; lia|]
          | |- _ => total_step
          end; cbv beta).
Qed.

(** ** The loop of a stream *)

Definition waiting (i : nat) (s : io_state) : nat :=
  match streams s !! i with Some x => length (stream_list x) + length (random_list x) | None => O end%nat.

Lemma keeps_waiting {A} (m : IOM A) i n s : keeps m → (waiting i s < n)%nat → wlp m (λ _ s', waiting i s' < n)%nat s.
Proof.
  intros Hm Hn a s' E. pose proof (Hm s a s' E) as El. unfold lists_of in El. unfold waiting in *.
  assert (Es : streams s' = streams s) by congruence. by rewrite Es.
Qed.

Lemma waiting_put t l x :
  (length (stream_list (put_op_list t l x)) + length (random_list (put_op_list t l x)) + length (op_list t x) =
   length l + (length (stream_list x) + length (random_list x)))%nat.
Proof. destruct t; cbn; lia. Qed.

Lemma modify_stream_at i f s s' x :
  streams s !! i = Some x → modify_stream i f s = Ok tt s' → s' = set_streams (<[i := f x]> (streams s)) s.
Proof.
  intros Hx. unfold modify_stream, mbind, M_bind. destruct (get_stream i s) as [y s1|] eqn:E; [|done].
  apply (get_at _ streams) in E as [-> E]. rewrite Hx in E. injection E as <-. by intros [= <-].
Qed.

Lemma stream_complete_less i o s : wlp (_dispatch_stream_complete_operation i o) (λ _ s', waiting i s' < waiting i s)%nat s.
Proof.
  unfold _dispatch_stream_complete_operation. apply wlp_bind. intros op s0 E. apply (get_at _ operations) in E as [-> _].
  apply wlp_bind. intros x s0 E. apply (get_at _ streams) in E as [-> Ex]. cbv zeta. apply wlp_bind.
  intros l s0 E. apply tailq_remove_at in E as (-> & Hin & ->). set (l := List.filter _ _).
  pose proof (filter_out_shorter o _ Hin) as Hl. fold l in Hl.
  pose proof (waiting_put (io_type (params op)) l x) as Hw. set (x' := put_op_list _ l x) in Hw.
  apply wlp_bind. intros [] s1 E. apply (modify_stream_at i _ s s1 x Ex) in E. fold x' in E.
  assert (Hx' : streams s1 !! i = Some x') by (subst s1; apply lookup_insert_eq).
  apply wlp_bind, (wlp_mono _ (λ _ s', waiting i s' < waiting i s)%nat).
  - destruct (bool_decide _); cbn [whenM].
    + intros [] s3 E3. apply (modify_stream_at i _ s1 s3 x' Hx') in E3 as ->. unfold waiting. cbn [streams set_streams].
      rewrite lookup_insert_eq, Ex. cbn. lia.
    + apply wlp_ret. unfold waiting. rewrite Hx', Ex. lia.
  - intros [] s2 H2. apply wlp_bind. eapply wlp_mono; [apply (keeps_waiting _ i (waiting i s) s2); [auto with io_total|done]|].
    intros [] s3 H3. apply (keeps_waiting _ i (waiting i s) s3); [auto with io_total|done].
Qed.

Lemma stream_pick_ended n i s : lists_ok s → (waiting i s < n)%nat → ended true (λ _ _, True) (stream_pick n i s).
Proof.
  revert s. induction n as [|n IH]; intros s Hs Hn; [lia|]. cbn [stream_pick]. unfold get_stream.
  apply (ended_get _ streams); [done|]. intros x Hx.
  apply (ended_bind _ _ _ (λ _ s', waiting i s' < S n)%nat).
  { apply ended_wlp; [auto with io_total|done|]. apply keeps_waiting; [|done].
    unfold _dispatch_stream_pick_next_operation, get_stream. total_steps. }
  intros [o|] s1 Hs1 H1; [|done].
  apply (ended_bind _ _ _ (λ _ s', waiting i s' < S n)%nat); [apply ended_wlp; [auto with io_total|done|apply keeps_waiting; auto with io_total]|].
  intros e s2 Hs2 H2. destruct (negb (e =? 0)).
  - apply (ended_bind _ _ _ (λ _ s', waiting i s' < S n)%nat).
    { apply ended_wlp; [auto with io_total|done|]. apply keeps_waiting; [auto with io_total|done]. }
    intros [] s3 Hs3 H3. apply (ended_bind _ _ _ (λ _ s', waiting i s' < waiting i s3)%nat).
    { apply ended_wlp; [auto with io_total|done|apply stream_complete_less]. }
    intros [] s4 Hs4 H4. apply IH; [done|lia].
  - revert s2 Hs2 H2. intros s2 Hs2 _. revert s2 Hs2.
    match goal with |- ∀ s1, _ → ended true _ (?m s1) => change (safe true m) end. total_steps.
Qed.

Lemma safe_stream_handler i : safe true (_dispatch_stream_handler i).
Proof.
  intros s Hs. unfold _dispatch_stream_handler. apply (ended_bind _ _ _ (λ n s', waiting i s' < n)%nat).
  - unfold pick_fuel, get_stream. apply (ended_get _ streams); [done|]. intros x Hx. split; [done|]. unfold waiting. rewrite Hx. lia.
  - intros n s1 Hs1 Hn. eapply ended_bind; [by apply stream_pick_ended|]. intros op s2 Hs2 _. revert s2 Hs2.
    match goal with |- ∀ s1, _ → ended true _ (?m s1) => change (safe true m) end. total_steps.
Qed.
End Loops.
#[export] Hint Resolve safe_disk_cleanup safe_disk_handler safe_stream_handler : io_total.

(** ** Every call *)

Section Calls.
Context {D : DataApi} {K : IoKernel}.
Local Abbreviation safe := (safe true).

Lemma safe_disk_insert i n : safe (disk_insert i n).
Proof.
  intros s Hs. apply ended_intro; [unfold disk_insert; total_steps|]. destruct (disks s !! i) as [x|] eqn:Hx.
  - eapply wlp_mono; [apply (grown_insert i x (behind s))|].
    + split; [done|exists x; by rewrite app_nil_r|change (zlen []) with 0; lia].
    + intros [] s' [? _ _]. done.
  - unfold disk_insert. apply wlp_bind. intros x s1 E. apply (get_at _ disks) in E as [_ E]. congruence.
Qed.
Lemma safe_disk_complete i o : safe (_dispatch_disk_complete_operation i o).
Proof. intros s Hs. eapply ended_safe. by apply disk_complete_less. Qed.
Lemma safe_stream_source i o : safe (_dispatch_stream_source i o).
Proof. unfold _dispatch_stream_source. total_steps. Qed.
Lemma safe_resume i : safe (source_resume i).
Proof. unfold source_resume. total_steps. Qed.
Lemma safe_suspend i : safe (source_suspend i).
Proof. unfold source_suspend. total_steps. Qed.
Lemma safe_avail i : safe (stream_avail i).
Proof. unfold stream_avail. total_steps. Qed.
Hint Resolve safe_disk_insert safe_disk_complete safe_stream_source safe_resume safe_suspend safe_avail : io_total.

Lemma safe_stream_turn i : safe (stream_turn i).
Proof. unfold stream_turn, stream_end, stream_result, run_stream_block, _dispatch_stream_enqueue_operation. total_steps. Qed.
Lemma safe_source_event i : safe (source_event i).
Proof. unfold source_event, _dispatch_stream_source_handler. total_steps. Qed.
Lemma safe_pick_turn i : safe (pick_turn i).
Proof. unfold pick_turn, run_disk_block, _dispatch_disk_enqueue_operation, disk_performed. total_steps. Qed.
Lemma safe_perform_turn i : safe (perform_turn i).
Proof.
  unfold perform_turn, disk_end, _dispatch_disk_perform.
  repeat (lazymatch goal with
          | |- IoTotal.safe _ (advise_ring _ _ _ _) => apply safe_advise_ring; lia
          | |- _ => total_step
          end; cbv beta).
Qed.
Lemma safe_entry_cleanup e c : safe (_dispatch_fd_entry_cleanup_operations e c).
Proof. unfold _dispatch_fd_entry_cleanup_operations. total_steps. Qed.
Hint Resolve safe_entry_cleanup : io_total.
Lemma safe_op_enqueue o d : safe (_dispatch_operation_enqueue o d).
Proof. unfold _dispatch_operation_enqueue. total_steps. Qed.
Lemma safe_barrier_turn q : safe (barrier_turn q).
Proof.
  pose proof safe_op_enqueue. unfold barrier_turn, run_barrier_block, io_stop_block, io_close_block, find_entry. total_steps.
Qed.
Lemma safe_submit dir c off len d o : safe (submit dir c off len d o).
Proof. unfold submit, _dispatch_operation_create. total_steps. Qed.

Lemma safe_exec c : safe (io_exec c).
Proof.
  destruct c; cbn [io_exec]; unfold _dispatch_iocntl, dispatch_io_set_high_water, dispatch_io_set_low_water, dispatch_io_set_interval,
    dispatch_io_close, _dispatch_io_stop, io_stopped, io_stop_push, dispatch_io_barrier, barrier_notify, _dispatch_operation_timer;
    first [apply safe_submit|apply safe_barrier_turn|apply safe_stream_turn|apply safe_source_event|apply safe_pick_turn|apply safe_perform_turn|total_steps].
Qed.

(** C24. Every sequence of calls, of turns of the queues and of events ends: the loops
    of the handlers, of the cleanups and of the rings stop within their bounds,
    whatever the kernel and the other threads do, if no operation is twice on the
    list of a disk at the beginning; then none ever is. *)
Theorem io_calls_end cs s :
  lists_ok true s →
  match io_exec_all cs s with Ok _ s' => lists_ok true s' | Fault f => f ≠ OutOfFuel end.
Proof.
  intros Hs. enough (H : ended true (λ _ _, True) (io_exec_all cs s)) by (destruct (io_exec_all cs s); [by destruct H|done]).
  revert s Hs. induction cs as [|c cs IH]; intros s Hs; cbn [io_exec_all]; [done|].
  apply (ended_bind _ _ _ (λ _ _, True)); [by apply safe_exec|]. intros [] s1 Hs1 _. by apply IH.
Qed.
End Calls.

(** Two reads on a disk, to the end of the file. *)
Definition disk_calls : list io_call :=
  [A_read 1 0 10 1; A_read 2 0 3 2; A_barrier 1; A_barrier 1; A_pick 1; A_pick 1] ++
  concat (replicate 6 [A_perform 1; A_perform 1; A_pick 1]).

Lemma io_calls_end_witness :
  match io_exec_all (K := file_kernel [1; 2; 3; 4; 5] (λ _ _, false)) disk_calls (two_channels (Some 1%nat)) with
  | Ok _ s' => lists_ok true s' ∧ size (operations s') = O
  | Fault _ => False
  end.
Proof.
  set (K := file_kernel [1; 2; 3; 4; 5] (λ _ _, false)).
  assert (Hs : lists_ok true (two_channels (Some 1%nat))).
  { intros i x Hx. change (<[1%nat := _dispatch_disk_init dispatch_io_defaults]> (∅ : gmap nat dispatch_disk_s) !! i = Some x) in Hx.
    apply lookup_insert_Some in Hx as [[_ <-]|[_ Hx]]; [apply NoDup_nil_2|done]. }
  pose proof (io_calls_end (K := K) disk_calls _ Hs) as H.
  assert (F : match io_exec_all disk_calls (two_channels (Some 1%nat)) with Ok _ s => size (operations s) = O | Fault _ => False end)
    by (vm_compute; reflexivity).
  destruct (io_exec_all disk_calls (two_channels (Some 1%nat))) as [[] s'|]; [|done]. by split.
Defined.
