(* ===== verification/IoBarrier.v ===== *)
(** * Barriers of dispatch I/O

    The group of an entry counts the operations that were enqueued on it and are
    not gone: a barrier, which waits for the group, is called between
    operations. *)

From S2P Require Import Prelude Io IoStream IoDisk IoTrack IoModel.

(** ** The operations of an entry *)

Section Group.
Context {D : DataApi}.

Definition on_entry (e : nat) (x : option nat) : Z := if decide (x = Some e) then 1 else 0.
(** How many operations the entry has. *)
Definition alive (e : nat) (s : io_state) : Z := msum (on_entry e) (fd_entry <$> operations s).
Definition group_ok (s : io_state) : Prop := ∀ e f, fd_entries s !! e = Some f → alive e s ≤ barrier_group f.

Definition group_view (s : io_state) := (fd_entry <$> operations s, barrier_group <$> fd_entries s).
Definition same {A} (m : IOM A) : Prop := ∀ s a s', m s = Ok a s' → group_view s' = group_view s.
Definition holds {A} (m : IOM A) : Prop := ∀ s, group_ok s → wlp m (λ _, group_ok) s.

Lemma on_entry_nonneg e x : 0 ≤ on_entry e x.
Proof. unfold on_entry. destruct (decide _); lia. Qed.

Lemma group_ok_view s s' : group_view s' = group_view s → group_ok s → group_ok s'.
Proof.
  unfold group_view. intros E H e f Hf. assert (Eo : fd_entry <$> operations s' = fd_entry <$> operations s) by congruence.
  assert (Eb : barrier_group <$> fd_entries s' = barrier_group <$> fd_entries s) by congruence.
  assert (Hb : (barrier_group <$> fd_entries s) !! e = Some (barrier_group f)) by by rewrite <- Eb, lookup_fmap, Hf.
  rewrite lookup_fmap in Hb. destruct (fd_entries s !! e) as [f'|] eqn:E'; [|done]. injection Hb as Hb.
  unfold alive. rewrite Eo, <- Hb. by apply H.
Qed.

(** ** Rules *)

Lemma same_bind {A B} (m : IOM A) (k : A → IOM B) : same m → (∀ a, same (k a)) → same (m ≫= k).
Proof.
  intros Hm Hk s y s'. unfold mbind, M_bind. destruct (m s) as [a s1|] eqn:E; [|done]. intros E'.
  rewrite (Hk a s1 y s' E'). by apply (Hm s a).
Qed.
Lemma same_ret {A} (a : A) : same (mret a).
Proof. by intros ? ? ? [= <- <-]. Qed.
Lemma same_get : same getS.
Proof. by intros ? ? ? [= <- <-]. Qed.
Lemma same_fail {A} f : same (fail (A := A) f).
Proof. by intros ? ? ?. Qed.
Lemma same_try_opt {A} w (x : option A) : same (try_opt w x).
Proof. destruct x; [apply same_ret|apply same_fail]. Qed.
Lemma same_modify f : (∀ s, group_view (f s) = group_view s) → same (modifyS f).
Proof. intros H ? ? ? [= <- <-]. apply H. Qed.

Lemma same_holds {A} (m : IOM A) : same m → holds m.
Proof. intros H s Hs a s' E. apply (group_ok_view s); [by apply (H s a)|done]. Qed.
Lemma holds_bind {A B} (m : IOM A) (k : A → IOM B) : holds m → (∀ a, holds (k a)) → holds (m ≫= k).
Proof. intros Hm Hk s Hs. apply wlp_bind. intros a s' E. by apply (Hk a), (Hm s Hs a). Qed.
End Group.

Create HintDb io_group.
#[export] Hint Resolve same_ret same_get same_fail same_try_opt : io_group.
Ltac same_step :=
  lazymatch goal with
  | |- same (mbind _ _) => apply same_bind; [|intros ?]
  | |- same (modifyS _) => by apply same_modify
  | |- same (if ?b then _ else _) => destruct b
  | |- same (match ?b with _ => _ end) => destruct b
  | |- same (let _ := _ in _) => cbv zeta
  | |- same (whenM ?b _) => destruct b; cbn [whenM]
  | |- _ => by auto with io_group
  end.
Ltac same_steps := repeat (same_step; cbv beta).
Ltac hold_step :=
  lazymatch goal with
  | |- holds (mbind _ _) => apply holds_bind; [|intros ?]
  | |- holds (if ?b then _ else _) => destruct b
  | |- holds (match ?b with _ => _ end) => destruct b
  | |- holds (let _ := _ in _) => cbv zeta
  | |- holds (whenM ?b _) => destruct b; cbn [whenM]
  | |- holds _ => first [by auto with io_group | apply same_holds; by same_steps]
  end.
Ltac hold_steps := repeat (hold_step; cbv beta).

(** ** Steps that do not count *)

Section Same.
Context {D : DataApi} {K : IoKernel}.

Lemma same_get_op o : same (get_op o).
Proof. unfold get_op. same_steps. Qed.
Lemma same_get_channel c : same (get_channel c).
Proof. unfold get_channel. same_steps. Qed.
Lemma same_get_entry e : same (get_entry e).
Proof. unfold get_entry. same_steps. Qed.
Lemma same_get_stream i : same (get_stream i).
Proof. unfold get_stream. same_steps. Qed.
Lemma same_get_disk i : same (get_disk i).
Proof. unfold get_disk. same_steps. Qed.
Lemma same_get_barrier q : same (get_barrier q).
Proof. unfold get_barrier. same_steps. Qed.
Hint Resolve same_get_op same_get_channel same_get_entry same_get_stream same_get_disk same_get_barrier : io_group.

Lemma same_modify_channel c f : same (modify_channel c f).
Proof. unfold modify_channel. same_steps. Qed.
Lemma same_modify_stream i f : same (modify_stream i f).
Proof. unfold modify_stream. same_steps. Qed.
Lemma same_modify_disk i f : same (modify_disk i f).
Proof. unfold modify_disk. same_steps. Qed.
Lemma same_call_handler o d x e : same (call_handler o d x e).
Proof. unfold call_handler. same_steps. Qed.
Lemma same_syscall o c : same (syscall o c).
Proof. unfold syscall. same_steps. Qed.
Lemma same_async_barrier q b : same (async_barrier q b).
Proof. unfold async_barrier. same_steps. Qed.
Hint Resolve same_modify_channel same_modify_stream same_modify_disk same_call_handler same_syscall same_async_barrier : io_group.

Lemma same_modify_op o f : (∀ x, fd_entry (f x) = fd_entry x) → same (modify_op o f).
Proof.
  intros Hf s a s'. unfold modify_op, mbind at 1, M_bind at 1. destruct (get_op o s) as [x s1|] eqn:E; [|done].
  apply (get_at _ operations) in E as [-> E]. intros [= <- <-]. unfold group_view. cbn [operations set_operations fd_entries].
  by rewrite (fmap_insert_same fd_entry _ _ x).
Qed.
Lemma same_modify_entry e f : (∀ x, barrier_group (f x) = barrier_group x) → same (modify_entry e f).
Proof.
  intros Hf s a s'. unfold modify_entry, mbind at 1, M_bind at 1. destruct (get_entry e s) as [x s1|] eqn:E; [|done].
  apply (get_at _ fd_entries) in E as [-> E]. intros [= <- <-]. unfold group_view. cbn [operations set_fd_entries fd_entries].
  by rewrite (fmap_insert_same barrier_group _ _ x).
Qed.
End Same.
#[export] Hint Resolve same_get_op same_get_channel same_get_entry same_get_stream same_get_disk same_get_barrier same_modify_channel same_modify_stream
  same_modify_disk same_call_handler same_syscall same_async_barrier : io_group.
#[export] Hint Extern 1 (same (modify_op _ _)) => by apply same_modify_op : io_group.
#[export] Hint Extern 1 (same (modify_entry _ _)) => by apply same_modify_entry : io_group.
#[export] Hint Extern 1 (same (async_stream _ _)) => apply same_modify_stream : io_group.
#[export] Hint Extern 1 (same (async_pick _ _)) => apply same_modify_disk : io_group.

(** ** Steps of an operation *)

Section Steps.
Context {D : DataApi} {K : IoKernel}.

Lemma same_read_flags c : same (read_flags c).
Proof. unfold read_flags. same_steps. Qed.
Hint Resolve same_read_flags : io_group.
Lemma same_get_error op c ic : same (_dispatch_io_get_error op c ic).
Proof. unfold _dispatch_io_get_error. same_steps. Qed.
Hint Resolve same_get_error : io_group.
Lemma same_op_error o : same (op_error o).
Proof. unfold op_error. same_steps. Qed.
Lemma same_open e c : same (_dispatch_fd_entry_open e c).
Proof. unfold _dispatch_fd_entry_open. same_steps. Qed.
Hint Resolve same_op_error same_open : io_group.
Lemma same_perform o : same (_dispatch_operation_perform o).
Proof. unfold _dispatch_operation_perform, _dispatch_operation_handle_error, make_buffer, op_processed. same_steps. Qed.
Lemma same_deliver_block o dir dn d e : same (deliver_block o dir dn d e).
Proof. unfold deliver_block. same_steps. Qed.
Hint Resolve same_perform same_deliver_block : io_group.

Lemma deliver_read_entry deliver x d x' : deliver_read deliver x = (d, x') → fd_entry x' = fd_entry x.
Proof. unfold deliver_read. destruct (negb _); by intros [= _ <-]. Qed.
Lemma deliver_write_entry deliver x d x' : deliver_write deliver x = (d, x') → fd_entry x' = fd_entry x.
Proof. unfold deliver_write. destruct (_ && _); by intros [= _ <-]. Qed.

(** A step on the operation that was read. *)
Lemma same_op_at {B} o (k : dispatch_operation_s → IOM B) :
  (∀ x s a s', operations s !! o = Some x → k x s = Ok a s' → group_view s' = group_view s) → same (get_op o ≫= k).
Proof.
  intros Hk s a s'. unfold mbind at 1, M_bind at 1. destruct (get_op o s) as [x s1|] eqn:E; [|done].
  apply (get_at _ operations) in E as [-> E]. by apply Hk.
Qed.

Lemma same_put_op {B} o x x' (k : IOM B) s a s' :
  operations s !! o = Some x → fd_entry x' = fd_entry x → same k → (modify_op o (λ _, x');; k) s = Ok a s' → group_view s' = group_view s.
Proof.
  intros Hx Ex Hk. unfold mbind at 1, M_bind at 1. destruct (modify_op o _ s) as [[] s1|] eqn:E; [|done]. intros E'.
  rewrite (Hk s1 a s' E'). revert E. unfold modify_op, mbind, M_bind. destruct (get_op o s) as [y s2|] eqn:E2; [|done].
  apply (get_at _ operations) in E2 as [-> E2]. rewrite Hx in E2. injection E2 as <-. intros [= <-].
  unfold group_view. cbn [operations set_operations fd_entries]. by rewrite (fmap_insert_same fd_entry _ _ x).
Qed.

Lemma same_deliver o fl : same (_dispatch_operation_deliver_data o fl).
Proof.
  unfold _dispatch_operation_deliver_data. same_step; [same_step|]. cbv zeta. same_step; [same_step|]. destruct (_ && _); [same_step|].
  apply same_bind; [same_steps|intros e]. apply same_op_at. intros x s r s' Hx. set (deliver := _ || _).
  assert (He : ∀ d x', match direction x with DOP_DIR_READ => let '(d, x') := deliver_read deliver x in (Some d, x')
                       | DOP_DIR_WRITE => deliver_write deliver x end = (d, x') → fd_entry x' = fd_entry x).
  { intros d x'. destruct (direction x); [|apply deliver_write_entry].
    destruct (deliver_read deliver x) as [d0 x0] eqn:Er. intros [= _ <-]. by apply deliver_read_entry in Er. }
  destruct (match direction x with DOP_DIR_READ => _ | DOP_DIR_WRITE => _ end) as [d x'].
  apply (same_put_op o x); [done|by apply (He d)|]. same_steps.
Qed.
Hint Resolve same_deliver : io_group.

(** The last reference. *)
Lemma holds_dispose o : holds (_dispatch_operation_dispose o).
Proof.
  intros s Hs. unfold _dispatch_operation_dispose. apply wlp_bind. intros x s0 E. apply (get_at _ operations) in E as [-> Hx].
  assert (Hdel : ∀ s1 e, group_view s1 = group_view s → alive e (set_operations (delete o (operations s1)) s1) = alive e s - on_entry e (fd_entry x)).
  { intros s1 e Hv. unfold group_view in Hv. assert (Eo : fd_entry <$> operations s1 = fd_entry <$> operations s) by congruence.
    unfold alive. cbn [operations set_operations]. rewrite fmap_delete, Eo. apply msum_delete. by rewrite lookup_fmap, Hx. }
  apply wlp_bind. destruct (fd_entry x) as [e|] eqn:Ee.
  - apply wlp_bind. intros [] s1 E1. apply same_deliver in E1. intros [] s2 E2.
    unfold modify_entry, mbind, M_bind in E2. destruct (get_entry e s1) as [f s3|] eqn:E3; [|done].
    apply (get_at _ fd_entries) in E3 as [-> Hf]. injection E2 as <-. apply wlp_modify. intros e' f'. cbn [fd_entries set_operations set_fd_entries].
    pose proof (group_ok_view s s1 E1 Hs) as Hs1. specialize (Hdel s1 e' E1).
    change (alive e' (set_operations _ _)) with (alive e' (set_operations (delete o (operations s1)) s1)). rewrite Hdel.
    assert (Ha : alive e' s = alive e' s1) by (unfold alive, group_view in *; assert (fd_entry <$> operations s1 = fd_entry <$> operations s) by congruence; congruence).
    rewrite Ha. pose proof (on_entry_nonneg e' (Some e)). destruct (decide (e' = e)) as [->|].
    + rewrite lookup_insert_eq. intros [= <-]. cbn. unfold on_entry. rewrite decide_True by done. specialize (Hs1 e f Hf). lia.
    + rewrite lookup_insert_ne by done. intros Hf'. specialize (Hs1 e' f' Hf'). lia.
  - apply wlp_ret, wlp_modify. intros e f. cbn [fd_entries set_operations]. intros Hf. rewrite (Hdel s e eq_refl).
    pose proof (on_entry_nonneg e None). specialize (Hs e f Hf). lia.
Qed.
Hint Resolve holds_dispose : io_group.

Lemma holds_release o : holds (_dispatch_release o).
Proof. unfold _dispatch_release. hold_steps. Qed.
Hint Resolve holds_release : io_group.

Lemma alive_insert e o x (s : io_state) : alive e (set_operations (<[o := x]> (operations s)) s) ≤ alive e s + on_entry e (fd_entry x).
Proof.
  unfold alive. cbn [operations set_operations]. rewrite fmap_insert. destruct (operations s !! o) as [y|] eqn:E.
  - rewrite (msum_update _ _ _ (fd_entry y)) by by rewrite lookup_fmap, E. pose proof (on_entry_nonneg e (fd_entry y)). lia.
  - rewrite msum_insert by by rewrite lookup_fmap, E. lia.
Qed.

(** The operation enters the group. *)
Lemma holds_enter {B} o fe (k : IOM B) :
  holds k → holds (modify_op o (put_fd_entry (Some fe));; modify_entry fe (λ f, put_barrier_group (barrier_group f + 1) f);; k).
Proof.
  intros Hk s Hs. apply wlp_bind. intros [] s1 E. apply wlp_bind. intros [] s2 E2. apply Hk.
  unfold modify_op, mbind, M_bind in E. destruct (get_op o s) as [x s3|] eqn:E3; [|done].
  apply (get_at _ operations) in E3 as [-> _]. injection E as <-.
  unfold modify_entry, mbind, M_bind in E2. destruct (get_entry fe _) as [f s3|] eqn:E3; [|done].
  apply (get_at _ fd_entries) in E3 as [-> Hf]. injection E2 as <-. cbn [fd_entries set_operations] in Hf.
  intros e' f'. cbn [fd_entries set_operations set_fd_entries]. set (x' := put_fd_entry (Some fe) x).
  change (alive e' (set_fd_entries _ _)) with (alive e' (set_operations (<[o := x']> (operations s)) s)).
  pose proof (alive_insert e' o x' s) as Ha. change (fd_entry x') with (Some fe) in Ha. unfold on_entry in Ha.
  destruct (decide (e' = fe)) as [->|Hne].
  - rewrite lookup_insert_eq. intros [= <-]. cbn. specialize (Hs fe f Hf). destruct (decide _); lia.
  - rewrite lookup_insert_ne by done. intros Hf'. specialize (Hs e' f' Hf'). rewrite decide_False in Ha by congruence. lia.
Qed.

Lemma holds_op_enqueue o d : holds (_dispatch_operation_enqueue o d).
Proof.
  unfold _dispatch_operation_enqueue. hold_step; [hold_step|]. hold_step; [hold_step|]. destruct (negb _); [hold_steps|].
  hold_step; [hold_step|]. hold_step; [hold_step|]. apply holds_enter. hold_steps.
Qed.

Lemma holds_submit dir c off len d o : holds (submit dir c off len d o).
Proof.
  unfold submit, _dispatch_operation_create. hold_steps. intros s Hs. apply wlp_modify. intros e f Hf.
  match goal with |- alive e (set_operations (<[o := ?x]> _) _) ≤ _ => pose proof (alive_insert e o x s) as Ha end.
  cbn [fd_entry] in Ha. unfold on_entry in Ha. rewrite decide_False in Ha by done. specialize (Hs e f Hf). lia.
Qed.
End Steps.
#[export] Hint Resolve same_read_flags same_get_error same_op_error same_open same_perform same_deliver holds_release holds_op_enqueue holds_submit : io_group.

(** ** Every call *)

Section Calls.
Context {D : DataApi} {K : IoKernel}.

Lemma same_tailq_remove x l : same (tailq_remove x l).
Proof. unfold tailq_remove. same_steps. Qed.
Lemma same_insert_tail x l : same (tailq_insert_tail x l).
Proof. unfold tailq_insert_tail. same_steps. Qed.
Hint Resolve same_tailq_remove same_insert_tail : io_group.

Lemma holds_should_enqueue o d : holds (_dispatch_operation_should_enqueue o d).
Proof. unfold _dispatch_operation_should_enqueue. hold_steps. Qed.
Lemma same_pick_next i x : same (_dispatch_stream_pick_next_operation i x).
Proof. unfold _dispatch_stream_pick_next_operation. same_steps. Qed.
Lemma same_pick_fuel i : same (pick_fuel i).
Proof. unfold pick_fuel. same_steps. Qed.
Lemma same_avail i : same (stream_avail i).
Proof. unfold stream_avail. same_steps. Qed.
Lemma same_suspend i : same (source_suspend i).
Proof. unfold source_suspend. same_steps. Qed.
Lemma same_resume i : same (source_resume i).
Proof. unfold source_resume. same_steps. Qed.
Lemma same_stream_source i o : same (_dispatch_stream_source i o).
Proof. unfold _dispatch_stream_source. same_steps. Qed.
Hint Resolve holds_should_enqueue same_pick_next same_pick_fuel same_avail same_suspend same_resume same_stream_source : io_group.
Lemma holds_stream_complete i o : holds (_dispatch_stream_complete_operation i o).
Proof. unfold _dispatch_stream_complete_operation, cancel_timer. hold_steps. Qed.
Hint Resolve holds_stream_complete : io_group.
Lemma holds_stream_cleanup_list i c l : holds (stream_cleanup_list i c l).
Proof. induction l; cbn [stream_cleanup_list]; hold_steps. Qed.
Hint Resolve holds_stream_cleanup_list : io_group.
Lemma holds_stream_cleanup i c : holds (_dispatch_stream_cleanup_operations i c).
Proof. unfold _dispatch_stream_cleanup_operations. hold_steps. Qed.
Lemma holds_stream_pick n i : holds (stream_pick n i).
Proof. induction n; cbn [stream_pick]; hold_steps. Qed.
Hint Resolve holds_stream_cleanup holds_stream_pick : io_group.
Lemma holds_stream_handler i : holds (_dispatch_stream_handler i).
Proof. unfold _dispatch_stream_handler. hold_steps. Qed.
Hint Resolve holds_stream_handler : io_group.
Lemma holds_stream_turn i : holds (stream_turn i).
Proof. unfold stream_turn, stream_end, stream_result, run_stream_block, _dispatch_stream_enqueue_operation. hold_steps. Qed.
Lemma holds_source_event i : holds (source_event i).
Proof. unfold source_event, _dispatch_stream_source_handler. hold_steps. Qed.

Lemma same_pick_inactive cur l : same (pick_inactive cur l).
Proof. induction l; cbn [pick_inactive]; same_steps. Qed.
Hint Resolve same_pick_inactive : io_group.
Lemma same_disk_pick i : same (_dispatch_disk_pick_next_operation i).
Proof. unfold _dispatch_disk_pick_next_operation. same_steps. Qed.
Lemma same_ring k x : same (ring k x).
Proof. unfold ring. same_steps. Qed.
Lemma same_disk_insert i n : same (disk_insert i n).
Proof. unfold disk_insert. same_steps. Qed.
Hint Resolve same_disk_pick same_ring same_disk_insert : io_group.
Lemma holds_disk_complete i o : holds (_dispatch_disk_complete_operation i o).
Proof. unfold _dispatch_disk_complete_operation, cancel_timer. hold_steps. Qed.
Hint Resolve holds_disk_complete : io_group.
Lemma holds_disk_cleanup_from n i c x : holds (disk_cleanup_from n i c x).
Proof. revert x. induction n; intros [x|]; cbn [disk_cleanup_from]; hold_steps. Qed.
Hint Resolve holds_disk_cleanup_from : io_group.
Lemma holds_disk_cleanup i c : holds (_dispatch_disk_cleanup_operations i c).
Proof. unfold _dispatch_disk_cleanup_operations. hold_steps. Qed.
Lemma same_retain o : same (_dispatch_retain o).
Proof. unfold _dispatch_retain. same_steps. Qed.
Hint Resolve holds_disk_cleanup same_retain : io_group.
Lemma holds_fill_ring n i k j : holds (fill_ring n i k j).
Proof. revert k. induction n; intros k; cbn [fill_ring]; hold_steps. Qed.
Hint Resolve holds_fill_ring : io_group.
Lemma holds_disk_handler i : holds (_dispatch_disk_handler i).
Proof. unfold _dispatch_disk_handler. hold_steps. Qed.
Lemma same_advise_ring n i k j : same (advise_ring n i k j).
Proof. revert k. induction n; intros k; cbn [advise_ring]; same_steps. Qed.
Hint Resolve holds_disk_handler same_advise_ring : io_group.
Lemma holds_pick_turn i : holds (pick_turn i).
Proof. unfold pick_turn, run_disk_block, _dispatch_disk_enqueue_operation, disk_performed. hold_steps. Qed.
Lemma holds_perform_turn i : holds (perform_turn i).
Proof. unfold perform_turn, disk_end, _dispatch_disk_perform. hold_steps. Qed.

Lemma same_entry_cleanup e c : same (_dispatch_fd_entry_cleanup_operations e c).
Proof. unfold _dispatch_fd_entry_cleanup_operations. same_steps. Qed.
Hint Resolve same_entry_cleanup : io_group.
Lemma holds_barrier_turn q : holds (barrier_turn q).
Proof. unfold barrier_turn, run_barrier_block, io_stop_block, io_close_block, find_entry. hold_steps. Qed.
Lemma same_notify q : same (barrier_notify q).
Proof. unfold barrier_notify. same_steps. Qed.
Hint Resolve same_notify : io_group.

Lemma holds_exec c : holds (io_exec c).
Proof.
  destruct c; cbn [io_exec]; unfold _dispatch_iocntl, dispatch_io_set_high_water, dispatch_io_set_low_water, dispatch_io_set_interval,
    dispatch_io_close, _dispatch_io_stop, io_stopped, io_stop_push, dispatch_io_barrier, _dispatch_operation_timer;
    first [apply holds_submit|apply holds_barrier_turn|apply holds_stream_turn|apply holds_source_event|apply holds_pick_turn|apply holds_perform_turn
          |hold_steps].
Qed.

Lemma holds_exec_all cs : holds (io_exec_all cs).
Proof. induction cs as [|c cs IH]; cbn [io_exec_all]; [apply same_holds, same_ret|]. apply holds_bind; [apply holds_exec|by intros []]. Qed.

(** C22. A barrier is called between operations.  After any calls, turns of the queues
    and events, when a barrier [b] that waits on a barrier queue for the group of
    an entry is called, no operation of the entry exists: each one that was
    enqueued before the barrier has ended, and called its handler for the last
    time, and none of those that come after it has started.  Until then the
    barrier is not called and the queue stays suspended. *)
Theorem barrier_between_operations cs q e b s0 s s' :
  group_ok s0 → io_exec_all cs s0 = Ok tt s → barrier_waits s !! q = Some (e, b) → io_exec (A_notify q) s = Ok tt s' →
  (barrier_calls s' = barrier_calls s ++ [b] ∧ barrier_waits s' !! q = None ∧
   ∀ o x, operations s !! o = Some x → fd_entry x ≠ Some e) ∨
  (s' = s ∧ barrier_turn q s = (match barriers s !! q with Some _ => Ok tt s | None => Fault (UB "barrier_queue") end)).
Proof.
  intros H0 Hrun Hq. apply (holds_exec_all cs s0 H0) in Hrun as Hs. cbn [io_exec]. unfold barrier_notify, mbind, M_bind, getS. rewrite Hq.
  destruct (get_entry e s) as [f s1|] eqn:Ef; [|done]. apply (get_at _ fd_entries) in Ef as [-> Hf].
  destruct (Z.eqb_spec (barrier_group f) 0) as [Hg|Hg]; cbn [whenM].
  - intros [= <-]. left. split; [done|]. split; [apply lookup_delete_eq|]. intros o x Hx Ex. specialize (Hs e f Hf).
    assert (Hp : on_entry e (fd_entry x) ≤ alive e s).
    { apply (msum_pos _ _ o); [intros; apply on_entry_nonneg|]. by rewrite lookup_fmap, Hx. }
    unfold on_entry in Hp at 1. rewrite decide_True in Hp by done. lia.
  - intros [= <-]. right. split; [done|]. unfold barrier_turn, get_barrier, mbind, M_bind, getS, try_opt.
    destruct (barriers s !! q) as [[|? l]|]; cbn; rewrite ?Hq; done.
Qed.
End Calls.

(** A barrier behind a read and before another one is called when the first one
    has ended, and the second one has not started. *)
Definition barrier_run : list io_call :=
  [A_read 1 0 3 1; A_io_barrier 1 9; A_read 1 0 3 2; A_barrier 1; A_barrier 1; A_barrier 1; A_notify 1; A_stream 1; A_stream 1; A_stream 1].

Lemma barrier_between_operations_witness :
  let K := file_kernel [1; 2; 3; 4; 5] (λ _ _, false) in
  match io_exec_all barrier_run (two_channels None) with
  | Ok _ s =>
      match io_exec (A_notify 1) s with
      | Ok _ s' => hc_done <$> calls_of 1 s = [true] ∧ calls_of 2 s = [] ∧
          ((barrier_calls s' = barrier_calls s ++ [9%nat] ∧ barrier_waits s' !! 1%nat = None ∧
            ∀ o x, operations s !! o = Some x → fd_entry x ≠ Some 1%nat) ∨
           (s' = s ∧ barrier_turn 1 s = (match barriers s !! 1%nat with Some _ => Ok tt s | None => Fault (UB "barrier_queue") end)))
      | Fault _ => False
      end
  | Fault _ => False
  end.
Proof.
  intros K. assert (F : match io_exec_all barrier_run (two_channels None) with
                        | Ok _ s => (hc_done <$> calls_of 1 s, calls_of 2 s, barrier_waits s !! 1%nat) = ([true], [], Some (1%nat, 9%nat)) ∧
                                    match io_exec (A_notify 1) s with Ok _ _ => True | Fault _ => False end
                        | Fault _ => False end) by (vm_compute; done).
  assert (H0 : group_ok (two_channels None)).
  { intros e f Hf. change (<[1%nat := FdEntry 5 false 0 None 1 2 None 1 0 []]> (∅ : gmap nat dispatch_fd_entry_s) !! e = Some f) in Hf.
    apply lookup_insert_Some in Hf as [[<- <-]|[_ Hf]]; [|done]. vm_compute. done. }
  destruct (io_exec_all barrier_run (two_channels None)) as [[] s|] eqn:E; [|done]. destruct F as [F1 F2].
  destruct (io_exec (A_notify 1) s) as [[] s'|] eqn:E'; [|done]. injection F1 as F3 F4 F5. split; [done|]. split; [done|].
  by apply (barrier_between_operations barrier_run 1 1 9 (two_channels None) s s').
Defined.
